(* ===== verification/_CoqProject ===== *)
-Q . S2P
Prelude.v
Bytes.v
Safe.v
StateM.v
PyStd.v
PyStr.v
Common.v
Sha256.v
Serialize.v
Base58.v
Bech32.v
Script.v
Tx.v
KeyPath.v
Key.v
PsbtMap.v
PsbtIn.v
PsbtOut.v
Psbt.v
DescChecksum.v
PubkeyProvider.v
Descriptor.v
RegDescriptor.v
Merkle.v
ClientCommand.v
LedgerWallet.v
LedgerCommands.v
LedgerHid.v
LedgerClient.v
Commands.v
PyJson.v
Errors.v
Discovery.v
Cli.v
Digitalbitbox.v
TrezorProtobuf.v
TrezorCodec.v
TrezorMessages.v
TrezorTransport.v
TrezorClient.v
TrezorBtc.v
Trezor.v
TrezorDriver.v
LedgerDriver.v
CkccProtocol.v
CkccClient.v
Coldcard.v
JadeRpc.v
JadeApi.v
Jade.v
