(* ===== verification/Prelude.v ===== *)
(** * HWI: a verification library for the Bitcoin hardware-wallet interface

    HWI (src/hwilib) is a Python package and command line tool through which
    wallets talk to hardware signing devices.  Three layers are modelled:

    - the data that crosses the boundary: transactions and partially signed
      transactions (PSBT, BIP 174 and BIP 370), extended keys and derivation
      paths (BIP 32, BIP 44, BIP 389), addresses and output scripts, output
      descriptors (BIP 380 to 386) and wallet policies (BIP 388);
    - the commands: finding a device, running a command on it, turning errors
      into their codes;
    - drivers and their protocol libraries: the Ledger with the Merkle trees of
      its client, the Coldcard, the Jade, the BitBox01, and the Trezor and
      KeepKey.

    ** Files

    Foundations, shared by all components:
    - [Prelude]: this file; exceptions and the error monad [result], stream
      readers [reader] (a Python file object over the bytes still to be read),
      Python slices and dictionaries, the tactics [invert_ok], [bools].
    - [Bytes]: bytes and integers, [struct.pack]/[struct.unpack],
      [int.to_bytes], [int.from_bytes].
    - [Safe]: which readers never run out of fuel, and the tactic for it.
    - [StateM]: computations with a state and exceptions ([state]); [zoom] runs
      one on a part of a bigger state; [ensures I m Q], an invariant and
      postcondition that holds however [m] ends, with its rules and the hint
      database [ensures].
    - [PyStd]: the standard library functions the code calls: [sorted],
      dictionaries, and the class [SetOrder] (a Python set is iterated in an
      arbitrary order; every permutation is allowed).
    - [PyStr]: Python strings: [int], [str], [split], [strip], base64, hex,
      UTF-8.
    - [PyJson]: [json.loads] and [json.dumps] on the values the code uses.
    - [Sha256]: an executable SHA-256, so that witnesses can be evaluated.

    Data; each file models the Python module of that name:
    - [Common] (common.py): networks, address types, [hash256], [hash160] over
      the class [Hashes] (hashlib's digests with their sizes as laws).
    - [Serialize] (_serialize.py): compact sizes, strings, vectors, 256-bit
      integers, DER signatures; the class [Codec] says that a serializer and a
      deserializer belong together.
    - [Base58] (_base58.py) and [Bech32] (_bech32.py): the address encodings.
    - [Script] (_script.py): recognising output scripts, multisig scripts.
    - [Tx] (tx.py): transactions, their serialization and their identifiers.
    - [KeyPath] (key.py, paths and [KeyOriginInfo]) and [Key] (key.py, points of
      secp256k1, [ExtendedKey]; HMAC-SHA512 is the class [HmacSha512]).
    - [PsbtMap], [PsbtIn], [PsbtOut], [Psbt] (psbt.py): the key-value maps all
      three levels are made of, [PartiallySignedInput],
      [PartiallySignedOutput] and [PSBT].
    - [DescChecksum], [PubkeyProvider], [Descriptor], [RegDescriptor]
      (descriptor.py): the checksum, key expressions, descriptors with their
      parser and printer, registered descriptors.

    Commands:
    - [Errors] (errors.py): exceptions, their codes, [handle_errors].
    - [Commands] (commands.py, hwwclient.py): what a command does with a client.
      A client is the record [client_ops] of its operations on the state of the
      device; the class [DeviceLaws] says what a client promises.
    - [Discovery] (commands.py): importing drivers, enumerating, [find_device];
      a driver is the record [driver], its promises the class [DriverLaws].
    - [Cli] (_cli.py): [process_commands] from the parsed arguments to the JSON
      that is printed; the class [ClientLaws] joins the two interfaces.

    Ledger (devices/ledger_bitcoin/):
    - [Merkle] (merkle.py): trees of node objects in a heap, changed in place.
    - [ClientCommand] (client_command.py): the interpreter that answers the
      device's requests for preimages, proofs and more elements.
    - [LedgerWallet] (wallet.py), [LedgerCommands] (command_builder.py),
      [LedgerHid] (ledgercomm: APDUs in HID reports), [LedgerClient] (client.py,
      client_base.py: the request loop and all requests).
    - [LedgerDriver] (ledger.py): all methods over the record [NewClient] of the
      client's operations, whose instance is [LedgerClient]; it uses the
      transactions, PSBTs, policies and the interface of [Commands].

    Coldcard (devices/ckcc/, devices/coldcard.py):
    - [CkccProtocol] (protocol.py, constants.py): requests and responses.
    - [CkccClient] (client.py, utils.py): packets, the encrypted link, the
      transfer of files.
    - [Coldcard] (coldcard.py): all methods, as a [client_ops].

    Jade (devices/jadepy/, devices/jade.py):
    - [JadeRpc] (jade.py, jade_error.py): messages, [JadeInterface], remote
      calls and the HTTP requests they may ask for.
    - [JadeApi] (jade.py): a definition for each call, and the protocols by
      which transactions and PSBTs are signed.
    - [Jade] (devices/jade.py): all methods, as a [client_ops], the constructor,
      and the signing of PSBTs for old firmware.

    Drivers of other devices:
    - [Digitalbitbox] (digitalbitbox.py): messages, frames, encryption, signing.
    - [TrezorProtobuf], [TrezorCodec] (trezorlib/protobuf.py): the codec and
      what it promises for well-formed classes (the class [SchemaLaws]);
      [TrezorMessages] (messages.py, mapping.py, keepkey.py's classes): every
      enumeration and message class, generated constructors included.
    - [TrezorTransport] (transport/protocol.py, hid.py), [TrezorClient]
      (client.py, models.py, tools.py), [TrezorBtc] (btc.py, device.py).
    - [Trezor] (trezor.py, the loops of [sign_tx]) and [TrezorDriver] (trezor.py
      and keepkey.py, all methods, as a [client_ops]).

    ** How the program is modelled

    Methods that change an object are functions from its record to the new
    record ([set_null], [deserialize], [convert_to_v2]); a method that also
    returns something returns both.  Where objects are shared and changed in
    place (the nodes of a Merkle tree) the model has a heap.  A read loop is
    [loop] over the body that reads one entry; the body's branches are one
    definition each, in the order of the [elif] chain.  Code that talks to a
    device is a [state] computation over the client object and the world behind
    it; a [try] block is a match on the result that keeps the state.
    Exceptions are values of [pyexn]; their messages are left out.  Integers are
    unbounded as in Python, and [struct.error] is raised where they do not fit.
    Dictionaries are association lists in insertion order ([pydict]).  Text has
    code points below 256; where decoding could give others the exception
    [WideText] stands for the rest of the run.  The floats of a Merkle tree's
    sizes are dyadic numbers.

    Devices, USB libraries, AES, HMAC, the clock and random bytes are parameters.
    The device's side of the Ledger protocol is written down as a specification
    ([ClientCommand]'s device functions, [LedgerClient]'s programs), against
    which the request loop is proved to be a refinement.  The Coldcard's side is
    the far end of the link ([CkccClient.linked]) around any function that
    answers messages, and so is the Jade's ([JadeRpc.jade_link]).

    ** Fuel

    Loops whose number of rounds is not a structural measure run on fuel, and
    running out is the exception [OutOfFuel], which no Python code raises.
    - [read_map], [parse_stream_to_map]: the bytes left plus one; a round that
      goes on has read a key ([loop_no_fuel_error], [psbt_deserialize_terminates]).
    - [parse_descriptor]: three levels, because of the nesting rules; key lists
      and script trees: the length of the text plus one
      ([parse_descriptor_terminates]).
    - Base 58 digits, [convertbits], the decimal printer: the size of the
      number; their round-trip theorems state that a result is produced.
    - Merkle trees: the number of nodes; [device_more]: the number of elements;
      [send_loop] of HID frames: the length of the message; the request loop of
      the Ledger: enough rounds for the device's program, which the refinement
      theorem provides.
    - [json_loads]: twice the length plus two; [sign_batches]: the number of
      hashes; [read_frames]: a number of rounds that is given, because the
      device decides.
    - [load_message]: the bytes left plus one ([load_message_no_fuel]);
      [dump_message]: the nesting depth; [ProtocolV1]'s [read]: one round for
      every 63 announced bytes ([read_enough]); a call to a Trezor: rounds that
      are given, and more of them never change a result ([call_loop_rounds]);
      [sign_passes]: the largest number of keys of an input, beyond which more
      fuel makes no difference ([sign_passes_end]).
    - The Coldcard: sending a message, its length; flushing, the packets of a
      response and polling, a number of rounds that is given, because the device
      decides, and one for each 63 bytes of the answer is enough
      ([send_recv_refines]); a download, its announced length, since a round
      without a byte is an error ([download_file_correct]).
    - The Jade: writing a message, its length, and a number of rounds for the
      times that the port takes nothing; messages of the log, the parts of a
      signed PSBT and the passes for old firmware, a number of rounds that is
      given, because the device decides; more than the messages and parts that
      come are enough ([jade_call_refines], [jade_sign_psbt_refines]).

    ** What the theorems show

    - Encodings are inverse to their parsers, in both directions where the code
      allows it: descriptors, segwit addresses, compact sizes, transactions,
      extended keys, PSBT inputs, outputs and whole PSBTs, the messages of the
      Trezor and their packets; also, outside of the list of properties, paths
      ([paths_roundtrip]) and registered descriptors ([registered_roundtrip]).
      Where information is lost (the order of sorted dictionaries, the signing
      data of a finalized input, the lock times of inputs of version 0) the
      theorem says exactly what comes back, and when it is the same
      ([psbt_all_written], [same_psbt]).
    - Parsers only return valid values: [parse_descriptor_accepts],
      [psbt_deserialize_accepts] (which fields the global map has in which
      version, and as many maps as there are inputs and outputs),
      [psbt_in_valid]; repeated keys are refused in
      every reachable state of the read loop ([psbt_in_no_duplicates]); a wrong
      checksum is ([checksum_detects_substitution]).
    - Algorithms meet their specification: lock times against BIP 370, the tree
      of node objects against the vector of its leaves (the additions that fail
      included), the hashes the BitBox01
      signs against BIP 143 and the original rule, [derive] against the keys.
    - Protocols deliver: the Ledger gets every preimage and list element it asks
      for, with proofs, and what is signed binds the request (where hashes have
      to tell strings apart, the finite list of these strings is named:
      [collision_free], [hashes_apart]); messages cross HID reports; replies of
      the BitBox01 are authentic; a Trezor's signatures come from its responses,
      and the rounds of signing get all signatures of our keys when all inputs are
      ones it signs with ECDSA and none is left out of the request; what a
      Ledger yields is all that is added to a PSBT; signing with a Coldcard, over
      packets, encryption, upload, polling and download, is one function of the
      PSBT's bytes, and what is downloaded has the announced hash; with a Jade
      the same holds over short writes and replies in parts, the anti-exfil
      protocol of its [sign_tx] sends no entropy before all commitments are
      there, and old firmware only adds signatures ([jade_legacy_adds_only]).
    - Resources and safety: every client that is opened is closed, errors have
      their codes; an address that is returned for a descriptor of a single key
      was shown for the key's own path, unless the form of the descriptor is one
      that is shown as another ([display_other_form]); no method of the Trezor
      that reads or signs can write a message that changes the device; the
      requests of a run to sign with a Ledger are for the registered policies and
      those that the inputs need, each made or registered in this run and of the
      type of its input, in their order ([ledger_signs_with]); the
      Coldcard's link is verified first, except for the policies of the Edge
      firmware ([coldcard_authenticates]).

    ** Not modelled

    - The Qt front end (_gui.py), the installer of udev rules, argparse's table
      and reading from standard input: input and output without logic of ours.
    - The driver of the BitBox02 (devices/bitbox02.py) and its vendor's library
      (bitbox02_lib, with messages that are generated from protobuf), and the
      client of the Ledger's legacy application, a parameter of [LedgerDriver].
    - Of the modelled drivers: the enumeration of devices, simulators and debug
      links, WebUSB, UDP and TCP transports.
    - The text of exceptions, [__repr__], logging.
    Hash functions and HMAC are assumed to give digests of their length. *)

From Stdlib Require Import ZArith Lia.
From Stdlib Require Strings.Byte.
From stdpp Require Export base list gmap strings sorting.
From Stdlib Require Export ZArith Lia.

#[global] Open Scope Z_scope.

Abbreviation byte := (Corelib.Init.Byte.byte).

(** A Python [bytes] object, and a Python [str] whose characters are code
    points below 256 (one [byte] per character). *)
Abbreviation bytes := (list byte).
Abbreviation pystr := (list byte).

#[export] Instance byte_eq_dec : EqDecision byte := Strings.Byte.byte_eq_dec.

Declare Scope py_scope.
Delimit Scope py_scope with py.

(** [$ "abc"] is the Python literal. *)
Definition lit (s : String.string) : pystr := String.list_byte_of_string s.
Notation "$ s" := (lit s%string) (at level 9, s at level 0, format "$ s") : py_scope.
#[global] Open Scope py_scope.

(** ** Exceptions and results *)

(** The exception classes the modelled code raises or lets through; messages
    are not modelled.  [OutOfFuel] is no Python exception: it marks a loop
    whose fuel ran out, and is shown unreachable; nor is [WideText], which
    marks decoded text with characters that the type [pystr] does not have. *)
Inductive pyexn :=
  | ValueError | BinasciiError | UnicodeError | StructError | IndexError | KeyError
  | TypeError | AssertionError | OverflowError | AttributeError | RuntimeError | PlainException
  | BadArgumentError | PSBTSerializationError | InvalidPolicyError
  | UnavailableActionError | DeviceError (code : Z) | UnknownDeviceError | NameError | ImportError
  | NoPasswordError | DeviceAlreadyInitError | DeviceNotReadyError | DeviceAlreadyUnlockedError | NotImplementedError
  | DeviceFailureError | ActionCanceledError | DeviceConnectionError | DeviceBusyError | NeedsRootError
  | EOFError | OSError | TrezorException | TrezorFailure (code : option Z) | PinException | Cancelled
  | OutdatedFirmwareError | USBErrorNoDevice | TransportException | BTChipException (sw : Z) | ApduException (sw : Z) (data : bytes)
  | CCProtoError | CCFramingError | CCUserRefused | CCBusyError | JadeError (code : option Z)
  | WideText | OutOfFuel.

#[export] Instance pyexn_eq_dec : EqDecision pyexn.
Proof. solve_decision. Defined.

(** [isinstance(e, ValueError)]: [binascii.Error] and [UnicodeError] are
    subclasses of [ValueError]. *)
Definition is_value_error (e : pyexn) : bool :=
  match e with ValueError | BinasciiError | UnicodeError => true | _ => false end.

Inductive result (A : Type) :=
  | Ok (a : A)
  | Err (e : pyexn).
Arguments Ok {A} a.
Arguments Err {A} e.

#[export] Instance result_eq_dec {A} `{EqDecision A} : EqDecision (result A).
Proof. solve_decision. Defined.

#[export] Instance result_ret : MRet result := λ A a, Ok a.
#[export] Instance result_bind : MBind result := λ A B f m,
  match m with Ok a => f a | Err e => Err e end.
#[export] Instance result_fmap : FMap result := λ A B f m,
  match m with Ok a => Ok (f a) | Err e => Err e end.

Definition is_ok {A} (r : result A) : bool := if r is Ok _ then true else false.

(** [raise e if b]. *)
Definition raise_if (b : bool) (e : pyexn) : result () := if b then Err e else Ok ().

Definition of_option {A} (e : pyexn) (o : option A) : result A :=
  match o with Some a => Ok a | None => Err e end.

Fixpoint mapR {A B} (f : A → result B) (l : list A) : result (list B) :=
  match l with
  | [] => Ok []
  | x :: r => y ← f x; ys ← mapR f r; Ok (y :: ys)
  end.

(** ** Readers: a byte stream threaded through fallible code

    The stream survives an exception, since the code catches exceptions of a
    read and goes on with the same stream object. *)
Definition reader (A : Type) : Type := bytes → result A * bytes.

#[export] Instance reader_ret : MRet reader := λ A a s, (Ok a, s).
#[export] Instance reader_bind : MBind reader := λ A B f m s,
  match m s with
  | (Ok a, s') => f a s'
  | (Err e, s') => (Err e, s')
  end.

Definition lift {A} (r : result A) : reader A := λ s, (r, s).

(** [p] reads exactly [bs], whatever follows, and returns [a]. *)
Definition reads {A} (p : reader A) (bs : bytes) (a : A) : Prop :=
  ∀ rest, p (bs ++ rest) = (Ok a, rest).

(** [while True] over a stream: [body] returns [inl] to go round again and
    [inr] to break. *)
Fixpoint loop {S A} (fuel : nat) (body : S → reader (S + A)) (st : S) : reader A :=
  match fuel with
  | O => lift (Err OutOfFuel)
  | Datatypes.S fuel =>
      r ← body st;
      match r with inl st' => loop fuel body st' | inr a => mret a end
  end.

(** [for _ in range(n): r.append(p())]. *)
Fixpoint replicateR {A} (n : nat) (p : reader A) : reader (list A) :=
  match n with
  | O => mret []
  | S n => x ← p; xs ← replicateR n p; mret (x :: xs)
  end.

(** ** Tactics *)

(** Split a hypothesis [m ≫= f = Ok y] (or a reader's) into its steps. *)
Ltac invert_ok_step :=
  match goal with
  | H : Ok _ = Ok _ |- _ => injection H as H; subst
  | H : Err _ = Ok _ |- _ => discriminate H
  | H : Ok _ = Err _ |- _ => discriminate H
  | H : mret _ = Ok _ |- _ => unfold mret, result_ret in H
  | H : mbind _ ?m = Ok _ |- _ =>
      let E := fresh "E" in
      unfold mbind, result_bind in H; destruct m eqn:E; [|discriminate H]
  | H : match ?m with Ok _ => _ | Err _ => _ end = Ok _ |- _ =>
      let E := fresh "E" in destruct m eqn:E; [|discriminate H]
  | H : raise_if ?b _ = Ok _ |- _ =>
      let E := fresh "E" in unfold raise_if in H; destruct b eqn:E; [discriminate H|clear H]
  | H : (if ?b then Err _ else _) = Ok _ |- _ =>
      let E := fresh "E" in destruct b eqn:E; [discriminate H|]
  | H : (if ?b then _ else Err _) = Ok _ |- _ =>
      let E := fresh "E" in destruct b eqn:E; [|discriminate H]
  end.
Ltac invert_ok := repeat (invert_ok_step; simpl in *).

(** Boolean comparisons to propositions. *)
Ltac bools :=
  repeat match goal with
  | H : _ && _ = true |- _ => apply andb_prop in H as [? ?]
  | H : _ || _ = false |- _ => apply orb_false_elim in H as [? ?]
  | H : negb _ = true |- _ => apply negb_true_iff in H
  | H : negb _ = false |- _ => apply negb_false_iff in H
  | H : (_ <? _) = true |- _ => apply Z.ltb_lt in H
  | H : (_ <? _) = false |- _ => apply Z.ltb_ge in H
  | H : (_ <=? _) = true |- _ => apply Z.leb_le in H
  | H : (_ <=? _) = false |- _ => apply Z.leb_gt in H
  | H : (_ =? _) = true |- _ => apply Z.eqb_eq in H
  | H : (_ =? _) = false |- _ => apply Z.eqb_neq in H
  | H : (_ =? _)%nat = true |- _ => apply Nat.eqb_eq in H
  | H : (_ =? _)%nat = false |- _ => apply Nat.eqb_neq in H
  | H : bool_decide _ = true |- _ => apply bool_decide_eq_true in H
  | H : bool_decide _ = false |- _ => apply bool_decide_eq_false in H
  end.

Create HintDb codec discriminated.

(** ** Laws of the monads *)

Lemma bind_ok {A B} (m : result A) (f : A → result B) b :
  m ≫= f = Ok b ↔ ∃ a, m = Ok a ∧ f a = Ok b.
Proof. destruct m; simpl; split; naive_solver. Qed.

Lemma bind_Ok {A B} (a : A) (f : A → result B) : Ok a ≫= f = f a.
Proof. reflexivity. Qed.

Lemma reader_bind_ok {A B} (m : reader A) (f : A → reader B) s b s' :
  (m ≫= f) s = (Ok b, s') ↔ ∃ a s1, m s = (Ok a, s1) ∧ f a s1 = (Ok b, s').
Proof.
  unfold mbind, reader_bind. split.
  - destruct (m s) as [[a|e] s1]; [eauto | discriminate].
  - intros (a & s1 & -> & H). exact H.
Qed.

Lemma reader_bind_eval {A B} (m : reader A) (f : A → reader B) s a s1 :
  m s = (Ok a, s1) → (m ≫= f) s = f a s1.
Proof. intros H. unfold mbind, reader_bind. by rewrite H. Qed.

Lemma reader_bind_err {A B} (m : reader A) (f : A → reader B) s e s1 :
  m s = (Err e, s1) → (m ≫= f) s = (Err e, s1).
Proof. intros H. unfold mbind, reader_bind. by rewrite H. Qed.

Lemma reads_ret {A} (a : A) : reads (mret a) [] a.
Proof. intros rest. reflexivity. Qed.

Lemma reads_lift {A} (r : result A) a : r = Ok a → reads (lift r) [] a.
Proof. intros -> rest. reflexivity. Qed.

Lemma reads_bind {A B} (p : reader A) (f : A → reader B) b1 b2 a b :
  reads p b1 a → reads (f a) b2 b → reads (p ≫= f) (b1 ++ b2) b.
Proof.
  intros Hp Hf rest. rewrite <- app_assoc.
  rewrite (reader_bind_eval _ _ _ _ _ (Hp (b2 ++ rest))). apply Hf.
Qed.

(** A step that consumes nothing, before or after. *)
Lemma reads_bind_nil {A B} (p : reader A) (f : A → reader B) b2 a b :
  reads p [] a → reads (f a) b2 b → reads (p ≫= f) b2 b.
Proof. intros Hp Hf. change b2 with ([] ++ b2). by eapply reads_bind. Qed.

Lemma reads_bind_end {A B} (p : reader A) (f : A → reader B) bs a b :
  reads p bs a → reads (f a) [] b → reads (p ≫= f) bs b.
Proof. intros Hp Hf. rewrite <- (app_nil_r bs). by eapply reads_bind. Qed.

Lemma reads_whole {A} (p : reader A) bs a : reads p bs a → p bs = (Ok a, []).
Proof. intros H. specialize (H []). by rewrite app_nil_r in H. Qed.

Lemma reads_replicate {A} (p : reader A) (xs : list A) (bss : list bytes) :
  Forall2 (λ x bs, reads p bs x) xs bss →
  reads (replicateR (length xs) p) (concat bss) xs.
Proof.
  induction 1 as [|x bs xs bss Hx Hxs IH]; [apply reads_ret|]. simpl.
  eapply reads_bind; [exact Hx|]. rewrite <- (app_nil_r (concat bss)).
  eapply reads_bind; [exact IH|]. apply reads_ret.
Qed.

Lemma mapR_length {A B} (f : A → result B) l r : mapR f l = Ok r → length r = length l.
Proof.
  revert r. induction l as [|x l IH]; intros r H; simpl in H; invert_ok; [done|].
  simpl. f_equal. by apply IH.
Qed.

Lemma mapR_Forall2 {A B} (f : A → result B) l r :
  mapR f l = Ok r ↔ Forall2 (λ x y, f x = Ok y) l r.
Proof.
  split.
  - revert r. induction l as [|x l IH]; intros r H; simpl in H; invert_ok; constructor; auto.
  - induction 1 as [|x y l r Hx _ IH]; simpl; [done|]. by rewrite Hx, IH.
Qed.

Lemma mapR_app {A B} (f : A → result B) l1 l2 :
  mapR f (l1 ++ l2) = (r1 ← mapR f l1; r2 ← mapR f l2; Ok (r1 ++ r2)).
Proof.
  induction l1 as [|x l1 IH]; simpl.
  - by destruct (mapR f l2).
  - destruct (f x); simpl; [|done]. rewrite IH.
    destruct (mapR f l1); simpl; [|done]. by destruct (mapR f l2).
Qed.

#[export] Hint Resolve reads_ret reads_lift : codec.

(** ** Loops over a stream *)

Section loop.
Context {S A : Type} (body : S → reader (S + A)).

(** Every round that goes on consumes at least one byte. *)
Hypothesis shrinks : ∀ st s st' s', body st s = (Ok (inl st'), s') → (length s' < length s)%nat.

Lemma loop_fuel fuel1 fuel2 st s :
  (length s < fuel1)%nat → (length s < fuel2)%nat →
  loop fuel1 body st s = loop fuel2 body st s.
Proof using shrinks.
  revert fuel2 st s. induction fuel1 as [|f1 IH]; intros f2 st s H1 H2; [lia|].
  destruct f2 as [|f2]; [lia|]. simpl. unfold mbind, reader_bind.
  destruct (body st s) as [[[st'|a]|e] s'] eqn:E; [|done|done].
  apply shrinks in E. apply IH; lia.
Qed.

Lemma loop_no_fuel_error fuel st s s' :
  (∀ st s s', body st s ≠ (Err OutOfFuel, s')) →
  (length s < fuel)%nat → loop fuel body st s ≠ (Err OutOfFuel, s').
Proof using shrinks.
  intros Hb. revert st s s'. induction fuel as [|f IH]; intros st s s' Hl; [lia|].
  simpl. unfold mbind, reader_bind.
  destruct (body st s) as [[[st'|a]|e] s1] eqn:E.
  - apply shrinks in E. apply IH. lia.
  - discriminate.
  - intros [= -> ->]. by eapply Hb.
Qed.
End loop.
