(* ===== verification/Bytes.v ===== *)
(** * Python's [bytes], [int.to_bytes]/[from_bytes], [struct], slices and streams

    The part of the language and its standard library that the serialization
    code uses, with the laws the components share. *)

From Stdlib Require Strings.Byte.
From S2P Require Import Prelude.

(** ** Bytes as integers *)

Definition ord (b : byte) : Z := Z.of_N (Byte.to_N b).
Definition chr (z : Z) : byte := default Byte.x00 (Byte.of_N (Z.to_N (z mod 256))).

#[export] Instance byte_countable : Countable byte.
Proof. exact (inj_countable Byte.to_N Byte.of_N Strings.Byte.of_to_N). Defined.

Definition len {A} (l : list A) : Z := Z.of_nat (length l).

Lemma ord_range b : 0 <= ord b < 256.
Proof. unfold ord. pose proof (Strings.Byte.to_N_bounded b). lia. Qed.

Lemma chr_ord b : chr (ord b) = b.
Proof.
  unfold chr. rewrite Z.mod_small by apply ord_range.
  unfold ord. by rewrite N2Z.id, Strings.Byte.of_to_N.
Qed.

Lemma ord_chr z : ord (chr z) = z mod 256.
Proof.
  unfold ord, chr. pose proof (Z.mod_pos_bound z 256 ltac:(lia)) as Hb.
  destruct (Byte.of_N (Z.to_N (z mod 256))) as [b|] eqn:E; simpl.
  - apply Strings.Byte.to_of_N in E. rewrite E. lia.
  - apply Strings.Byte.of_N_None_iff in E. lia.
Qed.

Lemma ord_chr_small z : 0 <= z < 256 → ord (chr z) = z.
Proof. intros. rewrite ord_chr. by apply Z.mod_small. Qed.

Lemma ord_inj b1 b2 : ord b1 = ord b2 → b1 = b2.
Proof. intros H. by rewrite <- (chr_ord b1), H, chr_ord. Qed.

#[export] Instance ord_Inj : Inj eq eq ord.
Proof. intros ??. apply ord_inj. Qed.

Lemma chr_ext z1 z2 : z1 mod 256 = z2 mod 256 → chr z1 = chr z2.
Proof. intros H. unfold chr. by rewrite H. Qed.

Lemma forall_byte (P : byte → bool) :
  forallb P (map (λ n, chr (Z.of_nat n)) (seq 0 256)) = true → ∀ b, P b = true.
Proof.
  intros H b. rewrite forallb_forall in H. apply H. apply in_map_iff.
  exists (Z.to_nat (ord b)). pose proof (ord_range b). split.
  - rewrite Z2Nat.id by lia. apply chr_ord.
  - apply in_seq. lia.
Qed.

Lemma len_nonneg {A} (l : list A) : 0 <= len l.
Proof. unfold len. lia. Qed.

Lemma len_app {A} (l1 l2 : list A) : len (l1 ++ l2) = len l1 + len l2.
Proof. unfold len. rewrite length_app. lia. Qed.

Lemma len_cons {A} (x : A) l : len (x :: l) = 1 + len l.
Proof. unfold len. simpl. lia. Qed.

Lemma len_nil_inv {A} (l : list A) : len l = 0 → l = [].
Proof. unfold len. intros. apply nil_length_inv. lia. Qed.

(** ** Slices: [l[:n]], [l[n:]], [l[a:b]], [l[:-n]], [l[-n:]], [l[i]] *)

Definition slice {A} (a b : nat) (l : list A) : list A := take (b - a) (drop a l).
Definition slice_to_neg {A} (n : nat) (l : list A) : list A := take (length l - n) l.
Definition slice_from_neg {A} (n : nat) (l : list A) : list A := drop (length l - n) l.
Definition nth_py {A} (l : list A) (i : nat) : result A := of_option IndexError (l !! i).

(** [l[i]], with negative indices counted from the end. *)
Definition index_py {A} (l : list A) (i : Z) : result A :=
  if i <? - len l then Err IndexError
  else of_option IndexError (l !! Z.to_nat (if i <? 0 then len l + i else i)).

Lemma slice_split {A} n (l : list A) : slice_to_neg n l ++ slice_from_neg n l = l.
Proof. apply take_drop. Qed.

Lemma slice_to_neg_app {A} (l1 l2 : list A) : slice_to_neg (length l2) (l1 ++ l2) = l1.
Proof. unfold slice_to_neg. rewrite length_app, Nat.add_sub. apply take_app_length. Qed.

Lemma slice_from_neg_app {A} (l1 l2 : list A) : slice_from_neg (length l2) (l1 ++ l2) = l2.
Proof. unfold slice_from_neg. rewrite length_app, Nat.add_sub. apply drop_app_length. Qed.

Lemma slice_to_neg_exact {A} (l1 l2 : list A) n : length l2 = n → slice_to_neg n (l1 ++ l2) = l1.
Proof. intros <-. apply slice_to_neg_app. Qed.

Lemma slice_from_neg_exact {A} (l1 l2 : list A) n : length l2 = n → slice_from_neg n (l1 ++ l2) = l2.
Proof. intros <-. apply slice_from_neg_app. Qed.

Lemma take_app_exact {A} (l1 l2 : list A) n : length l1 = n → take n (l1 ++ l2) = l1.
Proof. intros <-. apply take_app_length. Qed.

Lemma drop_app_exact {A} (l1 l2 : list A) n : length l1 = n → drop n (l1 ++ l2) = l2.
Proof. intros <-. apply drop_app_length. Qed.

Lemma slice_app_exact {A} (l1 l2 l3 : list A) a b :
  length l1 = a → length (l1 ++ l2) = b → slice a b (l1 ++ l2 ++ l3) = l2.
Proof.
  intros <- <-. unfold slice. rewrite drop_app_length. rewrite length_app.
  replace (length l1 + length l2 - length l1)%nat with (length l2) by lia. apply take_app_length.
Qed.

(** ** Little- and big-endian integers *)

Fixpoint le_bytes (n : nat) (z : Z) : bytes :=
  match n with O => [] | S n => chr z :: le_bytes n (z / 256) end.

Fixpoint le_int (b : bytes) : Z :=
  match b with [] => 0 | x :: r => ord x + 256 * le_int r end.

(** [int.from_bytes(b, byteorder="big")] and [z.to_bytes(n, byteorder="big")]. *)
Definition be_bytes (n : nat) (z : Z) : bytes := rev (le_bytes n z).
Definition be_int (b : bytes) : Z := le_int (rev b).
Definition to_bytes_be (n : nat) (z : Z) : result bytes :=
  if (0 <=? z) && (z <? 256 ^ Z.of_nat n) then Ok (be_bytes n z) else Err OverflowError.

Lemma length_le_bytes n z : length (le_bytes n z) = n.
Proof. revert z. induction n as [|n IH]; intros z; simpl; [done|]. by rewrite IH. Qed.

Lemma le_int_bound b : 0 <= le_int b < 256 ^ len b.
Proof.
  induction b as [|x b IH]; [done|]. rewrite len_cons.
  rewrite Z.pow_add_r by (pose proof (len_nonneg b); lia).
  change (256 ^ 1) with 256. pose proof (ord_range x). cbn [le_int]. nia.
Qed.

Lemma le_int_le_bytes n z : le_int (le_bytes n z) = z mod 256 ^ Z.of_nat n.
Proof.
  revert z. induction n as [|n IH]; intros z.
  - simpl. by rewrite Z.mod_1_r.
  - simpl le_bytes. simpl le_int. rewrite IH, ord_chr.
    rewrite Nat2Z.inj_succ, Z.pow_succ_r by lia.
    rewrite Z.rem_mul_r; lia.
Qed.

Lemma le_bytes_le_int b : le_bytes (length b) (le_int b) = b.
Proof.
  induction b as [|x b IH]; [done|]. pose proof (ord_range x) as Hx.
  cbn [length le_bytes le_int]. f_equal.
  - rewrite <- (chr_ord x) at 2. apply chr_ext.
    rewrite (Z.mul_comm 256), Z_mod_plus_full. done.
  - rewrite (Z.mul_comm 256), Z.div_add by lia. rewrite (Z.div_small (ord x)) by lia. exact IH.
Qed.

Lemma le_int_le_bytes_small n z : 0 <= z < 256 ^ Z.of_nat n → le_int (le_bytes n z) = z.
Proof. intros. rewrite le_int_le_bytes. by apply Z.mod_small. Qed.

Lemma le_int_app a b : le_int (a ++ b) = le_int a + 256 ^ len a * le_int b.
Proof.
  induction a as [|x a IH]; [unfold len; simpl; lia|].
  cbn [app le_int]. rewrite IH, len_cons, Z.pow_add_r by (pose proof (len_nonneg a); lia).
  change (256 ^ 1) with 256. ring.
Qed.

Lemma length_be_bytes n z : length (be_bytes n z) = n.
Proof. unfold be_bytes. by rewrite length_rev, length_le_bytes. Qed.

Lemma be_int_be_bytes n z : 0 <= z < 256 ^ Z.of_nat n → be_int (be_bytes n z) = z.
Proof. intros. unfold be_int, be_bytes. rewrite rev_involutive. by apply le_int_le_bytes_small. Qed.

Lemma to_bytes_be_ok n z b : to_bytes_be n z = Ok b → length b = n ∧ be_int b = z.
Proof.
  unfold to_bytes_be. destruct (Z.leb_spec 0 z), (Z.ltb_spec z (256 ^ Z.of_nat n)); try done. intros [= <-].
  split; [apply length_be_bytes|by apply be_int_be_bytes].
Qed.

Lemma to_bytes_1 n : 0 <= n < 256 → to_bytes_be 1 n = Ok [chr n].
Proof.
  intros Hn. unfold to_bytes_be. change (256 ^ Z.of_nat 1) with 256. rewrite (proj2 (Z.leb_le 0 n)), (proj2 (Z.ltb_lt n 256)) by lia. cbn [andb].
  done.
Qed.

Lemma be_bytes_be_int b : be_bytes (length b) (be_int b) = b.
Proof.
  unfold be_int, be_bytes. rewrite <- (length_rev b), le_bytes_le_int. apply rev_involutive.
Qed.

Lemma be_int_bound b : 0 <= be_int b < 256 ^ len b.
Proof. unfold be_int. pose proof (le_int_bound (rev b)) as H. unfold len in *. by rewrite length_rev in H. Qed.

Lemma be_int_cons x b : be_int (x :: b) = ord x * 256 ^ len b + be_int b.
Proof.
  unfold be_int. cbn [rev]. rewrite le_int_app. unfold len. rewrite length_rev. cbn [le_int]. ring.
Qed.

(** ** Exclusive or *)

Lemma lxor_swap a b c d : Z.lxor (Z.lxor a b) (Z.lxor c d) = Z.lxor (Z.lxor a c) (Z.lxor b d).
Proof. rewrite !Z.lxor_assoc. f_equal. rewrite <- !Z.lxor_assoc. f_equal. apply Z.lxor_comm. Qed.

Lemma lxor_bound n a b : 0 <= n → 0 <= a < 2 ^ n → 0 <= b < 2 ^ n → 0 <= Z.lxor a b < 2 ^ n.
Proof.
  intros Hn Ha Hb. split; [by apply Z.lxor_nonneg; lia|].
  destruct (decide (Z.lxor a b = 0)) as [->|H0]; [lia|].
  assert (0 <= Z.lxor a b) by (apply Z.lxor_nonneg; lia).
  apply Z.log2_lt_pow2; [lia|].
  pose proof (Z.log2_lxor a b ltac:(lia) ltac:(lia)).
  assert (∀ x, 0 <= x < 2 ^ n → x = 0 ∨ Z.log2 x < n) as Hl.
  { intros x Hx. destruct (decide (x = 0)); [by left|right]. apply Z.log2_lt_pow2; lia. }
  destruct (Hl a Ha) as [->|], (Hl b Hb) as [->|]; try lia.
  - by rewrite Z.lxor_0_l in H0.
  - rewrite Z.lxor_0_l in *. lia.
  - rewrite Z.lxor_0_r in *. lia.
Qed.

(** ** [struct.pack]/[struct.unpack]

    Unsigned formats B, H, I, Q have width 1, 2, 4, 8; [i] and [q] are signed.
    A value out of range, or a buffer of the wrong size, is a [struct.error]. *)

Definition pack_u (n : nat) (z : Z) : result bytes :=
  if (0 <=? z) && (z <? 256 ^ Z.of_nat n) then Ok (le_bytes n z) else Err StructError.
Definition unpack_u (n : nat) (b : bytes) : result Z :=
  if (length b =? n)%nat then Ok (le_int b) else Err StructError.

Definition in_s (n : nat) (z : Z) : bool :=
  (- (256 ^ Z.of_nat n / 2) <=? z) && (z <? 256 ^ Z.of_nat n / 2).
Definition signed (n : nat) (z : Z) : Z :=
  if z <? 256 ^ Z.of_nat n / 2 then z else z - 256 ^ Z.of_nat n.
Definition pack_s (n : nat) (z : Z) : result bytes :=
  if in_s n z then Ok (le_bytes n z) else Err StructError.
Definition unpack_s (n : nat) (b : bytes) : result Z :=
  if (length b =? n)%nat then Ok (signed n (le_int b)) else Err StructError.

(** [struct.pack('>I', z)] and its inverse. *)
Definition pack_u_be (n : nat) (z : Z) : result bytes :=
  if (0 <=? z) && (z <? 256 ^ Z.of_nat n) then Ok (be_bytes n z) else Err StructError.
Definition unpack_u_be (n : nat) (b : bytes) : result Z :=
  if (length b =? n)%nat then Ok (be_int b) else Err StructError.

(** The value fits an unsigned field of [n] bytes. *)
Definition fits (n : nat) (z : Z) : Prop := 0 <= z < 256 ^ Z.of_nat n.

Lemma to_bytes_be_fits n z : fits n z → to_bytes_be n z = Ok (be_bytes n z).
Proof. intros [H1 H2]. unfold to_bytes_be. rewrite (proj2 (Z.leb_le 0 z)), (proj2 (Z.ltb_lt z _)) by lia. done. Qed.

#[export] Instance fits_dec n z : Decision (fits n z).
Proof. unfold fits. apply _. Defined.

Lemma pack_u_fits n z : fits n z → pack_u n z = Ok (le_bytes n z).
Proof.
  intros [H1 H2]. unfold pack_u.
  by rewrite (proj2 (Z.leb_le _ _) H1), (proj2 (Z.ltb_lt _ _) H2).
Qed.

Lemma pack_u_be_fits n z : fits n z → pack_u_be n z = Ok (be_bytes n z).
Proof. intros [H1 H2]. unfold pack_u_be. rewrite (proj2 (Z.leb_le 0 z)), (proj2 (Z.ltb_lt z _)) by lia. done. Qed.

Lemma pack_u_ok n z b : pack_u n z = Ok b ↔ fits n z ∧ b = le_bytes n z.
Proof.
  split.
  - unfold pack_u. intros H. invert_ok. bools. done.
  - intros [H ->]. by apply pack_u_fits.
Qed.

Lemma unpack_pack_u n z b : pack_u n z = Ok b → unpack_u n b = Ok z.
Proof.
  intros [Hf ->]%pack_u_ok. unfold unpack_u. rewrite length_le_bytes, Nat.eqb_refl.
  by rewrite le_int_le_bytes_small.
Qed.

Lemma unpack_u_ok n b z : unpack_u n b = Ok z ↔ length b = n ∧ z = le_int b.
Proof.
  unfold unpack_u. split.
  - intros H. invert_ok. by bools.
  - intros [<- ->]. by rewrite Nat.eqb_refl.
Qed.

Lemma unpack_u_fits n b z : unpack_u n b = Ok z → fits n z.
Proof. intros [<- ->]%unpack_u_ok. apply le_int_bound. Qed.

Lemma pack_unpack_u n b z : unpack_u n b = Ok z → pack_u n z = Ok b.
Proof.
  intros H. rewrite (pack_u_fits _ _ (unpack_u_fits _ _ _ H)).
  apply unpack_u_ok in H as [<- ->]. by rewrite le_bytes_le_int.
Qed.

Lemma pow256_even n : (0 < n)%nat → 256 ^ Z.of_nat n = 2 * (256 ^ Z.of_nat n / 2) ∧ 0 < 256 ^ Z.of_nat n / 2.
Proof.
  intros. destruct n as [|n]; [lia|]. rewrite Nat2Z.inj_succ, Z.pow_succ_r by lia.
  replace (256 * 256 ^ Z.of_nat n) with ((128 * 256 ^ Z.of_nat n) * 2) by lia.
  rewrite Z.div_mul by lia. pose proof (Z.pow_pos_nonneg 256 (Z.of_nat n)). lia.
Qed.

Lemma unpack_pack_s n z b : (0 < n)%nat → pack_s n z = Ok b → unpack_s n b = Ok z.
Proof.
  intros Hn H. unfold pack_s, in_s in H. invert_ok. bools.
  unfold unpack_s. rewrite length_le_bytes, Nat.eqb_refl, le_int_le_bytes.
  unfold signed. destruct (pow256_even n Hn) as [He Hp]. f_equal.
  set (h := 256 ^ Z.of_nat n / 2) in *. rewrite He.
  destruct (decide (0 <= z)).
  - rewrite Z.mod_small by lia. by rewrite (proj2 (Z.ltb_lt _ _)) by lia.
  - replace (z mod (2 * h)) with (z + 2 * h).
    + rewrite (proj2 (Z.ltb_ge _ _)) by lia. lia.
    + apply (Z.mod_unique _ _ (-1)); lia.
Qed.

Lemma length_pack_u n z b : pack_u n z = Ok b → length b = n.
Proof. intros [_ ->]%pack_u_ok. apply length_le_bytes. Qed.

Lemma length_pack_s n z b : pack_s n z = Ok b → length b = n.
Proof. unfold pack_s. intros H. invert_ok. apply length_le_bytes. Qed.

Lemma unpack_pack_u_be n z b : pack_u_be n z = Ok b → unpack_u_be n b = Ok z.
Proof.
  unfold pack_u_be, unpack_u_be. intros H. invert_ok. bools.
  rewrite length_be_bytes, Nat.eqb_refl. by rewrite be_int_be_bytes.
Qed.

Lemma pack_unpack_u_be n b z : unpack_u_be n b = Ok z → pack_u_be n z = Ok b.
Proof.
  unfold pack_u_be, unpack_u_be. intros H. invert_ok. bools. subst n.
  pose proof (be_int_bound b) as [H1 H2]. unfold len in H2.
  rewrite (proj2 (Z.leb_le _ _) H1), (proj2 (Z.ltb_lt _ _) H2). simpl.
  by rewrite be_bytes_be_int.
Qed.

(** ** Streams *)

(** [sys.maxsize]: a larger count is no [Py_ssize_t]. *)
Definition maxsize : Z := 2 ^ 63 - 1.

(** [f.read(n)] for a count that is not negative: at most [n] bytes, fewer at
    the end of the stream, and [OverflowError] beyond [sys.maxsize].  (Counts
    for which the allocation itself would fail are not told apart.) *)
Definition read (n : Z) : reader bytes := λ s,
  if maxsize <? n then (Err OverflowError, s)
  else (Ok (take (Z.to_nat n) s), drop (Z.to_nat n) s).

(** [f.read()]. *)
Definition read_all : reader bytes := λ s, (Ok s, []).

(** [f.tell() == end]. *)
Definition at_end : reader bool := λ s, (Ok (bool_decide (s = [])), s).

(** [struct.unpack("<I", f.read(4))[0]] and its like. *)
Definition read_u (n : nat) : reader Z := b ← read (Z.of_nat n); lift (unpack_u n b).
Definition read_s (n : nat) : reader Z := b ← read (Z.of_nat n); lift (unpack_s n b).

Lemma reads_read b : len b <= maxsize → reads (read (len b)) b b.
Proof.
  intros H rest. unfold read. rewrite (proj2 (Z.ltb_ge _ _)) by lia.
  unfold len. rewrite Nat2Z.id. by rewrite take_app_length, drop_app_length.
Qed.

Lemma reads_read_n n b : Z.of_nat (length b) = n → n <= maxsize → reads (read n) b b.
Proof. intros <-. apply reads_read. Qed.

Lemma reads_read_u n z b : Z.of_nat n <= maxsize → pack_u n z = Ok b → reads (read_u n) b z.
Proof.
  intros Hn H. unfold read_u. eapply reads_bind_end.
  - apply reads_read_n; [|exact Hn]. by rewrite (length_pack_u _ _ _ H).
  - apply reads_lift. by eapply unpack_pack_u.
Qed.

Lemma reads_read_s n z b : (0 < n)%nat → Z.of_nat n <= maxsize → pack_s n z = Ok b → reads (read_s n) b z.
Proof.
  intros H0 Hn H. unfold read_s. eapply reads_bind_end.
  - apply reads_read_n; [|exact Hn]. by rewrite (length_pack_s _ _ _ H).
  - apply reads_lift. by eapply unpack_pack_s.
Qed.

Lemma read_length n s r s' : read n s = (r, s') → (length s' <= length s)%nat.
Proof. unfold read. case_match; intros [= <- <-]; [lia|]. rewrite length_drop. lia. Qed.

(** A fixed-width read that succeeds consumed exactly its width. *)
Lemma read_u_ok n s z s' :
  read_u n s = (Ok z, s') → ∃ b, s = b ++ s' ∧ length b = n ∧ z = le_int b.
Proof.
  unfold read_u. rewrite reader_bind_ok. intros (b & s1 & H1 & H2).
  unfold read in H1. case_match; [discriminate|]. injection H1 as H1b H1s.
  unfold lift in H2. injection H2 as H2 ->. apply unpack_u_ok in H2 as [Hl ->].
  exists b. split; [|done]. subst b s'. symmetry. apply take_drop.
Qed.
