(* ===== verification/Safe.v ===== *)
(** * Computations that never run out of fuel

    [OutOfFuel] marks a loop of the model that was not given enough rounds.
    [no_fuel_error] says that a result is not that, [safe] the same of a reader
    that moreover never lengthens its stream; both are proved by [safe_solve]
    from the hint database [safe]. *)

From S2P Require Import Prelude Bytes.

Definition no_fuel_error {A} (r : result A) : Prop := r ≠ Err OutOfFuel.

(** A reader that never grows the stream and never runs out of fuel. *)
Definition safe {A} (p : reader A) : Prop :=
  ∀ s r s', p s = (r, s') → (length s' <= length s)%nat ∧ no_fuel_error r.

Create HintDb safe discriminated.

Lemma nf_ok {A} (a : A) : no_fuel_error (Ok a).
Proof. done. Qed.

Lemma nf_bind {A B} (m : result A) (f : A → result B) :
  no_fuel_error m → (∀ a, no_fuel_error (f a)) → no_fuel_error (m ≫= f).
Proof. intros Hm Hf. destruct m as [a|e]; [apply Hf|]. intros [= ->]. by apply Hm. Qed.

Lemma nf_mapR {A B} (f : A → result B) l : (∀ a, no_fuel_error (f a)) → no_fuel_error (mapR f l).
Proof.
  intros Hf. induction l as [|x l IH]; [done|]. cbn [mapR]. apply nf_bind; [apply Hf|]. intros y.
  apply nf_bind; [exact IH|]. done.
Qed.

Lemma nf_option {A} e (o : option A) : e ≠ OutOfFuel → no_fuel_error (of_option e o).
Proof. destruct o; [done|]. intros He [= ->]. by apply He. Qed.

Lemma nf_safe {A} (p : reader A) s : safe p → no_fuel_error (p s).1.
Proof. intros Hp. destruct (p s) as [r s'] eqn:E. by eapply Hp in E as [_ ?]. Qed.

Lemma nf_unpack_u n b : no_fuel_error (unpack_u n b).
Proof. unfold unpack_u. by destruct (_ =? _)%nat. Qed.

Lemma nf_unpack_s n b : no_fuel_error (unpack_s n b).
Proof. unfold unpack_s. by destruct (_ =? _)%nat. Qed.

Lemma nf_pack_u n z : no_fuel_error (pack_u n z).
Proof. unfold pack_u. by destruct (_ && _). Qed.

Lemma nf_pack_s n z : no_fuel_error (pack_s n z).
Proof. unfold pack_s. by destruct (in_s n z). Qed.

Lemma nf_raise_if b e : e ≠ OutOfFuel → no_fuel_error (raise_if b e).
Proof. intros He. destruct b; [|done]. intros [= ->]. by apply He. Qed.

Lemma safe_ret {A} (a : A) : safe (mret a).
Proof. intros s r s' [= <- <-]. done. Qed.

Lemma safe_lift {A} (r : result A) : no_fuel_error r → safe (lift r).
Proof. intros Hr s r' s' [= <- <-]. done. Qed.

Lemma safe_bind {A B} (p : reader A) (f : A → reader B) : safe p → (∀ a, safe (f a)) → safe (p ≫= f).
Proof.
  intros Hp Hf s r s' H. unfold mbind, reader_bind in H. destruct (p s) as [[a|e] s1] eqn:E.
  - apply Hp in E as [L1 _]. apply Hf in H as [L2 N]. split; [lia|done].
  - apply Hp in E as [L1 N]. injection H as <- <-. split; [done|]. intros [= ->]. by apply N.
Qed.

Lemma safe_read n : safe (read n).
Proof.
  intros s r s' H. split; [by eapply read_length|]. unfold read in H. destruct (maxsize <? n); injection H as <- _; done.
Qed.

Lemma safe_replicate {A} n (p : reader A) : safe p → safe (replicateR n p).
Proof.
  intros Hp. induction n as [|n IH]; [apply safe_ret|]. cbn [replicateR]. apply safe_bind; [done|]. intros x.
  apply safe_bind; [done|]. intros. apply safe_ret.
Qed.

Lemma safe_read_all : safe read_all.
Proof. intros s r s' [= <- <-]. split; [simpl; lia|done]. Qed.

#[export] Hint Resolve nf_ok nf_unpack_u nf_unpack_s nf_pack_u nf_pack_s nf_option nf_safe safe_ret safe_lift
  safe_read safe_replicate safe_read_all : safe.

(** Split a composed reader into its steps. *)
Ltac safe_step :=
  cbv beta zeta;
  first
    [ solve [eauto with safe]
    | match goal with
      | |- safe (_ ≫= _) => apply safe_bind; [|intros ?]
      | |- no_fuel_error (_ ≫= _) => apply nf_bind; [|intros ?]
      | |- safe (lift _) => apply safe_lift
      | |- no_fuel_error (mapR _ _) => apply nf_mapR; intros ?
      | |- safe (if ?b then _ else _) => destruct b
      | |- no_fuel_error (if ?b then _ else _) => destruct b
      | |- safe (match ?x with _ => _ end) => destruct x
      | |- no_fuel_error (match ?x with _ => _ end) => destruct x
      end ].
Ltac safe_solve := repeat safe_step; try done.
