(* ===== verification/StateM.v ===== *)
(** * Computations over a mutable state

    [state S A] is Python code that reads and changes objects ([S]) and returns
    or raises.  The state survives an exception: what was changed before it
    stays changed. *)

From S2P Require Import Prelude.

Definition state (S A : Type) : Type := S → result A * S.

Section state.
Context {S : Type}.

#[export] Instance state_ret : MRet (state S) := λ A a s, (Ok a, s).
#[export] Instance state_bind : MBind (state S) := λ A B f m s,
  match m s with
  | (Ok a, s') => f a s'
  | (Err e, s') => (Err e, s')
  end.

Definition get : state S S := λ s, (Ok s, s).
Definition modify (f : S → S) : state S () := λ s, (Ok (), f s).
Definition raise {A} (e : pyexn) : state S A := λ s, (Err e, s).
Definition liftS {A} (r : result A) : state S A := λ s, (r, s).
Definition assert_ (b : bool) : state S () := liftS (raise_if (negb b) AssertionError).

Lemma state_bind_eval {A B} (m : state S A) (f : A → state S B) s a s1 :
  m s = (Ok a, s1) → (m ≫= f) s = f a s1.
Proof. intros H. unfold mbind, state_bind. by rewrite H. Qed.

Lemma state_bind_err {A B} (m : state S A) (f : A → state S B) s e s1 :
  m s = (Err e, s1) → (m ≫= f) s = (Err e, s1).
Proof. intros H. unfold mbind, state_bind. by rewrite H. Qed.

Lemma state_bind_ok {A B} (m : state S A) (f : A → state S B) s b s' :
  (m ≫= f) s = (Ok b, s') ↔ ∃ a s1, m s = (Ok a, s1) ∧ f a s1 = (Ok b, s').
Proof.
  unfold mbind, state_bind. split.
  - destruct (m s) as [[a|e] s1]; [eauto | discriminate].
  - intros (a & s1 & -> & H). exact H.
Qed.

Lemma assert_true (s : S) : assert_ true s = (Ok (), s).
Proof. reflexivity. Qed.
End state.

(** A computation on one field of a larger state. *)
Definition zoom {S T A} (view : S → T) (upd : T → S → S) (m : state T A) : state S A := λ s,
  let '(r, t) := m (view s) in (r, upd t s).

(** Run the first step of a composed computation, which does [m s = (Ok a, s1)] or raises. *)
Ltac run_step H := first [rewrite (state_bind_eval _ _ _ _ _ H) | rewrite (state_bind_err _ _ _ _ _ H)].

(** ** Invariants and postconditions

    [ensures I m Q]: from a state with [I], the computation [m] ends in one,
    whether it returns or raises, and what it returns has [Q]. *)
Definition ensures {S A} (I : S → Prop) (m : state S A) (Q : A → Prop) : Prop :=
  ∀ s r s', I s → m s = (r, s') → I s' ∧ ∀ a, r = Ok a → Q a.

Section ensures.
Context {S : Type} (I : S → Prop).

Lemma ensures_weaken {A} (m : state S A) (P Q : A → Prop) : ensures I m P → (∀ a, P a → Q a) → ensures I m Q.
Proof. intros Hm HPQ s r s' Hs H. destruct (Hm s r s' Hs H) as [Hs' Hp]. split; [done|]. intros a Ha. by apply HPQ, Hp. Qed.

Lemma ensures_ret {A} (a : A) (Q : A → Prop) : Q a → ensures I (mret a) Q.
Proof. intros Ha s r s' Hs [= <- <-]. split; [done|]. by intros a' [= <-]. Qed.

Lemma ensures_raise {A} e (Q : A → Prop) : ensures I (raise e) Q.
Proof. intros s r s' Hs [= <- <-]. by split. Qed.

Lemma ensures_liftS {A} (x : result A) (Q : A → Prop) : (∀ a, x = Ok a → Q a) → ensures I (liftS x) Q.
Proof. intros Hx s r s' Hs [= <- <-]. by split. Qed.

Lemma ensures_lift {A} (x : result A) : ensures I (liftS x) (λ a, x = Ok a).
Proof. by apply ensures_liftS. Qed.

Lemma ensures_bind {A B} (m : state S A) (f : A → state S B) P Q :
  ensures I m P → (∀ a, P a → ensures I (f a) Q) → ensures I (m ≫= f) Q.
Proof.
  intros Hm Hf s r s' Hs. destruct (m s) as [[a|e] s1] eqn:Em; destruct (Hm _ _ _ Hs Em) as [Hs1 Ha].
  - rewrite (state_bind_eval _ _ _ _ _ Em). apply Hf; [by apply Ha|done].
  - rewrite (state_bind_err _ _ _ _ _ Em). intros [= <- <-]. by split.
Qed.

(** The value was computed from a state with the invariant. *)
Lemma ensures_run {A} (m : state S A) Q : ensures I m Q → ensures I m (λ a, Q a ∧ ∃ s s', I s ∧ m s = (Ok a, s')).
Proof. intros Hm s r s' Hs H. destruct (Hm s r s' Hs H) as [Hs' Hq]. split; [done|]. intros a ->. split; [by apply Hq|eauto]. Qed.

Lemma ensures_catch {A} (m : state S A) (h : pyexn → option (state S A)) Q :
  ensures I m Q → (∀ e k, h e = Some k → ensures I k Q) →
  ensures I (λ s, match m s with (Err e, s) => match h e with Some k => k s | None => (Err e, s) end | x => x end) Q.
Proof.
  intros Hm Hh s r s' Hs. destruct (m s) as [[a|e] s1] eqn:Em; destruct (Hm _ _ _ Hs Em) as [Hs1 Ha].
  - intros [= <- <-]. split; [done|]. intros a' [= <-]. by apply Ha.
  - destruct (h e) as [k|] eqn:Eh; [by apply (Hh e k Eh)|]. by intros [= <- <-].
Qed.
End ensures.

Create HintDb ensures.
#[export] Hint Resolve ensures_raise ensures_lift : ensures.

(** Take a composed computation apart; what the parts ensure comes from the hints. *)
Ltac ensures_step :=
  lazymatch goal with
  | |- ensures _ (mbind _ _) _ => eapply ensures_bind; [solve [eauto with ensures]|intros ? ?]
  | |- ensures _ (mret _) _ => apply ensures_ret
  | |- ensures _ (raise _) _ => apply ensures_raise
  | |- ensures _ (liftS _) _ => apply ensures_liftS; intros ? ?
  | |- ensures _ (if ?b then _ else _) _ => destruct b eqn:?
  | |- ensures _ (match ?x with _ => _ end) _ => destruct x eqn:?
  end.
