(* ===== verification/PyStd.v ===== *)
(** * Python dictionaries, sets, sorting, strings, [int()], hex and base64

    The rest of the language and standard library the modelled code uses.
    A dictionary is its insertion-ordered list of items; a set is a [gset],
    whose iteration order is an oracle ([SetOrder]), because the order in
    which Python iterates a set of [bytes] changes from run to run. *)

From S2P Require Import Prelude Bytes.

(** ** Dictionaries *)

Abbreviation pydict K V := (list (K * V)).

Section dict.
Context {K V : Type} `{EqDecision K}.
Implicit Types d : pydict K V.

Fixpoint dict_get (k : K) d : option V :=
  match d with
  | [] => None
  | (k', v) :: d => if decide (k' = k) then Some v else dict_get k d
  end.

Definition dict_in (k : K) d : bool := if dict_get k d is Some _ then true else false.

(** [d[k] = v]: a new key goes last, a known key keeps its place. *)
Fixpoint dict_set (k : K) (v : V) d : pydict K V :=
  match d with
  | [] => [(k, v)]
  | (k', v') :: d => if decide (k' = k) then (k', v) :: d else (k', v') :: dict_set k v d
  end.

(** The invariant of the representation: no key twice. *)
Definition dict_wf d : Prop := NoDup d.*1.

Lemma dict_in_elem k d : dict_in k d = true ↔ k ∈ d.*1.
Proof.
  unfold dict_in. induction d as [|[k' v] d IH]; simpl; [set_solver|].
  case_decide as H; [subst; set_solver|]. rewrite IH, elem_of_cons. naive_solver.
Qed.

Lemma dict_not_in k d : dict_in k d = false ↔ k ∉ d.*1.
Proof. rewrite <- dict_in_elem. by destruct (dict_in k d). Qed.

Lemma dict_get_set k k' v d :
  dict_get k' (dict_set k v d) = if decide (k = k') then Some v else dict_get k' d.
Proof.
  induction d as [|[k1 v1] d IH]; simpl; [done|].
  repeat (case_decide; subst; simpl; try done).
Qed.

Lemma dict_set_fresh k v d : k ∉ d.*1 → dict_set k v d = d ++ [(k, v)].
Proof.
  induction d as [|[k' v'] d IH]; intros H; simpl in *; [done|].
  apply not_elem_of_cons in H as [H1 H2].
  case_decide; [congruence|]. by rewrite IH.
Qed.

Lemma dict_set_keys k v d : k ∈ d.*1 → (dict_set k v d).*1 = d.*1.
Proof.
  induction d as [|[k' v'] d IH]; intros H; simpl in *; [set_solver|].
  case_decide; simpl; [done|]. f_equal. apply IH. set_solver.
Qed.

Lemma dict_set_wf k v d : dict_wf d → dict_wf (dict_set k v d).
Proof.
  unfold dict_wf. intros H. destruct (decide (k ∈ d.*1)) as [Hk|Hk].
  - by rewrite dict_set_keys.
  - rewrite dict_set_fresh, fmap_app by done. apply NoDup_app. split; [done|].
    split; [|apply NoDup_singleton]. set_solver.
Qed.

Lemma dict_set_length k v d : (length d <= length (dict_set k v d))%nat.
Proof. induction d as [|[k' v'] d IH]; simpl; [lia|]. case_decide; simpl; lia. Qed.

(** Inserting the items of a dictionary into an empty one rebuilds it. *)
Definition dict_of_items (l : list (K * V)) : pydict K V :=
  foldl (λ d kv, dict_set kv.1 kv.2 d) [] l.

Lemma foldl_dict_set d l :
  NoDup (d ++ l).*1 → foldl (λ d kv, dict_set kv.1 kv.2 d) d l = d ++ l.
Proof.
  revert d. induction l as [|[k v] l IH]; intros d H; simpl; [by rewrite app_nil_r|].
  rewrite fmap_app in H. simpl in H.
  rewrite dict_set_fresh.
  - rewrite IH, <- app_assoc; [done|]. by rewrite !fmap_app, <- app_assoc.
  - apply NoDup_app in H as (_ & H & _). intros Hk. apply (H _ Hk). left.
Qed.

Lemma dict_of_items_wf l : dict_wf l → dict_of_items l = l.
Proof. apply (foldl_dict_set []). Qed.

Lemma dict_get_Some_elem k v d : dict_get k d = Some v → (k, v) ∈ d.
Proof.
  induction d as [|[k' v'] d IH]; simpl; [done|].
  case_decide; [intros [= ->]; subst; left | intros; right; auto].
Qed.

Lemma elem_dict_get k v d : dict_wf d → (k, v) ∈ d → dict_get k d = Some v.
Proof.
  unfold dict_wf. induction d as [|[k' v'] d IH]; simpl; [set_solver|].
  rewrite NoDup_cons, elem_of_cons. intros [Hk Hd] [[= -> ->]|He].
  - by case_decide.
  - case_decide; [|by apply IH]. subst k'. exfalso. apply Hk.
    apply list_elem_of_fmap. by exists (k, v).
Qed.

(** Two dictionaries are equal in Python when they have the same items,
    in whatever order. *)
Definition dict_eq d1 d2 : Prop := ∀ k, dict_get k d1 = dict_get k d2.

Lemma perm_dict_eq d1 d2 : dict_wf d1 → d1 ≡ₚ d2 → dict_eq d1 d2.
Proof.
  intros Hwf Hp k.
  assert (dict_wf d2) as Hwf2 by (unfold dict_wf in *; by rewrite <- Hp).
  destruct (dict_get k d1) as [v|] eqn:E1.
  - symmetry. apply elem_dict_get; [done|]. rewrite <- Hp. by apply dict_get_Some_elem.
  - destruct (dict_get k d2) as [v|] eqn:E2; [|done].
    apply dict_get_Some_elem in E2. rewrite <- Hp in E2.
    apply elem_dict_get in E2; [congruence|done].
Qed.
End dict.

#[export] Instance dict_eq_equiv {K V} `{EqDecision K} : Equivalence (@dict_eq K V _).
Proof.
  split.
  - by intros d k.
  - by intros d1 d2 H k.
  - intros d1 d2 d3 H1 H2 k. by rewrite H1.
Qed.

#[export] Instance dict_get_proper {K V} `{EqDecision K} (k : K) :
  Proper (@dict_eq K V _ ==> eq) (dict_get k).
Proof. intros d1 d2 H. apply H. Qed.

#[export] Instance dict_in_proper {K V} `{EqDecision K} (k : K) :
  Proper (@dict_eq K V _ ==> eq) (dict_in k).
Proof. intros d1 d2 H. unfold dict_in. by rewrite H. Qed.

#[export] Instance dict_set_proper {K V} `{EqDecision K} (k : K) (v : V) :
  Proper (@dict_eq K V _ ==> @dict_eq K V _) (dict_set k v).
Proof. intros d1 d2 H k'. rewrite !dict_get_set. by case_decide. Qed.

(** ** Versions: triples are compared as tuples *)

Definition version_lt (a b : Z * Z * Z) : bool :=
  let '(a1, a2, a3) := a in
  let '(b1, b2, b3) := b in
  (a1 <? b1) || (a1 =? b1) && ((a2 <? b2) || (a2 =? b2) && (a3 <? b3)).

(** ** [sorted] with an order of one's own ([key=] or [__lt__]), which is stable *)

Section sort_by.
Context {A : Type} (lt : A → A → bool).

Fixpoint insert_by (x : A) (l : list A) : list A :=
  match l with
  | [] => [x]
  | y :: l => if lt y x then y :: insert_by x l else x :: y :: l
  end.

Definition sort_by (l : list A) : list A := foldr insert_by [] l.

Lemma insert_by_perm x l : insert_by x l ≡ₚ x :: l.
Proof. induction l as [|y l IH]; simpl; [done|]. case_match; [|done]. rewrite IH. apply Permutation_swap. Qed.

Lemma sort_by_perm l : sort_by l ≡ₚ l.
Proof. induction l as [|x l IH]; simpl; [done|]. rewrite insert_by_perm. by f_equiv. Qed.
End sort_by.

(** The result is in order, where [lt] decides a preorder. *)
Lemma sort_by_ordered {A} (lt : A → A → bool) (le : A → A → Prop) `{!Transitive le} l :
  (∀ x y, lt y x = true → le y x) → (∀ x y, lt y x = false → le x y) → StronglySorted le (sort_by lt l).
Proof.
  intros Ht Hf. induction l as [|x l IH]; simpl; [constructor|]. induction IH as [|y m Hm IHm Hy]; simpl; [repeat constructor|].
  destruct (lt y x) eqn:E.
  - constructor; [done|]. rewrite insert_by_perm. constructor; [by apply Ht|done].
  - apply Hf in E. constructor; [by constructor|]. constructor; [done|]. eapply Forall_impl; [exact Hy|]. intros z Hz. by transitivity y.
Qed.

(** Sorting with an integer key. *)
Lemma sort_by_sorted {A} (key : A → Z) l : StronglySorted (λ a b, key a <= key b) (sort_by (λ a b, key a <? key b) l).
Proof. apply sort_by_ordered; [intros ???; lia|intros x y; lia..]. Qed.

(** ** [sorted(d.items())] for a dictionary with [bytes] keys

    Python compares the items as tuples; the keys of a dictionary differ, so
    the values are never compared. *)

Fixpoint bytes_leb (a b : bytes) : bool :=
  match a, b with
  | [], _ => true
  | _ :: _, [] => false
  | x :: a, y :: b => if ord x =? ord y then bytes_leb a b else ord x <? ord y
  end.

Lemma bytes_leb_total a b : bytes_leb a b = true ∨ bytes_leb b a = true.
Proof.
  revert b. induction a as [|x a IH]; intros [|y b]; simpl; auto.
  destruct (Z.eqb_spec (ord x) (ord y)) as [E|E].
  - rewrite E, Z.eqb_refl. apply IH.
  - rewrite (proj2 (Z.eqb_neq _ _)) by congruence. rewrite !Z.ltb_lt. lia.
Qed.

Lemma bytes_leb_refl a : bytes_leb a a = true.
Proof. by destruct (bytes_leb_total a a). Qed.

Lemma bytes_leb_antisym a b : bytes_leb a b = true → bytes_leb b a = true → a = b.
Proof.
  revert b. induction a as [|x a IH]; intros [|y b]; simpl; try done.
  destruct (Z.eqb_spec (ord x) (ord y)) as [E|E].
  - rewrite E, Z.eqb_refl. intros. f_equal; [by apply ord_inj|by apply IH].
  - rewrite (proj2 (Z.eqb_neq _ _)) by congruence. rewrite !Z.ltb_lt. lia.
Qed.

Lemma bytes_leb_trans a b c : bytes_leb a b = true → bytes_leb b c = true → bytes_leb a c = true.
Proof.
  revert b c. induction a as [|x a IH]; intros [|y b] [|z c]; simpl; try done.
  destruct (Z.eqb_spec (ord x) (ord y)), (Z.eqb_spec (ord y) (ord z)),
    (Z.eqb_spec (ord x) (ord z)); rewrite ?Z.ltb_lt; try lia; eauto.
Qed.

Section sort.
Context {V : Type}.
Implicit Types d : pydict bytes V.

Definition item_le (a b : bytes * V) : Prop := bytes_leb a.1 b.1 = true.

Fixpoint sort_insert (x : bytes * V) d : pydict bytes V :=
  match d with
  | [] => [x]
  | y :: d => if bytes_leb x.1 y.1 then x :: y :: d else y :: sort_insert x d
  end.

Definition sorted_items d : pydict bytes V := foldr sort_insert [] d.

#[local] Instance item_le_trans : Transitive item_le.
Proof. intros a b c. apply bytes_leb_trans. Qed.

Lemma sort_insert_perm x d : sort_insert x d ≡ₚ x :: d.
Proof.
  induction d as [|y d IH]; simpl; [done|]. case_match; [done|].
  rewrite IH. apply Permutation_swap.
Qed.

Lemma sorted_items_perm d : sorted_items d ≡ₚ d.
Proof. induction d as [|x d IH]; simpl; [done|]. rewrite sort_insert_perm. by f_equiv. Qed.

Lemma sort_insert_sorted x d : StronglySorted item_le d → StronglySorted item_le (sort_insert x d).
Proof.
  induction d as [|y d IH]; intros H; simpl; [repeat constructor|].
  inversion H as [|? ? Hd Hy]; subst. case_match eqn:E.
  - constructor; [done|]. constructor; [done|].
    eapply Forall_impl; [exact Hy|]. intros z Hz. by transitivity y.
  - constructor; [by apply IH|]. rewrite sort_insert_perm. constructor; [|done].
    unfold item_le. destruct (bytes_leb_total x.1 y.1) as [?|?]; congruence.
Qed.

Lemma sorted_items_sorted d : StronglySorted item_le (sorted_items d).
Proof. induction d as [|x d IH]; simpl; [constructor|]. by apply sort_insert_sorted. Qed.

Lemma sorted_items_id d : StronglySorted item_le d → sorted_items d = d.
Proof.
  induction 1 as [|x d Hd IH Hx]; simpl; [done|]. rewrite IH.
  destruct d as [|y d]; simpl; [done|]. apply Forall_cons_1 in Hx as [Hx _].
  unfold item_le in Hx. by rewrite Hx.
Qed.

Lemma sorted_items_idemp d : sorted_items (sorted_items d) = sorted_items d.
Proof. apply sorted_items_id, sorted_items_sorted. Qed.

Lemma sorted_items_wf d : dict_wf d → dict_wf (sorted_items d).
Proof. unfold dict_wf. by rewrite sorted_items_perm. Qed.

(** The order a dictionary was filled in does not matter once it is sorted. *)
Lemma sorted_items_unique d1 d2 : dict_wf d1 → d1 ≡ₚ d2 → sorted_items d1 = sorted_items d2.
Proof.
  intros Hw Hp. apply (StronglySorted_unique_strong item_le); [|apply sorted_items_sorted..|by rewrite !sorted_items_perm].
  intros [k1 v1] [k2 v2] H1 H2 L1 L2. rewrite sorted_items_perm in H1, H2. rewrite <- Hp in H2.
  pose proof (bytes_leb_antisym _ _ L1 L2) as E. cbn [fst] in E. subst k2. f_equal. unfold dict_wf in Hw.
  clear -Hw H1 H2. induction d1 as [|[k v] d IH]; [set_solver|]. cbn in Hw. apply NoDup_cons in Hw as [Hk Hw].
  apply elem_of_cons in H1 as [[= -> ->]|H1]; apply elem_of_cons in H2 as [E|H2]; [by injection E| | |by apply IH];
    exfalso; apply Hk, list_elem_of_fmap; [by eexists (_, _)|injection E as -> ->; by eexists (_, _)].
Qed.

Lemma sorted_items_eq d : dict_wf d → dict_eq (sorted_items d) d.
Proof. intros. symmetry. apply perm_dict_eq; [done|]. by rewrite sorted_items_perm. Qed.
End sort.

(** ** Iterating a set *)

Class SetOrder := {
  set_iter : gset bytes → list bytes;
  set_iter_perm s : set_iter s ≡ₚ elements s;
}.

(** One possible order, for evaluating the model. *)
#[export] Instance elements_order : SetOrder | 100 := {| set_iter := elements; set_iter_perm s := reflexivity _ |}.

Lemma set_iter_list_to_set `{SetOrder} (s : gset bytes) : list_to_set (set_iter s) = s.
Proof. rewrite set_iter_perm. apply list_to_set_elements_L. Qed.

Lemma set_iter_length `{SetOrder} (s : gset bytes) : length (set_iter s) = size s.
Proof. by rewrite set_iter_perm. Qed.

Lemma set_iter_elem `{SetOrder} (s : gset bytes) x : x ∈ set_iter s ↔ x ∈ s.
Proof. by rewrite set_iter_perm, elem_of_elements. Qed.

(** ** Digits of a number in a base, least significant first *)

Fixpoint digits_fuel (fuel : nat) (b n : Z) : list Z :=
  match fuel with
  | O => []
  | S fuel => if n <=? 0 then [] else n mod b :: digits_fuel fuel b (n / b)
  end.

(** [while n > 0: n, r = divmod(n, b); temp.append(r)]; [log2 n + 1] rounds
    are enough in every base. *)
Definition digits_le (b n : Z) : list Z := digits_fuel (S (Z.to_nat (Z.log2 n))) b n.

(** The number a list of digits denotes. *)
Fixpoint undigits (b : Z) (ds : list Z) : Z :=
  match ds with [] => 0 | d :: r => d + b * undigits b r end.

Lemma digits_fuel_undigits fuel b n :
  2 <= b → 0 <= n < 2 ^ Z.of_nat fuel → undigits b (digits_fuel fuel b n) = n.
Proof.
  intros Hb. revert n. induction fuel as [|f IH]; intros n Hn; [simpl in *; lia|].
  cbn [digits_fuel]. destruct (Z.leb_spec n 0); [simpl; lia|]. cbn [undigits].
  rewrite IH; [pose proof (Z.div_mod n b); lia|].
  rewrite Nat2Z.inj_succ, Z.pow_succ_r in Hn by lia. split; [apply Z.div_pos; lia|].
  apply Z.div_lt_upper_bound; [lia|]. nia.
Qed.

Lemma undigits_digits_le b n : 2 <= b → 0 <= n → undigits b (digits_le b n) = n.
Proof.
  intros Hb Hn. apply digits_fuel_undigits; [done|]. split; [done|].
  destruct (decide (n = 0)) as [->|]; [done|].
  rewrite Nat2Z.inj_succ, Z2Nat.id by apply Z.log2_nonneg. apply Z.log2_spec. lia.
Qed.

Lemma digits_fuel_range fuel b n : 2 <= b → Forall (λ d, 0 <= d < b) (digits_fuel fuel b n).
Proof.
  intros Hb. revert n. induction fuel as [|f IH]; intros n; simpl; [constructor|].
  case_match; constructor; [apply Z.mod_pos_bound; lia|apply IH].
Qed.

Lemma digits_le_range b n : 2 <= b → Forall (λ d, 0 <= d < b) (digits_le b n).
Proof. apply digits_fuel_range. Qed.

(** The most significant digit is not zero. *)
Definition canonical (ds : list Z) : Prop := last ds ≠ Some 0.

Lemma digits_fuel_canonical fuel b n :
  2 <= b → 0 <= n < 2 ^ Z.of_nat fuel → canonical (digits_fuel fuel b n).
Proof.
  intros Hb. unfold canonical. revert n. induction fuel as [|f IH]; intros n Hn; [done|].
  cbn [digits_fuel]. destruct (Z.leb_spec n 0); [done|].
  assert (0 <= n / b < 2 ^ Z.of_nat f) as Hd.
  { rewrite Nat2Z.inj_succ, Z.pow_succ_r in Hn by lia. split; [apply Z.div_pos; lia|].
    apply Z.div_lt_upper_bound; [lia|]. nia. }
  specialize (IH _ Hd). destruct (digits_fuel f b (n / b)) as [|d ds] eqn:E.
  - simpl. intros [= Hm].
    assert (n / b = 0) as H0 by (rewrite <- (digits_fuel_undigits f b (n / b)), E; done).
    pose proof (Z.div_mod n b). lia.
  - exact IH.
Qed.

Lemma digits_le_canonical b n : 2 <= b → 0 <= n → canonical (digits_le b n).
Proof.
  intros Hb Hn. apply digits_fuel_canonical; [done|]. split; [done|].
  destruct (decide (n = 0)) as [->|]; [done|].
  rewrite Nat2Z.inj_succ, Z2Nat.id by apply Z.log2_nonneg. apply Z.log2_spec. lia.
Qed.

Lemma undigits_inj b ds1 ds2 :
  2 <= b → Forall (λ d, 0 <= d < b) ds1 → Forall (λ d, 0 <= d < b) ds2 →
  canonical ds1 → canonical ds2 → undigits b ds1 = undigits b ds2 → ds1 = ds2.
Proof.
  intros Hb H1. revert ds2. induction H1 as [|d1 ds1 Hd1 H1 IH]; intros ds2 H2 C1 C2 E.
  - symmetry. clear C1. induction H2 as [|d ds Hd H2 IH2]; [done|]. exfalso.
    assert (0 <= undigits b ds) by (clear -H2 Hb; induction H2; simpl; nia).
    simpl in E. assert (d = 0) by nia. assert (undigits b ds = 0) as E0 by nia. subst d.
    destruct ds as [|d' ds]; [by apply C2|].
    assert (d' :: ds = []) as Heq by (apply IH2; [exact C2|done]). discriminate.
  - destruct ds2 as [|d2 ds2].
    + exfalso. clear IH C2. revert d1 Hd1 C1 E. induction H1 as [|d ds Hd H1 IH2]; intros d1 Hd1 C1 E.
      * simpl in E. apply C1. simpl. f_equal. nia.
      * assert (0 <= undigits b (d :: ds)) by (clear -H1 Hb Hd; simpl;
          assert (0 <= undigits b ds) by (induction H1; simpl; nia); nia).
        cbn [undigits] in E, H. apply (IH2 d Hd C1). cbn [undigits]. nia.
    + apply Forall_cons_1 in H2 as [Hd2 H2]. simpl in E.
      assert (d1 = d2 ∧ undigits b ds1 = undigits b ds2) as [-> E'].
      { assert (d1 mod b = d2 mod b) as Hm.
        { rewrite <- (Z_mod_plus_full d1 (undigits b ds1) b), <- (Z_mod_plus_full d2 (undigits b ds2) b).
          f_equal. lia. }
        rewrite !Z.mod_small in Hm by lia. subst. split; [done|]. nia. }
      f_equal. apply IH; [done| | |done].
      * destruct ds1; [done|exact C1].
      * destruct ds2; [done|exact C2].
Qed.

Lemma undigits_snoc b l d : undigits b (l ++ [d]) = undigits b l + b ^ len l * d.
Proof.
  induction l as [|x l IH]; [unfold len; simpl; lia|].
  cbn [app undigits]. rewrite IH, len_cons, Z.pow_add_r, Z.pow_1_r
    by (pose proof (len_nonneg l); lia). ring.
Qed.

Lemma digits_fuel_length fuel b n : (length (digits_fuel fuel b n) <= fuel)%nat.
Proof. revert n. induction fuel as [|f IH]; intros n; simpl; [lia|]. case_match; simpl; [lia|]. specialize (IH (n / b)). lia. Qed.

(** Several items at once. *)
Lemma dict_get_set_items {K V} `{EqDecision K} (l d : pydict K V) k : NoDup l.*1 →
  dict_get k (foldl (λ d kv, dict_set kv.1 kv.2 d) d l) = match dict_get k l with Some v => Some v | None => dict_get k d end.
Proof.
  revert d. induction l as [|[k1 v1] l IH]; intros d Hl; [done|]. cbn [fmap list_fmap] in Hl. apply NoDup_cons in Hl as [Hk Hl]. cbn [fst] in Hk.
  cbn [foldl dict_get fst snd]. rewrite IH by done. rewrite dict_get_set. case_decide as E; [|done]. subst k1.
  destruct (dict_get k l) as [v|] eqn:Ev; [|done]. exfalso. apply Hk. apply dict_in_elem. unfold dict_in. by rewrite Ev.
Qed.

(** A selection of the items, with other values. *)
Lemma dict_get_omap {K V W} `{EqDecision K} (f : K * V → option W) (l : pydict K V) k : NoDup l.*1 →
  dict_get k (omap (λ kv, w ← f kv; Some (kv.1, w)) l) = (v ← dict_get k l; f (k, v)) ∧
  NoDup (omap (λ kv, w ← f kv; Some (kv.1, w)) l).*1.
Proof.
  induction l as [|[k1 v1] l IH]; intros Hl; [split; [done|constructor]|]. cbn [fmap list_fmap] in Hl. apply NoDup_cons in Hl as [Hk Hl]. cbn [fst] in Hk.
  destruct (IH Hl) as [IH1 IH2]. assert (∀ x, x ∈ (omap (λ kv, w ← f kv; Some (kv.1, w)) l).*1 → x ∈ l.*1) as Hsub.
  { intros x (y & -> & Hy)%list_elem_of_fmap. apply list_elem_of_omap in Hy as ([k' v'] & Hin & Hf). destruct (f (k', v')) as [w|]; [|discriminate].
    injection Hf as <-. apply list_elem_of_fmap. by exists (k', v'). }
  cbn [omap list_omap dict_get fst]. destruct (f (k1, v1)) as [w|] eqn:Ef; cbn [mbind option_bind fmap list_fmap].
  - split; [|constructor; [by intros ?%Hsub|done]]. cbn [dict_get]. case_decide as E; [subst k1; cbn [mbind option_bind]; by rewrite Ef|exact IH1].
  - split; [|done]. case_decide as E; [|exact IH1]. subst k1. cbn [mbind option_bind]. rewrite Ef, IH1.
    destruct (dict_get k l) as [v|] eqn:Ev; [|done]. exfalso. apply Hk. apply dict_in_elem. unfold dict_in. by rewrite Ev.
Qed.
