(* ===== verification/PyStr.v ===== *)
(** * Python strings: searching, splitting, [int()], [str()], hex and base64

    Strings are lists of code points below 256.  On that range the functions
    below are Python's: which characters are white space or digits, what
    [lower] does, what [int] accepts. *)

From S2P Require Import Prelude Bytes PyStd.

(** ** Searching and splitting *)

(** [s.find(c)] for one character; [None] is Python's [-1]. *)
Fixpoint find_char (c : byte) (s : pystr) : option nat :=
  match s with
  | [] => None
  | x :: s => if decide (x = c) then Some O else S <$> find_char c s
  end.

(** [s.rfind(c)]. *)
Fixpoint rfind_char (c : byte) (s : pystr) : option nat :=
  match s with
  | [] => None
  | x :: s => match rfind_char c s with
              | Some i => Some (S i)
              | None => if decide (x = c) then Some O else None
              end
  end.

(** [s.split(c)]: never empty. *)
Fixpoint split_char (c : byte) (s : pystr) : list pystr :=
  match s with
  | [] => [[]]
  | x :: s =>
      if decide (x = c) then [] :: split_char c s
      else match split_char c s with
           | [] => [[x]]
           | p :: ps => (x :: p) :: ps
           end
  end.

(** [c.join(l)] for a one-character separator. *)
Fixpoint join_char (c : byte) (l : list pystr) : pystr :=
  match l with
  | [] => []
  | [p] => p
  | p :: r => p ++ c :: join_char c r
  end.

Definition startswith_char (c : byte) (s : pystr) : bool :=
  if s is x :: _ then bool_decide (x = c) else false.
Definition endswith_char (c : byte) (s : pystr) : bool :=
  if last s is Some x then bool_decide (x = c) else false.

Lemma find_char_None c s : find_char c s = None ↔ c ∉ s.
Proof.
  induction s as [|x s IH]; simpl; [set_solver|].
  case_decide; [subst; set_solver|]. rewrite fmap_None, IH. set_solver.
Qed.

Lemma find_char_lookup c s i : find_char c s = Some i → s !! i = Some c.
Proof.
  revert i. induction s as [|x s IH]; intros i H; [done|]. cbn [find_char] in H.
  destruct (decide (x = c)) as [->|]; [by injection H as <-|].
  destruct (find_char c s) as [j|]; [|done]. injection H as <-. exact (IH j eq_refl).
Qed.

Lemma find_char_app c s1 s2 : c ∉ s1 → find_char c (s1 ++ c :: s2) = Some (length s1).
Proof.
  induction s1 as [|x s1 IH]; intros H; simpl.
  - by rewrite decide_True.
  - apply not_elem_of_cons in H as [H1 H2]. rewrite decide_False by congruence. by rewrite IH.
Qed.

Lemma rfind_char_None c s : rfind_char c s = None ↔ c ∉ s.
Proof.
  induction s as [|x s IH]; simpl; [set_solver|].
  destruct (rfind_char c s); [|case_decide]; set_solver.
Qed.

Lemma rfind_char_app c s1 s2 : c ∉ s2 → rfind_char c (s1 ++ c :: s2) = Some (length s1).
Proof.
  intros H. induction s1 as [|x s1 IH]; simpl.
  - rewrite (proj2 (rfind_char_None c s2) H). by rewrite decide_True.
  - by rewrite IH.
Qed.

Lemma split_char_nonempty c s : split_char c s ≠ [].
Proof. destruct s as [|x s]; simpl; [done|]. case_decide; [done|]. by destruct (split_char c s). Qed.

Lemma split_char_no c s : c ∉ s → split_char c s = [s].
Proof.
  induction s as [|x s IH]; intros H; simpl; [done|].
  apply not_elem_of_cons in H as [H1 H2]. rewrite decide_False by congruence. by rewrite IH.
Qed.

Lemma split_char_app c s1 s2 : c ∉ s1 → split_char c (s1 ++ c :: s2) = s1 :: split_char c s2.
Proof.
  induction s1 as [|x s1 IH]; intros H; simpl.
  - by rewrite decide_True.
  - apply not_elem_of_cons in H as [H1 H2]. rewrite decide_False by congruence. by rewrite IH.
Qed.

Lemma split_join_char c l :
  l ≠ [] → Forall (λ p, c ∉ p) l → split_char c (join_char c l) = l.
Proof.
  intros Hne H. induction H as [|p l Hp Hl IH]; [done|].
  destruct l as [|q l]; [by apply split_char_no|].
  change (join_char c (p :: q :: l)) with (p ++ c :: join_char c (q :: l)).
  rewrite split_char_app by done. by rewrite IH.
Qed.

Lemma join_char_length c l : (length l <= S (length (join_char c l)))%nat.
Proof.
  induction l as [|x l IH]; [simpl; lia|]. cbn [join_char length]. destruct l as [|y l]; [simpl; lia|].
  rewrite length_app. cbn [length] in *. lia.
Qed.

Lemma join_split_char c s : join_char c (split_char c s) = s.
Proof.
  induction s as [|x s IH]; [done|]. simpl. case_decide as E.
  - subst. pose proof (split_char_nonempty c s).
    destruct (split_char c s) as [|p ps] eqn:Es; [done|].
    change (join_char c ([] :: p :: ps)) with ([] ++ c :: join_char c (p :: ps)). by rewrite IH.
  - destruct (split_char c s) as [|p ps] eqn:Es; [by apply split_char_nonempty in Es|].
    destruct ps; simpl in *; by rewrite <- IH.
Qed.

Lemma endswith_char_app c s x : endswith_char c (s ++ [x]) = bool_decide (x = c).
Proof. unfold endswith_char. by rewrite last_snoc. Qed.

(** ** Case and white space *)

Definition is_upper_ascii (b : byte) : bool := (65 <=? ord b) && (ord b <=? 90).

(** [str.lower] on code points below 256. *)
Definition lower_char (b : byte) : byte :=
  if is_upper_ascii b || ((192 <=? ord b) && (ord b <=? 222) && negb (ord b =? 215))
  then chr (ord b + 32) else b.
Definition lower (s : pystr) : pystr := map lower_char s.

(** [str.upper] on ASCII. *)
Definition upper_char (b : byte) : byte :=
  if (97 <=? ord b) && (ord b <=? 122) then chr (ord b - 32) else b.
Definition upper_ascii (s : pystr) : pystr := map upper_char s.

Definition is_space (b : byte) : bool :=
  let c := ord b in
  ((9 <=? c) && (c <=? 13)) || ((28 <=? c) && (c <=? 32)) || (c =? 133) || (c =? 160).

Fixpoint lstrip (s : pystr) : pystr :=
  match s with [] => [] | x :: r => if is_space x then lstrip r else s end.
Definition strip (s : pystr) : pystr := rev (lstrip (rev (lstrip s))).

Lemma lstrip_id s : Forall (λ x, is_space x = false) s → lstrip s = s.
Proof. intros H. destruct H as [|x s Hx H]; simpl; [done|]. by rewrite Hx. Qed.

Lemma strip_id s : Forall (λ x, is_space x = false) s → strip s = s.
Proof.
  intros H. unfold strip. rewrite (lstrip_id s H). rewrite lstrip_id.
  - apply rev_involutive.
  - by apply Forall_rev.
Qed.

(** ** [int(s)] and [str(n)] in base 10 *)

Definition is_digit (b : byte) : bool := (48 <=? ord b) && (ord b <=? 57).

(** [isdigit] of a Latin-1 text: the superscripts count. *)
Definition isdigit (s : pystr) : bool :=
  negb (bool_decide (s = [])) && forallb (λ c, is_digit c || bool_decide (ord c ∈ [178; 179; 185])) s.

(** Digits with single underscores between them, after at least one digit:
    the value read so far, and how many digits. *)
Fixpoint int_digits (s : pystr) (acc : Z) (count : Z) : result (Z * Z) :=
  match s with
  | [] => Ok (acc, count)
  | x :: r =>
      if is_digit x then int_digits r (10 * acc + (ord x - 48)) (count + 1)
      else if decide (x = chr 95) then
        match r with
        | y :: r' =>
            if is_digit y then int_digits r' (10 * acc + (ord y - 48)) (count + 1)
            else Err ValueError
        | [] => Err ValueError
        end
      else Err ValueError
  end.

Definition int_unsigned (s : pystr) : result Z :=
  match s with
  | x :: r =>
      if is_digit x then
        '(v, count) ← int_digits r (ord x - 48) 1;
        (* sys.get_int_max_str_digits() *)
        if 4300 <? count then Err ValueError else Ok v
      else Err ValueError
  | [] => Err ValueError
  end.

Definition int_str (s : pystr) : result Z :=
  match strip s with
  | x :: r =>
      if decide (x = chr 45) then v ← int_unsigned r; Ok (- v)
      else if decide (x = chr 43) then int_unsigned r
      else int_unsigned (x :: r)
  | [] => Err ValueError
  end.

Definition digit_char (d : Z) : byte := chr (48 + d).

Definition str_nat (n : Z) : pystr :=
  if n =? 0 then [digit_char 0] else rev (map digit_char (digits_le 10 n)).
Definition str_int (n : Z) : pystr := if n <? 0 then chr 45 :: str_nat (- n) else str_nat n.

Lemma is_digit_char d : 0 <= d < 10 → is_digit (digit_char d) = true.
Proof. intros. unfold is_digit, digit_char. rewrite ord_chr_small by lia. lia. Qed.

Lemma ord_digit_char d : 0 <= d < 10 → ord (digit_char d) - 48 = d.
Proof. intros. unfold digit_char. rewrite ord_chr_small by lia. lia. Qed.

Lemma digit_not_space x : is_digit x = true → is_space x = false.
Proof. unfold is_digit, is_space. lia. Qed.

(** Reading the characters of a most-significant-first list of digits. *)
Lemma int_digits_chars ds acc count :
  Forall (λ d, 0 <= d < 10) ds →
  int_digits (map digit_char ds) acc count =
    Ok (acc * 10 ^ len ds + undigits 10 (rev ds), count + len ds).
Proof.
  intros H. revert acc count. induction H as [|d ds Hd H IH]; intros acc count.
  - simpl. unfold len. simpl. f_equal. f_equal; lia.
  - cbn [map int_digits]. rewrite is_digit_char, ord_digit_char by done. rewrite IH.
    f_equal. rewrite len_cons. f_equal; [|lia].
    rewrite Z.pow_add_r by (pose proof (len_nonneg ds); lia). cbn [rev].
    rewrite undigits_snoc, Z.pow_1_r.
    replace (len (rev ds)) with (len ds) by (unfold len; by rewrite length_rev).
    ring.
Qed.

Lemma str_nat_shape n :
  0 <= n → ∃ d ds, str_nat n = map digit_char (d :: ds) ∧
    Forall (λ d, 0 <= d < 10) (d :: ds) ∧ undigits 10 (rev (d :: ds)) = n.
Proof.
  intros Hn. unfold str_nat. destruct (Z.eqb_spec n 0) as [->|H0].
  - exists 0, []. repeat split; repeat constructor; lia.
  - destruct (rev (digits_le 10 n)) as [|d ds] eqn:E.
    + apply (f_equal (@rev Z)) in E. rewrite rev_involutive in E.
      pose proof (undigits_digits_le 10 n ltac:(lia) Hn) as Hu. rewrite E in Hu. simpl in Hu. lia.
    + exists d, ds. rewrite <- E, rev_involutive, <- map_rev. repeat split.
      * apply Forall_rev, digits_le_range. lia.
      * apply undigits_digits_le; lia.
Qed.

Lemma str_nat_digits n : 0 <= n → Forall (λ x, is_digit x = true) (str_nat n).
Proof.
  intros Hn. destruct (str_nat_shape n Hn) as (d & ds & -> & H & _).
  apply Forall_map. eapply Forall_impl; [exact H|]. intros x Hx. by apply is_digit_char.
Qed.

Lemma str_nat_nonempty n : 0 <= n → str_nat n ≠ [].
Proof. intros Hn. by destruct (str_nat_shape n Hn) as (d & ds & -> & _). Qed.

(** A number of at most 4300 digits. *)
Definition printable (n : Z) : Prop := 0 <= n ∧ len (str_nat n) <= 4300.

Lemma int_str_nat n : printable n → int_str (str_nat n) = Ok n.
Proof.
  intros [Hn Hl]. unfold int_str.
  rewrite strip_id by (eapply Forall_impl; [apply str_nat_digits, Hn|apply digit_not_space]).
  destruct (str_nat_shape n Hn) as (d & ds & E & H & Hu). rewrite E in *.
  apply Forall_cons_1 in H as [Hd H]. cbn [map].
  rewrite !decide_False; [|intros Hc; apply (f_equal ord) in Hc;
    unfold digit_char in Hc; rewrite !ord_chr_small in Hc by lia; lia ..].
  unfold int_unsigned. rewrite is_digit_char, ord_digit_char by lia.
  rewrite int_digits_chars by done. unfold mbind, result_bind.
  unfold len in Hl. rewrite length_map in Hl. simpl in Hl.
  rewrite (proj2 (Z.ltb_ge _ _)) by (unfold len; lia). f_equal. rewrite <- Hu.
  cbn [rev]. rewrite undigits_snoc. unfold len. rewrite length_rev. lia.
Qed.

Lemma length_str_nat n : 0 <= n → len (str_nat n) <= Z.log2 n + 1.
Proof.
  intros Hn. unfold str_nat. destruct (Z.eqb_spec n 0) as [->|H0]; [done|].
  unfold len. rewrite length_rev, length_map.
  pose proof (digits_fuel_length (S (Z.to_nat (Z.log2 n))) 10 n).
  pose proof (Z.log2_nonneg n). unfold digits_le. lia.
Qed.

Lemma digits_fuel_short fuel k b n : 2 <= b → 0 <= n < b ^ Z.of_nat k → (length (digits_fuel fuel b n) <= k)%nat.
Proof.
  intros Hb. revert k n. induction fuel as [|f IH]; intros k n Hn; cbn [digits_fuel length]; [lia|].
  destruct (Z.leb_spec n 0); [cbn; lia|]. destruct k as [|k]; [cbn in Hn; lia|]. cbn [length]. apply le_n_S, IH.
  rewrite Nat2Z.inj_succ, Z.pow_succ_r in Hn by lia. split; [apply Z.div_pos; lia|]. apply Z.div_lt_upper_bound; lia.
Qed.

(** A number below 10^k has at most k digits. *)
Lemma str_nat_short k n : (0 < k)%nat → 0 <= n < 10 ^ Z.of_nat k → len (str_nat n) <= Z.of_nat k.
Proof.
  intros Hk Hn. unfold str_nat. destruct (n =? 0); [unfold len; cbn; lia|]. unfold len. rewrite length_rev, length_map.
  unfold digits_le. pose proof (digits_fuel_short (S (Z.to_nat (Z.log2 n))) k 10 n ltac:(lia) Hn). lia.
Qed.

Lemma printable_small n : 0 <= n < 2 ^ 64 → printable n.
Proof.
  intros [Hn Hl]. split; [done|]. pose proof (length_str_nat n Hn).
  assert (Z.log2 n < 64).
  { destruct (decide (n = 0)) as [->|]; [done|]. apply Z.log2_lt_pow2; lia. }
  lia.
Qed.

(** ** Hexadecimal *)

Definition hex_digit (d : Z) : byte := chr (if d <? 10 then 48 + d else 87 + d).

Definition hex_val (c : byte) : option Z :=
  let z := ord c in
  if (48 <=? z) && (z <=? 57) then Some (z - 48)
  else if (97 <=? z) && (z <=? 102) then Some (z - 87)
  else if (65 <=? z) && (z <=? 70) then Some (z - 55)
  else None.

(** [binascii.hexlify(b).decode()], [b.hex()]. *)
Fixpoint hexlify (b : bytes) : pystr :=
  match b with
  | [] => []
  | x :: r => hex_digit (ord x / 16) :: hex_digit (ord x mod 16) :: hexlify r
  end.

(** [binascii.unhexlify(s)]. *)
Fixpoint unhexlify (s : pystr) : result bytes :=
  match s with
  | [] => Ok []
  | [_] => Err BinasciiError
  | c1 :: c2 :: r =>
      match hex_val c1, hex_val c2 with
      | Some h, Some l => b ← unhexlify r; Ok (chr (16 * h + l) :: b)
      | _, _ => Err BinasciiError
      end
  end.

(** [int(s, 16)] for a string of hexadecimal digits. *)
Definition int_hex (s : pystr) : Z :=
  foldl (λ n c, 16 * n + default 0 (hex_val c)) 0 s.

(** ['%x' % n] for [n >= 0]. *)
Definition fmt_hex (n : Z) : pystr :=
  if n =? 0 then [hex_digit 0] else rev (map hex_digit (digits_le 16 n)).

Lemma hex_val_digit d : 0 <= d < 16 → hex_val (hex_digit d) = Some d.
Proof.
  intros H. unfold hex_val, hex_digit. destruct (Z.ltb_spec d 10);
    rewrite ord_chr_small by lia.
  - replace ((48 <=? 48 + d) && (48 + d <=? 57)) with true by lia. f_equal. lia.
  - replace ((48 <=? 87 + d) && (87 + d <=? 57)) with false by lia.
    replace ((97 <=? 87 + d) && (87 + d <=? 102)) with true by lia. f_equal. lia.
Qed.

Lemma unhexlify_hexlify b : unhexlify (hexlify b) = Ok b.
Proof.
  induction b as [|x b IH]; [done|]. pose proof (ord_range x).
  cbn [hexlify unhexlify]. rewrite !hex_val_digit.
  - rewrite IH. unfold mbind, result_bind. do 2 f_equal.
    rewrite <- Z.div_mod by lia. apply chr_ord.
  - apply Z.mod_pos_bound. lia.
  - split; [apply Z.div_pos; lia|]. apply Z.div_lt_upper_bound; lia.
Qed.

Lemma length_hexlify b : length (hexlify b) = (2 * length b)%nat.
Proof. induction b as [|x b IH]; simpl; [done|]. lia. Qed.

Lemma int_hex_cons (c : byte) s acc :
  foldl (λ n c, 16 * n + default 0 (hex_val c)) acc (c :: s) =
  foldl (λ n c, 16 * n + default 0 (hex_val c)) (16 * acc + default 0 (hex_val c)) s.
Proof. done. Qed.

Lemma int_hex_hexlify_acc b acc :
  foldl (λ n c, 16 * n + default 0 (hex_val c)) acc (hexlify b) = acc * 256 ^ len b + be_int b.
Proof.
  revert acc. induction b as [|x b IH]; intros acc.
  - simpl. unfold len, be_int. simpl. lia.
  - cbn [hexlify]. rewrite !int_hex_cons, IH, !hex_val_digit, be_int_cons, len_cons.
    + cbn [from_option id]. rewrite Z.pow_add_r by (pose proof (len_nonneg b); lia).
      change (256 ^ 1) with 256.
      replace (16 * (16 * acc + ord x / 16) + ord x mod 16) with (256 * acc + ord x)
        by (pose proof (Z.div_mod (ord x) 16); lia). ring.
    + pose proof (ord_range x). apply Z.mod_pos_bound. lia.
    + pose proof (ord_range x). split; [apply Z.div_pos; lia|]. apply Z.div_lt_upper_bound; lia.
Qed.

Lemma int_hex_hexlify b : int_hex (hexlify b) = be_int b.
Proof. unfold int_hex. rewrite int_hex_hexlify_acc. lia. Qed.

Lemma le_int_undigits b : le_int b = undigits 256 (map ord b).
Proof. induction b as [|x b IH]; [done|]. cbn [map undigits le_int]. by rewrite IH. Qed.

(** A big-endian number without a leading zero byte determines its bytes. *)
Lemma be_int_inj b1 b2 :
  head b1 ≠ Some Byte.x00 → head b2 ≠ Some Byte.x00 → be_int b1 = be_int b2 → b1 = b2.
Proof.
  intros H1 H2 E. unfold be_int in E. rewrite !le_int_undigits in E.
  assert (∀ b : bytes, head b ≠ Some Byte.x00 → canonical (map ord (rev b))) as Hcan.
  { clear. intros [|x b] H; [done|]. unfold canonical. cbn [rev]. rewrite map_app.
    cbn [map]. rewrite last_snoc. intros [= Hx]. apply H. simpl. f_equal.
    rewrite <- (chr_ord x), Hx. done. }
  assert (∀ l : bytes, Forall (λ d, 0 <= d < 256) (map ord l)) as Hr.
  { intros l. apply Forall_map, Forall_forall. intros x _. apply ord_range. }
  apply undigits_inj in E; [|lia|apply Hr|apply Hr|by apply Hcan|by apply Hcan].
  apply (f_equal (map chr)) in E. rewrite !map_map in E.
  rewrite !(map_ext (λ x, chr (ord x)) id), !map_id in E by (intros; apply chr_ord).
  apply (f_equal (@rev byte)) in E. by rewrite !rev_involutive in E.
Qed.

(** [if len(h) % 2: h = '0' + h]. *)
Definition pad_even (h : pystr) : pystr := if Nat.odd (length h) then hex_digit 0 :: h else h.

Lemma unhexlify_digits k ds :
  length ds = (2 * k)%nat → Forall (λ d, 0 <= d < 16) ds →
  ∃ b, unhexlify (map hex_digit ds) = Ok b ∧ be_int b = undigits 16 (rev ds) ∧ length b = k.
Proof.
  revert ds. induction k as [|k IH]; intros ds Hl H.
  - destruct ds; [|discriminate]. by exists [].
  - destruct ds as [|d1 [|d2 ds]]; try discriminate; [simpl in Hl; lia|].
    apply Forall_cons_1 in H as [H1 H]. apply Forall_cons_1 in H as [H2 H].
    destruct (IH ds) as (b & Hb & Hi & Hlb); [simpl in Hl; lia|done|].
    exists (chr (16 * d1 + d2) :: b). cbn [map unhexlify]. rewrite !hex_val_digit by done.
    rewrite Hb. split; [done|]. split; [|simpl; lia].
    rewrite be_int_cons, ord_chr_small, Hi by lia. cbn [rev].
    rewrite !undigits_snoc, len_app. replace (len [d2]) with 1 by done.
    assert (len (rev ds) = 2 * len b) as ->
      by (unfold len; rewrite length_rev; simpl in Hl; lia).
    rewrite Z.pow_add_r by (pose proof (len_nonneg b); lia).
    rewrite Z.pow_mul_r by (pose proof (len_nonneg b); lia).
    change (16 ^ 2) with 256. change (16 ^ 1) with 16. ring.
Qed.

(** The bytes of a positive number, most significant first, no leading zero. *)
Lemma unhexlify_fmt_hex n :
  0 < n → ∃ b, unhexlify (pad_even (fmt_hex n)) = Ok b ∧ be_int b = n ∧ head b ≠ Some Byte.x00.
Proof.
  intros Hn. unfold fmt_hex. rewrite (proj2 (Z.eqb_neq n 0)) by lia.
  rewrite <- map_rev.
  pose proof (undigits_digits_le 16 n ltac:(lia) ltac:(lia)) as Hu.
  pose proof (digits_le_range 16 n ltac:(lia)) as Hr.
  pose proof (digits_le_canonical 16 n ltac:(lia) ltac:(lia)) as Hc.
  destruct (rev (digits_le 16 n)) as [|d ds] eqn:E.
  { apply (f_equal (@rev Z)) in E. rewrite rev_involutive in E. rewrite E in Hu. simpl in Hu. lia. }
  assert (rev (d :: ds) = digits_le 16 n) as E' by (by rewrite <- E, rev_involutive).
  assert (d ≠ 0) as Hd.
  { intros ->. apply Hc. rewrite <- E'. simpl. apply last_snoc. }
  apply Forall_rev in Hr. rewrite E in Hr. pose proof Hr as Hr'. apply Forall_cons_1 in Hr' as [Hd' _].
  unfold pad_even. rewrite length_map. destruct (Nat.odd (length (d :: ds))) eqn:Eo.
  - apply Nat.odd_spec in Eo as [k Hk].
    destruct (unhexlify_digits (S k) (0 :: d :: ds)) as (b & Hb & Hi & _);
      [simpl in *; lia|constructor; [lia|done]|].
    exists b. split; [exact Hb|]. split.
    + rewrite Hi. change (rev (0 :: d :: ds)) with (rev (d :: ds) ++ [0]).
      rewrite undigits_snoc, E', Hu. lia.
    + cbn [map unhexlify] in Hb. rewrite !hex_val_digit in Hb by lia. invert_ok.
      intros [= Hx]. apply (f_equal ord) in Hx. rewrite ord_chr_small in Hx by lia.
      change (ord Byte.x00) with 0 in Hx. lia.
  - rewrite <- Nat.negb_even in Eo. apply negb_false_iff, Nat.even_spec in Eo as [k Hk].
    destruct (unhexlify_digits k (d :: ds)) as (b & Hb & Hi & _); [simpl in *; lia|done|].
    exists b. split; [exact Hb|]. split.
    + by rewrite Hi, E', Hu.
    + destruct ds as [|d2 ds]; [simpl in Hk; lia|].
      apply Forall_cons_1 in Hr as [_ Hr]. apply Forall_cons_1 in Hr as [Hd2 _].
      cbn [map unhexlify] in Hb. rewrite !hex_val_digit in Hb by lia. invert_ok.
      intros [= Hx]. apply (f_equal ord) in Hx. rewrite ord_chr_small in Hx by lia.
      change (ord Byte.x00) with 0 in Hx. lia.
Qed.

(** ** Base 64 *)

Definition b64_alphabet : pystr :=
  $"ABCDEFGHIJKLMNOPQRSTUVWXYZabcdefghijklmnopqrstuvwxyz0123456789+/".
Definition b64_pad : byte := chr 61.

Definition b64_char (v : Z) : byte := nth (Z.to_nat v) b64_alphabet Byte.x00.
Definition b64_val (c : byte) : option Z :=
  match find_char c b64_alphabet with Some i => Some (Z.of_nat i) | None => None end.

(** [base64.b64encode]. *)
Fixpoint b64encode (b : bytes) : pystr :=
  match b with
  | [] => []
  | [x] => [b64_char (ord x / 4); b64_char (ord x mod 4 * 16); b64_pad; b64_pad]
  | [x; y] => [b64_char (ord x / 4); b64_char (ord x mod 4 * 16 + ord y / 16);
               b64_char (ord y mod 16 * 4); b64_pad]
  | x :: y :: z :: r =>
      b64_char (ord x / 4) :: b64_char (ord x mod 4 * 16 + ord y / 16)
      :: b64_char (ord y mod 16 * 4 + ord z / 64) :: b64_char (ord z mod 64) :: b64encode r
  end.

(** [binascii.a2b_base64], not strict: the quad position, the pads seen, the
    bits left over; characters outside the alphabet are skipped, and padding
    that completes a quad ends the data. *)
Fixpoint a2b_base64 (s : pystr) (quad pads left : Z) : result bytes :=
  match s with
  | [] => if quad =? 0 then Ok [] else Err BinasciiError
  | c :: r =>
      if decide (c = b64_pad) then
        if (2 <=? quad) && (4 <=? quad + (pads + 1)) then Ok []
        else a2b_base64 r quad (if 2 <=? quad then pads + 1 else pads) left
      else
        match b64_val c with
        | None => a2b_base64 r quad pads left
        | Some v =>
            if quad =? 0 then a2b_base64 r 1 0 v
            else if quad =? 1 then b ← a2b_base64 r 2 0 (v mod 16); Ok (chr (left * 4 + v / 16) :: b)
            else if quad =? 2 then b ← a2b_base64 r 3 0 (v mod 4); Ok (chr (left * 16 + v / 4) :: b)
            else b ← a2b_base64 r 0 0 0; Ok (chr (left * 64 + v) :: b)
        end
  end.

(** [base64.b64decode(s)] of a [str]: characters beyond ASCII are a
    [ValueError]. *)
Definition b64decode (s : pystr) : result bytes :=
  if forallb (λ c, ord c <? 128) s then a2b_base64 s 0 0 0 else Err ValueError.

Definition b64_facts (v : Z) : bool :=
  let c := b64_char v in
  bool_decide (b64_val c = Some v) && negb (bool_decide (c = b64_pad))
  && (ord c <? 128) && negb (is_space c).

Lemma b64_char_facts v : 0 <= v < 64 → b64_facts v = true.
Proof.
  intros H. assert (forallb (λ n, b64_facts (Z.of_nat n)) (seq 0 64) = true) as Hf
    by (vm_compute; reflexivity).
  rewrite forallb_forall in Hf. specialize (Hf (Z.to_nat v)).
  rewrite Z2Nat.id in Hf by lia. apply Hf, in_seq. lia.
Qed.

Lemma a2b_char v r quad pads left :
  0 <= v < 64 →
  a2b_base64 (b64_char v :: r) quad pads left =
    if quad =? 0 then a2b_base64 r 1 0 v
    else if quad =? 1 then b ← a2b_base64 r 2 0 (v mod 16); Ok (chr (left * 4 + v / 16) :: b)
    else if quad =? 2 then b ← a2b_base64 r 3 0 (v mod 4); Ok (chr (left * 16 + v / 4) :: b)
    else b ← a2b_base64 r 0 0 0; Ok (chr (left * 64 + v) :: b).
Proof.
  intros H. pose proof (b64_char_facts v H) as F. unfold b64_facts in F. bools.
  cbn [a2b_base64]. rewrite decide_False by done.
  match goal with E : b64_val _ = Some _ |- _ => by rewrite E end.
Qed.

Lemma sextets x y z :
  0 <= x < 256 → 0 <= y < 256 → 0 <= z < 256 →
  0 <= x / 4 < 64 ∧ 0 <= x mod 4 * 16 + y / 16 < 64 ∧
  0 <= y mod 16 * 4 + z / 64 < 64 ∧ 0 <= z mod 64 < 64 ∧
  x / 4 * 4 + (x mod 4 * 16 + y / 16) / 16 = x ∧
  (x mod 4 * 16 + y / 16) mod 16 * 16 + (y mod 16 * 4 + z / 64) / 4 = y ∧
  (y mod 16 * 4 + z / 64) mod 4 * 64 + z mod 64 = z.
Proof. intros. repeat split; Z.to_euclidean_division_equations; lia. Qed.

(** Induction three bytes at a time. *)
Lemma bytes_ind3 (P : bytes → Prop) :
  P [] → (∀ x, P [x]) → (∀ x y, P [x; y]) →
  (∀ x y z r, P r → P (x :: y :: z :: r)) → ∀ b, P b.
Proof.
  intros H0 H1 H2 H3 b. assert (∀ n b, (length b <= n)%nat → P b) as H.
  { clear b. induction n as [|n IH]; intros [|x [|y [|z r]]] Hl; auto; simpl in Hl; try lia.
    apply H3, IH. lia. }
  by apply (H (length b)).
Qed.

Lemma a2b_b64encode b : a2b_base64 (b64encode b) 0 0 0 = Ok b.
Proof.
  induction b as [|x|x y|x y z r IH] using bytes_ind3; [done|..]; cbn [b64encode].
  - pose proof (sextets (ord x) 0 0 (ord_range x) ltac:(lia) ltac:(lia)) as (H1 & H2 & _ & _ & E1 & _).
    change (0 / 16) with 0 in *. rewrite Z.add_0_r in *.
    rewrite !a2b_char by lia. simpl. by rewrite E1, chr_ord.
  - pose proof (sextets (ord x) (ord y) 0 (ord_range x) (ord_range y) ltac:(lia))
      as (H1 & H2 & H3 & _ & E1 & E2 & _).
    change (0 / 64) with 0 in *. rewrite Z.add_0_r in *.
    rewrite !a2b_char by lia. simpl. by rewrite E1, E2, !chr_ord.
  - pose proof (sextets _ _ _ (ord_range x) (ord_range y) (ord_range z))
      as (H1 & H2 & H3 & H4 & E1 & E2 & E3).
    rewrite !a2b_char by lia. simpl. rewrite IH. simpl. by rewrite E1, E2, E3, !chr_ord.
Qed.

Lemma b64encode_chars b :
  Forall (λ c, is_space c = false ∧ ord c < 128) (b64encode b).
Proof.
  assert (∀ v, 0 <= v < 64 → is_space (b64_char v) = false ∧ ord (b64_char v) < 128) as Hc.
  { intros v Hv. pose proof (b64_char_facts v Hv) as F. unfold b64_facts in F. by bools. }
  assert (is_space b64_pad = false ∧ ord b64_pad < 128) as Hp by done.
  induction b as [|x|x y|x y z r IH] using bytes_ind3; cbn [b64encode].
  - constructor.
  - pose proof (sextets (ord x) 0 0 (ord_range x) ltac:(lia) ltac:(lia)) as (H1 & H2 & _).
    change (0 / 16) with 0 in *. rewrite Z.add_0_r in *. repeat constructor; auto; apply Hc; lia.
  - pose proof (sextets (ord x) (ord y) 0 (ord_range x) (ord_range y) ltac:(lia)) as (H1 & H2 & H3 & _).
    change (0 / 64) with 0 in *. rewrite Z.add_0_r in *. repeat constructor; auto; apply Hc; lia.
  - pose proof (sextets _ _ _ (ord_range x) (ord_range y) (ord_range z)) as (H1 & H2 & H3 & H4 & _).
    repeat (constructor; [apply Hc; lia|]). exact IH.
Qed.

(** White space around a text is stripped. *)
Lemma lstrip_spaces pre s : Forall (λ c, is_space c = true) pre → lstrip (pre ++ s) = lstrip s.
Proof. induction 1 as [|c pre Hc Hpre IH]; [done|]. cbn [app lstrip]. by rewrite Hc. Qed.

Lemma strip_around pre s post : Forall (λ c, is_space c = true) pre → Forall (λ c, is_space c = true) post →
  strip (pre ++ s ++ post) = strip s.
Proof.
  intros Hpre Hpost. unfold strip. rewrite lstrip_spaces by done. destruct (decide (lstrip s = [])) as [E|E].
  - assert (Forall (λ c, is_space c = true) s) as Hs.
    { clear -E. induction s as [|c s IH]; [constructor|]. cbn [lstrip] in E. destruct (is_space c) eqn:Ec; [|done]. constructor; [done|by apply IH]. }
    rewrite lstrip_spaces by done. rewrite E. assert (∀ l, Forall (λ c, is_space c = true) l → lstrip l = []) as Hl.
    { intros l Hl. rewrite <- (app_nil_r l). by rewrite lstrip_spaces. }
    by rewrite (Hl post).
  - assert (lstrip (s ++ post) = lstrip s ++ post) as ->.
    { clear -E. induction s as [|c s IH]; [done|]. cbn [app lstrip] in *. destruct (is_space c); [by apply IH|done]. }
    rewrite rev_app_distr, lstrip_spaces; [done|]. by apply Forall_rev.
Qed.

(** [base64.b64decode(base64.b64encode(b)) == b], also with white space around it. *)
Lemma b64decode_plain b : b64decode (b64encode b) = Ok b.
Proof.
  pose proof (b64encode_chars b) as H. unfold b64decode. replace (forallb _ _) with true; [apply a2b_b64encode|].
  symmetry. apply forallb_forall. intros c Hc. rewrite Forall_forall in H. apply Z.ltb_lt, H. by apply list_elem_of_In.
Qed.

Lemma b64decode_b64encode b : b64decode (strip (b64encode b)) = Ok b.
Proof.
  pose proof (b64encode_chars b) as H. rewrite strip_id; [apply b64decode_plain|].
  eapply Forall_impl; [exact H|]. by intros c [? _].
Qed.

(** ** [str.startswith], [str.replace] and [str.encode] *)

Fixpoint startswith (p s : pystr) : bool :=
  match p, s with
  | [], _ => true
  | _ :: _, [] => false
  | x :: p, y :: s => bool_decide (x = y) && startswith p s
  end.

(** [sub in s]. *)
Fixpoint contains (sub s : pystr) : bool :=
  startswith sub s || match s with [] => false | _ :: s => contains sub s end.

(** [s.replace(old, new)] for a text [old] that is not empty; [skip] counts the
    characters of the match that is being left behind. *)
Fixpoint replace_from (old new s : pystr) (skip : nat) : pystr :=
  match s with
  | [] => []
  | c :: r =>
      match skip with
      | S skip => replace_from old new r skip
      | O =>
          if startswith old (c :: r) then new ++ replace_from old new r (length old - 1)
          else c :: replace_from old new r 0
      end
  end.
Definition str_replace (old new s : pystr) : pystr := replace_from old new s 0.

(** [s.encode()], in UTF-8. *)
Definition utf8_char (c : byte) : bytes :=
  if ord c <? 128 then [c] else [chr (192 + ord c / 64); chr (128 + ord c mod 64)].
Definition encode_utf8 (s : pystr) : bytes := concat (map utf8_char s).

Lemma startswith_app p s : startswith p (p ++ s) = true.
Proof. induction p as [|x p IH]; [done|]. cbn. by rewrite bool_decide_eq_true_2. Qed.

Lemma replace_skip old new s t k : k = length s → replace_from old new (s ++ t) k = replace_from old new t 0.
Proof. intros ->. induction s as [|x s IH]; [done|]. exact IH. Qed.

Lemma replace_hit old new t : old ≠ [] → str_replace old new (old ++ t) = new ++ str_replace old new t.
Proof.
  intros Ho. unfold str_replace. destruct old as [|c old]; [done|]. cbn [app replace_from].
  rewrite (startswith_app (c :: old) t : startswith (c :: old) (c :: old ++ t) = true).
  by rewrite replace_skip by (simpl; lia).
Qed.

(** Text without the first character of [old] is left alone. *)
Lemma replace_plain c old new s t : c ∉ s → str_replace (c :: old) new (s ++ t) = s ++ str_replace (c :: old) new t.
Proof.
  unfold str_replace. induction s as [|x s IH]; intros Hc; [done|]. apply not_elem_of_cons in Hc as [Hx Hc].
  cbn [app replace_from startswith]. rewrite bool_decide_eq_false_2 by done. cbn [andb]. by rewrite IH.
Qed.

Lemma replace_plain_all c old new s : c ∉ s → str_replace (c :: old) new s = s.
Proof. intros Hc. rewrite <- (app_nil_r s) at 1. rewrite replace_plain by done. by rewrite app_nil_r. Qed.

(** Two texts that differ where both have a character. *)
Fixpoint diverge (a b : pystr) : bool :=
  match a, b with
  | x :: a, y :: b => negb (bool_decide (x = y)) || diverge a b
  | _, _ => false
  end.

Lemma diverge_startswith a b t : diverge a b = true → startswith a (b ++ t) = false.
Proof.
  revert b. induction a as [|x a IH]; intros [|y b]; try done. cbn. case_bool_decide; [|done]. cbn. apply IH.
Qed.

Lemma replace_miss old new c s t : startswith old (c :: s ++ t) = false → head old ≠ None → (∀ x, head old = Some x → x ∉ s) →
  str_replace old new (c :: s ++ t) = c :: s ++ str_replace old new t.
Proof.
  intros Hs Hh Hx. destruct old as [|x old]; [done|]. unfold str_replace at 1. cbn [replace_from]. rewrite Hs. f_equal.
  apply replace_plain. by apply Hx.
Qed.

Lemma encode_utf8_app a b : encode_utf8 (a ++ b) = encode_utf8 a ++ encode_utf8 b.
Proof. unfold encode_utf8. by rewrite map_app, concat_app. Qed.

(** The two forms are told apart by their first byte. *)
Lemma utf8_char_inj a b x y : utf8_char a ++ x = utf8_char b ++ y → a = b ∧ x = y.
Proof.
  unfold utf8_char. pose proof (ord_range a) as Ha. pose proof (ord_range b) as Hb.
  destruct (Z.ltb_spec (ord a) 128) as [La|La], (Z.ltb_spec (ord b) 128) as [Lb|Lb]; cbn [app].
  - by intros [= -> ->].
  - intros [= Hc _]. apply (f_equal ord) in Hc. pose proof (Z.div_le_lower_bound (ord b) 64 2 ltac:(lia) ltac:(lia)).
    pose proof (Z.div_lt_upper_bound (ord b) 64 4 ltac:(lia) ltac:(lia)). rewrite ord_chr_small in Hc by lia. lia.
  - intros [= Hc _]. apply (f_equal ord) in Hc. pose proof (Z.div_le_lower_bound (ord a) 64 2 ltac:(lia) ltac:(lia)).
    pose proof (Z.div_lt_upper_bound (ord a) 64 4 ltac:(lia) ltac:(lia)). rewrite ord_chr_small in Hc by lia. lia.
  - intros [= H1 H2 ->]. split; [|done]. apply (f_equal ord) in H1, H2.
    pose proof (Z.div_lt_upper_bound (ord a) 64 4 ltac:(lia) ltac:(lia)). pose proof (Z.div_lt_upper_bound (ord b) 64 4 ltac:(lia) ltac:(lia)).
    pose proof (Z.div_pos (ord a) 64 ltac:(lia) ltac:(lia)). pose proof (Z.div_pos (ord b) 64 ltac:(lia) ltac:(lia)).
    pose proof (Z.mod_pos_bound (ord a) 64 ltac:(lia)). pose proof (Z.mod_pos_bound (ord b) 64 ltac:(lia)).
    rewrite !ord_chr_small in H1, H2 by lia. apply ord_inj.
    rewrite (Z.div_mod (ord a) 64), (Z.div_mod (ord b) 64) by lia. lia.
Qed.

Lemma encode_utf8_inj a b : encode_utf8 a = encode_utf8 b → a = b.
Proof.
  unfold encode_utf8. revert b. induction a as [|x a IH]; intros [|y b] E; cbn [map concat] in E; [done|..].
  - exfalso. unfold utf8_char in E. by destruct (_ <? _).
  - exfalso. unfold utf8_char in E. by destruct (_ <? _).
  - apply utf8_char_inj in E as [-> E]. f_equal. by apply IH.
Qed.

(** [b.decode()], in UTF-8. Well-formed text with a code point of 256 or more is
    [WideText]; overlong forms, surrogates and code points beyond Unicode are
    malformed. *)
Definition is_cont (c : byte) : bool := (128 <=? ord c) && (ord c <? 192).

(** A wide character, if the rest is well-formed. *)
Definition wide (r : result pystr) : result pystr :=
  match r with Err UnicodeError => Err UnicodeError | _ => Err WideText end.

Fixpoint decode_utf8 (b : bytes) : result pystr :=
  match b with
  | [] => Ok []
  | c :: b =>
      if ord c <? 0x80 then s ← decode_utf8 b; Ok (c :: s)
      else
        match b with
        | d :: b2 =>
            if negb (is_cont d) then Err UnicodeError
            else if (0xC2 <=? ord c) && (ord c <=? 0xC3) then
              s ← decode_utf8 b2; Ok (chr ((ord c - 0xC0) * 64 + (ord d - 128)) :: s)
            else if (0xC4 <=? ord c) && (ord c <=? 0xDF) then wide (decode_utf8 b2)
            else
              match b2 with
              | e :: b3 =>
                  if negb (is_cont e) then Err UnicodeError
                  else if (ord c =? 0xE0) && (0xA0 <=? ord d) || (0xE1 <=? ord c) && (ord c <=? 0xEC) ||
                          (ord c =? 0xED) && (ord d <? 0xA0) || (0xEE <=? ord c) && (ord c <=? 0xEF) then wide (decode_utf8 b3)
                  else
                    match b3 with
                    | f :: b4 =>
                        if negb (is_cont f) then Err UnicodeError
                        else if (ord c =? 0xF0) && (0x90 <=? ord d) || (0xF1 <=? ord c) && (ord c <=? 0xF3) ||
                                (ord c =? 0xF4) && (ord d <? 0x90) then wide (decode_utf8 b4)
                        else Err UnicodeError
                    | [] => Err UnicodeError
                    end
              | [] => Err UnicodeError
              end
        | [] => Err UnicodeError
        end
  end.

Lemma decode_encode_utf8 s : decode_utf8 (encode_utf8 s) = Ok s.
Proof.
  induction s as [|c s IH]; [done|]. change (encode_utf8 (c :: s)) with (utf8_char c ++ encode_utf8 s). unfold utf8_char.
  pose proof (ord_range c) as Hc. destruct (Z.ltb_spec (ord c) 128) as [L|L]; cbn [app decode_utf8].
  - rewrite (proj2 (Z.ltb_lt (ord c) 128)) by lia. by rewrite IH.
  - pose proof (Z.div_le_lower_bound (ord c) 64 2 ltac:(lia) ltac:(lia)) as D1. pose proof (Z.div_lt_upper_bound (ord c) 64 4 ltac:(lia) ltac:(lia)) as D2.
    pose proof (Z.mod_pos_bound (ord c) 64 ltac:(lia)) as M. unfold is_cont. rewrite !ord_chr_small by lia.
    rewrite (proj2 (Z.ltb_ge _ _)) by lia. assert ((128 <=? 128 + ord c mod 64) && (128 + ord c mod 64 <? 192) = true) as -> by lia.
    assert ((194 <=? 192 + ord c / 64) && (192 + ord c / 64 <=? 195) = true) as -> by lia. cbn [negb]. rewrite IH, bind_Ok. do 2 f_equal.
    replace ((192 + ord c / 64 - 192) * 64 + (128 + ord c mod 64 - 128)) with (ord c); [apply chr_ord|].
    rewrite (Z.div_mod (ord c) 64) at 1 by lia. lia.
Qed.

(** ** What [int] accepts *)

Definition int_char (c : byte) : bool := is_space c || is_digit c || bool_decide (c ∈ [chr 95; chr 45; chr 43]).

Lemma lstrip_chars s c : c ∈ s → is_space c = true ∨ c ∈ lstrip s.
Proof.
  induction s as [|x s IH]; [set_solver|]. cbn [lstrip]. intros Hc. destruct (is_space x) eqn:E; [|by right].
  apply elem_of_cons in Hc as [->|Hc]; [by left|by apply IH].
Qed.

Lemma strip_chars s c : c ∈ s → is_space c = true ∨ c ∈ strip s.
Proof.
  intros Hc. unfold strip. apply lstrip_chars in Hc as [?|Hc]; [by left|].
  rewrite <- (rev_involutive (lstrip s)), list_elem_of_In, <- in_rev, <- list_elem_of_In in Hc.
  apply lstrip_chars in Hc as [?|Hc]; [by left|right]. by rewrite list_elem_of_In, <- in_rev, <- list_elem_of_In.
Qed.

Lemma int_digits_char s acc n v c : int_digits s acc n = Ok v → c ∈ s → is_digit c = true ∨ c = chr 95.
Proof.
  revert acc n. induction s as [s IH] using (induction_ltof1 _ (@length byte)). unfold ltof in IH. intros acc n H Hc.
  destruct s as [|x r]; [set_solver|]. cbn [int_digits] in H. destruct (is_digit x) eqn:Ex.
  - apply elem_of_cons in Hc as [->|Hc]; [by left|]. eapply IH; [|exact H|done]. simpl. lia.
  - destruct (decide (x = chr 95)) as [->|]; [|done]. destruct r as [|y r]; [done|]. destruct (is_digit y) eqn:Ey; [|done].
    apply elem_of_cons in Hc as [->|Hc]; [by right|]. apply elem_of_cons in Hc as [->|Hc]; [by left|]. eapply IH; [|exact H|done]. simpl. lia.
Qed.

Lemma int_unsigned_char s v c : int_unsigned s = Ok v → c ∈ s → is_digit c = true ∨ c = chr 95.
Proof.
  unfold int_unsigned. destruct s as [|x r]; [done|]. destruct (is_digit x) eqn:Ex; [|done]. intros (d & Hd & _)%bind_ok [->|Hc]%elem_of_cons; [by left|].
  by eapply int_digits_char.
Qed.

(** No other character is allowed. *)
Lemma int_str_char s v c : int_str s = Ok v → c ∈ s → int_char c = true.
Proof.
  unfold int_str, int_char. intros H [->|Hc]%strip_chars; [done|]. rewrite <- orb_assoc. apply orb_true_iff. right.
  destruct (strip s) as [|x r]; [done|].
  assert (c ∈ [chr 95; chr 45; chr 43] ∨ is_digit c = true) as [?|?]; [|apply orb_true_iff; right; by apply bool_decide_eq_true|apply orb_true_iff; by left].
  destruct (decide (x = chr 45)) as [->|].
  - apply bind_ok in H as (u & H & _). apply elem_of_cons in Hc as [->|Hc]; [left; set_solver|].
    destruct (int_unsigned_char _ _ _ H Hc) as [?| ->]; [by right|left; set_solver].
  - destruct (decide (x = chr 43)) as [->|].
    + apply elem_of_cons in Hc as [->|Hc]; [left; set_solver|]. destruct (int_unsigned_char _ _ _ H Hc) as [?| ->]; [by right|left; set_solver].
    + destruct (int_unsigned_char _ _ _ H Hc) as [?| ->]; [by right|left; set_solver].
Qed.

Lemma split_char_chars c d s : c ∉ s → Forall (λ p, c ∉ p) (split_char d s).
Proof.
  intros Hc. induction s as [|x s IH]; [repeat constructor; set_solver|]. apply not_elem_of_cons in Hc as [Hx Hs]. specialize (IH Hs).
  cbn [split_char]. case_decide; [constructor; [set_solver|done]|]. destruct (split_char d s) as [|p ps]; [repeat constructor; set_solver|].
  apply Forall_cons in IH as [Hp IH]. constructor; [set_solver|done].
Qed.
