(* ===== verification/Common.v ===== *)
(** * [hwilib/common.py]: networks, address types and hashes

    The digests of [hashlib] are the operations of the class [Hashes], with
    the digest sizes as its laws; [Sha256.v] has an executable instance. *)

From S2P Require Import Prelude Bytes PyStd PyStr.

(** ** [hashlib] *)

Class Hashes := {
  sha256 : bytes → bytes;
  ripemd160 : bytes → bytes;
  sha256_length s : length (sha256 s) = 32%nat;
  ripemd160_length s : length (ripemd160 s) = 20%nat;
}.

Section hashes.
Context `{Hashes}.

Definition hash256 (s : bytes) : bytes := sha256 (sha256 s).
Definition hash160 (s : bytes) : bytes := ripemd160 (sha256 s).

Lemma hash256_length s : length (hash256 s) = 32%nat.
Proof. apply sha256_length. Qed.

Lemma hash160_length s : length (hash160 s) = 20%nat.
Proof. apply ripemd160_length. Qed.

Lemma checksum_length s : length (take 4 (hash256 s)) = 4%nat.
Proof. rewrite length_take, hash256_length. lia. Qed.
End hashes.

(** ** The enumerations *)

Inductive Chain := MAIN | TEST | REGTEST | SIGNET | TESTNET4.

#[export] Instance chain_eq_dec : EqDecision Chain.
Proof. solve_decision. Defined.

Definition chain_name (c : Chain) : pystr :=
  match c with
  | MAIN => $"MAIN" | TEST => $"TEST" | REGTEST => $"REGTEST"
  | SIGNET => $"SIGNET" | TESTNET4 => $"TESTNET4"
  end.

Definition chain_all : list Chain := [MAIN; TEST; REGTEST; SIGNET; TESTNET4].

(** [Chain.__str__]. *)
Definition chain_str (c : Chain) : pystr := lower (chain_name c).

(** [Chain.argparse]: the member, or the string itself when there is none. *)
Definition chain_argparse (s : pystr) : Chain + pystr :=
  match List.find (λ c, bool_decide (chain_name c = upper_ascii s)) chain_all with
  | Some c => inl c
  | None => inr s
  end.

Inductive AddressType := LEGACY | WIT | SH_WIT | TAP.

#[export] Instance addrtype_eq_dec : EqDecision AddressType.
Proof. solve_decision. Defined.

Definition addrtype_name (a : AddressType) : pystr :=
  match a with
  | LEGACY => $"LEGACY" | WIT => $"WIT" | SH_WIT => $"SH_WIT" | TAP => $"TAP"
  end.

(** [list(AddressType)], in the order of the class body. *)
Definition addrtype_all : list AddressType := [LEGACY; WIT; SH_WIT; TAP].

Definition addrtype_str (a : AddressType) : pystr := lower (addrtype_name a).

Definition addrtype_argparse (s : pystr) : AddressType + pystr :=
  match List.find (λ a, bool_decide (addrtype_name a = upper_ascii s)) addrtype_all with
  | Some a => inl a
  | None => inr s
  end.

Lemma chain_argparse_str c : chain_argparse (chain_str c) = inl c.
Proof. by destruct c. Qed.

Lemma addrtype_argparse_str a : addrtype_argparse (addrtype_str a) = inl a.
Proof. by destruct a. Qed.
