(* ===== verification/Sha256.v ===== *)
(** * SHA-256, executable

    An instance of [Hashes] on which the development's definitions can be
    evaluated: SHA-256 of FIPS 180-4, and for RIPEMD-160, which no evaluation
    depends on, a stand-in of the right size. *)

From S2P Require Import Prelude Bytes PyStd PyStr Common.

Definition w32 (z : Z) : Z := Z.land z 0xFFFFFFFF.
Definition rotr (n x : Z) : Z := Z.lor (Z.shiftr x n) (w32 (Z.shiftl x (32 - n))).

(** The constants are the first 32 bits of the fractional parts of the cube
    and square roots of the first primes; they are computed, not listed. *)

Fixpoint cbrt_bits (n : nat) (x r : Z) : Z :=
  match n with
  | O => r
  | S n => let r' := r + 2 ^ Z.of_nat n in cbrt_bits n x (if r' ^ 3 <=? x then r' else r)
  end.

Definition is_prime (n : nat) : bool :=
  forallb (λ d, negb (n mod d =? 0)%nat) (seq 2 (n - 2)).
Definition primes : list Z :=
  map Z.of_nat (List.filter is_prime (seq 2 310)).

Definition sha256_k : list Z :=
  Eval vm_compute in map (λ p, w32 (cbrt_bits 40 (p * 2 ^ 96) 0)) primes.
Definition sha256_h0 : list Z :=
  Eval vm_compute in map (λ p, w32 (Z.sqrt (p * 2 ^ 64))) (take 8 primes).

(** The message schedule, newest word first. *)
Fixpoint schedule (n : nat) (w : list Z) : list Z :=
  match n with
  | O => w
  | S n =>
      let w15 := nth 14 w 0 in let w2 := nth 1 w 0 in
      let s0 := Z.lxor (Z.lxor (rotr 7 w15) (rotr 18 w15)) (Z.shiftr w15 3) in
      let s1 := Z.lxor (Z.lxor (rotr 17 w2) (rotr 19 w2)) (Z.shiftr w2 10) in
      schedule n (w32 (nth 15 w 0 + s0 + nth 6 w 0 + s1) :: w)
  end.

Fixpoint rounds (kw : list (Z * Z)) (a b c d e f g h : Z) : list Z :=
  match kw with
  | [] => [a; b; c; d; e; f; g; h]
  | (k, w) :: kw =>
      let s1 := Z.lxor (Z.lxor (rotr 6 e) (rotr 11 e)) (rotr 25 e) in
      let ch := Z.lxor (Z.land e f) (Z.land (Z.lxor e 0xFFFFFFFF) g) in
      let t1 := h + s1 + ch + k + w in
      let s0 := Z.lxor (Z.lxor (rotr 2 a) (rotr 13 a)) (rotr 22 a) in
      let maj := Z.lxor (Z.lxor (Z.land a b) (Z.land a c)) (Z.land b c) in
      rounds kw (w32 (t1 + s0 + maj)) a b c (w32 (d + t1)) e f g
  end.

Fixpoint words_be (n : nat) (b : bytes) : list Z :=
  match n with O => [] | S n => be_int (take 4 b) :: words_be n (drop 4 b) end.

Definition compress (hs : list Z) (block : bytes) : list Z :=
  let w := rev (schedule 48 (rev (words_be 16 block))) in
  match hs with
  | [a; b; c; d; e; f; g; h] =>
      map w32 (zip_with Z.add hs (rounds (combine sha256_k w) a b c d e f g h))
  | _ => hs
  end.

Fixpoint blocks (n : nat) (hs : list Z) (b : bytes) : list Z :=
  match n with O => hs | S n => blocks n (compress hs (take 64 b)) (drop 64 b) end.

Definition sha256_pad (s : bytes) : bytes :=
  let zeros := Z.to_nat ((55 - len s) mod 64) in
  s ++ chr 0x80 :: replicate zeros (chr 0) ++ be_bytes 8 (8 * len s).

Definition sha256_fips (s : bytes) : bytes :=
  let p := sha256_pad s in
  let hs := blocks (length p / 64) sha256_h0 p in
  take 32 (concat (map (be_bytes 4) hs) ++ replicate 32 (chr 0)).

Lemma sha256_fips_length s : length (sha256_fips s) = 32%nat.
Proof. unfold sha256_fips. rewrite length_take, length_app, length_replicate. lia. Qed.

#[export] Instance executable_hashes : Hashes | 100.
Proof.
  refine {| sha256 := sha256_fips; ripemd160 s := take 20 (sha256_fips s) |}.
  - apply sha256_fips_length.
  - intros s. rewrite length_take, sha256_fips_length. lia.
Defined.

(** The FIPS test vector. *)
Example sha256_abc :
  Some (sha256_fips ($"abc")) =
  match unhexlify ($"ba7816bf8f01cfea414140de5dae2223b00361a396177a9cb410ff61f20015ad")
  with Ok b => Some b | Err _ => None end.
Proof. vm_compute. reflexivity. Qed.
