(* ===== verification/Serialize.v ===== *)
(** * [hwilib/_serialize.py]: Bitcoin's wire serialization

    Compact sizes, byte strings, 256-bit integers, vectors and ECDSA
    signatures.  [Codec] is the interface the transaction and PSBT files use:
    a serializer, the deserializer that reads back exactly what it wrote, and
    the values for which it does. *)

From S2P Require Import Prelude Bytes PyStd.

(** ** The interface between a type and the containers that hold it *)

(** [Deserializable] and [Serializable] of [_serialize.py], with the law that
    connects them. *)
Class Codec {A : Type} (ser : A → result bytes) (deser : reader A) (wf : A → Prop) := {
  codec_total a : wf a → ∃ b, ser a = Ok b;
  codec_reads a b : wf a → ser a = Ok b → reads deser b a;
}.

Lemma codec_intro {A} (ser : A → result bytes) (deser : reader A) (wf : A → Prop) :
  (∀ a, wf a → ∃ b, ser a = Ok b ∧ reads deser b a) → Codec ser deser wf.
Proof.
  intros H. split.
  - intros a Ha. destruct (H a Ha) as (b & Hb & _). eauto.
  - intros a b Ha Hb. destruct (H a Ha) as (b' & Hb' & Hr). congruence.
Qed.

(** A Python object's length always fits [sys.maxsize]. *)
Definition small {A} (l : list A) : Prop := len l <= maxsize.

#[export] Instance small_dec {A} (l : list A) : Decision (small l).
Proof. unfold small. apply _. Defined.

(** ** Compact sizes *)

Definition ser_compact_size (size : Z) : result bytes :=
  if size <? 253 then pack_u 1 size
  else if size <? 0x10000 then b ← pack_u 2 size; Ok (chr 253 :: b)
  else if size <? 0x100000000 then b ← pack_u 4 size; Ok (chr 254 :: b)
  else b ← pack_u 8 size; Ok (chr 255 :: b).

Definition deser_compact_size : reader Z :=
  nit ← read_u 1;
  if nit =? 253 then read_u 2
  else if nit =? 254 then read_u 4
  else if nit =? 255 then read_u 8
  else mret nit.

(** ** Byte strings *)

Definition deser_string : reader bytes :=
  nit ← deser_compact_size;
  read nit.

Definition ser_string (s : bytes) : result bytes :=
  n ← ser_compact_size (len s);
  Ok (n ++ s).

(** ** 256-bit integers *)

Fixpoint deser_uint256_loop (n : nat) (i : Z) (r : Z) : reader Z :=
  match n with
  | O => mret r
  | S n => t ← read_u 4; deser_uint256_loop n (i + 1) (r + Z.shiftl t (i * 32))
  end.

Definition deser_uint256 : reader Z := deser_uint256_loop 8 0 0.

Fixpoint ser_uint256_loop (n : nat) (rs : bytes) (u : Z) : result bytes :=
  match n with
  | O => Ok rs
  | S n => b ← pack_u 4 (Z.land u 0xFFFFFFFF); ser_uint256_loop n (rs ++ b) (Z.shiftr u 32)
  end.

Definition ser_uint256 (u : Z) : result bytes := ser_uint256_loop 8 [] u.

(** [struct.unpack("<" + "I" * n, s)]. *)
Fixpoint unpack_words (n : nat) (s : bytes) : result (list Z) :=
  match n with
  | O => if s is [] then Ok [] else Err StructError
  | S n => t ← unpack_u 4 (take 4 s); ts ← unpack_words n (drop 4 s); Ok (t :: ts)
  end.

Fixpoint sum_words (i : Z) (ts : list Z) : Z :=
  match ts with [] => 0 | t :: ts => Z.shiftl t (i * 32) + sum_words (i + 1) ts end.

Definition uint256_from_str (s : bytes) : result Z :=
  t ← unpack_words 8 (take 32 s);
  Ok (sum_words 0 t).

(** ** Vectors *)

Definition deser_vector {D} (c : reader D) : reader (list D) :=
  nit ← deser_compact_size;
  replicateR (Z.to_nat nit) c.

Definition ser_vector {D} (ser : D → result bytes) (v : list D) : result bytes :=
  r ← ser_compact_size (len v);
  bs ← mapR ser v;
  Ok (r ++ concat bs).

Definition deser_string_vector : reader (list bytes) := deser_vector deser_string.
Definition ser_string_vector (v : list bytes) : result bytes := ser_vector ser_string v.

(** ** ECDSA signatures *)

(** [ri] counts the leading zero bytes; the result is [r[ri:]]. *)
Fixpoint drop_zeros (r : bytes) : bytes :=
  match r with
  | [] => []
  | b :: r' => if ord b =? 0 then drop_zeros r' else r
  end.

(** The shortest form of one number of the signature, made positive. *)
Definition der_int (r : bytes) : result bytes :=
  let r := drop_zeros r in
  first ← nth_py r 0;
  Ok (if negb (Z.land (ord first) (Z.shiftl 1 7) =? 0) then chr 0 :: r else r).

Definition ser_sig_der (r s : bytes) : result bytes :=
  r ← der_int r;
  s ← der_int s;
  let total_len := len r + len s + 4 in
  tl ← pack_u 1 total_len;
  lr ← pack_u 1 (len r);
  ls ← pack_u 1 (len s);
  Ok ([chr 0x30] ++ tl ++ [chr 0x02] ++ lr ++ r ++ [chr 0x02] ++ ls ++ s ++ [chr 0x01]).

Definition ser_sig_compact (r s recid : bytes) : result bytes :=
  rec ← unpack_u 1 recid;
  prefix ← pack_u 1 (27 + 4 + rec);
  Ok (prefix ++ r ++ s).

(** * Lemmas *)

Lemma small_fits8 {A} (l : list A) : small l → fits 8 (len l).
Proof. unfold small, fits, maxsize. pose proof (len_nonneg l). change (256 ^ Z.of_nat 8) with (2 ^ 64). lia. Qed.

Lemma ser_compact_size_ok n b : ser_compact_size n = Ok b → fits 8 n.
Proof.
  unfold ser_compact_size, fits. change (256 ^ Z.of_nat 8) with (2 ^ 64).
  repeat case_match; intros Hq; invert_ok; bools;
    repeat match goal with E : pack_u _ _ = Ok _ |- _ => apply pack_u_ok in E as [[? ?] _] end; lia.
Qed.

Lemma ser_compact_size_total n : fits 8 n → ∃ b, ser_compact_size n = Ok b.
Proof.
  intros [H0 H1]. change (256 ^ Z.of_nat 8) with (2 ^ 64) in H1. unfold ser_compact_size.
  repeat case_match; bools; rewrite pack_u_fits by (unfold fits; lia); simpl; eauto.
Qed.

Lemma reads_compact_size n b : ser_compact_size n = Ok b → reads deser_compact_size b n.
Proof.
  intros H. unfold deser_compact_size.
  assert (∀ t w b', 253 <= t < 256 → (0 < w)%nat → Z.of_nat w <= maxsize → pack_u w n = Ok b' →
    (if t =? 253 then w = 2%nat else if t =? 254 then w = 4%nat else w = 8%nat) →
    reads (nit ← read_u 1; if nit =? 253 then read_u 2 else if nit =? 254 then read_u 4
           else if nit =? 255 then read_u 8 else mret nit) (chr t :: b') n) as Hlong.
  { intros t w b' Ht Hw Hm Hp Hwt. change (chr t :: b') with ([chr t] ++ b').
    eapply (reads_bind _ _ _ _ t); [apply reads_read_u; [done|]|].
    - rewrite pack_u_fits by (unfold fits; lia). reflexivity.
    - repeat case_match; bools; subst; try lia; by apply reads_read_u. }
  unfold ser_compact_size in H.
  destruct (Z.ltb_spec n 253); [|destruct (Z.ltb_spec n 0x10000); [|destruct (Z.ltb_spec n 0x100000000)]].
  - eapply reads_bind_end; [by apply reads_read_u|].
    repeat (rewrite (proj2 (Z.eqb_neq n _)) by lia). apply reads_ret.
  - invert_ok. by apply (Hlong 253 2%nat); [lia|lia|..].
  - invert_ok. by apply (Hlong 254 4%nat); [lia|lia|..].
  - invert_ok. by apply (Hlong 255 8%nat); [lia|lia|..].
Qed.

#[export] Instance compact_size_codec : Codec ser_compact_size deser_compact_size (fits 8).
Proof. split; [apply ser_compact_size_total|intros; by apply reads_compact_size]. Qed.

#[export] Instance string_codec : Codec ser_string deser_string small.
Proof.
  split.
  - intros s Hs. destruct (ser_compact_size_total _ (small_fits8 s Hs)) as [b Hb].
    unfold ser_string. rewrite Hb. simpl. eauto.
  - intros s b Hs H. unfold ser_string in H. invert_ok.
    unfold deser_string. eapply reads_bind; [by apply reads_compact_size|]. by apply reads_read.
Qed.

#[export] Instance vector_codec {D} (ser : D → result bytes) (deser : reader D) wf
    `{!Codec ser deser wf} :
  Codec (ser_vector ser) (deser_vector deser) (λ v, small v ∧ Forall wf v).
Proof.
  split.
  - intros v [Hs Hv]. destruct (ser_compact_size_total _ (small_fits8 v Hs)) as [b Hb].
    unfold ser_vector. rewrite Hb. simpl.
    assert (∃ bs, mapR ser v = Ok bs) as [bs ->]; [|simpl; eauto].
    clear Hs Hb. induction Hv as [|x v Hx Hv [bs IH]]; simpl; [eauto|].
    destruct (codec_total x Hx) as [bx ->]. simpl. rewrite IH. simpl. eauto.
  - intros v b [Hs Hv] H. unfold ser_vector in H. invert_ok.
    unfold deser_vector. eapply reads_bind; [by apply reads_compact_size|].
    unfold len. rewrite Nat2Z.id. apply reads_replicate.
    match goal with E : mapR _ _ = Ok _ |- _ => apply mapR_Forall2 in E; rename E into Hm end.
    clear -Hv Hm Codec0. induction Hm as [|x bx v bs Hx Hm IH]; [constructor|].
    apply Forall_cons_1 in Hv as [Hwx Hv]. constructor; [by apply codec_reads|by apply IH].
Qed.

(** A string that was read left a shorter stream. *)
Lemma deser_compact_size_shrinks s n s' :
  deser_compact_size s = (Ok n, s') → (length s' < length s)%nat ∧ 0 <= n.
Proof.
  unfold deser_compact_size. rewrite reader_bind_ok. intros (t & s1 & H1 & H2).
  apply read_u_ok in H1 as (b & -> & Hb & Ht). rewrite length_app.
  pose proof (le_int_bound b). repeat case_match;
    try (apply read_u_ok in H2 as (b2 & -> & Hb2 & ->); pose proof (le_int_bound b2);
         rewrite length_app; lia).
  injection H2 as -> ->. lia.
Qed.

Lemma deser_string_shrinks s k s' : deser_string s = (Ok k, s') → (length s' < length s)%nat.
Proof.
  unfold deser_string. rewrite reader_bind_ok. intros (n & s1 & H1 & H2).
  apply deser_compact_size_shrinks in H1 as [H1 _]. apply read_length in H2. lia.
Qed.

(** ** 256-bit integers are 32 little-endian bytes *)

Lemma le_bytes_app n m z : le_bytes (n + m) z = le_bytes n z ++ le_bytes m (z / 256 ^ Z.of_nat n).
Proof.
  revert z. induction n as [|n IH]; intros z.
  - simpl. by rewrite Z.div_1_r.
  - cbn [Nat.add le_bytes app]. f_equal. rewrite IH, Z.div_div by lia.
    by rewrite Nat2Z.inj_succ, Z.pow_succ_r by lia.
Qed.

Lemma le_bytes_mod n z : le_bytes n (z mod 256 ^ Z.of_nat n) = le_bytes n z.
Proof.
  rewrite <- le_int_le_bytes.
  rewrite <- (length_le_bytes n z) at 1. apply le_bytes_le_int.
Qed.

Lemma ser_uint256_loop_le n rs u :
  ser_uint256_loop n rs u = Ok (rs ++ le_bytes (4 * n) u).
Proof.
  revert rs u. induction n as [|n IH]; intros rs u; [simpl; by rewrite app_nil_r|].
  cbn [ser_uint256_loop].
  change 0xFFFFFFFF with (Z.ones 32). rewrite Z.land_ones by lia.
  rewrite pack_u_fits by (unfold fits; apply Z.mod_pos_bound; done).
  unfold mbind, result_bind. rewrite IH, Z.shiftr_div_pow2 by lia.
  change (2 ^ 32) with (256 ^ Z.of_nat 4). rewrite le_bytes_mod.
  replace (4 * S n)%nat with (4 + 4 * n)%nat by lia. by rewrite le_bytes_app, <- app_assoc.
Qed.

Lemma ser_uint256_le u : ser_uint256 u = Ok (le_bytes 32 u).
Proof. unfold ser_uint256. by rewrite ser_uint256_loop_le. Qed.

Lemma reads_uint256_loop b n i r :
  length b = (4 * n)%nat → 0 <= i →
  reads (deser_uint256_loop n i r) b (r + 2 ^ (32 * i) * le_int b).
Proof.
  revert b i r. induction n as [|n IH]; intros b i r Hb Hi.
  - destruct b; [|discriminate]. simpl. rewrite Z.mul_0_r, Z.add_0_r. apply reads_ret.
  - rewrite <- (take_drop 4 b). cbn [deser_uint256_loop].
    assert (length (take 4 b) = 4%nat) as H4 by (rewrite length_take; lia).
    eapply reads_bind.
    + apply (reads_read_u 4 (le_int (take 4 b))); [done|].
      apply pack_unpack_u, unpack_u_ok. done.
    + rewrite le_int_app. unfold len. rewrite H4, Z.shiftl_mul_pow2 by lia.
      replace (r + 2 ^ (32 * i) * (le_int (take 4 b) + 256 ^ Z.of_nat 4 * le_int (drop 4 b)))
        with (r + le_int (take 4 b) * 2 ^ (i * 32) + 2 ^ (32 * (i + 1)) * le_int (drop 4 b)).
      * apply IH; [rewrite length_drop; lia|lia].
      * rewrite (Z.mul_comm i 32), Z.mul_add_distr_l, Z.pow_add_r by lia.
        change (256 ^ Z.of_nat 4) with (2 ^ (32 * 1)). ring.
Qed.

Lemma reads_uint256 b : length b = 32%nat → reads deser_uint256 b (le_int b).
Proof.
  intros Hb. pose proof (reads_uint256_loop b 8 0 0 ltac:(lia) ltac:(lia)) as H.
  change (2 ^ (32 * 0)) with 1 in H. by rewrite Z.add_0_l, Z.mul_1_l in H.
Qed.

#[export] Instance uint256_codec : Codec ser_uint256 deser_uint256 (fits 32).
Proof.
  split.
  - intros u _. rewrite ser_uint256_le. eauto.
  - intros u b Hu. rewrite ser_uint256_le. intros Hb. assert (b = le_bytes 32 u) as -> by congruence.
    pose proof (reads_uint256 _ (length_le_bytes 32 u)) as H.
    by rewrite (le_int_le_bytes_small 32 u Hu) in H.
Qed.

Lemma unpack_words_le n s :
  length s = (4 * n)%nat →
  ∃ ts, unpack_words n s = Ok ts ∧ ∀ i, 0 <= i → sum_words i ts = 2 ^ (32 * i) * le_int s.
Proof.
  revert s. induction n as [|n IH]; intros s Hs.
  - destruct s; [|discriminate]. exists []. split; [done|]. intros. simpl. lia.
  - cbn [unpack_words]. rewrite (proj2 (unpack_u_ok 4 (take 4 s) _))
      by (split; [rewrite length_take; lia|reflexivity]).
    destruct (IH (drop 4 s)) as (ts & -> & Hts); [rewrite length_drop; lia|].
    eexists. split; [reflexivity|]. intros i Hi. cbn [sum_words]. rewrite Hts by lia.
    rewrite <- (take_drop 4 s) at 3. rewrite le_int_app, Z.shiftl_mul_pow2 by lia.
    assert (len (take 4 s) = 4) as -> by (unfold len; rewrite length_take; lia).
    rewrite (Z.mul_comm i 32), Z.mul_add_distr_l, Z.pow_add_r by lia.
    change (256 ^ 4) with (2 ^ (32 * 1)). ring.
Qed.

Lemma uint256_from_str_le s : (32 <= length s)%nat → uint256_from_str s = Ok (le_int (take 32 s)).
Proof.
  intros Hs. unfold uint256_from_str.
  destruct (unpack_words_le 8 (take 32 s)) as (ts & -> & H); [rewrite length_take; lia|].
  simpl mbind. unfold mbind, result_bind. rewrite H by lia. change (2 ^ (32 * 0)) with 1. by rewrite Z.mul_1_l.
Qed.

Lemma uint256_from_str_ser u b : fits 32 u → ser_uint256 u = Ok b → uint256_from_str b = Ok u.
Proof.
  intros Hu. rewrite ser_uint256_le. intros Hb. assert (b = le_bytes 32 u) as -> by congruence.
  rewrite uint256_from_str_le by (rewrite length_le_bytes; lia).
  rewrite take_ge by (rewrite length_le_bytes; lia). by rewrite le_int_le_bytes_small.
Qed.

(** ** DER integers *)

(** A positive DER integer in its shortest form (BIP 66). *)
Definition der_minimal (b : bytes) : Prop :=
  match b with
  | [] => False
  | [x] => ord x < 128
  | x :: y :: _ => ord x < 128 ∧ (ord x = 0 → 128 <= ord y)
  end.

Lemma drop_zeros_spec r :
  be_int (drop_zeros r) = be_int r ∧ (∀ x t, drop_zeros r = x :: t → ord x ≠ 0) ∧
  (length (drop_zeros r) <= length r)%nat.
Proof.
  induction r as [|x r (IH1 & IH2 & IH3)]; [done|]. cbn [drop_zeros].
  destruct (Z.eqb_spec (ord x) 0) as [E|E].
  - rewrite be_int_cons, E. rewrite IH1. split; [lia|]. split; [done|]. simpl. lia.
  - split; [done|]. split; [|lia]. by intros ? ? [= <- <-].
Qed.

Lemma bit7_test x : 0 <= x < 256 → negb (Z.land x (Z.shiftl 1 7) =? 0) = (128 <=? x).
Proof.
  intros H.
  assert (forallb (λ n, Bool.eqb (negb (Z.land (Z.of_nat n) (Z.shiftl 1 7) =? 0)) (128 <=? Z.of_nat n))
    (seq 0 256) = true) as F by (vm_compute; reflexivity).
  rewrite forallb_forall in F. specialize (F (Z.to_nat x)). rewrite Z2Nat.id in F by lia.
  apply Bool.eqb_prop, F, in_seq. lia.
Qed.

Lemma der_int_spec r :
  be_int r ≠ 0 →
  ∃ b, der_int r = Ok b ∧ be_int b = be_int r ∧ der_minimal b ∧ (length b <= S (length r))%nat.
Proof.
  intros H0. destruct (drop_zeros_spec r) as (H1 & H2 & H3). unfold der_int.
  destruct (drop_zeros r) as [|x t] eqn:E.
  { exfalso. apply H0. rewrite <- H1. done. }
  specialize (H2 x t eq_refl). pose proof (ord_range x).
  cbn [nth_py lookup list_lookup of_option mbind result_bind]. unfold nth_py. simpl of_option.
  unfold mbind, result_bind. rewrite bit7_test by lia. eexists. split; [reflexivity|].
  destruct (Z.leb_spec 128 (ord x)).
  - split; [|split].
    + rewrite be_int_cons. change (ord (chr 0)) with 0. lia.
    + simpl. split; [done|]. intros _. lia.
    + simpl in *. lia.
  - split; [done|]. split; [|simpl in *; lia]. simpl. destruct t; [lia|]. split; [lia|]. lia.
Qed.

Lemma ser_compact_size_length n b :
  ser_compact_size n = Ok b →
  len b = if n <? 253 then 1 else if n <? 0x10000 then 3 else if n <? 0x100000000 then 5 else 9.
Proof.
  unfold ser_compact_size. repeat case_match; intros Hs.
  - apply length_pack_u in Hs. unfold len. lia.
  - apply bind_ok in Hs as (b' & Hb & [= <-]). apply length_pack_u in Hb. rewrite len_cons. unfold len. lia.
  - apply bind_ok in Hs as (b' & Hb & [= <-]). apply length_pack_u in Hb. rewrite len_cons. unfold len. lia.
  - apply bind_ok in Hs as (b' & Hb & [= <-]). apply length_pack_u in Hb. rewrite len_cons. unfold len. lia.
Qed.

(** * Properties *)

(** C23: compact sizes: an integer can be written exactly when it fits 64
    unsigned bits (a [struct.error] otherwise); it takes 1, 3, 5 or 9 bytes,
    and reading from any stream that starts with them returns it and leaves
    the stream just behind. *)
Theorem compact_size_roundtrip (n : Z) :
  (is_ok (ser_compact_size n) = true ↔ 0 <= n < 2 ^ 64) ∧
  (∀ b rest, ser_compact_size n = Ok b →
     deser_compact_size (b ++ rest) = (Ok n, rest) ∧
     len b = if n <? 253 then 1 else if n <? 0x10000 then 3 else if n <? 0x100000000 then 5 else 9).
Proof.
  split; [split|].
  - destruct (ser_compact_size n) as [b|] eqn:E; [|done]. intros _. by apply ser_compact_size_ok in E.
  - intros Hn. by destruct (ser_compact_size_total n Hn) as [b ->].
  - intros b rest Hb. split; [by apply reads_compact_size|by apply ser_compact_size_length].
Qed.

(** 256-bit integers: reading 32 bytes, from a stream or from a string,
    gives the integer whose serialization they are. *)
Theorem uint256_roundtrip (u : Z) (b rest : bytes) (Hu : 0 <= u < 2 ^ 256) :
  ser_uint256 u = Ok b ↔
  (len b = 32 ∧ deser_uint256 (b ++ rest) = (Ok u, rest) ∧ uint256_from_str (b ++ rest) = Ok u).
Proof.
  assert (fits 32 u) as Hf by (unfold fits; by change (256 ^ Z.of_nat 32) with (2 ^ 256)).
  rewrite ser_uint256_le. split.
  - intros Hb. assert (b = le_bytes 32 u) as -> by congruence.
    assert (length (le_bytes 32 u) = 32%nat) as Hl by apply length_le_bytes.
    split; [unfold len; by rewrite Hl|].
    rewrite (reads_uint256 _ Hl rest), uint256_from_str_le by (rewrite length_app; lia).
    rewrite take_app_exact by done. by rewrite le_int_le_bytes_small.
  - intros (Hl & Hd & _). assert (length b = 32%nat) as Hl' by (unfold len in Hl; lia).
    rewrite (reads_uint256 _ Hl' rest) in Hd. assert (u = le_int b) as -> by congruence.
    rewrite <- Hl' at 1. by rewrite le_bytes_le_int.
Qed.

Lemma uint256_roundtrip_witness :
  len (le_bytes 32 (2 ^ 255 + 7)) = 32 ∧
  deser_uint256 (le_bytes 32 (2 ^ 255 + 7) ++ [chr 1]) = (Ok (2 ^ 255 + 7), [chr 1]) ∧
  uint256_from_str (le_bytes 32 (2 ^ 255 + 7) ++ [chr 1]) = Ok (2 ^ 255 + 7).
Proof.
  apply (uint256_roundtrip (2 ^ 255 + 7)); [lia|]. vm_compute. reflexivity.
Defined.

(** [ser_sig_der] writes a strict DER signature (BIP 66) with a sighash
    byte: for nonzero numbers of at most 32 bytes each, both come out
    unchanged in value, positive and in their shortest form, with the length
    bytes that belong to them. *)
Theorem ser_sig_der_strict (r s : bytes)
    (Hr : len r <= 32) (Hs : len s <= 32) (Hr0 : be_int r ≠ 0) (Hs0 : be_int s ≠ 0) :
  ∃ R S, der_minimal R ∧ der_minimal S ∧ be_int R = be_int r ∧ be_int S = be_int s ∧
    ser_sig_der r s =
      Ok ([chr 0x30; chr (len R + len S + 4); chr 0x02; chr (len R)] ++ R
          ++ [chr 0x02; chr (len S)] ++ S ++ [chr 0x01]).
Proof.
  destruct (der_int_spec r Hr0) as (R & HR & HiR & HmR & HlR).
  destruct (der_int_spec s Hs0) as (S & HS & HiS & HmS & HlS).
  exists R, S. do 4 (split; [done|]).
  pose proof (len_nonneg R). pose proof (len_nonneg S).
  assert (len R <= 33) by (unfold len in *; lia). assert (len S <= 33) by (unfold len in *; lia).
  unfold ser_sig_der. rewrite HR, HS. unfold mbind, result_bind.
  rewrite !pack_u_fits by (unfold fits; change (256 ^ Z.of_nat 1) with 256; lia). done.
Qed.

Lemma ser_sig_der_strict_witness :
  ∃ R S, der_minimal R ∧ der_minimal S ∧ be_int R = be_int (chr 0 :: replicate 31 (chr 0x80)) ∧
    be_int S = be_int (replicate 32 (chr 0x7f)) ∧
    ser_sig_der (chr 0 :: replicate 31 (chr 0x80)) (replicate 32 (chr 0x7f)) =
      Ok ([chr 0x30; chr (len R + len S + 4); chr 0x02; chr (len R)] ++ R
          ++ [chr 0x02; chr (len S)] ++ S ++ [chr 0x01]).
Proof.
  apply (ser_sig_der_strict (chr 0 :: replicate 31 (chr 0x80)) (replicate 32 (chr 0x7f)));
    vm_compute; discriminate.
Defined.
