(* ===== verification/Base58.v ===== *)
(** * [hwilib/_base58.py]: base 58 and Base58Check

    [encode] and [decode] are inverse bijections between byte strings and
    strings over the alphabet; Base58Check strings are exactly those that
    [encode_check] produces. *)

From S2P Require Import Prelude Bytes PyStd PyStr Common Sha256.

Definition b58_digits : pystr :=
  $"123456789ABCDEFGHJKLMNPQRSTUVWXYZabcdefghijkmnopqrstuvwxyz".

(** [b58_digits[r]]. *)
Definition b58_digit (r : Z) : byte := nth (Z.to_nat r) b58_digits Byte.x00.

(** The counting loop of both functions: how many [c]s [s] begins with. *)
Fixpoint count_leading (c : byte) (s : list byte) : nat :=
  match s with
  | [] => O
  | x :: s => if decide (x = c) then S (count_leading c s) else O
  end.

Definition encode (b : bytes) : pystr :=
  (* int('0x0' + hexlify(b), 16) *)
  let n := int_hex ($"0" ++ hexlify b) in
  let temp := map b58_digit (digits_le 58 n) in
  let res := rev temp in
  let pad := count_leading (chr 0) b in
  replicate pad (b58_digit 0) ++ res.

(** The loop that turns the string into an integer. *)
Fixpoint decode_int (s : pystr) (n : Z) : result Z :=
  match s with
  | [] => Ok n
  | c :: s =>
      digit ← of_option BadArgumentError (find_char c b58_digits);
      decode_int s (n * 58 + Z.of_nat digit)
  end.

Definition decode (s : pystr) : result bytes :=
  match s with
  | [] => Ok []
  | _ =>
      n ← decode_int s 0;
      res ← unhexlify (pad_even (fmt_hex n));
      let pad := count_leading (b58_digit 0) (slice_to_neg 1 s) in
      Ok (replicate pad (chr 0) ++ res)
  end.

Section base58check.
Context `{Hashes}.

Definition decode_check (s : pystr) : result bytes :=
  data ← decode s;
  let payload := slice_to_neg 4 data in
  let checksum := slice_from_neg 4 data in
  let calc_checksum := hash256 payload in
  if bool_decide (checksum ≠ take 4 calc_checksum) then Err ValueError else Ok payload.

Definition encode_check (b : bytes) : pystr :=
  let checksum := take 4 (hash256 b) in
  encode (b ++ checksum).

Definition to_address (b version : bytes) : pystr :=
  let data := version ++ b in
  let checksum := take 4 (hash256 data) in
  encode (data ++ checksum).

Definition xpub_main_2_test (xpub : pystr) : result pystr :=
  data ← decode xpub;
  let test_data := [chr 0x04; chr 0x35; chr 0x87; chr 0xCF] ++ slice_to_neg 4 (drop 4 data) in
  let checksum := take 4 (hash256 test_data) in
  Ok (encode (test_data ++ checksum)).
End base58check.

Definition get_xpub_fingerprint (s : pystr) : result bytes :=
  data ← decode s;
  Ok (slice 5 9 data).

Definition get_xpub_fingerprint_hex (xpub : pystr) : result pystr :=
  data ← decode xpub;
  Ok (hexlify (slice 5 9 data)).

(** [data[-37:-4]]. *)
Definition xpub_to_pub_hex (xpub : pystr) : result pystr :=
  data ← decode xpub;
  Ok (hexlify (slice (length data - 37) (length data - 4) data)).

Definition xpub_to_xonly_pub_hex (xpub : pystr) : result pystr :=
  data ← decode xpub;
  Ok (hexlify (slice (length data - 36) (length data - 4) data)).

(** * Lemmas *)

Lemma b58_digit_facts r : 0 <= r < 58 → find_char (b58_digit r) b58_digits = Some (Z.to_nat r).
Proof.
  intros Hr.
  assert (forallb (λ n, bool_decide (find_char (b58_digit (Z.of_nat n)) b58_digits = Some n)) (seq 0 58) = true)
    as F by (vm_compute; reflexivity).
  rewrite forallb_forall in F. specialize (F (Z.to_nat r)). rewrite Z2Nat.id in F by lia.
  apply bool_decide_eq_true in F; [done|]. apply in_seq. lia.
Qed.

Lemma b58_find_inv c i : find_char c b58_digits = Some i → (i < 58)%nat ∧ c = b58_digit (Z.of_nat i).
Proof.
  intros Hf.
  assert (∀ c, (if find_char c b58_digits is Some i
    then (i <? 58)%nat && bool_decide (c = b58_digit (Z.of_nat i)) else true) = true) as F.
  { apply forall_byte. vm_compute. reflexivity. }
  specialize (F c). rewrite Hf in F. bools. split; [|done]. apply Nat.ltb_lt. done.
Qed.

Lemma b58_digit_inj r1 r2 : 0 <= r1 < 58 → 0 <= r2 < 58 → b58_digit r1 = b58_digit r2 → r1 = r2.
Proof.
  intros H1 H2 E. apply b58_digit_facts in H1 as F1. apply b58_digit_facts in H2 as F2.
  rewrite E, F2 in F1. injection F1 as F1. lia.
Qed.

Lemma int_hex_zero s : int_hex ($"0" ++ s) = int_hex s.
Proof. done. Qed.

Lemma encode_unfold b :
  encode b = replicate (count_leading (chr 0) b) (b58_digit 0) ++ rev (map b58_digit (digits_le 58 (be_int b))).
Proof. unfold encode. by rewrite int_hex_zero, int_hex_hexlify. Qed.

Lemma decode_int_digits ds n :
  Forall (λ d, 0 <= d < 58) ds →
  decode_int (map b58_digit ds) n = Ok (n * 58 ^ len ds + undigits 58 (rev ds)).
Proof.
  intros H. revert n. induction H as [|d ds Hd H IH]; intros n.
  - simpl. unfold len. simpl. f_equal. lia.
  - cbn [map decode_int]. rewrite b58_digit_facts by done. cbn [of_option mbind result_bind].
    unfold mbind, result_bind. rewrite IH. f_equal. rewrite len_cons.
    cbn [rev]. rewrite undigits_snoc. 
    replace (len (rev ds)) with (len ds) by (unfold len; by rewrite length_rev).
    rewrite Z.pow_add_r, Z.pow_1_r by (pose proof (len_nonneg ds); lia).
    rewrite Z2Nat.id by lia. ring.
Qed.

(** A string the loop accepts is a list of digits. *)
Lemma decode_int_ok s n v :
  decode_int s n = Ok v → ∃ ds, s = map b58_digit ds ∧ Forall (λ d, 0 <= d < 58) ds.
Proof.
  revert n. induction s as [|c s IH]; intros n Hd.
  - by exists [].
  - cbn [decode_int] in Hd. unfold mbind, result_bind, of_option in Hd.
    destruct (find_char c b58_digits) as [i|] eqn:E; [|discriminate].
    apply b58_find_inv in E as [Hi ->]. apply IH in Hd as (ds & -> & Hds).
    exists (Z.of_nat i :: ds). split; [done|]. constructor; [lia|done].
Qed.

Lemma count_leading_replicate c k s : head s ≠ Some c → count_leading c (replicate k c ++ s) = k.
Proof.
  intros H. induction k as [|k IH]; simpl.
  - destruct s as [|x s]; simpl; [done|]. rewrite decide_False; [done|]. intros ->. by apply H.
  - rewrite decide_True by done. by rewrite IH.
Qed.

(** Every string is some [c]s and a rest that starts otherwise. *)
Lemma leading_split (c : byte) s :
  ∃ k t, s = replicate k c ++ t ∧ head t ≠ Some c ∧ count_leading c s = k.
Proof.
  induction s as [|x s (k & t & -> & Ht & Hk)].
  - by exists O, [].
  - destruct (decide (x = c)) as [->|Hx].
    + exists (S k), t. simpl. rewrite decide_True by done. rewrite Hk. done.
    + exists O, (x :: replicate k c ++ t). simpl. rewrite decide_False by done.
      split; [done|]. split; [congruence|done].
Qed.

Lemma be_int_zeros k b : be_int (replicate k (chr 0) ++ b) = be_int b.
Proof.
  induction k as [|k IH]; [done|]. cbn [replicate app]. rewrite be_int_cons, IH.
  change (ord (chr 0)) with 0. lia.
Qed.

Lemma be_int_pos b : b ≠ [] → head b ≠ Some (chr 0) → 0 < be_int b.
Proof.
  destruct b as [|x b]; intros Hne H; [done|]. rewrite be_int_cons.
  pose proof (ord_range x). pose proof (be_int_bound b). pose proof (len_nonneg b).
  assert (ord x ≠ 0). { intros E. apply H. simpl. f_equal. by rewrite <- (chr_ord x), E. }
  pose proof (Z.pow_pos_nonneg 256 (len b)). nia.
Qed.

Lemma rev_digits_head b n :
  2 <= b → 0 < n → ∃ d ds, rev (digits_le b n) = d :: ds ∧ d ≠ 0.
Proof.
  intros Hb Hn. pose proof (digits_le_canonical b n Hb ltac:(lia)) as Hc.
  pose proof (undigits_digits_le b n Hb ltac:(lia)) as Hu.
  destruct (rev (digits_le b n)) as [|d ds] eqn:E;
    apply (f_equal (@rev Z)) in E; rewrite rev_involutive in E; rewrite E in *.
  - simpl in Hu. lia.
  - exists d, ds. split; [done|]. intros ->. apply Hc. simpl. apply last_snoc.
Qed.

(** [decode] on [k] ones and the digits of a number. *)
Lemma decode_ones k d ds :
  d ≠ 0 → Forall (λ d, 0 <= d < 58) (d :: ds) →
  ∃ res, decode (replicate k (b58_digit 0) ++ map b58_digit (d :: ds)) = Ok (replicate k (chr 0) ++ res)
    ∧ be_int res = undigits 58 (rev (d :: ds)) ∧ head res ≠ Some Byte.x00 ∧ 0 < be_int res.
Proof.
  intros Hd0 Hds. assert (0 < undigits 58 (rev (d :: ds))) as Hpos.
  { cbn [rev]. rewrite undigits_snoc. apply Forall_cons_1 in Hds as [Hd Hds].
    pose proof (Z.pow_pos_nonneg 58 (len (rev ds)) ltac:(lia) (len_nonneg _)).
    assert (0 <= undigits 58 (rev ds)); [|nia].
    apply Forall_rev in Hds. revert Hds. clear. generalize (rev ds). intros l Hl.
    induction Hl; cbn [undigits]; lia. }
  destruct (unhexlify_fmt_hex _ Hpos) as (res & Hres & Hi & Hh).
  exists res. split; [|rewrite Hi; done].
  set (s := replicate k (b58_digit 0) ++ map b58_digit (d :: ds)).
  assert (s = map b58_digit (replicate k 0 ++ d :: ds)) as Es.
  { unfold s. rewrite map_app. f_equal. clear. induction k; simpl; congruence. }
  assert (decode_int s 0 = Ok (undigits 58 (rev (d :: ds)))) as Hn.
  { rewrite Es, decode_int_digits.
    - f_equal. rewrite Z.mul_0_l, Z.add_0_l, rev_app_distr. clear.
      generalize (rev (d :: ds)) as l. intros l.
      induction l as [|x l IH]; [|simpl; congruence]. cbn [app].
      induction k as [|k IH]; [done|]. cbn [replicate rev]. rewrite undigits_snoc, IH. simpl. lia.
    - apply Forall_app. split; [|done]. apply Forall_replicate. lia. }
  assert (count_leading (b58_digit 0) (slice_to_neg 1 s) = k) as Hpad.
  { unfold s, slice_to_neg. rewrite length_app, length_replicate, length_map. cbn [length].
    replace (k + S (length ds) - 1)%nat with (k + length ds)%nat by lia.
    rewrite take_app_ge by (rewrite length_replicate; lia). rewrite length_replicate.
    apply count_leading_replicate.
    replace (k + length ds - k)%nat with (length ds) by lia.
    destruct ds as [|d2 ds]; [done|]. cbn [map length take head]. intros [= Hx].
    apply b58_digit_inj in Hx; [done| |lia]. by apply Forall_cons_1 in Hds as [? _]. }
  unfold decode. destruct s as [|c s'] eqn:E0.
  { unfold s in E0. destruct k; discriminate. }
  rewrite Hn. unfold mbind, result_bind. rewrite Hres. by rewrite Hpad.
Qed.

Lemma decode_all_ones k :
  decode (replicate k (b58_digit 0)) = Ok (replicate k (chr 0)).
Proof.
  destruct k as [|k]; [done|].
  assert (∀ k n, decode_int (replicate k (b58_digit 0)) n = Ok (n * 58 ^ Z.of_nat k)) as Hn.
  { clear. induction k as [|k IH]; intros n; [simpl; f_equal; lia|].
    cbn [replicate decode_int]. rewrite b58_digit_facts by lia. simpl.
    rewrite IH. f_equal. rewrite Nat2Z.inj_succ, Z.pow_succ_r by lia. lia. }
  assert (slice_to_neg 1 (replicate (S k) (b58_digit 0)) = replicate k (b58_digit 0)) as Hs.
  { unfold slice_to_neg. rewrite length_replicate. replace (S k - 1)%nat with k by lia.
    rewrite take_replicate. f_equal. lia. }
  change (decode (replicate (S k) (b58_digit 0))) with
    (n ← decode_int (replicate (S k) (b58_digit 0)) 0; res ← unhexlify (pad_even (fmt_hex n));
     Ok (replicate (count_leading (b58_digit 0) (slice_to_neg 1 (replicate (S k) (b58_digit 0)))) (chr 0) ++ res)).
  rewrite Hs, Hn, Z.mul_0_l. simpl.
  rewrite <- (app_nil_r (replicate k (b58_digit 0))), count_leading_replicate by done.
  change (Ok (replicate k Byte.x00 ++ [Byte.x00]) = Ok (replicate (S k) Byte.x00)).
  by rewrite replicate_S_end.
Qed.

(** ** The two inverse laws *)

Lemma decode_encode_ok b : decode (encode b) = Ok b.
Proof.
  rewrite encode_unfold. destruct (leading_split (chr 0) b) as (k & t & Hb & Ht & ->).
  subst b. rewrite be_int_zeros. destruct t as [|x t].
  - change (rev (map b58_digit (digits_le 58 (be_int [])))) with (@nil byte).
    rewrite !app_nil_r. apply decode_all_ones.
  - pose proof (be_int_pos (x :: t) ltac:(done) Ht) as Hpos.
    destruct (rev_digits_head 58 _ ltac:(lia) Hpos) as (d & ds & E & Hd).
    rewrite <- map_rev, E.
    assert (Forall (λ d, 0 <= d < 58) (d :: ds)) as Hr
      by (rewrite <- E; apply Forall_rev, digits_le_range; lia).
    destruct (decode_ones k d ds Hd Hr) as (res & -> & Hi & Hh & _).
    do 2 f_equal. apply be_int_inj; [done|exact Ht|].
    rewrite Hi, <- E, rev_involutive. apply undigits_digits_le; lia.
Qed.

Lemma encode_decode_ok s b : decode s = Ok b → encode b = s.
Proof.
  intros Hs. destruct s as [|c s]; [simpl in Hs; invert_ok; done|].
  assert (∃ ds, c :: s = map b58_digit ds ∧ Forall (λ d, 0 <= d < 58) ds) as (ds & E & Hds).
  { unfold decode in Hs. apply bind_ok in Hs as (n & Hn & _). by eapply decode_int_ok. }
  rewrite E in *. clear c s E.
  assert (∃ k t, ds = replicate k 0 ++ t ∧ head t ≠ Some 0) as (k & t & -> & Ht).
  { clear. induction ds as [|d ds (k & t & -> & Ht)]; [by exists O, []|].
    destruct (decide (d = 0)) as [->|Hd]; [by exists (S k), t|].
    exists O, (d :: replicate k 0 ++ t). simpl. split; [done|congruence]. }
  rewrite map_app in *.
  assert (map b58_digit (replicate k 0) = replicate k (b58_digit 0)) as Ek
    by (clear; induction k; simpl; congruence).
  rewrite Ek in *. apply Forall_app in Hds as [_ Hds]. destruct t as [|d ds].
  - simpl in *. rewrite app_nil_r in *. rewrite decode_all_ones in Hs. invert_ok.
    rewrite encode_unfold. rewrite <- (app_nil_r (replicate k (chr 0))).
    rewrite count_leading_replicate, be_int_zeros by done.
    change (rev (map b58_digit (digits_le 58 (be_int [])))) with (@nil byte). by rewrite app_nil_r.
  - assert (d ≠ 0) as Hd by (intros ->; by apply Ht).
    destruct (decode_ones k d ds Hd Hds) as (res & Hres & Hi & Hh & Hp). rewrite Hres in Hs. invert_ok.
    rewrite encode_unfold, be_int_zeros, count_leading_replicate by done. f_equal.
    assert (digits_le 58 (be_int res) = rev (d :: ds)) as Hdg.
    { apply (undigits_inj 58); [lia|apply digits_le_range; lia|by apply Forall_rev| | |].
      - apply digits_le_canonical; lia.
      - unfold canonical. simpl. rewrite last_snoc. congruence.
      - rewrite undigits_digits_le by lia. exact Hi. }
    by rewrite Hdg, <- map_rev, rev_involutive.
Qed.

(** ** Base58Check *)

Section base58check_laws.
Context `{Hashes}.

Lemma decode_check_encode_check b : decode_check (encode_check b) = Ok b.
Proof.
  unfold decode_check, encode_check. rewrite decode_encode_ok. unfold mbind, result_bind.
  rewrite slice_to_neg_exact, slice_from_neg_exact by apply checksum_length. by rewrite bool_decide_eq_false_2 by congruence.
Qed.

Lemma encode_check_decode_check s b : decode_check s = Ok b → encode_check b = s.
Proof.
  unfold decode_check, encode_check. intros Hd. apply bind_ok in Hd as (data & Hd & Hc).
  case_bool_decide as E; [discriminate|]. injection Hc as <-.
  rewrite <- E, slice_split. by apply encode_decode_ok.
Qed.

Lemma decode_check_data s b :
  decode_check s = Ok b → decode s = Ok (b ++ take 4 (hash256 b)).
Proof.
  intros Hd. rewrite <- (encode_check_decode_check s b Hd). unfold encode_check.
  apply decode_encode_ok.
Qed.
End base58check_laws.

(** * Properties *)

(** Base 58 is a bijection: [decode] accepts a string, and returns [b],
    exactly when the string is [encode b], leading zeros included. *)
Theorem base58_bijection (s : pystr) (b : bytes) : decode s = Ok b ↔ s = encode b.
Proof.
  split.
  - intros H. symmetry. by apply encode_decode_ok.
  - intros ->. apply decode_encode_ok.
Qed.

(** [decode_check] accepts exactly the strings [encode_check] produces:
    no string with a wrong checksum, too short or outside the alphabet gets
    through, and the payload comes back. *)
Theorem base58check_exact `{Hashes} (s : pystr) (b : bytes) :
  decode_check s = Ok b ↔ s = encode_check b.
Proof.
  split.
  - intros H1. symmetry. by apply encode_check_decode_check.
  - intros ->. apply decode_check_encode_check.
Qed.

(** Converting a valid main-network extended key to the test network
    succeeds, gives a valid Base58Check string, and changes the four version
    bytes only. *)
Theorem xpub_main_2_test_version `{Hashes} (xpub : pystr) (version payload : bytes)
    (Hlen : length version = 4%nat) (Hx : decode_check xpub = Ok (version ++ payload)) :
  ∃ t, xpub_main_2_test xpub = Ok t ∧
       decode_check t = Ok ([chr 0x04; chr 0x35; chr 0x87; chr 0xCF] ++ payload).
Proof.
  unfold xpub_main_2_test. rewrite (decode_check_data _ _ Hx). unfold mbind, result_bind.
  rewrite <- (app_assoc version payload), (drop_app_exact version _ 4 Hlen).
  rewrite slice_to_neg_exact by apply checksum_length.
  eexists. split; [reflexivity|]. apply decode_check_encode_check.
Qed.

Lemma xpub_main_2_test_version_witness :
  let x := encode_check ([chr 4; chr 0x88; chr 0xB2; chr 0x1E] ++ replicate 74 (chr 7)) in
  ∃ t, xpub_main_2_test (H := executable_hashes) x = Ok t ∧
       decode_check t = Ok ([chr 0x04; chr 0x35; chr 0x87; chr 0xCF] ++ replicate 74 (chr 7)).
Proof.
  apply (xpub_main_2_test_version (H := executable_hashes) _ [chr 4; chr 0x88; chr 0xB2; chr 0x1E]).
  - reflexivity.
  - vm_compute. reflexivity.
Defined.
