(* ===== verification/Bech32.v ===== *)
(** * [hwilib/_bech32.py]: Bech32 and Bech32m segwit addresses

    The checksum is studied through its linear step [pm_step]: a checksum
    that was created verifies, and a single wrong character is detected.
    [convertbits] is specified by the bit strings it re-groups. *)

From S2P Require Import Prelude Bytes PyStd PyStr.

Definition CHARSET : pystr := $"qpzry9x8gf2tvdw0s3jn54khce6mua7l".
Definition BECH32_CONST : Z := 1.
Definition BECH32M_CONST : Z := 0x2bc830a3.

Inductive Encoding := BECH32 | BECH32M.

#[export] Instance encoding_eq_dec : EqDecision Encoding.
Proof. solve_decision. Defined.

(** ** The checksum *)

Definition generator : list Z := [0x3b6a57b2; 0x26508e6d; 0x1ea119fa; 0x3d4233dd; 0x2a1462b3].

Fixpoint pm_apply (top : Z) (i : Z) (gs : list Z) (chk : Z) : Z :=
  match gs with
  | [] => chk
  | g :: gs =>
      pm_apply top (i + 1) gs (Z.lxor chk (if Z.land (Z.shiftr top i) 1 =? 0 then 0 else g))
  end.

Definition pm_step (chk value : Z) : Z :=
  let top := Z.shiftr chk 25 in
  pm_apply top 0 generator (Z.lxor (Z.shiftl (Z.land chk 0x1ffffff) 5) value).

Definition bech32_polymod (values : list Z) : Z := foldl pm_step 1 values.

Definition bech32_hrp_expand (hrp : pystr) : list Z :=
  map (λ x, Z.shiftr (ord x) 5) hrp ++ [0] ++ map (λ x, Z.land (ord x) 31) hrp.

Definition bech32_verify_checksum (hrp : pystr) (data : list Z) : option Encoding :=
  let check := bech32_polymod (bech32_hrp_expand hrp ++ data) in
  if check =? BECH32_CONST then Some BECH32
  else if check =? BECH32M_CONST then Some BECH32M
  else None.

Definition bech32_create_checksum (encoding : Encoding) (hrp : pystr) (data : list Z) : list Z :=
  let values := bech32_hrp_expand hrp ++ data in
  let const := if decide (encoding = BECH32M) then BECH32M_CONST else BECH32_CONST in
  let polymod := Z.lxor (bech32_polymod (values ++ [0; 0; 0; 0; 0; 0])) const in
  map (λ i, Z.land (Z.shiftr polymod (5 * (5 - i))) 31) [0; 1; 2; 3; 4; 5].

(** [CHARSET[d]], with Python's negative indices. *)
Definition charset_at (d : Z) : result byte :=
  if 0 <=? d then nth_py CHARSET (Z.to_nat d)
  else if d <? - len CHARSET then Err IndexError
  else nth_py CHARSET (Z.to_nat (len CHARSET + d)).

Definition bech32_encode (encoding : Encoding) (hrp : pystr) (data : list Z) : result pystr :=
  let combined := data ++ bech32_create_checksum encoding hrp data in
  cs ← mapR charset_at combined;
  Ok (hrp ++ $"1" ++ cs).

Definition bech32_decode (bech : pystr) : option (Encoding * pystr * list Z) :=
  if existsb (λ x, (ord x <? 33) || (126 <? ord x)) bech
     || (bool_decide (lower bech ≠ bech) && bool_decide (upper_ascii bech ≠ bech))
  then None
  else
    let bech := lower bech in
    match rfind_char (chr 49) bech with
    | None => None
    | Some pos =>
        if (pos <? 1)%nat || (length bech <? pos + 7)%nat || (90 <? length bech)%nat then None
        else if negb (forallb (λ x, if find_char x CHARSET is Some _ then true else false)
                        (drop (pos + 1) bech)) then None
        else
          let hrp := take pos bech in
          let data := map (λ x, Z.of_nat (default O (find_char x CHARSET))) (drop (pos + 1) bech) in
          match bech32_verify_checksum hrp data with
          | None => None
          | Some encoding => Some (encoding, hrp, slice_to_neg 6 data)
          end
    end.

(** ** Regrouping bits *)

(** [while bits >= tobits]: the values emitted and the bits left.  [bits]
    rounds are enough, since [tobits] is positive. *)
Fixpoint cb_emit (fuel : nat) (acc bits tobits : Z) : list Z * Z :=
  match fuel with
  | O => ([], bits)
  | S fuel =>
      if tobits <=? bits then
        let bits := bits - tobits in
        let v := Z.land (Z.shiftr acc bits) (Z.shiftl 1 tobits - 1) in
        let '(ret, bits) := cb_emit fuel acc bits tobits in (v :: ret, bits)
      else ([], bits)
  end.

Fixpoint cb_loop (data : list Z) (frombits tobits acc bits : Z) : option (list Z * Z * Z) :=
  match data with
  | [] => Some ([], acc, bits)
  | value :: data =>
      if (value <? 0) || negb (Z.shiftr value frombits =? 0) then None
      else
        let max_acc := Z.shiftl 1 (frombits + tobits - 1) - 1 in
        let acc := Z.land (Z.lor (Z.shiftl acc frombits) value) max_acc in
        let bits := bits + frombits in
        let '(out, bits) := cb_emit (Z.to_nat bits) acc bits tobits in
        match cb_loop data frombits tobits acc bits with
        | None => None
        | Some (ret, acc, bits) => Some (out ++ ret, acc, bits)
        end
  end.

Definition convertbits (data : list Z) (frombits tobits : Z) (pad : bool) : option (list Z) :=
  let maxv := Z.shiftl 1 tobits - 1 in
  match cb_loop data frombits tobits 0 0 with
  | None => None
  | Some (ret, acc, bits) =>
      if pad then
        if bits =? 0 then Some ret
        else Some (ret ++ [Z.land (Z.shiftl acc (tobits - bits)) maxv])
      else if (frombits <=? bits) || negb (Z.land (Z.shiftl acc (tobits - bits)) maxv =? 0) then None
      else Some ret
  end.

(** ** Segwit addresses *)

Definition decode (hrp addr : pystr) : result (option (Z * list Z)) :=
  match bech32_decode addr with
  | None => Ok None
  | Some (encoding, hrpgot, data) =>
      if decide (hrpgot ≠ hrp) then Ok None
      else
        match convertbits (drop 1 data) 5 8 false with
        | None => Ok None
        | Some decoded =>
            if (len decoded <? 2) || (40 <? len decoded) then Ok None
            else
              d0 ← nth_py data 0;
              if 16 <? d0 then Ok None
              else if (d0 =? 0) && negb (len decoded =? 20) && negb (len decoded =? 32) then Ok None
              else if ((d0 =? 0) && bool_decide (encoding ≠ BECH32))
                      || (negb (d0 =? 0) && bool_decide (encoding ≠ BECH32M)) then Ok None
              else Ok (Some (d0, decoded))
        end
  end.

Definition encode (hrp : pystr) (witver : Z) (witprog : bytes) : result (option pystr) :=
  let encoding := if witver =? 0 then BECH32 else BECH32M in
  match convertbits (map ord witprog) 8 5 true with
  | None => Ok None
  | Some conv_bits =>
      ret ← bech32_encode encoding hrp (witver :: conv_bits);
      d ← decode hrp ret;
      Ok (if d is None then None else Some ret)
  end.

(** * The checksum is linear *)

(** The step without the new value. *)
Definition pm_shift (chk : Z) : Z := pm_step chk 0.

Definition pm_term (top i g : Z) : Z := if Z.land (Z.shiftr top i) 1 =? 0 then 0 else g.

Lemma land_1_testbit top i : 0 <= i → (Z.land (Z.shiftr top i) 1 =? 0) = negb (Z.testbit top i).
Proof.
  intros Hi. change 1 with (Z.ones 1). rewrite Z.land_ones by lia.
  rewrite Z.testbit_odd. change (2 ^ 1) with 2. rewrite Zmod_odd. by destruct (Z.odd _).
Qed.

Lemma pm_term_lxor a b i g :
  0 <= i → pm_term (Z.lxor a b) i g = Z.lxor (pm_term a i g) (pm_term b i g).
Proof.
  intros Hi. unfold pm_term. rewrite !land_1_testbit, Z.lxor_spec by done.
  destruct (Z.testbit a i), (Z.testbit b i); simpl;
    rewrite ?Z.lxor_nilpotent, ?Z.lxor_0_l, ?Z.lxor_0_r; done.
Qed.

Lemma pm_apply_terms top i gs chk :
  pm_apply top i gs chk = Z.lxor chk (pm_apply top i gs 0).
Proof.
  revert i chk. induction gs as [|g gs IH]; intros i chk; simpl; [by rewrite Z.lxor_0_r|].
  rewrite IH, (IH _ (Z.lxor 0 _)), Z.lxor_0_l. by rewrite Z.lxor_assoc.
Qed.

Lemma pm_apply_lxor a b i gs :
  0 <= i → pm_apply (Z.lxor a b) i gs 0 = Z.lxor (pm_apply a i gs 0) (pm_apply b i gs 0).
Proof.
  revert i. induction gs as [|g gs IH]; intros i Hi; [done|]. simpl.
  rewrite !Z.lxor_0_l. fold (pm_term (Z.lxor a b) i g) (pm_term a i g) (pm_term b i g).
  rewrite (pm_apply_terms _ _ _ (pm_term _ _ _)), (pm_apply_terms a _ _ (pm_term _ _ _)),
    (pm_apply_terms b _ _ (pm_term _ _ _)).
  rewrite pm_term_lxor, IH by lia. apply lxor_swap.
Qed.

Lemma pm_step_shift chk v : pm_step chk v = Z.lxor (pm_shift chk) v.
Proof.
  unfold pm_shift, pm_step. rewrite pm_apply_terms, (pm_apply_terms _ _ _ (Z.lxor _ 0)), Z.lxor_0_r.
  rewrite !Z.lxor_assoc. f_equal. apply Z.lxor_comm.
Qed.

Lemma pm_shift_lxor a b : pm_shift (Z.lxor a b) = Z.lxor (pm_shift a) (pm_shift b).
Proof.
  unfold pm_shift, pm_step. rewrite !Z.lxor_0_r, Z.shiftr_lxor.
  rewrite (pm_apply_terms _ _ _ (Z.shiftl _ _)), (pm_apply_terms (Z.shiftr a 25) _ _ (Z.shiftl _ _)),
    (pm_apply_terms (Z.shiftr b 25) _ _ (Z.shiftl _ _)), pm_apply_lxor by lia.
  rewrite (Z.land_comm (Z.lxor a b)), (Z.land_comm a), (Z.land_comm b).
  replace (Z.land 0x1ffffff (Z.lxor a b)) with (Z.lxor (Z.land 0x1ffffff a) (Z.land 0x1ffffff b)).
  - rewrite Z.shiftl_lxor. apply lxor_swap.
  - apply Z.bits_inj'. intros n _. rewrite !Z.lxor_spec, !Z.land_spec, Z.lxor_spec.
    by destruct (Z.testbit 0x1ffffff n), (Z.testbit a n), (Z.testbit b n).
Qed.

(** Below 2^25 the step is a plain shift. *)
Lemma pm_shift_small v : 0 <= v < 2 ^ 25 → pm_shift v = Z.shiftl v 5.
Proof.
  intros Hv. unfold pm_shift, pm_step. rewrite Z.lxor_0_r.
  change 0x1ffffff with (Z.ones 25). rewrite Z.land_ones, Z.mod_small by lia.
  rewrite Z.shiftr_div_pow2, Z.div_small by lia. simpl. by rewrite !Z.lxor_0_r.
Qed.

Definition fold_shift (n : nat) (c : Z) : Z := Nat.iter n pm_shift c.

Lemma fold_shift_lxor n a b : fold_shift n (Z.lxor a b) = Z.lxor (fold_shift n a) (fold_shift n b).
Proof. induction n as [|n IH]; simpl; [done|]. by rewrite IH, pm_shift_lxor. Qed.

Lemma fold_shift_succ n c : fold_shift n (pm_shift c) = pm_shift (fold_shift n c).
Proof. induction n as [|n IH]; simpl; [done|]. by rewrite IH. Qed.

(** Two words that differ in the difference of their polymods. *)
Lemma polymod_from_lxor c d vs :
  foldl pm_step (Z.lxor c d) vs = Z.lxor (foldl pm_step c vs) (fold_shift (length vs) d).
Proof.
  revert c d. induction vs as [|v vs IH]; intros c d; simpl; [done|].
  rewrite !pm_step_shift, pm_shift_lxor, <- fold_shift_succ.
  rewrite <- IH. f_equal. rewrite !Z.lxor_assoc. f_equal. apply Z.lxor_comm.
Qed.

(** ** A created checksum verifies *)

Definition sym (v : Z) : Prop := 0 <= v < 32.

Lemma pm_apply_bound top i gs chk :
  Forall (λ g, 0 <= g < 2 ^ 30) gs → 0 <= chk < 2 ^ 30 → 0 <= pm_apply top i gs chk < 2 ^ 30.
Proof.
  intros Hg. revert i chk. induction Hg as [|g gs Hg1 Hg IH]; intros i chk Hc; [done|].
  cbn [pm_apply]. apply IH, lxor_bound; [lia|done|]. case_match; lia.
Qed.

Lemma pm_step_bound chk v : sym v → 0 <= pm_step chk v < 2 ^ 30.
Proof.
  intros Hv. unfold pm_step. apply pm_apply_bound; [repeat constructor; lia|].
  apply lxor_bound; [lia| |unfold sym in Hv; lia].
  change 0x1ffffff with (Z.ones 25). rewrite Z.land_ones, Z.shiftl_mul_pow2 by lia.
  pose proof (Z.mod_pos_bound chk (2 ^ 25) ltac:(lia)). lia.
Qed.

Lemma polymod_bound c vs : Forall sym vs → 0 <= c < 2 ^ 30 → 0 <= foldl pm_step c vs < 2 ^ 30.
Proof.
  intros H. revert c. induction H as [|v vs Hv H IH]; intros c Hc; [done|].
  simpl. apply IH. by apply pm_step_bound.
Qed.

(** Reading the next symbol of [p] from its prefix. *)
Lemma pm_step_prefix p j :
  0 <= j → 0 <= Z.shiftr p (j + 5) < 2 ^ 25 →
  pm_step (Z.shiftr p (j + 5)) (Z.land (Z.shiftr p j) 31) = Z.shiftr p j.
Proof.
  intros Hj Hp. rewrite pm_step_shift, pm_shift_small by done.
  apply Z.bits_inj'. intros n Hn. rewrite Z.lxor_spec, Z.land_spec.
  rewrite Z.shiftl_spec by lia. rewrite (Z.shiftr_spec p j n) by lia.
  change 31 with (Z.ones 5). destruct (decide (n < 5)) as [H5|H5].
  - rewrite Z.testbit_neg_r by lia. rewrite Z.ones_spec_low by lia. by destruct (Z.testbit p _).
  - rewrite Z.shiftr_spec by lia. rewrite Z.ones_spec_high by lia. rewrite andb_false_r, xorb_false_r.
    f_equal. lia.
Qed.

Lemma polymod_digits p :
  0 <= p < 2 ^ 30 →
  foldl pm_step 0 (map (λ i, Z.land (Z.shiftr p (5 * (5 - i))) 31) [0; 1; 2; 3; 4; 5]) = p.
Proof.
  intros Hp. cbn [map foldl Z.sub Z.mul Z.add Z.opp].
  assert (∀ j, 5 <= j → 0 <= Z.shiftr p j < 2 ^ 25) as Hb.
  { intros j Hj. rewrite Z.shiftr_div_pow2 by lia. split; [apply Z.div_pos; lia|].
    apply Z.div_lt_upper_bound; [lia|]. rewrite <- Z.pow_add_r by lia.
    pose proof (Z.pow_le_mono_r 2 30 (j + 25) ltac:(lia) ltac:(lia)). lia. }
  assert (Z.shiftr p 30 = 0) as H30
    by (rewrite Z.shiftr_div_pow2 by lia; apply Z.div_small; lia).
  rewrite <- H30 at 1.
  assert (∀ k j, k = j + 5 → 0 <= j →
    pm_step (Z.shiftr p k) (Z.land (Z.shiftr p j) 31) = Z.shiftr p j) as E.
  { intros k j -> Hj. apply pm_step_prefix; [done|]. apply Hb. lia. }
  rewrite (E 30), (E (5 * (5 - 0))), (E (5 * (5 - 1))), (E (5 * (5 - 2))),
    (E (5 * (5 - 3))), (E (5 * (5 - 4))) by lia. apply Z.shiftr_0_r.
Qed.

Lemma hrp_expand_sym hrp : Forall sym (bech32_hrp_expand hrp).
Proof.
  unfold bech32_hrp_expand, sym. apply Forall_app. split; [|constructor; [lia|]];
    apply Forall_map, Forall_forall; intros x _; simpl; pose proof (ord_range x).
  - rewrite Z.shiftr_div_pow2 by lia. change (2 ^ 5) with 32.
    Z.to_euclidean_division_equations. lia.
  - change 31 with (Z.ones 5). rewrite Z.land_ones by lia. apply Z.mod_pos_bound. lia.
Qed.

Definition enc_const (e : Encoding) : Z :=
  if decide (e = BECH32M) then BECH32M_CONST else BECH32_CONST.

Lemma create_polymod e hrp data :
  Forall sym data →
  bech32_polymod (bech32_hrp_expand hrp ++ data ++ bech32_create_checksum e hrp data) = enc_const e.
Proof.
  intros Hd. unfold bech32_polymod, bech32_create_checksum. fold (enc_const e).
  rewrite app_assoc, foldl_app. set (c := foldl pm_step 1 (bech32_hrp_expand hrp ++ data)).
  assert (Forall sym (bech32_hrp_expand hrp ++ data)) as Hs
    by (apply Forall_app; split; [apply hrp_expand_sym|done]).
  assert (∀ vs, foldl pm_step c vs = Z.lxor (foldl pm_step 0 vs) (fold_shift (length vs) c)) as Hc.
  { intros vs. rewrite <- polymod_from_lxor. by rewrite Z.lxor_0_l. }
  unfold bech32_polymod. rewrite foldl_app. fold c. rewrite (Hc [0; 0; 0; 0; 0; 0]).
  change (foldl pm_step 0 [0; 0; 0; 0; 0; 0]) with 0. rewrite Z.lxor_0_l. cbn [length].
  rewrite Hc, length_map. cbn [length]. rewrite polymod_digits.
  - rewrite (Z.lxor_comm _ (enc_const e)), Z.lxor_assoc, Z.lxor_nilpotent. apply Z.lxor_0_r.
  - apply lxor_bound; [lia| |destruct e; done].
    assert (fold_shift 6 c = foldl pm_step c [0; 0; 0; 0; 0; 0]) as ->
      by (rewrite Hc; simpl; by rewrite Z.lxor_0_l).
    apply polymod_bound; [repeat constructor; lia|]. unfold c. apply polymod_bound; [done|lia].
Qed.

Lemma verify_create e hrp data :
  Forall sym data →
  bech32_verify_checksum hrp (data ++ bech32_create_checksum e hrp data) = Some e.
Proof.
  intros Hd. unfold bech32_verify_checksum. rewrite create_polymod by done. by destruct e.
Qed.

Lemma create_checksum_sym e hrp data : Forall sym (bech32_create_checksum e hrp data).
Proof.
  unfold bech32_create_checksum, sym. apply Forall_map, Forall_forall. intros i _.
  change 31 with (Z.ones 5). rewrite Z.land_ones by lia. apply Z.mod_pos_bound. lia.
Qed.

(** ** A single substituted symbol is detected

    The syndrome of a substitution [n] places before the end is
    [fold_shift n d]; it is neither zero nor the difference of the two
    checksum constants. *)

Definition syndrome_ok (n d : nat) : bool :=
  let e := fold_shift n (Z.of_nat d) in
  negb (e =? 0) && negb (e =? Z.lxor BECH32_CONST BECH32M_CONST).

Lemma syndromes_checked :
  forallb (λ n, forallb (syndrome_ok n) (seq 1 31)) (seq 0 90) = true.
Proof. vm_compute. reflexivity. Qed.

Lemma syndrome_checked n d : In n (seq 0 90) → In d (seq 1 31) → syndrome_ok n d = true.
Proof.
  intros Hn Hd.
  exact (proj1 (forallb_forall _ _) (proj1 (forallb_forall _ _) syndromes_checked n Hn) d Hd).
Qed.

Lemma syndrome n d :
  (n < 90)%nat → 1 <= d < 32 →
  fold_shift n d ≠ 0 ∧ fold_shift n d ≠ Z.lxor BECH32_CONST BECH32M_CONST.
Proof.
  intros Hn Hd. assert (syndrome_ok n (Z.to_nat d) = true) as H
    by (apply syndrome_checked; apply in_seq; lia).
  unfold syndrome_ok in H. rewrite Z2Nat.id in H by lia. cbv zeta in H. bools. done.
Qed.

Lemma verify_single_error hrp l1 v v' l2 :
  (length l2 < 90)%nat → sym v → sym v' → v ≠ v' →
  is_Some (bech32_verify_checksum hrp (l1 ++ v :: l2)) →
  bech32_verify_checksum hrp (l1 ++ v' :: l2) = None.
Proof.
  intros Hl Hv Hv' Hne Hok.
  assert (bech32_polymod (bech32_hrp_expand hrp ++ l1 ++ v' :: l2) =
    Z.lxor (bech32_polymod (bech32_hrp_expand hrp ++ l1 ++ v :: l2))
           (fold_shift (length l2) (Z.lxor v v'))) as E.
  { unfold bech32_polymod. rewrite !foldl_app. cbn [foldl]. rewrite <- polymod_from_lxor.
    f_equal. rewrite !pm_step_shift, Z.lxor_assoc. f_equal.
    by rewrite <- Z.lxor_assoc, Z.lxor_nilpotent, Z.lxor_0_l. }
  assert (1 <= Z.lxor v v' < 32) as Hd.
  { pose proof (lxor_bound 5 v v' ltac:(lia) Hv Hv').
    assert (Z.lxor v v' ≠ 0) by (intros H0; apply Z.lxor_eq in H0; done). lia. }
  destruct (syndrome (length l2) _ Hl Hd) as [S0 S1].
  unfold bech32_verify_checksum in *. rewrite E. clear E.
  revert S0 S1 Hok. generalize (fold_shift (length l2) (Z.lxor v v')) as s.
  generalize (bech32_polymod (bech32_hrp_expand hrp ++ l1 ++ v :: l2)) as q. intros q s S0 S1 Hok.
  assert (∀ a b, Z.lxor a s = b → s = Z.lxor a b) as Hx.
  { intros a b <-. by rewrite <- Z.lxor_assoc, Z.lxor_nilpotent, Z.lxor_0_l. }
  destruct (Z.eqb_spec q BECH32_CONST) as [->|]; [|destruct (Z.eqb_spec q BECH32M_CONST) as [->|]].
  - destruct (Z.eqb_spec (Z.lxor BECH32_CONST s) BECH32_CONST) as [H1|]; [|destruct (Z.eqb_spec (Z.lxor BECH32_CONST s) BECH32M_CONST) as [H1|]];
      [apply Hx in H1; done|apply Hx in H1; done|done].
  - destruct (Z.eqb_spec (Z.lxor BECH32M_CONST s) BECH32_CONST) as [H1|]; [|destruct (Z.eqb_spec (Z.lxor BECH32M_CONST s) BECH32M_CONST) as [H1|]];
      [apply Hx in H1; done|apply Hx in H1; done|done].
  - by destruct Hok.
Qed.

(** * [convertbits] as a regrouping of a bit string *)

(** The low [n] bits of [v], most significant first. *)
Fixpoint bits_of (n : nat) (v : Z) : list bool :=
  match n with O => [] | S n => Z.testbit v (Z.of_nat n) :: bits_of n v end.

Definition flat (w : Z) (vs : list Z) : list bool := concat (map (bits_of (Z.to_nat w)) vs).

Lemma bits_of_length n v : length (bits_of n v) = n.
Proof. induction n as [|n IH]; simpl; congruence. Qed.

Lemma bits_of_ext n v w :
  (∀ i, 0 <= i < Z.of_nat n → Z.testbit v i = Z.testbit w i) → bits_of n v = bits_of n w.
Proof.
  induction n as [|n IH]; intros H; simpl; [done|].
  f_equal; [apply H; lia|]. apply IH. intros i Hi. apply H. lia.
Qed.

Lemma bits_of_app a b v : bits_of (a + b) v = bits_of a (Z.shiftr v (Z.of_nat b)) ++ bits_of b v.
Proof.
  induction a as [|a IH]; simpl; [done|]. rewrite IH. f_equal.
  rewrite Z.shiftr_spec by lia. f_equal. lia.
Qed.

Lemma bits_of_inj_low n v w :
  bits_of n v = bits_of n w → ∀ i, 0 <= i < Z.of_nat n → Z.testbit v i = Z.testbit w i.
Proof.
  induction n as [|n IH]; intros H i Hi; [lia|]. simpl in H. injection H as H1 H2.
  destruct (decide (i = Z.of_nat n)) as [->|]; [done|]. apply IH; [done|lia].
Qed.

Lemma testbit_high v n i : 0 <= v < 2 ^ n → n <= i → Z.testbit v i = false.
Proof.
  intros Hv Hi. destruct (decide (v = 0)) as [->|]; [apply Z.testbit_0_l|].
  apply Z.bits_above_log2; [lia|]. assert (Z.log2 v < n) by (apply Z.log2_lt_pow2; lia). lia.
Qed.

Lemma bits_of_inj w v1 v2 :
  0 <= w → 0 <= v1 < 2 ^ w → 0 <= v2 < 2 ^ w →
  bits_of (Z.to_nat w) v1 = bits_of (Z.to_nat w) v2 → v1 = v2.
Proof.
  intros Hw H1 H2 E. apply Z.bits_inj'. intros i Hi.
  destruct (decide (i < w)).
  - apply (bits_of_inj_low _ _ _ E). lia.
  - rewrite !(testbit_high _ w) by lia. done.
Qed.

Lemma flat_cons w v vs : flat w (v :: vs) = bits_of (Z.to_nat w) v ++ flat w vs.
Proof. done. Qed.

Lemma flat_app w vs1 vs2 : flat w (vs1 ++ vs2) = flat w vs1 ++ flat w vs2.
Proof. unfold flat. by rewrite map_app, concat_app. Qed.

Lemma flat_length w vs : 0 <= w → len (flat w vs) = w * len vs.
Proof.
  intros Hw. induction vs as [|v vs IH]; [unfold len, flat; simpl; lia|].
  rewrite flat_cons, len_app, IH, len_cons. unfold len. rewrite bits_of_length. lia.
Qed.

Lemma flat_inj w vs1 vs2 rest1 rest2 :
  0 < w → Forall (λ v, 0 <= v < 2 ^ w) vs1 → Forall (λ v, 0 <= v < 2 ^ w) vs2 →
  length vs1 = length vs2 → flat w vs1 ++ rest1 = flat w vs2 ++ rest2 → vs1 = vs2 ∧ rest1 = rest2.
Proof.
  intros Hw H1. revert vs2. induction H1 as [|v1 vs1 Hv1 H1 IH]; intros [|v2 vs2] H2 Hl E;
    try discriminate; [done|].
  apply Forall_cons_1 in H2 as [Hv2 H2]. rewrite !flat_cons, <- !app_assoc in E.
  apply app_inj_1 in E as [Eb E]; [|by rewrite !bits_of_length].
  apply bits_of_inj in Eb as ->; [|lia|done|done].
  destruct (IH vs2 H2 ltac:(simpl in Hl; lia) E) as [-> ->]. done.
Qed.

Lemma shiftl_1_ones n : 0 <= n → Z.shiftl 1 n - 1 = Z.ones n.
Proof. intros. rewrite Z.ones_equiv, Z.shiftl_1_l. lia. Qed.

Lemma land_ones_range v n : 0 <= n → 0 <= Z.land v (Z.ones n) < 2 ^ n.
Proof. intros. rewrite Z.land_ones by done. apply Z.mod_pos_bound, Z.pow_pos_nonneg; lia. Qed.

(** The emitting loop moves whole groups from the pending bits to the output. *)
Lemma cb_emit_spec fuel acc bits tobits out bits' :
  0 < tobits → 0 <= bits <= Z.of_nat fuel → cb_emit fuel acc bits tobits = (out, bits') →
  bits_of (Z.to_nat bits) acc = flat tobits out ++ bits_of (Z.to_nat bits') acc ∧
  0 <= bits' < tobits ∧ Forall (λ v, 0 <= v < 2 ^ tobits) out.
Proof.
  intros Ht. revert bits out bits'. induction fuel as [|f IH]; intros bits out bits' Hb H.
  - injection H as <- <-. assert (bits = 0) as -> by lia. split; [done|]. split; [lia|constructor].
  - cbn [cb_emit] in H. destruct (Z.leb_spec tobits bits).
    + destruct (cb_emit f acc (bits - tobits) tobits) as [ret b'] eqn:E. injection H as <- <-.
      apply IH in E as (E & Hb' & Hr); [|lia]. split; [|split; [done|]].
      * replace (Z.to_nat bits) with (Z.to_nat tobits + Z.to_nat (bits - tobits))%nat by lia.
        rewrite bits_of_app, flat_cons, <- app_assoc, <- E. f_equal. apply bits_of_ext.
        intros i Hi. rewrite shiftl_1_ones, Z.land_spec, Z.ones_spec_low by lia.
        rewrite andb_true_r, Z2Nat.id by lia. done.
      * constructor; [|done]. rewrite shiftl_1_ones by lia. apply land_ones_range. lia.
    + injection H as <- <-. split; [done|]. split; [lia|constructor].
Qed.

Definition in_width (w : Z) (v : Z) : Prop := 0 <= v < 2 ^ w.

(** Appending a value to the accumulator appends its bits. *)
Lemma acc_bits acc value bits frombits tobits :
  0 < frombits → 0 <= bits < tobits → in_width frombits value →
  bits_of (Z.to_nat (bits + frombits))
    (Z.land (Z.lor (Z.shiftl acc frombits) value) (Z.shiftl 1 (frombits + tobits - 1) - 1)) =
  bits_of (Z.to_nat bits) acc ++ bits_of (Z.to_nat frombits) value.
Proof.
  intros Hf Hb Hv. replace (Z.to_nat (bits + frombits)) with (Z.to_nat bits + Z.to_nat frombits)%nat by lia.
  rewrite bits_of_app, Z2Nat.id, shiftl_1_ones by lia.
  f_equal; apply bits_of_ext; intros i Hi.
  - rewrite Z.shiftr_spec, Z.land_spec, Z.ones_spec_low, andb_true_r, Z.lor_spec by lia.
    rewrite Z.shiftl_spec by lia. rewrite (testbit_high value frombits) by (unfold in_width in Hv; lia).
    rewrite orb_false_r. f_equal. lia.
  - rewrite Z.land_spec, Z.ones_spec_low, andb_true_r, Z.lor_spec, Z.shiftl_spec_low by lia. done.
Qed.

Lemma in_width_guard w v : 0 <= w → in_width w v → (v <? 0) || negb (Z.shiftr v w =? 0) = false.
Proof.
  intros Hw [H0 H1]. rewrite Z.shiftr_div_pow2, Z.div_small by lia. simpl.
  rewrite orb_false_r. lia.
Qed.

Lemma cb_loop_spec data frombits tobits acc bits :
  0 < frombits → 0 < tobits → 0 <= bits < tobits → Forall (in_width frombits) data →
  ∃ ret acc' bits', cb_loop data frombits tobits acc bits = Some (ret, acc', bits') ∧
    bits_of (Z.to_nat bits) acc ++ flat frombits data = flat tobits ret ++ bits_of (Z.to_nat bits') acc' ∧
    0 <= bits' < tobits ∧ Forall (in_width tobits) ret.
Proof.
  intros Hf Ht Hb Hd. revert acc bits Hb. induction Hd as [|v data Hv Hd IH]; intros acc bits Hb.
  - exists [], acc, bits. split; [done|]. unfold flat. simpl. rewrite app_nil_r.
    split; [done|]. split; [done|constructor].
  - cbn [cb_loop]. rewrite in_width_guard by (done || lia). cbv zeta.
    destruct (cb_emit _ _ (bits + frombits) tobits) as [out b1] eqn:E.
    apply cb_emit_spec in E as (E & Hb1 & Ho); [|lia|lia].
    rewrite acc_bits in E by done.
    destruct (IH (Z.land (Z.lor (Z.shiftl acc frombits) v) (Z.shiftl 1 (frombits + tobits - 1) - 1)) b1 Hb1)
      as (ret & acc' & b' & -> & E' & Hb' & Hr).
    eexists _, _, _. split; [reflexivity|]. split; [|split; [done|]].
    + rewrite flat_cons, app_assoc, E, flat_app, <- !app_assoc. by rewrite E'.
    + by apply Forall_app.
Qed.

(** The last, padded group. *)
Lemma pad_bits acc bits tobits :
  0 <= bits < tobits →
  bits_of (Z.to_nat tobits) (Z.land (Z.shiftl acc (tobits - bits)) (Z.shiftl 1 tobits - 1)) =
  bits_of (Z.to_nat bits) acc ++ replicate (Z.to_nat (tobits - bits)) false.
Proof.
  intros Hb. rewrite shiftl_1_ones by lia.
  replace (Z.to_nat tobits) with (Z.to_nat bits + Z.to_nat (tobits - bits))%nat at 1 by lia.
  rewrite bits_of_app, Z2Nat.id by lia. f_equal.
  - apply bits_of_ext. intros i Hi.
    rewrite Z.shiftr_spec, Z.land_spec, Z.ones_spec_low, andb_true_r, Z.shiftl_spec by lia. f_equal. lia.
  - assert (∀ n, Z.of_nat n <= tobits - bits →
      bits_of n (Z.land (Z.shiftl acc (tobits - bits)) (Z.ones tobits)) = replicate n false) as H;
      [|apply H; lia].
    induction n as [|n IH]; intros Hn; simpl; [done|]. rewrite IH by lia. f_equal.
    by rewrite Z.land_spec, Z.shiftl_spec_low by lia.
Qed.

Lemma pad_value_zero acc bits tobits :
  0 <= bits < tobits →
  Z.land (Z.shiftl acc (tobits - bits)) (Z.shiftl 1 tobits - 1) = 0 ↔
  bits_of (Z.to_nat bits) acc = replicate (Z.to_nat bits) false.
Proof.
  intros Hb. pose proof (pad_bits acc bits tobits Hb) as E.
  assert (∀ n, bits_of n 0 = replicate n false) as H0.
  { induction n as [|n IH]; simpl; [done|]. by rewrite IH, Z.testbit_0_l. }
  split.
  - intros Hz. rewrite Hz, H0 in E.
    replace (Z.to_nat tobits) with (Z.to_nat bits + Z.to_nat (tobits - bits))%nat in E by lia.
    rewrite replicate_add in E. apply app_inj_1 in E as [E _]; [done|].
    by rewrite length_replicate, bits_of_length.
  - intros Hz. rewrite Hz, <- replicate_add in E.
    replace (Z.to_nat bits + Z.to_nat (tobits - bits))%nat with (Z.to_nat tobits) in E by lia.
    rewrite <- H0 in E. apply bits_of_inj in E; [done|lia| |lia].
    rewrite shiftl_1_ones by lia. apply land_ones_range. lia.
Qed.

Lemma convertbits_pad_spec data frombits tobits :
  0 < frombits → 0 < tobits → Forall (in_width frombits) data →
  ∃ ret k, convertbits data frombits tobits true = Some ret ∧
    flat tobits ret = flat frombits data ++ replicate k false ∧ Z.of_nat k < tobits ∧
    Forall (in_width tobits) ret.
Proof.
  intros Hf Ht Hd. unfold convertbits.
  destruct (cb_loop_spec data frombits tobits 0 0 Hf Ht ltac:(lia) Hd)
    as (ret & acc & bits & -> & E & Hb & Hr).
  simpl in E. destruct (Z.eqb_spec bits 0) as [->|Hb0].
  - exists ret, O. split; [done|]. simpl in *. rewrite E, !app_nil_r. split; [done|]. split; [lia|done].
  - eexists _, (Z.to_nat (tobits - bits)). split; [reflexivity|]. split; [|split; [lia|]].
    + rewrite flat_app, E, <- app_assoc. f_equal. unfold flat. simpl. rewrite app_nil_r. by apply pad_bits.
    + apply Forall_app. split; [done|]. constructor; [|constructor].
      unfold in_width. rewrite shiftl_1_ones by lia. apply land_ones_range. lia.
Qed.

Lemma convertbits_nopad_spec data frombits tobits ret :
  0 < frombits → 0 < tobits → Forall (in_width frombits) data →
  convertbits data frombits tobits false = Some ret ↔
  ∃ k, flat frombits data = flat tobits ret ++ replicate k false ∧
    Z.of_nat k < frombits ∧ Z.of_nat k < tobits ∧ Forall (in_width tobits) ret.
Proof.
  intros Hf Ht Hd. unfold convertbits.
  destruct (cb_loop_spec data frombits tobits 0 0 Hf Ht ltac:(lia) Hd)
    as (r & acc & bits & -> & E & Hb & Hr).
  simpl in E. pose proof (pad_value_zero acc bits tobits Hb) as Hz. split.
  - case_match eqn:G; [discriminate|]. intros [= ->]. bools. exists (Z.to_nat bits).
    rewrite E. rewrite (proj1 Hz) by done. split; [done|]. split; [lia|]. split; [lia|done].
  - intros (k & E' & Hk1 & Hk2 & Hr').
    rewrite E in E'. apply (f_equal len) in E' as El. rewrite !len_app, !flat_length in El by lia.
    unfold len in El. rewrite bits_of_length, length_replicate in El.
    assert (length r = length ret ∧ Z.to_nat bits = k) as [Hl <-].
    { destruct (Z.div_mod_unique tobits (Z.of_nat (length r)) (Z.of_nat (length ret)) bits (Z.of_nat k)); lia. }
    apply flat_inj in E' as [-> Eb]; [|lia|exact Hr|exact Hr'|exact Hl].
    rewrite (proj2 Hz) by done. rewrite (proj2 (Z.leb_gt frombits bits)) by lia. done.
Qed.

(** * Strings *)

#[local] Arguments find_char : simpl never.
#[local] Arguments charset_at : simpl never.

Definition symbols (cs : pystr) : list Z := map (λ x, Z.of_nat (default O (find_char x CHARSET))) cs.
Definition in_charset (x : byte) : bool := if find_char x CHARSET is Some _ then true else false.

Lemma charset_at_sym d :
  sym d → ∃ c, charset_at d = Ok c ∧ find_char c CHARSET = Some (Z.to_nat d).
Proof.
  intros Hd.
  assert (forallb (λ n, match charset_at (Z.of_nat n) with
    | Ok c => bool_decide (find_char c CHARSET = Some n) | Err _ => false end) (seq 0 32) = true) as F
    by (vm_compute; reflexivity).
  rewrite forallb_forall in F. specialize (F (Z.to_nat d)). rewrite Z2Nat.id in F by apply Hd.
  rewrite in_seq in F. unfold sym in Hd. specialize (F ltac:(lia)).
  destruct (charset_at d) as [c|]; [|discriminate]. bools. eauto.
Qed.

Lemma in_charset_facts c :
  in_charset c = true →
  c ≠ chr 49 ∧ lower_char c = c ∧ (∃ d, sym d ∧ find_char c CHARSET = Some (Z.to_nat d) ∧ charset_at d = Ok c).
Proof.
  assert (∀ c, (if find_char c CHARSET is Some i then
      negb (bool_decide (c = chr 49)) && bool_decide (lower_char c = c) && (i <? 32)%nat
      && bool_decide (charset_at (Z.of_nat i) = Ok c) else true) = true) as F
    by (apply forall_byte; vm_compute; reflexivity).
  unfold in_charset. specialize (F c). destruct (find_char c CHARSET) as [i|]; [|discriminate].
  bools. intros _. split; [done|]. split; [done|]. exists (Z.of_nat i).
  match goal with E : (i <? 32)%nat = true |- _ => apply Nat.ltb_lt in E end.
  rewrite Nat2Z.id. unfold sym. split; [lia|done].
Qed.

Lemma lower_char_sep c : lower_char c = chr 49 → c = chr 49.
Proof.
  assert (∀ c, bool_decide (lower_char c = chr 49 → c = chr 49) = true) as F
    by (apply forall_byte; vm_compute; reflexivity).
  specialize (F c). by apply bool_decide_eq_true in F.
Qed.

Lemma lower_app s1 s2 : lower (s1 ++ s2) = lower s1 ++ lower s2.
Proof. apply map_app. Qed.

Lemma length_lower s : length (lower s) = length s.
Proof. apply length_map. Qed.

Lemma lower_no_sep cs : chr 49 ∉ cs → chr 49 ∉ lower cs.
Proof.
  intros H. unfold lower. intros Hin%list_elem_of_fmap. destruct Hin as (x & E & Hx).
  symmetry in E. apply lower_char_sep in E. by subst.
Qed.

(** The test [bech32_decode] makes before it looks at the structure. *)
Definition bad_chars (bech : pystr) : bool :=
  existsb (λ x, (ord x <? 33) || (126 <? ord x)) bech
  || (bool_decide (lower bech ≠ bech) && bool_decide (upper_ascii bech ≠ bech)).

(** [bech32_decode] of a string whose last separator is known. *)
Lemma bech32_decode_sep hrp cs :
  chr 49 ∉ cs →
  bech32_decode (hrp ++ chr 49 :: cs) =
    if bad_chars (hrp ++ chr 49 :: cs) then None
    else if (length hrp <? 1)%nat || (length cs <? 6)%nat || (89 <? length hrp + length cs)%nat then None
    else if negb (forallb in_charset (lower cs)) then None
    else match bech32_verify_checksum (lower hrp) (symbols (lower cs)) with
         | None => None
         | Some e => Some (e, lower hrp, slice_to_neg 6 (symbols (lower cs)))
         end.
Proof.
  intros Hcs. unfold bech32_decode, bad_chars. case_match; [done|].
  rewrite lower_app. change (lower (chr 49 :: cs)) with (chr 49 :: lower cs).
  rewrite rfind_char_app by by apply lower_no_sep.
  rewrite length_app, length_lower. simpl length. rewrite length_lower.
  replace (length hrp + S (length cs) <? length hrp + 7)%nat with (length cs <? 6)%nat.
  2: { destruct (Nat.ltb_spec (length cs) 6), (Nat.ltb_spec (length hrp + S (length cs)) (length hrp + 7)); lia. }
  replace (90 <? length hrp + S (length cs))%nat with (89 <? length hrp + length cs)%nat.
  2: { destruct (Nat.ltb_spec 89 (length hrp + length cs)), (Nat.ltb_spec 90 (length hrp + S (length cs))); lia. }
  rewrite (take_app_exact (lower hrp)) by apply length_lower.
  replace (drop (length hrp + 1) (lower hrp ++ chr 49 :: lower cs)) with (lower cs).
  2: { rewrite <- (length_lower hrp), <- drop_drop, drop_app_length. done. }
  done.
Qed.

Lemma symbols_app a b : symbols (a ++ b) = symbols a ++ symbols b.
Proof. apply map_app. Qed.

Lemma symbols_sym cs : forallb in_charset cs = true → Forall sym (symbols cs).
Proof.
  intros H. unfold symbols. apply Forall_map, Forall_forall. intros x Hx.
  rewrite forallb_forall in H. specialize (H x). rewrite <- list_elem_of_In in H.
  destruct (in_charset_facts x (H Hx)) as (_ & _ & d & Hd & E & _). cbv beta. rewrite E.
  cbn [from_option id]. unfold sym in *. lia.
Qed.

(** Characters and symbols determine each other. *)
Lemma charset_symbols cs :
  forallb in_charset cs = true → mapR charset_at (symbols cs) = Ok cs.
Proof.
  induction cs as [|c cs IH]; intros H; [done|]. simpl in H. bools.
  destruct (in_charset_facts c) as (_ & _ & d & Hd & E & Ec); [done|].
  simpl. rewrite E. simpl. unfold sym in Hd. rewrite Z2Nat.id by lia. rewrite Ec. simpl.
  change (map _ cs) with (symbols cs). by rewrite IH.
Qed.

Lemma symbols_charset ds cs :
  Forall sym ds → mapR charset_at ds = Ok cs → symbols cs = ds ∧ forallb in_charset cs = true.
Proof.
  intros H. revert cs. induction H as [|d ds Hd H IH]; intros cs E; [by injection E as <-|].
  cbn [mapR] in E. apply bind_ok in E as (x & Ex & E). apply bind_ok in E as (l & El & E).
  injection E as <-. destruct (charset_at_sym d Hd) as (c & Ec & Ef).
  rewrite Ec in Ex. injection Ex as <-. destruct (IH l El) as [IHs IHc].
  simpl. unfold in_charset at 1. rewrite Ef, IHc. cbn [from_option id].
  unfold sym in Hd. rewrite Z2Nat.id by lia. split; [|done]. f_equal. exact IHs.
Qed.

Lemma charset_total ds : Forall sym ds → ∃ cs, mapR charset_at ds = Ok cs.
Proof.
  induction 1 as [|d ds Hd H [cs IH]]; [by exists []|].
  destruct (charset_at_sym d Hd) as (c & Ec & _). exists (c :: cs). simpl. rewrite Ec. simpl. by rewrite IH.
Qed.

Lemma charset_lower cs : forallb in_charset cs = true → lower cs = cs ∧ chr 49 ∉ cs.
Proof.
  induction cs as [|c cs IH]; intros H; [split; [done|set_solver]|]. simpl in H. bools.
  destruct (in_charset_facts c) as (H1 & H2 & _); [done|]. destruct IH as [IH1 IH2]; [done|].
  simpl. rewrite H2, IH1. split; [done|]. apply not_elem_of_cons. done.
Qed.

(** ** The six checksum symbols are determined by what precedes them *)

Lemma shiftl5_lxor a v : 0 <= a → sym v → Z.lxor (Z.shiftl a 5) v = 32 * a + v.
Proof.
  intros Ha Hv. rewrite <- Z.add_nocarry_lxor.
  - rewrite Z.shiftl_mul_pow2 by lia. lia.
  - apply Z.bits_inj'. intros n Hn. rewrite Z.land_spec, Z.testbit_0_l.
    destruct (decide (n < 5)).
    + rewrite Z.shiftl_spec_low by lia. done.
    + rewrite (testbit_high v 5) by (unfold sym in Hv; lia). apply andb_false_r.
Qed.

Lemma pm_step_small a v : 0 <= a < 2 ^ 25 → sym v → pm_step a v = 32 * a + v.
Proof. intros Ha Hv. rewrite pm_step_shift, pm_shift_small, shiftl5_lxor by (done || lia). done. Qed.

Lemma six_digits ck :
  length ck = 6%nat → Forall sym ck →
  map (λ i, Z.land (Z.shiftr (foldl pm_step 0 ck) (5 * (5 - i))) 31) [0; 1; 2; 3; 4; 5] = ck.
Proof.
  intros Hl H. destruct ck as [|a [|b [|c [|d [|e [|f [|]]]]]]]; try discriminate. clear Hl.
  repeat match goal with H : Forall _ (_ :: _) |- _ => apply Forall_cons_1 in H as [? H] end.
  cbn [foldl]. unfold sym in *.
  rewrite (pm_step_small 0 a), (pm_step_small _ b), (pm_step_small _ c), (pm_step_small _ d),
    (pm_step_small _ e), (pm_step_small _ f) by (unfold sym; lia).
  cbn [map]. change 31 with (Z.ones 5). rewrite !Z.land_ones, !Z.shiftr_div_pow2 by lia.
  change (2 ^ (5 * (5 - 0))) with 33554432. change (2 ^ (5 * (5 - 1))) with 1048576.
  change (2 ^ (5 * (5 - 2))) with 32768. change (2 ^ (5 * (5 - 3))) with 1024.
  change (2 ^ (5 * (5 - 4))) with 32. change (2 ^ (5 * (5 - 5))) with 1. change (2 ^ 5) with 32.
  repeat (f_equal; [Z.to_euclidean_division_equations; lia|]).
  f_equal. Z.to_euclidean_division_equations; lia.
Qed.

Lemma verify_determines e hrp data ck :
  Forall sym data → Forall sym ck → length ck = 6%nat →
  bech32_verify_checksum hrp (data ++ ck) = Some e → ck = bech32_create_checksum e hrp data.
Proof.
  intros Hd Hck Hl Hv.
  assert (bech32_polymod (bech32_hrp_expand hrp ++ data ++ ck) = enc_const e) as Hp.
  { unfold bech32_verify_checksum in Hv. repeat case_match; simplify_eq; bools; done. }
  unfold bech32_create_checksum. fold (enc_const e). rewrite <- (six_digits ck Hl Hck) at 1.
  do 2 f_equal. unfold bech32_polymod in *. rewrite app_assoc, foldl_app in Hp. rewrite foldl_app.
  set (c := foldl pm_step 1 (bech32_hrp_expand hrp ++ data)) in *.
  assert (∀ vs, foldl pm_step c vs = Z.lxor (foldl pm_step 0 vs) (fold_shift (length vs) c)) as Hc.
  { intros vs. rewrite <- polymod_from_lxor. by rewrite Z.lxor_0_l. }
  rewrite Hc, Hl in Hp. rewrite Hc. change (foldl pm_step 0 [0; 0; 0; 0; 0; 0]) with 0.
  rewrite Z.lxor_0_l. cbn [length]. rewrite <- Hp, (Z.lxor_comm (foldl _ _ _)).
  by rewrite <- Z.lxor_assoc, Z.lxor_nilpotent, Z.lxor_0_l.
Qed.

(** ** Encoding and decoding strings *)

Lemma last_split (c : byte) s : c ∈ s → ∃ s1 s2, s = s1 ++ c :: s2 ∧ c ∉ s2.
Proof.
  induction s as [|x s IH]; intros H; [by apply not_elem_of_nil in H|].
  destruct (decide (c ∈ s)) as [Hs|Hs].
  - destruct (IH Hs) as (s1 & s2 & -> & H2). by exists (x :: s1), s2.
  - apply elem_of_cons in H as [->|H]; [|done]. by exists [], s.
Qed.

Lemma bech32_encode_shape e hrp data :
  Forall sym data →
  ∃ cs, bech32_encode e hrp data = Ok (hrp ++ chr 49 :: cs) ∧
    symbols cs = data ++ bech32_create_checksum e hrp data ∧ forallb in_charset cs = true.
Proof.
  intros Hd. assert (Forall sym (data ++ bech32_create_checksum e hrp data)) as Hs
    by (apply Forall_app; split; [done|apply create_checksum_sym]).
  destruct (charset_total _ Hs) as [cs Hcs]. exists cs. unfold bech32_encode. rewrite Hcs.
  split; [done|]. by apply symbols_charset.
Qed.

Lemma bech32_decode_inv s e h d :
  bech32_decode s = Some (e, h, d) →
  ∃ hrp cs, s = hrp ++ chr 49 :: cs ∧ h = lower hrp ∧ forallb in_charset (lower cs) = true ∧
    Forall sym d ∧ symbols (lower cs) = d ++ bech32_create_checksum e h d.
Proof.
  intros H. destruct (decide (chr 49 ∈ s)) as [Hin|Hno].
  - destruct (last_split _ _ Hin) as (hrp & cs & -> & Hcs). exists hrp, cs.
    rewrite bech32_decode_sep in H by done.
    destruct (bad_chars _); [discriminate|].
    destruct (_ || _ || _) eqn:El; [discriminate|]. bools.
    destruct (forallb in_charset (lower cs)) eqn:Ec; [|discriminate]. simpl in H.
    destruct (bech32_verify_checksum _ _) as [e'|] eqn:Ev; [|discriminate]. injection H as -> <- <-.
    pose proof (symbols_sym _ Ec) as Hs. rewrite <- (slice_split 6 (symbols (lower cs))) in Ev, Hs.
    apply Forall_app in Hs as [Hs1 Hs2]. repeat split; try done.
    rewrite <- (slice_split 6 (symbols (lower cs))) at 1. f_equal.
    eapply verify_determines; [done|done| |done].
    unfold slice_from_neg. rewrite length_drop. unfold symbols. rewrite length_map, length_lower.
    match goal with E : (length cs <? 6)%nat = false |- _ => apply Nat.ltb_ge in E end. lia.
  - exfalso. unfold bech32_decode in H. case_match; [discriminate|].
    rewrite (proj2 (rfind_char_None _ _)) in H; [discriminate|]. by apply lower_no_sep.
Qed.

(** The structural conditions of [bech32_decode] on a lower-case string. *)
Definition hrp_ok (hrp : pystr) : Prop :=
  hrp ≠ [] ∧ Forall (λ x, 33 <= ord x <= 126 ∧ is_upper_ascii x = false) hrp.

Lemma lower_id s :
  Forall (λ x, 33 <= ord x <= 126 ∧ is_upper_ascii x = false) s → lower s = s.
Proof.
  induction 1 as [|x s [H1 H2] _ IH]; [done|]. simpl. rewrite IH. f_equal. unfold lower_char.
  rewrite H2. replace (192 <=? ord x) with false by lia. done.
Qed.

Lemma charset_ascii cs :
  forallb in_charset cs = true → Forall (λ x, 33 <= ord x <= 126 ∧ is_upper_ascii x = false) cs.
Proof.
  assert (∀ c, (if in_charset c then (33 <=? ord c) && (ord c <=? 126) && negb (is_upper_ascii c) else true) = true) as F
    by (apply forall_byte; vm_compute; reflexivity).
  intros H. apply Forall_forall. intros x Hx. rewrite forallb_forall in H.
  specialize (F x). rewrite H in F by (by apply list_elem_of_In). bools. done.
Qed.

Lemma lower_not_bad s :
  Forall (λ x, 33 <= ord x <= 126 ∧ is_upper_ascii x = false) s → bad_chars s = false.
Proof.
  intros H. unfold bad_chars. rewrite lower_id by done.
  rewrite (bool_decide_eq_false_2 (s ≠ s)) by (intros E; by apply E).
  rewrite andb_false_l, orb_false_r. induction H as [|x s [Hx _] _ IH]; [done|].
  cbn [existsb]. rewrite IH. lia.
Qed.

Lemma bech32_decode_encode e hrp data cs :
  hrp_ok hrp → Forall sym data → (length hrp + length data + 7 <= 90)%nat →
  forallb in_charset cs = true → symbols cs = data ++ bech32_create_checksum e hrp data →
  bech32_decode (hrp ++ chr 49 :: cs) = Some (e, hrp, data).
Proof.
  intros [Hne Hh] Hd Hl Hc Hs. destruct (charset_lower cs Hc) as [Hlow Hsep].
  rewrite bech32_decode_sep by done. rewrite lower_not_bad.
  2: { apply Forall_app. split; [done|]. constructor; [done|by apply charset_ascii]. }
  apply (f_equal length) in Hs as Hlen. unfold symbols in Hlen. rewrite length_map, length_app in Hlen.
  change (length (bech32_create_checksum e hrp data)) with 6%nat in Hlen.
  rewrite Hlow, (lower_id hrp), Hc, Hs, verify_create by done.
  rewrite (proj2 (Nat.ltb_ge _ _)) by (destruct hrp; simpl; [done|lia]).
  rewrite (proj2 (Nat.ltb_ge _ _)) by lia. rewrite (proj2 (Nat.ltb_ge _ _)) by lia.
  simpl. by rewrite slice_to_neg_exact.
Qed.

(** [convertbits] there and back. *)

Lemma bytes_width (b : bytes) : Forall (in_width 8) (map ord b).
Proof. apply Forall_map, Forall_forall. intros x _. apply ord_range. Qed.

Lemma sym_width vs : Forall sym vs ↔ Forall (in_width 5) vs.
Proof. done. Qed.

Lemma convertbits_back prog conv :
  Forall (in_width 8) prog → Forall (in_width 5) conv →
  convertbits prog 8 5 true = Some conv ↔ convertbits conv 5 8 false = Some prog.
Proof.
  intros Hp Hc. rewrite (convertbits_nopad_spec conv 5 8) by (lia || done).
  destruct (convertbits_pad_spec prog 8 5 ltac:(lia) ltac:(lia) Hp) as (ret & k & -> & E & Hk & Hr).
  split.
  - intros [= ->]. exists k. split; [done|]. split; [lia|]. split; [lia|done].
  - intros (k' & E' & Hk1 & Hk2 & _). f_equal.
    apply (f_equal len) in E as El. apply (f_equal len) in E' as El'.
    rewrite !len_app, !flat_length in El, El' by lia. unfold len in El, El'.
    rewrite length_replicate in El, El'.
    assert (length ret = length conv ∧ k = k') as [Hl ->] by lia.
    rewrite <- E in E'. rewrite <- (app_nil_r (flat 5 conv)), <- (app_nil_r (flat 5 ret)) in E'.
    by apply flat_inj in E' as [-> _].
Qed.

Lemma convertbits_total (b : bytes) :
  ∃ conv, convertbits (map ord b) 8 5 true = Some conv ∧ Forall sym conv.
Proof.
  destruct (convertbits_pad_spec (map ord b) 8 5 ltac:(lia) ltac:(lia) (bytes_width b))
    as (ret & k & H & _ & _ & Hr). eauto.
Qed.

Lemma map_ord_inj (b1 b2 : bytes) : map ord b1 = map ord b2 → b1 = b2.
Proof.
  revert b2. induction b1 as [|x b1 IH]; intros [|y b2] E; try discriminate; [done|].
  simpl in E. injection E as Ex E. f_equal; [by apply ord_inj|by apply IH].
Qed.

Lemma map_ord_chr vs : Forall (in_width 8) vs → map ord (map chr vs) = vs.
Proof.
  induction 1 as [|v vs Hv _ IH]; [done|]. simpl. rewrite IH. f_equal. by apply ord_chr_small.
Qed.

(** ** [decode] on its accepting branch *)

Lemma decode_Some hrp addr v p :
  decode hrp addr = Ok (Some (v, p)) ↔
  ∃ e d, bech32_decode addr = Some (e, hrp, v :: d) ∧ convertbits d 5 8 false = Some p ∧
    2 <= len p <= 40 ∧ v <= 16 ∧ (v = 0 → len p = 20 ∨ len p = 32) ∧
    e = (if v =? 0 then BECH32 else BECH32M).
Proof.
  unfold decode. split.
  - destruct (bech32_decode addr) as [[[e h] d]|]; [|done].
    case_decide as Hh; [done|]. subst h.
    destruct (convertbits (drop 1 d) 5 8 false) as [p'|] eqn:Ep; [|done].
    destruct ((len p' <? 2) || (40 <? len p')) eqn:El; [done|]. bools.
    destruct d as [|d0 d].
    { exfalso. vm_compute in Ep. injection Ep as <-. unfold len in *. simpl in *. lia. }
    cbn -[len Z.ltb Z.eqb]. repeat (case_match; [done|]). intros [= -> ->]. bools.
    exists e, d. split; [done|]. split; [exact Ep|]. split; [lia|]. split; [lia|]. split.
    + intros ->. simpl in *. bools.
      destruct (Z.eqb_spec (len p) 20), (Z.eqb_spec (len p) 32); auto; discriminate.
    + destruct (Z.eqb_spec v 0); simpl in *; bools; destruct e; try done; exfalso; naive_solver.
  - intros (e & d & -> & Hc & Hl & Hv & H0 & ->). rewrite decide_False by (intros E; by apply E).
    change (drop 1 (v :: d)) with d. rewrite Hc. rewrite (proj2 (Z.ltb_ge (len p) 2)), (proj2 (Z.ltb_ge 40 (len p))) by lia.
    cbn -[len Z.ltb Z.eqb]. rewrite (proj2 (Z.ltb_ge 16 v)) by lia.
    destruct (Z.eqb_spec v 0) as [E|E]; simpl; [|done].
    destruct (H0 E) as [->| ->]; done.
Qed.

Lemma encode_decode_some hrp v prog s :
  0 <= v → encode hrp v prog = Ok (Some s) →
  decode hrp s = Ok (Some (v, map ord prog)) ∧ lower s = s.
Proof.
  intros Hv He. unfold encode in He.
  destruct (convertbits_total prog) as (conv & Hc & Hs). rewrite Hc in He.
  apply bind_ok in He as (ret & Hret & He). apply bind_ok in He as (d & Hd & He).
  destruct d as [[v' p']|]; [|discriminate]. injection He as <-.
  assert (sym v) as Hsv.
  { split; [done|]. unfold bech32_encode in Hret. cbn [app mapR] in Hret.
    apply bind_ok in Hret as (cs & Hcs & _). apply bind_ok in Hcs as (c & Hcv & _).
    unfold charset_at, nth_py in Hcv. rewrite (proj2 (Z.leb_le 0 v)) in Hcv by done.
    destruct (CHARSET !! Z.to_nat v) eqn:El; [|discriminate].
    apply lookup_lt_Some in El. change (length CHARSET) with 32%nat in El. lia. }
  set (e := if v =? 0 then BECH32 else BECH32M) in *.
  destruct (bech32_encode_shape e hrp (v :: conv)) as (cs & Hcs & Hsym & Hin); [by constructor|].
  rewrite Hcs in Hret. injection Hret as <-. destruct (charset_lower cs Hin) as [Hlow Hsep].
  pose proof Hd as Hd'. apply decode_Some in Hd' as (e' & d' & Hb & Hcb & _).
  assert (hrp = lower hrp ∧ v :: conv = v' :: d') as [Hh [= -> ->]].
  { rewrite bech32_decode_sep in Hb by done. repeat (case_match; [discriminate|]).
    case_match; [|discriminate]. injection Hb as _ Hh Hdd. split; [done|].
    rewrite <- Hdd, Hlow, Hsym. by rewrite slice_to_neg_exact. }
  apply convertbits_back in Hc; [|apply bytes_width|done]. rewrite Hc in Hcb. injection Hcb as <-.
  split; [exact Hd|]. rewrite lower_app, <- Hh. f_equal. cbn [lower map]. f_equal. exact Hlow.
Qed.

Lemma decode_encode_some hrp v prog s :
  lower s = s → decode hrp s = Ok (Some (v, map ord prog)) → encode hrp v prog = Ok (Some s).
Proof.
  intros Hlow Hd. pose proof Hd as Hd'. apply decode_Some in Hd' as (e & d & Hb & Hc & _ & _ & _ & He).
  pose proof (bech32_decode_inv _ _ _ _ Hb) as (hrp' & cs & -> & -> & Hin & Hsym & Hsy).
  rewrite lower_app in Hlow. apply app_inj_1 in Hlow as [Hh Hcs]; [|apply length_lower].
  cbn [lower map] in Hcs. injection Hcs as Hcs. change (map lower_char cs) with (lower cs) in Hcs.
  rewrite Hh, Hcs in *. apply Forall_cons_1 in Hsym as [Hv Hsd].
  apply convertbits_back in Hc; [|apply bytes_width|done].
  unfold encode. rewrite Hc, <- He.
  unfold bech32_encode. rewrite <- Hsy, charset_symbols by done. unfold mbind, result_bind.
  change (hrp' ++ $"1" ++ cs) with (hrp' ++ chr 49 :: cs). by rewrite Hd.
Qed.

Lemma lower_char_ne_case c c' :
  lower_char c ≠ lower_char c' → in_charset (lower_char c) = true → in_charset (lower_char c') = true →
  find_char (lower_char c) CHARSET ≠ find_char (lower_char c') CHARSET.
Proof.
  intros Hne H1 H2 E. apply Hne.
  destruct (in_charset_facts _ H1) as (_ & _ & d & Hd & F & C).
  destruct (in_charset_facts _ H2) as (_ & _ & d' & Hd' & F' & C').
  rewrite F, F' in E. injection E as E. unfold sym in *. assert (d = d') as -> by lia. congruence.
Qed.

(** * Properties *)

(** [decode] never raises, whatever the two strings; what it accepts is a
    witness version from 0 to 16 with a program of 2 to 40 bytes, of 20 or 32
    bytes for version 0. *)
Theorem segwit_decode_valid (hrp addr : pystr) :
  match decode hrp addr with
  | Ok None => True
  | Ok (Some (v, p)) =>
      0 <= v <= 16 ∧ 2 <= len p <= 40 ∧ (v = 0 → len p = 20 ∨ len p = 32) ∧
      Forall (λ x, 0 <= x < 256) p
  | Err _ => False
  end.
Proof.
  destruct (decode hrp addr) as [[[v p]|]|e] eqn:E; [|done|].
  - apply decode_Some in E as (e & d & Hb & Hc & Hl & Hv & H0 & _).
    apply bech32_decode_inv in Hb as (h & cs & _ & _ & _ & Hs & _).
    apply Forall_cons_1 in Hs as [Hs0 Hs]. unfold sym in Hs0.
    apply convertbits_nopad_spec in Hc as (_ & _ & _ & _ & Hr); [|lia|lia|done].
    split; [lia|]. split; [done|]. split; [done|exact Hr].
  - unfold decode in E. destruct (bech32_decode addr) as [[[e' h] d]|]; [|done].
    case_decide; [done|]. destruct (convertbits (drop 1 d) 5 8 false) as [p'|] eqn:Ep; [|done].
    destruct ((len p' <? 2) || (40 <? len p')) eqn:El; [done|]. bools. destruct d as [|d0 d].
    + vm_compute in Ep. injection Ep as <-. unfold len in *. simpl in *. lia.
    + cbn -[len Z.ltb Z.eqb] in E. repeat (case_match; [done|]). done.
Qed.

(** C24: [encode] and [decode] agree: [encode] gives the lower-case address
    [s] exactly when [decode] reads witness version and program back from
    [s]; so no two addresses of one network share a program. *)
Theorem segwit_address_bijection (hrp : pystr) (v : Z) (prog : bytes) (s : pystr) (Hv : 0 <= v) :
  encode hrp v prog = Ok (Some s) ↔ decode hrp s = Ok (Some (v, map ord prog)) ∧ lower s = s.
Proof.
  split.
  - by apply encode_decode_some.
  - intros [H1 H2]. by apply decode_encode_some.
Qed.

(** The witness program and address of the BIP 173 test vector. *)
Definition bip173_prog : bytes :=
  Eval vm_compute in match unhexlify ($"751e76e8199196d454941c45d1b3a323f1433bd6") with Ok b => b | Err _ => [] end.

Lemma segwit_address_bijection_witness :
  decode ($"bc") ($"bc1qw508d6qejxtdg4y5r3zarvary0c5xw7kv8f3t4") = Ok (Some (0, map ord bip173_prog)) ∧
  lower ($"bc1qw508d6qejxtdg4y5r3zarvary0c5xw7kv8f3t4") = $"bc1qw508d6qejxtdg4y5r3zarvary0c5xw7kv8f3t4".
Proof.
  apply (segwit_address_bijection ($"bc") 0 bip173_prog); [lia|]. vm_compute. reflexivity.
Defined.

(** [encode] succeeds on every witness version and program the rules
    allow, for a lower-case human-readable part that leaves room. *)
Theorem segwit_encode_total (hrp : pystr) (v : Z) (prog : bytes)
    (Hh : hrp_ok hrp) (Hl : (length hrp <= 8)%nat)
    (Hv : 0 <= v <= 16) (Hp : 2 <= len prog <= 40) (H0 : v = 0 → len prog = 20 ∨ len prog = 32) :
  ∃ s, encode hrp v prog = Ok (Some s).
Proof.
  destruct (convertbits_pad_spec (map ord prog) 8 5 ltac:(lia) ltac:(lia) (bytes_width prog))
    as (conv & k & Hc & E & Hk & Hr).
  apply (f_equal len) in E. rewrite len_app, !flat_length in E by lia.
  unfold len in E. rewrite length_replicate, length_map in E.
  set (e := if v =? 0 then BECH32 else BECH32M).
  destruct (bech32_encode_shape e hrp (v :: conv)) as (cs & Hcs & Hsym & Hin);
    [constructor; [unfold sym; lia|done]|].
  exists (hrp ++ chr 49 :: cs). apply decode_encode_some.
  - rewrite lower_app, (lower_id hrp) by apply Hh. f_equal. cbn [lower map]. f_equal.
    by apply charset_lower.
  - apply decode_Some. exists e, conv. split; [|split; [by apply convertbits_back; [apply bytes_width| |]|]].
    + apply bech32_decode_encode; try done; [constructor; [unfold sym; lia|done]|].
      unfold len in *. simpl. lia.
    + unfold len in *. rewrite length_map. repeat split; try lia.
Qed.

Lemma segwit_encode_total_witness : ∃ s, encode ($"bcrt") 1 (replicate 32 (chr 7)) = Ok (Some s).
Proof.
  apply (segwit_encode_total ($"bcrt") 1 (replicate 32 (chr 7))).
  - split; [done|]. repeat constructor; done.
  - simpl. lia.
  - lia.
  - unfold len. simpl. lia.
  - lia.
Defined.

(** A wrong character is always noticed: changing one character of the
    data part of a valid Bech32 or Bech32m string, other than to its other
    case, gives a string that does not decode. *)
Theorem bech32_detects_substitution (hrp s1 s2 : pystr) (c c' : byte)
    (Hsep : chr 49 ∉ s1 ++ c :: s2) (Hsep' : c' ≠ chr 49) (Hne : lower_char c ≠ lower_char c')
    (Hok : is_Some (bech32_decode (hrp ++ chr 49 :: s1 ++ c :: s2))) :
  bech32_decode (hrp ++ chr 49 :: s1 ++ c' :: s2) = None.
Proof.
  destruct Hok as [[[e h] d] Hok]. apply not_elem_of_app in Hsep as [Hs1 Hs2].
  apply not_elem_of_cons in Hs2 as [Hc Hs2].
  assert (chr 49 ∉ s1 ++ c :: s2) as N1 by (rewrite elem_of_app, elem_of_cons; naive_solver).
  assert (chr 49 ∉ s1 ++ c' :: s2) as N2 by (rewrite elem_of_app, elem_of_cons; naive_solver).
  rewrite bech32_decode_sep in Hok by done. rewrite bech32_decode_sep by done.
  destruct (bad_chars (hrp ++ chr 49 :: s1 ++ c :: s2)); [discriminate|].
  destruct (bad_chars (hrp ++ chr 49 :: s1 ++ c' :: s2)); [done|].
  assert (length (s1 ++ c' :: s2) = length (s1 ++ c :: s2)) as -> by (by rewrite !length_app).
  destruct ((length hrp <? 1)%nat || (length (s1 ++ c :: s2) <? 6)%nat
    || (89 <? length hrp + length (s1 ++ c :: s2))%nat) eqn:El; [done|]. bools.
  destruct (negb (forallb in_charset (lower (s1 ++ c :: s2)))) eqn:Hin in Hok; [discriminate|].
  destruct (negb (forallb in_charset (lower (s1 ++ c' :: s2)))) eqn:Hin'; [done|]. bools.
  destruct (bech32_verify_checksum _ _) as [e1|] eqn:Ev in Hok; [|discriminate].
  rewrite lower_app in *. cbn [lower map] in *. rewrite forallb_app in Hin, Hin'.
  cbn [forallb] in Hin, Hin'. bools.
  rewrite symbols_app in *. cbn [symbols map] in *. erewrite verify_single_error; [done|..].
  - rewrite !length_map. rewrite length_app in *. simpl in *.
    match goal with E : (89 <? _)%nat = false |- _ => apply Nat.ltb_ge in E end. lia.
  - exact (proj1 (Forall_cons_1 _ _ _ (symbols_sym [lower_char c] ltac:(simpl; by rewrite andb_true_r)))).
  - exact (proj1 (Forall_cons_1 _ _ _ (symbols_sym [lower_char c'] ltac:(simpl; by rewrite andb_true_r)))).
  - intros Heq. pose proof (lower_char_ne_case c c' Hne ltac:(done) ltac:(done)) as Hf. apply Hf.
    destruct (in_charset_facts (lower_char c)) as (_ & _ & x & Hx & F & _); [done|].
    destruct (in_charset_facts (lower_char c')) as (_ & _ & x' & Hx' & F' & _); [done|].
    rewrite F, F' in *. simpl in Heq. f_equal. lia.
  - eexists. exact Ev.
Qed.

Lemma bech32_detects_substitution_witness :
  bech32_decode ($"bc" ++ chr 49 :: $"qw508d6qejxtdg4y" ++ chr 52 :: $"r3zarvary0c5xw7kv8f3t4") = None.
Proof.
  apply (bech32_detects_substitution ($"bc") ($"qw508d6qejxtdg4y") ($"r3zarvary0c5xw7kv8f3t4") (chr 53) (chr 52)).
  - apply (bool_decide_unpack _). vm_compute. exact I.
  - done.
  - done.
  - vm_compute. eauto.
Defined.
