(* ===== verification/Script.v ===== *)
(** * [hwilib/_script.py]: recognising output scripts *)

From S2P Require Import Prelude Bytes PyStd.

Definition is_opreturn (script : bytes) : result bool :=
  b0 ← nth_py script 0;
  Ok (ord b0 =? 0x6a).

(** [script[i] == v], for an index the length test has made valid. *)
Definition byte_is (script : bytes) (i : nat) (v : Z) : bool :=
  if script !! i is Some b then ord b =? v else false.

Definition is_p2sh (script : bytes) : bool :=
  (len script =? 23) && byte_is script 0 0xa9 && byte_is script 1 0x14 && byte_is script 22 0x87.

Definition is_p2pkh (script : bytes) : bool :=
  (len script =? 25) && byte_is script 0 0x76 && byte_is script 1 0xa9 && byte_is script 2 0x14
  && byte_is script 23 0x88 && byte_is script 24 0xac.

Definition is_p2pk (script : bytes) : bool :=
  ((len script =? 35) || (len script =? 67)) && (byte_is script 0 0x21 || byte_is script 0 0x41)
  && byte_is script (length script - 1) 0xac.

Definition is_witness (script : bytes) : bool * Z * bytes :=
  if (len script <? 4) || (42 <? len script) then (false, 0, [])
  else
    let s0 := ord (nth 0 script Byte.x00) in
    let s1 := ord (nth 1 script Byte.x00) in
    if negb (s0 =? 0) && ((s0 <? 81) || (96 <? s0)) then (false, 0, [])
    else if s1 + 2 =? len script then
      (true, if negb (s0 =? 0) then s0 - 0x50 else 0, drop 2 script)
    else (false, 0, []).

Definition is_p2wpkh (script : bytes) : bool :=
  let '(is_wit, wit_ver, wit_prog) := is_witness script in
  if negb is_wit then false
  else if negb (wit_ver =? 0) then false
  else len wit_prog =? 20.

Definition is_p2wsh (script : bytes) : bool :=
  let '(is_wit, wit_ver, wit_prog) := is_witness script in
  if negb is_wit then false
  else if negb (wit_ver =? 0) then false
  else len wit_prog =? 32.

Definition is_p2tr (script : bytes) : bool :=
  let '(is_wit, wit_ver, wit_prog) := is_witness script in
  if negb is_wit then false
  else if negb (wit_ver =? 1) then false
  else len wit_prog =? 32.

(** The [while True] of [parse_multisig], on the rest of the script from
    [offset] on: each key takes 34 bytes, so the script's length is fuel
    enough.  Running off the end is Python's [IndexError]. *)
Fixpoint multisig_keys (fuel : nat) (rest : bytes) : result (list bytes * bytes) :=
  match fuel with
  | O => Err OutOfFuel
  | S fuel =>
      pubkey_len ← nth_py rest 0;
      if negb (ord pubkey_len =? 33) then Ok ([], rest)
      else
        let rest := drop 1 rest in
        '(pubkeys, rest') ← multisig_keys fuel (drop 33 rest);
        Ok (take 33 rest :: pubkeys, rest')
  end.

Definition parse_multisig (script : bytes) : result (option (Z * list bytes)) :=
  s0 ← nth_py script 0;
  let m := ord s0 - 80 in
  if (m <? 1) || (15 <? m) then Ok None
  else
    '(pubkeys, rest) ← multisig_keys (S (length script)) (drop 1 script);
    r0 ← nth_py rest 0;
    let n := ord r0 - 80 in
    if negb (n =? len pubkeys) then Ok None
    else
      op_cms ← nth_py rest 1;
      if negb (ord op_cms =? 174) then Ok None
      else Ok (Some (m, pubkeys)).

(** * The scripts they recognise *)

Definition p2sh_script (h : bytes) : bytes := [chr 0xa9; chr 0x14] ++ h ++ [chr 0x87].
Definition p2pkh_script (h : bytes) : bytes :=
  [chr 0x76; chr 0xa9; chr 0x14] ++ h ++ [chr 0x88; chr 0xac].

(** Version opcode ([OP_0] or [OP_1] to [OP_16]) and one push. *)
Definition witness_script (v : Z) (prog : bytes) : bytes :=
  [chr (if v =? 0 then 0 else v + 0x50); chr (len prog)] ++ prog.

(** [m <key> ... <key> n OP_CHECKMULTISIG], and whatever follows. *)
Definition multisig_script (m : Z) (keys : list bytes) (rest : bytes) : bytes :=
  [chr (80 + m)] ++ concat (map (λ k, chr 33 :: k) keys) ++ [chr (80 + len keys); chr 174] ++ rest.

(** * Lemmas *)

Lemma list_ends {A} (l : list A) i x : l !! i = Some x → S i = length l → l = take i l ++ [x].
Proof. intros Hi Hl. rewrite <- (take_drop_middle l i x Hi) at 1. by rewrite drop_ge by lia. Qed.

Lemma byte_is_Some script i v : byte_is script i v = true → 0 <= v < 256 → script !! i = Some (chr v).
Proof.
  unfold byte_is. destruct (script !! i) as [b|]; [|discriminate].
  intros E%Z.eqb_eq Hv. f_equal. by rewrite <- E, chr_ord.
Qed.

Lemma len_cons_inv {A} (l : list A) n : 0 < n → len l = n → ∃ x l', l = x :: l' ∧ len l' = n - 1.
Proof. intros Hn Hl. destruct l as [|x l']; unfold len in *; simpl in *; [lia|]. exists x, l'. split; [done|]. lia. Qed.

Lemma split_end {A} (l : list A) n :
  len l = n → 0 < n → ∃ l' x, l = l' ++ [x] ∧ len l' = n - 1.
Proof.
  intros Hl Hn. destruct (exists_last (l := l)) as (l' & x & ->).
  - intros ->. unfold len in Hl. simpl in Hl. lia.
  - exists l', x. split; [done|]. rewrite len_app in Hl. unfold len in *. simpl in *. lia.
Qed.

Lemma is_p2sh_iff script : is_p2sh script = true ↔ ∃ h, len h = 20 ∧ script = p2sh_script h.
Proof.
  split.
  - unfold is_p2sh. intros H. bools.
    destruct (len_cons_inv script 23) as (x & l1 & -> & K1); [lia|done|].
    destruct (len_cons_inv l1 22) as (y & l2 & -> & K2); [lia|done|].
    destruct (split_end l2 21) as (h & z & -> & K3); [done|lia|].
    repeat match goal with E : byte_is _ _ _ = true |- _ => apply byte_is_Some in E; [|lia] end.
    simpl in *. simplify_eq.
    match goal with E : (h ++ [z]) !! 20%nat = Some _ |- _ =>
      rewrite lookup_app_r in E by (unfold len in *; lia);
      replace (20 - length h)%nat with 0%nat in E by (unfold len in *; lia) end.
    simpl in *. simplify_eq. exists h. split; [lia|done].
  - intros (h & Hh & ->). unfold is_p2sh, p2sh_script, byte_is. rewrite !len_app, Hh. simpl.
    rewrite lookup_app_r by (unfold len in *; lia).
    replace (20 - length h)%nat with 0%nat by (unfold len in *; lia). done.
Qed.

Lemma is_p2pkh_iff script : is_p2pkh script = true ↔ ∃ h, len h = 20 ∧ script = p2pkh_script h.
Proof.
  split.
  - unfold is_p2pkh. intros H. bools.
    destruct (len_cons_inv script 25) as (x & l1 & -> & K1); [lia|done|].
    destruct (len_cons_inv l1 24) as (y & l2 & -> & K2); [lia|done|].
    destruct (len_cons_inv l2 23) as (z & l3 & -> & K3); [lia|done|].
    destruct (split_end l3 22) as (l4 & u & -> & K4); [done|lia|].
    destruct (split_end l4 21) as (h & w & -> & K5); [done|lia|].
    rewrite <- app_assoc in *.
    repeat match goal with E : byte_is _ _ _ = true |- _ => apply byte_is_Some in E; [|lia] end.
    simpl in *. simplify_eq.
    repeat match goal with E : (h ++ _) !! _ = Some _ |- _ =>
      rewrite lookup_app_r in E by (unfold len in *; lia) end.
    replace (20 - length h)%nat with 0%nat in * by (unfold len in *; lia).
    replace (21 - length h)%nat with 1%nat in * by (unfold len in *; lia).
    simpl in *. simplify_eq. exists h. split; [lia|done].
  - intros (h & Hh & ->). unfold is_p2pkh, p2pkh_script, byte_is. rewrite !len_app, Hh. simpl.
    rewrite !lookup_app_r by (unfold len in *; lia).
    replace (20 - length h)%nat with 0%nat by (unfold len in *; lia).
    replace (21 - length h)%nat with 1%nat by (unfold len in *; lia). done.
Qed.

Lemma is_witness_iff script v p :
  is_witness script = (true, v, p) ↔ 0 <= v <= 16 ∧ 2 <= len p <= 40 ∧ script = witness_script v p.
Proof.
  split.
  - unfold is_witness. case_match eqn:El; [done|]. bools.
    destruct script as [|a [|b p']]; [unfold len in *; simpl in *; lia..|]. cbn [nth].
    case_match eqn:Ev; [done|]. destruct (Z.eqb_spec (ord b + 2) (len (a :: b :: p'))) as [Eb|]; [|done].
    intros [= <- <-]. rewrite drop_0. rewrite !len_cons in *.
    pose proof (ord_range a). unfold witness_script.
    assert (chr (len p') = b) as -> by (rewrite <- (chr_ord b); f_equal; lia).
    destruct (Z.eqb_spec (ord a) 0) as [E0|E0]; simpl.
    + split; [lia|]. split; [lia|]. f_equal. by rewrite <- (chr_ord a), E0.
    + simpl in Ev. bools. rewrite (proj2 (Z.eqb_neq _ 0)) by lia. split; [lia|]. split; [lia|].
      f_equal. replace (ord a - 80 + 80) with (ord a) by lia. by rewrite chr_ord.
  - intros (Hv & Hp & ->). unfold is_witness, witness_script.
    rewrite len_app. replace (len [chr (if v =? 0 then 0 else v + 80); chr (len p)]) with 2 by done.
    rewrite (proj2 (Z.ltb_ge _ 4)), (proj2 (Z.ltb_ge 42 _)) by lia. cbn [orb app nth drop].
    rewrite !ord_chr_small by (destruct (v =? 0); lia).
    replace (len p + 2) with (2 + len p) by lia. rewrite Z.eqb_refl, drop_0.
    destruct (Z.eqb_spec v 0) as [->|]; [done|].
    rewrite (proj2 (Z.eqb_neq _ 0)) by lia. rewrite (proj2 (Z.ltb_ge _ 81)), (proj2 (Z.ltb_ge 96 _)) by lia.
    simpl. repeat f_equal. lia.
Qed.

Lemma multisig_keys_ok fuel rest keys rest' :
  multisig_keys fuel rest = Ok (keys, rest') → (∃ b, rest' !! 0%nat = Some b ∧ ord b ≠ 33) →
  rest = concat (map (λ k, chr 33 :: k) keys) ++ rest' ∧ Forall (λ k, len k = 33) keys.
Proof.
  revert rest keys. induction fuel as [|f IH]; intros rest keys H Hr; [discriminate|].
  cbn [multisig_keys] in H. apply bind_ok in H as (b & Hb & H).
  destruct rest as [|b' rest]; [discriminate|]. injection Hb as ->.
  destruct (Z.eqb_spec (ord b) 33) as [E|E]; simpl in H.
  - rewrite drop_0 in H. apply bind_ok in H as ([ks r'] & Hk & H). injection H as <- <-.
    destruct (IH _ _ Hk Hr) as [Er Hf]. assert (33 <= length rest)%nat as Hl.
    { destruct (decide (33 <= length rest)%nat); [done|]. exfalso.
      rewrite drop_ge in Hk by lia. destruct f; [discriminate|]. simpl in Hk. discriminate. }
    split.
    + cbn [map concat]. rewrite <- app_assoc, <- Er. cbn [app]. f_equal.
      * by rewrite <- (chr_ord b), E.
      * symmetry. apply take_drop.
    + constructor; [|done]. unfold len. rewrite length_take. lia.
  - injection H as <- <-. split; [done|constructor].
Qed.

Lemma multisig_keys_run fuel keys rest b :
  (length keys < fuel)%nat → Forall (λ k, len k = 33) keys → rest !! 0%nat = Some b → ord b ≠ 33 →
  multisig_keys fuel (concat (map (λ k, chr 33 :: k) keys) ++ rest) = Ok (keys, rest).
Proof.
  intros Hf Hk Hb Hne. revert fuel Hf. induction Hk as [|k keys Hk1 Hk IH]; intros fuel Hf;
    (destruct fuel as [|fuel]; [simpl in Hf; lia|]); cbn [multisig_keys].
  - simpl. unfold nth_py. rewrite Hb. simpl. by rewrite (proj2 (Z.eqb_neq _ _) Hne).
  - cbn [map concat]. rewrite <- app_assoc. cbn [app nth_py lookup list_lookup of_option].
    unfold nth_py. simpl. rewrite drop_0.
    rewrite take_app_exact, drop_app_exact by (unfold len in Hk1; lia).
    rewrite IH by (simpl in Hf; lia). done.
Qed.

Lemma multisig_keys_err fuel rest e :
  (length rest < fuel)%nat → multisig_keys fuel rest = Err e → e = IndexError.
Proof.
  revert rest. induction fuel as [|f IH]; intros rest Hf H; [lia|].
  cbn [multisig_keys] in H. destruct rest as [|b rest]; [by injection H as <-|].
  simpl in H. case_match; [done|]. rewrite drop_0 in H.
  destruct (multisig_keys f (drop 33 rest)) as [[]|e'] eqn:E; simpl in H; [done|].
  injection H as <-. apply IH in E; [done|]. rewrite length_drop. simpl in Hf. lia.
Qed.

(** * Properties *)

(** The recognisers accept exactly the standard output scripts: P2SH and
    P2PKH around a 20-byte hash, and a segwit output of version 0 to 16 with a
    program of 2 to 40 bytes, which is returned. *)
Theorem output_scripts_exact (script : bytes) (v : Z) (prog : bytes) :
  (is_p2sh script = true ↔ ∃ h, len h = 20 ∧ script = p2sh_script h) ∧
  (is_p2pkh script = true ↔ ∃ h, len h = 20 ∧ script = p2pkh_script h) ∧
  (is_witness script = (true, v, prog) ↔
     0 <= v <= 16 ∧ 2 <= len prog <= 40 ∧ script = witness_script v prog).
Proof.
  split; [apply is_p2sh_iff|]. split; [apply is_p2pkh_iff|apply is_witness_iff].
Qed.

(** [parse_multisig] returns a threshold and keys exactly on the scripts
    that start with that multisig, whatever follows [OP_CHECKMULTISIG], and
    the only exception it can raise is the [IndexError] of a short script.
    The number of keys may exceed fifteen. *)
Theorem parse_multisig_exact (script : bytes) (m : Z) (keys : list bytes) :
  (parse_multisig script = Ok (Some (m, keys)) ↔
     1 <= m <= 15 ∧ len keys <= 175 ∧ Forall (λ k, len k = 33) keys ∧
     ∃ rest, script = multisig_script m keys rest) ∧
  (∀ e, parse_multisig script = Err e → e = IndexError).
Proof.
  split; [split|].
  - unfold parse_multisig. intros H. apply bind_ok in H as (s0 & H0 & H).
    destruct script as [|s0' script]; [discriminate|]. injection H0 as ->.
    case_match eqn:Em; [discriminate|]. bools. apply bind_ok in H as ([ks r] & Hk & H).
    apply bind_ok in H as (r0 & Hr0 & H). destruct (Z.eqb_spec (ord r0 - 80) (len ks)) as [En|]; [|discriminate].
    simpl in H. apply bind_ok in H as (op & Hop & H).
    destruct (Z.eqb_spec (ord op) 174) as [Eo|]; [|discriminate]. injection H as <- <-.
    change (drop 1 (s0 :: script)) with (drop 0 script) in Hk. rewrite drop_0 in Hk.
    unfold nth_py, of_option in Hr0, Hop. destruct r as [|r0' [|op' rest]]; [discriminate..|].
    injection Hr0 as ->. injection Hop as ->. pose proof (ord_range r0). pose proof (len_nonneg ks).
    apply multisig_keys_ok in Hk as [-> Hf]; [|exists r0; split; [done|lia]].
    split; [lia|]. split; [lia|]. split; [done|]. exists rest. unfold multisig_script.
    rewrite <- En, <- Eo. cbn [app].
    replace (80 + (ord s0 - 80)) with (ord s0) by lia.
    replace (80 + (ord r0 - 80)) with (ord r0) by lia. by rewrite !chr_ord.
  - intros (Hm & Hl & Hk & rest & ->). unfold parse_multisig, multisig_script.
    cbn [app]. set (x := chr (80 + m)).
    set (tail := concat (map (λ k, chr 33 :: k) keys) ++ chr (80 + len keys) :: chr 174 :: rest).
    change (nth_py (x :: tail) 0) with (Ok x). change (drop 1 (x :: tail)) with tail.
    unfold mbind, result_bind. subst x. pose proof (len_nonneg keys). rewrite ord_chr_small by lia.
    replace (80 + m - 80) with m by lia. rewrite (proj2 (Z.ltb_ge m 1)), (proj2 (Z.ltb_ge 15 m)) by lia.
    cbn [orb]. unfold tail at 2. erewrite multisig_keys_run; [| |done|done|rewrite ord_chr_small by lia; lia].
    + unfold nth_py. simpl. rewrite ord_chr_small by lia.
      replace (80 + len keys - 80) with (len keys) by lia. by rewrite Z.eqb_refl.
    + unfold tail. simpl. rewrite length_app. clear. induction keys; simpl in *; [lia|]. rewrite length_app. lia.
  - intros e. unfold parse_multisig. destruct script as [|s0 script]; [by intros [= <-]|].
    change (nth_py (s0 :: script) 0) with (Ok s0). change (drop 1 (s0 :: script)) with script.
    unfold mbind, result_bind. case_match; [done|].
    destruct (multisig_keys (S (length (s0 :: script))) script) as [[ks r]|e'] eqn:E.
    + simpl. destruct r as [|r0 r]; [by intros [= <-]|]. simpl. case_match; [done|].
      destruct r as [|op r]; [by intros [= <-]|]. simpl. by case_match.
    + intros [= ->]. eapply multisig_keys_err; [|exact E]. simpl. lia.
Qed.

(** The bound on [m] is the only one: a 1-of-16 script is taken too, and so is a 2-of-1 one. *)
Lemma parse_multisig_unbounded :
  let key := replicate 33 (chr 2) in
  parse_multisig (chr 81 :: concat (replicate 16 (chr 33 :: key)) ++ [chr 96; chr 174]) = Ok (Some (1, replicate 16 key)) ∧
  parse_multisig (chr 82 :: (chr 33 :: key) ++ [chr 81; chr 174]) = Ok (Some (2, [key])).
Proof. split; vm_compute; reflexivity. Qed.
