(* ===== verification/Tx.v ===== *)
(** * [hwilib/tx.py]: transactions

    The classes are records; a method that changes [self] returns the new
    value.  Every part is a [Codec], from outpoints up to whole transactions
    with and without witness data. *)

From S2P Require Import Prelude Bytes PyStd PyStr Common Sha256 Serialize Script.

(** ** The parts *)

Record COutPoint := { op_hash : Z; op_n : Z }.

(** [COutPoint()]. *)
Definition COutPoint_new : COutPoint := {| op_hash := 0; op_n := 0xffffffff |}.

Definition COutPoint_deserialize : reader COutPoint :=
  hash ← deser_uint256;
  n ← read_u 4;
  mret {| op_hash := hash; op_n := n |}.

Definition COutPoint_serialize (o : COutPoint) : result bytes :=
  r ← ser_uint256 (op_hash o);
  b ← pack_u 4 (op_n o);
  Ok (r ++ b).

Record CTxIn := { prevout : COutPoint; scriptSig : bytes; nSequence : Z }.

Definition CTxIn_deserialize : reader CTxIn :=
  o ← COutPoint_deserialize;
  s ← deser_string;
  n ← read_u 4;
  mret {| prevout := o; scriptSig := s; nSequence := n |}.

Definition CTxIn_serialize (i : CTxIn) : result bytes :=
  r ← COutPoint_serialize (prevout i);
  s ← ser_string (scriptSig i);
  n ← pack_u 4 (nSequence i);
  Ok (r ++ s ++ n).

Record CTxOut := { nValue : Z; scriptPubKey : bytes }.

Definition CTxOut_deserialize : reader CTxOut :=
  v ← read_s 8;
  s ← deser_string;
  mret {| nValue := v; scriptPubKey := s |}.

Definition CTxOut_serialize (o : CTxOut) : result bytes :=
  v ← pack_s 8 (nValue o);
  s ← ser_string (scriptPubKey o);
  Ok (v ++ s).

(** The script tests of [CTxOut]. *)
Definition CTxOut_is_opreturn (o : CTxOut) : result bool := is_opreturn (scriptPubKey o).
Definition CTxOut_is_p2sh (o : CTxOut) : bool := is_p2sh (scriptPubKey o).
Definition CTxOut_is_p2wsh (o : CTxOut) : bool := is_p2wsh (scriptPubKey o).
Definition CTxOut_is_p2pkh (o : CTxOut) : bool := is_p2pkh (scriptPubKey o).
Definition CTxOut_is_p2pk (o : CTxOut) : bool := is_p2pk (scriptPubKey o).
Definition CTxOut_is_witness (o : CTxOut) : bool * Z * bytes := is_witness (scriptPubKey o).

(** A [CScriptWitness], and the [CTxInWitness] around it: the stack. *)
Record CTxInWitness := { stack : list bytes }.
Definition CTxInWitness_new : CTxInWitness := {| stack := [] |}.

Definition CScriptWitness_is_null (w : CTxInWitness) : bool :=
  match stack w with [] => true | _ => false end.
Definition CTxInWitness_is_null (w : CTxInWitness) : bool := CScriptWitness_is_null w.

Definition CTxInWitness_deserialize : reader CTxInWitness :=
  s ← deser_string_vector;
  mret {| stack := s |}.

Definition CTxInWitness_serialize (w : CTxInWitness) : result bytes := ser_string_vector (stack w).

(** ** Transactions *)

(** [CTxWitness] is its list [vtxinwit]. *)
Definition CTxWitness_is_null (wit : list CTxInWitness) : bool := forallb CTxInWitness_is_null wit.

(** Each of the [n] entries is read in turn. *)
Definition CTxWitness_deserialize (n : nat) : reader (list CTxInWitness) :=
  replicateR n CTxInWitness_deserialize.

Definition CTxWitness_serialize (wit : list CTxInWitness) : result bytes :=
  bs ← mapR CTxInWitness_serialize wit;
  Ok (concat bs).

Record CTransaction := {
  nVersion : Z;
  vin : list CTxIn;
  vout : list CTxOut;
  wit : list CTxInWitness;
  nLockTime : Z;
  tx_sha256 : option Z;
  tx_hash : option bytes;
}.

(** [CTransaction()]. *)
Definition CTransaction_new : CTransaction :=
  {| nVersion := 1; vin := []; vout := []; wit := []; nLockTime := 0;
     tx_sha256 := None; tx_hash := None |}.

Definition tx_deserialize (self : CTransaction) : reader CTransaction :=
  version ← read_s 4;
  vin0 ← deser_vector CTxIn_deserialize;
  '(flags, vin1, vout1) ←
    match vin0 with
    | [] =>
        flags ← read_u 1;
        if negb (flags =? 0) then
          vin1 ← deser_vector CTxIn_deserialize;
          vout1 ← deser_vector CTxOut_deserialize;
          mret (flags, vin1, vout1)
        else mret (flags, vin0, vout self)
    | _ =>
        vout1 ← deser_vector CTxOut_deserialize;
        mret (0, vin0, vout1)
    end;
  wit1 ← (if negb (flags =? 0) then CTxWitness_deserialize (length vin1) else mret (wit self));
  locktime ← read_u 4;
  mret {| nVersion := version; vin := vin1; vout := vout1; wit := wit1; nLockTime := locktime;
          tx_sha256 := None; tx_hash := None |}.

Definition tx_deserialize_without_witness : reader CTransaction :=
  version ← read_s 4;
  vin1 ← deser_vector CTxIn_deserialize;
  vout1 ← deser_vector CTxOut_deserialize;
  locktime ← read_u 4;
  mret {| nVersion := version; vin := vin1; vout := vout1; wit := []; nLockTime := locktime;
          tx_sha256 := None; tx_hash := None |}.

Definition serialize_without_witness (tx : CTransaction) : result bytes :=
  v ← pack_s 4 (nVersion tx);
  i ← ser_vector CTxIn_serialize (vin tx);
  o ← ser_vector CTxOut_serialize (vout tx);
  l ← pack_u 4 (nLockTime tx);
  Ok (v ++ i ++ o ++ l).

(** [vtxinwit] cut or filled up to the length of [vin]. *)
Definition fit_witness (tx : CTransaction) : list CTxInWitness :=
  let w := take (length (vin tx)) (wit tx) in
  w ++ replicate (length (vin tx) - length w) CTxInWitness_new.

Definition set_wit (w : list CTxInWitness) (tx : CTransaction) : CTransaction :=
  {| nVersion := nVersion tx; vin := vin tx; vout := vout tx; wit := w;
     nLockTime := nLockTime tx; tx_sha256 := tx_sha256 tx; tx_hash := tx_hash tx |}.

(** The bytes, and [self] with the witness list it was given. *)
Definition serialize_with_witness (tx : CTransaction) : result (bytes * CTransaction) :=
  let flags := if negb (CTxWitness_is_null (wit tx)) then 1 else 0 in
  v ← pack_s 4 (nVersion tx);
  m ← (if negb (flags =? 0) then
         e ← ser_vector CTxIn_serialize [];
         f ← pack_u 1 flags;
         Ok (e ++ f)
       else Ok []);
  i ← ser_vector CTxIn_serialize (vin tx);
  o ← ser_vector CTxOut_serialize (vout tx);
  let tx' :=
    if negb (Z.land flags 1 =? 0) && negb (length (wit tx) =? length (vin tx))%nat
    then set_wit (fit_witness tx) tx else tx in
  w ← (if negb (Z.land flags 1 =? 0) then CTxWitness_serialize (wit tx') else Ok []);
  l ← pack_u 4 (nLockTime tx);
  Ok (v ++ m ++ i ++ o ++ w ++ l, tx').

Definition tx_serialize (tx : CTransaction) : result bytes := serialize_without_witness tx.

Definition tx_is_null (tx : CTransaction) : bool :=
  (length (vin tx) =? 0)%nat && (length (vout tx) =? 0)%nat.

Section txid.
Context `{Hashes}.

Definition set_ids (sha : option Z) (h : option bytes) (tx : CTransaction) : CTransaction :=
  {| nVersion := nVersion tx; vin := vin tx; vout := vout tx; wit := wit tx;
     nLockTime := nLockTime tx; tx_sha256 := sha; tx_hash := h |}.

(** [calc_sha256(with_witness)]: what it returns, and the new [self]. *)
Definition calc_sha256 (with_witness : bool) (tx : CTransaction) : result (option Z * CTransaction) :=
  if with_witness then
    '(b, tx') ← serialize_with_witness tx;
    u ← uint256_from_str (hash256 b);
    Ok (Some u, tx')
  else
    sha ← match tx_sha256 tx with
          | Some u => Ok u
          | None => b ← serialize_without_witness tx; uint256_from_str (hash256 b)
          end;
    b ← tx_serialize tx;
    Ok (None, set_ids (Some sha) (Some (hash256 b)) tx).

Definition rehash (tx : CTransaction) : result CTransaction :=
  '(_, tx') ← calc_sha256 false (set_ids None (tx_hash tx) tx);
  Ok tx'.
End txid.

#[export] Instance outpoint_eq_dec : EqDecision COutPoint.
Proof. solve_decision. Defined.
#[export] Instance txin_eq_dec : EqDecision CTxIn.
Proof. solve_decision. Defined.
#[export] Instance txout_eq_dec : EqDecision CTxOut.
Proof. solve_decision. Defined.
#[export] Instance inwit_eq_dec : EqDecision CTxInWitness.
Proof. solve_decision. Defined.
#[export] Instance tx_eq_dec : EqDecision CTransaction.
Proof. solve_decision. Defined.

(** * Codecs *)

Definition outpoint_wf (o : COutPoint) : Prop := fits 32 (op_hash o) ∧ fits 4 (op_n o).
Definition txin_wf (i : CTxIn) : Prop :=
  outpoint_wf (prevout i) ∧ small (scriptSig i) ∧ fits 4 (nSequence i).
Definition txout_wf (o : CTxOut) : Prop := in_s 8 (nValue o) = true ∧ small (scriptPubKey o).
Definition inwit_wf (w : CTxInWitness) : Prop := small (stack w) ∧ Forall small (stack w).

Definition tx_wf (tx : CTransaction) : Prop :=
  in_s 4 (nVersion tx) = true ∧ (small (vin tx) ∧ Forall txin_wf (vin tx)) ∧
  (small (vout tx) ∧ Forall txout_wf (vout tx)) ∧ Forall inwit_wf (wit tx) ∧ fits 4 (nLockTime tx).

#[export] Instance outpoint_wf_dec o : Decision (outpoint_wf o).
Proof. unfold outpoint_wf. apply _. Defined.
#[export] Instance txin_wf_dec i : Decision (txin_wf i).
Proof. unfold txin_wf. apply _. Defined.
#[export] Instance txout_wf_dec o : Decision (txout_wf o).
Proof. unfold txout_wf. apply _. Defined.
#[export] Instance inwit_wf_dec w : Decision (inwit_wf w).
Proof. unfold inwit_wf. apply _. Defined.
#[export] Instance tx_wf_dec tx : Decision (tx_wf tx).
Proof. unfold tx_wf. apply _. Defined.

Lemma pack_s_in n z : in_s n z = true → pack_s n z = Ok (le_bytes n z).
Proof. unfold pack_s. by intros ->. Qed.

(** The interface's two laws, as a rewriting rule and a reading rule. *)
Lemma codec_run {A} {ser : A → result bytes} {deser wf} `{!Codec ser deser wf} a :
  wf a → ∃ b, ser a = Ok b ∧ reads deser b a.
Proof. intros Ha. destruct (codec_total a Ha) as [b Hb]. exists b. split; [done|]. by apply codec_reads. Qed.

(** One field after another. *)
Ltac codec_field a H :=
  let b := fresh "b" in let Hb := fresh "Hb" in let Hr := fresh "Hr" in
  destruct (codec_run a H) as (b & Hb & Hr).

(** Read the fields in the order they were written, then return. *)
Ltac codec_seq :=
  repeat first
    [ eapply reads_bind_end; [eassumption|apply reads_ret]
    | eapply reads_bind; [eassumption|] ].

#[export] Instance u32_codec : Codec (pack_u 4) (read_u 4) (fits 4).
Proof.
  split.
  - intros z Hz. rewrite pack_u_fits by done. eauto.
  - intros z b _ Hb. by apply reads_read_u.
Qed.

#[export] Instance s64_codec : Codec (pack_s 8) (read_s 8) (λ z, in_s 8 z = true).
Proof.
  split.
  - intros z Hz. rewrite pack_s_in by done. eauto.
  - intros z b _ Hb. apply reads_read_s; [lia|done|done].
Qed.

#[export] Instance s32_codec : Codec (pack_s 4) (read_s 4) (λ z, in_s 4 z = true).
Proof.
  split.
  - intros z Hz. rewrite pack_s_in by done. eauto.
  - intros z b _ Hb. apply reads_read_s; [lia|done|done].
Qed.

#[export] Instance outpoint_codec : Codec COutPoint_serialize COutPoint_deserialize outpoint_wf.
Proof.
  apply codec_intro. intros [h n] [Hh Hn]. simpl in *.
  codec_field h Hh. codec_field n Hn. eexists. unfold COutPoint_serialize. simpl.
  rewrite Hb, Hb0. split; [done|]. unfold COutPoint_deserialize. codec_seq.
Qed.

#[export] Instance txin_codec : Codec CTxIn_serialize CTxIn_deserialize txin_wf.
Proof.
  apply codec_intro. intros [o s n] (Ho & Hs & Hn). simpl in *.
  codec_field o Ho. codec_field s Hs. codec_field n Hn. eexists. unfold CTxIn_serialize. simpl.
  rewrite Hb, Hb0, Hb1. split; [done|]. unfold CTxIn_deserialize. codec_seq.
Qed.

#[export] Instance txout_codec : Codec CTxOut_serialize CTxOut_deserialize txout_wf.
Proof.
  apply codec_intro. intros [v s] (Hv & Hs). simpl in *.
  codec_field v Hv. codec_field s Hs. eexists. unfold CTxOut_serialize. simpl.
  rewrite Hb, Hb0. split; [done|]. unfold CTxOut_deserialize. codec_seq.
Qed.

#[export] Instance inwit_codec : Codec CTxInWitness_serialize CTxInWitness_deserialize inwit_wf.
Proof.
  apply codec_intro. intros [s] Hs.
  destruct (codec_run (Codec0 := vector_codec ser_string deser_string small) s Hs) as (b & Hb & Hr).
  exists b. split; [exact Hb|]. unfold CTxInWitness_deserialize. codec_seq.
Qed.

(** The witnesses of a transaction: as many as it has inputs, no count. *)
Lemma reads_witness ws :
  Forall inwit_wf ws →
  ∃ b, CTxWitness_serialize ws = Ok b ∧ reads (CTxWitness_deserialize (length ws)) b ws.
Proof.
  intros H. unfold CTxWitness_serialize, CTxWitness_deserialize.
  assert (∃ bs, mapR CTxInWitness_serialize ws = Ok bs ∧
    Forall2 (λ x b, reads CTxInWitness_deserialize b x) ws bs) as (bs & Hbs & Hr).
  { induction H as [|w ws Hw H (bs & IH & IHr)]; [by exists []|].
    codec_field w Hw. exists (b :: bs). simpl. rewrite Hb. simpl. rewrite IH. split; [done|]. by constructor. }
  rewrite Hbs. eexists. split; [reflexivity|]. by apply reads_replicate.
Qed.

Lemma fit_witness_length tx : length (fit_witness tx) = length (vin tx).
Proof. unfold fit_witness. rewrite length_app, length_replicate, length_take. lia. Qed.

Lemma fit_witness_wf tx : Forall inwit_wf (wit tx) → Forall inwit_wf (fit_witness tx).
Proof.
  intros H. unfold fit_witness. apply Forall_app. split; [by apply Forall_take|].
  apply Forall_replicate. split; [by vm_compute|constructor].
Qed.

Lemma fit_witness_id tx : length (wit tx) = length (vin tx) → fit_witness tx = wit tx.
Proof.
  intros H. unfold fit_witness. rewrite take_ge by lia. rewrite H, Nat.sub_diag. simpl. apply app_nil_r.
Qed.

(** Parsing forgets the cached ids. *)
Definition fresh_tx (tx : CTransaction) (w : list CTxInWitness) : CTransaction :=
  {| nVersion := nVersion tx; vin := vin tx; vout := vout tx; wit := w; nLockTime := nLockTime tx;
     tx_sha256 := None; tx_hash := None |}.

Lemma reads_empty_vector {D} (c : reader D) : reads (deser_vector c) [chr 0] [].
Proof.
  unfold deser_vector. apply (reads_bind_end _ _ _ 0).
  - apply reads_compact_size. vm_compute. reflexivity.
  - apply reads_ret.
Qed.

Section tx_bytes.
Context (tx : CTransaction) (Hwf : tx_wf tx).

Lemma serialize_without_witness_reads :
  ∃ b, serialize_without_witness tx = Ok b ∧ reads tx_deserialize_without_witness b (fresh_tx tx []).
Proof using Hwf.
  destruct Hwf as (Hv & Hi & Ho & _ & Hl). unfold serialize_without_witness, tx_deserialize_without_witness.
  destruct (codec_run (Codec0 := s32_codec) _ Hv) as (bv & Ev & Rv).
  destruct (codec_run (Codec0 := vector_codec _ _ _) _ Hi) as (bi & Ei & Ri).
  destruct (codec_run (Codec0 := vector_codec _ _ _) _ Ho) as (bo & Eo & Ro).
  destruct (codec_run (Codec0 := u32_codec) _ Hl) as (bl & El & Rl).
  rewrite Ev, Ei, Eo, El. eexists. split; [reflexivity|]. codec_seq.
Qed.

(** Without witness data both serializations agree. *)
Lemma serialize_with_null_witness b :
  CTxWitness_is_null (wit tx) = true → serialize_without_witness tx = Ok b →
  serialize_with_witness tx = Ok (b, tx).
Proof using.
  intros Hw Hb. unfold serialize_with_witness, serialize_without_witness in *. rewrite Hw. simpl.
  apply bind_ok in Hb as (v & -> & Hb). apply bind_ok in Hb as (i & -> & Hb).
  apply bind_ok in Hb as (o & -> & Hb). apply bind_ok in Hb as (l & -> & Hb).
  simpl. injection Hb as <-. done.
Qed.

Lemma deserialize_without_flags b self :
  vin tx ≠ [] → serialize_without_witness tx = Ok b → wit self = [] →
  reads (tx_deserialize self) b (fresh_tx tx []).
Proof using Hwf.
  intros Hne Hb Hself. destruct Hwf as (Hv & Hi & Ho & _ & Hl).
  unfold serialize_without_witness in Hb.
  destruct (codec_run (Codec0 := s32_codec) _ Hv) as (bv & Ev & Rv).
  destruct (codec_run (Codec0 := vector_codec _ _ _) _ Hi) as (bi & Ei & Ri).
  destruct (codec_run (Codec0 := vector_codec _ _ _) _ Ho) as (bo & Eo & Ro).
  destruct (codec_run (Codec0 := u32_codec) _ Hl) as (bl & El & Rl).
  rewrite Ev, Ei, Eo, El in Hb. injection Hb as <-. unfold tx_deserialize.
  eapply reads_bind; [exact Rv|]. eapply reads_bind; [exact Ri|].
  destruct (vin tx) as [|i0 ins] eqn:Evin; [done|].
  eapply (reads_bind _ _ _ _ (0, i0 :: ins, vout tx)); [codec_seq|]. simpl.
  eapply reads_bind_nil; [apply reads_ret|]. rewrite Hself. rewrite <- Evin. codec_seq.
Qed.

Lemma serialize_with_witness_reads :
  CTxWitness_is_null (wit tx) = false →
  ∃ b tx', serialize_with_witness tx = Ok (b, tx') ∧ wit tx' = fit_witness tx ∧
    ∀ self, reads (tx_deserialize self) b (fresh_tx tx (fit_witness tx)).
Proof using Hwf.
  intros Hw. destruct Hwf as (Hv & Hi & Ho & Hwit & Hl). unfold serialize_with_witness.
  destruct (codec_run (Codec0 := s32_codec) _ Hv) as (bv & Ev & Rv).
  destruct (codec_run (Codec0 := vector_codec _ _ _) _ Hi) as (bi & Ei & Ri).
  destruct (codec_run (Codec0 := vector_codec _ _ _) _ Ho) as (bo & Eo & Ro).
  destruct (codec_run (Codec0 := u32_codec) _ Hl) as (bl & El & Rl).
  destruct (reads_witness (fit_witness tx)) as (bw & Ew & Rw); [by apply fit_witness_wf|].
  set (tx' := if negb (length (wit tx) =? length (vin tx))%nat then set_wit (fit_witness tx) tx else tx).
  assert (wit tx' = fit_witness tx) as Hfit.
  { unfold tx'. destruct (Nat.eqb_spec (length (wit tx)) (length (vin tx))); [|done].
    simpl. by rewrite fit_witness_id. }
  exists (bv ++ [chr 0; chr 1] ++ bi ++ bo ++ bw ++ bl), tx'. split; [|split; [done|]].
  - rewrite Ev, Hw, Ei, Eo, El. simpl. fold tx'. rewrite Hfit, Ew. done.
  - intros self. unfold tx_deserialize. eapply reads_bind; [exact Rv|].
    change ([chr 0; chr 1] ++ bi ++ bo ++ bw ++ bl) with ([chr 0] ++ [chr 1] ++ bi ++ bo ++ bw ++ bl).
    eapply (reads_bind _ _ _ _ []).
    { apply reads_empty_vector. }
    replace ([chr 1] ++ bi ++ bo ++ bw ++ bl) with (([chr 1] ++ bi ++ bo) ++ bw ++ bl)
      by (by rewrite <- !app_assoc).
    eapply (reads_bind _ _ _ _ (1, vin tx, vout tx)).
    { eapply (reads_bind _ _ _ _ 1); [apply reads_read_u; [done|vm_compute; reflexivity]|].
      cbn [negb Z.eqb]. codec_seq. }
    simpl. rewrite fit_witness_length in Rw. codec_seq.
Qed.
End tx_bytes.

Lemma rehash_bytes `{Hashes} tx b : serialize_without_witness tx = Ok b →
  rehash tx = Ok (set_ids (Some (le_int (hash256 b))) (Some (hash256 b)) tx).
Proof.
  intros Et. unfold rehash, calc_sha256, tx_serialize.
  change (serialize_without_witness (set_ids None (tx_hash tx) tx)) with (serialize_without_witness tx).
  rewrite Et. cbn [tx_sha256 set_ids]. unfold mbind, result_bind.
  rewrite uint256_from_str_le by (rewrite hash256_length; lia).
  rewrite take_ge by (rewrite hash256_length; lia). done.
Qed.

(** * Properties *)

(** C22: a transaction is read back exactly as it was written: without witness
    data by [deserialize_without_witness], and with [serialize_with_witness]
    by [deserialize], for every transaction that has an input; the witness
    list comes back cut or filled to the number of inputs, the stream is left
    just behind, and the cached ids are forgotten. *)
Theorem tx_roundtrip (tx self : CTransaction) (rest : bytes)
    (Hwf : tx_wf tx) (Hin : vin tx ≠ []) (Hself : wit self = []) :
  ∃ b b' tx',
    serialize_without_witness tx = Ok b ∧
    tx_deserialize_without_witness (b ++ rest) = (Ok (fresh_tx tx []), rest) ∧
    serialize_with_witness tx = Ok (b', tx') ∧
    tx_deserialize self (b' ++ rest) =
      (Ok (fresh_tx tx (if CTxWitness_is_null (wit tx) then [] else fit_witness tx)), rest).
Proof.
  destruct (serialize_without_witness_reads tx Hwf) as (b & Hb & Hr).
  destruct (CTxWitness_is_null (wit tx)) eqn:Ew.
  - exists b, b, tx. split; [done|]. split; [apply Hr|].
    split; [by apply serialize_with_null_witness|]. by apply deserialize_without_flags.
  - destruct (serialize_with_witness_reads tx Hwf Ew) as (b' & tx' & Hb' & _ & Hr').
    exists b, b', tx'. split; [done|]. split; [apply Hr|]. split; [done|]. apply Hr'.
Qed.

Definition example_tx : CTransaction :=
  {| nVersion := 2;
     vin := [{| prevout := {| op_hash := 2 ^ 200; op_n := 1 |}; scriptSig := [chr 1]; nSequence := 7 |}];
     vout := [{| nValue := 5000; scriptPubKey := witness_script 0 (replicate 20 (chr 3)) |}];
     wit := [{| stack := [[chr 9]; []] |}]; nLockTime := 500;
     tx_sha256 := None; tx_hash := None |}.

Lemma tx_roundtrip_witness :
  ∃ b b' tx',
    serialize_without_witness example_tx = Ok b ∧
    tx_deserialize_without_witness (b ++ [chr 1]) = (Ok (fresh_tx example_tx []), [chr 1]) ∧
    serialize_with_witness example_tx = Ok (b', tx') ∧
    tx_deserialize CTransaction_new (b' ++ [chr 1]) =
      (Ok (fresh_tx example_tx (if CTxWitness_is_null (wit example_tx) then [] else fit_witness example_tx)), [chr 1]).
Proof.
  apply (tx_roundtrip example_tx CTransaction_new [chr 1]).
  - apply (bool_decide_unpack _). vm_compute. exact I.
  - discriminate.
  - reflexivity.
Defined.

(** The transaction id depends on nothing but the serialization without
    witness data: [rehash] of a well-formed transaction succeeds, stores the
    double hash of that serialization and the integer it denotes, ignores a
    stale cache and the witnesses, and changes no other field. *)
Theorem rehash_txid `{Hashes} (tx : CTransaction) (w : list CTxInWitness) (Hwf : tx_wf tx) :
  ∃ b, serialize_without_witness tx = Ok b ∧
    rehash tx = Ok (set_ids (Some (le_int (hash256 b))) (Some (hash256 b)) tx) ∧
    rehash (set_wit w tx) = Ok (set_ids (Some (le_int (hash256 b))) (Some (hash256 b)) (set_wit w tx)).
Proof.
  destruct (serialize_without_witness_reads tx Hwf) as (b & Hb & _). exists b. split; [done|].
  split; by apply rehash_bytes.
Qed.

Lemma rehash_txid_witness :
  ∃ b, serialize_without_witness example_tx = Ok b ∧
    rehash (H := executable_hashes) example_tx =
      Ok (set_ids (Some (le_int (hash256 b))) (Some (hash256 b)) example_tx) ∧
    rehash (set_wit [] example_tx) =
      Ok (set_ids (Some (le_int (hash256 b))) (Some (hash256 b)) (set_wit [] example_tx)).
Proof.
  apply (rehash_txid example_tx []).
  apply (bool_decide_unpack _). vm_compute. exact I.
Defined.
