(* ===== verification/KeyPath.v ===== *)
(** * [hwilib/key.py], derivation paths and key origins

    Parsing and printing of BIP 32 paths, with BIP 389 multipath steps, and
    the key origin of descriptors and PSBTs. *)

From S2P Require Import Prelude Bytes PyStd PyStr Common Serialize.

(** ** Hardened indices *)

Definition HARDENED_FLAG : Z := Z.shiftl 1 31.

Definition H_ (x : Z) : Z := Z.lor x HARDENED_FLAG.

Definition is_hardened (i : Z) : bool := negb (Z.land i HARDENED_FLAG =? 0).

(** ** Parsing *)

Definition str_to_harden (x : pystr) : result Z :=
  if startswith_char (chr 45) x then v ← int_str x; Ok (H_ (Z.abs v))
  else if endswith_char (chr 104) x || endswith_char (chr 39) x then
    v ← int_str (slice_to_neg 1 x); Ok (H_ v)
  else int_str x.

Definition parse_index (allow_multipath : bool) (x : pystr) (seen_multipath : bool)
    : result (list Z * bool) :=
  if startswith_char (chr 60) x then
    if seen_multipath then Err ValueError
    else if negb allow_multipath then Err ValueError
    else if negb (endswith_char (chr 62) x) then Err ValueError
    else
      let mp := split_char (chr 59) (slice_to_neg 1 (drop 1 x)) in
      if len mp <? 2 then Err ValueError
      else idx ← mapR str_to_harden mp; Ok (idx, true)
  else v ← str_to_harden x; Ok ([v], seen_multipath).

Fixpoint parse_indexes (allow_multipath : bool) (n : list pystr) (seen_multipath : bool)
    : result (list (list Z)) :=
  match n with
  | [] => Ok []
  | x :: n =>
      '(idx, seen) ← parse_index allow_multipath x seen_multipath;
      path ← parse_indexes allow_multipath n seen;
      Ok (idx :: path)
  end.

Definition _parse_path (nstr : pystr) (allow_multipath : bool) : result (list (list Z)) :=
  match nstr with
  | [] => Ok []
  | _ =>
      let n := split_char (chr 47) nstr in
      let n := if bool_decide (head n = Some ($"m")) then drop 1 n else n in
      parse_indexes allow_multipath n false
  end.

Definition parse_path (nstr : pystr) : result (list Z) :=
  p ← _parse_path nstr false;
  mapR (λ i, nth_py i 0) p.

Definition parse_multipath (s : pystr) : result (list (list Z)) := _parse_path s true.

(** ** Printing *)

Definition index_to_str (hardened_char : pystr) (i : Z) : pystr :=
  let hardened := is_hardened i in
  let i := Z.land i (Z.lnot HARDENED_FLAG) in
  let out := str_int i in
  if hardened then out ++ hardened_char else out.

Definition _path_to_string (path : list (list Z)) (hardened_char : pystr) : pystr :=
  concat (map (λ mp,
    match mp with
    | [i] => $"/" ++ index_to_str hardened_char i
    | _ => $"/<" ++ join_char (chr 59) (map (index_to_str hardened_char) mp) ++ $">"
    end) path).

Definition path_to_string (path : list Z) (hardened_char : pystr) : pystr :=
  _path_to_string (map (λ i, [i]) path) hardened_char.

Definition multipath_to_string (path : list (list Z)) (hardened_char : pystr) : pystr :=
  _path_to_string path hardened_char.

(** ** Key origins *)

Record KeyOriginInfo := { fingerprint : bytes; path : list Z }.

#[export] Instance KeyOriginInfo_eq_dec : EqDecision KeyOriginInfo.
Proof. solve_decision. Defined.

(** [struct.unpack("<" + "I" * (len(s) // 4), s)]. *)
Definition KeyOriginInfo_deserialize (s : bytes) : result KeyOriginInfo :=
  let fp := take 4 s in
  let s := drop 4 s in
  p ← unpack_words (length s / 4) s;
  Ok {| fingerprint := fp; path := p |}.

Definition KeyOriginInfo_serialize (o : KeyOriginInfo) : result bytes :=
  bs ← mapR (pack_u 4) (path o);
  Ok (fingerprint o ++ concat bs).

Definition KeyOriginInfo_path_string (o : KeyOriginInfo) (hardened_char : pystr) : pystr :=
  path_to_string (path o) hardened_char.

Definition KeyOriginInfo_to_string (o : KeyOriginInfo) (hardened_char : pystr) : pystr :=
  hexlify (fingerprint o) ++ KeyOriginInfo_path_string o hardened_char.

Definition KeyOriginInfo_from_string (s : pystr) : result KeyOriginInfo :=
  let s := lower s in
  let entries := split_char (chr 47) s in
  fp ← unhexlify (take 8 s);
  p ← (if 1 <? len entries then parse_path (drop 9 s) else Ok []);
  Ok {| fingerprint := fp; path := p |}.

Definition get_derivation_path (o : KeyOriginInfo) : pystr :=
  $"m" ++ KeyOriginInfo_path_string o ($"h").

Definition get_full_int_list (o : KeyOriginInfo) : result (list Z) :=
  xfp ← unpack_u 4 (fingerprint o);
  Ok (xfp :: path o).

(** ** BIP 44 *)

Definition get_bip44_purpose (addrtype : AddressType) : Z :=
  match addrtype with LEGACY => 44 | SH_WIT => 49 | WIT => 84 | TAP => 86 end.

Definition get_bip44_chain (chain : Chain) : Z :=
  if decide (chain = MAIN) then 0 else 1.

Definition get_addrtype_from_bip44_purpose (index : Z) : option AddressType :=
  let purpose := Z.land index (Z.lnot HARDENED_FLAG) in
  if purpose =? 44 then Some LEGACY
  else if purpose =? 49 then Some SH_WIT
  else if purpose =? 84 then Some WIT
  else if purpose =? 86 then Some TAP
  else None.

Definition is_standard_path (path : list Z) (addrtype : AddressType) (chain : Chain) : bool :=
  match path with
  | [p0; p1; p2; p3; p4] =>
      if negb (is_hardened p0) || negb (is_hardened p1) || negb (is_hardened p2) then false
      else if is_hardened p3 || is_hardened p4 then false
      else
        match get_addrtype_from_bip44_purpose p0 with
        | None => false
        | Some computed_addrtype =>
            if decide (computed_addrtype ≠ addrtype) then false
            else if negb (p1 =? H_ (get_bip44_chain chain)) then false
            else if negb ((p3 =? 0) || (p3 =? 1)) then false
            else true
        end
  | _ => false
  end.

(** * Lemmas *)

Definition u32 (i : Z) : Prop := 0 <= i < 2 ^ 32.

#[export] Instance u32_dec i : Decision (u32 i).
Proof. unfold u32. apply _. Defined.

Lemma flag_testbit n : 0 <= n → Z.testbit HARDENED_FLAG n = (n =? 31).
Proof.
  intros Hn. unfold HARDENED_FLAG. change (Z.shiftl 1 31) with (2 ^ 31).
  rewrite Z.pow2_bits_eqb by lia. apply Z.eqb_sym.
Qed.

Lemma is_hardened_testbit i : is_hardened i = Z.testbit i 31.
Proof.
  unfold is_hardened. destruct (Z.testbit i 31) eqn:E.
  - apply negb_true_iff, Z.eqb_neq. intros H0.
    apply (f_equal (λ z, Z.testbit z 31)) in H0. rewrite Z.land_spec, E, flag_testbit in H0 by lia.
    by rewrite Z.testbit_0_l in H0.
  - apply negb_false_iff, Z.eqb_eq, Z.bits_inj'. intros n Hn.
    rewrite Z.land_spec, flag_testbit, Z.testbit_0_l by lia.
    destruct (Z.eqb_spec n 31) as [->|]; [by rewrite E|by rewrite andb_false_r].
Qed.

(** The index below the flag. *)
Lemma unhardened_small i : u32 i → 0 <= Z.land i (Z.lnot HARDENED_FLAG) < 2 ^ 31.
Proof.
  intros [H0 H1]. assert (Z.land i (Z.lnot HARDENED_FLAG) = i mod 2 ^ 31) as ->.
  - rewrite <- Z.land_ones by lia. apply Z.bits_inj'. intros n Hn.
    rewrite !Z.land_spec, Z.lnot_spec, flag_testbit by lia.
    destruct (decide (n < 31)).
    + rewrite Z.ones_spec_low by lia. by rewrite (proj2 (Z.eqb_neq n 31)) by lia.
    + rewrite Z.ones_spec_high by lia. destruct (Z.eqb_spec n 31) as [->|]; [done|].
      rewrite andb_false_r. simpl. rewrite andb_true_r.
      destruct (decide (i = 0)) as [->|]; [apply Z.testbit_0_l|].
      apply Z.bits_above_log2; [lia|]. assert (Z.log2 i < 32) by (apply Z.log2_lt_pow2; lia). lia.
  - apply Z.mod_pos_bound. lia.
Qed.

Lemma harden_id i : is_hardened i = true → H_ i = i.
Proof.
  rewrite is_hardened_testbit. intros E. unfold H_. apply Z.bits_inj'. intros n Hn. rewrite Z.lor_spec.
  change HARDENED_FLAG with (2 ^ 31). rewrite Z.pow2_bits_eqb by lia. destruct (Z.eqb_spec 31 n) as [<-|]; [by rewrite E|apply orb_false_r].
Qed.

Lemma reharden i : is_hardened i = true → H_ (Z.land i (Z.lnot HARDENED_FLAG)) = i.
Proof.
  rewrite is_hardened_testbit. intros E. unfold H_. apply Z.bits_inj'. intros n Hn.
  rewrite Z.lor_spec, Z.land_spec, Z.lnot_spec, flag_testbit by lia.
  destruct (Z.eqb_spec n 31) as [->|].
  - by rewrite E, orb_true_r.
  - by rewrite orb_false_r, andb_true_r.
Qed.

Lemma unhardened_id i : is_hardened i = false → Z.land i (Z.lnot HARDENED_FLAG) = i.
Proof.
  rewrite is_hardened_testbit. intros E. apply Z.bits_inj'. intros n Hn.
  rewrite Z.land_spec, Z.lnot_spec, flag_testbit by lia.
  destruct (Z.eqb_spec n 31) as [->|]; [by rewrite E|by rewrite andb_true_r].
Qed.

(** The hardened markers the code prints: [h] and an apostrophe. *)
Definition marker (hc : pystr) : Prop := hc = $"h" ∨ hc = $"'".

Lemma marker_char hc : marker hc → ∃ c, hc = [c] ∧ (c = chr 104 ∨ c = chr 39).
Proof. intros [-> | ->]; eexists; (split; [reflexivity|auto]). Qed.

(** A printed index: digits, and the marker when hardened. *)
Lemma index_to_str_shape hc i :
  u32 i → ∃ n, 0 <= n < 2 ^ 31 ∧ str_int n = str_nat n ∧
    index_to_str hc i = str_nat n ++ (if is_hardened i then hc else []) ∧
    (if is_hardened i then H_ n = i else n = i).
Proof.
  intros Hi. pose proof (unhardened_small i Hi) as Hn.
  exists (Z.land i (Z.lnot HARDENED_FLAG)). split; [done|].
  assert (str_int (Z.land i (Z.lnot HARDENED_FLAG)) = str_nat (Z.land i (Z.lnot HARDENED_FLAG))) as Es.
  { unfold str_int. by rewrite (proj2 (Z.ltb_ge _ 0)) by lia. }
  split; [done|]. unfold index_to_str. rewrite Es. destruct (is_hardened i) eqn:E.
  - split; [done|]. by apply reharden.
  - split; [by rewrite app_nil_r|]. by apply unhardened_id.
Qed.

(** A character of a printed index. *)
Definition index_char (x : byte) : Prop := is_digit x = true ∨ x = chr 104 ∨ x = chr 39.

Lemma index_to_str_chars hc i : marker hc → u32 i → Forall index_char (index_to_str hc i).
Proof.
  intros Hm Hi. destruct (index_to_str_shape hc i Hi) as (n & Hn & _ & -> & _).
  apply Forall_app. split.
  - eapply Forall_impl; [apply str_nat_digits; lia|]. by left.
  - destruct (is_hardened i); [|constructor]. unfold index_char.
    destruct Hm as [-> | ->]; (constructor; [auto|constructor]).
Qed.

Lemma index_char_not x c : index_char x → is_digit c = false → c ≠ chr 104 → c ≠ chr 39 → x ≠ c.
Proof. intros [H|[->| ->]] Hc H1 H2; congruence. Qed.

Lemma index_chars_no hc i c :
  marker hc → u32 i → is_digit c = false → c ≠ chr 104 → c ≠ chr 39 → c ∉ index_to_str hc i.
Proof.
  intros Hm Hi Hc H1 H2 Hin. pose proof (index_to_str_chars hc i Hm Hi) as H.
  rewrite Forall_forall in H. exact (index_char_not c c (H c Hin) Hc H1 H2 eq_refl).
Qed.

Lemma index_to_str_nonempty hc i : u32 i → ∃ x s, index_to_str hc i = x :: s ∧ is_digit x = true.
Proof.
  intros Hi. destruct (index_to_str_shape hc i Hi) as (n & Hn & _ & -> & _).
  pose proof (str_nat_nonempty n ltac:(lia)). pose proof (str_nat_digits n ltac:(lia)) as Hd.
  destruct (str_nat n) as [|x s]; [done|]. apply Forall_cons_1 in Hd as [Hx _]. by eexists _, _.
Qed.

Lemma startswith_digit c x s : is_digit x = true → is_digit c = false → startswith_char c (x :: s) = false.
Proof. intros Hx Hc. simpl. apply bool_decide_eq_false. congruence. Qed.

Lemma str_to_harden_print hc i : marker hc → u32 i → str_to_harden (index_to_str hc i) = Ok i.
Proof.
  intros Hm Hi. destruct (index_to_str_nonempty hc i Hi) as (x & s & Ex & Hx).
  unfold str_to_harden. rewrite Ex, startswith_digit by done. rewrite <- Ex.
  destruct (index_to_str_shape hc i Hi) as (n & Hn & _ & -> & Hv).
  assert (printable n) as Hp by (apply printable_small; lia).
  destruct (is_hardened i).
  - assert (endswith_char (chr 104) (str_nat n ++ hc) || endswith_char (chr 39) (str_nat n ++ hc) = true) as ->.
    { destruct (marker_char hc Hm) as (c & -> & [-> | ->]); by rewrite !endswith_char_app. }
    rewrite slice_to_neg_exact by (by destruct Hm as [-> | ->]).
    rewrite int_str_nat by done. simpl. by rewrite Hv.
  - rewrite app_nil_r. assert (∀ c, is_digit c = false → endswith_char c (str_nat n) = false) as He.
    { intros c Hc. unfold endswith_char. destruct (last (str_nat n)) as [y|] eqn:El; [|done].
      apply bool_decide_eq_false. intros ->. pose proof (str_nat_digits n ltac:(lia)) as Hd.
      rewrite Forall_forall in Hd. rewrite (Hd c) in Hc; [done|]. by apply last_Some_elem_of. }
    rewrite !He by done. simpl. rewrite int_str_nat by done. congruence.
Qed.

Arguments str_to_harden : simpl never.
Arguments index_to_str : simpl never.

(** *** Whole paths *)

(** What one step of a path prints, after its slash. *)
Definition step_str (hc : pystr) (mp : list Z) : pystr :=
  match mp with
  | [i] => index_to_str hc i
  | _ => $"<" ++ join_char (chr 59) (map (index_to_str hc) mp) ++ $">"
  end.

Lemma path_to_string_steps path hc :
  _path_to_string path hc = concat (map (λ mp, chr 47 :: step_str hc mp) path).
Proof. unfold _path_to_string. f_equal. apply map_ext. by intros [|i [|j r]]. Qed.

(** A step that parses back: indices of 32 bits, at least one of them. *)
Definition step_wf (mp : list Z) : Prop := mp ≠ [] ∧ Forall u32 mp.
Definition is_multi (mp : list Z) : bool := 1 <? len mp.

(** A path with at most one multipath step (none once [seen]). *)
Fixpoint multipath_wf (seen : bool) (path : list (list Z)) : Prop :=
  match path with
  | [] => True
  | mp :: r => step_wf mp ∧ (is_multi mp && seen = false) ∧ multipath_wf (is_multi mp || seen) r
  end.

Lemma join_char_no c d l : c ≠ d → Forall (λ s, c ∉ s) l → c ∉ join_char d l.
Proof.
  intros Hcd. induction 1 as [|x l Hx Hl IH]; simpl; [set_solver|]. destruct l; [done|].
  rewrite elem_of_app, elem_of_cons. naive_solver.
Qed.

Lemma step_str_no_slash hc mp : marker hc → step_wf mp → chr 47 ∉ step_str hc mp.
Proof.
  intros Hm [_ Hu].
  assert (∀ i, u32 i → chr 47 ∉ index_to_str hc i) as Hi by (intros; by apply index_chars_no).
  assert (chr 47 ∉ join_char (chr 59) (map (index_to_str hc) mp)) as Hj.
  { apply join_char_no; [done|]. apply Forall_map. eapply Forall_impl; [exact Hu|exact Hi]. }
  assert (chr 47 ∉ $"<" ++ join_char (chr 59) (map (index_to_str hc) mp) ++ $">") as Ha.
  { rewrite !elem_of_app. intros [H|[H|H]]; [by apply list_elem_of_singleton in H|done|].
    by apply list_elem_of_singleton in H. }
  destruct mp as [|i [|j r]]; [done| |done]. apply Hi. by inversion Hu.
Qed.

Lemma split_steps s l :
  chr 47 ∉ s → Forall (λ x, chr 47 ∉ x) l →
  split_char (chr 47) (s ++ concat (map (λ x, chr 47 :: x) l)) = s :: l.
Proof.
  intros Hs Hl. revert s Hs. induction Hl as [|x l Hx Hl IH]; intros s Hs; cbn [map concat].
  - rewrite app_nil_r. by apply split_char_no.
  - cbn [app]. rewrite split_char_app by done. f_equal. by apply IH.
Qed.

Lemma mapR_harden_print hc mp :
  marker hc → Forall u32 mp → mapR str_to_harden (map (index_to_str hc) mp) = Ok mp.
Proof.
  intros Hm. induction 1 as [|i mp Hi Hu IH]; [done|]. cbn [map mapR].
  by rewrite str_to_harden_print, IH.
Qed.

Lemma parse_index_print hc mp seen allow :
  marker hc → step_wf mp → is_multi mp && seen = false → (is_multi mp = true → allow = true) →
  parse_index allow (step_str hc mp) seen = Ok (mp, is_multi mp || seen).
Proof.
  intros Hm [Hne Hu] Hs Ha. unfold parse_index. destruct mp as [|i [|j r]]; [done| |].
  - cbn [step_str]. apply Forall_cons_1 in Hu as [Hi _].
    destruct (index_to_str_nonempty hc i Hi) as (x & s & Ex & Hx).
    rewrite Ex, startswith_digit by done. rewrite <- Ex. by rewrite str_to_harden_print.
  - assert (is_multi (i :: j :: r) = true) as Hmul
      by (unfold is_multi; rewrite !len_cons; pose proof (len_nonneg r); lia).
    rewrite Hmul in *. cbn [andb orb] in *. subst seen. rewrite Ha by done.
    set (l := i :: j :: r) in *. assert (step_str hc l = $"<" ++ join_char (chr 59) (map (index_to_str hc) l) ++ $">")
      as -> by done.
    change ($"<" ++ ?x ++ $">") with (chr 60 :: x ++ [chr 62]).
    change (startswith_char (chr 60) (chr 60 :: ?x)) with true. cbn [negb].
    rewrite app_comm_cons, endswith_char_app. change (negb (bool_decide (chr 62 = chr 62))) with false.
    cbn iota. rewrite <- app_comm_cons. cbn [drop]. rewrite drop_0, (slice_to_neg_exact _ _ 1) by done.
    rewrite split_join_char; [|done|].
    + rewrite (proj2 (Z.ltb_ge _ 2)) by (unfold is_multi, len in *; rewrite length_map; lia).
      by rewrite mapR_harden_print.
    + apply Forall_map. eapply Forall_impl; [exact Hu|]. intros k Hk. by apply index_chars_no.
Qed.

Lemma parse_indexes_print hc path seen allow :
  marker hc → multipath_wf seen path → (Exists (λ mp, is_multi mp = true) path → allow = true) →
  parse_indexes allow (map (step_str hc) path) seen = Ok path.
Proof.
  intros Hm. revert seen. induction path as [|mp path IH]; intros seen Hw Ha; [done|].
  destruct Hw as (Hs & Hseen & Hw). cbn [map parse_indexes].
  rewrite parse_index_print by (done || (intros; apply Ha; by left)).
  cbn. rewrite IH; [done..|]. intros He. apply Ha. by right.
Qed.

Lemma steps_no_slash hc path seen :
  marker hc → multipath_wf seen path → Forall (λ x, chr 47 ∉ x) (map (step_str hc) path).
Proof.
  intros Hm. revert seen. induction path as [|mp path IH]; intros seen Hw; constructor.
  - by apply step_str_no_slash, Hw.
  - eapply IH, Hw.
Qed.

Lemma parse_path_nonempty s allow :
  s ≠ [] → _parse_path s allow =
    (let n := split_char (chr 47) s in
     parse_indexes allow (if bool_decide (head n = Some ($"m")) then drop 1 n else n) false).
Proof. by destruct s. Qed.

(** Parsing a printed path behind [m]. *)
Lemma parse_m_path hc path allow :
  marker hc → multipath_wf false path → (Exists (λ mp, is_multi mp = true) path → allow = true) →
  _parse_path ($"m" ++ _path_to_string path hc) allow = Ok path.
Proof.
  intros Hm Hw Ha. rewrite path_to_string_steps, <- (map_map (step_str hc) (λ x, chr 47 :: x)).
  rewrite parse_path_nonempty by done.
  rewrite split_steps by (by eapply steps_no_slash || (intros H; by apply list_elem_of_singleton in H)).
  cbn zeta. rewrite bool_decide_eq_true_2 by done. cbn [drop].
  by apply parse_indexes_print.
Qed.

(** Parsing a printed path without its leading slash. *)
Lemma parse_rel_path hc path allow :
  marker hc → multipath_wf false path → (Exists (λ mp, is_multi mp = true) path → allow = true) →
  _parse_path (drop 1 (_path_to_string path hc)) allow = Ok path.
Proof.
  intros Hm Hw Ha. destruct path as [|mp path]; [done|].
  pose proof (steps_no_slash hc _ _ Hm Hw) as Hs. cbn [map] in Hs. apply Forall_cons_1 in Hs as [Hs1 Hs2].
  rewrite path_to_string_steps. cbn [map concat app drop].
  rewrite <- (map_map (step_str hc) (λ x, chr 47 :: x)).
  assert (∃ x s, step_str hc mp = x :: s ∧ x ≠ chr 109) as (x & s & Ex & Hx).
  { destruct Hw as ([Hne Hu] & _). destruct mp as [|i [|j r]]; [done| |].
    - apply Forall_cons_1 in Hu as [Hi _]. destruct (index_to_str_nonempty hc i Hi) as (x & s & E & Hx).
      exists x, s. split; [done|]. intros ->. done.
    - by eexists _, _. }
  rewrite drop_0, parse_path_nonempty, split_steps by (done || by rewrite Ex).
  cbn zeta. rewrite bool_decide_eq_false_2.
  - by rewrite <- (parse_indexes_print hc (mp :: path) false allow).
  - rewrite Ex. simpl. intros [= H1 _]. by apply Hx.
Qed.

(** A plain path is a multipath of singletons. *)
Lemma singletons_wf p seen : Forall u32 p → multipath_wf seen (map (λ i, [i]) p).
Proof.
  intros H. revert seen. induction H as [|i p Hi H IH]; intros seen; [done|].
  cbn [map multipath_wf]. split; [|split; [done|apply IH]]. split; [done|]. by constructor.
Qed.

Lemma singletons_not_multi p : ¬ Exists (λ mp, is_multi mp = true) (map (λ i : Z, [i]) p).
Proof. induction p as [|i p IH]; intros H; inversion H; subst; done. Qed.

Lemma heads_of_singletons p : mapR (λ i, nth_py i 0) (map (λ i : Z, [i]) p) = Ok p.
Proof. induction p as [|i p IH]; [done|]. cbn [map mapR]. by rewrite IH. Qed.

(** *** Errors of the parser *)

Definition only_value_errors {A} (r : result A) : Prop := ∀ e, r = Err e → is_value_error e = true.

Lemma ove_ok {A} (a : A) : only_value_errors (Ok a).
Proof. by intros e. Qed.

Lemma ove_err {A} : only_value_errors (@Err A ValueError).
Proof. by intros e [= <-]. Qed.

Lemma ove_bind {A B} (m : result A) (f : A → result B) :
  only_value_errors m → (∀ a, m = Ok a → only_value_errors (f a)) → only_value_errors (m ≫= f).
Proof. intros Hm Hf e. destruct m as [a|e']; simpl; [by apply Hf|]. intros [= ->]. by apply Hm. Qed.

Lemma ove_mapR {A B} (f : A → result B) l : (∀ x, only_value_errors (f x)) → only_value_errors (mapR f l).
Proof.
  intros Hf. induction l as [|x l IH]; [apply ove_ok|]. cbn [mapR].
  apply ove_bind; [apply Hf|]. intros y _. apply ove_bind; [apply IH|]. intros; apply ove_ok.
Qed.

#[local] Hint Resolve ove_ok ove_err ove_bind ove_mapR : ove.

Lemma ove_int_digits s acc c : only_value_errors (int_digits s acc c).
Proof.
  revert acc c. induction s as [s IH] using (induction_ltof1 _ (@length byte)).
  intros acc c. destruct s as [|x r]; cbn [int_digits]; [apply ove_ok|].
  case_match; [apply IH; unfold ltof; simpl; lia|]. case_decide; [|apply ove_err].
  destruct r as [|y r']; [apply ove_err|]. case_match; [|apply ove_err].
  apply IH. unfold ltof. simpl. lia.
Qed.

Lemma ove_int_unsigned s : only_value_errors (int_unsigned s).
Proof.
  destruct s as [|x r]; simpl; [apply ove_err|]. case_match; [|apply ove_err].
  apply ove_bind; [apply ove_int_digits|]. intros [v n] _. case_match; [apply ove_err|apply ove_ok].
Qed.

Lemma ove_int_str s : only_value_errors (int_str s).
Proof.
  unfold int_str. pose proof ove_int_unsigned as Hu. destruct (strip s) as [|x r]; [apply ove_err|].
  repeat case_decide; [|apply Hu..]. apply ove_bind; [apply Hu|]. intros; apply ove_ok.
Qed.

Lemma ove_str_to_harden s : only_value_errors (str_to_harden s).
Proof.
  unfold str_to_harden. pose proof ove_int_str as Hi.
  repeat case_match; [| |apply Hi]; (apply ove_bind; [apply Hi|]; intros; apply ove_ok).
Qed.

Lemma ove_parse_index allow x seen : only_value_errors (parse_index allow x seen).
Proof.
  unfold parse_index. repeat case_match; try apply ove_err.
  - apply ove_bind; [apply ove_mapR, ove_str_to_harden|]. intros; apply ove_ok.
  - apply ove_bind; [apply ove_str_to_harden|]. intros; apply ove_ok.
Qed.

Lemma ove_parse_indexes allow n seen : only_value_errors (parse_indexes allow n seen).
Proof.
  revert seen. induction n as [|x n IH]; intros seen; [apply ove_ok|]. cbn [parse_indexes].
  apply ove_bind; [apply ove_parse_index|]. intros [idx s] _.
  apply ove_bind; [apply IH|]. intros; apply ove_ok.
Qed.

Lemma ove__parse_path s allow : only_value_errors (_parse_path s allow).
Proof. destruct s; [apply ove_ok|]. apply ove_parse_indexes. Qed.

(** No step of a parsed path is empty, and none is a multipath step unless
    those are allowed. *)
Lemma parse_index_steps allow x seen idx seen' :
  parse_index allow x seen = Ok (idx, seen') →
  idx ≠ [] ∧ (is_multi idx && seen = false) ∧ seen' = is_multi idx || seen ∧ (allow = false → is_multi idx = false).
Proof.
  unfold parse_index. destruct (startswith_char (chr 60) x).
  - destruct seen, allow; try discriminate. cbn [negb].
    destruct (endswith_char _ _); [|discriminate]. cbn [negb].
    set (mp := split_char _ _). destruct (Z.ltb_spec (len mp) 2) as [|Hl]; [discriminate|].
    intros (l & E & H)%bind_ok. injection H as <- <-. apply mapR_length in E.
    assert (is_multi l = true) as -> by (unfold is_multi, len in *; lia).
    split; [|done]. intros ->. unfold len in Hl. simpl in E. lia.
  - intros (v & E & H)%bind_ok. by injection H as <- <-.
Qed.

Lemma parse_indexes_steps allow n seen path :
  parse_indexes allow n seen = Ok path →
  Forall (λ mp, mp ≠ [] ∧ (allow = false → is_multi mp = false)) path.
Proof.
  revert seen path. induction n as [|x n IH]; intros seen path H; cbn [parse_indexes] in H.
  - injection H as <-. constructor.
  - apply bind_ok in H as ([idx s] & E & H). apply bind_ok in H as (r & Er & H). injection H as <-.
    apply parse_index_steps in E as (? & _ & _ & ?). constructor; [done|]. by eapply IH.
Qed.

Lemma parse_path_heads s allow path :
  _parse_path s allow = Ok path → is_ok (mapR (λ i, nth_py i 0) path) = true.
Proof.
  intros H. assert (Forall (λ mp, mp ≠ []) path) as Hp.
  { destruct s as [|x s]; [by injection H as <-|]. apply parse_indexes_steps in H.
    eapply Forall_impl; [exact H|]. by intros mp [? _]. }
  clear H. induction Hp as [|mp path Hm _ IH]; [done|]. destruct mp as [|i r]; [done|].
  cbn [mapR]. change (nth_py (i :: r) 0) with (Ok i). cbn. by destruct (mapR _ path).
Qed.

(** *** Origins *)

Definition origin_wf (o : KeyOriginInfo) : Prop := length (fingerprint o) = 4%nat ∧ Forall u32 (path o).

#[export] Instance origin_wf_dec o : Decision (origin_wf o).
Proof. unfold origin_wf. apply _. Defined.

Lemma pack_words p : Forall u32 p → mapR (pack_u 4) p = Ok (map (le_bytes 4) p).
Proof.
  induction 1 as [|i p Hi H IH]; [done|]. cbn [map mapR]. rewrite pack_u_fits by exact Hi. by rewrite IH.
Qed.

Lemma unpack_packed p : Forall u32 p →
  unpack_words (length p) (concat (map (le_bytes 4) p)) = Ok p.
Proof.
  induction 1 as [|i p Hi H IH]; [done|]. cbn [length map concat unpack_words].
  rewrite take_app_exact, drop_app_exact by apply length_le_bytes.
  apply bind_ok. exists i. split; [apply unpack_pack_u, pack_u_fits; exact Hi|].
  apply bind_ok. by exists p.
Qed.

Lemma length_words p : length (concat (map (le_bytes 4) p)) = (4 * length p)%nat.
Proof. induction p as [|i p IH]; [done|]. cbn [map concat]. rewrite length_app, IH, length_le_bytes. simpl. lia. Qed.

Lemma pack_unpacked n s p : unpack_words n s = Ok p → ∃ bs, mapR (pack_u 4) p = Ok bs ∧ concat bs = s.
Proof.
  revert s p. induction n as [|n IH]; intros s p H; cbn [unpack_words] in H.
  - destruct s; [injection H as <-|discriminate]. by exists [].
  - apply bind_ok in H as (t & Et & H). apply bind_ok in H as (ts & Ets & H). injection H as <-.
    apply pack_unpack_u in Et. apply IH in Ets as (bs & Ebs & Hc).
    exists (take 4 s :: bs). cbn [mapR]. rewrite Et. cbn. rewrite Ebs. split; [done|].
    cbn [concat]. rewrite Hc. apply take_drop.
Qed.

(** The PSBT form of an origin reads back. *)
Lemma origin_bytes o : origin_wf o →
  ∃ b, KeyOriginInfo_serialize o = Ok b ∧ KeyOriginInfo_deserialize b = Ok o ∧
    length b = (4 + 4 * length (path o))%nat.
Proof.
  destruct o as [fp p]. intros [Hf Hp]. cbn [fingerprint path] in *.
  unfold KeyOriginInfo_serialize, KeyOriginInfo_deserialize. cbn [path fingerprint].
  rewrite pack_words, bind_Ok by done. eexists. split; [reflexivity|].
  rewrite take_app_exact, drop_app_exact by done.
  rewrite length_words, (Nat.mul_comm 4), Nat.div_mul, unpack_packed by done.
  split; [done|]. rewrite length_app, length_words. lia.
Qed.

Lemma lower_str_id s : Forall (λ x, lower_char x = x) s → lower s = s.
Proof. induction 1 as [|x s Hx H IH]; [done|]. unfold lower in *. cbn [map]. by rewrite Hx, IH. Qed.

Lemma hex_digit_facts d : 0 <= d < 16 → lower_char (hex_digit d) = hex_digit d ∧ hex_digit d ≠ chr 47.
Proof.
  intros Hd. assert (forallb (λ n, let c := hex_digit (Z.of_nat n) in
    bool_decide (lower_char c = c ∧ c ≠ chr 47)) (seq 0 16) = true) as Hf by (vm_compute; reflexivity).
  rewrite forallb_forall in Hf. specialize (Hf (Z.to_nat d)). rewrite Z2Nat.id in Hf by lia.
  apply bool_decide_eq_true in Hf; [done|]. apply in_seq. lia.
Qed.

Lemma hexlify_facts b : Forall (λ x, lower_char x = x ∧ x ≠ chr 47) (hexlify b).
Proof.
  induction b as [|x b IH]; [constructor|]. pose proof (ord_range x). cbn [hexlify].
  constructor; [apply hex_digit_facts|constructor; [apply hex_digit_facts|exact IH]].
  - split; [apply Z.div_pos; lia|apply Z.div_lt_upper_bound; lia].
  - apply Z.mod_pos_bound. lia.
Qed.

Lemma index_char_lower x : index_char x → lower_char x = x.
Proof.
  intros [H|[->| ->]]; [|done..]. unfold is_digit in H. unfold lower_char, is_upper_ascii.
  rewrite (proj2 (Z.leb_gt 65 _)), (proj2 (Z.leb_gt 192 _)) by lia. done.
Qed.

Lemma path_string_lower p hc : marker hc → Forall u32 p → Forall (λ x, lower_char x = x) (path_to_string p hc).
Proof.
  intros Hm Hp. unfold path_to_string. rewrite path_to_string_steps, map_map.
  induction Hp as [|i p Hi Hp IH]; [constructor|]. cbn [map concat]. apply Forall_app. split; [|exact IH].
  constructor; [done|]. eapply Forall_impl; [by apply index_to_str_chars|]. apply index_char_lower.
Qed.

Lemma split_origin b p hc : marker hc → Forall u32 p →
  (1 <? len (split_char (chr 47) (hexlify b ++ path_to_string p hc))) = negb (bool_decide (p = [])).
Proof.
  intros Hm Hp. unfold path_to_string. rewrite path_to_string_steps.
  rewrite <- (map_map (step_str hc) (λ x, chr 47 :: x)), split_steps.
  - destruct p as [|i p]; [done|]. cbn [map]. rewrite !len_cons. pose proof (len_nonneg (map (step_str hc) (map (λ i, [i]) p))).
    rewrite bool_decide_eq_false_2 by done. simpl. lia.
  - pose proof (hexlify_facts b) as Hf. rewrite Forall_forall in Hf. intros H. by apply Hf in H as [_ H].
  - eapply steps_no_slash; [done|]. by apply (singletons_wf p false).
Qed.

Lemma origin_from_to_string hc fp p :
  marker hc → length fp = 4%nat → Forall u32 p →
  KeyOriginInfo_from_string (KeyOriginInfo_to_string {| fingerprint := fp; path := p |} hc) =
    Ok {| fingerprint := fp; path := p |}.
Proof.
  intros Hm Hf Hp. unfold KeyOriginInfo_to_string, KeyOriginInfo_path_string, KeyOriginInfo_from_string.
  cbn [fingerprint path].
  assert (length (hexlify fp) = 8%nat) as Hl by (rewrite length_hexlify; lia).
  rewrite lower_str_id; cycle 1.
  { apply Forall_app. split; [|by apply path_string_lower]. eapply Forall_impl; [apply hexlify_facts|]. by intros x []. }
  rewrite split_origin, take_app_exact, unhexlify_hexlify by done. cbn [mbind result_bind].
  case_bool_decide as Hnil; [by subst|]. cbn [negb].
  rewrite drop_app, (drop_ge (hexlify fp)), Hl by lia. change (9 - 8)%nat with 1%nat. cbn [app].
  unfold parse_path, path_to_string. rewrite parse_rel_path;
    [|done|by apply singletons_wf|by intros H%singletons_not_multi].
  cbn [mbind result_bind]. by rewrite heads_of_singletons.
Qed.

Lemma parse_indexes_allow n seen p : parse_indexes false n seen = Ok p → parse_indexes true n seen = Ok p.
Proof.
  revert seen p. induction n as [|x n IH]; intros seen p H; [done|]. cbn [parse_indexes] in *.
  apply bind_ok in H as ([idx s] & E & H). apply bind_ok in H as (r & Er & H).
  apply bind_ok. exists (idx, s). split; [|apply bind_ok; exists r; split; [by apply IH|done]].
  unfold parse_index in *. destruct (startswith_char _ x); [|done]. by destruct seen.
Qed.

Lemma parse_path_allow s p : _parse_path s false = Ok p → _parse_path s true = Ok p.
Proof. destruct s; [done|]. apply parse_indexes_allow. Qed.

Lemma purpose_of_addrtype i a :
  is_hardened i = true → get_addrtype_from_bip44_purpose i = Some a → i = H_ (get_bip44_purpose a).
Proof.
  intros Hi. pose proof (reharden i Hi) as R. unfold get_addrtype_from_bip44_purpose. cbn zeta.
  set (l := Z.land _ _) in *.
  destruct (Z.eqb_spec l 44), (Z.eqb_spec l 49), (Z.eqb_spec l 84), (Z.eqb_spec l 86);
    intros H; simplify_eq; rewrite <- R; cbn [get_bip44_purpose]; congruence.
Qed.

(** * Properties *)

(** Paths survive printing and parsing, with either hardened marker: [parse_path] reads back
    every path of 32-bit indices that [path_to_string] printed (behind [m] or without the leading
    slash), and [parse_multipath] every BIP 389 path with at most one multipath step. *)
Theorem paths_roundtrip (hc : pystr) (p : list Z) (mp : list (list Z))
    (Hm : marker hc) (Hp : Forall u32 p) (Hmp : multipath_wf false mp) :
  parse_path ($"m" ++ path_to_string p hc) = Ok p ∧
  parse_path (drop 1 (path_to_string p hc)) = Ok p ∧
  parse_multipath ($"m" ++ multipath_to_string mp hc) = Ok mp ∧
  parse_multipath (drop 1 (multipath_to_string mp hc)) = Ok mp.
Proof.
  pose proof (singletons_wf p false Hp) as Hw. pose proof (singletons_not_multi p) as Hn.
  unfold parse_path, parse_multipath, path_to_string, multipath_to_string.
  rewrite parse_m_path, parse_rel_path by (done || tauto).
  rewrite parse_m_path, parse_rel_path by (done || tauto).
  repeat split; apply heads_of_singletons.
Qed.

Lemma paths_roundtrip_witness :
  parse_path $"m/84h/0h/5" = Ok [H_ 84; H_ 0; 5] ∧ parse_multipath $"m/44'/<0;1>/7" = Ok [[H_ 44]; [0; 1]; [7]].
Proof.
  pose proof (paths_roundtrip $"h" [H_ 84; H_ 0; 5] [] ltac:(by left)
    ltac:(apply (bool_decide_unpack _); vm_compute; exact I) I) as (H1 & _).
  pose proof (paths_roundtrip $"'" [] [[H_ 44]; [0; 1]; [7]] ltac:(by right) ltac:(constructor)
    ltac:(repeat (split || constructor || done))) as (_ & _ & H2 & _).
  split; [exact H1|exact H2].
Defined.

(** Parsing a path raises nothing but [ValueError] (also for a path that ends up with an empty
    step), and a plain path that contains a multipath step is refused. *)
Theorem parse_path_errors (s : pystr) (e : pyexn) :
  (parse_path s = Err e → is_value_error e = true) ∧
  (parse_multipath s = Err e → is_value_error e = true) ∧
  (∀ p, parse_multipath s = Ok p → Exists (λ mp, is_multi mp = true) p → is_ok (parse_path s) = false).
Proof.
  split; [|split].
  - unfold parse_path. destruct (_parse_path s false) as [p|e'] eqn:E.
    + cbn. intros H. apply parse_path_heads in E. by rewrite H in E.
    + cbn. intros [= ->]. by eapply ove__parse_path.
  - apply ove__parse_path.
  - intros p Hp He. unfold parse_path. destruct (_parse_path s false) as [p'|e'] eqn:E; [|done]. exfalso.
    unfold parse_multipath in Hp. rewrite (parse_path_allow _ _ E) in Hp. injection Hp as ->.
    destruct s as [|x s]; [by injection E as <-; inversion He|]. apply parse_indexes_steps in E.
    apply Exists_exists in He as (mp & Hin & Hmul). rewrite Forall_forall in E.
    destruct (E mp Hin) as [_ H]. rewrite H in Hmul; done.
Qed.

(** An origin survives both encodings: the string form with either hardened marker, whose path
    is parsed as [get_derivation_path] shows it, and the PSBT form; and deserializing any bytes
    the parser accepts loses nothing, since serializing gives them back. *)
Theorem key_origin_roundtrip (hc : pystr) (o : KeyOriginInfo) (Hm : marker hc) (Hwf : origin_wf o) :
  KeyOriginInfo_from_string (KeyOriginInfo_to_string o hc) = Ok o ∧
  parse_path (get_derivation_path o) = Ok (path o) ∧
  (b ← KeyOriginInfo_serialize o; KeyOriginInfo_deserialize b) = Ok o ∧
  (∀ s o', KeyOriginInfo_deserialize s = Ok o' → KeyOriginInfo_serialize o' = Ok s).
Proof.
  destruct Hwf as [Hf Hp]. destruct o as [fp p]. cbn [fingerprint path] in *. split; [|split; [|split]].
  - by apply origin_from_to_string.
  - unfold get_derivation_path, KeyOriginInfo_path_string, parse_path, path_to_string. cbn [path].
    rewrite parse_m_path; [apply heads_of_singletons|by left|by apply singletons_wf|].
    by intros H%singletons_not_multi.
  - destruct (origin_bytes {| fingerprint := fp; path := p |} (conj Hf Hp)) as (b & -> & Hb & _). exact Hb.
  - intros s o' (w & Hw & H)%bind_ok. injection H as <-. apply pack_unpacked in Hw as (bs & Hb & Hc).
    unfold KeyOriginInfo_serialize. cbn [path fingerprint]. rewrite Hb. cbn. by rewrite Hc, take_drop.
Qed.

Lemma key_origin_roundtrip_witness :
  KeyOriginInfo_from_string $"d34db33f/49h/0h/7" =
    Ok {| fingerprint := map chr [0xd3; 0x4d; 0xb3; 0x3f]; path := [H_ 49; H_ 0; 7] |}.
Proof.
  exact (proj1 (key_origin_roundtrip $"h" {| fingerprint := map chr [0xd3; 0x4d; 0xb3; 0x3f]; path := [H_ 49; H_ 0; 7] |}
    ltac:(by left) ltac:(apply (bool_decide_unpack _); vm_compute; exact I))).
Defined.

(** [is_standard_path] accepts exactly the BIP 44 paths of the address type on the network:
    the type's purpose and the network's coin hardened, a hardened account, change 0 or 1 and an
    index that is not hardened; and the purpose determines the address type. *)
Theorem standard_path_exact (p : list Z) (a : AddressType) (c : Chain) :
  (is_standard_path p a c = true ↔ ∃ account change index,
    p = [H_ (get_bip44_purpose a); H_ (get_bip44_chain c); account; change; index] ∧
    is_hardened account = true ∧ (change = 0 ∨ change = 1) ∧ is_hardened index = false) ∧
  get_addrtype_from_bip44_purpose (H_ (get_bip44_purpose a)) = Some a.
Proof.
  assert (∀ i, get_addrtype_from_bip44_purpose (H_ (get_bip44_purpose i)) = Some i) as Hpur by (by intros []).
  split; [|apply Hpur]. split.
  - destruct p as [|p0 [|p1 [|p2 [|p3 [|p4 [|]]]]]]; try done. unfold is_standard_path.
    destruct (is_hardened p0) eqn:E0, (is_hardened p1) eqn:E1, (is_hardened p2) eqn:E2,
      (is_hardened p3) eqn:E3, (is_hardened p4) eqn:E4; try done. cbn [negb orb].
    destruct (get_addrtype_from_bip44_purpose p0) as [t|] eqn:Et; [|done].
    case_decide as Ht; [done|]. subst t.
    destruct (Z.eqb_spec p1 (H_ (get_bip44_chain c))) as [->|]; [|done]. cbn [negb].
    destruct (Z.eqb_spec p3 0), (Z.eqb_spec p3 1); try done; intros _; exists p2, p3, p4;
      (split; [|auto]); repeat f_equal; by apply purpose_of_addrtype.
  - intros (ac & ch & ix & -> & Ha & Hc & Hi). unfold is_standard_path. rewrite Hpur.
    assert (is_hardened (H_ (get_bip44_purpose a)) = true) as -> by (by destruct a).
    assert (is_hardened (H_ (get_bip44_chain c)) = true) as -> by (by destruct c).
    rewrite Ha, Hi, decide_False by (intros H; by apply H). rewrite Z.eqb_refl.
    by destruct Hc as [-> | ->].
Qed.
