(* ===== verification/Key.v ===== *)
(** * [hwilib/key.py], points and extended public keys

    Arithmetic on secp256k1 points, the serialization of BIP 32 extended keys
    and public derivation.  [hmac.new(..., sha512)] is the class [HmacSha512],
    with the digest size as its law. *)

From Stdlib Require Import Zpow_facts.
From S2P Require Import Prelude Bytes PyStd PyStr Common Sha256 Serialize Base58 KeyPath.

(** ** Points *)

Definition secp_p : Z := 0xFFFFFFFFFFFFFFFFFFFFFFFFFFFFFFFFFFFFFFFFFFFFFFFFFFFFFFFEFFFFFC2F.
Definition secp_n : Z := 0xFFFFFFFFFFFFFFFFFFFFFFFFFFFFFFFEBAAEDCE6AF48A03BBFD25E8CD0364141.
Definition G : option (Z * Z) :=
  Some (0x79BE667EF9DCBBAC55A06295CE870B07029BFCDB2DCE28D959F2815B16F81798,
        0x483ADA7726A3C4655DA4FBFC0E1108A8FD17B448A68554199C47D08FFB10D4B8).

Abbreviation Point := (option (Z * Z)).

(** Python's [pow(b, e, m)] for a positive exponent, by repeated squaring. *)
Fixpoint pow_mod_pos (b : Z) (e : positive) (m : Z) : Z :=
  match e with
  | xH => b mod m
  | xO e => pow_mod_pos (b * b mod m) e m
  | xI e => b * pow_mod_pos (b * b mod m) e m mod m
  end.
Definition pow_mod (b e m : Z) : Z :=
  match e with Zpos e => pow_mod_pos b e m | _ => 1 mod m end.

Definition point_add (p1 p2 : Point) : Point :=
  match p1, p2 with
  | None, _ => p2
  | _, None => p1
  | Some (x1, y1), Some (x2, y2) =>
      if (x1 =? x2) && negb (y1 =? y2) then None
      else
        let lam :=
          if bool_decide (p1 = p2)
          then (3 * x1 * x1 * pow_mod (2 * y1) (secp_p - 2) secp_p) mod secp_p
          else ((y2 - y1) * pow_mod (x2 - x1) (secp_p - 2) secp_p) mod secp_p in
        let x3 := (lam * lam - x1 - x2) mod secp_p in
        Some (x3, (lam * (x1 - x3) - y1) mod secp_p)
  end.

(** The 256 rounds of the double-and-add loop. *)
Fixpoint point_mul_loop (rounds : nat) (i : Z) (n : Z) (p r : Point) : Point :=
  match rounds with
  | O => r
  | S k =>
      let r := if Z.land (Z.shiftr n i) 1 =? 0 then r else point_add r p in
      point_mul_loop k (i + 1) n (point_add p p) r
  end.

Definition point_mul (p : Point) (n : Z) : Point := point_mul_loop 256 0 n p None.

Definition deserialize_point (b : bytes) : result Point :=
  let x := be_int (drop 1 b) in
  let y := pow_mod ((x * x * x + 7) mod secp_p) ((secp_p + 1) / 4) secp_p in
  b0 ← nth_py b 0;
  let y := if negb (Z.land y 1 =? Z.land (ord b0) 1) then secp_p - y else y in
  Ok (Some (x, y)).

(** [int(binascii.hexlify(b), 16)]: no digits is an error. *)
Definition int_of_bytes (b : bytes) : result Z :=
  match b with [] => Err ValueError | _ => Ok (int_hex (hexlify b)) end.

Definition bytes_to_point (point_bytes : bytes) : result Point :=
  header ← nth_py point_bytes 0;
  if ord header =? 4 then
    let x := slice 1 33 point_bytes in
    let point_bytes := x in
    let y := slice 33 65 point_bytes in
    xi ← int_of_bytes x;
    yi ← int_of_bytes y;
    Ok (Some (xi, yi))
  else deserialize_point point_bytes.

Definition point_to_bytes (p : Point) : result bytes :=
  match p with
  | None => Err ValueError
  | Some (x, y) =>
      b ← to_bytes_be 32 x;
      Ok ((if negb (Z.land y 1 =? 0) then [chr 3] else [chr 2]) ++ b)
  end.

(** ** Extended keys *)

Definition MAINNET_PUBLIC : bytes := map chr [0x04; 0x88; 0xB2; 0x1E].
Definition MAINNET_PRIVATE : bytes := map chr [0x04; 0x88; 0xAD; 0xE4].
Definition TESTNET_PUBLIC : bytes := map chr [0x04; 0x35; 0x87; 0xCF].
Definition TESTNET_PRIVATE : bytes := map chr [0x04; 0x35; 0x83; 0x94].

Record ExtendedKey := {
  version : bytes;
  depth : Z;
  parent_fingerprint : bytes;
  child_num : Z;
  chaincode : bytes;
  privkey : option bytes;
  pubkey : bytes;
}.

#[export] Instance ExtendedKey_eq_dec : EqDecision ExtendedKey.
Proof. solve_decision. Defined.

(** The two attributes the constructor computes. *)
Definition is_testnet (k : ExtendedKey) : bool :=
  bool_decide (version k = TESTNET_PUBLIC) || bool_decide (version k = TESTNET_PRIVATE).
Definition is_private (k : ExtendedKey) : bool :=
  bool_decide (version k = MAINNET_PRIVATE) || bool_decide (version k = TESTNET_PRIVATE).

Definition ExtendedKey_from_bytes (data : bytes) : result ExtendedKey :=
  let version := take 4 data in
  if negb (bool_decide (version ∈ [MAINNET_PRIVATE; MAINNET_PUBLIC; TESTNET_PRIVATE; TESTNET_PUBLIC]))
  then Err BadArgumentError
  else
    let private := bool_decide (version = MAINNET_PRIVATE) || bool_decide (version = TESTNET_PRIVATE) in
    depth ← nth_py data 4;
    let parent_fingerprint := slice 5 9 data in
    child_num ← unpack_u_be 4 (slice 9 13 data);
    let chaincode := slice 13 45 data in
    if private then
      let privkey := drop 46 data in
      pubkey ← point_to_bytes (point_mul G (be_int privkey));
      Ok {| version := version; depth := ord depth; parent_fingerprint := parent_fingerprint;
            child_num := child_num; chaincode := chaincode; privkey := Some privkey; pubkey := pubkey |}
    else
      Ok {| version := version; depth := ord depth; parent_fingerprint := parent_fingerprint;
            child_num := child_num; chaincode := chaincode; privkey := None; pubkey := slice 45 78 data |}.

Definition ExtendedKey_deserialize (xpub : pystr) : result ExtendedKey :=
  data ← Base58.decode xpub;
  ExtendedKey_from_bytes (slice_to_neg 4 data).

Definition ExtendedKey_serialize (k : ExtendedKey) : result bytes :=
  d ← pack_u 1 (depth k);
  c ← pack_u_be 4 (child_num k);
  let r := version k ++ d ++ parent_fingerprint k ++ c ++ chaincode k in
  if is_private k then
    match privkey k with
    | None => Err ValueError
    | Some priv => Ok (r ++ [chr 0] ++ priv)
    end
  else Ok (r ++ pubkey k).

(** The values of the printable dictionary. *)
Inductive printable_val := PBool (b : bool) | PInt (z : Z) | PStr (s : pystr).

Definition get_printable_dict (k : ExtendedKey) : pydict pystr printable_val :=
  [($"testnet", PBool (is_testnet k)); ($"private", PBool (is_private k)); ($"depth", PInt (depth k));
   ($"parent_fingerprint", PStr (hexlify (parent_fingerprint k))); ($"child_num", PInt (child_num k));
   ($"chaincode", PStr (hexlify (chaincode k)))] ++
  match is_private k, privkey k with
  | true, Some priv => [($"privkey", PStr (hexlify priv))]
  | _, _ => []
  end ++
  [($"pubkey", PStr (hexlify (pubkey k)))].

(** [hmac.new(key, data, hashlib.sha512).digest()]. *)
Class HmacSha512 := {
  hmac_sha512 : bytes → bytes → bytes;
  hmac_sha512_length k d : length (hmac_sha512 k d) = 64%nat;
}.

Section xkey.
Context `{Hashes} `{HmacSha512}.

Definition ExtendedKey_to_string (k : ExtendedKey) : result pystr :=
  data ← ExtendedKey_serialize k;
  let checksum := take 4 (hash256 data) in
  Ok (Base58.encode (data ++ checksum)).

Definition derive_pub (i : Z) (k : ExtendedKey) : result ExtendedKey :=
  if is_hardened i then Err ValueError
  else
    n ← pack_u_be 4 i;
    let data := pubkey k ++ n in
    let Ihmac := hmac_sha512 (chaincode k) data in
    let Il := take 32 Ihmac in
    let Ir := drop 32 Ihmac in
    Il_int ← int_of_bytes Il;
    parent ← bytes_to_point (pubkey k);
    let child_pubkey := point_add (point_mul G Il_int) parent in
    child ← point_to_bytes child_pubkey;
    Ok {| version := if is_testnet k then TESTNET_PUBLIC else MAINNET_PUBLIC;
          depth := depth k + 1; parent_fingerprint := take 4 (hash160 (pubkey k));
          child_num := i; chaincode := Ir; privkey := None; pubkey := child |}.

Fixpoint derive_pub_path (path : list Z) (k : ExtendedKey) : result ExtendedKey :=
  match path with
  | [] => Ok k
  | i :: path => k ← derive_pub i k; derive_pub_path path k
  end.
End xkey.

(** * Lemmas *)

(** [pow] is the power it should be. *)
Lemma pow_mod_pos_spec b e m : 0 < m → pow_mod_pos b e m = b ^ Zpos e mod m.
Proof.
  intros Hm. revert b. induction e as [e IH|e IH|]; intros b; cbn [pow_mod_pos].
  - rewrite IH, Pos2Z.inj_xI, Z.pow_add_r, Z.pow_1_r, Z.pow_mul_r, Z.pow_2_r by lia.
    rewrite <- Zpower_mod by lia. rewrite Zmult_mod_idemp_r. f_equal. ring.
  - rewrite IH, (Pos2Z.inj_xO e), Z.pow_mul_r, Z.pow_2_r by lia. by rewrite <- Zpower_mod by lia.
  - by rewrite Z.pow_1_r.
Qed.

(** Coordinates that fit the 32 bytes of a serialized point. *)
Definition point_fits (p : Point) : Prop :=
  match p with None => True | Some (x, y) => fits 32 x end.

Lemma secp_p_bound : 0 < secp_p < 256 ^ 32.
Proof. by vm_compute. Qed.

Lemma mod_p_fits z : fits 32 (z mod secp_p).
Proof. pose proof secp_p_bound. pose proof (Z.mod_pos_bound z secp_p). unfold fits. change (Z.of_nat 32) with 32. lia. Qed.

Lemma point_add_fits p1 p2 : point_fits p1 → point_fits p2 → point_fits (point_add p1 p2).
Proof.
  intros H1 H2. destruct p1 as [[x1 y1]|]; [|done]. destruct p2 as [[x2 y2]|]; [|done].
  unfold point_add. destruct ((x1 =? x2) && _); [done|]. apply mod_p_fits.
Qed.

Lemma point_mul_loop_fits k i n p r : point_fits p → point_fits r → point_fits (point_mul_loop k i n p r).
Proof.
  revert i p r. induction k as [|k IH]; intros i p r Hp Hr; [done|]. cbn [point_mul_loop].
  apply IH; [by apply point_add_fits|]. case_match; [done|]. by apply point_add_fits.
Qed.

Lemma point_mul_fits p n : point_fits p → point_fits (point_mul p n).
Proof. intros Hp. exact (point_mul_loop_fits 256 0 n p None Hp I). Qed.

Arguments point_mul : simpl never.
#[local] Opaque point_mul.

Lemma G_fits : point_fits G.
Proof. by vm_compute. Qed.

(** A compressed point: 33 bytes that begin with 2 or 3. *)
Definition compressed (b : bytes) : Prop := length b = 33%nat ∧ (head b = Some (chr 2) ∨ head b = Some (chr 3)).

#[export] Instance compressed_dec b : Decision (compressed b).
Proof. unfold compressed. apply _. Defined.

Lemma point_to_bytes_fits p : point_fits p →
  match point_to_bytes p with
  | Ok b => p ≠ None ∧ compressed b
  | Err e => p = None ∧ e = ValueError
  end.
Proof.
  destruct p as [[x y]|]; [|done]. cbn [point_fits]. intros Hx. unfold point_to_bytes.
  rewrite to_bytes_be_fits by done. cbn [mbind result_bind]. split; [done|]. split.
  - rewrite length_app, length_be_bytes. by destruct (negb _).
  - destruct (negb _); [by right|by left].
Qed.

Lemma deserialize_compressed b : compressed b →
  ∃ p, bytes_to_point b = Ok p ∧ point_fits p ∧ p ≠ None.
Proof.
  intros [Hl Hh]. destruct b as [|b0 b]; [done|].
  assert (ord b0 ≠ 4) as H4 by (destruct Hh as [[= ->]|[= ->]]; done).
  unfold bytes_to_point, deserialize_point. change (nth_py (b0 :: b) 0) with (Ok b0). cbn [mbind result_bind].
  rewrite (proj2 (Z.eqb_neq _ _)) by done. eexists. split; [reflexivity|]. split; [|done].
  cbn [point_fits drop]. rewrite drop_0. unfold fits. pose proof (be_int_bound b) as Hb. unfold len in Hb.
  injection Hl as Hl. by rewrite Hl in Hb.
Qed.

(** A well-formed extended key: the sizes of BIP 32, and for a private key
    the public key that belongs to it. *)
Definition xkey_versions : list bytes := [MAINNET_PRIVATE; MAINNET_PUBLIC; TESTNET_PRIVATE; TESTNET_PUBLIC].
Definition xkey_wf (k : ExtendedKey) : Prop :=
  version k ∈ xkey_versions ∧ fits 1 (depth k) ∧ length (parent_fingerprint k) = 4%nat ∧
  fits 4 (child_num k) ∧ length (chaincode k) = 32%nat ∧
  match privkey k with
  | Some priv => is_private k = true ∧ length priv = 32%nat ∧
      point_to_bytes (point_mul G (be_int priv)) = Ok (pubkey k)
  | None => is_private k = false ∧ length (pubkey k) = 33%nat
  end.

#[export] Instance xkey_wf_dec k : Decision (xkey_wf k).
Proof. unfold xkey_wf. destruct (privkey k); apply _. Defined.

(** The fields of the serialized form. *)
Definition xkey_data (k : ExtendedKey) (tail : bytes) : bytes :=
  version k ++ [chr (depth k)] ++ parent_fingerprint k ++ be_bytes 4 (child_num k) ++ chaincode k ++ tail.

Lemma version_length k : version k ∈ xkey_versions → length (version k) = 4%nat.
Proof. intros H. repeat (apply elem_of_cons in H as [->|H]; [done|]). by apply not_elem_of_nil in H. Qed.

Lemma serialize_data k : xkey_wf k →
  ∃ tail, ExtendedKey_serialize k = Ok (xkey_data k tail) ∧ length tail = 33%nat ∧
    (if privkey k is Some priv then tail = chr 0 :: priv else tail = pubkey k).
Proof.
  intros (Hv & Hd & Hp & Hc & Hch & Hk). unfold ExtendedKey_serialize.
  rewrite pack_u_fits, pack_u_be_fits by done. cbn [mbind result_bind]. unfold xkey_data.
  destruct (privkey k) as [priv|].
  - destruct Hk as (-> & Hl & _). exists (chr 0 :: priv). rewrite <- !app_assoc. split; [done|].
    split; [simpl; lia|done].
  - destruct Hk as (-> & Hl). exists (pubkey k). by rewrite <- !app_assoc.
Qed.

Lemma from_bytes_data k tail : xkey_wf k → length tail = 33%nat →
  (if privkey k is Some priv then tail = chr 0 :: priv else tail = pubkey k) →
  ExtendedKey_from_bytes (xkey_data k tail) = Ok k.
Proof.
  intros (Hv & Hd & Hp & Hc & Hch & Hk) Hl Ht. pose proof (version_length k Hv) as Hlv.
  set (c := be_bytes 4 (child_num k)). assert (length c = 4%nat) as Hlc by apply length_be_bytes.
  assert (ord (chr (depth k)) = depth k) as Hod by (apply ord_chr_small; exact Hd).
  unfold ExtendedKey_from_bytes, xkey_data. fold c. rewrite take_app_exact by done.
  rewrite bool_decide_eq_true_2 by done. cbn [negb]. fold (is_private k).
  assert (nth_py (version k ++ [chr (depth k)] ++ parent_fingerprint k ++ c ++ chaincode k ++ tail) 4
    = Ok (chr (depth k))) as ->.
  { unfold nth_py. rewrite lookup_app_r by lia. by rewrite Hlv. }
  cbn [mbind result_bind]. rewrite Hod.
  assert (∀ t, slice 5 9 (version k ++ [chr (depth k)] ++ parent_fingerprint k ++ t) = parent_fingerprint k) as ->.
  { intros t. rewrite (app_assoc (version k)). apply slice_app_exact; rewrite !length_app; simpl; lia. }
  assert (∀ t, slice 9 13 (version k ++ [chr (depth k)] ++ parent_fingerprint k ++ c ++ t) = c) as ->.
  { intros t. rewrite (app_assoc _ (parent_fingerprint k)), (app_assoc (version k)).
    apply slice_app_exact; rewrite !length_app; simpl; lia. }
  assert (∀ t, slice 13 45 (version k ++ [chr (depth k)] ++ parent_fingerprint k ++ c ++ chaincode k ++ t)
    = chaincode k) as ->.
  { intros t. rewrite (app_assoc _ c), (app_assoc _ (_ ++ c)), (app_assoc (version k)).
    apply slice_app_exact; rewrite !length_app; simpl; lia. }
  assert (unpack_u_be 4 c = Ok (child_num k)) as -> by (apply unpack_pack_u_be, pack_u_be_fits, Hc).
  cbn [mbind result_bind].
  assert (drop 45 (version k ++ [chr (depth k)] ++ parent_fingerprint k ++ c ++ chaincode k ++ tail) = tail) as Htail.
  { rewrite (app_assoc _ (chaincode k)), (app_assoc _ (_ ++ chaincode k)), (app_assoc _ (_ ++ _ ++ chaincode k)),
      (app_assoc (version k)). apply drop_app_exact. rewrite !length_app. simpl. lia. }
  destruct k as [v d fp cn ch [priv|] pub]; cbn [version depth parent_fingerprint child_num chaincode privkey pubkey] in *.
  - destruct Hk as (-> & _ & Hpub). change 46%nat with (45 + 1)%nat. rewrite <- drop_drop, Htail, Ht.
    cbn [drop]. by rewrite drop_0, Hpub.
  - destruct Hk as (-> & _). unfold slice. rewrite Htail, Ht. by rewrite take_ge by (subst; lia).
Qed.

Lemma xkey_data_length k tail : xkey_wf k → length tail = 33%nat → length (xkey_data k tail) = 78%nat.
Proof.
  intros (Hv & _ & Hp & _ & Hch & _) Hl. apply version_length in Hv.
  unfold xkey_data. rewrite !length_app, length_be_bytes, Hv, Hp, Hch, Hl. done.
Qed.

(** The public key at the end of a key string. *)
Lemma slice_end {A} (l1 l2 : list A) (c : list A) n m :
  length l2 = n → length c = m →
  slice (length (l1 ++ l2 ++ c) - (n + m)) (length (l1 ++ l2 ++ c) - m) (l1 ++ l2 ++ c) = l2.
Proof. intros <- <-. apply slice_app_exact; rewrite !length_app; lia. Qed.

Section xkey_laws.
Context `{Hashes} `{HmacSha512}.

(** The last steps of [derive_pub], from the child's point. *)
Definition derive_child (i : Z) (k : ExtendedKey) (mac : bytes) (q : Point) : result ExtendedKey :=
  child ← point_to_bytes q;
  Ok {| version := if is_testnet k then TESTNET_PUBLIC else MAINNET_PUBLIC;
        depth := depth k + 1; parent_fingerprint := take 4 (hash160 (pubkey k));
        child_num := i; chaincode := drop 32 mac; privkey := None; pubkey := child |}.

Lemma derive_pub_eq i k parent :
  is_hardened i = false → fits 4 i → bytes_to_point (pubkey k) = Ok parent →
  let mac := hmac_sha512 (chaincode k) (pubkey k ++ be_bytes 4 i) in
  derive_pub i k = derive_child i k mac (point_add (point_mul G (be_int (take 32 mac))) parent).
Proof.
  intros Eh Hi Hpar. cbv zeta. unfold derive_pub. rewrite Eh, pack_u_be_fits, Hpar, bind_Ok by done.
  cbv zeta. pose proof (hmac_sha512_length (chaincode k) (pubkey k ++ be_bytes 4 i)) as Hm.
  revert Hm. generalize (hmac_sha512 (chaincode k) (pubkey k ++ be_bytes 4 i)). intros mac Hm.
  assert (int_of_bytes (take 32 mac) = Ok (be_int (take 32 mac))) as ->; [|by rewrite !bind_Ok].
  unfold int_of_bytes. rewrite int_hex_hexlify. destruct mac; [done|reflexivity].
Qed.

Lemma derive_child_cases i k mac q : point_fits q → length mac = 64%nat →
  match derive_child i k mac q with
  | Ok c => compressed (pubkey c) ∧ length (chaincode c) = 32%nat ∧
      depth c = depth k + 1 ∧ child_num c = i ∧ privkey c = None ∧
      parent_fingerprint c = take 4 (hash160 (pubkey k)) ∧
      version c = (if is_testnet k then TESTNET_PUBLIC else MAINNET_PUBLIC)
  | Err e => q = None ∧ e = ValueError
  end.
Proof.
  intros Hq Hm. unfold derive_child. apply point_to_bytes_fits in Hq.
  destruct (point_to_bytes q) as [child|e]; cbn [mbind result_bind]; [|done].
  destruct Hq as [_ Hc]. cbn [pubkey chaincode depth child_num privkey parent_fingerprint version].
  rewrite length_drop. split_and!; try done. lia.
Qed.

Lemma derive_pub_path_app p q k :
  derive_pub_path (p ++ q) k = (k' ← derive_pub_path p k; derive_pub_path q k').
Proof.
  revert k. induction p as [|i p IH]; intros k; [done|]. cbn [app derive_pub_path].
  destruct (derive_pub i k) as [c|e]; cbn; [apply IH|done].
Qed.

(** One derivation: what the child inherits. *)
Lemma derive_pub_ok i k c : compressed (pubkey k) → derive_pub i k = Ok c →
  is_hardened i = false ∧ fits 4 i ∧ compressed (pubkey c) ∧ length (chaincode c) = 32%nat ∧
  depth c = depth k + 1 ∧ child_num c = i ∧ privkey c = None ∧
  parent_fingerprint c = take 4 (hash160 (pubkey k)) ∧
  version c = (if is_testnet k then TESTNET_PUBLIC else MAINNET_PUBLIC).
Proof.
  intros Hk Hd. destruct (is_hardened i) eqn:Eh; [by unfold derive_pub in Hd; rewrite Eh in Hd|].
  destruct (decide (fits 4 i)) as [Hi|Hi]; cycle 1.
  { exfalso. apply Hi. unfold derive_pub in Hd. rewrite Eh in Hd. apply bind_ok in Hd as (n & Hn & _).
    unfold pack_u_be in Hn. destruct (_ && _) eqn:E; [|done]. bools. by split. }
  destruct (deserialize_compressed _ Hk) as (parent & Hpar & Hfit & _).
  rewrite (derive_pub_eq _ _ parent) in Hd by done.
  pose proof (hmac_sha512_length (chaincode k) (pubkey k ++ be_bytes 4 i)) as Hm.
  cbv zeta in Hd. revert Hm Hd. generalize (hmac_sha512 (chaincode k) (pubkey k ++ be_bytes 4 i)). intros mac Hm.
  pose proof (point_mul_fits G (be_int (take 32 mac)) G_fits) as Hg. revert Hg.
  generalize (point_mul G (be_int (take 32 mac))). intros r Hg Hd.
  pose proof (derive_child_cases i k mac (point_add r parent) (point_add_fits _ _ Hg Hfit) Hm) as Hc.
  rewrite Hd in Hc. tauto.
Qed.
End xkey_laws.

(** * Properties *)

(** An extended key survives its serialization: [from_bytes] reads back the 78 bytes of
    [serialize], and [deserialize] the string of [to_string], for public keys and for private keys
    (whose public key is recomputed); the string functions of [_base58] find the parent fingerprint
    and the public key in that string. *)
Theorem xkey_roundtrip `{Hashes} (k : ExtendedKey) (Hk : xkey_wf k) :
  ∃ data s, ExtendedKey_serialize k = Ok data ∧ length data = 78%nat ∧ ExtendedKey_from_bytes data = Ok k ∧
    ExtendedKey_to_string k = Ok s ∧ ExtendedKey_deserialize s = Ok k ∧
    Base58.decode_check s = Ok data ∧
    get_xpub_fingerprint s = Ok (parent_fingerprint k) ∧
    (is_private k = false → xpub_to_pub_hex s = Ok (hexlify (pubkey k)) ∧
      xpub_to_xonly_pub_hex s = Ok (hexlify (drop 1 (pubkey k)))).
Proof.
  destruct (serialize_data k Hk) as (tail & Hs & Hl & Ht). set (data := xkey_data k tail) in *.
  assert (ExtendedKey_from_bytes data = Ok k) as Hf by (by apply from_bytes_data).
  set (c := take 4 (hash256 data)). assert (length c = 4%nat) as Hc by apply checksum_length.
  exists data, (Base58.encode (data ++ c)). unfold ExtendedKey_to_string, ExtendedKey_deserialize.
  rewrite Hs. split; [done|]. split; [by apply xkey_data_length|]. split; [done|]. split; [done|].
  split; [|split; [apply decode_check_encode_check|split]].
  - rewrite decode_encode_ok. cbn [mbind result_bind]. by rewrite slice_to_neg_exact.
  - unfold get_xpub_fingerprint. rewrite decode_encode_ok. cbn [mbind result_bind]. f_equal.
    destruct Hk as (Hv & _ & Hp & _). apply version_length in Hv.
    replace (data ++ c) with ((version k ++ [chr (depth k)]) ++ parent_fingerprint k ++
      (be_bytes 4 (child_num k) ++ chaincode k ++ tail ++ c)) by (unfold data, xkey_data; by rewrite <- !app_assoc).
    apply slice_app_exact; rewrite !length_app; simpl; lia.
  - intros Hpub. destruct Hk as (_ & _ & _ & _ & _ & Hk).
    destruct (privkey k) as [priv|]; [destruct Hk; congruence|]. destruct Hk as (_ & Hlp). subst tail.
    unfold xpub_to_pub_hex, xpub_to_xonly_pub_hex. rewrite decode_encode_ok. cbn [mbind result_bind].
    assert (∃ pre, data = pre ++ pubkey k) as (pre & ->).
    { eexists. unfold data, xkey_data. rewrite !app_assoc. reflexivity. }
    split; f_equal; f_equal.
    + rewrite <- app_assoc. by apply (slice_end _ _ c 33 4).
    + destruct (pubkey k) as [|b0 pk]; [done|]. cbn [drop]. rewrite drop_0.
      replace ((pre ++ b0 :: pk) ++ c) with ((pre ++ [b0]) ++ pk ++ c) by (by rewrite <- !app_assoc).
      apply (slice_end _ _ c 32 4); [|done]. simpl in Hlp. lia.
Qed.

Definition example_xpub : ExtendedKey :=
  {| version := TESTNET_PUBLIC; depth := 3; parent_fingerprint := map chr [1; 2; 3; 4]; child_num := H_ 0;
     chaincode := replicate 32 (chr 7); privkey := None; pubkey := chr 2 :: replicate 32 (chr 9) |}.

Lemma xkey_roundtrip_witness :
  ∃ data s, ExtendedKey_serialize example_xpub = Ok data ∧ length data = 78%nat ∧
    ExtendedKey_from_bytes data = Ok example_xpub ∧
    ExtendedKey_to_string (H := executable_hashes) example_xpub = Ok s ∧
    ExtendedKey_deserialize s = Ok example_xpub.
Proof.
  destruct (xkey_roundtrip (H := executable_hashes) example_xpub) as (data & s & H1 & H2 & H3 & H4 & H5 & _).
  - apply (bool_decide_unpack _). vm_compute. exact I.
  - exists data, s. split_and!; assumption.
Defined.

Lemma unhardened_range i : is_hardened i = false → fits 4 i → 0 <= i < 2 ^ 31.
Proof. intros E Hi. rewrite <- (unhardened_id i E). apply unhardened_small. exact Hi. Qed.

Section derive_path_laws.
Context `{Hashes} `{HmacSha512}.

Lemma derive_pub_wf i k c : xkey_wf k → compressed (pubkey k) → depth k < 255 → derive_pub i k = Ok c →
  xkey_wf c ∧ compressed (pubkey c) ∧ is_testnet c = is_testnet k ∧ depth c = depth k + 1 ∧
  child_num c = i ∧ privkey c = None ∧ 0 <= i < 2 ^ 31.
Proof.
  intros (_ & Hd & _) Hk Hlt Hc. apply (derive_pub_ok i k c Hk) in Hc as (Eh & Hi & Hp & Hch & Edep & Ecn & Epriv & Efp & Ev).
  pose proof (unhardened_range _ Eh Hi) as Hr. destruct Hp as [Hp1 Hp2].
  assert (is_testnet c = is_testnet k) as Et by (unfold is_testnet at 1; rewrite Ev; by destruct (is_testnet k)).
  split; [|split_and!; done || lia]. unfold xkey_wf. rewrite Epriv, Edep, Ecn, Efp. unfold fits in *. split_and!; try done; try lia.
  - rewrite Ev. unfold xkey_versions. destruct (is_testnet k); set_solver.
  - rewrite length_take, hash160_length. lia.
  - unfold is_private. rewrite Ev. by destruct (is_testnet k).
Qed.

Lemma derive_pub_path_wf p k c :
  xkey_wf k → compressed (pubkey k) → depth k + len p <= 255 → derive_pub_path p k = Ok c → p ≠ [] →
  xkey_wf c ∧ compressed (pubkey c) ∧ is_testnet c = is_testnet k ∧ depth c = depth k + len p ∧
  Some (child_num c) = last p ∧ privkey c = None ∧ Forall (λ i, 0 <= i < 2 ^ 31) p.
Proof.
  revert k. induction p as [|i p IH]; intros k Hk Hpk Hd Hc Hne; [done|]. clear Hne.
  rewrite len_cons in Hd. pose proof (len_nonneg p). cbn [derive_pub_path] in Hc.
  apply bind_ok in Hc as (k1 & E1 & Hc).
  apply derive_pub_wf in E1 as (Hk1 & Hpk1 & Et & Ed & En & Ep & Hi); [|done|done|lia].
  rewrite len_cons. destruct p as [|j p].
  - injection Hc as <-. change (len (@nil Z)) with 0.
    do 3 (split; [done|]). split; [rewrite Ed; lia|]. split; [by rewrite En|]. split; [done|by constructor].
  - destruct (IH k1) as (Hw & Hp & Et' & Ed' & El & Epr & Hf); [done|done|lia|done|done|].
    split_and!; try done; [congruence|lia|]. by constructor.
Qed.
End derive_path_laws.

(** Public derivation along a path goes step by step, and from a well-formed key it only ever
    gives well-formed public keys on the same network, as deep as the path is long, numbered by its
    last index; a path with a hardened index, or with one outside 31 bits, gives no key. *)
Theorem derive_pub_path_correct `{Hashes} `{HmacSha512} (k : ExtendedKey) (p q : list Z)
    (Hk : xkey_wf k) (Hpub : compressed (pubkey k)) (Hd : depth k + len p <= 255) :
  derive_pub_path (p ++ q) k = (k' ← derive_pub_path p k; derive_pub_path q k') ∧
  (¬ Forall (λ i, 0 <= i < 2 ^ 31) p → is_ok (derive_pub_path p k) = false) ∧
  (∀ c, derive_pub_path p k = Ok c → p ≠ [] →
    xkey_wf c ∧ is_private c = false ∧ is_testnet c = is_testnet k ∧ compressed (pubkey c) ∧
    depth c = depth k + len p ∧ Some (child_num c) = last p).
Proof.
  split; [apply derive_pub_path_app|]. split.
  - intros Hf. destruct (derive_pub_path p k) as [c|e] eqn:E; [|done]. exfalso. apply Hf.
    destruct p as [|i p]; [constructor|].
    by apply derive_pub_path_wf in E as (_ & _ & _ & _ & _ & _ & ?).
  - intros c E Hne. apply derive_pub_path_wf in E as (Hw & Hp & Et & Ed & El & Epr & _); [|done..].
    pose proof Hw as (_ & _ & _ & _ & _ & Hpr). rewrite Epr in Hpr. tauto.
Qed.

(** A stand-in for the HMAC, built on the executable SHA-256. *)
#[export] Instance executable_hmac : HmacSha512 | 100.
Proof.
  refine {| hmac_sha512 k d := sha256_fips (k ++ d) ++ sha256_fips (d ++ k) |}.
  intros k d. rewrite length_app, !sha256_fips_length. done.
Defined.

Lemma derive_pub_path_correct_witness :
  xkey_wf example_xpub ∧
  is_ok (derive_pub_path (H := executable_hashes) (H0 := executable_hmac) [0; H_ 1] example_xpub) = false.
Proof.
  assert (xkey_wf example_xpub) as Hw by (apply (bool_decide_unpack _); vm_compute; exact I).
  split; [exact Hw|].
  refine (proj1 (proj2 (derive_pub_path_correct (H := executable_hashes) (H0 := executable_hmac)
    example_xpub [0; H_ 1] [] Hw _ _)) _).
  - apply (bool_decide_unpack _). vm_compute. exact I.
  - vm_compute. discriminate.
  - intros Hf. apply Forall_cons_1 in Hf as [_ Hf]. apply Forall_cons_1 in Hf as [[_ Hf] _]. vm_compute in Hf. discriminate.
Defined.

(** ** Where the code departs from its documentation *)

(** An uncompressed point is never read: the slice for the second coordinate
    is taken from the first one, so it is always empty. *)
Theorem uncompressed_point_refused (b : bytes) : head b = Some (chr 4) → bytes_to_point b = Err ValueError.
Proof.
  destruct b as [|b0 b]; [done|]. intros [= ->]. unfold bytes_to_point.
  change (nth_py (chr 4 :: b) 0) with (Ok (chr 4)). rewrite bind_Ok. change (ord (chr 4) =? 4) with true. cbv zeta iota.
  assert (slice 33 65 (slice 1 33 (chr 4 :: b)) = []) as ->.
  { unfold slice. rewrite drop_ge; [done|]. rewrite length_take. lia. }
  unfold int_of_bytes at 1. by destruct (slice 1 33 (chr 4 :: b)).
Qed.

(** [ExtendedKey.deserialize] does not look at the Base58Check checksum. *)
Theorem xpub_checksum_ignored (data c1 c2 : bytes) : length c1 = 4%nat → length c2 = 4%nat →
  ExtendedKey_deserialize (Base58.encode (data ++ c1)) = ExtendedKey_deserialize (Base58.encode (data ++ c2)).
Proof.
  intros H1 H2. unfold ExtendedKey_deserialize. rewrite !decode_encode_ok, !bind_Ok.
  by rewrite !slice_to_neg_exact.
Qed.

(** [pow] as [pow_mod] computes it. *)
Lemma pow_mod_spec b e m : 0 < m → 0 < e → pow_mod b e m = b ^ e mod m.
Proof. intros Hm He. destruct e; try lia. by apply pow_mod_pos_spec. Qed.
