(* ===== verification/PsbtMap.v ===== *)
(** * [hwilib/psbt.py], the key-value maps

    The read loop that the input, output and global maps share, the values
    that occur in more than one map (BIP 32 keypaths, Taproot keypaths, MuSig2
    participants), and the laws of the loop: what one serialized entry does to
    the state ([steps]), and how the sections of a serialized map follow each
    other ([runs]). *)

From S2P Require Import Prelude Bytes Safe PyStd PyStr Common Serialize KeyPath.

(** ** Record updates *)

(** [setter f] defines the function that replaces field [f]: the record's eta
    expansion with the projection abstracted. *)
Ltac setter eta proj :=
  let v := fresh "v" in let r := fresh "r" in intros v r;
  let e := eval cbv beta delta [eta] in (eta r) in
  match eval pattern (proj r) in e with ?g _ => let t := eval cbv beta in (g v) in exact t end.

(** ** Checks *)

(** [if b: raise PSBTSerializationError(...)]. *)
Definition check (b : bool) : reader () := lift (raise_if b PSBTSerializationError).

(** The checks of a key that stands for one value: not seen, one byte. *)
Definition single_key (key : bytes) (lookup : gset bytes) : reader () :=
  check (bool_decide (key ∈ lookup));;
  check (negb (len key =? 1)).

(** ** The read loop *)

Section read_map.
Context {St : Type} (entry : bytes → Z → gset bytes → St → reader St).

(** One round; [key_lookup] is the second component of the state. *)
Definition map_body (st : St * gset bytes) : reader ((St * gset bytes) + (St * gset bytes)) := λ s,
  match deser_string s with
  | (Err _, s') => (Ok (inr st), s')   (* except Exception: break *)
  | (Ok key, s') =>
      if len key =? 0 then (Ok (inr st), s')
      else
        (key_type ← lift (deser_compact_size key).1;
         st' ← entry key key_type st.2 st.1;
         mret (inl (st', {[key]} ∪ st.2))) s'
  end.

(** A round that goes on reads a key, so the stream's length is fuel enough. *)
Definition read_map (init : St) : reader St := λ s,
  match loop (S (length s)) map_body (init, ∅) s with
  | (Ok (st, _), s') => (Ok st, s')
  | (Err e, s') => (Err e, s')
  end.
End read_map.

(** ** BIP 32 keypaths *)

Definition DeserializeHDKeypath (key : bytes) (hd_keypaths : pydict bytes KeyOriginInfo)
    (expected_sizes : list Z) : reader (pydict bytes KeyOriginInfo) :=
  check (negb (bool_decide (len key ∈ expected_sizes)));;
  let pubkey := drop 1 key in
  check (dict_in pubkey hd_keypaths);;
  v ← deser_string;
  o ← lift (KeyOriginInfo_deserialize v);
  mret (dict_set pubkey o hd_keypaths).

(** [ser_string(key) + ser_string(value)]. *)
Definition ser_kv (key value : bytes) : result bytes :=
  k ← ser_string key;
  v ← ser_string value;
  Ok (k ++ v).

(** [ser_string(ser_compact_size(t) + keydata) + ser_string(value)]. *)
Definition ser_field (t : Z) (keydata value : bytes) : result bytes :=
  c ← ser_compact_size t;
  ser_kv (c ++ keydata) value.

(** The fields of a list of items, in their order. *)
Definition ser_items {A} (f : A → result bytes) (l : list A) : result bytes :=
  bs ← mapR f l;
  Ok (concat bs).

Definition SerializeHDKeypath (hd_keypaths : pydict bytes KeyOriginInfo) (type : Z) : result bytes :=
  ser_items (λ '(pubkey, path),
    c ← ser_compact_size type;
    k ← ser_string (c ++ pubkey);
    packed ← KeyOriginInfo_serialize path;
    v ← ser_string packed;
    Ok (k ++ v)) (sorted_items hd_keypaths).

(** ** Taproot keypaths: leaf hashes and an origin *)

Definition read_tap_path : reader (gset bytes * KeyOriginInfo) :=
  num_hashes ← deser_compact_size;
  leaf_hashes ← replicateR (Z.to_nat num_hashes) (read 32);
  rest ← read_all;
  origin ← lift (KeyOriginInfo_deserialize rest);
  mret (list_to_set leaf_hashes, origin).

Section tap.
Context `{SetOrder}.

Definition ser_tap_path (p : gset bytes * KeyOriginInfo) : result bytes :=
  n ← ser_compact_size (len (set_iter p.1));
  o ← KeyOriginInfo_serialize p.2;
  Ok (n ++ concat (set_iter p.1) ++ o).
End tap.

(** ** MuSig2 participants: compressed keys one behind the other *)

Fixpoint chunks33 (fuel : nat) (s : bytes) : list bytes :=
  match fuel, s with
  | S fuel, _ :: _ => take 33 s :: chunks33 fuel (drop 33 s)
  | _, _ => []
  end.

(** [[s[i:i+33] for i in range(0, len(s), 33)]], after the checks. *)
Definition musig2_pubkeys (pubkeys_cat : bytes) : reader (list bytes) :=
  check (len pubkeys_cat =? 0);;
  check (negb (len pubkeys_cat mod 33 =? 0));;
  mret (chunks33 (length pubkeys_cat) pubkeys_cat).

(** [if c: r += b]. *)
Definition ser_when (c : bool) (b : result bytes) : result bytes := if c then b else Ok [].

Definition ser_opt {A} (o : option A) (f : A → result bytes) : result bytes :=
  match o with Some a => f a | None => Ok [] end.

(** * Laws *)

Lemma small_short {A} (l : list A) : (length l <= 1000)%nat → small l.
Proof. unfold small, len, maxsize. lia. Qed.

(** ** The loop *)

Section steps.
Context {St : Type} (entry : bytes → Z → gset bytes → St → reader St).
Notation body := (map_body entry).

(** Reading [bs] takes the loop from one state to another. *)
Definition steps (st : St * gset bytes) (bs : bytes) (st' : St * gset bytes) : Prop :=
  ∃ n, (n <= length bs)%nat ∧
    ∀ fuel rest, loop (n + fuel) body st (bs ++ rest) = loop fuel body st' rest.

Lemma steps_nil st : steps st [] st.
Proof. exists O. split; [done|]. by intros. Qed.

Lemma steps_app st1 b1 st2 b2 st3 : steps st1 b1 st2 → steps st2 b2 st3 → steps st1 (b1 ++ b2) st3.
Proof.
  intros (n1 & L1 & H1) (n2 & L2 & H2). exists (n1 + n2)%nat. split; [rewrite length_app; lia|].
  intros fuel rest. by rewrite <- app_assoc, <- Nat.add_assoc, H1, H2.
Qed.

(** One entry: the key in front of what [entry] reads. *)
Lemma steps_entry st lookup key t kb vb st' :
  key ≠ [] → small key → ser_string key = Ok kb → (deser_compact_size key).1 = Ok t →
  reads (entry key t lookup st) vb st' →
  steps (st, lookup) (kb ++ vb) (st', {[key]} ∪ lookup).
Proof.
  intros Hne Hs Hk Ht Hv. exists 1%nat. split.
  { unfold ser_string in Hk. apply bind_ok in Hk as (n & _ & Hk). injection Hk as <-.
    rewrite !length_app. destruct key; [done|]. simpl. lia. }
  intros fuel rest. change (1 + fuel)%nat with (S fuel). cbn [loop].
  rewrite (reader_bind_eval _ _ _ (inl (st', {[key]} ∪ lookup)) rest); [done|]. unfold map_body.
  assert (deser_string ((kb ++ vb) ++ rest) = (Ok key, vb ++ rest)) as ->.
  { rewrite <- app_assoc. by apply (codec_reads (ser := ser_string)). }
  rewrite (proj2 (Z.eqb_neq _ _)) by (intros E%len_nil_inv; done). rewrite Ht.
  assert (reads (key_type ← lift (Ok t); st'0 ← entry key key_type lookup st;
    mret (inl (B := St * gset bytes) (st'0, {[key]} ∪ lookup))) vb (inl (st', {[key]} ∪ lookup))) as Hr; [|apply Hr].
  eapply reads_bind_nil; [by apply reads_lift|]. eapply reads_bind_end; [exact Hv|]. apply reads_ret.
Qed.

(** The separator ends the map. *)
Lemma read_map_steps init bs st lookup :
  steps (init, ∅) bs (st, lookup) → reads (read_map entry init) (bs ++ [chr 0]) st.
Proof.
  intros (n & Hn & Hl) rest. unfold read_map. rewrite <- app_assoc.
  replace (S (length (bs ++ [chr 0] ++ rest))) with (n + S (length (bs ++ [chr 0] ++ rest) - n))%nat
    by (rewrite length_app; lia).
  rewrite Hl. cbn [loop].
  rewrite (reader_bind_eval _ _ _ (inr (st, lookup)) rest); [done|].
  unfold map_body. assert (deser_string ([chr 0] ++ rest) = (Ok [], rest)) as ->; [|done].
  apply (codec_reads (ser := ser_string)); [|vm_compute; reflexivity]. by vm_compute.
Qed.

(** *** Sections: the entries of one key type *)

(** No key of the types [ts] has been seen. *)
Definition unseen (ts : list Z) (lookup : gset bytes) : Prop :=
  ∀ t k, t ∈ ts → chr t :: k ∉ lookup.

(** One-byte types, each once. *)
Definition types_ok (ts : list Z) : Prop := Forall (λ t, 0 <= t < 253) ts ∧ NoDup ts.

Lemma unseen_empty ts : unseen ts ∅.
Proof. intros t k _. set_solver. Qed.

Lemma unseen_tail t ts lookup : unseen (t :: ts) lookup → unseen ts lookup.
Proof. intros H t' k Ht. apply H. by right. Qed.

Lemma unseen_insert t ts k lookup :
  types_ok (t :: ts) → unseen ts lookup → unseen ts ({[chr t :: k]} ∪ lookup).
Proof.
  intros [Hr Hn] H t' k' Ht. apply NoDup_cons in Hn as [Hn _]. rewrite elem_of_union, elem_of_singleton.
  intros [[= E _]|Hk]; [|by eapply H]. apply Hn.
  apply Forall_cons_1 in Hr as [Hr1 Hr2]. rewrite Forall_forall in Hr2. specialize (Hr2 t' Ht).
  apply (f_equal ord) in E. rewrite !ord_chr_small in E by lia. by rewrite <- E.
Qed.

(** From a state in which no key of [ts] was seen, [bs] leads to [st']. *)
Definition runs (ts : list Z) (st : St) (bs : bytes) (st' : St) : Prop :=
  types_ok ts → ∀ lookup, unseen ts lookup → ∃ lookup', steps (st, lookup) bs (st', lookup').

(** The entries of type [t] lead to [st'], and see keys of no other type. *)
Definition section_of (t : Z) (st : St) (bs : bytes) (st' : St) : Prop :=
  ∀ ts, types_ok (t :: ts) → ∀ lookup, unseen (t :: ts) lookup →
    ∃ lookup', steps (st, lookup) bs (st', lookup') ∧ unseen ts lookup'.

Lemma runs_nil st : runs [] st [] st.
Proof. intros _ lookup _. exists lookup. apply steps_nil. Qed.

Lemma runs_cons t ts st b1 st1 b2 st2 :
  section_of t st b1 st1 → runs ts st1 b2 st2 → runs (t :: ts) st (b1 ++ b2) st2.
Proof.
  intros Hs Hr Hts lookup Hu. destruct (Hs ts Hts lookup Hu) as (l1 & S1 & U1).
  destruct Hts as [Hf Hn]. apply Forall_cons_1 in Hf as [_ Hf]. apply NoDup_cons in Hn as [_ Hn].
  destruct (Hr (conj Hf Hn) l1 U1) as (l2 & S2). exists l2. by eapply steps_app.
Qed.

Lemma section_none t st : section_of t st [] st.
Proof. intros ts _ lookup Hu. exists lookup. split; [apply steps_nil|by eapply unseen_tail]. Qed.

(** Types that do not occur can be skipped. *)
Lemma runs_skip ts' ts st b st' : runs ts st b st' → runs (ts' ++ ts) st b st'.
Proof.
  intros Hr. induction ts' as [|t ts' IH]; [exact Hr|]. change b with ([] ++ b).
  eapply runs_cons; [apply section_none|exact IH].
Qed.

Lemma runs_read ts init bs st :
  types_ok ts → runs ts init bs st → reads (read_map entry init) (bs ++ [chr 0]) st.
Proof.
  intros Hts Hr. destruct (Hr Hts ∅ (unseen_empty ts)) as (lookup & Hs). by eapply read_map_steps.
Qed.

Lemma key_type_chr t k : 0 <= t < 253 → deser_compact_size (chr t :: k) = (Ok t, k).
Proof.
  intros Ht. change (chr t :: k) with ([chr t] ++ k). apply reads_compact_size.
  unfold ser_compact_size. rewrite (proj2 (Z.ltb_lt t 253)) by lia.
  rewrite pack_u_fits by (unfold fits; change (256 ^ Z.of_nat 1) with 256; lia). done.
Qed.

(** The bytes of one field. *)
Lemma ser_field_ok t kd v : 0 <= t < 253 → small (chr t :: kd) → small v →
  ∃ kb vb, ser_field t kd v = Ok (kb ++ vb) ∧ ser_string (chr t :: kd) = Ok kb ∧ ser_string v = Ok vb ∧
    reads deser_string vb v.
Proof.
  intros Ht Hk Hv. destruct (codec_total (ser := ser_string) _ Hk) as (kb & Ek).
  destruct (codec_total (ser := ser_string) _ Hv) as (vb & Ev). exists kb, vb.
  split; [|split; [done|split; [done|by apply (codec_reads (ser := ser_string))]]].
  unfold ser_field. assert (ser_compact_size t = Ok [chr t]) as ->.
  { unfold ser_compact_size. rewrite (proj2 (Z.ltb_lt t 253)) by lia.
    rewrite pack_u_fits by (unfold fits; change (256 ^ Z.of_nat 1) with 256; lia). done. }
  rewrite bind_Ok. unfold ser_kv. change ([chr t] ++ kd) with (chr t :: kd). by rewrite Ek, bind_Ok, Ev.
Qed.

(** [entry] accepts the value [v] under the key of type [t] with [kd]. *)
Definition accepts (t : Z) (kd v : bytes) (st st' : St) : Prop :=
  ∀ lookup vb, chr t :: kd ∉ lookup → reads deser_string vb v →
    reads (entry (chr t :: kd) t lookup st) vb st'.

Lemma steps_field t kd v st st' lookup b :
  0 <= t < 253 → small (chr t :: kd) → small v → ser_field t kd v = Ok b →
  accepts t kd v st st' → chr t :: kd ∉ lookup →
  steps (st, lookup) b (st', {[chr t :: kd]} ∪ lookup).
Proof.
  intros Ht Hk Hv Hb Ha Hl. destruct (ser_field_ok t kd v Ht Hk Hv) as (kb & vb & E & Ek & Ev & Hr).
  rewrite Hb in E. injection E as ->. eapply (steps_entry _ _ _ t); [done|done|done| |].
  - by rewrite key_type_chr.
  - by apply Ha.
Qed.

(** A section with at most one field. *)
Lemma section_when t (c : bool) v st st' :
  0 <= t < 253 → (c = true → small v ∧ accepts t [] v st st') → (c = false → st' = st) →
  ∃ b, ser_when c (ser_field t [] v) = Ok b ∧ section_of t st b st'.
Proof.
  intros Ht Hc Hn. destruct c; cbn [ser_when].
  - destruct (Hc eq_refl) as [Hv Ha].
    destruct (ser_field_ok t [] v Ht (small_short [chr t] ltac:(cbn [length]; lia)) Hv) as (kb & vb & E & _).
    eexists. split; [exact E|]. intros ts Hts lookup Hu. eexists. split.
    + apply (steps_field t [] v); [done|apply small_short; cbn [length]; lia|done..|]. apply Hu. left.
    + apply unseen_insert; [done|]. by eapply unseen_tail.
  - exists []. split; [done|]. rewrite Hn by done. apply section_none.
Qed.

Lemma ser_items_total {A} (f : A → result bytes) l :
  Forall (λ x, ∃ b, f x = Ok b) l → ∃ b, ser_items f l = Ok b.
Proof.
  unfold ser_items. intros H. assert (∃ bs, mapR f l = Ok bs) as (bs & ->); [|by eexists].
  induction H as [|x l (b & E) _ (bs & IH)]; [by exists []|]. cbn [mapR]. rewrite E, bind_Ok, IH. by eexists.
Qed.

(** A section with a field for each item of a list. *)
Lemma section_items {A} t (kd : A → bytes) (f : A → result bytes) (val : A → bytes) (upd : St → A → St)
    (l : list A) st :
  0 <= t < 253 → NoDup (map kd l) →
  Forall (λ x, small (chr t :: kd x) ∧ small (val x) ∧ f x = ser_field t (kd x) (val x)) l →
  (∀ pre x post, l = pre ++ x :: post → accepts t (kd x) (val x) (foldl upd st pre) (foldl upd st (pre ++ [x]))) →
  ∃ b, ser_items f l = Ok b ∧ section_of t st b (foldl upd st l).
Proof.
  intros Ht Hn Hf Ha.
  assert (∃ b, ser_items f l = Ok b) as (b & Hb).
  { apply ser_items_total. eapply Forall_impl; [exact Hf|]. intros x (Hk & Hv & ->).
    destruct (ser_field_ok t (kd x) (val x) Ht Hk Hv) as (kb & vb & E & _). by eexists. }
  exists b. split; [done|]. intros ts Hts. unfold ser_items in Hb. apply bind_ok in Hb as (bs & Hb & E). injection E as <-.
  assert (∀ pre lookup, (∀ x, x ∈ l → chr t :: kd x ∉ lookup) → unseen ts lookup →
    (∀ pre' x post, l = pre' ++ x :: post →
       accepts t (kd x) (val x) (foldl upd st (pre ++ pre')) (foldl upd st (pre ++ pre' ++ [x]))) →
    ∃ lookup', steps (foldl upd st pre, lookup) (concat bs) (foldl upd st (pre ++ l), lookup') ∧ unseen ts lookup') as Hgen.
  { clear Ha. revert bs Hb. induction l as [|x l IH]; intros bs Hb pre lookup Hl Hu Ha.
    - injection Hb as <-. rewrite app_nil_r. exists lookup. split; [apply steps_nil|done].
    - cbn [mapR] in Hb. apply bind_ok in Hb as (b1 & Eb1 & Hb). apply bind_ok in Hb as (bs' & Ebs & E).
      injection E as <-. apply Forall_cons_1 in Hf as [(Hk & Hv & Hfx) Hf].
      cbn [map] in Hn. apply NoDup_cons in Hn as [Hx Hn].
      assert (steps (foldl upd st pre, lookup) b1 (foldl upd st (pre ++ [x]), {[chr t :: kd x]} ∪ lookup)) as S1.
      { eapply steps_field; [done|exact Hk|exact Hv|congruence| |apply Hl; left].
        specialize (Ha [] x l eq_refl). by rewrite app_nil_r in Ha. }
      destruct (IH Hn Hf bs' Ebs (pre ++ [x]) ({[chr t :: kd x]} ∪ lookup)) as (l' & S2 & U2).
      + intros y Hy. rewrite elem_of_union, elem_of_singleton. intros [[= E]|H]; [|by eapply Hl; [right|]].
        apply Hx. rewrite <- E. by apply list_elem_of_fmap_2.
      + by apply unseen_insert.
      + intros pre' y post ->. specialize (Ha (x :: pre') y post eq_refl). by rewrite <- !app_assoc.
      + exists l'. split; [|done]. cbn [concat]. rewrite <- app_assoc in S2. by eapply steps_app. }
  intros lookup Hu. apply (Hgen []); [|by eapply unseen_tail|exact Ha].
  intros x Hx. apply Hu. left.
Qed.
End steps.

(** ** Fields of a record *)

(** A field that can be read and replaced. *)
Record lens (St D : Type) := {
  lget : St → D;
  lset : D → St → St;
  lget_lset d st : lget (lset d st) = d;
  lset_lset d d' st : lset d (lset d' st) = lset d st;
  lset_lget st : lset (lget st) st = st;
}.
Arguments lget {St D} l st.
Arguments lset {St D} l d st.

Ltac lens_laws := first [done | by intros | by intros ?? [] | by intros [] | by intros ? []].

(** [L[k] = v] for every item, into an empty dictionary. *)
Definition upd_item {St K V} `{EqDecision K} (L : lens St (pydict K V)) (st : St) (kv : K * V) : St :=
  lset L (dict_set kv.1 kv.2 (lget L st)) st.

Lemma upd_items {St K V} `{EqDecision K} (L : lens St (pydict K V)) (l : pydict K V) (st : St) :
  lget L st = [] → dict_wf l → foldl (upd_item L) st l = lset L l st.
Proof.
  intros Hst Hwf. assert (∀ d st0, lget L st0 = d → NoDup (d ++ l).*1 →
    foldl (upd_item L) st0 l = lset L (d ++ l) st0) as Hgen.
  { clear st Hst Hwf. induction l as [|[k v] l IH]; intros d st0 Hd Hn; cbn [foldl].
    - rewrite app_nil_r, <- Hd. symmetry. apply lset_lget.
    - unfold upd_item at 2. cbn [fst snd]. rewrite Hd, dict_set_fresh.
      + rewrite (IH (d ++ [(k, v)])); [|apply lget_lset|by rewrite <- app_assoc].
        by rewrite lset_lset, <- app_assoc.
      + rewrite fmap_app in Hn. apply NoDup_app in Hn as (_ & H & _). intros Hk. apply (H _ Hk). left. }
  by apply (Hgen []).
Qed.

Section sections.
Context {St : Type} (entry : bytes → Z → gset bytes → St → reader St).

(** A dictionary, one field per item. *)
Lemma section_dict {K V} `{EqDecision K} (L : lens St (pydict K V)) t (kd val : K * V → bytes)
    (f : K * V → result bytes) (l : pydict K V) st :
  0 <= t < 253 → lget L st = [] → dict_wf l → NoDup (map kd l) →
  Forall (λ x, small (chr t :: kd x) ∧ small (val x) ∧ f x = ser_field t (kd x) (val x)) l →
  Forall (λ x, ∀ st, dict_in x.1 (lget L st) = false → accepts entry t (kd x) (val x) st (upd_item L st x)) l →
  ∃ b, ser_items f l = Ok b ∧ section_of entry t st b (lset L l st).
Proof.
  intros Ht Hst Hwf Hn Hf Ha. rewrite <- (upd_items L l st) by done.
  eapply section_items; [done|exact Hn|exact Hf|].
  intros pre x post ->. rewrite foldl_snoc. apply Forall_app in Ha as [_ Ha].
  apply Forall_cons_1 in Ha as [Ha _]. apply Ha.
  unfold dict_wf in Hwf. rewrite fmap_app in Hwf. apply NoDup_app in Hwf as (Hp & Hd & _).
  rewrite upd_items by done. rewrite lget_lset. apply dict_not_in. intros Hk. apply (Hd _ Hk). left.
Qed.

(** Entries of unknown types, at the end of the map. *)
Lemma runs_unknown (L : lens St (pydict bytes bytes)) (l : pydict bytes bytes) st :
  lget L st = [] → dict_wf l →
  Forall (λ x, x.1 ≠ [] ∧ small x.1 ∧ small x.2 ∧ ∃ t, (deser_compact_size x.1).1 = Ok t ∧
    ∀ lookup st vb, dict_in x.1 (lget L st) = false → reads deser_string vb x.2 →
      reads (entry x.1 t lookup st) vb (upd_item L st x)) l →
  ∃ b, ser_items (λ '(k, v), ser_kv k v) l = Ok b ∧ runs entry [] st b (lset L l st).
Proof.
  intros Hst Hwf Ha.
  assert (∃ b, ser_items (λ '(k, v), ser_kv k v) l = Ok b) as (b & Hb).
  { apply ser_items_total. eapply Forall_impl; [exact Ha|]. intros [k v] (_ & Hk & Hv & _). cbn [fst snd] in *. unfold ser_kv.
    destruct (codec_total (ser := ser_string) _ Hk) as (kb & ->).
    destruct (codec_total (ser := ser_string) _ Hv) as (vb & ->). by eexists. }
  exists b. split; [done|]. intros _ lookup _. rewrite <- (upd_items L l st) by done.
  unfold ser_items in Hb. apply bind_ok in Hb as (bs & Hb & E). injection E as <-.
  assert (∀ pre lookup, dict_wf (pre ++ l) →
    ∃ lookup', steps entry (foldl (upd_item L) st pre, lookup) (concat bs)
      (foldl (upd_item L) st (pre ++ l), lookup')) as Hgen.
  { clear Hwf lookup. revert bs Hb. induction l as [|[k v] l IH]; intros bs Hb pre lookup Hwf.
    - injection Hb as <-. rewrite app_nil_r. exists lookup. apply steps_nil.
    - cbn [mapR] in Hb. apply bind_ok in Hb as (b1 & Eb1 & Hb). apply bind_ok in Hb as (bs' & Ebs & E).
      injection E as <-. apply Forall_cons_1 in Ha as [(Hne & Hk & Hv & t & Ht & Hr) Ha].
      cbn [fst snd] in *. unfold ser_kv in Eb1. apply bind_ok in Eb1 as (kb & Ek & Eb1).
      apply bind_ok in Eb1 as (vb & Ev & Eb1). injection Eb1 as <-.
      assert (steps entry (foldl (upd_item L) st pre, lookup) (kb ++ vb)
        (foldl (upd_item L) st (pre ++ [(k, v)]), {[k]} ∪ lookup)) as S1.
      { rewrite foldl_snoc. eapply steps_entry; [done|done|done|exact Ht|]. apply Hr.
        - unfold dict_wf in Hwf. rewrite fmap_app in Hwf. apply NoDup_app in Hwf as (Hp & Hd & _).
          rewrite upd_items by done. rewrite lget_lset. apply dict_not_in. intros Hin. apply (Hd _ Hin). left.
        - by apply (codec_reads (ser := ser_string)). }
      destruct (IH Ha bs' Ebs (pre ++ [(k, v)]) ({[k]} ∪ lookup)) as (l' & S2).
      + by rewrite <- app_assoc.
      + exists l'. cbn [concat]. rewrite <- app_assoc in S2. by eapply steps_app. }
  by apply (Hgen []).
Qed.

(** An origin whose serialization is a byte string. *)
Definition origin_ok (o : KeyOriginInfo) : Prop := origin_wf o ∧ 4 + 4 * len (path o) <= maxsize.

Lemma origin_ok_bytes o : origin_ok o →
  ∃ b, KeyOriginInfo_serialize o = Ok b ∧ KeyOriginInfo_deserialize b = Ok o ∧ small b.
Proof.
  intros [Hwf Hs]. destruct (origin_bytes o Hwf) as (b & E & D & L). exists b. split_and!; [done|done|].
  unfold small, len in *. lia.
Qed.

(** The keypath dictionaries. *)
Definition keypaths_ok (sizes : list Z) (d : pydict bytes KeyOriginInfo) : Prop :=
  dict_wf d ∧ Forall (λ kv, 1 + len kv.1 ∈ sizes ∧ len kv.1 <= 999 ∧ origin_ok kv.2) d.
Definition origin_val (o : KeyOriginInfo) : bytes :=
  match KeyOriginInfo_serialize o with Ok b => b | Err _ => [] end.

Lemma origin_ok_val o : origin_ok o →
  KeyOriginInfo_serialize o = Ok (origin_val o) ∧ KeyOriginInfo_deserialize (origin_val o) = Ok o ∧ small (origin_val o).
Proof. intros H. destruct (origin_ok_bytes o H) as (b & E & D & S). unfold origin_val. by rewrite E. Qed.

Lemma section_keypaths (L : lens St (pydict bytes KeyOriginInfo)) t sizes d st :
  0 <= t < 253 → lget L st = [] → keypaths_ok sizes d →
  (∀ key lookup st, entry key t lookup st =
     (d' ← DeserializeHDKeypath key (lget L st) sizes; mret (lset L d' st))) →
  ∃ b, SerializeHDKeypath d t = Ok b ∧ section_of entry t st b (lset L (sorted_items d) st).
Proof.
  intros Ht Hst [Hwf Hd] He. rewrite <- (sorted_items_perm d) in Hd.
  eapply (section_dict L t fst (λ kv, origin_val kv.2)); [done|done|by apply sorted_items_wf|by apply (sorted_items_wf d)| |].
  - eapply Forall_impl; [exact Hd|]. intros [pk o] (_ & Hl & Ho). cbn [fst snd] in *.
    destruct (origin_ok_val o Ho) as (E & _ & S). split; [apply small_short; cbn [length]; unfold len in Hl; lia|].
    split; [done|]. unfold ser_field, ser_kv. rewrite E. destruct (ser_compact_size t); [|done]. rewrite !bind_Ok.
    by destruct (ser_string _).
  - eapply Forall_impl; [exact Hd|]. intros [pk o] (Hsz & _ & Ho) st0 Hin lookup vb Hl Hr. cbn [fst snd] in *.
    destruct (origin_ok_val o Ho) as (_ & D & _). rewrite He. eapply reads_bind_end; [|apply reads_ret].
    unfold DeserializeHDKeypath, check. rewrite len_cons, bool_decide_eq_true_2 by done.
    eapply reads_bind_nil; [by apply reads_lift|]. cbn [drop]. rewrite drop_0, Hin.
    eapply reads_bind_nil; [by apply reads_lift|]. eapply reads_bind_end; [exact Hr|].
    eapply reads_bind_nil; [by apply reads_lift|]. apply reads_ret.
Qed.
End sections.

(** ** Taproot keypaths and MuSig2 participants *)

Section tap_laws.
Context `{SetOrder}.

Definition tap_path_ok (p : gset bytes * KeyOriginInfo) : Prop :=
  set_Forall (λ h, length h = 32%nat) p.1 ∧ origin_ok p.2 ∧
  9 + 32 * Z.of_nat (size p.1) + 4 + 4 * len (path p.2) <= maxsize.

Definition tap_path_val (p : gset bytes * KeyOriginInfo) : bytes :=
  match ser_tap_path p with Ok b => b | Err _ => [] end.

Lemma concat_length (l : list bytes) n : Forall (λ h, length h = n) l → length (concat l) = (n * length l)%nat.
Proof. induction 1 as [|x l Hx _ IH]; [simpl; lia|]. cbn [concat length]. rewrite length_app, Hx, IH. lia. Qed.

Lemma tap_path_bytes p : tap_path_ok p →
  ser_tap_path p = Ok (tap_path_val p) ∧ small (tap_path_val p) ∧ (read_tap_path (tap_path_val p)).1 = Ok p.
Proof.
  destruct p as [s o]. intros (Hs & Ho & Hsm). cbn [fst snd] in *. unfold tap_path_val, ser_tap_path. cbn [fst snd].
  pose proof (set_iter_length s) as Hlen.
  assert (Forall (λ h, length h = 32%nat) (set_iter s)) as Hf.
  { apply Forall_forall. intros h Hh. apply Hs. by apply set_iter_elem. }
  assert (small (set_iter s)) as Hsi by (unfold small, len; pose proof (len_nonneg (path o)); lia).
  destruct (ser_compact_size_total (len (set_iter s)) (small_fits8 _ Hsi)) as (n & En).
  destruct (origin_bytes o (proj1 Ho)) as (b & Eo & Do & Lo). rewrite En, Eo, !bind_Ok.
  assert (len n <= 9) as Hn.
  { apply ser_compact_size_length in En. rewrite En. repeat case_match; lia. }
  split; [done|]. split.
  - unfold small, len in *. rewrite !length_app, (concat_length _ 32) by done. lia.
  - unfold read_tap_path. erewrite reader_bind_eval; [|by apply (reads_compact_size _ _ En)].
    assert (reads (replicateR (length (set_iter s)) (read 32)) (concat (set_iter s)) (set_iter s)) as Hr.
    { apply reads_replicate. clear -Hf. induction Hf as [|h l Hh Hf IH]; constructor; [|done].
      apply reads_read_n; [by rewrite Hh|by vm_compute]. }
    unfold len. rewrite Nat2Z.id. erewrite reader_bind_eval; [|apply Hr].
    rewrite (reader_bind_eval read_all _ b b [] eq_refl), Do.
    rewrite (reader_bind_eval (lift (Ok o)) _ [] o [] eq_refl), set_iter_list_to_set. done.
Qed.
End tap_laws.

Lemma chunks33_concat l fuel : Forall (λ k, length k = 33%nat) l → (length (concat l) <= fuel)%nat →
  chunks33 fuel (concat l) = l.
Proof.
  intros Hl. revert fuel. induction Hl as [|k l Hk Hl IH]; intros fuel Hf; [by destruct fuel|].
  cbn [concat] in *. rewrite length_app, Hk in Hf. destruct fuel as [|fuel]; [lia|].
  destruct k as [|c k]; [done|]. cbn [app chunks33]. change (c :: k ++ concat l) with ((c :: k) ++ concat l).
  rewrite take_app_exact, drop_app_exact by done. f_equal. apply IH. lia.
Qed.

Lemma reads_musig2_pubkeys l : l ≠ [] → Forall (λ k, length k = 33%nat) l →
  reads (musig2_pubkeys (concat l)) [] l.
Proof.
  intros Hne Hl. unfold musig2_pubkeys, check. pose proof (concat_length l 33 Hl) as Hc.
  assert (len (concat l) = len l * 33) as El by (unfold len; lia).
  assert (len l * 33 =? 0 = false) as E0.
  { apply Z.eqb_neq. intros E. apply Hne, len_nil_inv. lia. }
  rewrite El, E0, Z.mod_mul by lia.
  eapply reads_bind_nil; [by apply reads_lift|]. eapply reads_bind_nil; [by apply reads_lift|].
  rewrite chunks33_concat by done. apply reads_ret.
Qed.

(** ** What a successful read says *)

Lemma check_ok b s u s' : check b s = (Ok u, s') → b = false ∧ s' = s.
Proof. unfold check, lift, raise_if. destruct b; [discriminate|]. by intros [= _ ->]. Qed.

Lemma lift_ok {A} (r : result A) s a s' : lift r s = (Ok a, s') → r = Ok a ∧ s' = s.
Proof. by intros [= -> ->]. Qed.

Lemma reader_ret_ok {A} (a b : A) s s' : (mret a : reader A) s = (Ok b, s') → b = a ∧ s' = s.
Proof. by intros [= -> ->]. Qed.

Lemma single_key_ok k lookup s u s' : single_key k lookup s = (Ok u, s') → k ∉ lookup ∧ len k = 1 ∧ s' = s.
Proof.
  unfold single_key. intros H. apply reader_bind_ok in H as (? & s1 & H1 & H2).
  apply check_ok in H1 as [H1 ->]. apply check_ok in H2 as [H2 ->]. bools. done.
Qed.

(** Split [H : p s = (Ok a, s')] into the steps of [p]. *)
Ltac invert_reader H :=
  cbv beta zeta in H;
  lazymatch type of H with
  | (_ ≫= _) _ = (Ok _, _) =>
      let a := fresh "a" in let s := fresh "s" in let E := fresh "E" in
      apply reader_bind_ok in H as (a & s & E & H); invert_reader E; invert_reader H
  | check _ _ = (Ok _, _) => apply check_ok in H as [H ->]
  | single_key _ _ _ = (Ok _, _) => let K := fresh "K" in apply single_key_ok in H as (K & H & ->)
  | lift _ _ = (Ok _, _) => apply lift_ok in H as [H ->]
  | mret _ _ = (Ok _, _) => apply reader_ret_ok in H as [-> ->]
  | _ => idtac
  end.

Section inv.
Context {St : Type} (entry : bytes → Z → gset bytes → St → reader St).

(** An invariant of the entries holds of what the loop returns. *)
Section loop_inv.
Context (P : St → gset bytes → Prop).
Context (Hstep : ∀ key t lookup st s st' s', (deser_compact_size key).1 = Ok t → P st lookup →
  entry key t lookup st s = (Ok st', s') → P st' ({[key]} ∪ lookup)).

Lemma map_loop_inv fuel st0 lookup0 s0 st1 lookup1 s1 : P st0 lookup0 →
  loop fuel (map_body entry) (st0, lookup0) s0 = (Ok (st1, lookup1), s1) → P st1 lookup1.
Proof.
  revert st0 lookup0 s0. induction fuel as [|fuel IH]; intros st0 lookup0 s0 HP H; [discriminate|].
  cbn [loop] in H. apply reader_bind_ok in H as (r & s2 & Hb & H). unfold map_body in Hb.
  destruct (deser_string s0) as [[key|e] s3].
  - destruct (len key =? 0).
    + injection Hb as <- <-. by injection H as <- <- _.
    + invert_reader Hb. cbn [fst snd] in *. eapply IH; [|exact H]. by eapply Hstep.
  - injection Hb as <- <-. by injection H as <- <- _.
Qed.

Lemma read_map_inv init s st s' : P init ∅ → read_map entry init s = (Ok st, s') → ∃ lookup, P st lookup.
Proof.
  intros Hinit. unfold read_map. destruct (loop _ _ _ _) as [[[st1 l1]|e] s1] eqn:E; [|discriminate].
  intros [= -> ->]. exists l1. by eapply map_loop_inv.
Qed.
End loop_inv.
End inv.

(** ** Termination *)

Lemma safe_check b : safe (check b).
Proof. by apply safe_lift, nf_raise_if. Qed.

#[export] Hint Resolve safe_check : safe.

Lemma safe_compact_size : safe deser_compact_size.
Proof. unfold deser_compact_size, read_u. safe_solve. Qed.

Lemma safe_string : safe deser_string.
Proof. unfold deser_string. pose proof safe_compact_size. safe_solve. Qed.

#[export] Hint Resolve safe_compact_size safe_string : safe.

Lemma safe_vector {A} (p : reader A) : safe p → safe (deser_vector p).
Proof. intros Hp. unfold deser_vector. safe_solve. Qed.

Lemma nf_unpack_words n s : no_fuel_error (unpack_words n s).
Proof. revert s. induction n as [|n IH]; intros s; cbn [unpack_words]; [by destruct s|]. safe_solve. Qed.

#[export] Hint Resolve safe_vector nf_unpack_words : safe.

Lemma nf_origin s : no_fuel_error (KeyOriginInfo_deserialize s).
Proof. unfold KeyOriginInfo_deserialize. safe_solve. Qed.

#[export] Hint Resolve nf_origin : safe.

Lemma safe_hd_keypath key d sizes : safe (DeserializeHDKeypath key d sizes).
Proof. unfold DeserializeHDKeypath. safe_solve. Qed.

Lemma safe_tap_path : safe read_tap_path.
Proof. unfold read_tap_path. safe_solve. Qed.

Lemma safe_musig2_pubkeys s : safe (musig2_pubkeys s).
Proof. unfold musig2_pubkeys. safe_solve. Qed.

Lemma safe_single_key k l : safe (single_key k l).
Proof. unfold single_key. safe_solve. Qed.

#[export] Hint Resolve safe_hd_keypath safe_tap_path safe_musig2_pubkeys safe_single_key : safe.

Lemma safe_read_map {St} (entry : bytes → Z → gset bytes → St → reader St) init :
  (∀ key t lookup st, safe (entry key t lookup st)) → safe (read_map entry init).
Proof.
  intros He s r s' H. unfold read_map in H.
  assert (∀ st s1 r1 s2, map_body entry st s1 = (r1, s2) →
    (length s2 <= length s1)%nat ∧ no_fuel_error r1 ∧ (∀ st', r1 = Ok (inl st') → (length s2 < length s1)%nat)) as Hb.
  { intros st s1 r1 s2 Hm. unfold map_body in Hm. destruct (deser_string s1) as [[key|e] s3] eqn:Ed.
    - apply deser_string_shrinks in Ed as Hs. destruct (len key =? 0).
      + injection Hm as <- <-. split_and!; [lia|done|done].
      + match type of Hm with ?p _ = _ => assert (safe p) as Hp by safe_solve end.
        apply Hp in Hm as [L N]. split_and!; [lia|done|]. intros; lia.
    - apply safe_string in Ed as [L _]. injection Hm as <- <-. split_and!; [lia|done|done]. }
  assert (∀ fuel st s1 r1 s2, loop fuel (map_body entry) st s1 = (r1, s2) → (length s2 <= length s1)%nat) as Hlen.
  { induction fuel as [|f IH]; intros st s1 r1 s2 Hl; [injection Hl as <- <-; lia|]. cbn [loop] in Hl.
    unfold mbind, reader_bind in Hl. destruct (map_body entry st s1) as [[[st'|a]|e] s3] eqn:Em; apply Hb in Em as [L _].
    - apply IH in Hl. lia.
    - by injection Hl as <- <-.
    - by injection Hl as <- <-. }
  destruct (loop _ _ _ s) as [[[st l]|e] s1] eqn:El; injection H as <- <-; (split; [by eapply Hlen|]); [done|].
  intros [= ->]. refine (loop_no_fuel_error (map_body entry) _ (S (length s)) (init, ∅) s s1 _ _ El); [| |lia].
  - intros st s0 st' s2 Hm. apply Hb in Hm as (_ & _ & Hm). by eapply Hm.
  - intros st s0 s2 Hm. apply Hb in Hm as (_ & Hm & _). by apply Hm.
Qed.

(** The leaf hashes of a taproot keypath are read without a length check: a value that ends after
    the count of hashes is read as one empty hash and an empty fingerprint. *)
Lemma tap_path_truncated : read_tap_path [chr 1] = (Ok ({[ [] ]}, {| fingerprint := []; path := [] |}), []).
Proof. vm_compute. reflexivity. Qed.
