(* ===== verification/PsbtIn.v ===== *)
(** * [hwilib/psbt.py], [PartiallySignedInput]

    The input map of a PSBT: one definition per field for reading it, the
    dispatch on the key type, and the serializer.  A handler that raises
    leaves no input to speak of: the exception ends the parse of the PSBT. *)

From S2P Require Import Prelude Bytes Safe PyStd PyStr Common Sha256 Serialize Script Tx KeyPath PsbtMap.

(** ** State *)

Abbreviation musig2_key := (bytes * bytes * option bytes)%type.

Record PsbtIn := {
  in_non_witness_utxo : option CTransaction;
  in_witness_utxo : option CTxOut;
  in_partial_sigs : pydict bytes bytes;
  in_sighash : option Z;
  in_redeem_script : bytes;
  in_witness_script : bytes;
  in_hd_keypaths : pydict bytes KeyOriginInfo;
  in_final_script_sig : bytes;
  in_final_script_witness : CTxInWitness;
  in_prev_txid : bytes;
  in_prev_out : option Z;
  in_sequence : option Z;
  in_time_locktime : option Z;
  in_height_locktime : option Z;
  in_tap_key_sig : bytes;
  in_tap_script_sigs : pydict (bytes * bytes) bytes;
  in_tap_scripts : pydict (bytes * Z) (gset bytes);
  in_tap_bip32_paths : pydict bytes (gset bytes * KeyOriginInfo);
  in_tap_internal_key : bytes;
  in_tap_merkle_root : bytes;
  in_musig2_participant_pubkeys : pydict bytes (list bytes);
  in_musig2_pub_nonces : pydict musig2_key bytes;
  in_musig2_partial_sigs : pydict musig2_key bytes;
  in_unknown : pydict bytes bytes;
  in_version : Z;
}.

(** [PartiallySignedInput(version)]. *)
Definition PsbtIn_new (version : Z) : PsbtIn :=
  {| in_non_witness_utxo := None; in_witness_utxo := None; in_partial_sigs := []; in_sighash := None;
     in_redeem_script := []; in_witness_script := []; in_hd_keypaths := []; in_final_script_sig := [];
     in_final_script_witness := CTxInWitness_new; in_prev_txid := []; in_prev_out := None;
     in_sequence := None; in_time_locktime := None; in_height_locktime := None; in_tap_key_sig := [];
     in_tap_script_sigs := []; in_tap_scripts := []; in_tap_bip32_paths := []; in_tap_internal_key := [];
     in_tap_merkle_root := []; in_musig2_participant_pubkeys := []; in_musig2_pub_nonces := [];
     in_musig2_partial_sigs := []; in_unknown := []; in_version := version |}.

(** Everything but the version is cleared. *)
Definition in_set_null (self : PsbtIn) : PsbtIn := PsbtIn_new (in_version self).

Definition in_eta (r : PsbtIn) : PsbtIn :=
  {| in_non_witness_utxo := in_non_witness_utxo r; in_witness_utxo := in_witness_utxo r;
     in_partial_sigs := in_partial_sigs r; in_sighash := in_sighash r; in_redeem_script := in_redeem_script r;
     in_witness_script := in_witness_script r; in_hd_keypaths := in_hd_keypaths r;
     in_final_script_sig := in_final_script_sig r; in_final_script_witness := in_final_script_witness r;
     in_prev_txid := in_prev_txid r; in_prev_out := in_prev_out r; in_sequence := in_sequence r;
     in_time_locktime := in_time_locktime r; in_height_locktime := in_height_locktime r;
     in_tap_key_sig := in_tap_key_sig r; in_tap_script_sigs := in_tap_script_sigs r;
     in_tap_scripts := in_tap_scripts r; in_tap_bip32_paths := in_tap_bip32_paths r;
     in_tap_internal_key := in_tap_internal_key r; in_tap_merkle_root := in_tap_merkle_root r;
     in_musig2_participant_pubkeys := in_musig2_participant_pubkeys r;
     in_musig2_pub_nonces := in_musig2_pub_nonces r; in_musig2_partial_sigs := in_musig2_partial_sigs r;
     in_unknown := in_unknown r; in_version := in_version r |}.

(** [self.f = v], for every attribute. *)
Definition set_non_witness_utxo : option CTransaction → PsbtIn → PsbtIn := ltac:(setter in_eta in_non_witness_utxo).
Definition set_witness_utxo : option CTxOut → PsbtIn → PsbtIn := ltac:(setter in_eta in_witness_utxo).
Definition set_partial_sigs : pydict bytes bytes → PsbtIn → PsbtIn := ltac:(setter in_eta in_partial_sigs).
Definition set_sighash : option Z → PsbtIn → PsbtIn := ltac:(setter in_eta in_sighash).
Definition set_redeem_script : bytes → PsbtIn → PsbtIn := ltac:(setter in_eta in_redeem_script).
Definition set_witness_script : bytes → PsbtIn → PsbtIn := ltac:(setter in_eta in_witness_script).
Definition set_hd_keypaths : pydict bytes KeyOriginInfo → PsbtIn → PsbtIn := ltac:(setter in_eta in_hd_keypaths).
Definition set_final_script_sig : bytes → PsbtIn → PsbtIn := ltac:(setter in_eta in_final_script_sig).
Definition set_final_script_witness : CTxInWitness → PsbtIn → PsbtIn := ltac:(setter in_eta in_final_script_witness).
Definition set_prev_txid : bytes → PsbtIn → PsbtIn := ltac:(setter in_eta in_prev_txid).
Definition set_prev_out : option Z → PsbtIn → PsbtIn := ltac:(setter in_eta in_prev_out).
Definition set_sequence : option Z → PsbtIn → PsbtIn := ltac:(setter in_eta in_sequence).
Definition set_time_locktime : option Z → PsbtIn → PsbtIn := ltac:(setter in_eta in_time_locktime).
Definition set_height_locktime : option Z → PsbtIn → PsbtIn := ltac:(setter in_eta in_height_locktime).
Definition set_tap_key_sig : bytes → PsbtIn → PsbtIn := ltac:(setter in_eta in_tap_key_sig).
Definition set_tap_script_sigs : pydict (bytes * bytes) bytes → PsbtIn → PsbtIn := ltac:(setter in_eta in_tap_script_sigs).
Definition set_tap_scripts : pydict (bytes * Z) (gset bytes) → PsbtIn → PsbtIn := ltac:(setter in_eta in_tap_scripts).
Definition set_tap_bip32_paths : pydict bytes (gset bytes * KeyOriginInfo) → PsbtIn → PsbtIn := ltac:(setter in_eta in_tap_bip32_paths).
Definition set_tap_internal_key : bytes → PsbtIn → PsbtIn := ltac:(setter in_eta in_tap_internal_key).
Definition set_tap_merkle_root : bytes → PsbtIn → PsbtIn := ltac:(setter in_eta in_tap_merkle_root).
Definition set_musig2_participant_pubkeys : pydict bytes (list bytes) → PsbtIn → PsbtIn := ltac:(setter in_eta in_musig2_participant_pubkeys).
Definition set_musig2_pub_nonces : pydict musig2_key bytes → PsbtIn → PsbtIn := ltac:(setter in_eta in_musig2_pub_nonces).
Definition set_musig2_partial_sigs : pydict musig2_key bytes → PsbtIn → PsbtIn := ltac:(setter in_eta in_musig2_partial_sigs).
Definition set_unknown : pydict bytes bytes → PsbtIn → PsbtIn := ltac:(setter in_eta in_unknown).
Definition set_version : Z → PsbtIn → PsbtIn := ltac:(setter in_eta in_version).

(** ** Queries *)

Section signing.
Context `{SetOrder}.

Definition in_has_fingerprint (fp : bytes) (self : PsbtIn) : bool :=
  existsb (λ kv, bool_decide (fingerprint kv.2 = fp)) (in_hd_keypaths self) ||
  existsb (λ kv, bool_decide (fingerprint kv.2.2 = fp)) (in_tap_bip32_paths self).

Definition in_has_signature (fp : bytes) (self : PsbtIn) : bool :=
  existsb (λ '(pubkey, origin),
    bool_decide (fingerprint origin = fp) && dict_in pubkey (in_partial_sigs self)) (in_hd_keypaths self) ||
  existsb (λ '(pubkey, (leaf_hashes, origin)),
    if negb (bool_decide (fingerprint origin = fp)) then false
    else if bool_decide (leaf_hashes = ∅) && negb (bool_decide (in_tap_key_sig self = [])) then true
    else existsb (λ leaf_hash, dict_in (pubkey, leaf_hash) (in_tap_script_sigs self)) (set_iter leaf_hashes))
    (in_tap_bip32_paths self).
End signing.

(** ** Reading one field *)

Section fields.
Context `{Hashes}.
Implicit Types (key : bytes) (lookup : gset bytes) (self : PsbtIn).

Definition in_read_non_witness_utxo key lookup self : reader PsbtIn :=
  single_key key lookup;;
  utxo_bytes ← deser_string;
  tx ← lift (tx_deserialize CTransaction_new utxo_bytes).1;
  tx ← lift (rehash tx);
  mret (set_non_witness_utxo (Some tx) self).

Definition in_read_witness_utxo key lookup self : reader PsbtIn :=
  single_key key lookup;;
  tx_out_bytes ← deser_string;
  o ← lift (CTxOut_deserialize tx_out_bytes).1;
  mret (set_witness_utxo (Some o) self).

Definition in_read_partial_sig key lookup self : reader PsbtIn :=
  check (negb (len key =? 34) && negb (len key =? 66));;
  let pubkey := drop 1 key in
  check (dict_in pubkey (in_partial_sigs self));;
  sig ← deser_string;
  mret (set_partial_sigs (dict_set pubkey sig (in_partial_sigs self)) self).

Definition in_read_sighash key lookup self : reader PsbtIn :=
  single_key key lookup;;
  sighash_bytes ← deser_string;
  v ← lift (unpack_u 4 sighash_bytes);
  mret (set_sighash (Some v) self).

Definition in_read_redeem_script key lookup self : reader PsbtIn :=
  single_key key lookup;;
  v ← deser_string;
  mret (set_redeem_script v self).

Definition in_read_witness_script key lookup self : reader PsbtIn :=
  single_key key lookup;;
  v ← deser_string;
  mret (set_witness_script v self).

Definition in_read_hd_keypath key lookup self : reader PsbtIn :=
  d ← DeserializeHDKeypath key (in_hd_keypaths self) [34; 66];
  mret (set_hd_keypaths d self).

Definition in_read_final_script_sig key lookup self : reader PsbtIn :=
  single_key key lookup;;
  v ← deser_string;
  mret (set_final_script_sig v self).

Definition in_read_final_script_witness key lookup self : reader PsbtIn :=
  single_key key lookup;;
  witness_bytes ← deser_string;
  w ← lift (CTxInWitness_deserialize witness_bytes).1;
  mret (set_final_script_witness w self).

Definition in_read_prev_txid key lookup self : reader PsbtIn :=
  check (in_version self =? 0);;
  single_key key lookup;;
  txid ← deser_string;
  check (negb (len txid =? 32));;
  mret (set_prev_txid txid self).

Definition in_read_prev_out key lookup self : reader PsbtIn :=
  check (in_version self =? 0);;
  single_key key lookup;;
  v ← deser_string;
  check (negb (len v =? 4));;
  n ← lift (unpack_u 4 v);
  mret (set_prev_out (Some n) self).

Definition in_read_sequence key lookup self : reader PsbtIn :=
  check (in_version self =? 0);;
  single_key key lookup;;
  v ← deser_string;
  check (negb (len v =? 4));;
  n ← lift (unpack_u 4 v);
  mret (set_sequence (Some n) self).

Definition in_read_time_locktime key lookup self : reader PsbtIn :=
  check (in_version self =? 0);;
  single_key key lookup;;
  v ← deser_string;
  check (negb (len v =? 4));;
  time_locktime ← lift (unpack_u 4 v);
  check (time_locktime <? 500000000);;
  mret (set_time_locktime (Some time_locktime) self).

Definition in_read_height_locktime key lookup self : reader PsbtIn :=
  check (in_version self =? 0);;
  single_key key lookup;;
  v ← deser_string;
  check (negb (len v =? 4));;
  height_locktime ← lift (unpack_u 4 v);
  check ((height_locktime =? 0) || (500000000 <=? height_locktime));;
  mret (set_height_locktime (Some height_locktime) self).

Definition in_read_tap_key_sig key lookup self : reader PsbtIn :=
  single_key key lookup;;
  sig ← deser_string;
  check (len sig <? 64);;
  check (65 <? len sig);;
  mret (set_tap_key_sig sig self).

Definition in_read_tap_script_sig key lookup self : reader PsbtIn :=
  check (bool_decide (key ∈ lookup));;
  check (negb (len key =? 65));;
  let xonly := slice 1 33 key in
  let script_hash := slice 33 65 key in
  sig ← deser_string;
  check (len sig <? 64);;
  check (65 <? len sig);;
  mret (set_tap_script_sigs (dict_set (xonly, script_hash) sig (in_tap_script_sigs self)) self).

Definition in_read_tap_leaf_script key lookup self : reader PsbtIn :=
  check (bool_decide (key ∈ lookup));;
  check (len key <? 34);;
  check (negb ((len key - 2) mod 32 =? 0));;
  script ← deser_string;
  check (len script =? 0);;
  ver ← lift (of_option IndexError (last script));
  let leaf_script := (slice_to_neg 1 script, ord ver) in
  let control_blocks := default ∅ (dict_get leaf_script (in_tap_scripts self)) in
  mret (set_tap_scripts (dict_set leaf_script ({[drop 1 key]} ∪ control_blocks) (in_tap_scripts self)) self).

Definition in_read_tap_bip32_derivation key lookup self : reader PsbtIn :=
  check (bool_decide (key ∈ lookup));;
  check (negb (len key =? 33));;
  let xonly := slice 1 33 key in
  value ← deser_string;
  p ← lift (read_tap_path value).1;
  mret (set_tap_bip32_paths (dict_set xonly p (in_tap_bip32_paths self)) self).

Definition in_read_tap_internal_key key lookup self : reader PsbtIn :=
  single_key key lookup;;
  v ← deser_string;
  check (negb (len v =? 32));;
  mret (set_tap_internal_key v self).

Definition in_read_tap_merkle_root key lookup self : reader PsbtIn :=
  single_key key lookup;;
  v ← deser_string;
  check (negb (len v =? 32));;
  mret (set_tap_merkle_root v self).

Definition in_read_musig2_participants key lookup self : reader PsbtIn :=
  check (bool_decide (key ∈ lookup));;
  check (negb (len key =? 1 + 33));;
  pubkeys_cat ← deser_string;
  pubkeys ← musig2_pubkeys pubkeys_cat;
  mret (set_musig2_participant_pubkeys
    (dict_set (drop 1 key) pubkeys (in_musig2_participant_pubkeys self)) self).

(** The three parts of a nonce's or a partial signature's key. *)
Definition musig2_key_of key : musig2_key :=
  (slice 1 (1 + 33) key, slice (1 + 33) (1 + 33 + 33) key,
   if len key =? 1 + 33 + 33 then None else Some (drop (1 + 33 + 33) key)).

Definition in_read_musig2_pub_nonce key lookup self : reader PsbtIn :=
  check (bool_decide (key ∈ lookup));;
  check (negb (bool_decide (len key ∈ [1 + 33 + 33; 1 + 33 + 33 + 32])));;
  public_nonces ← deser_string;
  check (negb (len public_nonces =? 66));;
  mret (set_musig2_pub_nonces (dict_set (musig2_key_of key) public_nonces (in_musig2_pub_nonces self)) self).

Definition in_read_musig2_partial_sig key lookup self : reader PsbtIn :=
  check (bool_decide (key ∈ lookup));;
  check (negb (bool_decide (len key ∈ [1 + 33 + 33; 1 + 33 + 33 + 32])));;
  partial_sig ← deser_string;
  check (negb (len partial_sig =? 32));;
  mret (set_musig2_partial_sigs (dict_set (musig2_key_of key) partial_sig (in_musig2_partial_sigs self)) self).

Definition in_read_unknown key lookup self : reader PsbtIn :=
  check (dict_in key (in_unknown self));;
  unknown_bytes ← deser_string;
  mret (set_unknown (dict_set key unknown_bytes (in_unknown self)) self).

(** ** The read loop *)

Definition in_entry key (key_type : Z) lookup self : reader PsbtIn :=
  if key_type =? 0x00 then in_read_non_witness_utxo key lookup self
  else if key_type =? 0x01 then in_read_witness_utxo key lookup self
  else if key_type =? 0x02 then in_read_partial_sig key lookup self
  else if key_type =? 0x03 then in_read_sighash key lookup self
  else if key_type =? 0x04 then in_read_redeem_script key lookup self
  else if key_type =? 0x05 then in_read_witness_script key lookup self
  else if key_type =? 0x06 then in_read_hd_keypath key lookup self
  else if key_type =? 0x07 then in_read_final_script_sig key lookup self
  else if key_type =? 0x08 then in_read_final_script_witness key lookup self
  else if key_type =? 0x0e then in_read_prev_txid key lookup self
  else if key_type =? 0x0f then in_read_prev_out key lookup self
  else if key_type =? 0x10 then in_read_sequence key lookup self
  else if key_type =? 0x11 then in_read_time_locktime key lookup self
  else if key_type =? 0x12 then in_read_height_locktime key lookup self
  else if key_type =? 0x13 then in_read_tap_key_sig key lookup self
  else if key_type =? 0x14 then in_read_tap_script_sig key lookup self
  else if key_type =? 0x15 then in_read_tap_leaf_script key lookup self
  else if key_type =? 0x16 then in_read_tap_bip32_derivation key lookup self
  else if key_type =? 0x17 then in_read_tap_internal_key key lookup self
  else if key_type =? 0x18 then in_read_tap_merkle_root key lookup self
  else if key_type =? 0x1a then in_read_musig2_participants key lookup self
  else if key_type =? 0x1b then in_read_musig2_pub_nonce key lookup self
  else if key_type =? 0x1c then in_read_musig2_partial_sig key lookup self
  else in_read_unknown key lookup self.

Definition in_deserialize self : reader PsbtIn :=
  self ← read_map in_entry self;
  check ((2 <=? in_version self) && (len (in_prev_txid self) =? 0));;
  check ((2 <=? in_version self) && negb (bool_decide (is_Some (in_prev_out self))));;
  mret self.
End fields.

(** ** Serialization *)

Section ser.
Context `{SetOrder}.

(** The fields of an input that has no final scripts. *)
Definition in_serialize_unfinalized (self : PsbtIn) : result bytes :=
  sigs ← ser_items (λ '(pubkey, sig), ser_field 0x02 pubkey sig) (sorted_items (in_partial_sigs self));
  sighash ← ser_opt (in_sighash self) (λ v, b ← pack_u 4 v; ser_field 0x03 [] b);
  redeem ← ser_when (negb (len (in_redeem_script self) =? 0)) (ser_field 0x04 [] (in_redeem_script self));
  wscript ← ser_when (negb (len (in_witness_script self) =? 0)) (ser_field 0x05 [] (in_witness_script self));
  paths ← SerializeHDKeypath (in_hd_keypaths self) 0x06;
  tapsig ← ser_when (negb (len (in_tap_key_sig self) =? 0)) (ser_field 0x13 [] (in_tap_key_sig self));
  tapscriptsigs ← ser_items (λ '((xonly, leaf_hash), sig), ser_field 0x14 (xonly ++ leaf_hash) sig)
    (in_tap_script_sigs self);
  tapscripts ← ser_items (λ '((script, leaf_ver), control_blocks),
      ser_items (λ control_block,
        v ← pack_u 1 leaf_ver; ser_field 0x15 control_block (script ++ v)) (set_iter control_blocks))
    (in_tap_scripts self);
  tappaths ← ser_items (λ '(xonly, p), v ← ser_tap_path p; ser_field 0x16 xonly v) (in_tap_bip32_paths self);
  internal ← ser_when (negb (len (in_tap_internal_key self) =? 0)) (ser_field 0x17 [] (in_tap_internal_key self));
  root ← ser_when (negb (len (in_tap_merkle_root self) =? 0)) (ser_field 0x18 [] (in_tap_merkle_root self));
  Ok (sigs ++ sighash ++ redeem ++ wscript ++ paths ++ tapsig ++ tapscriptsigs ++ tapscripts ++ tappaths ++
      internal ++ root).

(** The fields of version 2. *)
Definition in_serialize_v2 (self : PsbtIn) : result bytes :=
  txid ← ser_when (negb (len (in_prev_txid self) =? 0)) (ser_field 0x0e [] (in_prev_txid self));
  out ← ser_opt (in_prev_out self) (λ v, b ← pack_u 4 v; ser_field 0x0f [] b);
  seq ← ser_opt (in_sequence self) (λ v, b ← pack_u 4 v; ser_field 0x10 [] b);
  time ← ser_opt (in_time_locktime self) (λ v, b ← pack_u 4 v; ser_field 0x11 [] b);
  height ← ser_opt (in_height_locktime self) (λ v, b ← pack_u 4 v; ser_field 0x12 [] b);
  Ok (txid ++ out ++ seq ++ time ++ height).

Definition ser_musig2 (t : Z) (d : pydict musig2_key bytes) : result bytes :=
  ser_items (λ '((pk, aggpk, tapleaf_hash), v), ser_field t (pk ++ aggpk ++ default [] tapleaf_hash) v) d.

(** [serialize]: the bytes, and the input with the witness list of its
    previous transaction filled up as [serialize_with_witness] does. *)
Definition in_serialize (self : PsbtIn) : result (bytes * PsbtIn) :=
  '(utxo, self) ←
    match in_non_witness_utxo self with
    | None => Ok ([], self)
    | Some tx =>
        '(b, tx) ← serialize_with_witness tx;
        r ← ser_field 0x00 [] b;
        Ok (r, set_non_witness_utxo (Some tx) self)
    end;
  wutxo ← ser_opt (in_witness_utxo self) (λ o, b ← CTxOut_serialize o; ser_field 0x01 [] b);
  unfinal ← ser_when ((len (in_final_script_sig self) =? 0) && CTxInWitness_is_null (in_final_script_witness self))
    (in_serialize_unfinalized self);
  fsig ← ser_when (negb (len (in_final_script_sig self) =? 0)) (ser_field 0x07 [] (in_final_script_sig self));
  fwit ← ser_when (negb (CTxInWitness_is_null (in_final_script_witness self)))
    (w ← CTxInWitness_serialize (in_final_script_witness self); ser_field 0x08 [] w);
  musig ← ser_items (λ '(pk, pubkeys), ser_field 0x1a pk (concat pubkeys)) (in_musig2_participant_pubkeys self);
  nonces ← ser_musig2 0x1b (in_musig2_pub_nonces self);
  psigs ← ser_musig2 0x1c (in_musig2_partial_sigs self);
  v2 ← ser_when (2 <=? in_version self) (in_serialize_v2 self);
  unknowns ← ser_items (λ '(k, v), ser_kv k v) (sorted_items (in_unknown self));
  Ok ((utxo ++ wutxo ++ unfinal ++ fsig ++ fwit ++ musig ++ nonces ++ psigs ++ v2 ++ unknowns) ++ [chr 0], self).
End ser.

(** * What serializes and reads back *)

(** A transaction as the parser leaves it: well-formed, with its ids computed. *)
Definition tx_loaded `{Hashes} (tx : CTransaction) : Prop :=
  tx_wf tx ∧ vin tx ≠ [] ∧
  (wit tx = [] ∨ CTxWitness_is_null (wit tx) = false ∧ length (wit tx) = length (vin tx)) ∧
  rehash (fresh_tx tx (wit tx)) = Ok tx ∧
  match serialize_with_witness tx with Ok (b, _) => small b | Err _ => False end.

Definition txout_ok (o : CTxOut) : Prop := txout_wf o ∧ len (scriptPubKey o) + 17 <= maxsize.

Definition u32_opt (o : option Z) : Prop := match o with Some v => fits 4 v | None => True end.

Definition sig_size (s : bytes) : Prop := 64 <= len s <= 65.

Definition musig2_ok (n : nat) (d : pydict musig2_key bytes) : Prop :=
  dict_wf d ∧ Forall (λ x, length x.1.1.1 = 33%nat ∧ length x.1.1.2 = 33%nat ∧
    (if x.1.2 is Some h then length h = 32%nat else True) ∧ length x.2 = n) d.

Definition participants_ok (d : pydict bytes (list bytes)) : Prop :=
  dict_wf d ∧ Forall (λ x, length x.1 = 33%nat ∧ x.2 ≠ [] ∧ Forall (λ k, length k = 33%nat) x.2 ∧
    33 * len x.2 <= maxsize) d.

Definition unknown_ok (known : list Z) (d : pydict bytes bytes) : Prop :=
  dict_wf d ∧ Forall (λ x, x.1 ≠ [] ∧ small x.1 ∧ small x.2 ∧
    match (deser_compact_size x.1).1 with Ok t => t ∉ known | Err _ => False end) d.

(** The control blocks of all the leaf scripts, in the order they are written. *)
Definition control_blocks `{SetOrder} (d : pydict (bytes * Z) (gset bytes)) : list bytes :=
  concat (map (λ x, set_iter x.2) d).

Definition tap_scripts_ok `{SetOrder} (d : pydict (bytes * Z) (gset bytes)) : Prop :=
  dict_wf d ∧ NoDup (control_blocks d) ∧
  Forall (λ x, len x.1.1 + 1 <= maxsize ∧ fits 1 x.1.2 ∧ x.2 ≠ ∅) d ∧
  Forall (λ c, 33 <= len c ∧ small (chr 0x15 :: c) ∧ (len c - 1) mod 32 = 0) (control_blocks d).

Definition in_types : list Z :=
  [0x00; 0x01; 0x02; 0x03; 0x04; 0x05; 0x06; 0x13; 0x14; 0x15; 0x16; 0x17; 0x18; 0x07; 0x08;
   0x1a; 0x1b; 0x1c; 0x0e; 0x0f; 0x10; 0x11; 0x12].

Section wf.
Context `{Hashes} `{SetOrder}.

Definition in_unfinalized_wf (self : PsbtIn) : Prop :=
  (dict_wf (in_partial_sigs self) ∧
   Forall (λ x, (length x.1 = 33%nat ∨ length x.1 = 65%nat) ∧ small x.2) (in_partial_sigs self)) ∧
  u32_opt (in_sighash self) ∧ small (in_redeem_script self) ∧ small (in_witness_script self) ∧
  keypaths_ok [34; 66] (in_hd_keypaths self) ∧
  (in_tap_key_sig self = [] ∨ sig_size (in_tap_key_sig self)) ∧
  (dict_wf (in_tap_script_sigs self) ∧
   Forall (λ x, length x.1.1 = 32%nat ∧ length x.1.2 = 32%nat ∧ sig_size x.2) (in_tap_script_sigs self)) ∧
  tap_scripts_ok (in_tap_scripts self) ∧
  (dict_wf (in_tap_bip32_paths self) ∧
   Forall (λ x, length x.1 = 32%nat ∧ tap_path_ok x.2) (in_tap_bip32_paths self)) ∧
  (in_tap_internal_key self = [] ∨ length (in_tap_internal_key self) = 32%nat) ∧
  (in_tap_merkle_root self = [] ∨ length (in_tap_merkle_root self) = 32%nat).

Definition in_v2_wf (self : PsbtIn) : Prop :=
  length (in_prev_txid self) = 32%nat ∧
  match in_prev_out self with Some v => fits 4 v | None => False end ∧ u32_opt (in_sequence self) ∧
  match in_time_locktime self with Some v => fits 4 v ∧ 500000000 <= v | None => True end ∧
  match in_height_locktime self with Some v => 0 < v < 500000000 | None => True end.

Definition in_wf (self : PsbtIn) : Prop :=
  match in_non_witness_utxo self with Some tx => tx_loaded tx | None => True end ∧
  match in_witness_utxo self with Some o => txout_ok o | None => True end ∧
  in_unfinalized_wf self ∧ small (in_final_script_sig self) ∧
  (inwit_wf (in_final_script_witness self) ∧
   match CTxInWitness_serialize (in_final_script_witness self) with Ok b => small b | Err _ => False end) ∧
  participants_ok (in_musig2_participant_pubkeys self) ∧
  musig2_ok 66 (in_musig2_pub_nonces self) ∧ musig2_ok 32 (in_musig2_partial_sigs self) ∧
  (2 <= in_version self → in_v2_wf self) ∧ unknown_ok in_types (in_unknown self).
End wf.

(** No final script: the signing fields are written. *)
Definition in_unfinalized (self : PsbtIn) : bool :=
  (len (in_final_script_sig self) =? 0) && CTxInWitness_is_null (in_final_script_witness self).

(** What reading back gives: dictionaries that are written sorted come back
    sorted, the signing fields of a finalized input and the version 2 fields
    of an older input are not written. *)
Definition in_read_back (self : PsbtIn) : PsbtIn :=
  let u {A} (x y : A) := if in_unfinalized self then x else y in
  let v2 {A} (x y : A) := if 2 <=? in_version self then x else y in
  {| in_non_witness_utxo := in_non_witness_utxo self; in_witness_utxo := in_witness_utxo self;
     in_partial_sigs := u (sorted_items (in_partial_sigs self)) []; in_sighash := u (in_sighash self) None;
     in_redeem_script := u (in_redeem_script self) []; in_witness_script := u (in_witness_script self) [];
     in_hd_keypaths := u (sorted_items (in_hd_keypaths self)) [];
     in_final_script_sig := in_final_script_sig self;
     in_final_script_witness := in_final_script_witness self;
     in_prev_txid := v2 (in_prev_txid self) []; in_prev_out := v2 (in_prev_out self) None;
     in_sequence := v2 (in_sequence self) None; in_time_locktime := v2 (in_time_locktime self) None;
     in_height_locktime := v2 (in_height_locktime self) None;
     in_tap_key_sig := u (in_tap_key_sig self) []; in_tap_script_sigs := u (in_tap_script_sigs self) [];
     in_tap_scripts := u (in_tap_scripts self) []; in_tap_bip32_paths := u (in_tap_bip32_paths self) [];
     in_tap_internal_key := u (in_tap_internal_key self) []; in_tap_merkle_root := u (in_tap_merkle_root self) [];
     in_musig2_participant_pubkeys := in_musig2_participant_pubkeys self;
     in_musig2_pub_nonces := in_musig2_pub_nonces self; in_musig2_partial_sigs := in_musig2_partial_sigs self;
     in_unknown := sorted_items (in_unknown self); in_version := in_version self |}.

(** * Lemmas *)

Lemma reads_check b : b = false → reads (check b) [] ().
Proof. intros ->. by apply reads_lift. Qed.

Lemma reads_single_key k lookup : k ∉ lookup → len k = 1 → reads (single_key k lookup) [] ().
Proof.
  intros Hk Hl. unfold single_key. eapply reads_bind_nil; [apply reads_check; by apply bool_decide_eq_false_2|].
  apply reads_check. by rewrite Hl.
Qed.

Lemma bool_decide_not_in (k : bytes) (lookup : gset bytes) : k ∉ lookup → bool_decide (k ∈ lookup) = false.
Proof. apply bool_decide_eq_false_2. Qed.

#[export] Hint Resolve bool_decide_not_in : psbt.

(** The dictionaries as fields. *)
Definition partial_sigs_l : lens PsbtIn (pydict bytes bytes).
Proof. refine {| lget := in_partial_sigs; lset := set_partial_sigs |}; lens_laws. Defined.
Definition hd_keypaths_l : lens PsbtIn (pydict bytes KeyOriginInfo).
Proof. refine {| lget := in_hd_keypaths; lset := set_hd_keypaths |}; lens_laws. Defined.
Definition tap_script_sigs_l : lens PsbtIn (pydict (bytes * bytes) bytes).
Proof. refine {| lget := in_tap_script_sigs; lset := set_tap_script_sigs |}; lens_laws. Defined.
Definition tap_scripts_l : lens PsbtIn (pydict (bytes * Z) (gset bytes)).
Proof. refine {| lget := in_tap_scripts; lset := set_tap_scripts |}; lens_laws. Defined.
Definition tap_bip32_paths_l : lens PsbtIn (pydict bytes (gset bytes * KeyOriginInfo)).
Proof. refine {| lget := in_tap_bip32_paths; lset := set_tap_bip32_paths |}; lens_laws. Defined.
Definition participants_l : lens PsbtIn (pydict bytes (list bytes)).
Proof. refine {| lget := in_musig2_participant_pubkeys; lset := set_musig2_participant_pubkeys |}; lens_laws. Defined.
Definition pub_nonces_l : lens PsbtIn (pydict musig2_key bytes).
Proof. refine {| lget := in_musig2_pub_nonces; lset := set_musig2_pub_nonces |}; lens_laws. Defined.
Definition musig_sigs_l : lens PsbtIn (pydict musig2_key bytes).
Proof. refine {| lget := in_musig2_partial_sigs; lset := set_musig2_partial_sigs |}; lens_laws. Defined.
Definition unknown_l : lens PsbtIn (pydict bytes bytes).
Proof. refine {| lget := in_unknown; lset := set_unknown |}; lens_laws. Defined.

(** Prove that a handler reads its value: [Hl] says the key is new, [Hr] that
    the value can be read; what is left are the checks on the value. *)
Ltac field_step :=
  cbv beta zeta;
  first
    [ apply reads_ret
    | eapply reads_bind_nil; [apply reads_single_key; [assumption|reflexivity]|]
    | eapply reads_bind_nil; [apply reads_check; solve [eauto with psbt]|]
    | eapply reads_bind_nil; [apply reads_lift; solve [eauto]|]
    | eapply reads_bind_end; [eassumption|] ].
(** *** Sections the output map has too *)

Section shared.
Context `{SetOrder} {St : Type} (entry : bytes → Z → gset bytes → St → reader St).

Lemma small_key t kd n : length kd = n → (n <= 999)%nat → small (chr t :: kd).
Proof. intros Hl Hn. apply small_short. cbn [length]. lia. Qed.

Lemma section_tap_paths (L : lens St (pydict bytes (gset bytes * KeyOriginInfo))) t d st :
  0 <= t < 253 → dict_wf d → Forall (λ x, length x.1 = 32%nat ∧ tap_path_ok x.2) d → lget L st = [] →
  (∀ key lookup st, entry key t lookup st =
    (check (bool_decide (key ∈ lookup));;
     check (negb (len key =? 33));;
     let xonly := slice 1 33 key in
     value ← deser_string;
     p ← lift (read_tap_path value).1;
     mret (lset L (dict_set xonly p (lget L st)) st))) →
  ∃ b, ser_items (λ '(xonly, p), v ← ser_tap_path p; ser_field t xonly v) d = Ok b ∧
    section_of entry t st b (lset L d st).
Proof.
  intros Ht Hwf Hf Hst He.
  apply (section_dict entry L t fst (λ x, tap_path_val x.2)); [done..| |].
  - eapply Forall_impl; [exact Hf|]. intros [x p] [Hl Hp]. cbn [fst snd] in *.
    apply tap_path_bytes in Hp as (E & S & _). split; [eapply small_key; [eassumption|lia]|].
    split; [done|]. by rewrite E, bind_Ok.
  - eapply Forall_impl; [exact Hf|]. intros [x p] [Hx Hp] st0 Hin. cbn [fst snd] in *.
    apply tap_path_bytes in Hp as (_ & _ & E).
    assert (negb (len (chr t :: x) =? 33) = false) as Hsz by (rewrite len_cons; unfold len; rewrite Hx; done).
    assert (slice 1 33 (chr t :: x) = x) as Ex by (unfold slice; cbn [drop]; rewrite drop_0, take_ge by lia; done).
    intros lookup vb Hl Hr. rewrite He, Ex. repeat field_step.
Qed.

Lemma section_participants (L : lens St (pydict bytes (list bytes))) t d st :
  0 <= t < 253 → participants_ok d → lget L st = [] →
  (∀ key lookup st, entry key t lookup st =
    (check (bool_decide (key ∈ lookup));;
     check (negb (len key =? 1 + 33));;
     pubkeys_cat ← deser_string;
     pubkeys ← musig2_pubkeys pubkeys_cat;
     mret (lset L (dict_set (drop 1 key) pubkeys (lget L st)) st))) →
  ∃ b, ser_items (λ '(pk, pubkeys), ser_field t pk (concat pubkeys)) d = Ok b ∧
    section_of entry t st b (lset L d st).
Proof.
  intros Ht [Hwf Hf] Hst He.
  apply (section_dict entry L t fst (λ x, concat x.2)); [done..| |].
  - eapply Forall_impl; [exact Hf|]. intros [pk ks] (Hl & Hne & Hk & Hs). cbn [fst snd] in *.
    split; [eapply small_key; [eassumption|lia]|]. split; [|done].
    apply (concat_length _ 33) in Hk. unfold small, len in *. lia.
  - eapply Forall_impl; [exact Hf|]. intros [pk ks] (Hlen & Hne & Hk & Hs) st0 Hin. cbn [fst snd] in *.
    assert (negb (len (chr t :: pk) =? 1 + 33) = false) as Hsz by (rewrite len_cons; unfold len; rewrite Hlen; done).
    intros lookup vb Hl Hr. rewrite He.
    do 2 field_step. field_step. eapply reads_bind_nil; [by apply reads_musig2_pubkeys|].
    cbn [drop]. rewrite drop_0. field_step.
Qed.
End shared.

Ltac field handler :=
  let lookup := fresh "lookup" in let vb := fresh "vb" in
  intros lookup vb Hl Hr;
  cbv beta iota delta [in_entry Z.eqb Pos.eqb]; unfold handler; repeat field_step.

Section sections.
Context `{Hashes} `{SetOrder}.
Implicit Types self st : PsbtIn.

Lemma sec_redeem_script self st : small (in_redeem_script self) → in_redeem_script st = [] →
  ∃ b, ser_when (negb (len (in_redeem_script self) =? 0)) (ser_field 0x04 [] (in_redeem_script self)) = Ok b ∧
    section_of in_entry 0x04 st b (set_redeem_script (in_redeem_script self) st).
Proof.
  intros Hs Hst. apply section_when; [done| |].
  - intros _. split; [done|]. field in_read_redeem_script.
  - intros E. bools. apply len_nil_inv in E as ->. rewrite <- Hst. by destruct st.
Qed.

(** An optional 32-bit number. *)
Lemma sec_u32 t (set : option Z → PsbtIn → PsbtIn) (o : option Z) st :
  0 <= t < 253 → u32_opt o →
  (∀ v, o = Some v → fits 4 v → accepts in_entry t [] (le_bytes 4 v) st (set (Some v) st)) → (o = None → set None st = st) →
  ∃ b, ser_opt o (λ v, b ← pack_u 4 v; ser_field t [] b) = Ok b ∧ section_of in_entry t st b (set o st).
Proof.
  intros Ht Ho Ha Hn. destruct o as [v|]; cbn [ser_opt u32_opt] in *.
  - rewrite pack_u_fits, bind_Ok by done. apply (section_when in_entry t true); [done| |done].
    intros _. split; [apply small_short; rewrite length_le_bytes; lia|]. by apply Ha.
  - exists []. split; [done|]. rewrite Hn by done. apply section_none.
Qed.

Lemma unpack_le v : fits 4 v → unpack_u 4 (le_bytes 4 v) = Ok v.
Proof. intros Hv. by apply unpack_pack_u, pack_u_fits. Qed.

Lemma len_le n v : len (le_bytes n v) = Z.of_nat n.
Proof. unfold len. by rewrite length_le_bytes. Qed.

Lemma sec_sighash self st : u32_opt (in_sighash self) → in_sighash st = None →
  ∃ b, ser_opt (in_sighash self) (λ v, b ← pack_u 4 v; ser_field 0x03 [] b) = Ok b ∧
    section_of in_entry 0x03 st b (set_sighash (in_sighash self) st).
Proof.
  intros Ho Hst. apply sec_u32; [done|done| |].
  - intros v _ Hv. apply unpack_le in Hv. field in_read_sighash.
  - intros _. rewrite <- Hst. by destruct st.
Qed.

Lemma sec_witness_script self st : small (in_witness_script self) → in_witness_script st = [] →
  ∃ b, ser_when (negb (len (in_witness_script self) =? 0)) (ser_field 0x05 [] (in_witness_script self)) = Ok b ∧
    section_of in_entry 0x05 st b (set_witness_script (in_witness_script self) st).
Proof.
  intros Hs Hst. apply section_when; [done| |].
  - intros _. split; [done|]. field in_read_witness_script.
  - intros E. bools. apply len_nil_inv in E as ->. rewrite <- Hst. by destruct st.
Qed.

Lemma sec_final_script_sig self st : small (in_final_script_sig self) → in_final_script_sig st = [] →
  ∃ b, ser_when (negb (len (in_final_script_sig self) =? 0)) (ser_field 0x07 [] (in_final_script_sig self)) = Ok b ∧
    section_of in_entry 0x07 st b (set_final_script_sig (in_final_script_sig self) st).
Proof.
  intros Hs Hst. apply section_when; [done| |].
  - intros _. split; [done|]. field in_read_final_script_sig.
  - intros E. bools. apply len_nil_inv in E as ->. rewrite <- Hst. by destruct st.
Qed.

Lemma sec_tap_key_sig self st : in_tap_key_sig self = [] ∨ sig_size (in_tap_key_sig self) → in_tap_key_sig st = [] →
  ∃ b, ser_when (negb (len (in_tap_key_sig self) =? 0)) (ser_field 0x13 [] (in_tap_key_sig self)) = Ok b ∧
    section_of in_entry 0x13 st b (set_tap_key_sig (in_tap_key_sig self) st).
Proof.
  intros Hs Hst. apply section_when; [done| |].
  - intros E. destruct Hs as [Hs | [Hs1 Hs2]]; [by rewrite Hs in E|].
    assert (len (in_tap_key_sig self) <? 64 = false) by lia. assert (65 <? len (in_tap_key_sig self) = false) by lia.
    split; [apply small_short; unfold len in *; lia|]. field in_read_tap_key_sig.
  - intros E. bools. apply len_nil_inv in E as ->. rewrite <- Hst. by destruct st.
Qed.

Lemma sec_tap_internal_key self st :
  in_tap_internal_key self = [] ∨ length (in_tap_internal_key self) = 32%nat → in_tap_internal_key st = [] →
  ∃ b, ser_when (negb (len (in_tap_internal_key self) =? 0)) (ser_field 0x17 [] (in_tap_internal_key self)) = Ok b ∧
    section_of in_entry 0x17 st b (set_tap_internal_key (in_tap_internal_key self) st).
Proof.
  intros Hs Hst. apply section_when; [done| |].
  - intros E. destruct Hs as [Hs | Hs]; [by rewrite Hs in E|].
    assert (negb (len (in_tap_internal_key self) =? 32) = false) by (unfold len; rewrite Hs; done).
    split; [apply small_short; lia|]. field in_read_tap_internal_key.
  - intros E. bools. apply len_nil_inv in E as ->. rewrite <- Hst. by destruct st.
Qed.

Lemma sec_tap_merkle_root self st :
  in_tap_merkle_root self = [] ∨ length (in_tap_merkle_root self) = 32%nat → in_tap_merkle_root st = [] →
  ∃ b, ser_when (negb (len (in_tap_merkle_root self) =? 0)) (ser_field 0x18 [] (in_tap_merkle_root self)) = Ok b ∧
    section_of in_entry 0x18 st b (set_tap_merkle_root (in_tap_merkle_root self) st).
Proof.
  intros Hs Hst. apply section_when; [done| |].
  - intros E. destruct Hs as [Hs | Hs]; [by rewrite Hs in E|].
    assert (negb (len (in_tap_merkle_root self) =? 32) = false) by (unfold len; rewrite Hs; done).
    split; [apply small_short; lia|]. field in_read_tap_merkle_root.
  - intros E. bools. apply len_nil_inv in E as ->. rewrite <- Hst. by destruct st.
Qed.

(** *** Version 2 fields *)

Lemma sec_prev_txid self st : length (in_prev_txid self) = 32%nat → in_version st =? 0 = false →
  ∃ b, ser_when (negb (len (in_prev_txid self) =? 0)) (ser_field 0x0e [] (in_prev_txid self)) = Ok b ∧
    section_of in_entry 0x0e st b (set_prev_txid (in_prev_txid self) st).
Proof.
  intros Hs Hv. assert (negb (len (in_prev_txid self) =? 32) = false) by (unfold len; rewrite Hs; done).
  apply section_when; [done| |].
  - intros _. split; [apply small_short; lia|]. field in_read_prev_txid.
  - intros E. unfold len in E. by rewrite Hs in E.
Qed.

(** A 32-bit field that version 0 does not have. *)
Lemma v2_word v : fits 4 v → unpack_u 4 (le_bytes 4 v) = Ok v ∧ negb (len (le_bytes 4 v) =? 4) = false.
Proof. intros Hv. split; [by apply unpack_le|]. by rewrite len_le. Qed.

Lemma sec_prev_out self st : u32_opt (in_prev_out self) → in_version st =? 0 = false → in_prev_out st = None →
  ∃ b, ser_opt (in_prev_out self) (λ v, b ← pack_u 4 v; ser_field 0x0f [] b) = Ok b ∧
    section_of in_entry 0x0f st b (set_prev_out (in_prev_out self) st).
Proof.
  intros Ho Hv Hst. apply sec_u32; [done|done| |].
  - intros v _ [Hu Hw]%v2_word. field in_read_prev_out.
  - intros _. rewrite <- Hst. by destruct st.
Qed.

Lemma sec_sequence self st : u32_opt (in_sequence self) → in_version st =? 0 = false → in_sequence st = None →
  ∃ b, ser_opt (in_sequence self) (λ v, b ← pack_u 4 v; ser_field 0x10 [] b) = Ok b ∧
    section_of in_entry 0x10 st b (set_sequence (in_sequence self) st).
Proof.
  intros Ho Hv Hst. apply sec_u32; [done|done| |].
  - intros v _ [Hu Hw]%v2_word. field in_read_sequence.
  - intros _. rewrite <- Hst. by destruct st.
Qed.

Lemma sec_time_locktime self st :
  match in_time_locktime self with Some v => fits 4 v ∧ 500000000 <= v | None => True end →
  in_version st =? 0 = false → in_time_locktime st = None →
  ∃ b, ser_opt (in_time_locktime self) (λ v, b ← pack_u 4 v; ser_field 0x11 [] b) = Ok b ∧
    section_of in_entry 0x11 st b (set_time_locktime (in_time_locktime self) st).
Proof.
  intros Ho Hv Hst. apply sec_u32; [done|destruct (in_time_locktime self); [apply Ho|done]| |].
  - intros v Ev [Hu Hw]%v2_word. rewrite Ev in Ho. assert (v <? 500000000 = false) by lia. field in_read_time_locktime.
  - intros _. rewrite <- Hst. by destruct st.
Qed.

Lemma sec_height_locktime self st :
  match in_height_locktime self with Some v => 0 < v < 500000000 | None => True end →
  in_version st =? 0 = false → in_height_locktime st = None →
  ∃ b, ser_opt (in_height_locktime self) (λ v, b ← pack_u 4 v; ser_field 0x12 [] b) = Ok b ∧
    section_of in_entry 0x12 st b (set_height_locktime (in_height_locktime self) st).
Proof.
  intros Ho Hv Hst. apply sec_u32; [done| | |].
  - destruct (in_height_locktime self); [|done]. cbn. unfold fits. change (256 ^ Z.of_nat 4) with 4294967296. lia.
  - intros v Ev [Hu Hw]%v2_word. rewrite Ev in Ho.
    assert ((v =? 0) || (500000000 <=? v) = false) by lia. field in_read_height_locktime.
  - intros _. rewrite <- Hst. by destruct st.
Qed.

(** *** Dictionaries *)

Lemma NoDup_map_inj {A B C} (kd : A * C → B) (l : pydict A C) (P : A * C → Prop) :
  (∀ x y, P x → P y → kd x = kd y → x.1 = y.1) → Forall P l → dict_wf l → NoDup (map kd l).
Proof.
  intros Hi HP. unfold dict_wf. induction HP as [|x l Hx HP IH]; intros Hn; [constructor|].
  cbn [map] in *. rewrite fmap_cons in Hn. apply NoDup_cons in Hn as [Hn Hl]. constructor; [|by apply IH].
  intros (y & E & Hy)%list_elem_of_fmap. apply Hn, list_elem_of_fmap. exists y. split; [|done].
  rewrite Forall_forall in HP. apply Hi; auto.
Qed.

Lemma sec_partial_sigs self st :
  dict_wf (in_partial_sigs self) →
  Forall (λ x, (length x.1 = 33%nat ∨ length x.1 = 65%nat) ∧ small x.2) (in_partial_sigs self) →
  in_partial_sigs st = [] →
  ∃ b, ser_items (λ '(pubkey, sig), ser_field 0x02 pubkey sig) (sorted_items (in_partial_sigs self)) = Ok b ∧
    section_of in_entry 0x02 st b (set_partial_sigs (sorted_items (in_partial_sigs self)) st).
Proof.
  intros Hwf Hf Hst. rewrite <- (sorted_items_perm (in_partial_sigs self)) in Hf.
  apply (section_dict in_entry partial_sigs_l 0x02 fst snd);
    [done|done|by apply sorted_items_wf|by apply (sorted_items_wf (in_partial_sigs self))| |].
  - eapply Forall_impl; [exact Hf|]. intros [pk sig] [Hl Hs]. cbn [fst snd] in *.
    split; [|done]. destruct Hl; (eapply small_key; [eassumption|lia]).
  - eapply Forall_impl; [exact Hf|]. intros [pk sig] [Hk Hs] st0 Hin. cbn [fst snd lget partial_sigs_l] in *.
    assert (negb (len (chr 2 :: pk) =? 34) && negb (len (chr 2 :: pk) =? 66) = false) as Hsz
      by (rewrite len_cons; unfold len; destruct Hk as [-> | ->]; done).
    intros lookup vb Hl Hr. cbv beta iota delta [in_entry Z.eqb Pos.eqb]. unfold in_read_partial_sig.
    cbn [drop]. rewrite drop_0. repeat field_step.
Qed.

Lemma sec_hd_keypaths self st : keypaths_ok [34; 66] (in_hd_keypaths self) → in_hd_keypaths st = [] →
  ∃ b, SerializeHDKeypath (in_hd_keypaths self) 0x06 = Ok b ∧
    section_of in_entry 0x06 st b (set_hd_keypaths (sorted_items (in_hd_keypaths self)) st).
Proof. intros Hk Hst. by apply (section_keypaths in_entry hd_keypaths_l 0x06 [34; 66]). Qed.

Lemma sec_tap_script_sigs self st :
  dict_wf (in_tap_script_sigs self) →
  Forall (λ x, length x.1.1 = 32%nat ∧ length x.1.2 = 32%nat ∧ sig_size x.2) (in_tap_script_sigs self) →
  in_tap_script_sigs st = [] →
  ∃ b, ser_items (λ '((xonly, leaf_hash), sig), ser_field 0x14 (xonly ++ leaf_hash) sig) (in_tap_script_sigs self) = Ok b ∧
    section_of in_entry 0x14 st b (set_tap_script_sigs (in_tap_script_sigs self) st).
Proof.
  intros Hwf Hf Hst. apply (section_dict in_entry tap_script_sigs_l 0x14 (λ x, x.1.1 ++ x.1.2) snd); [done..| | |].
  - eapply NoDup_map_inj; [|exact Hf|exact Hwf]. intros [[x1 h1] s1] [[x2 h2] s2] (L1 & _) (L2 & _) E.
    cbn [fst snd] in *. apply app_inj_1 in E as [-> ->]; [done|congruence].
  - eapply Forall_impl; [exact Hf|]. intros [[x h] sig] (L1 & L2 & [S1 S2]). cbn [fst snd] in *.
    split; [eapply (small_key _ _ 64); [rewrite length_app; lia|lia]|].
    split; [apply small_short; unfold len in *; lia|done].
  - eapply Forall_impl; [exact Hf|]. intros [[x h] sig] (L1 & L2 & [S1 S2]) st0 Hin. cbn [fst snd] in *.
    assert (negb (len (chr 0x14 :: x ++ h) =? 65) = false) as Hsz
      by (rewrite len_cons, len_app; unfold len; rewrite L1, L2; done).
    assert (len sig <? 64 = false) by lia. assert (65 <? len sig = false) by lia.
    assert (slice 1 33 (chr 0x14 :: x ++ h) = x) as Ex.
    { apply (slice_app_exact [chr 0x14] x h); [done|rewrite length_app; simpl; lia]. }
    assert (slice 33 65 (chr 0x14 :: x ++ h) = h) as Eh.
    { rewrite <- (app_nil_r h) at 1. apply (slice_app_exact (chr 0x14 :: x) h []); rewrite ?length_app; cbn [length]; lia. }
    intros lookup vb Hl Hr. cbv beta iota delta [in_entry Z.eqb Pos.eqb]. unfold in_read_tap_script_sig.
    rewrite Ex, Eh. repeat field_step.
Qed.

Lemma sec_tap_bip32_paths self st :
  dict_wf (in_tap_bip32_paths self) →
  Forall (λ x, length x.1 = 32%nat ∧ tap_path_ok x.2) (in_tap_bip32_paths self) → in_tap_bip32_paths st = [] →
  ∃ b, ser_items (λ '(xonly, p), v ← ser_tap_path p; ser_field 0x16 xonly v) (in_tap_bip32_paths self) = Ok b ∧
    section_of in_entry 0x16 st b (set_tap_bip32_paths (in_tap_bip32_paths self) st).
Proof. intros Hwf Hf Hst. by apply (section_tap_paths in_entry tap_bip32_paths_l). Qed.

Lemma sec_participants self st :
  participants_ok (in_musig2_participant_pubkeys self) → in_musig2_participant_pubkeys st = [] →
  ∃ b, ser_items (λ '(pk, pubkeys), ser_field 0x1a pk (concat pubkeys)) (in_musig2_participant_pubkeys self) = Ok b ∧
    section_of in_entry 0x1a st b (set_musig2_participant_pubkeys (in_musig2_participant_pubkeys self) st).
Proof. intros Hp Hst. by apply (section_participants in_entry participants_l). Qed.

Lemma musig2_key_of_app t pk agg h :
  length pk = 33%nat → length agg = 33%nat → (if h is Some h then length h = 32%nat else True) →
  musig2_key_of (chr t :: pk ++ agg ++ default [] h) = (pk, agg, h) ∧
  bool_decide (len (chr t :: pk ++ agg ++ default [] h) ∈ [1 + 33 + 33; 1 + 33 + 33 + 32]) = true.
Proof.
  intros L1 L2 L3. assert (len (chr t :: pk ++ agg ++ default [] h) = 67 + len (default [] h)) as El.
  { rewrite len_cons, !len_app. unfold len. rewrite L1, L2. lia. }
  split.
  - unfold musig2_key_of. rewrite El.
    assert (slice 1 (1 + 33) (chr t :: pk ++ agg ++ default [] h) = pk) as ->
      by (apply (slice_app_exact [chr t]); rewrite ?length_app; cbn [length]; lia).
    assert (slice (1 + 33) (1 + 33 + 33) (chr t :: pk ++ agg ++ default [] h) = agg) as ->
      by (apply (slice_app_exact (chr t :: pk)); rewrite ?length_app; cbn [length]; lia).
    assert (drop (1 + 33 + 33) (chr t :: pk ++ agg ++ default [] h) = default [] h) as ->.
    { change (chr t :: pk ++ agg ++ default [] h) with ((chr t :: pk) ++ agg ++ default [] h). rewrite app_assoc.
      apply drop_app_exact. rewrite length_app. cbn [length]. lia. }
    destruct h as [h|]; cbn [default id]; [|done]. cbv iota in L3. unfold len. by rewrite L3.
  - rewrite El. apply bool_decide_eq_true_2. destruct h as [h|]; cbn [default id].
    + cbv iota in L3. unfold len. rewrite L3. right. left.
    + left.
Qed.

Lemma musig2_items t n (L : lens PsbtIn (pydict musig2_key bytes)) d st :
  0 <= t < 253 → (n <= 1000)%nat → musig2_ok n d → lget L st = [] →
  (∀ key lookup st, in_entry key t lookup st =
    (check (bool_decide (key ∈ lookup));;
     check (negb (bool_decide (len key ∈ [1 + 33 + 33; 1 + 33 + 33 + 32])));;
     v ← deser_string;
     check (negb (len v =? Z.of_nat n));;
     mret (lset L (dict_set (musig2_key_of key) v (lget L st)) st))) →
  ∃ b, ser_musig2 t d = Ok b ∧ section_of in_entry t st b (lset L d st).
Proof.
  intros Ht Hn [Hwf Hf] Hst He.
  apply (section_dict in_entry L t (λ x, x.1.1.1 ++ x.1.1.2 ++ default [] x.1.2) snd); [done..| | |].
  - eapply NoDup_map_inj; [|exact Hf|exact Hwf].
    intros [[[p1 a1] h1] v1] [[[p2 a2] h2] v2] (P1 & A1 & H1 & _) (P2 & A2 & H2 & _) E. cbn [fst snd] in *.
    destruct (musig2_key_of_app t _ _ _ P1 A1 H1) as [<- _]. by rewrite E, (proj1 (musig2_key_of_app t _ _ _ P2 A2 H2)).
  - eapply Forall_impl; [exact Hf|]. intros [[[pk agg] h] v] (L1 & L2 & L3 & L4). cbn [fst snd] in *.
    split; [|split; [apply small_short; lia|done]]. apply small_short. cbn [length]. rewrite !length_app.
    destruct h; cbn [default id length]; lia.
  - eapply Forall_impl; [exact Hf|]. intros [[[pk agg] h] v] (L1 & L2 & L3 & L4) st0 Hin. cbn [fst snd] in *.
    destruct (musig2_key_of_app t pk agg h L1 L2 L3) as [Ek Esz].
    intros lookup vb Hl Hr. rewrite He, Esz, Ek.
    assert (negb (len v =? Z.of_nat n) = false) by (unfold len; by rewrite L4, Z.eqb_refl).
    repeat field_step.
Qed.

Lemma sec_pub_nonces self st : musig2_ok 66 (in_musig2_pub_nonces self) → in_musig2_pub_nonces st = [] →
  ∃ b, ser_musig2 0x1b (in_musig2_pub_nonces self) = Ok b ∧
    section_of in_entry 0x1b st b (set_musig2_pub_nonces (in_musig2_pub_nonces self) st).
Proof. intros Hk Hst. apply (musig2_items 0x1b 66 pub_nonces_l); [done|lia|done|done|reflexivity]. Qed.

Lemma sec_musig_sigs self st : musig2_ok 32 (in_musig2_partial_sigs self) → in_musig2_partial_sigs st = [] →
  ∃ b, ser_musig2 0x1c (in_musig2_partial_sigs self) = Ok b ∧
    section_of in_entry 0x1c st b (set_musig2_partial_sigs (in_musig2_partial_sigs self) st).
Proof. intros Hk Hst. apply (musig2_items 0x1c 32 musig_sigs_l); [done|lia|done|done|reflexivity]. Qed.

(** *** Transactions, outputs and witnesses *)

Lemma serialize_with_witness_same tx b tx' :
  length (wit tx) = length (vin tx) → serialize_with_witness tx = Ok (b, tx') → tx' = tx.
Proof.
  intros El Hs. unfold serialize_with_witness in Hs. rewrite El, Nat.eqb_refl, andb_false_r in Hs.
  apply bind_ok in Hs as (? & _ & Hs). apply bind_ok in Hs as (? & _ & Hs). apply bind_ok in Hs as (? & _ & Hs).
  apply bind_ok in Hs as (? & _ & Hs). apply bind_ok in Hs as (? & _ & Hs). apply bind_ok in Hs as (? & _ & Hs).
  by injection Hs.
Qed.

Lemma tx_loaded_bytes tx : tx_loaded tx →
  ∃ b, serialize_with_witness tx = Ok (b, tx) ∧ small b ∧
    (tx_deserialize CTransaction_new b).1 = Ok (fresh_tx tx (wit tx)) ∧ rehash (fresh_tx tx (wit tx)) = Ok tx.
Proof.
  intros (Hwf & Hin & Hw & Hre & Hsm). destruct Hw as [Hw|[Hw Hl]].
  - destruct (serialize_without_witness_reads tx Hwf) as (b & Hb & _).
    pose proof (serialize_with_null_witness tx b ltac:(by rewrite Hw) Hb) as E. rewrite E in Hsm.
    exists b. split; [done|]. split; [done|]. split; [|done].
    pose proof (deserialize_without_flags tx Hwf b CTransaction_new Hin Hb eq_refl) as Hr.
    rewrite Hw. by rewrite (reads_whole _ _ _ Hr).
  - destruct (serialize_with_witness_reads tx Hwf Hw) as (b & tx' & Hb & _ & Hr).
    pose proof (serialize_with_witness_same _ _ _ Hl Hb) as ->. rewrite Hb in Hsm.
    exists b. split; [done|]. split; [done|]. split; [|done].
    rewrite (reads_whole _ _ _ (Hr _)). by rewrite fit_witness_id.
Qed.

Lemma sec_non_witness_utxo self st :
  match in_non_witness_utxo self with Some tx => tx_loaded tx | None => True end → in_non_witness_utxo st = None →
  ∃ b, match in_non_witness_utxo self with
       | None => Ok ([], self)
       | Some tx =>
           '(b, tx) ← serialize_with_witness tx;
           r ← ser_field 0x00 [] b;
           Ok (r, set_non_witness_utxo (Some tx) self)
       end = Ok (b, self) ∧
    section_of in_entry 0x00 st b (set_non_witness_utxo (in_non_witness_utxo self) st).
Proof.
  intros Hl Hst. destruct (in_non_witness_utxo self) as [tx|] eqn:E.
  - apply tx_loaded_bytes in Hl as (v & Ev & Hs & Hd & Hre).
    destruct (section_when in_entry 0x00 true v st (set_non_witness_utxo (Some tx) st)) as (b & Eb & S); [done| |done|].
    + intros _. split; [done|]. intros lookup vb Hl Hr. cbv beta iota delta [in_entry Z.eqb Pos.eqb].
      unfold in_read_non_witness_utxo. repeat field_step.
    + exists b. rewrite Ev, bind_Ok. cbn [ser_when] in Eb. rewrite Eb, bind_Ok. split; [|done].
      rewrite <- E. by destruct self.
  - exists []. split; [done|]. rewrite <- Hst. replace (set_non_witness_utxo _ st) with st by (by destruct st).
    apply section_none.
Qed.

Lemma sec_witness_utxo self st :
  match in_witness_utxo self with Some o => txout_ok o | None => True end → in_witness_utxo st = None →
  ∃ b, ser_opt (in_witness_utxo self) (λ o, b ← CTxOut_serialize o; ser_field 0x01 [] b) = Ok b ∧
    section_of in_entry 0x01 st b (set_witness_utxo (in_witness_utxo self) st).
Proof.
  intros Hl Hst. destruct (in_witness_utxo self) as [o|]; cbn [ser_opt].
  - destruct Hl as [Hwf Hsz]. destruct (codec_total (ser := CTxOut_serialize) o Hwf) as (v & Ev).
    pose proof (codec_reads (ser := CTxOut_serialize) o v Hwf Ev) as Hd. apply reads_whole in Hd.
    assert ((CTxOut_deserialize v).1 = Ok o) as Hd' by (by rewrite Hd).
    assert (small v) as Hs.
    { unfold CTxOut_serialize in Ev. apply bind_ok in Ev as (a & Ea & Ev). apply bind_ok in Ev as (c & Ec & Ev).
      injection Ev as <-. apply length_pack_s in Ea. unfold ser_string in Ec. apply bind_ok in Ec as (n & En & Ec).
      injection Ec as <-. apply ser_compact_size_length in En. unfold small. rewrite !len_app, En. unfold len at 1. rewrite Ea.
      repeat case_match; lia. }
    rewrite Ev, bind_Ok. apply (section_when in_entry 0x01 true v); [done| |done].
    intros _. split; [done|]. field in_read_witness_utxo.
  - exists []. split; [done|]. rewrite <- Hst. replace (set_witness_utxo _ st) with st by (by destruct st).
    apply section_none.
Qed.

Lemma sec_final_script_witness self st :
  inwit_wf (in_final_script_witness self) →
  match CTxInWitness_serialize (in_final_script_witness self) with Ok b => small b | Err _ => False end →
  in_final_script_witness st = CTxInWitness_new →
  ∃ b, ser_when (negb (CTxInWitness_is_null (in_final_script_witness self)))
      (w ← CTxInWitness_serialize (in_final_script_witness self); ser_field 0x08 [] w) = Ok b ∧
    section_of in_entry 0x08 st b (set_final_script_witness (in_final_script_witness self) st).
Proof.
  intros Hwf Hs Hst. destruct (codec_total (ser := CTxInWitness_serialize) _ Hwf) as (v & Ev). rewrite Ev in *.
  pose proof (codec_reads (ser := CTxInWitness_serialize) _ v Hwf Ev) as Hd. apply reads_whole in Hd.
  assert ((CTxInWitness_deserialize v).1 = Ok (in_final_script_witness self)) as Hd' by (by rewrite Hd).
  rewrite bind_Ok. apply section_when; [done| |].
  - intros _. split; [done|]. field in_read_final_script_witness.
  - intros E. bools. unfold CTxInWitness_is_null, CScriptWitness_is_null in E.
    destruct (in_final_script_witness self) as [[|]]; [|done].
    change {| stack := [] |} with CTxInWitness_new. rewrite <- Hst. by destruct st.
Qed.

(** *** Leaf scripts: a set of control blocks per script *)

(** [tap_scripts[leaf].add(block)]. *)
Definition add_block (d : pydict (bytes * Z) (gset bytes)) (x : (bytes * Z) * bytes) : pydict (bytes * Z) (gset bytes) :=
  dict_set x.1 ({[x.2]} ∪ default ∅ (dict_get x.1 d)) d.

Definition leaf_blocks (d : pydict (bytes * Z) (gset bytes)) : list ((bytes * Z) * bytes) :=
  concat (map (λ x, map (λ c, (x.1, c)) (set_iter x.2)) d).

Lemma leaf_blocks_blocks d : map snd (leaf_blocks d) = control_blocks d.
Proof.
  unfold leaf_blocks, control_blocks. rewrite concat_map, map_map. f_equal. apply map_ext. intros [k s].
  rewrite map_map. apply map_id.
Qed.

Lemma add_blocks_leaf (d : pydict (bytes * Z) (gset bytes)) (k : bytes * Z) (l : list bytes) (s : gset bytes) :
  k ∉ d.*1 → foldl add_block (d ++ [(k, s)]) (map (λ c, (k, c)) l) = d ++ [(k, list_to_set l ∪ s)].
Proof.
  intros Hk. revert s. induction l as [|c l IH]; intros s.
  - cbn [map foldl]. f_equal. f_equal. f_equal. set_solver.
  - cbn [map foldl]. assert (add_block (d ++ [(k, s)]) (k, c) = d ++ [(k, {[c]} ∪ s)]) as ->.
    { unfold add_block. cbn [fst snd]. clear IH. induction d as [|[k' v'] d IHd].
      - cbn. by rewrite !decide_True by done.
      - apply not_elem_of_cons in Hk as [Hne Hk]. cbn [fst] in Hne. cbn [app dict_get dict_set].
        rewrite !decide_False by congruence. f_equal. by apply IHd. }
    rewrite IH. f_equal. f_equal. f_equal. set_solver.
Qed.

Lemma add_blocks (d0 d : pydict (bytes * Z) (gset bytes)) : dict_wf (d0 ++ d) → Forall (λ x, x.2 ≠ ∅) d → foldl add_block d0 (leaf_blocks d) = d0 ++ d.
Proof.
  revert d0. induction d as [|[k s] d IH]; intros d0 Hwf Hne; [by rewrite app_nil_r|].
  apply Forall_cons_1 in Hne as [Hs Hne]. cbn [snd] in Hs. unfold leaf_blocks. cbn [map concat fst snd].
  rewrite foldl_app. fold (leaf_blocks d).
  assert (k ∉ d0.*1) as Hk.
  { unfold dict_wf in Hwf. rewrite fmap_app in Hwf. apply NoDup_app in Hwf as (_ & Hd & _). intros Hin. apply (Hd _ Hin). left. }
  assert (foldl add_block d0 (map (λ c, (k, c)) (set_iter s)) = d0 ++ [(k, s)]) as ->.
  { pose proof (set_iter_list_to_set s) as Hl. destruct (set_iter s) as [|c l].
    - exfalso. apply Hs. by rewrite <- Hl.
    - cbn [map foldl]. assert (add_block d0 (k, c) = d0 ++ [(k, {[c]})]) as ->.
      { unfold add_block. cbn [fst snd]. rewrite dict_set_fresh by done. f_equal. f_equal. f_equal.
        assert (dict_get k d0 = None) as ->; [|set_solver]. destruct (dict_get k d0) eqn:E; [|done].
        apply dict_not_in in Hk. unfold dict_in in Hk. by rewrite E in Hk. }
      rewrite add_blocks_leaf by done. f_equal. f_equal. f_equal. rewrite <- Hl. set_solver. }
  rewrite IH; [by rewrite <- app_assoc|by rewrite <- app_assoc|done].
Qed.

Definition upd_block (st : PsbtIn) (x : (bytes * Z) * bytes) : PsbtIn :=
  set_tap_scripts (add_block (in_tap_scripts st) x) st.

Lemma upd_blocks st l : foldl upd_block st l = set_tap_scripts (foldl add_block (in_tap_scripts st) l) st.
Proof.
  revert st. induction l as [|x l IH]; intros st; [by destruct st|]. cbn [foldl]. rewrite IH. by destruct st.
Qed.

Lemma ser_items_ext {A} (f g : A → result bytes) l : (∀ x, f x = g x) → ser_items f l = ser_items g l.
Proof.
  intros E. unfold ser_items. f_equal. induction l as [|x l IH]; [done|]. cbn [mapR]. by rewrite E, IH.
Qed.

Lemma ser_items_concat {A B C} (f : C * B → result bytes) (h : A → C) (g : A → list B) l :
  ser_items (λ x, ser_items (λ c, f (h x, c)) (g x)) l =
  ser_items f (concat (map (λ x, map (λ c, (h x, c)) (g x)) l)).
Proof.
  unfold ser_items. induction l as [|x l IH]; [done|]. cbn [map concat mapR]. rewrite mapR_app.
  assert (∀ m, mapR (λ c, f (h x, c)) m = mapR f (map (λ c, (h x, c)) m)) as Em.
  { clear. induction m as [|c m IH]; [done|]. cbn [map mapR]. by rewrite IH. }
  rewrite Em. destruct (mapR f (map _ (g x))) as [b1|e]; [|done]. cbn [mbind result_bind] in *.
  destruct (mapR _ l) as [b2|e2], (mapR f (concat _)) as [b3|e3]; cbn in *; try congruence.
  injection IH as E. by rewrite concat_app, E.
Qed.

Lemma leaf_blocks_Forall (P : (bytes * Z) → Prop) (Q : bytes → Prop) (d : pydict (bytes * Z) (gset bytes)) :
  Forall (λ x, P x.1) d → Forall Q (control_blocks d) → Forall (λ x, P x.1 ∧ Q x.2) (leaf_blocks d).
Proof.
  rewrite <- leaf_blocks_blocks, Forall_map. intros HP HQ. apply Forall_and. split; [|exact HQ]. clear HQ.
  unfold leaf_blocks. induction HP as [|[k s] d Hk HP IH]; [constructor|]. cbn [map concat fst snd].
  apply Forall_app. split; [|exact IH]. apply Forall_map, Forall_true. done.
Qed.

Lemma sec_tap_scripts self st : tap_scripts_ok (in_tap_scripts self) → in_tap_scripts st = [] →
  ∃ b, ser_items (λ '((script, leaf_ver), control_blocks),
      ser_items (λ control_block,
        v ← pack_u 1 leaf_ver; ser_field 0x15 control_block (script ++ v)) (set_iter control_blocks))
    (in_tap_scripts self) = Ok b ∧
    section_of in_entry 0x15 st b (set_tap_scripts (in_tap_scripts self) st).
Proof.
  intros (Hwf & Hn & Hd & Hc) Hst. set (d := in_tap_scripts self) in *.
  set (f := λ x : (bytes * Z) * bytes, v ← pack_u 1 x.1.2; ser_field 0x15 x.2 (x.1.1 ++ v)).
  rewrite (ser_items_ext _ (λ x, ser_items (λ c, f (x.1, c)) (set_iter x.2))) by (by intros [[]]).
  rewrite ser_items_concat. fold (leaf_blocks d).
  assert (set_tap_scripts d st = foldl upd_block st (leaf_blocks d)) as ->.
  { rewrite upd_blocks, Hst. rewrite (add_blocks [] d); [done|done|]. eapply Forall_impl; [exact Hd|]. by intros x (_ & _ & ?). }
  assert (Forall (λ x, (len x.1.1 + 1 <= maxsize ∧ fits 1 x.1.2) ∧
    (33 <= len x.2 ∧ small (chr 0x15 :: x.2) ∧ (len x.2 - 1) mod 32 = 0)) (leaf_blocks d)) as Hall.
  { apply (leaf_blocks_Forall (λ k, len k.1 + 1 <= maxsize ∧ fits 1 k.2)
      (λ c, 33 <= len c ∧ small (chr 0x15 :: c) ∧ (len c - 1) mod 32 = 0)); [|exact Hc].
    eapply Forall_impl; [exact Hd|]. by intros x (? & ? & _). }
  apply (section_items in_entry 0x15 snd f (λ x, x.1.1 ++ [chr x.1.2])); [done|by rewrite leaf_blocks_blocks| |].
  - eapply Forall_impl; [exact Hall|]. intros [[sc ver] c] [[Hs Hv] (Hl & Hk & Hm)]. cbn [fst snd] in *.
    split; [done|]. split; [unfold small; rewrite len_app; change (len [chr ver]) with 1; lia|].
    unfold f. cbn [fst snd]. by rewrite pack_u_fits, bind_Ok by done.
  - intros pre [[sc ver] c] post Epost. rewrite Epost in Hall. apply Forall_app in Hall as [_ Hall].
    apply Forall_cons_1 in Hall as [[[Hs Hv] (Hl & Hk & Hm)] _]. cbn [fst snd] in *.
    rewrite foldl_snoc. generalize (foldl upd_block st pre). intros st0 lookup vb Hlk Hr.
    cbv beta iota delta [in_entry Z.eqb Pos.eqb]. unfold in_read_tap_leaf_script.
    assert (len (chr 0x15 :: c) <? 34 = false) by (rewrite len_cons; lia).
    assert (negb ((len (chr 0x15 :: c) - 2) mod 32 =? 0) = false)
      by (rewrite len_cons; replace (1 + len c - 2) with (len c - 1) by lia; by rewrite Hm).
    assert (len (sc ++ [chr ver]) =? 0 = false)
      by (rewrite len_app; change (len [chr ver]) with 1; pose proof (len_nonneg sc); lia).
    assert (of_option IndexError (last (sc ++ [chr ver])) = Ok (chr ver)) by (by rewrite last_snoc).
    repeat field_step. cbn [drop]. rewrite drop_0, (slice_to_neg_exact _ _ 1), ord_chr_small by done. apply reads_ret.
Qed.

(** *** The whole map *)

Definition put_unfinalized self st : PsbtIn :=
  set_tap_merkle_root (in_tap_merkle_root self) (set_tap_internal_key (in_tap_internal_key self)
    (set_tap_bip32_paths (in_tap_bip32_paths self) (set_tap_scripts (in_tap_scripts self)
      (set_tap_script_sigs (in_tap_script_sigs self) (set_tap_key_sig (in_tap_key_sig self)
        (set_hd_keypaths (sorted_items (in_hd_keypaths self)) (set_witness_script (in_witness_script self)
          (set_redeem_script (in_redeem_script self) (set_sighash (in_sighash self)
            (set_partial_sigs (sorted_items (in_partial_sigs self)) st)))))))))).

Lemma unfinalized_runs self t o v : in_unfinalized_wf self →
  let st := set_witness_utxo o (set_non_witness_utxo t (PsbtIn_new v)) in
  ∃ b, in_serialize_unfinalized self = Ok b ∧ ∀ ts b2 st2,
    runs in_entry ts (put_unfinalized self st) b2 st2 →
    runs in_entry ([0x02; 0x03; 0x04; 0x05; 0x06; 0x13; 0x14; 0x15; 0x16; 0x17; 0x18] ++ ts) st (b ++ b2) st2.
Proof.
  intros ([W1a W1b] & W2 & W3 & W4 & W5 & W6 & [W7a W7b] & W8 & [W9a W9b] & W10 & W11) st. unfold put_unfinalized.
  set (s1 := set_partial_sigs _ st). set (s2 := set_sighash _ s1). set (s3 := set_redeem_script _ s2).
  set (s4 := set_witness_script _ s3). set (s5 := set_hd_keypaths _ s4). set (s6 := set_tap_key_sig _ s5).
  set (s7 := set_tap_script_sigs _ s6). set (s8 := set_tap_scripts _ s7). set (s9 := set_tap_bip32_paths _ s8).
  set (s10 := set_tap_internal_key _ s9).
  destruct (sec_partial_sigs self st W1a W1b eq_refl) as (b1 & E1 & S1).
  destruct (sec_sighash self s1 W2 eq_refl) as (b2 & E2 & S2).
  destruct (sec_redeem_script self s2 W3 eq_refl) as (b3 & E3 & S3).
  destruct (sec_witness_script self s3 W4 eq_refl) as (b4 & E4 & S4).
  destruct (sec_hd_keypaths self s4 W5 eq_refl) as (b5 & E5 & S5).
  destruct (sec_tap_key_sig self s5 W6 eq_refl) as (b6 & E6 & S6).
  destruct (sec_tap_script_sigs self s6 W7a W7b eq_refl) as (b7 & E7 & S7).
  destruct (sec_tap_scripts self s7 W8 eq_refl) as (b8 & E8 & S8).
  destruct (sec_tap_bip32_paths self s8 W9a W9b eq_refl) as (b9 & E9 & S9).
  destruct (sec_tap_internal_key self s9 W10 eq_refl) as (b10 & E10 & S10).
  destruct (sec_tap_merkle_root self s10 W11 eq_refl) as (b11 & E11 & S11).
  eexists. split.
  { unfold in_serialize_unfinalized.
    rewrite E1, bind_Ok, E2, bind_Ok, E3, bind_Ok, E4, bind_Ok, E5, bind_Ok, E6, bind_Ok, E7, bind_Ok, E8, bind_Ok,
      E9, bind_Ok, E10, bind_Ok, E11, bind_Ok. reflexivity. }
  intros ts r st2 Hr. rewrite <- !app_assoc.
  do 11 (eapply runs_cons; [eassumption|]). exact Hr.
Qed.

Definition put_v2 self st : PsbtIn :=
  set_height_locktime (in_height_locktime self) (set_time_locktime (in_time_locktime self)
    (set_sequence (in_sequence self) (set_prev_out (in_prev_out self) (set_prev_txid (in_prev_txid self) st)))).

Lemma v2_runs self st : in_v2_wf self → in_version st =? 0 = false →
  in_prev_out st = None → in_sequence st = None → in_time_locktime st = None → in_height_locktime st = None →
  ∃ b, in_serialize_v2 self = Ok b ∧ ∀ ts b2 st2, runs in_entry ts (put_v2 self st) b2 st2 →
    runs in_entry ([0x0e; 0x0f; 0x10; 0x11; 0x12] ++ ts) st (b ++ b2) st2.
Proof.
  intros (W1 & W2 & W3 & W4 & W5) Hv H1 H2 H3 H4. unfold put_v2.
  set (s1 := set_prev_txid _ st). set (s2 := set_prev_out _ s1). set (s3 := set_sequence _ s2).
  set (s4 := set_time_locktime _ s3).
  destruct (sec_prev_txid self st W1 Hv) as (b1 & E1 & S1).
  assert (u32_opt (in_prev_out self)) as W2' by (by destruct (in_prev_out self)).
  destruct (sec_prev_out self s1 W2' Hv H1) as (b2 & E2 & S2).
  destruct (sec_sequence self s2 W3 Hv H2) as (b3 & E3 & S3).
  destruct (sec_time_locktime self s3 W4 Hv H3) as (b4 & E4 & S4).
  destruct (sec_height_locktime self s4 W5 Hv H4) as (b5 & E5 & S5).
  eexists. split.
  { unfold in_serialize_v2. rewrite E1, bind_Ok, E2, bind_Ok, E3, bind_Ok, E4, bind_Ok, E5, bind_Ok. reflexivity. }
  intros ts r st2 Hr. rewrite <- !app_assoc. do 5 (eapply runs_cons; [eassumption|]). exact Hr.
Qed.

Lemma in_entry_unknown key t lookup st : t ∉ in_types → in_entry key t lookup st = in_read_unknown key lookup st.
Proof.
  intros Ht. unfold in_entry. unfold in_types in Ht. rewrite !not_elem_of_cons in Ht.
  repeat match goal with |- context [t =? ?c] => rewrite (proj2 (Z.eqb_neq t c)) by tauto end. done.
Qed.

Lemma unknown_runs self st : unknown_ok in_types (in_unknown self) → in_unknown st = [] →
  ∃ b, ser_items (λ '(k, v), ser_kv k v) (sorted_items (in_unknown self)) = Ok b ∧
    runs in_entry [] st b (set_unknown (sorted_items (in_unknown self)) st).
Proof.
  intros [Hwf Hf] Hst. rewrite <- (sorted_items_perm (in_unknown self)) in Hf.
  apply (runs_unknown in_entry unknown_l); [done|by apply sorted_items_wf|].
  eapply Forall_impl; [exact Hf|]. intros [k v] (Hne & Hk & Hv & Ht). cbn [fst snd lget unknown_l] in *.
  destruct (deser_compact_size k).1 as [t|]; [|done]. split_and!; [done..|]. exists t. split; [done|].
  intros lookup st0 vb Hin Hr. rewrite in_entry_unknown by done. unfold in_read_unknown. repeat field_step.
Qed.

Lemma in_types_ok : types_ok in_types.
Proof. split; [|apply (bool_decide_unpack _); vm_compute; exact I]. repeat (constructor; [lia|]). constructor. Qed.

(** The middle part of the final scripts and MuSig2 fields, then version 2
    fields and the unknown entries. *)
Lemma in_runs self : in_wf self →
  ∃ b, in_serialize self = Ok (b ++ [chr 0], self) ∧
    runs in_entry in_types (PsbtIn_new (in_version self)) b (in_read_back self).
Proof.
  intros (W0 & W1 & WU & W7 & [W8a W8b] & W9 & W10 & W11 & WV & WK).
  set (v := in_version self) in *. set (i0 := PsbtIn_new v).
  set (i1 := set_non_witness_utxo (in_non_witness_utxo self) i0).
  set (i2 := set_witness_utxo (in_witness_utxo self) i1).
  set (i3 := if in_unfinalized self then put_unfinalized self i2 else i2).
  set (i4 := set_final_script_sig (in_final_script_sig self) i3).
  set (i5 := set_final_script_witness (in_final_script_witness self) i4).
  set (i6 := set_musig2_participant_pubkeys (in_musig2_participant_pubkeys self) i5).
  set (i7 := set_musig2_pub_nonces (in_musig2_pub_nonces self) i6).
  set (i8 := set_musig2_partial_sigs (in_musig2_partial_sigs self) i7).
  set (i9 := if 2 <=? v then put_v2 self i8 else i8).
  destruct (sec_non_witness_utxo self i0 W0 eq_refl) as (b0 & E0 & S0).
  destruct (sec_witness_utxo self i1 W1 eq_refl) as (b1 & E1 & S1).
  assert (∃ b, ser_when (in_unfinalized self) (in_serialize_unfinalized self) = Ok b ∧ ∀ ts b2 st2,
    runs in_entry ts i3 b2 st2 →
    runs in_entry ([0x02; 0x03; 0x04; 0x05; 0x06; 0x13; 0x14; 0x15; 0x16; 0x17; 0x18] ++ ts) i2 (b ++ b2) st2)
    as (bu & Eu & Su).
  { unfold i3. destruct (in_unfinalized self); [by apply unfinalized_runs|].
    exists []. split; [done|]. intros. by apply runs_skip. }
  destruct (sec_final_script_sig self i3 W7 ltac:(unfold i3; by destruct (in_unfinalized self))) as (b7 & E7 & S7).
  destruct (sec_final_script_witness self i4 W8a W8b ltac:(unfold i4, i3; by destruct (in_unfinalized self))) as (b8 & E8 & S8).
  destruct (sec_participants self i5 W9 ltac:(unfold i5, i4, i3; by destruct (in_unfinalized self))) as (b9 & E9 & S9).
  destruct (sec_pub_nonces self i6 W10 ltac:(unfold i6, i5, i4, i3; by destruct (in_unfinalized self))) as (b10 & E10 & S10).
  destruct (sec_musig_sigs self i7 W11 ltac:(unfold i7, i6, i5, i4, i3; by destruct (in_unfinalized self))) as (b11 & E11 & S11).
  assert (∃ b, ser_when (2 <=? v) (in_serialize_v2 self) = Ok b ∧ ∀ ts b2 st2, runs in_entry ts i9 b2 st2 →
    runs in_entry ([0x0e; 0x0f; 0x10; 0x11; 0x12] ++ ts) i8 (b ++ b2) st2) as (bv & Ev & Sv).
  { unfold i9. destruct (Z.leb_spec 2 v) as [Hv|Hv].
    - apply v2_runs; [by apply WV|..]; unfold i8, i7, i6, i5, i4, i3; destruct (in_unfinalized self); try done;
        apply Z.eqb_neq; unfold v in Hv; cbn; lia.
    - exists []. split; [done|]. intros. by apply runs_skip. }
  destruct (unknown_runs self i9 WK) as (bk & Ek & Sk).
  { unfold i9, i8, i7, i6, i5, i4, i3. by destruct (in_unfinalized self), (2 <=? v). }
  assert (in_read_back self = set_unknown (sorted_items (in_unknown self)) i9) as ->.
  { unfold in_read_back, i9, i8, i7, i6, i5, i4, i3. fold v. by destruct (in_unfinalized self), (2 <=? v). }
  eexists. split.
  - unfold in_serialize. rewrite E0, bind_Ok, E1, bind_Ok. fold (in_unfinalized self). rewrite Eu, bind_Ok, E7, bind_Ok,
      E8, bind_Ok, E9, bind_Ok, E10, bind_Ok, E11, bind_Ok. fold v. rewrite Ev, bind_Ok, Ek, bind_Ok. reflexivity.
  - change in_types with ([0x00; 0x01] ++ [0x02; 0x03; 0x04; 0x05; 0x06; 0x13; 0x14; 0x15; 0x16; 0x17; 0x18] ++
      [0x07; 0x08; 0x1a; 0x1b; 0x1c] ++ [0x0e; 0x0f; 0x10; 0x11; 0x12] ++ []).
    do 2 (eapply runs_cons; [eassumption|]). apply Su. do 5 (eapply runs_cons; [eassumption|]). apply Sv. exact Sk.
Qed.

Lemma in_reads self : in_wf self →
  ∃ b, in_serialize self = Ok (b ++ [chr 0], self) ∧
    reads (in_deserialize (PsbtIn_new (in_version self))) (b ++ [chr 0]) (in_read_back self).
Proof.
  intros Hwf. destruct (in_runs self Hwf) as (b & Eb & Hr). exists b. split; [done|].
  unfold in_deserialize. eapply reads_bind_end; [by apply (runs_read _ in_types); [apply in_types_ok|]|].
  destruct Hwf as (_ & _ & _ & _ & _ & _ & _ & _ & WV & _).
  change (in_version (in_read_back self)) with (in_version self).
  destruct (Z.leb_spec 2 (in_version self)) as [Hv|Hv]; cbn [andb].
  - apply Z.leb_le in Hv as Hb. destruct (WV Hv) as (W1 & W2 & _).
    eapply reads_bind_nil; [apply reads_check|eapply reads_bind_nil; [apply reads_check|apply reads_ret]];
      unfold in_read_back; cbn [in_prev_txid in_prev_out]; rewrite Hb.
    + unfold len. by rewrite W1.
    + destruct (in_prev_out self); [|done]. done.
  - do 2 (eapply reads_bind_nil; [by apply reads_check|]). apply reads_ret.
Qed.
End sections.

(** * What the parser accepts *)

(** The states of the read loop of a fresh input. *)
Inductive in_reach `{Hashes} (v : Z) : PsbtIn → gset bytes → Prop :=
  | in_reach_init : in_reach v (PsbtIn_new v) ∅
  | in_reach_entry st lookup key t s st' s' :
      in_reach v st lookup → (deser_compact_size key).1 = Ok t →
      in_entry key t lookup st s = (Ok st', s') →
      in_reach v st' ({[key]} ∪ lookup).

(** The invariant of those states. *)
Record in_valid (self : PsbtIn) : Prop := {
  iv_v0 : in_version self = 0 → in_prev_txid self = [] ∧ in_prev_out self = None ∧
    in_sequence self = None ∧ in_time_locktime self = None ∧ in_height_locktime self = None;
  iv_txid : in_prev_txid self = [] ∨ length (in_prev_txid self) = 32%nat;
  iv_out : u32_opt (in_prev_out self);
  iv_seq : u32_opt (in_sequence self);
  iv_sighash : u32_opt (in_sighash self);
  iv_time : match in_time_locktime self with Some v => fits 4 v ∧ 500000000 <= v | None => True end;
  iv_height : match in_height_locktime self with Some v => 0 < v < 500000000 | None => True end;
  iv_sigs : dict_wf (in_partial_sigs self) ∧
    Forall (λ k, length k = 33%nat ∨ length k = 65%nat) (in_partial_sigs self).*1;
  iv_paths : dict_wf (in_hd_keypaths self) ∧
    Forall (λ k, length k = 33%nat ∨ length k = 65%nat) (in_hd_keypaths self).*1;
  iv_keysig : in_tap_key_sig self = [] ∨ sig_size (in_tap_key_sig self);
  iv_internal : in_tap_internal_key self = [] ∨ length (in_tap_internal_key self) = 32%nat;
  iv_root : in_tap_merkle_root self = [] ∨ length (in_tap_merkle_root self) = 32%nat;
  iv_unknown : dict_wf (in_unknown self);
}.

Lemma dict_set_Forall {K V} `{EqDecision K} (P : K → Prop) k (v : V) (d : pydict K V) :
  P k → Forall P d.*1 → Forall P (dict_set k v d).*1.
Proof.
  intros Hk Hd. induction d as [|[k' v'] d IH]; cbn; [by constructor|].
  apply Forall_cons_1 in Hd as [H1 H2]. case_decide; constructor; auto.
Qed.

Lemma len_drop1 (key : bytes) n : len key = Z.of_nat n + 1 → length (drop 1 key) = n.
Proof. intros Hl. unfold len in Hl. rewrite length_drop. lia. Qed.

Lemma hd_keypath_ok key (d : pydict bytes KeyOriginInfo) sizes s d' s' :
  DeserializeHDKeypath key d sizes s = (Ok d', s') →
  len key ∈ sizes ∧ dict_in (drop 1 key) d = false ∧ ∃ o, d' = dict_set (drop 1 key) o d.
Proof.
  unfold DeserializeHDKeypath. intros H. invert_reader H. bools. split; [done|]. split; [done|]. by eexists.
Qed.

Ltac unfold_handlers H :=
  first [ progress unfold in_read_non_witness_utxo in H
        | progress unfold in_read_witness_utxo in H
        | progress unfold in_read_partial_sig in H
        | progress unfold in_read_sighash in H
        | progress unfold in_read_redeem_script in H
        | progress unfold in_read_witness_script in H
        | progress unfold in_read_hd_keypath in H
        | progress unfold in_read_final_script_sig in H
        | progress unfold in_read_final_script_witness in H
        | progress unfold in_read_prev_txid in H
        | progress unfold in_read_prev_out in H
        | progress unfold in_read_sequence in H
        | progress unfold in_read_time_locktime in H
        | progress unfold in_read_height_locktime in H
        | progress unfold in_read_tap_key_sig in H
        | progress unfold in_read_tap_script_sig in H
        | progress unfold in_read_tap_leaf_script in H
        | progress unfold in_read_tap_bip32_derivation in H
        | progress unfold in_read_tap_internal_key in H
        | progress unfold in_read_tap_merkle_root in H
        | progress unfold in_read_musig2_participants in H
        | progress unfold in_read_musig2_pub_nonce in H
        | progress unfold in_read_musig2_partial_sig in H
        | progress unfold in_read_unknown in H ].

Ltac unfold_handler_goal :=
  first [ progress unfold in_read_non_witness_utxo
        | progress unfold in_read_witness_utxo
        | progress unfold in_read_partial_sig
        | progress unfold in_read_sighash
        | progress unfold in_read_redeem_script
        | progress unfold in_read_witness_script
        | progress unfold in_read_hd_keypath
        | progress unfold in_read_final_script_sig
        | progress unfold in_read_final_script_witness
        | progress unfold in_read_prev_txid
        | progress unfold in_read_prev_out
        | progress unfold in_read_sequence
        | progress unfold in_read_time_locktime
        | progress unfold in_read_height_locktime
        | progress unfold in_read_tap_key_sig
        | progress unfold in_read_tap_script_sig
        | progress unfold in_read_tap_leaf_script
        | progress unfold in_read_tap_bip32_derivation
        | progress unfold in_read_tap_internal_key
        | progress unfold in_read_tap_merkle_root
        | progress unfold in_read_musig2_participants
        | progress unfold in_read_musig2_pub_nonce
        | progress unfold in_read_musig2_partial_sig
        | progress unfold in_read_unknown ].

Section accepted.
Context `{Hashes}.

Lemma in_entry_valid key t lookup st s st' s' :
  in_valid st → in_entry key t lookup st s = (Ok st', s') → in_valid st' ∧ in_version st' = in_version st.
Proof.
  intros Hv H0. unfold in_entry in H0.
  repeat (match type of H0 with (if ?b then _ else _) _ = _ => destruct b end).
  all: unfold_handlers H0.
  all: try (apply reader_bind_ok in H0 as (d & s1 & Hd & H0); apply hd_keypath_ok in Hd as (Hsz & Hin & o & ->)).
  all: invert_reader H0; (split; [|reflexivity]).
  all: destruct Hv; constructor; cbn; try assumption; try congruence.
  all: repeat match goal with
    | H : unpack_u 4 _ = Ok _ |- _ => apply unpack_u_fits in H
    end; cbn; try assumption.
  all: bools; try (right; unfold len in *; lia).
  all: try (intros ?; congruence).
  all: try (split; [by apply dict_set_wf, iv_sigs0|apply dict_set_Forall; [|apply iv_sigs0]]).
  all: try (split; [by apply dict_set_wf, iv_paths0|apply dict_set_Forall; [|apply iv_paths0]]).
  all: try by apply dict_set_wf.
  all: try (right; split; lia).
  all: try (split; lia).
  all: try lia.
  - apply andb_false_iff in E as [E|E]; bools; [left|right]; by apply (len_drop1 key).
  - repeat (apply elem_of_cons in Hsz as [Hsz|Hsz]); [left|right|by apply not_elem_of_nil in Hsz]; by apply (len_drop1 key).
  - split; [done|lia].
  - unfold fits in *. lia.
Qed.

Lemma in_reach_valid v st lookup : in_reach v st lookup → in_valid st ∧ in_version st = v.
Proof.
  induction 1 as [|st lookup key t s st' s' _ [IH1 IH2] _ He].
  - split; [|done]. constructor; cbn; auto; try (split; constructor); constructor.
  - destruct (in_entry_valid _ _ _ _ _ _ _ IH1 He) as [Hv E]. split; [done|congruence].
Qed.

Lemma in_deserialize_reach v s st s' :
  in_deserialize (PsbtIn_new v) s = (Ok st, s') → (∃ lookup, in_reach v st lookup) ∧
    (2 <= v → length (in_prev_txid st) = 32%nat ∧ is_Some (in_prev_out st)).
Proof.
  unfold in_deserialize. intros He. invert_reader He.
  eapply (read_map_inv in_entry (in_reach v)) in E as (lookup & Hr);
    [|intros; by eapply in_reach_entry|constructor].
  split; [by exists lookup|]. intros Hv. apply in_reach_valid in Hr as [Hval Ever].
  rewrite Ever in *. rewrite (proj2 (Z.leb_le 2 v) Hv) in *. cbn [andb] in *. bools.
  split; [|done]. destruct (iv_txid _ Hval) as [E|]; [|done]. rewrite E in *. done.
Qed.

Lemma dict_in_set {K V} `{EqDecision K} k k' (v : V) (d : pydict K V) :
  dict_in k' (dict_set k v d) = bool_decide (k = k') || dict_in k' d.
Proof. unfold dict_in. rewrite dict_get_set. by case_decide; case_bool_decide. Qed.

(** The dictionaries an entry checks for its own duplicates. *)
Definition in_seen (key : bytes) (t : Z) (st : PsbtIn) : Prop :=
  (t = 0x02 → dict_in (drop 1 key) (in_partial_sigs st) = true) ∧
  (t = 0x06 → dict_in (drop 1 key) (in_hd_keypaths st) = true) ∧
  (t ∉ in_types → dict_in key (in_unknown st) = true).

Lemma in_entry_seen key t lookup st s st' s' :
  in_entry key t lookup st s = (Ok st', s') →
  in_seen key t st' ∧ ∀ key' t', in_seen key' t' st → in_seen key' t' st'.
Proof.
  intros H0. unfold in_entry in H0.
  repeat (match type of H0 with (if ?b then _ else _) _ = _ => destruct b eqn:? end).
  all: unfold_handlers H0.
  all: try (apply reader_bind_ok in H0 as (d & s1 & Hd & H0); apply hd_keypath_ok in Hd as (Hsz & Hin & o & ->)).
  all: invert_reader H0; bools; unfold in_seen; cbn.
  all: split; [split_and!; intros Ht|intros key' t' (P1 & P2 & P3); split_and!; intros Ht'].
  all: rewrite ?dict_in_set; try (by rewrite bool_decide_eq_true_2).
  all: try (apply orb_true_iff; right; auto).
  all: try (first [apply P1|apply P2|apply P3]; done).
  all: try (exfalso; subst; apply Ht; unfold in_types; rewrite !elem_of_cons; tauto).
  all: try lia.
Qed.

Lemma in_reach_seen v st lookup : in_reach v st lookup →
  ∀ key t, key ∈ lookup → (deser_compact_size key).1 = Ok t → in_seen key t st.
Proof.
  induction 1 as [|st lookup key t s st' s' _ IH Ht He]; intros key' t' Hin Ht'; [set_solver|].
  destruct (in_entry_seen _ _ _ _ _ _ _ He) as [Hs Hm].
  apply elem_of_union in Hin as [->%elem_of_singleton|Hin]; [|by apply Hm, IH].
  rewrite Ht in Ht'. injection Ht' as <-. exact Hs.
Qed.

Lemma check_bind {A} b (f : () → reader A) s :
  (check b ≫= f) s = if b then (Err PSBTSerializationError, s) else f () s.
Proof. by destruct b. Qed.

Lemma single_key_seen {A} k lookup (f : () → reader A) s :
  k ∈ lookup → (single_key k lookup ≫= f) s = (Err PSBTSerializationError, s).
Proof.
  intros Hk. unfold single_key, mbind, reader_bind. rewrite bool_decide_eq_true_2 by done. done.
Qed.

Lemma in_entry_duplicate key t lookup st s :
  key ∈ lookup → in_seen key t st → in_entry key t lookup st s = (Err PSBTSerializationError, s).
Proof.
  intros Hk (S1 & S2 & S3). pose proof (bool_decide_eq_true_2 _ Hk) as Hb.
  destruct (decide (t ∈ in_types)) as [Hin|Hn].
  - unfold in_types in Hin. repeat (apply elem_of_cons in Hin as [->|Hin]); [..|by apply not_elem_of_nil in Hin];
      cbv beta iota delta [in_entry Z.eqb Pos.eqb].
    all: unfold_handler_goal.
    all: try (apply single_key_seen; done).
    all: rewrite ?check_bind, ?Hb; try done.
    all: try (destruct (in_version st =? 0); [done|apply single_key_seen; done]).
    + case_match; [done|]. by rewrite S1.
    + apply reader_bind_err. unfold DeserializeHDKeypath. rewrite check_bind. case_match; [done|].
      cbv zeta. by rewrite check_bind, S2.
  - rewrite in_entry_unknown by done. unfold in_read_unknown. by rewrite check_bind, S3.
Qed.
End accepted.

(** ** Termination of the parser *)

Lemma safe_txin : safe CTxIn_deserialize.
Proof. unfold CTxIn_deserialize, COutPoint_deserialize, deser_uint256, read_u. cbn [deser_uint256_loop]. unfold read_u. safe_solve. Qed.

Lemma safe_txout : safe CTxOut_deserialize.
Proof. unfold CTxOut_deserialize, read_s. safe_solve. Qed.

Lemma safe_inwit : safe CTxInWitness_deserialize.
Proof. unfold CTxInWitness_deserialize, deser_string_vector. safe_solve. Qed.

#[export] Hint Resolve safe_txin safe_txout safe_inwit : safe.

Lemma safe_tx self : safe (tx_deserialize self).
Proof. unfold tx_deserialize, read_s, read_u, CTxWitness_deserialize. safe_solve. Qed.

Lemma safe_tx_without_witness : safe tx_deserialize_without_witness.
Proof. unfold tx_deserialize_without_witness, read_s, read_u. safe_solve. Qed.

Lemma nf_ser_compact_size n : no_fuel_error (ser_compact_size n).
Proof. unfold ser_compact_size. safe_solve. Qed.

Lemma nf_ser_string s : no_fuel_error (ser_string s).
Proof. unfold ser_string. pose proof nf_ser_compact_size. safe_solve. Qed.

#[export] Hint Resolve safe_tx safe_tx_without_witness nf_ser_compact_size nf_ser_string : safe.

Lemma nf_serialize_without_witness tx : no_fuel_error (serialize_without_witness tx).
Proof.
  unfold serialize_without_witness, ser_vector, CTxIn_serialize, COutPoint_serialize, CTxOut_serialize.
  safe_solve. rewrite ser_uint256_le. done.
Qed.

#[export] Hint Resolve nf_serialize_without_witness : safe.

Lemma nf_rehash `{Hashes} tx : no_fuel_error (rehash tx).
Proof.
  unfold rehash, calc_sha256, uint256_from_str, tx_serialize. safe_solve.
Qed.

#[export] Hint Resolve nf_rehash : safe.

Lemma safe_in_entry `{Hashes} key t lookup st : safe (in_entry key t lookup st).
Proof. unfold in_entry. repeat case_match; unfold_handler_goal; safe_solve. Qed.

Lemma safe_in_deserialize `{Hashes} self : safe (in_deserialize self).
Proof. unfold in_deserialize. pose proof (safe_read_map in_entry self safe_in_entry). safe_solve. Qed.

(** ** Deciding well-formedness, for examples *)

#[export] Instance tx_loaded_dec `{Hashes} tx : Decision (tx_loaded tx).
Proof. unfold tx_loaded. repeat case_match; apply _. Defined.
#[export] Instance txout_ok_dec o : Decision (txout_ok o).
Proof. unfold txout_ok. apply _. Defined.
#[export] Instance u32_opt_dec o : Decision (u32_opt o).
Proof. destruct o; apply _. Defined.
#[export] Instance sig_size_dec s : Decision (sig_size s).
Proof. unfold sig_size. apply _. Defined.
#[export] Instance dict_wf_dec {K V} `{EqDecision K} (d : pydict K V) : Decision (dict_wf d).
Proof. unfold dict_wf. apply _. Defined.
#[export] Instance if_some_dec (o : option bytes) n : Decision (if o is Some h then length h = n else True).
Proof. destruct o; apply _. Defined.
#[export] Instance musig2_ok_dec n d : Decision (musig2_ok n d).
Proof. unfold musig2_ok. apply _. Defined.
#[export] Instance participants_ok_dec d : Decision (participants_ok d).
Proof. unfold participants_ok. apply _. Defined.
#[export] Instance result_not_in_dec (r : result Z) (known : list Z) : Decision (match r with Ok t => t ∉ known | Err _ => False end).
Proof. destruct r; apply _. Defined.
#[export] Instance unknown_ok_dec l d : Decision (unknown_ok l d).
Proof. unfold unknown_ok. apply _. Defined.
#[export] Instance tap_scripts_ok_dec `{SetOrder} d : Decision (tap_scripts_ok d).
Proof. unfold tap_scripts_ok. apply _. Defined.
#[export] Instance keypaths_ok_dec l d : Decision (keypaths_ok l d).
Proof. unfold keypaths_ok, origin_ok. apply _. Defined.
#[export] Instance tap_path_ok_dec `{SetOrder} p : Decision (tap_path_ok p).
Proof. unfold tap_path_ok, origin_ok. apply _. Defined.
#[export] Instance in_unfinalized_wf_dec `{SetOrder} self : Decision (in_unfinalized_wf self).
Proof. unfold in_unfinalized_wf. apply _. Defined.
#[export] Instance in_v2_wf_dec self : Decision (in_v2_wf self).
Proof. unfold in_v2_wf. repeat case_match; apply _. Defined.
#[export] Instance result_small_dec (r : result bytes) : Decision (match r with Ok b => small b | Err _ => False end).
Proof. destruct r; apply _. Defined.
#[export] Instance in_wf_dec `{Hashes} `{SetOrder} self : Decision (in_wf self).
Proof. unfold in_wf. repeat case_match; apply _. Defined.

(** A version 2 input with an entry of most kinds. *)
Definition example_in : PsbtIn :=
  let key := chr 2 :: replicate 32 (chr 9) in
  let origin := {| fingerprint := map chr [1; 2; 3; 4]; path := [H_ 86; H_ 0; 7] |} in
  {| in_non_witness_utxo := None;
     in_witness_utxo := Some {| nValue := 1000; scriptPubKey := [chr 0x51] |};
     in_partial_sigs := [(key, [chr 5])]; in_sighash := Some 1; in_redeem_script := []; in_witness_script := [chr 7];
     in_hd_keypaths := [(chr 3 :: replicate 32 (chr 9), origin); (key, origin)]; in_final_script_sig := [];
     in_final_script_witness := CTxInWitness_new; in_prev_txid := replicate 32 (chr 8); in_prev_out := Some 3;
     in_sequence := None; in_time_locktime := None; in_height_locktime := Some 800000;
     in_tap_key_sig := replicate 64 (chr 1);
     in_tap_script_sigs := [((replicate 32 (chr 1), replicate 32 (chr 2)), replicate 65 (chr 3))];
     in_tap_scripts := [(([chr 0x51], 0xc0), {[replicate 33 (chr 4)]})];
     in_tap_bip32_paths := [(replicate 32 (chr 1), ({[replicate 32 (chr 2); replicate 32 (chr 3)]}, origin))];
     in_tap_internal_key := replicate 32 (chr 6); in_tap_merkle_root := [];
     in_musig2_participant_pubkeys := [(key, [key; key])];
     in_musig2_pub_nonces := [((key, key, Some (replicate 32 (chr 2))), replicate 66 (chr 1)); ((key, key, None), replicate 66 (chr 2))];
     in_musig2_partial_sigs := []; in_unknown := [(map chr [0x20; 1], []); ([chr 0x1f], [chr 1])]; in_version := 2 |}.

(** * Properties *)

(** An input map is read back as it was written: for every well-formed input, [serialize]
    succeeds and [deserialize] of the bytes, whatever follows them, gives the input with the
    dictionaries that are written sorted in that order (equal dictionaries in Python), the
    signing fields of a finalized input dropped, and the version 2 fields kept from version 2 on;
    the order in which Python iterates the sets does not matter. *)
Theorem psbt_in_roundtrip `{Hashes} `{SetOrder} (self : PsbtIn) (Hwf : in_wf self) :
  ∃ b, in_serialize self = Ok (b, self) ∧
    (∀ rest, in_deserialize (PsbtIn_new (in_version self)) (b ++ rest) = (Ok (in_read_back self), rest)) ∧
    dict_eq (in_unknown (in_read_back self)) (in_unknown self) ∧
    (in_unfinalized self = true →
      dict_eq (in_partial_sigs (in_read_back self)) (in_partial_sigs self) ∧
      dict_eq (in_hd_keypaths (in_read_back self)) (in_hd_keypaths self)).
Proof.
  destruct (in_reads self Hwf) as (b & Eb & Hr). exists (b ++ [chr 0]). split; [done|]. split; [exact Hr|].
  destruct Hwf as (_ & _ & ((Hp & _) & _ & _ & _ & [Hh _] & _) & _ & _ & _ & _ & _ & _ & [Hu _]).
  split; [by apply sorted_items_eq|]. intros Hf. unfold in_read_back. cbn [in_partial_sigs in_hd_keypaths].
  rewrite Hf. split; by apply sorted_items_eq.
Qed.

Lemma psbt_in_roundtrip_witness :
  ∃ b, in_serialize example_in = Ok (b, example_in) ∧
    (∀ rest, in_deserialize (H := executable_hashes) (PsbtIn_new 2) (b ++ rest) = (Ok (in_read_back example_in), rest)) ∧
    dict_eq (in_unknown (in_read_back example_in)) (in_unknown example_in) ∧
    (in_unfinalized example_in = true →
      dict_eq (in_partial_sigs (in_read_back example_in)) (in_partial_sigs example_in) ∧
      dict_eq (in_hd_keypaths (in_read_back example_in)) (in_hd_keypaths example_in)).
Proof.
  apply (psbt_in_roundtrip (H := executable_hashes) example_in).
  apply (bool_decide_unpack _). vm_compute. exact I.
Defined.

(** Whatever bytes it is given, the input parser only returns inputs whose fields have the
    sizes and ranges of the specification ([in_valid]: key and signature lengths, 32-bit numbers,
    time locks from 500000000 on and height locks below, no duplicate dictionary keys), without
    version 2 fields in version 0, and with the previous output in version 2. *)
Theorem psbt_in_valid `{Hashes} (v : Z) (s s' : bytes) (st : PsbtIn)
    (Hd : in_deserialize (PsbtIn_new v) s = (Ok st, s')) :
  in_valid st ∧ in_version st = v ∧
  (2 <= v → length (in_prev_txid st) = 32%nat ∧ is_Some (in_prev_out st)).
Proof.
  apply in_deserialize_reach in Hd as [(lookup & Hr) Hv]. apply in_reach_valid in Hr as [H1 H2]. done.
Qed.

Lemma psbt_in_valid_witness : in_valid (set_redeem_script [chr 7] (PsbtIn_new 0)).
Proof.
  apply (psbt_in_valid (H := executable_hashes) 0 (map chr [1; 4; 1; 7; 0; 9]) [chr 9]).
  vm_compute. reflexivity.
Defined.

(** No key of an input map is accepted twice: in every state the read loop can reach, an entry
    whose key has been read before raises [PSBTSerializationError], also for the types that look
    for duplicates in their own dictionary and for unknown types. *)
Theorem psbt_in_no_duplicates `{Hashes} (v t : Z) (st : PsbtIn) (lookup : gset bytes) (key s : bytes)
    (Hr : in_reach v st lookup) (Hk : key ∈ lookup) (Ht : (deser_compact_size key).1 = Ok t) :
  in_entry key t lookup st s = (Err PSBTSerializationError, s).
Proof. apply in_entry_duplicate; [done|]. by eapply in_reach_seen. Qed.

Lemma psbt_in_no_duplicates_witness :
  in_entry (H := executable_hashes) [chr 4] 4 {[ [chr 4] ]} (set_redeem_script [chr 7] (PsbtIn_new 0)) [chr 1; chr 9] =
    (Err PSBTSerializationError, [chr 1; chr 9]).
Proof.
  apply (psbt_in_no_duplicates (H := executable_hashes) 0 4).
  - replace {[ [chr 4] ]} with ({[ [chr 4] ]} ∪ (∅ : gset bytes)) by set_solver.
    eapply (in_reach_entry 0 (PsbtIn_new 0) ∅ [chr 4] 4 [chr 1; chr 7]); [constructor|reflexivity|].
    vm_compute. reflexivity.
  - by apply elem_of_singleton.
  - reflexivity.
Defined.
