(* ===== verification/PsbtOut.v ===== *)
(** * [hwilib/psbt.py], [PartiallySignedOutput]

    The output map of a PSBT, in the same form as the input map. *)

From S2P Require Import Prelude Bytes Safe PyStd PyStr Common Serialize Tx KeyPath PsbtMap PsbtIn.

(** ** State *)

Record PsbtOut := {
  out_redeem_script : bytes;
  out_witness_script : bytes;
  out_hd_keypaths : pydict bytes KeyOriginInfo;
  out_amount : option Z;
  out_script : bytes;
  out_tap_internal_key : bytes;
  out_tap_tree : bytes;
  out_tap_bip32_paths : pydict bytes (gset bytes * KeyOriginInfo);
  out_musig2_participant_pubkeys : pydict bytes (list bytes);
  out_unknown : pydict bytes bytes;
  out_version : Z;
}.

(** [PartiallySignedOutput(version)]. *)
Definition PsbtOut_new (version : Z) : PsbtOut :=
  {| out_redeem_script := []; out_witness_script := []; out_hd_keypaths := []; out_amount := None;
     out_script := []; out_tap_internal_key := []; out_tap_tree := []; out_tap_bip32_paths := [];
     out_musig2_participant_pubkeys := []; out_unknown := []; out_version := version |}.

Definition out_set_null (self : PsbtOut) : PsbtOut := PsbtOut_new (out_version self).

Definition out_eta (r : PsbtOut) : PsbtOut :=
  {| out_redeem_script := out_redeem_script r; out_witness_script := out_witness_script r;
     out_hd_keypaths := out_hd_keypaths r; out_amount := out_amount r; out_script := out_script r;
     out_tap_internal_key := out_tap_internal_key r; out_tap_tree := out_tap_tree r;
     out_tap_bip32_paths := out_tap_bip32_paths r;
     out_musig2_participant_pubkeys := out_musig2_participant_pubkeys r; out_unknown := out_unknown r;
     out_version := out_version r |}.

Definition set_out_redeem_script : bytes → PsbtOut → PsbtOut := ltac:(setter out_eta out_redeem_script).
Definition set_out_witness_script : bytes → PsbtOut → PsbtOut := ltac:(setter out_eta out_witness_script).
Definition set_out_hd_keypaths : pydict bytes KeyOriginInfo → PsbtOut → PsbtOut := ltac:(setter out_eta out_hd_keypaths).
Definition set_out_amount : option Z → PsbtOut → PsbtOut := ltac:(setter out_eta out_amount).
Definition set_out_script : bytes → PsbtOut → PsbtOut := ltac:(setter out_eta out_script).
Definition set_out_tap_internal_key : bytes → PsbtOut → PsbtOut := ltac:(setter out_eta out_tap_internal_key).
Definition set_out_tap_tree : bytes → PsbtOut → PsbtOut := ltac:(setter out_eta out_tap_tree).
Definition set_out_tap_bip32_paths : pydict bytes (gset bytes * KeyOriginInfo) → PsbtOut → PsbtOut := ltac:(setter out_eta out_tap_bip32_paths).
Definition set_out_musig2_participant_pubkeys : pydict bytes (list bytes) → PsbtOut → PsbtOut := ltac:(setter out_eta out_musig2_participant_pubkeys).
Definition set_out_unknown : pydict bytes bytes → PsbtOut → PsbtOut := ltac:(setter out_eta out_unknown).
Definition set_out_version : Z → PsbtOut → PsbtOut := ltac:(setter out_eta out_version).

(** ** Reading one field *)

Section fields.
Implicit Types (key : bytes) (lookup : gset bytes) (self : PsbtOut).

Definition out_read_redeem_script key lookup self : reader PsbtOut :=
  single_key key lookup;;
  v ← deser_string;
  mret (set_out_redeem_script v self).

Definition out_read_witness_script key lookup self : reader PsbtOut :=
  single_key key lookup;;
  v ← deser_string;
  mret (set_out_witness_script v self).

Definition out_read_hd_keypath key lookup self : reader PsbtOut :=
  d ← DeserializeHDKeypath key (out_hd_keypaths self) [34; 66];
  mret (set_out_hd_keypaths d self).

Definition out_read_amount key lookup self : reader PsbtOut :=
  check (out_version self =? 0);;
  single_key key lookup;;
  v ← deser_string;
  check (negb (len v =? 8));;
  n ← lift (unpack_s 8 v);
  mret (set_out_amount (Some n) self).

Definition out_read_script key lookup self : reader PsbtOut :=
  check (out_version self =? 0);;
  single_key key lookup;;
  v ← deser_string;
  mret (set_out_script v self).

Definition out_read_tap_internal_key key lookup self : reader PsbtOut :=
  single_key key lookup;;
  v ← deser_string;
  check (negb (len v =? 32));;
  mret (set_out_tap_internal_key v self).

Definition out_read_tap_tree key lookup self : reader PsbtOut :=
  single_key key lookup;;
  v ← deser_string;
  mret (set_out_tap_tree v self).

Definition out_read_tap_bip32_derivation key lookup self : reader PsbtOut :=
  check (bool_decide (key ∈ lookup));;
  check (negb (len key =? 33));;
  let xonly := slice 1 33 key in
  value ← deser_string;
  p ← lift (read_tap_path value).1;
  mret (set_out_tap_bip32_paths (dict_set xonly p (out_tap_bip32_paths self)) self).

Definition out_read_musig2_participants key lookup self : reader PsbtOut :=
  check (bool_decide (key ∈ lookup));;
  check (negb (len key =? 1 + 33));;
  pubkeys_cat ← deser_string;
  pubkeys ← musig2_pubkeys pubkeys_cat;
  mret (set_out_musig2_participant_pubkeys
    (dict_set (drop 1 key) pubkeys (out_musig2_participant_pubkeys self)) self).

Definition out_read_unknown key lookup self : reader PsbtOut :=
  check (dict_in key (out_unknown self));;
  value ← deser_string;
  mret (set_out_unknown (dict_set key value (out_unknown self)) self).

(** ** The read loop *)

Definition out_entry key (key_type : Z) lookup self : reader PsbtOut :=
  if key_type =? 0x00 then out_read_redeem_script key lookup self
  else if key_type =? 0x01 then out_read_witness_script key lookup self
  else if key_type =? 0x02 then out_read_hd_keypath key lookup self
  else if key_type =? 0x03 then out_read_amount key lookup self
  else if key_type =? 0x04 then out_read_script key lookup self
  else if key_type =? 0x05 then out_read_tap_internal_key key lookup self
  else if key_type =? 0x06 then out_read_tap_tree key lookup self
  else if key_type =? 0x07 then out_read_tap_bip32_derivation key lookup self
  else if key_type =? 0x08 then out_read_musig2_participants key lookup self
  else out_read_unknown key lookup self.

Definition out_deserialize self : reader PsbtOut :=
  self ← read_map out_entry self;
  check ((2 <=? out_version self) && negb (bool_decide (is_Some (out_amount self))));;
  check ((2 <=? out_version self) && (len (out_script self) =? 0));;
  mret self.
End fields.

(** ** Serialization *)

Section ser.
Context `{SetOrder}.

Definition out_serialize (self : PsbtOut) : result bytes :=
  redeem ← ser_when (negb (len (out_redeem_script self) =? 0)) (ser_field 0x00 [] (out_redeem_script self));
  wscript ← ser_when (negb (len (out_witness_script self) =? 0)) (ser_field 0x01 [] (out_witness_script self));
  paths ← SerializeHDKeypath (out_hd_keypaths self) 0x02;
  amount ← ser_when (2 <=? out_version self)
    (ser_opt (out_amount self) (λ v, b ← pack_s 8 v; ser_field 0x03 [] b));
  script ← ser_when ((2 <=? out_version self) && negb (len (out_script self) =? 0))
    (ser_field 0x04 [] (out_script self));
  internal ← ser_when (negb (len (out_tap_internal_key self) =? 0)) (ser_field 0x05 [] (out_tap_internal_key self));
  tree ← ser_when (negb (len (out_tap_tree self) =? 0)) (ser_field 0x06 [] (out_tap_tree self));
  tappaths ← ser_items (λ '(xonly, p), v ← ser_tap_path p; ser_field 0x07 xonly v) (out_tap_bip32_paths self);
  musig ← ser_items (λ '(pk, pubkeys), ser_field 0x08 pk (concat pubkeys)) (out_musig2_participant_pubkeys self);
  unknowns ← ser_items (λ '(k, v), ser_kv k v) (sorted_items (out_unknown self));
  Ok ((redeem ++ wscript ++ paths ++ amount ++ script ++ internal ++ tree ++ tappaths ++ musig ++ unknowns) ++ [chr 0]).
End ser.

Definition get_txout (self : PsbtOut) : result CTxOut :=
  match out_amount self with
  | None => Err AssertionError
  | Some amount =>
      if len (out_script self) =? 0 then Err AssertionError
      else Ok {| nValue := amount; scriptPubKey := out_script self |}
  end.

(** * What serializes and reads back *)

Definition out_types : list Z := [0x00; 0x01; 0x02; 0x03; 0x04; 0x05; 0x06; 0x07; 0x08].

Definition out_wf `{SetOrder} (self : PsbtOut) : Prop :=
  small (out_redeem_script self) ∧ small (out_witness_script self) ∧
  keypaths_ok [34; 66] (out_hd_keypaths self) ∧
  (2 <= out_version self →
    match out_amount self with Some v => in_s 8 v = true | None => False end ∧
    small (out_script self) ∧ out_script self ≠ []) ∧
  (out_tap_internal_key self = [] ∨ length (out_tap_internal_key self) = 32%nat) ∧
  small (out_tap_tree self) ∧
  (dict_wf (out_tap_bip32_paths self) ∧
   Forall (λ x, length x.1 = 32%nat ∧ tap_path_ok x.2) (out_tap_bip32_paths self)) ∧
  participants_ok (out_musig2_participant_pubkeys self) ∧ unknown_ok out_types (out_unknown self).

#[export] Instance out_wf_dec `{SetOrder} self : Decision (out_wf self).
Proof. unfold out_wf. destruct (out_amount self); apply _. Defined.

(** What reading back gives; the version 2 fields of an older output are not written. *)
Definition out_read_back (self : PsbtOut) : PsbtOut :=
  let v2 {A} (x y : A) := if 2 <=? out_version self then x else y in
  {| out_redeem_script := out_redeem_script self; out_witness_script := out_witness_script self;
     out_hd_keypaths := sorted_items (out_hd_keypaths self); out_amount := v2 (out_amount self) None;
     out_script := v2 (out_script self) []; out_tap_internal_key := out_tap_internal_key self;
     out_tap_tree := out_tap_tree self; out_tap_bip32_paths := out_tap_bip32_paths self;
     out_musig2_participant_pubkeys := out_musig2_participant_pubkeys self;
     out_unknown := sorted_items (out_unknown self); out_version := out_version self |}.

(** * Lemmas *)

Definition out_hd_keypaths_l : lens PsbtOut (pydict bytes KeyOriginInfo).
Proof. refine {| lget := out_hd_keypaths; lset := set_out_hd_keypaths |}; lens_laws. Defined.
Definition out_tap_bip32_paths_l : lens PsbtOut (pydict bytes (gset bytes * KeyOriginInfo)).
Proof. refine {| lget := out_tap_bip32_paths; lset := set_out_tap_bip32_paths |}; lens_laws. Defined.
Definition out_participants_l : lens PsbtOut (pydict bytes (list bytes)).
Proof. refine {| lget := out_musig2_participant_pubkeys; lset := set_out_musig2_participant_pubkeys |}; lens_laws. Defined.
Definition out_unknown_l : lens PsbtOut (pydict bytes bytes).
Proof. refine {| lget := out_unknown; lset := set_out_unknown |}; lens_laws. Defined.

Ltac out_field handler :=
  let lookup := fresh "lookup" in let vb := fresh "vb" in
  intros lookup vb Hl Hr;
  cbv beta iota delta [out_entry Z.eqb Pos.eqb]; unfold handler; repeat field_step.

Section sections.
Context `{SetOrder}.
Implicit Types self st : PsbtOut.

Lemma sec_out_redeem_script self st : small (out_redeem_script self) → out_redeem_script st = [] →
  ∃ b, ser_when (negb (len (out_redeem_script self) =? 0)) (ser_field 0x00 [] (out_redeem_script self)) = Ok b ∧
    section_of out_entry 0x00 st b (set_out_redeem_script (out_redeem_script self) st).
Proof.
  intros Hs Hst. apply section_when; [done| |].
  - intros _. split; [done|]. out_field out_read_redeem_script.
  - intros E. bools. apply len_nil_inv in E as ->. rewrite <- Hst. by destruct st.
Qed.

Lemma sec_out_witness_script self st : small (out_witness_script self) → out_witness_script st = [] →
  ∃ b, ser_when (negb (len (out_witness_script self) =? 0)) (ser_field 0x01 [] (out_witness_script self)) = Ok b ∧
    section_of out_entry 0x01 st b (set_out_witness_script (out_witness_script self) st).
Proof.
  intros Hs Hst. apply section_when; [done| |].
  - intros _. split; [done|]. out_field out_read_witness_script.
  - intros E. bools. apply len_nil_inv in E as ->. rewrite <- Hst. by destruct st.
Qed.

Lemma sec_out_hd_keypaths self st : keypaths_ok [34; 66] (out_hd_keypaths self) → out_hd_keypaths st = [] →
  ∃ b, SerializeHDKeypath (out_hd_keypaths self) 0x02 = Ok b ∧
    section_of out_entry 0x02 st b (set_out_hd_keypaths (sorted_items (out_hd_keypaths self)) st).
Proof. intros Hk Hst. by apply (section_keypaths out_entry out_hd_keypaths_l 0x02 [34; 66]). Qed.

Lemma unpack_le_s v : in_s 8 v = true → unpack_s 8 (le_bytes 8 v) = Ok v ∧ negb (len (le_bytes 8 v) =? 8) = false.
Proof. intros Hv. split; [by apply unpack_pack_s; [lia|apply pack_s_in]|]. by rewrite len_le. Qed.

Lemma sec_out_amount self st :
  (2 <= out_version self → match out_amount self with Some v => in_s 8 v = true | None => False end) →
  out_version st = out_version self → out_amount st = None →
  ∃ b, ser_when (2 <=? out_version self) (ser_opt (out_amount self) (λ v, b ← pack_s 8 v; ser_field 0x03 [] b)) = Ok b ∧
    section_of out_entry 0x03 st b (set_out_amount (if 2 <=? out_version self then out_amount self else None) st).
Proof.
  intros Ha Hv Hst. destruct (Z.leb_spec 2 (out_version self)) as [Hle|Hlt]; cbn [ser_when].
  - specialize (Ha Hle). destruct (out_amount self) as [v|]; [|done]. cbn [ser_opt]. rewrite pack_s_in, bind_Ok by done.
    apply unpack_le_s in Ha as [Hu Hw]. assert (out_version st =? 0 = false) as Hv0 by lia.
    apply (section_when out_entry 0x03 true); [done| |done].
    intros _. split; [apply small_short; rewrite length_le_bytes; lia|]. out_field out_read_amount.
  - exists []. split; [done|]. rewrite <- Hst. replace (set_out_amount _ st) with st by (by destruct st).
    apply section_none.
Qed.

Lemma sec_out_script self st :
  (2 <= out_version self → small (out_script self)) → out_version st = out_version self → out_script st = [] →
  ∃ b, ser_when ((2 <=? out_version self) && negb (len (out_script self) =? 0)) (ser_field 0x04 [] (out_script self)) = Ok b ∧
    section_of out_entry 0x04 st b (set_out_script (if 2 <=? out_version self then out_script self else []) st).
Proof.
  intros Hs Hv Hst. apply section_when; [done| |].
  - intros E. apply andb_prop in E as [E _]. rewrite E. apply Z.leb_le in E. split; [by apply Hs|].
    assert (out_version st =? 0 = false) as Hv0 by lia. out_field out_read_script.
  - intros E. apply andb_false_iff in E as [-> |E]; [|bools; apply len_nil_inv in E as ->];
      try destruct (2 <=? _); rewrite <- Hst; by destruct st.
Qed.

Lemma sec_out_tap_internal_key self st :
  out_tap_internal_key self = [] ∨ length (out_tap_internal_key self) = 32%nat → out_tap_internal_key st = [] →
  ∃ b, ser_when (negb (len (out_tap_internal_key self) =? 0)) (ser_field 0x05 [] (out_tap_internal_key self)) = Ok b ∧
    section_of out_entry 0x05 st b (set_out_tap_internal_key (out_tap_internal_key self) st).
Proof.
  intros Hs Hst. apply section_when; [done| |].
  - intros E. destruct Hs as [Hs|Hs]; [by rewrite Hs in E|].
    assert (negb (len (out_tap_internal_key self) =? 32) = false) by (unfold len; rewrite Hs; done).
    split; [apply small_short; lia|]. out_field out_read_tap_internal_key.
  - intros E. bools. apply len_nil_inv in E as ->. rewrite <- Hst. by destruct st.
Qed.

Lemma sec_out_tap_tree self st : small (out_tap_tree self) → out_tap_tree st = [] →
  ∃ b, ser_when (negb (len (out_tap_tree self) =? 0)) (ser_field 0x06 [] (out_tap_tree self)) = Ok b ∧
    section_of out_entry 0x06 st b (set_out_tap_tree (out_tap_tree self) st).
Proof.
  intros Hs Hst. apply section_when; [done| |].
  - intros _. split; [done|]. out_field out_read_tap_tree.
  - intros E. bools. apply len_nil_inv in E as ->. rewrite <- Hst. by destruct st.
Qed.

Lemma sec_out_tap_bip32_paths self st :
  dict_wf (out_tap_bip32_paths self) →
  Forall (λ x, length x.1 = 32%nat ∧ tap_path_ok x.2) (out_tap_bip32_paths self) → out_tap_bip32_paths st = [] →
  ∃ b, ser_items (λ '(xonly, p), v ← ser_tap_path p; ser_field 0x07 xonly v) (out_tap_bip32_paths self) = Ok b ∧
    section_of out_entry 0x07 st b (set_out_tap_bip32_paths (out_tap_bip32_paths self) st).
Proof.
  intros Hwf Hf Hst. apply (section_tap_paths out_entry out_tap_bip32_paths_l); done.
Qed.

Lemma sec_out_participants self st :
  participants_ok (out_musig2_participant_pubkeys self) → out_musig2_participant_pubkeys st = [] →
  ∃ b, ser_items (λ '(pk, pubkeys), ser_field 0x08 pk (concat pubkeys)) (out_musig2_participant_pubkeys self) = Ok b ∧
    section_of out_entry 0x08 st b (set_out_musig2_participant_pubkeys (out_musig2_participant_pubkeys self) st).
Proof.
  intros Hp Hst. apply (section_participants out_entry out_participants_l); done.
Qed.

Lemma out_entry_unknown key t lookup st : t ∉ out_types → out_entry key t lookup st = out_read_unknown key lookup st.
Proof.
  intros Ht. unfold out_entry. unfold out_types in Ht. rewrite !not_elem_of_cons in Ht.
  repeat match goal with |- context [t =? ?c] => rewrite (proj2 (Z.eqb_neq t c)) by tauto end. done.
Qed.

Lemma out_unknown_runs self st : unknown_ok out_types (out_unknown self) → out_unknown st = [] →
  ∃ b, ser_items (λ '(k, v), ser_kv k v) (sorted_items (out_unknown self)) = Ok b ∧
    runs out_entry [] st b (set_out_unknown (sorted_items (out_unknown self)) st).
Proof.
  intros [Hwf Hf] Hst. rewrite <- (sorted_items_perm (out_unknown self)) in Hf.
  apply (runs_unknown out_entry out_unknown_l); [done|by apply sorted_items_wf|].
  eapply Forall_impl; [exact Hf|]. intros [k v] (Hne & Hk & Hv & Ht). cbn [fst snd lget out_unknown_l] in *.
  destruct (deser_compact_size k).1 as [t|]; [|done]. split_and!; [done..|]. exists t. split; [done|].
  intros lookup st0 vb Hin Hr. rewrite out_entry_unknown by done. unfold out_read_unknown. repeat field_step.
Qed.

Lemma out_types_ok : types_ok out_types.
Proof. split; [|apply (bool_decide_unpack _); vm_compute; exact I]. repeat (constructor; [lia|]). constructor. Qed.

Lemma out_runs self : out_wf self →
  ∃ b, out_serialize self = Ok (b ++ [chr 0]) ∧
    runs out_entry out_types (PsbtOut_new (out_version self)) b (out_read_back self).
Proof.
  intros (W0 & W1 & W2 & WV & W5 & W6 & [W7a W7b] & W8 & WK).
  set (v := out_version self) in *. set (o0 := PsbtOut_new v).
  set (o1 := set_out_redeem_script (out_redeem_script self) o0).
  set (o2 := set_out_witness_script (out_witness_script self) o1).
  set (o3 := set_out_hd_keypaths (sorted_items (out_hd_keypaths self)) o2).
  set (o4 := set_out_amount (if 2 <=? v then out_amount self else None) o3).
  set (o5 := set_out_script (if 2 <=? v then out_script self else []) o4).
  set (o6 := set_out_tap_internal_key (out_tap_internal_key self) o5).
  set (o7 := set_out_tap_tree (out_tap_tree self) o6).
  set (o8 := set_out_tap_bip32_paths (out_tap_bip32_paths self) o7).
  set (o9 := set_out_musig2_participant_pubkeys (out_musig2_participant_pubkeys self) o8).
  destruct (sec_out_redeem_script self o0 W0 eq_refl) as (b0 & E0 & S0).
  destruct (sec_out_witness_script self o1 W1 eq_refl) as (b1 & E1 & S1).
  destruct (sec_out_hd_keypaths self o2 W2 eq_refl) as (b2 & E2 & S2).
  destruct (sec_out_amount self o3 (λ h, proj1 (WV h)) eq_refl eq_refl) as (b3 & E3 & S3).
  destruct (sec_out_script self o4 (λ h, proj1 (proj2 (WV h))) eq_refl eq_refl) as (b4 & E4 & S4).
  destruct (sec_out_tap_internal_key self o5 W5 eq_refl) as (b5 & E5 & S5).
  destruct (sec_out_tap_tree self o6 W6 eq_refl) as (b6 & E6 & S6).
  destruct (sec_out_tap_bip32_paths self o7 W7a W7b eq_refl) as (b7 & E7 & S7).
  destruct (sec_out_participants self o8 W8 eq_refl) as (b8 & E8 & S8).
  destruct (out_unknown_runs self o9 WK eq_refl) as (bk & Ek & Sk).
  eexists. split.
  - unfold out_serialize. rewrite E0, bind_Ok, E1, bind_Ok, E2, bind_Ok, E3, bind_Ok, E4, bind_Ok, E5, bind_Ok,
      E6, bind_Ok, E7, bind_Ok, E8, bind_Ok, Ek, bind_Ok. reflexivity.
  - do 9 (eapply runs_cons; [eassumption|]). exact Sk.
Qed.

Lemma out_reads self : out_wf self →
  ∃ b, out_serialize self = Ok (b ++ [chr 0]) ∧
    reads (out_deserialize (PsbtOut_new (out_version self))) (b ++ [chr 0]) (out_read_back self).
Proof.
  intros Hwf. destruct (out_runs self Hwf) as (b & Eb & Hr). exists b. split; [done|].
  unfold out_deserialize. eapply reads_bind_end; [by apply (runs_read _ out_types); [apply out_types_ok|]|].
  destruct Hwf as (_ & _ & _ & WV & _).
  change (out_version (out_read_back self)) with (out_version self).
  destruct (Z.leb_spec 2 (out_version self)) as [Hv|Hv]; cbn [andb].
  - apply Z.leb_le in Hv as Hb. destruct (WV Hv) as (W1 & W2 & W3).
    eapply reads_bind_nil; [apply reads_check|eapply reads_bind_nil; [apply reads_check|apply reads_ret]];
      unfold out_read_back; cbn [out_amount out_script]; rewrite Hb.
    + by destruct (out_amount self).
    + apply Z.eqb_neq. intros E. by apply W3, len_nil_inv.
  - do 2 (eapply reads_bind_nil; [by apply reads_check|]). apply reads_ret.
Qed.
End sections.

(** ** What the parser accepts *)

Inductive out_reach (v : Z) : PsbtOut → gset bytes → Prop :=
  | out_reach_init : out_reach v (PsbtOut_new v) ∅
  | out_reach_entry st lookup key t s st' s' :
      out_reach v st lookup → (deser_compact_size key).1 = Ok t →
      out_entry key t lookup st s = (Ok st', s') →
      out_reach v st' ({[key]} ∪ lookup).

Record out_valid (self : PsbtOut) : Prop := {
  ov_v0 : out_version self = 0 → out_amount self = None ∧ out_script self = [];
  ov_amount : match out_amount self with Some a => - 2 ^ 63 <= a < 2 ^ 63 | None => True end;
  ov_paths : dict_wf (out_hd_keypaths self) ∧
    Forall (λ k, length k = 33%nat ∨ length k = 65%nat) (out_hd_keypaths self).*1;
  ov_internal : out_tap_internal_key self = [] ∨ length (out_tap_internal_key self) = 32%nat;
  ov_unknown : dict_wf (out_unknown self);
}.

Ltac unfold_out_handlers H :=
  first [ progress unfold out_read_redeem_script in H | progress unfold out_read_witness_script in H
        | progress unfold out_read_hd_keypath in H | progress unfold out_read_amount in H
        | progress unfold out_read_script in H | progress unfold out_read_tap_internal_key in H
        | progress unfold out_read_tap_tree in H | progress unfold out_read_tap_bip32_derivation in H
        | progress unfold out_read_musig2_participants in H | progress unfold out_read_unknown in H ].
Ltac unfold_out_handler_goal :=
  first [ progress unfold out_read_redeem_script | progress unfold out_read_witness_script
        | progress unfold out_read_hd_keypath | progress unfold out_read_amount
        | progress unfold out_read_script | progress unfold out_read_tap_internal_key
        | progress unfold out_read_tap_tree | progress unfold out_read_tap_bip32_derivation
        | progress unfold out_read_musig2_participants | progress unfold out_read_unknown ].

Lemma unpack_s8_range b z : unpack_s 8 b = Ok z → - 2 ^ 63 <= z < 2 ^ 63.
Proof.
  unfold unpack_s, signed. destruct (Nat.eqb_spec (length b) 8) as [El|]; [|done]. intros [= <-].
  pose proof (le_int_bound b) as Hb. unfold len in Hb. rewrite El in Hb.
  change (256 ^ Z.of_nat 8) with 18446744073709551616 in *. change (18446744073709551616 / 2) with (2 ^ 63).
  destruct (Z.ltb_spec (le_int b) (2 ^ 63)); lia.
Qed.

Lemma out_entry_valid key t lookup st s st' s' :
  out_valid st → out_entry key t lookup st s = (Ok st', s') → out_valid st' ∧ out_version st' = out_version st.
Proof.
  intros Hv H0. unfold out_entry in H0.
  repeat (match type of H0 with (if ?b then _ else _) _ = _ => destruct b end).
  all: unfold_out_handlers H0.
  all: try (apply reader_bind_ok in H0 as (d & s1 & Hd & H0); apply hd_keypath_ok in Hd as (Hsz & Hin & o & ->)).
  all: invert_reader H0; (split; [|reflexivity]).
  all: destruct Hv; constructor; cbn; try assumption; try congruence.
  all: bools; try (right; unfold len in *; lia).
  all: try (intros ?; congruence).
  all: try by apply dict_set_wf.
  - split; [by apply dict_set_wf, ov_paths0|apply dict_set_Forall; [|apply ov_paths0]].
    repeat (apply elem_of_cons in Hsz as [Hsz|Hsz]); [left|right|by apply not_elem_of_nil in Hsz]; by apply (len_drop1 key).
  - by eapply unpack_s8_range.
Qed.

Lemma out_reach_valid v st lookup : out_reach v st lookup → out_valid st ∧ out_version st = v.
Proof.
  induction 1 as [|st lookup key t s st' s' _ [IH1 IH2] _ He].
  - split; [|done]. constructor; cbn; auto; try (split; constructor); constructor.
  - destruct (out_entry_valid _ _ _ _ _ _ _ IH1 He) as [Hv E]. split; [done|congruence].
Qed.

Lemma out_deserialize_reach v s st s' :
  out_deserialize (PsbtOut_new v) s = (Ok st, s') → (∃ lookup, out_reach v st lookup) ∧
    (2 <= v → is_Some (out_amount st) ∧ out_script st ≠ []).
Proof.
  unfold out_deserialize. intros He. invert_reader He.
  eapply (read_map_inv out_entry (out_reach v)) in E as (lookup & Hr);
    [|intros; by eapply out_reach_entry|constructor].
  split; [by exists lookup|]. intros Hv. apply out_reach_valid in Hr as [Hval Ever].
  rewrite Ever in *. rewrite (proj2 (Z.leb_le 2 v) Hv) in *. cbn [andb] in *. bools.
  split; [done|]. intros Es. by rewrite Es in *.
Qed.

Definition out_seen (key : bytes) (t : Z) (st : PsbtOut) : Prop :=
  (t = 0x02 → dict_in (drop 1 key) (out_hd_keypaths st) = true) ∧
  (t ∉ out_types → dict_in key (out_unknown st) = true).

Lemma out_entry_seen key t lookup st s st' s' :
  out_entry key t lookup st s = (Ok st', s') →
  out_seen key t st' ∧ ∀ key' t', out_seen key' t' st → out_seen key' t' st'.
Proof.
  intros H0. unfold out_entry in H0.
  repeat (match type of H0 with (if ?b then _ else _) _ = _ => destruct b eqn:? end).
  all: unfold_out_handlers H0.
  all: try (apply reader_bind_ok in H0 as (d & s1 & Hd & H0); apply hd_keypath_ok in Hd as (Hsz & Hin & o & ->)).
  all: invert_reader H0; bools; unfold out_seen; cbn.
  all: split; [split_and!; intros Ht|intros key' t' (P1 & P2); split_and!; intros Ht'].
  all: rewrite ?dict_in_set; try (by rewrite bool_decide_eq_true_2).
  all: try (apply orb_true_iff; right; auto).
  all: try (first [apply P1|apply P2]; done).
  all: try (exfalso; subst; apply Ht; unfold out_types; rewrite !elem_of_cons; tauto).
  all: try lia.
Qed.

Lemma out_reach_seen v st lookup : out_reach v st lookup →
  ∀ key t, key ∈ lookup → (deser_compact_size key).1 = Ok t → out_seen key t st.
Proof.
  induction 1 as [|st lookup key t s st' s' _ IH Ht He]; intros key' t' Hin Ht'; [set_solver|].
  destruct (out_entry_seen _ _ _ _ _ _ _ He) as [Hs Hm].
  apply elem_of_union in Hin as [->%elem_of_singleton|Hin]; [|by apply Hm, IH].
  rewrite Ht in Ht'. injection Ht' as <-. exact Hs.
Qed.

Lemma out_entry_duplicate key t lookup st s :
  key ∈ lookup → out_seen key t st → out_entry key t lookup st s = (Err PSBTSerializationError, s).
Proof.
  intros Hk (S1 & S2). pose proof (bool_decide_eq_true_2 _ Hk) as Hb.
  destruct (decide (t ∈ out_types)) as [Hin|Hn].
  - unfold out_types in Hin. repeat (apply elem_of_cons in Hin as [->|Hin]); [..|by apply not_elem_of_nil in Hin];
      cbv beta iota delta [out_entry Z.eqb Pos.eqb].
    all: unfold_out_handler_goal.
    all: try (apply single_key_seen; done).
    all: rewrite ?check_bind, ?Hb; try done.
    all: try (destruct (out_version st =? 0); [done|apply single_key_seen; done]).
    apply reader_bind_err. unfold DeserializeHDKeypath. rewrite check_bind. case_match; [done|].
    cbv zeta. by rewrite check_bind, S1.
  - rewrite out_entry_unknown by done. unfold out_read_unknown. by rewrite check_bind, S2.
Qed.

Lemma safe_out_entry key t lookup st : safe (out_entry key t lookup st).
Proof. unfold out_entry. repeat case_match; unfold_out_handler_goal; safe_solve. Qed.

Lemma safe_out_deserialize self : safe (out_deserialize self).
Proof. unfold out_deserialize. pose proof (safe_read_map out_entry self safe_out_entry). safe_solve. Qed.

Definition example_out : PsbtOut :=
  let key := chr 2 :: replicate 32 (chr 9) in
  let origin := {| fingerprint := map chr [1; 2; 3; 4]; path := [H_ 86; H_ 0; 7] |} in
  {| out_redeem_script := []; out_witness_script := [chr 1];
     out_hd_keypaths := [(chr 3 :: replicate 32 (chr 9), origin); (key, origin)]; out_amount := Some (-5);
     out_script := [chr 0x51]; out_tap_internal_key := replicate 32 (chr 4); out_tap_tree := [chr 1; chr 2];
     out_tap_bip32_paths := [(replicate 32 (chr 1), (∅, origin))];
     out_musig2_participant_pubkeys := [(key, [key])]; out_unknown := [(map chr [0x20; 1], [chr 7])];
     out_version := 2 |}.

(** * Properties *)

(** An output map is read back as it was written, like an input map: every well-formed output
    serializes, and deserializing the bytes, whatever follows them, gives the output with its
    keypaths and unknown entries sorted and the version 2 fields kept from version 2 on. *)
Theorem psbt_out_roundtrip `{SetOrder} (self : PsbtOut) (Hwf : out_wf self) :
  ∃ b, out_serialize self = Ok b ∧
    (∀ rest, out_deserialize (PsbtOut_new (out_version self)) (b ++ rest) = (Ok (out_read_back self), rest)) ∧
    dict_eq (out_unknown (out_read_back self)) (out_unknown self) ∧
    dict_eq (out_hd_keypaths (out_read_back self)) (out_hd_keypaths self).
Proof.
  destruct (out_reads self Hwf) as (b & Eb & Hr). exists (b ++ [chr 0]). split; [done|]. split; [exact Hr|].
  destruct Hwf as (_ & _ & [Hh _] & _ & _ & _ & _ & _ & [Hu _]).
  split; by apply sorted_items_eq.
Qed.

Lemma psbt_out_roundtrip_witness :
  ∃ b, out_serialize example_out = Ok b ∧
    (∀ rest, out_deserialize (PsbtOut_new 2) (b ++ rest) = (Ok (out_read_back example_out), rest)) ∧
    dict_eq (out_unknown (out_read_back example_out)) (out_unknown example_out) ∧
    dict_eq (out_hd_keypaths (out_read_back example_out)) (out_hd_keypaths example_out).
Proof.
  apply (psbt_out_roundtrip example_out).
  apply (bool_decide_unpack _). vm_compute. exact I.
Defined.

(** Whatever bytes it is given, the output parser only returns outputs with fields of the
    specified sizes ([out_valid]), without amount and script in version 0 and with both from
    version 2 on; and in every state its read loop can reach, a key that was read before is refused. *)
Theorem psbt_out_valid (v : Z) (s s' : bytes) (st : PsbtOut)
    (Hd : out_deserialize (PsbtOut_new v) s = (Ok st, s')) :
  out_valid st ∧ out_version st = v ∧
  (2 <= v → is_ok (get_txout st) = true) ∧
  (∀ st lookup key t s, out_reach v st lookup → key ∈ lookup → (deser_compact_size key).1 = Ok t →
     out_entry key t lookup st s = (Err PSBTSerializationError, s)).
Proof.
  apply out_deserialize_reach in Hd as [(lookup & Hr) Hv]. apply out_reach_valid in Hr as [H1 H2].
  split; [done|]. split; [done|]. split.
  - intros Hle. destruct (Hv Hle) as [[a Ea] Hs]. unfold get_txout. rewrite Ea.
    destruct (Z.eqb_spec (len (out_script st)) 0) as [E|]; [|done]. by apply len_nil_inv in E.
  - intros st0 lk key t s0 Hr Hk Ht. apply out_entry_duplicate; [done|]. by eapply out_reach_seen.
Qed.

Lemma psbt_out_valid_witness : out_valid (set_out_witness_script [chr 7] (PsbtOut_new 0)).
Proof.
  apply (psbt_out_valid 0 (map chr [1; 1; 1; 7; 0; 9]) [chr 9]).
  vm_compute. reflexivity.
Defined.
