(* ===== verification/Psbt.v ===== *)
(** * [hwilib/psbt.py], [PSBT]

    The global map, the whole serialization with its version rules, and the
    conversion between the versions through the unsigned transaction. *)

From S2P Require Import Prelude Bytes Safe PyStd PyStr Common Sha256 Serialize Script Tx KeyPath PsbtMap PsbtIn PsbtOut.

(** ** State *)

Record PSBT := {
  psbt_tx : CTransaction;
  psbt_inputs : list PsbtIn;
  psbt_outputs : list PsbtOut;
  psbt_unknown : pydict bytes bytes;
  psbt_xpub : pydict bytes KeyOriginInfo;
  psbt_tx_version : option Z;
  psbt_fallback_locktime : option Z;
  psbt_tx_modifiable : option Z;
  psbt_version : Z;
  psbt_explicit_version : bool;
}.

(** [PSBT(tx)]; [PSBT()] starts from an empty transaction. *)
Definition PSBT_init (tx : option CTransaction) : PSBT :=
  {| psbt_tx := default CTransaction_new tx; psbt_inputs := []; psbt_outputs := []; psbt_unknown := [];
     psbt_xpub := []; psbt_tx_version := None; psbt_fallback_locktime := None; psbt_tx_modifiable := None;
     psbt_version := 0; psbt_explicit_version := false |}.
Definition PSBT_new : PSBT := PSBT_init None.

Definition psbt_eta (r : PSBT) : PSBT :=
  {| psbt_tx := psbt_tx r; psbt_inputs := psbt_inputs r; psbt_outputs := psbt_outputs r;
     psbt_unknown := psbt_unknown r; psbt_xpub := psbt_xpub r; psbt_tx_version := psbt_tx_version r;
     psbt_fallback_locktime := psbt_fallback_locktime r; psbt_tx_modifiable := psbt_tx_modifiable r;
     psbt_version := psbt_version r; psbt_explicit_version := psbt_explicit_version r |}.

Definition set_tx : CTransaction → PSBT → PSBT := ltac:(setter psbt_eta psbt_tx).
Definition set_inputs : list PsbtIn → PSBT → PSBT := ltac:(setter psbt_eta psbt_inputs).
Definition set_outputs : list PsbtOut → PSBT → PSBT := ltac:(setter psbt_eta psbt_outputs).
Definition set_psbt_unknown : pydict bytes bytes → PSBT → PSBT := ltac:(setter psbt_eta psbt_unknown).
Definition set_xpub : pydict bytes KeyOriginInfo → PSBT → PSBT := ltac:(setter psbt_eta psbt_xpub).
Definition set_tx_version : option Z → PSBT → PSBT := ltac:(setter psbt_eta psbt_tx_version).
Definition set_fallback_locktime : option Z → PSBT → PSBT := ltac:(setter psbt_eta psbt_fallback_locktime).
Definition set_tx_modifiable : option Z → PSBT → PSBT := ltac:(setter psbt_eta psbt_tx_modifiable).
Definition set_psbt_version : Z → PSBT → PSBT := ltac:(setter psbt_eta psbt_version).
Definition set_explicit_version : bool → PSBT → PSBT := ltac:(setter psbt_eta psbt_explicit_version).

(** ** The global map *)

(** [self] and the local variables of the read loop. *)
Record GState := {
  g_psbt : PSBT;
  g_input_count : option Z;
  g_output_count : option Z;
  g_found_unsigned_tx : bool;
}.

Definition g_with (f : PSBT → PSBT) (st : GState) : GState :=
  {| g_psbt := f (g_psbt st); g_input_count := g_input_count st; g_output_count := g_output_count st;
     g_found_unsigned_tx := g_found_unsigned_tx st |}.
Definition g_set_input_count (n : option Z) (st : GState) : GState :=
  {| g_psbt := g_psbt st; g_input_count := n; g_output_count := g_output_count st;
     g_found_unsigned_tx := g_found_unsigned_tx st |}.
Definition g_set_output_count (n : option Z) (st : GState) : GState :=
  {| g_psbt := g_psbt st; g_input_count := g_input_count st; g_output_count := n;
     g_found_unsigned_tx := g_found_unsigned_tx st |}.
Definition g_set_found (b : bool) (st : GState) : GState :=
  {| g_psbt := g_psbt st; g_input_count := g_input_count st; g_output_count := g_output_count st;
     g_found_unsigned_tx := b |}.

Section fields.
Implicit Types (key : bytes) (lookup : gset bytes) (st : GState).

(** [if key in key_lookup: ... elif len(key) > 1: ...]. *)
Definition global_key key lookup : reader () :=
  check (bool_decide (key ∈ lookup));;
  check (1 <? len key).

(** The transaction, and what follows it in the value. *)
Definition parse_unsigned_tx (tx_bytes : bytes) : reader CTransaction :=
  match tx_deserialize_without_witness tx_bytes with
  | (Err _, _) => lift (Err PSBTSerializationError)
  | (Ok tx, rest) =>
      check (0 <? len (take 1 rest));;
      check (existsb (λ txin, negb (len (scriptSig txin) =? 0) || negb (CTxWitness_is_null (wit tx))) (vin tx));;
      mret tx
  end.

Definition g_read_unsigned_tx key lookup st : reader GState :=
  global_key key lookup;;
  tx_bytes ← deser_string;
  tx ← parse_unsigned_tx tx_bytes;
  mret (g_set_found true (g_with (set_tx tx) st)).

Definition g_read_xpub key lookup st : reader GState :=
  d ← DeserializeHDKeypath key (psbt_xpub (g_psbt st)) [79];
  mret (g_with (set_xpub d) st).

Definition g_read_tx_version key lookup st : reader GState :=
  global_key key lookup;;
  v ← deser_string;
  check (negb (len v =? 4));;
  n ← lift (unpack_u 4 v);
  mret (g_with (set_tx_version (Some n)) st).

Definition g_read_fallback_locktime key lookup st : reader GState :=
  global_key key lookup;;
  v ← deser_string;
  check (negb (len v =? 4));;
  n ← lift (unpack_u 4 v);
  mret (g_with (set_fallback_locktime (Some n)) st).

(** The length in front of a count is read and ignored. *)
Definition g_read_input_count key lookup st : reader GState :=
  global_key key lookup;;
  _ ← deser_compact_size;
  input_count ← deser_compact_size;
  mret (g_set_input_count (Some input_count) st).

Definition g_read_output_count key lookup st : reader GState :=
  global_key key lookup;;
  _ ← deser_compact_size;
  output_count ← deser_compact_size;
  mret (g_set_output_count (Some output_count) st).

Definition g_read_tx_modifiable key lookup st : reader GState :=
  global_key key lookup;;
  v ← deser_string;
  check (negb (len v =? 1));;
  n ← lift (unpack_u 1 v);
  mret (g_with (set_tx_modifiable (Some n)) st).

Definition g_read_version key lookup st : reader GState :=
  global_key key lookup;;
  v ← deser_string;
  check (negb (len v =? 4));;
  n ← lift (unpack_u 4 v);
  mret (g_with (λ p, set_explicit_version true (set_psbt_version n p)) st).

Definition g_read_unknown key lookup st : reader GState :=
  check (dict_in key (psbt_unknown (g_psbt st)));;
  unknown_bytes ← deser_string;
  mret (g_with (set_psbt_unknown (dict_set key unknown_bytes (psbt_unknown (g_psbt st)))) st).

Definition g_entry key (key_type : Z) lookup st : reader GState :=
  if key_type =? 0x00 then g_read_unsigned_tx key lookup st
  else if key_type =? 0x01 then g_read_xpub key lookup st
  else if key_type =? 0x02 then g_read_tx_version key lookup st
  else if key_type =? 0x03 then g_read_fallback_locktime key lookup st
  else if key_type =? 0x04 then g_read_input_count key lookup st
  else if key_type =? 0x05 then g_read_output_count key lookup st
  else if key_type =? 0x06 then g_read_tx_modifiable key lookup st
  else if key_type =? 0xFB then g_read_version key lookup st
  else g_read_unknown key lookup st.

(** The checks between the global map and the inputs. *)
Definition check_version_constraints st : reader () :=
  let self := g_psbt st in
  let is_none {A} (o : option A) := negb (bool_decide (is_Some o)) in
  (if psbt_version self =? 0 then
     check (negb (g_found_unsigned_tx st));;
     check (negb (is_none (psbt_tx_version self)));;
     check (negb (is_none (psbt_fallback_locktime self)));;
     check (negb (is_none (g_input_count st)));;
     check (negb (is_none (g_output_count st)));;
     check (negb (is_none (psbt_tx_modifiable self)))
   else mret ());;
  check (psbt_version self =? 1);;
  (if 2 <=? psbt_version self then
     check (is_none (psbt_tx_version self));;
     check (is_none (g_input_count st));;
     check (is_none (g_output_count st));;
     check (g_found_unsigned_tx st)
   else mret ()).
End fields.

(** ** Inputs and outputs *)

Section maps.
Context `{Hashes}.

(** The checks of one input that was read: its previous transaction must be
    the one the outpoint names. *)
Definition check_prev_tx (self : PSBT) (i : nat) (psbt_in : PsbtIn) : result PsbtIn :=
  prev_txid ←
    (if 2 <=? psbt_version self then Ok (in_prev_txid psbt_in)
     else txin ← nth_py (vin (psbt_tx self)) i; ser_uint256 (op_hash (prevout txin)));
  match in_non_witness_utxo psbt_in with
  | None => Ok psbt_in
  | Some utxo =>
      utxo ← rehash utxo;
      if bool_decide (tx_hash utxo = Some prev_txid) then Ok (set_non_witness_utxo (Some utxo) psbt_in)
      else Err PSBTSerializationError
  end.

(** [for i in range(n)], leaving the loop at the end of the stream. *)
Fixpoint read_inputs (n : nat) (i : nat) (self : PSBT) : reader (list PsbtIn) :=
  match n with
  | O => mret []
  | S n =>
      e ← at_end;
      if (e : bool) then mret []
      else
        psbt_in ← in_deserialize (PsbtIn_new (psbt_version self));
        psbt_in ← lift (check_prev_tx self i psbt_in);
        rest ← read_inputs n (S i) self;
        mret (psbt_in :: rest)
  end.

Fixpoint read_outputs (n : nat) (self : PSBT) : reader (list PsbtOut) :=
  match n with
  | O => mret []
  | S n =>
      e ← at_end;
      if (e : bool) then mret []
      else
        output ← out_deserialize (PsbtOut_new (psbt_version self));
        rest ← read_outputs n self;
        mret (output :: rest)
  end.

(** *** Filling in the version 2 fields from a transaction *)

Definition input_from_txin (txin : CTxIn) (psbt_in : PsbtIn) : result PsbtIn :=
  h ← ser_uint256 (op_hash (prevout txin));
  Ok (set_sequence (Some (nSequence txin)) (set_prev_out (Some (op_n (prevout txin))) (set_prev_txid h psbt_in))).

Definition output_from_txout (txout : CTxOut) (psbt_out : PsbtOut) : PsbtOut :=
  set_out_script (scriptPubKey txout) (set_out_amount (Some (nValue txout)) psbt_out).

(** [for i, txin in enumerate(tx.vin): ... self.inputs[i] ...]. *)
Fixpoint fill_inputs (vin : list CTxIn) (inputs : list PsbtIn) : result (list PsbtIn) :=
  match vin, inputs with
  | [], _ => Ok inputs
  | _ :: _, [] => Err IndexError
  | txin :: vin, p :: inputs =>
      p ← input_from_txin txin p;
      r ← fill_inputs vin inputs;
      Ok (p :: r)
  end.

Fixpoint fill_outputs (vout : list CTxOut) (outputs : list PsbtOut) : result (list PsbtOut) :=
  match vout, outputs with
  | [], _ => Ok outputs
  | _ :: _, [] => Err IndexError
  | txout :: vout, p :: outputs =>
      r ← fill_outputs vout outputs;
      Ok (output_from_txout txout p :: r)
  end.

Definition setup_from_tx (tx : CTransaction) (self : PSBT) : result PSBT :=
  let self := set_fallback_locktime (Some (nLockTime tx)) (set_tx_version (Some (nVersion tx)) self) in
  inputs ← fill_inputs (vin tx) (psbt_inputs self);
  outputs ← fill_outputs (vout tx) (psbt_outputs self);
  Ok (set_outputs outputs (set_inputs inputs self)).

Definition cache_unsigned_tx_pieces (self : PSBT) : result PSBT :=
  if psbt_version self =? 0 then setup_from_tx (psbt_tx self) self else Ok self.

(** *** [deserialize] *)

Definition psbt_magic : bytes := map chr [0x70; 0x73; 0x62; 0x74; 0xff].

Definition psbt_read (self : PSBT) : reader PSBT :=
  magic ← read 5;
  check (negb (bool_decide (magic = psbt_magic)));;
  st ← read_map g_entry
    {| g_psbt := self; g_input_count := None; g_output_count := None; g_found_unsigned_tx := false |};
  check_version_constraints st;;
  let self := g_psbt st in
  let input_count := default (len (vin (psbt_tx self))) (g_input_count st) in
  inputs ← read_inputs (Z.to_nat input_count) 0 self;
  let self := set_inputs (psbt_inputs self ++ inputs) self in
  check (negb (len (psbt_inputs self) =? input_count));;
  let output_count := default (len (vout (psbt_tx self))) (g_output_count st) in
  outputs ← read_outputs (Z.to_nat output_count) self;
  let self := set_outputs (psbt_outputs self ++ outputs) self in
  check (negb (len (psbt_outputs self) =? output_count));;
  lift (cache_unsigned_tx_pieces self).

Definition psbt_deserialize (psbt : pystr) (self : PSBT) : result PSBT :=
  psbt_bytes ← b64decode (strip psbt);
  (psbt_read self psbt_bytes).1.
End maps.

(** ** Serialization *)

Section ser.
Context `{SetOrder}.

Definition ser_global (self : PSBT) : result (bytes * PSBT) :=
  '(unsigned, self) ←
    (if psbt_version self =? 0 then
       '(tx, t) ← serialize_with_witness (psbt_tx self);
       k ← (c ← ser_compact_size 0x00; ser_string c);
       n ← ser_compact_size (len tx);
       Ok (k ++ n ++ tx, set_tx t self)
     else Ok ([], self));
  xpubs ← SerializeHDKeypath (psbt_xpub self) 0x01;
  v2 ← ser_when (2 <=? psbt_version self)
    (tx_version ← of_option AssertionError (psbt_tx_version self);
     a ← (b ← pack_u 4 tx_version; ser_field 0x02 [] b);
     l ← ser_opt (psbt_fallback_locktime self) (λ v, b ← pack_u 4 v; ser_field 0x03 [] b);
     i ← (b ← ser_compact_size (len (psbt_inputs self)); ser_field 0x04 [] b);
     o ← (b ← ser_compact_size (len (psbt_outputs self)); ser_field 0x05 [] b);
     m ← ser_opt (psbt_tx_modifiable self) (λ v, b ← pack_u 1 v; ser_field 0x06 [] b);
     Ok (a ++ l ++ i ++ o ++ m));
  version ← ser_when ((0 <? psbt_version self) || psbt_explicit_version self)
    (b ← pack_u 4 (psbt_version self); ser_field 0xFB [] b);
  unknowns ← ser_items (λ '(k, v), ser_kv k v) (sorted_items (psbt_unknown self));
  Ok (unsigned ++ xpubs ++ v2 ++ version ++ unknowns, self).

(** [for input in self.inputs: r += input.serialize()]. *)
Fixpoint ser_inputs (inputs : list PsbtIn) : result (bytes * list PsbtIn) :=
  match inputs with
  | [] => Ok ([], [])
  | i :: inputs =>
      '(b, i) ← in_serialize i;
      '(bs, r) ← ser_inputs inputs;
      Ok (b ++ bs, i :: r)
  end.

Definition psbt_write (self : PSBT) : result (bytes * PSBT) :=
  '(globals, self) ← ser_global self;
  '(ins, inputs) ← ser_inputs (psbt_inputs self);
  let self := set_inputs inputs self in
  outs ← ser_items out_serialize (psbt_outputs self);
  Ok (psbt_magic ++ globals ++ [chr 0] ++ ins ++ outs, self).

Definition psbt_serialize (self : PSBT) : result (pystr * PSBT) :=
  '(r, self) ← psbt_write self;
  Ok (b64encode r, self).
End ser.

(** ** The unsigned transaction *)

(** One input's required lock times; [None] stands for a kind that an input
    rules out. *)
Definition lock_step (acc : option Z * option Z) (i : PsbtIn) : result (option Z * option Z) :=
  let '(time_lock, height_lock) := acc in
  '(time_lock, height_lock) ←
    match in_time_locktime i, in_height_locktime i with
    | Some _, None =>
        match time_lock with
        | None => Err PSBTSerializationError
        | Some _ => Ok (time_lock, None)
        end
    | None, Some _ =>
        match height_lock with
        | None => Err PSBTSerializationError
        | Some _ => Ok (None, height_lock)
        end
    | _, _ => Ok (time_lock, height_lock)
    end;
  let time_lock :=
    match in_time_locktime i, time_lock with Some t, Some m => Some (Z.max m t) | _, _ => time_lock end in
  let height_lock :=
    match in_height_locktime i, height_lock with Some h, Some m => Some (Z.max m h) | _, _ => height_lock end in
  Ok (time_lock, height_lock).

Fixpoint lock_fold (acc : option Z * option Z) (inputs : list PsbtIn) : result (option Z * option Z) :=
  match inputs with
  | [] => Ok acc
  | i :: inputs => acc ← lock_step acc i; lock_fold acc inputs
  end.

Definition compute_lock_time (self : PSBT) : result Z :=
  '(time_lock, height_lock) ← lock_fold (Some 0, Some 0) (psbt_inputs self);
  let positive (o : option Z) := match o with Some v => 0 <? v | None => false end in
  Ok (if positive height_lock then default 0 height_lock
      else if positive time_lock then default 0 time_lock
      else default 0 (psbt_fallback_locktime self)).

Definition txin_of (i : PsbtIn) : result CTxIn :=
  prev_out ← of_option AssertionError (in_prev_out i);
  let sequence := default 0xffffffff (in_sequence i) in
  h ← uint256_from_str (in_prev_txid i);
  Ok {| prevout := {| op_hash := h; op_n := prev_out |}; scriptSig := []; nSequence := sequence |}.

Definition txout_of (o : PsbtOut) : result CTxOut :=
  amount ← of_option AssertionError (out_amount o);
  Ok {| nValue := amount; scriptPubKey := out_script o |}.

Section unsigned.
Context `{Hashes}.

Definition get_unsigned_tx (self : PSBT) : result CTransaction :=
  if psbt_version self =? 0 then Ok (psbt_tx self)
  else
    tx_version ← of_option AssertionError (psbt_tx_version self);
    lock_time ← compute_lock_time self;
    ins ← mapR txin_of (psbt_inputs self);
    outs ← mapR txout_of (psbt_outputs self);
    rehash {| nVersion := tx_version; vin := ins; vout := outs; wit := []; nLockTime := lock_time;
              tx_sha256 := None; tx_hash := None |}.

Definition _convert_version (v : Z) (self : PSBT) : PSBT :=
  set_outputs (map (set_out_version v) (psbt_outputs self))
    (set_inputs (map (set_version v) (psbt_inputs self)) (set_psbt_version v self)).

Definition convert_to_v2 (self : PSBT) : PSBT := _convert_version 2 self.

Definition convert_to_v0 (self : PSBT) : result PSBT :=
  tx ← get_unsigned_tx self;
  Ok (set_explicit_version false (set_tx tx (_convert_version 0 self))).
End unsigned.

(** * What serializes and reads back *)

Definition g_types : list Z := [0x00; 0x01; 0x02; 0x03; 0x04; 0x05; 0x06; 0xFB].

Section wf.
Context `{Hashes} `{SetOrder}.

(** The input's previous transaction is the one its outpoint names. *)
Definition prev_tx_ok (i : PsbtIn) : Prop :=
  match in_non_witness_utxo i with Some tx => tx_hash tx = Some (in_prev_txid i) | None => True end.

(** Version 0: the unsigned transaction has no signatures, and the version 2
    fields are those [cache_unsigned_tx_pieces] fills in. *)
Definition psbt_wf0 (self : PSBT) : Prop :=
  let tx := psbt_tx self in
  psbt_version self = 0 ∧ tx_wf tx ∧ fresh_tx tx [] = tx ∧ Forall (λ i, scriptSig i = []) (vin tx) ∧
  match serialize_without_witness tx with Ok b => small b | Err _ => False end ∧
  length (psbt_inputs self) = length (vin tx) ∧ length (psbt_outputs self) = length (vout tx) ∧
  psbt_tx_version self = Some (nVersion tx) ∧ psbt_fallback_locktime self = Some (nLockTime tx) ∧
  fill_inputs (vin tx) (psbt_inputs self) = Ok (psbt_inputs self) ∧
  fill_outputs (vout tx) (psbt_outputs self) = Ok (psbt_outputs self) ∧ psbt_tx_modifiable self = None.

Definition psbt_wf2 (self : PSBT) : Prop :=
  2 <= psbt_version self ∧ fits 4 (psbt_version self) ∧
  match psbt_tx_version self with Some v => fits 4 v | None => False end ∧
  u32_opt (psbt_fallback_locktime self) ∧
  match psbt_tx_modifiable self with Some v => fits 1 v | None => True end.

Definition psbt_wf (self : PSBT) : Prop :=
  small (psbt_inputs self) ∧ small (psbt_outputs self) ∧
  Forall (λ i, in_wf i ∧ in_version i = psbt_version self ∧ prev_tx_ok i) (psbt_inputs self) ∧
  Forall (λ o, out_wf o ∧ out_version o = psbt_version self) (psbt_outputs self) ∧
  keypaths_ok [79] (psbt_xpub self) ∧ unknown_ok g_types (psbt_unknown self) ∧
  (psbt_wf0 self ∨ psbt_wf2 self).
End wf.

(** What reading back gives. *)
Definition psbt_in_back (v0 : bool) (i : PsbtIn) : PsbtIn :=
  if v0 then
    set_sequence (in_sequence i) (set_prev_out (in_prev_out i) (set_prev_txid (in_prev_txid i) (in_read_back i)))
  else in_read_back i.
Definition psbt_out_back (v0 : bool) (o : PsbtOut) : PsbtOut :=
  if v0 then set_out_script (out_script o) (set_out_amount (out_amount o) (out_read_back o)) else out_read_back o.

Definition psbt_read_back (self : PSBT) : PSBT :=
  let v0 := psbt_version self =? 0 in
  {| psbt_tx := if v0 then psbt_tx self else CTransaction_new;
     psbt_inputs := map (psbt_in_back v0) (psbt_inputs self);
     psbt_outputs := map (psbt_out_back v0) (psbt_outputs self);
     psbt_unknown := sorted_items (psbt_unknown self); psbt_xpub := sorted_items (psbt_xpub self);
     psbt_tx_version := psbt_tx_version self; psbt_fallback_locktime := psbt_fallback_locktime self;
     psbt_tx_modifiable := psbt_tx_modifiable self; psbt_version := psbt_version self;
     psbt_explicit_version := (0 <? psbt_version self) || psbt_explicit_version self |}.

(** Everything that is set is written: no signing field in a finalized input, no lock time in an input of
    version 0, no unsigned transaction next to the fields of version 2, and those with their version. *)
Definition in_all_written (i : PsbtIn) : Prop :=
  (in_unfinalized i = false → in_partial_sigs i = [] ∧ in_sighash i = None ∧ in_redeem_script i = [] ∧ in_witness_script i = [] ∧
     in_hd_keypaths i = [] ∧ in_tap_key_sig i = [] ∧ in_tap_script_sigs i = [] ∧ in_tap_scripts i = [] ∧ in_tap_bip32_paths i = [] ∧
     in_tap_internal_key i = [] ∧ in_tap_merkle_root i = []) ∧
  (in_version i < 2 → in_time_locktime i = None ∧ in_height_locktime i = None).
Definition psbt_all_written (self : PSBT) : Prop :=
  Forall in_all_written (psbt_inputs self) ∧
  (2 <= psbt_version self → psbt_tx self = CTransaction_new ∧ psbt_explicit_version self = true).

(** Equal in Python: the order of the items of a dictionary does not matter. *)
Definition same_in (i j : PsbtIn) : Prop :=
  dict_eq (in_partial_sigs i) (in_partial_sigs j) ∧ dict_eq (in_hd_keypaths i) (in_hd_keypaths j) ∧ dict_eq (in_unknown i) (in_unknown j) ∧
  set_unknown (in_unknown j) (set_hd_keypaths (in_hd_keypaths j) (set_partial_sigs (in_partial_sigs j) i)) = j.
Definition same_out (o q : PsbtOut) : Prop :=
  dict_eq (out_hd_keypaths o) (out_hd_keypaths q) ∧ dict_eq (out_unknown o) (out_unknown q) ∧
  set_out_unknown (out_unknown q) (set_out_hd_keypaths (out_hd_keypaths q) o) = q.
Definition same_psbt (p q : PSBT) : Prop :=
  Forall2 same_in (psbt_inputs p) (psbt_inputs q) ∧ Forall2 same_out (psbt_outputs p) (psbt_outputs q) ∧
  dict_eq (psbt_xpub p) (psbt_xpub q) ∧ dict_eq (psbt_unknown p) (psbt_unknown q) ∧
  set_xpub (psbt_xpub q) (set_psbt_unknown (psbt_unknown q) (set_outputs (psbt_outputs q) (set_inputs (psbt_inputs q) p))) = q.

(** * Lemmas *)

(** ** The global map *)

Definition xpub_l : lens GState (pydict bytes KeyOriginInfo).
Proof.
  refine {| lget := λ st, psbt_xpub (g_psbt st); lset := λ d, g_with (set_xpub d) |};
    [done|done|by intros [[]]].
Defined.
Definition g_unknown_l : lens GState (pydict bytes bytes).
Proof.
  refine {| lget := λ st, psbt_unknown (g_psbt st); lset := λ d, g_with (set_psbt_unknown d) |};
    [done|done|by intros [[]]].
Defined.

Lemma reads_global_key k lookup : k ∉ lookup → 1 <? len k = false → reads (global_key k lookup) [] ().
Proof.
  intros Hk Hl. unfold global_key. eapply reads_bind_nil; [apply reads_check; by apply bool_decide_eq_false_2|].
  by apply reads_check.
Qed.

Ltac g_field handler :=
  let lookup := fresh "lookup" in let vb := fresh "vb" in
  intros lookup vb Hl Hr;
  cbv beta iota delta [g_entry Z.eqb Pos.eqb]; unfold handler;
  eapply reads_bind_nil; [apply reads_global_key; [assumption|reflexivity]|]; repeat field_step.

(** Reading a string means reading its length and then its bytes. *)
Lemma reads_string_split vb v : reads deser_string vb v →
  ∀ rest, ∃ nit, deser_compact_size (vb ++ rest) = (Ok nit, v ++ rest).
Proof.
  intros Hr rest. specialize (Hr rest). unfold deser_string in Hr.
  apply reader_bind_ok in Hr as (nit & s1 & Hn & Hd). exists nit. rewrite Hn. f_equal.
  unfold read in Hd. destruct (maxsize <? nit); [discriminate|]. injection Hd as <- <-. by rewrite take_drop.
Qed.

Lemma reads_count {A} (f : Z → reader A) vb v n a :
  reads deser_string vb v → ser_compact_size n = Ok v → reads (f n) [] a →
  reads (_ ← deser_compact_size; c ← deser_compact_size; f c) vb a.
Proof.
  intros Hr Hn Hf rest. destruct (reads_string_split _ _ Hr rest) as (nit & E).
  rewrite (reader_bind_eval _ _ _ _ _ E), (reader_bind_eval _ _ _ _ _ (reads_compact_size _ _ Hn rest)). apply Hf.
Qed.

Section global.
Context `{Hashes} `{SetOrder}.
Implicit Types (self : PSBT) (st : GState).

Lemma g_sec_u32 t n (set : Z → GState → GState) v st :
  0 <= t < 253 → (n <= 8)%nat → fits n v →
  (unpack_u n (le_bytes n v) = Ok v → negb (len (le_bytes n v) =? Z.of_nat n) = false →
     accepts g_entry t [] (le_bytes n v) st (set v st)) →
  ∃ b, (b ← pack_u n v; ser_field t [] b) = Ok b ∧ section_of g_entry t st b (set v st).
Proof.
  intros Ht Hn Hv Ha. rewrite pack_u_fits, bind_Ok by done. apply (section_when g_entry t true); [done| |done].
  intros _. split; [apply small_short; rewrite length_le_bytes; lia|]. apply Ha.
  - by apply unpack_pack_u, pack_u_fits.
  - by rewrite len_le, Z.eqb_refl.
Qed.

Lemma g_sec_opt t n (set : option Z → GState → GState) (o : option Z) st :
  match o with Some v => fits n v | None => True end → 0 <= t < 253 → (n <= 8)%nat →
  (∀ v, unpack_u n (le_bytes n v) = Ok v → negb (len (le_bytes n v) =? Z.of_nat n) = false →
     accepts g_entry t [] (le_bytes n v) st (set (Some v) st)) → set None st = st →
  ∃ b, ser_opt o (λ v, b ← pack_u n v; ser_field t [] b) = Ok b ∧ section_of g_entry t st b (set o st).
Proof.
  intros Ho Ht Hn Ha Hnone. destruct o as [v|]; cbn [ser_opt].
  - apply (g_sec_u32 t n (λ v, set (Some v))); [done|done|done|]. apply Ha.
  - exists []. split; [done|]. rewrite Hnone. apply section_none.
Qed.

Lemma g_sec_tx_version v st : fits 4 v →
  ∃ b, (b ← pack_u 4 v; ser_field 0x02 [] b) = Ok b ∧
    section_of g_entry 0x02 st b (g_with (set_tx_version (Some v)) st).
Proof.
  intros Hv. apply (g_sec_u32 0x02 4 (λ v, g_with (set_tx_version (Some v)))); [done|lia|done|].
  intros Hu Hw. g_field g_read_tx_version.
Qed.

Lemma g_sec_fallback o st : u32_opt o → psbt_fallback_locktime (g_psbt st) = None →
  ∃ b, ser_opt o (λ v, b ← pack_u 4 v; ser_field 0x03 [] b) = Ok b ∧
    section_of g_entry 0x03 st b (g_with (set_fallback_locktime o) st).
Proof.
  intros Ho Hst. apply (g_sec_opt 0x03 4 (λ o, g_with (set_fallback_locktime o))); [done|done|lia| |].
  - intros v Hu Hw. g_field g_read_fallback_locktime.
  - destruct st as [[]]. cbn in *. by subst.
Qed.

Lemma g_sec_modifiable o st : match o with Some v => fits 1 v | None => True end →
  psbt_tx_modifiable (g_psbt st) = None →
  ∃ b, ser_opt o (λ v, b ← pack_u 1 v; ser_field 0x06 [] b) = Ok b ∧
    section_of g_entry 0x06 st b (g_with (set_tx_modifiable o) st).
Proof.
  intros Ho Hst. apply (g_sec_opt 0x06 1 (λ o, g_with (set_tx_modifiable o))); [done|done|lia| |].
  - intros v Hu Hw. g_field g_read_tx_modifiable.
  - destruct st as [[]]. cbn in *. by subst.
Qed.

Lemma g_sec_version v st : fits 4 v →
  ∃ b, (b ← pack_u 4 v; ser_field 0xFB [] b) = Ok b ∧
    section_of g_entry 0xFB st b (g_with (λ p, set_explicit_version true (set_psbt_version v p)) st).
Proof.
  intros Hv. apply (g_sec_u32 0xFB 4 (λ v, g_with (λ p, set_explicit_version true (set_psbt_version v p)))); [done|lia|done|].
  intros Hu Hw. g_field g_read_version.
Qed.

Lemma count_small n v : ser_compact_size n = Ok v → small v.
Proof. intros E. apply ser_compact_size_length in E. unfold small. rewrite E. repeat case_match; unfold maxsize; lia. Qed.

Lemma g_sec_input_count n st : fits 8 n →
  ∃ b, (b ← ser_compact_size n; ser_field 0x04 [] b) = Ok b ∧
    section_of g_entry 0x04 st b (g_set_input_count (Some n) st).
Proof.
  intros Hn. destruct (ser_compact_size_total n Hn) as (v & Ev). rewrite Ev, bind_Ok.
  apply (section_when g_entry 0x04 true); [done| |done]. intros _. split; [by eapply count_small|].
  intros lookup vb Hl Hr. cbv beta iota delta [g_entry Z.eqb Pos.eqb]. unfold g_read_input_count.
  eapply reads_bind_nil; [apply reads_global_key; [assumption|reflexivity]|].
  eapply reads_count; [exact Hr|exact Ev|apply reads_ret].
Qed.

Lemma g_sec_output_count n st : fits 8 n →
  ∃ b, (b ← ser_compact_size n; ser_field 0x05 [] b) = Ok b ∧
    section_of g_entry 0x05 st b (g_set_output_count (Some n) st).
Proof.
  intros Hn. destruct (ser_compact_size_total n Hn) as (v & Ev). rewrite Ev, bind_Ok.
  apply (section_when g_entry 0x05 true); [done| |done]. intros _. split; [by eapply count_small|].
  intros lookup vb Hl Hr. cbv beta iota delta [g_entry Z.eqb Pos.eqb]. unfold g_read_output_count.
  eapply reads_bind_nil; [apply reads_global_key; [assumption|reflexivity]|].
  eapply reads_count; [exact Hr|exact Ev|apply reads_ret].
Qed.

Lemma g_sec_xpub self st : keypaths_ok [79] (psbt_xpub self) → psbt_xpub (g_psbt st) = [] →
  ∃ b, SerializeHDKeypath (psbt_xpub self) 0x01 = Ok b ∧
    section_of g_entry 0x01 st b (g_with (set_xpub (sorted_items (psbt_xpub self))) st).
Proof. intros Hk Hst. by apply (section_keypaths g_entry xpub_l 0x01 [79]). Qed.

Lemma g_entry_unknown key t lookup st : t ∉ g_types → g_entry key t lookup st = g_read_unknown key lookup st.
Proof.
  intros Ht. unfold g_entry. unfold g_types in Ht. rewrite !not_elem_of_cons in Ht.
  repeat match goal with |- context [t =? ?c] => rewrite (proj2 (Z.eqb_neq t c)) by tauto end. done.
Qed.

Lemma g_unknown_runs self st : unknown_ok g_types (psbt_unknown self) → psbt_unknown (g_psbt st) = [] →
  ∃ b, ser_items (λ '(k, v), ser_kv k v) (sorted_items (psbt_unknown self)) = Ok b ∧
    runs g_entry [] st b (g_with (set_psbt_unknown (sorted_items (psbt_unknown self))) st).
Proof.
  intros [Hwf Hf] Hst. rewrite <- (sorted_items_perm (psbt_unknown self)) in Hf.
  apply (runs_unknown g_entry g_unknown_l); [done|by apply sorted_items_wf|].
  eapply Forall_impl; [exact Hf|]. intros [k v] (Hne & Hk & Hv & Ht). cbn [fst snd lget g_unknown_l] in *.
  destruct (deser_compact_size k).1 as [t|]; [|done]. split_and!; [done..|]. exists t. split; [done|].
  intros lookup st0 vb Hin Hr. rewrite g_entry_unknown by done. unfold g_read_unknown. repeat field_step.
Qed.

Lemma g_types_ok : types_ok g_types.
Proof. split; [|apply (bool_decide_unpack _); vm_compute; exact I]. repeat (constructor; [lia|]). constructor. Qed.

(** The unsigned transaction of version 0. *)
Lemma g_sec_unsigned_tx tx st :
  tx_wf tx → fresh_tx tx [] = tx → Forall (λ i, scriptSig i = []) (vin tx) →
  match serialize_without_witness tx with Ok b => small b | Err _ => False end →
  ∃ b, ('(b, t) ← serialize_with_witness tx;
        k ← (c ← ser_compact_size 0x00; ser_string c);
        n ← ser_compact_size (len b);
        Ok (k ++ n ++ b, t)) = Ok (b, tx) ∧
    section_of g_entry 0x00 st b (g_set_found true (g_with (set_tx tx) st)).
Proof.
  intros Hwf Hfresh Hsig Hsm. assert (wit tx = []) as Hw by (by rewrite <- Hfresh).
  destruct (serialize_without_witness_reads tx Hwf) as (v & Ev & Rv). rewrite Hfresh in Rv. rewrite Ev in Hsm.
  rewrite (serialize_with_null_witness tx v) by (by rewrite ?Hw). rewrite bind_Ok.
  destruct (section_when g_entry 0x00 true v st (g_set_found true (g_with (set_tx tx) st))) as (b & Eb & Sb);
    [done| |done|].
  - intros _. split; [done|]. assert (reads (parse_unsigned_tx v) [] tx) as Hp.
    { unfold parse_unsigned_tx. rewrite (reads_whole _ _ _ Rv).
      eapply reads_bind_nil; [by apply reads_check|]. eapply reads_bind_nil; [apply reads_check|apply reads_ret].
      clear -Hsig Hw. induction Hsig as [|i l Hi _ IH]; [done|]. cbn [existsb]. rewrite Hi, IH, Hw. done. }
    intros lookup vb Hl Hr. cbv beta iota delta [g_entry Z.eqb Pos.eqb]. unfold g_read_unsigned_tx.
    eapply reads_bind_nil; [apply reads_global_key; [assumption|reflexivity]|].
    eapply reads_bind_end; [exact Hr|]. eapply reads_bind_nil; [exact Hp|]. apply reads_ret.
  - exists b. split; [|done]. cbn [ser_when] in Eb. unfold ser_field, ser_kv in Eb.
    change (ser_compact_size 0x00) with (Ok [chr 0]) in *. rewrite bind_Ok in *. cbn [app] in Eb.
    apply bind_ok in Eb as (k & Ek & Eb). rewrite Ek, bind_Ok. apply bind_ok in Eb as (w & Ew & Eb).
    unfold ser_string in Ew. apply bind_ok in Ew as (n & En & Ew). rewrite En, bind_Ok.
    injection Ew as <-. injection Eb as <-. done.
Qed.
End global.

(** The global state a serialized PSBT parses to. *)
Definition g_back (self : PSBT) : GState :=
  let v0 := psbt_version self =? 0 in
  {| g_psbt := {| psbt_tx := if v0 then psbt_tx self else CTransaction_new; psbt_inputs := []; psbt_outputs := [];
       psbt_unknown := sorted_items (psbt_unknown self); psbt_xpub := sorted_items (psbt_xpub self);
       psbt_tx_version := if v0 then None else psbt_tx_version self;
       psbt_fallback_locktime := if v0 then None else psbt_fallback_locktime self;
       psbt_tx_modifiable := if v0 then None else psbt_tx_modifiable self;
       psbt_version := psbt_version self;
       psbt_explicit_version := (0 <? psbt_version self) || psbt_explicit_version self |};
     g_input_count := if v0 then None else Some (len (psbt_inputs self));
     g_output_count := if v0 then None else Some (len (psbt_outputs self));
     g_found_unsigned_tx := v0 |}.

Definition g_init : GState :=
  {| g_psbt := PSBT_new; g_input_count := None; g_output_count := None; g_found_unsigned_tx := false |}.

Section reads.
Context `{Hashes} `{SetOrder}.
Implicit Types (self : PSBT) (st : GState).

(** The explicit version, when it is written. *)
Lemma g_sec_explicit self st : fits 4 (psbt_version self) →
  psbt_version (g_psbt st) = 0 → psbt_explicit_version (g_psbt st) = false →
  ∃ b, ser_when ((0 <? psbt_version self) || psbt_explicit_version self)
      (b ← pack_u 4 (psbt_version self); ser_field 0xFB [] b) = Ok b ∧
    section_of g_entry 0xFB st b (g_with (λ p, set_explicit_version
      ((0 <? psbt_version self) || psbt_explicit_version self) (set_psbt_version (psbt_version self) p)) st).
Proof.
  intros Hf Hv He. destruct ((0 <? psbt_version self) || psbt_explicit_version self) eqn:E; cbn [ser_when].
  - by apply g_sec_version.
  - apply orb_false_iff in E as [E _]. assert (psbt_version self = 0) as -> by (unfold fits in Hf; lia).
    exists []. split; [done|]. replace (g_with _ st) with st; [apply section_none|].
    destruct st as [[]]. cbn in *. by subst.
Qed.

Lemma g_reads0 self : keypaths_ok [79] (psbt_xpub self) → unknown_ok g_types (psbt_unknown self) → psbt_wf0 self →
  ∃ b, ser_global self = Ok (b, self) ∧ reads (read_map g_entry g_init) (b ++ [chr 0]) (g_back self).
Proof.
  intros Hx Hu (Hv & Hwf & Hfresh & Hsig & Hsm & _).
  destruct (g_sec_unsigned_tx (psbt_tx self) g_init Hwf Hfresh Hsig Hsm) as (b0 & E0 & S0).
  set (s1 := g_set_found true (g_with (set_tx (psbt_tx self)) g_init)) in *.
  destruct (g_sec_xpub self s1 Hx eq_refl) as (b1 & E1 & S1).
  set (s2 := g_with (set_xpub (sorted_items (psbt_xpub self))) s1) in *.
  destruct (g_sec_explicit self s2) as (b2 & E2 & S2); [by rewrite Hv|done|done|].
  set (s3 := g_with _ s2) in S2.
  destruct (g_unknown_runs self s3 Hu eq_refl) as (b3 & E3 & S3).
  exists (b0 ++ b1 ++ [] ++ b2 ++ b3). split.
  - unfold ser_global. rewrite Hv. change (0 =? 0) with true. cbv iota.
    apply bind_ok in E0 as ([v t] & -> & E0). rewrite bind_Ok.
    apply bind_ok in E0 as (k & -> & E0). rewrite bind_Ok. apply bind_ok in E0 as (n & -> & E0). rewrite bind_Ok, bind_Ok.
    injection E0 as E0 ->. rewrite E0. replace (set_tx (psbt_tx self) self) with self by (by destruct self).
    rewrite E1, bind_Ok, Hv. change (2 <=? 0) with false. cbn [ser_when]. rewrite bind_Ok.
    rewrite Hv in E2. rewrite E2, bind_Ok, E3, bind_Ok. done.
  - apply (runs_read _ g_types); [apply g_types_ok|].
    replace (g_back self) with (g_with (set_psbt_unknown (sorted_items (psbt_unknown self))) s3).
    + change g_types with ([0x00; 0x01] ++ [0x02; 0x03; 0x04; 0x05; 0x06] ++ [0xFB] ++ []).
      do 2 (eapply runs_cons; [eassumption|]). cbn [app]. apply (runs_skip g_entry [2; 3; 4; 5; 6]).
      eapply runs_cons; [eassumption|]. exact S3.
    + unfold g_back, s3. by rewrite Hv.
Qed.

Lemma g_reads2 self :
  small (psbt_inputs self) → small (psbt_outputs self) →
  keypaths_ok [79] (psbt_xpub self) → unknown_ok g_types (psbt_unknown self) → psbt_wf2 self →
  ∃ b, ser_global self = Ok (b, self) ∧ reads (read_map g_entry g_init) (b ++ [chr 0]) (g_back self).
Proof.
  intros Hsi Hso Hx Hu (Hv & Hfv & Htv & Hfb & Hmod).
  destruct (g_sec_xpub self g_init Hx eq_refl) as (b1 & E1 & S1).
  set (s1 := g_with (set_xpub (sorted_items (psbt_xpub self))) g_init) in *.
  destruct (psbt_tx_version self) as [tv|] eqn:Etv; [|done].
  destruct (g_sec_tx_version tv s1 Htv) as (b2 & E2 & S2). set (s2 := g_with (set_tx_version (Some tv)) s1) in *.
  destruct (g_sec_fallback (psbt_fallback_locktime self) s2 Hfb eq_refl) as (b3 & E3 & S3).
  set (s3 := g_with _ s2) in S3.
  destruct (g_sec_input_count (len (psbt_inputs self)) s3 (small_fits8 _ Hsi)) as (b4 & E4 & S4).
  set (s4 := g_set_input_count _ s3) in S4.
  destruct (g_sec_output_count (len (psbt_outputs self)) s4 (small_fits8 _ Hso)) as (b5 & E5 & S5).
  set (s5 := g_set_output_count _ s4) in S5.
  destruct (g_sec_modifiable (psbt_tx_modifiable self) s5 Hmod eq_refl) as (b6 & E6 & S6).
  set (s6 := g_with _ s5) in S6.
  destruct (g_sec_explicit self s6 Hfv eq_refl eq_refl) as (b7 & E7 & S7). set (s7 := g_with _ s6) in S7.
  destruct (g_unknown_runs self s7 Hu eq_refl) as (b8 & E8 & S8).
  exists ([] ++ b1 ++ (b2 ++ b3 ++ b4 ++ b5 ++ b6) ++ b7 ++ b8). split.
  - unfold ser_global. assert (psbt_version self =? 0 = false) as -> by lia. rewrite bind_Ok, E1, bind_Ok.
    rewrite (proj2 (Z.leb_le 2 _) Hv). cbn [ser_when]. rewrite Etv. cbn [of_option]. rewrite bind_Ok, E2, bind_Ok, E3, bind_Ok,
      E4, bind_Ok, E5, bind_Ok, E6, bind_Ok, bind_Ok, E7, bind_Ok, E8, bind_Ok. done.
  - apply (runs_read _ g_types); [apply g_types_ok|].
    replace (g_back self) with (g_with (set_psbt_unknown (sorted_items (psbt_unknown self))) s7).
    + rewrite <- !app_assoc. change g_types with ([0x00] ++ [0x01; 0x02; 0x03; 0x04; 0x05; 0x06; 0xFB] ++ []).
      apply (runs_skip g_entry [0x00]). cbn [app]. do 7 (eapply runs_cons; [eassumption|]). exact S8.
    + unfold g_back. assert (psbt_version self =? 0 = false) as -> by lia. by rewrite Etv.
Qed.

Lemma version_constraints_back self : psbt_wf0 self ∨ psbt_wf2 self →
  reads (check_version_constraints (g_back self)) [] ().
Proof.
  intros [(Hv & _)|(Hv & _ & Htv & _)]; unfold check_version_constraints, g_back; cbn [g_psbt psbt_version].
  - rewrite Hv. intros rest. reflexivity.
  - assert (psbt_version self =? 0 = false) as -> by lia. assert (psbt_version self =? 1 = false) as -> by lia.
    rewrite (proj2 (Z.leb_le 2 _) Hv). destruct (psbt_tx_version self); [|done]. intros rest. reflexivity.
Qed.

(** ** Inputs and outputs *)

Lemma rehash_set_ids a b tx : rehash (set_ids a b tx) = rehash tx.
Proof. reflexivity. Qed.

Lemma rehash_loaded tx : tx_loaded tx → rehash tx = Ok tx.
Proof.
  intros (_ & _ & _ & Hre & _). rewrite <- Hre.
  change (fresh_tx tx (wit tx)) with (set_ids None None tx). symmetry. apply rehash_set_ids.
Qed.

(** What [fill_inputs] leaves unchanged already has the transaction's fields. *)
Lemma input_from_txin_fixed txin p : input_from_txin txin p = Ok p →
  ser_uint256 (op_hash (prevout txin)) = Ok (in_prev_txid p) ∧
  ∀ q, input_from_txin txin q =
    Ok (set_sequence (in_sequence p) (set_prev_out (in_prev_out p) (set_prev_txid (in_prev_txid p) q))).
Proof.
  unfold input_from_txin. rewrite ser_uint256_le, bind_Ok. intros E. injection E as E. rewrite <- E. done.
Qed.

Lemma fill_inputs_fixed vins ins : length ins = length vins → fill_inputs vins ins = Ok ins →
  Forall2 (λ txin p, input_from_txin txin p = Ok p) vins ins.
Proof.
  revert ins. induction vins as [|txin vins IH]; intros [|p ins] Hl Hf; try done.
  cbn [fill_inputs] in Hf. apply bind_ok in Hf as (p' & Ep & Hf). apply bind_ok in Hf as (r & Er & E).
  injection E as -> ->. constructor; [done|]. apply IH; [by injection Hl|done].
Qed.

Lemma fill_inputs_back vins ins : Forall2 (λ txin p, input_from_txin txin p = Ok p) vins ins →
  fill_inputs vins (map in_read_back ins) = Ok (map (psbt_in_back true) ins).
Proof.
  induction 1 as [|txin p vins ins Hp _ IH]; [done|]. cbn [map fill_inputs].
  destruct (input_from_txin_fixed _ _ Hp) as [_ ->]. by rewrite bind_Ok, IH, bind_Ok.
Qed.

Lemma fill_outputs_back vouts outs : length outs = length vouts → fill_outputs vouts outs = Ok outs →
  fill_outputs vouts (map out_read_back outs) = Ok (map (psbt_out_back true) outs).
Proof.
  revert outs. induction vouts as [|txout vouts IH]; intros [|o outs] Hl Hf; try done.
  cbn [fill_outputs] in Hf. apply bind_ok in Hf as (r & Er & E).
  injection E as E Er'. subst r. cbn [map fill_outputs]. rewrite IH by (done || by injection Hl). rewrite bind_Ok. f_equal. f_equal.
  rewrite <- E. done.
Qed.

Lemma at_end_cons c s : at_end (c :: s) = (Ok false, c :: s).
Proof. unfold at_end. by rewrite bool_decide_eq_false_2. Qed.

Lemma read_inputs_back self base ins i :
  psbt_version base = psbt_version self →
  Forall (λ p, in_wf p ∧ in_version p = psbt_version self) ins →
  (∀ k p, ins !! k = Some p → check_prev_tx base (i + k) (in_read_back p) = Ok (in_read_back p)) →
  ∃ b, ser_inputs ins = Ok (b, ins) ∧ reads (read_inputs (length ins) i base) b (map in_read_back ins).
Proof.
  intros Hb Hf. revert i. induction Hf as [|p ins [Hp Hv] Hf IH]; intros i Hc.
  - exists []. split; [done|]. apply reads_ret.
  - destruct (in_reads p Hp) as (b1 & E1 & R1). destruct (IH (S i)) as (b2 & E2 & R2).
    { intros k q Hk. specialize (Hc (S k) q Hk). by replace (S i + k)%nat with (i + S k)%nat by lia. }
    exists ((b1 ++ [chr 0]) ++ b2). split; [cbn [ser_inputs]; by rewrite E1, bind_Ok, E2|].
    cbn [length map read_inputs]. rewrite Hb, <- Hv.
    assert (∀ rest, at_end (((b1 ++ [chr 0]) ++ b2) ++ rest) = (Ok false, ((b1 ++ [chr 0]) ++ b2) ++ rest)) as Hend.
    { intros rest. by destruct b1. }
    intros rest. rewrite (reader_bind_eval _ _ _ _ _ (Hend rest)).
    assert (reads (psbt_in ← in_deserialize (PsbtIn_new (in_version p));
      psbt_in ← lift (check_prev_tx base i psbt_in); rest ← read_inputs (length ins) (S i) base;
      mret (psbt_in :: rest)) ((b1 ++ [chr 0]) ++ b2) (in_read_back p :: map in_read_back ins)) as Hr; [|apply Hr].
    eapply reads_bind; [exact R1|]. eapply reads_bind_nil.
    { apply reads_lift. specialize (Hc O p eq_refl). by rewrite Nat.add_0_r in Hc. }
    eapply reads_bind_end; [exact R2|]. apply reads_ret.
Qed.

Lemma read_outputs_back self base outs :
  psbt_version base = psbt_version self → Forall (λ o, out_wf o ∧ out_version o = psbt_version self) outs →
  ∃ b, ser_items out_serialize outs = Ok b ∧ reads (read_outputs (length outs) base) b (map out_read_back outs).
Proof.
  intros Hb. induction 1 as [|o outs [Ho Hv] Hf IH].
  - exists []. split; [done|]. apply reads_ret.
  - destruct (out_reads o Ho) as (b1 & E1 & R1). destruct IH as (b2 & E2 & R2).
    exists ((b1 ++ [chr 0]) ++ b2). split.
    { unfold ser_items in *. cbn [mapR]. rewrite E1, bind_Ok. apply bind_ok in E2 as (bs & -> & E2). rewrite bind_Ok, bind_Ok.
      injection E2 as <-. done. }
    cbn [length map read_outputs]. rewrite Hb, <- Hv.
    assert (∀ rest, at_end (((b1 ++ [chr 0]) ++ b2) ++ rest) = (Ok false, ((b1 ++ [chr 0]) ++ b2) ++ rest)) as Hend.
    { intros rest. by destruct b1. }
    intros rest. rewrite (reader_bind_eval _ _ _ _ _ (Hend rest)).
    assert (reads (output ← out_deserialize (PsbtOut_new (out_version o)); rest ← read_outputs (length outs) base;
      mret (output :: rest)) ((b1 ++ [chr 0]) ++ b2) (out_read_back o :: map out_read_back outs)) as Hr; [|apply Hr].
    eapply reads_bind; [exact R1|]. eapply reads_bind_end; [exact R2|]. apply reads_ret.
Qed.

Lemma check_prev_tx_back base p i :
  in_wf p → prev_tx_ok p → psbt_version base = in_version p →
  (psbt_version base < 2 → ∃ txin, vin (psbt_tx base) !! i = Some txin ∧
     ser_uint256 (op_hash (prevout txin)) = Ok (in_prev_txid p)) →
  check_prev_tx base i (in_read_back p) = Ok (in_read_back p).
Proof.
  intros (Hl & _) Hp Hv Hin. unfold check_prev_tx.
  assert ((if 2 <=? psbt_version base then Ok (in_prev_txid (in_read_back p))
     else txin ← nth_py (vin (psbt_tx base)) i; ser_uint256 (op_hash (prevout txin))) = Ok (in_prev_txid p)) as ->.
  { destruct (Z.leb_spec 2 (psbt_version base)) as [Hle|Hlt].
    - unfold in_read_back. cbn [in_prev_txid]. by rewrite <- Hv, (proj2 (Z.leb_le 2 _) Hle).
    - destruct (Hin Hlt) as (txin & E & Es). unfold nth_py. rewrite E. cbn [of_option]. by rewrite bind_Ok. }
  rewrite bind_Ok. change (in_non_witness_utxo (in_read_back p)) with (in_non_witness_utxo p).
  unfold prev_tx_ok in Hp. destruct (in_non_witness_utxo p) as [tx|] eqn:Etx; [|done].
  rewrite (rehash_loaded tx Hl), bind_Ok, bool_decide_eq_true_2 by done. f_equal.
  unfold set_non_witness_utxo, in_read_back. cbn. by rewrite Etx.
Qed.
End reads.

Section whole.
Context `{Hashes} `{SetOrder}.
Implicit Types (self : PSBT) (st : GState).

Lemma to_nat_len {A} (l : list A) : Z.to_nat (len l) = length l.
Proof. unfold len. apply Nat2Z.id. Qed.

Lemma fixed_lookup vins ins k p : Forall2 (λ txin p, input_from_txin txin p = Ok p) vins ins → ins !! k = Some p →
  ∃ txin, vins !! k = Some txin ∧ ser_uint256 (op_hash (prevout txin)) = Ok (in_prev_txid p).
Proof.
  intros Hf Hk. eapply Forall2_lookup_r in Hf as (txin & Et & Hp); [|exact Hk].
  exists txin. split; [done|]. by apply input_from_txin_fixed.
Qed.

(** The maps behind the global map, and what is made of them. *)
Lemma psbt_maps self : psbt_wf self →
  ∃ bi bo, ser_inputs (psbt_inputs self) = Ok (bi, psbt_inputs self) ∧
    ser_items out_serialize (psbt_outputs self) = Ok bo ∧
    reads (let base := g_psbt (g_back self) in
      inputs ← read_inputs (Z.to_nat (default (len (vin (psbt_tx base))) (g_input_count (g_back self)))) 0 base;
      let base := set_inputs (psbt_inputs base ++ inputs) base in
      check (negb (len (psbt_inputs base) =? default (len (vin (psbt_tx base))) (g_input_count (g_back self))));;
      let output_count := default (len (vout (psbt_tx base))) (g_output_count (g_back self)) in
      outputs ← read_outputs (Z.to_nat output_count) base;
      let base := set_outputs (psbt_outputs base ++ outputs) base in
      check (negb (len (psbt_outputs base) =? output_count));;
      lift (cache_unsigned_tx_pieces base)) (bi ++ bo) (psbt_read_back self).
Proof.
  intros (_ & _ & Hin & Hout & _ & _ & Hver). set (base := g_psbt (g_back self)).
  assert (Forall (λ p, in_wf p ∧ in_version p = psbt_version self) (psbt_inputs self)) as Hin'.
  { eapply Forall_impl; [exact Hin|]. by intros p (? & ? & _). }
  destruct (read_inputs_back self base (psbt_inputs self) 0 eq_refl Hin') as (bi & Ei & Ri).
  { intros k p Hk. rewrite Forall_forall in Hin. destruct (Hin p) as (Hp & Hv & Hprev); [by eapply list_elem_of_lookup_2|].
    apply check_prev_tx_back; [done|done|by rewrite Hv|]. intros Hlt. change (psbt_version base) with (psbt_version self) in Hlt.
    destruct Hver as [(Hv0 & _ & _ & _ & _ & Hli & _ & _ & _ & Hfi & _)|[Hle _]]; [|lia].
    unfold base, g_back. cbn [g_psbt psbt_tx]. rewrite Hv0. change (0 =? 0) with true. cbv iota. cbn [plus].
    eapply fixed_lookup; [by apply fill_inputs_fixed|done]. }
  set (base1 := set_inputs (map in_read_back (psbt_inputs self)) base).
  destruct (read_outputs_back self base1 (psbt_outputs self) eq_refl Hout) as (bo & Eo & Ro).
  exists bi, bo. split; [done|]. split; [done|]. cbv zeta.
  assert (default (len (vin (psbt_tx base))) (g_input_count (g_back self)) = len (psbt_inputs self)) as Eci.
  { unfold base, g_back. cbn [g_psbt psbt_tx g_input_count].
    destruct Hver as [(Hv0 & _ & _ & _ & _ & Hli & _)|[Hle _]].
    - rewrite Hv0. change (0 =? 0) with true. cbn [default]. unfold len. by rewrite Hli.
    - by assert (psbt_version self =? 0 = false) as -> by lia. }
  assert (default (len (vout (psbt_tx base))) (g_output_count (g_back self)) = len (psbt_outputs self)) as Eco.
  { unfold base, g_back. cbn [g_psbt psbt_tx g_output_count].
    destruct Hver as [(Hv0 & _ & _ & _ & _ & _ & Hlo & _)|[Hle _]].
    - rewrite Hv0. change (0 =? 0) with true. cbn [default]. unfold len. by rewrite Hlo.
    - by assert (psbt_version self =? 0 = false) as -> by lia. }
  rewrite Eci. rewrite to_nat_len. eapply reads_bind; [exact Ri|].
  change (psbt_inputs base) with (@nil PsbtIn). cbn [app]. fold base1.
  change (psbt_tx base1) with (psbt_tx base). rewrite Eci, Eco.
  change (psbt_inputs base1) with (map in_read_back (psbt_inputs self)).
  eapply reads_bind_nil; [apply reads_check; unfold len; by rewrite length_map, Z.eqb_refl|].
  rewrite to_nat_len. eapply reads_bind_end; [exact Ro|].
  change (psbt_outputs base1) with (@nil PsbtOut). cbn [app].
  set (base2 := set_outputs (map out_read_back (psbt_outputs self)) base1).
  change (psbt_outputs base2) with (map out_read_back (psbt_outputs self)).
  eapply reads_bind_nil; [apply reads_check; unfold len; by rewrite length_map, Z.eqb_refl|].
  apply reads_lift. unfold cache_unsigned_tx_pieces, psbt_read_back.
  destruct Hver as [(Hv0 & _ & _ & _ & _ & Hli & Hlo & Htv & Hfb & Hfi & Hfo & Hm)|[Hle _]].
  - unfold base2, base1, base, g_back. cbn [psbt_version set_outputs set_inputs g_psbt psbt_tx]. rewrite Hv0.
    change (0 =? 0) with true. cbv iota. unfold setup_from_tx.
    cbn [psbt_inputs psbt_outputs set_outputs set_inputs set_fallback_locktime set_tx_version].
    rewrite (fill_inputs_back _ _ (fill_inputs_fixed _ _ Hli Hfi)), bind_Ok, fill_outputs_back, bind_Ok by done.
    rewrite Htv, Hfb, Hm. reflexivity.
  - unfold base2, base1, base, g_back. cbn [psbt_version set_outputs set_inputs g_psbt psbt_tx].
    assert (psbt_version self =? 0 = false) as -> by lia. reflexivity.
Qed.

Lemma psbt_write_read self : psbt_wf self →
  ∃ b, psbt_write self = Ok (b, self) ∧ reads (psbt_read PSBT_new) b (psbt_read_back self).
Proof.
  intros Hwf. destruct (psbt_maps self Hwf) as (bi & bo & Ei & Eo & Rm).
  destruct Hwf as (Hsi & Hso & _ & _ & Hx & Hu & Hver).
  assert (∃ b, ser_global self = Ok (b, self) ∧ reads (read_map g_entry g_init) (b ++ [chr 0]) (g_back self))
    as (bg & Eg & Rg) by (destruct Hver; [by apply g_reads0|by apply g_reads2]).
  exists (psbt_magic ++ (bg ++ [chr 0]) ++ (bi ++ bo)). split.
  - unfold psbt_write. rewrite Eg, bind_Ok, Ei, bind_Ok. cbv zeta.
    replace (set_inputs (psbt_inputs self) self) with self by (by destruct self).
    rewrite Eo, bind_Ok. by rewrite <- !app_assoc.
  - unfold psbt_read. eapply reads_bind; [by apply (reads_read_n 5)|].
    eapply reads_bind_nil; [by apply reads_check; rewrite bool_decide_eq_true_2|].
    eapply reads_bind; [exact Rg|]. eapply reads_bind_nil; [by apply version_constraints_back|]. exact Rm.
Qed.

(** ** Termination *)

Lemma safe_parse_unsigned_tx b : safe (parse_unsigned_tx b).
Proof.
  unfold parse_unsigned_tx. destruct (tx_deserialize_without_witness b) as [[tx|e] r]; [|by apply safe_lift].
  safe_solve.
Qed.

Hint Resolve safe_parse_unsigned_tx : safe.

Lemma safe_g_entry key t lookup st : safe (g_entry key t lookup st).
Proof.
  unfold g_entry. repeat case_match;
    first [ progress unfold g_read_unsigned_tx | progress unfold g_read_xpub | progress unfold g_read_tx_version
          | progress unfold g_read_fallback_locktime | progress unfold g_read_input_count
          | progress unfold g_read_output_count | progress unfold g_read_tx_modifiable
          | progress unfold g_read_version | progress unfold g_read_unknown ];
    unfold global_key; safe_solve.
Qed.

Lemma safe_version_constraints st : safe (check_version_constraints st).
Proof. unfold check_version_constraints. safe_solve. Qed.

Lemma safe_at_end : safe at_end.
Proof. by intros s r s' [= <- <-]. Qed.

Lemma nf_ser_uint256 u : no_fuel_error (ser_uint256 u).
Proof. by rewrite ser_uint256_le. Qed.

Hint Resolve safe_at_end nf_ser_uint256 safe_in_deserialize safe_out_deserialize safe_version_constraints : safe.

Lemma nf_check_prev_tx self i p : no_fuel_error (check_prev_tx self i p).
Proof.
  unfold check_prev_tx, nth_py. safe_solve.
Qed.

Hint Resolve nf_check_prev_tx : safe.

Lemma safe_read_inputs n i self : safe (read_inputs n i self).
Proof. revert i. induction n as [|n IH]; intros i; cbn [read_inputs]; safe_solve. Qed.

Lemma safe_read_outputs n self : safe (read_outputs n self).
Proof. induction n as [|n IH]; cbn [read_outputs]; safe_solve. Qed.

Lemma nf_fill_inputs v p : no_fuel_error (fill_inputs v p).
Proof. revert p. induction v as [|x v IH]; intros [|q p]; cbn [fill_inputs]; unfold input_from_txin; safe_solve. Qed.

Lemma nf_fill_outputs v p : no_fuel_error (fill_outputs v p).
Proof. revert p. induction v as [|x v IH]; intros [|q p]; cbn [fill_outputs]; safe_solve. Qed.

Hint Resolve safe_read_inputs safe_read_outputs nf_fill_inputs nf_fill_outputs : safe.

Lemma nf_cache self : no_fuel_error (cache_unsigned_tx_pieces self).
Proof. unfold cache_unsigned_tx_pieces, setup_from_tx. safe_solve. Qed.

Hint Resolve nf_cache : safe.

Lemma safe_psbt_read self : safe (psbt_read self).
Proof.
  unfold psbt_read. pose proof (λ i, safe_read_map g_entry i safe_g_entry). safe_solve.
Qed.

Lemma nf_a2b s q p l : no_fuel_error (a2b_base64 s q p l).
Proof.
  revert q p l. induction s as [|c s IH]; intros q p l; cbn [a2b_base64]; [by case_match|].
  repeat case_match; try done; try apply IH; (apply nf_bind; [apply IH|done]).
Qed.

Lemma nf_b64decode s : no_fuel_error (b64decode s).
Proof. unfold b64decode. case_match; [apply nf_a2b|done]. Qed.
End whole.

(** ** What the parser accepts *)

(** Membership in a list of numbers, by evaluation. *)
Ltac is_flag := apply (bool_decide_unpack _); vm_compute; exact I.

Section accepted.
Context `{Hashes}.
Implicit Types (self : PSBT) (st : GState).

(** Nothing of the inputs and outputs is there yet, and the transaction is
    the initial one or an unsigned one. *)
Definition g_valid st : Prop :=
  psbt_inputs (g_psbt st) = [] ∧ psbt_outputs (g_psbt st) = [] ∧
  (if g_found_unsigned_tx st then True else psbt_tx (g_psbt st) = CTransaction_new) ∧
  wit (psbt_tx (g_psbt st)) = [] ∧ Forall (λ i, scriptSig i = []) (vin (psbt_tx (g_psbt st))) ∧
  0 <= psbt_version (g_psbt st).

Lemma parse_unsigned_tx_ok b s tx s' : parse_unsigned_tx b s = (Ok tx, s') →
  wit tx = [] ∧ Forall (λ i, scriptSig i = []) (vin tx).
Proof.
  unfold parse_unsigned_tx. destruct (tx_deserialize_without_witness b) as [[t|e] r] eqn:E; [|done].
  intros Hp. invert_reader Hp. unfold tx_deserialize_without_witness in E. invert_reader E. split; [done|].
  cbn [vin wit] in *. match goal with He : existsb _ _ = false |- _ => clear -He; rename He into Hex end.
  match goal with |- Forall _ ?l => induction l as [|i l IH] end; [constructor|]. cbn [existsb] in Hex. bools. constructor; [by apply len_nil_inv|by apply IH].
Qed.

Lemma g_entry_valid key t lookup st s st' s' : g_valid st → g_entry key t lookup st s = (Ok st', s') → g_valid st'.
Proof.
  intros (V1 & V2 & V3 & V4 & V5 & V6) He. unfold g_entry in He.
  repeat (match type of He with (if ?b then _ else _) _ = _ => destruct b end).
  - unfold g_read_unsigned_tx, global_key in He. invert_reader He.
    match goal with E : parse_unsigned_tx _ _ = _ |- _ => apply parse_unsigned_tx_ok in E as [E1' E2'] end.
    by split_and!.
  - unfold g_read_xpub in He. apply reader_bind_ok in He as (d & s1 & _ & He). invert_reader He. by split_and!.
  - unfold g_read_tx_version, global_key in He. invert_reader He. by split_and!.
  - unfold g_read_fallback_locktime, global_key in He. invert_reader He. by split_and!.
  - unfold g_read_input_count, global_key in He. invert_reader He. by split_and!.
  - unfold g_read_output_count, global_key in He. invert_reader He. by split_and!.
  - unfold g_read_tx_modifiable, global_key in He. invert_reader He. by split_and!.
  - unfold g_read_version, global_key in He. invert_reader He.
    match goal with E : unpack_u 4 _ = Ok _ |- _ => apply unpack_u_fits in E as [E _] end. by split_and!.
  - unfold g_read_unknown in He. invert_reader He. by split_and!.
Qed.

Lemma rehash_fixed tx tx' : rehash tx = Ok tx' → rehash tx' = Ok tx'.
Proof.
  intros Hr. assert (∃ a b, tx' = set_ids a b tx) as (a & b & E).
  { unfold rehash, calc_sha256 in Hr. apply bind_ok in Hr as ([o t] & Hr & E). injection E as <-.
    apply bind_ok in Hr as (sha & _ & Hr). apply bind_ok in Hr as (c & _ & Hr). injection Hr as <- <-.
    eexists _, _. reflexivity. }
  rewrite E at 1. by rewrite rehash_set_ids.
Qed.

(** The previous transaction of an input carries its own id, which is [h]. *)
Definition prev_tx_id (i : PsbtIn) (h : bytes) : Prop :=
  match in_non_witness_utxo i with Some tx => rehash tx = Ok tx ∧ tx_hash tx = Some h | None => True end.

Definition prev_tx_checked self (i : nat) (p : PsbtIn) : Prop :=
  in_version p = psbt_version self ∧ ∃ h, prev_tx_id p h ∧
    (if 2 <=? psbt_version self then h = in_prev_txid p
     else ∃ txin, vin (psbt_tx self) !! i = Some txin ∧ ser_uint256 (op_hash (prevout txin)) = Ok h).

Lemma check_prev_tx_ok self i p q : in_version p = psbt_version self →
  check_prev_tx self i p = Ok q → prev_tx_checked self i q.
Proof.
  intros Hv Hc. unfold check_prev_tx in Hc. apply bind_ok in Hc as (h & Hh & Hc).
  assert (in_version q = psbt_version self ∧ in_prev_txid q = in_prev_txid p ∧ prev_tx_id q h) as (Q1 & Q2 & Q3).
  { unfold prev_tx_id. destruct (in_non_witness_utxo p) as [tx|] eqn:Et.
    - apply bind_ok in Hc as (tx' & Er & Hc). case_bool_decide as Eh; [|done]. injection Hc as <-.
      split_and!; try done. cbn. split; [by eapply rehash_fixed|done].
    - injection Hc as <-. by rewrite Et. }
  split; [done|]. exists h. split; [done|]. rewrite Q2. destruct (2 <=? psbt_version self); [by injection Hh|].
  apply bind_ok in Hh as (txin & Ht & Hh). exists txin. split; [|done].
  unfold nth_py in Ht. destruct (vin (psbt_tx self) !! i); [by injection Ht as ->|done].
Qed.

Lemma read_inputs_checked n i self s ins s' : read_inputs n i self s = (Ok ins, s') →
  ∀ k p, ins !! k = Some p → prev_tx_checked self (i + k) p.
Proof.
  revert i s ins. induction n as [|n IH]; intros i s ins Hr; cbn [read_inputs] in Hr.
  - invert_reader Hr. by intros k p Hk.
  - apply reader_bind_ok in Hr as (e & s1 & He & Hr). injection He as <- <-.
    case_bool_decide; [invert_reader Hr; by intros k p Hk|].
    apply reader_bind_ok in Hr as (p & s2 & Hp & Hr). apply reader_bind_ok in Hr as (q & s3 & Hq & Hr).
    apply lift_ok in Hq as [Hq ->]. apply reader_bind_ok in Hr as (rest & s4 & Hrest & Hr). invert_reader Hr.
    apply in_deserialize_reach in Hp as [(lookup & Hp) _]. apply in_reach_valid in Hp as [_ Hv].
    apply (check_prev_tx_ok _ _ _ _ Hv) in Hq. intros [|k] x Hk.
    + injection Hk as <-. by rewrite Nat.add_0_r.
    + specialize (IH _ _ _ Hrest k x Hk). by replace (i + S k)%nat with (S i + k)%nat by lia.
Qed.

Lemma fill_inputs_lookup vins ins ins' : fill_inputs vins ins = Ok ins' →
  length ins' = length ins ∧ ∀ k p, ins' !! k = Some p → ∃ q, ins !! k = Some q ∧
    in_non_witness_utxo p = in_non_witness_utxo q ∧ in_version p = in_version q ∧
    ∀ txin, vins !! k = Some txin → ser_uint256 (op_hash (prevout txin)) = Ok (in_prev_txid p).
Proof.
  revert ins ins'. induction vins as [|txin vins IH]; intros ins ins' Hf.
  - destruct ins as [|q0 ins]; injection Hf as <-; (split; [done|]); intros k p Hk; exists p; by split_and!.
  - destruct ins as [|q ins]; [done|]. cbn [fill_inputs] in Hf. apply bind_ok in Hf as (p & Hp & Hf).
    apply bind_ok in Hf as (r & Hr & Hf). injection Hf as <-. apply IH in Hr as [Hl Hr]. split; [cbn; lia|].
    intros [|k] x Hk; [|by apply Hr]. injection Hk as <-. exists q. unfold input_from_txin in Hp.
    apply bind_ok in Hp as (h & Hh & Hp). injection Hp as <-. split_and!; try done. by intros ? [= <-].
Qed.

Lemma fill_outputs_length vouts outs outs' : fill_outputs vouts outs = Ok outs' → length outs' = length outs.
Proof.
  revert outs outs'. induction vouts as [|o vouts IH]; intros [|q outs] outs' Hf; cbn [fill_outputs] in Hf;
    try (by injection Hf as <-); [done|].
  apply bind_ok in Hf as (r & Hr & Hf). injection Hf as <-. cbn. f_equal. by eapply IH.
Qed.

(** What was read under each type of global field, and the keys that were. *)
Definition g_flag (t : Z) st : Prop :=
  if t =? 0x00 then g_found_unsigned_tx st = true
  else if t =? 0x02 then is_Some (psbt_tx_version (g_psbt st))
  else if t =? 0x03 then is_Some (psbt_fallback_locktime (g_psbt st))
  else if t =? 0x04 then is_Some (g_input_count st)
  else if t =? 0x05 then is_Some (g_output_count st)
  else if t =? 0x06 then is_Some (psbt_tx_modifiable (g_psbt st))
  else psbt_explicit_version (g_psbt st) = true.
Definition flag_types : list Z := [0x00; 0x02; 0x03; 0x04; 0x05; 0x06; 0xFB].
Definition g_keys st (keys : gset bytes) : Prop := ∀ t, t ∈ flag_types → g_flag t st ↔ [chr t] ∈ keys.

(** The read loop of the global map, on the bytes after the magic. *)
Definition g_new : GState := {| g_psbt := PSBT_new; g_input_count := None; g_output_count := None; g_found_unsigned_tx := false |}.
Definition global_map (b : bytes) st (keys : gset bytes) (rest : bytes) : Prop :=
  take 5 b = psbt_magic ∧ loop (S (length (drop 5 b))) (map_body g_entry) (g_new, ∅) (drop 5 b) = (Ok (st, keys), rest).

Lemma chr_key_type t : t ∈ flag_types → (deser_compact_size [chr t]).1 = Ok t ∧ t ∈ g_types.
Proof.
  intros Ht. unfold flag_types in Ht.
  repeat (apply elem_of_cons in Ht as [->|Ht]; [split; [vm_compute; reflexivity|apply (bool_decide_unpack _); vm_compute; exact I]|]). by apply not_elem_of_nil in Ht.
Qed.

Lemma key_is_type key t u : (deser_compact_size key).1 = Ok t → u ∈ flag_types → key = [chr u] → u = t.
Proof. intros Hk Hu ->. rewrite (proj1 (chr_key_type u Hu)) in Hk. by injection Hk. Qed.

Lemma type_is_key key t : (deser_compact_size key).1 = Ok t → t ∈ flag_types → len key <= 1 → key = [chr t].
Proof.
  intros Hk Ht Hl. destruct key as [|c [|c' key]]; [done| |rewrite !len_cons in Hl; pose proof (len_nonneg key); lia].
  f_equal. pose proof (chr_key_type t Ht) as [Hc _].
  assert (∀ c, match (deser_compact_size [c]).1 with Ok t => bool_decide (c = chr t) | Err _ => true end = true) as Hall
    by (clear; intros c; destruct c; vm_compute; reflexivity).
  specialize (Hall c). rewrite Hk in Hall. by apply bool_decide_eq_true in Hall.
Qed.

(** A handler of a single-byte key sets the flag of its type and no other. *)
Lemma g_keys_single key t st st' keys : t ∈ flag_types → (deser_compact_size key).1 = Ok t → len key <= 1 →
  (∀ u, u ∈ flag_types → g_flag u st' ↔ g_flag u st ∨ u = t) → g_keys st keys → g_keys st' ({[key]} ∪ keys).
Proof.
  intros Ht Hk Hl Hf Hg u Hu. rewrite Hf, (Hg u Hu), elem_of_union, elem_of_singleton by done. split.
  - intros [?| ->]; [by right|left]. symmetry. by apply type_is_key.
  - intros [E|?]; [right|by left]. by apply (key_is_type key).
Qed.

Lemma g_keys_other key t st st' keys : t ∉ flag_types ∨ 1 < len key → (deser_compact_size key).1 = Ok t →
  (∀ u, u ∈ flag_types → g_flag u st' ↔ g_flag u st) → g_keys st keys → g_keys st' ({[key]} ∪ keys).
Proof.
  intros Ht Hk Hf Hg u Hu. rewrite Hf, (Hg u Hu), elem_of_union, elem_of_singleton by done. split; [by right|].
  intros [E|?]; [|done]. symmetry in E. destruct Ht as [Ht|Ht]; [|subst key; by vm_compute in Ht].
  destruct Ht. by rewrite <- (key_is_type key t u).
Qed.

(** The flags one by one: the one that is set, and the others, which stay. *)
Ltac each_flag := let u := fresh in let Hu := fresh in intros u Hu; unfold flag_types in Hu;
  repeat (apply elem_of_cons in Hu as [->|Hu];
    [cbn; first [done | split; [by left|intros [?|?]; done] | split; [by right|intros _; first [done|by eexists]]]|]);
  by apply not_elem_of_nil in Hu.

Lemma g_entry_keys key t keys st s st' s' : (deser_compact_size key).1 = Ok t → g_keys st keys →
  g_entry key t keys st s = (Ok st', s') → g_keys st' ({[key]} ∪ keys).
Proof.
  intros Hk Hg He. unfold g_entry in He.
  repeat match type of He with (if ?a =? ?b then _ else _) _ = _ => destruct (Z.eqb_spec a b) as [->|?] end.
  - unfold g_read_unsigned_tx, global_key in He. invert_reader He. bools. eapply g_keys_single; [|exact Hk|lia|each_flag|exact Hg]; is_flag.
  - unfold g_read_xpub in He. apply reader_bind_ok in He as (d & s1 & Hd & He). invert_reader He.
    eapply g_keys_other; [left|exact Hk|each_flag|exact Hg]; is_flag.
  - unfold g_read_tx_version, global_key in He. invert_reader He. bools. eapply g_keys_single; [|exact Hk|lia|each_flag|exact Hg]; is_flag.
  - unfold g_read_fallback_locktime, global_key in He. invert_reader He. bools. eapply g_keys_single; [|exact Hk|lia|each_flag|exact Hg]; is_flag.
  - unfold g_read_input_count, global_key in He. invert_reader He. bools. eapply g_keys_single; [|exact Hk|lia|each_flag|exact Hg]; is_flag.
  - unfold g_read_output_count, global_key in He. invert_reader He. bools. eapply g_keys_single; [|exact Hk|lia|each_flag|exact Hg]; is_flag.
  - unfold g_read_tx_modifiable, global_key in He. invert_reader He. bools. eapply g_keys_single; [|exact Hk|lia|each_flag|exact Hg]; is_flag.
  - unfold g_read_version, global_key in He. invert_reader He. bools. eapply g_keys_single; [|exact Hk|lia|each_flag|exact Hg]; is_flag.
  - unfold g_read_unknown in He. invert_reader He. apply (g_keys_other key t st); [left|exact Hk|each_flag|exact Hg].
    unfold flag_types. rewrite !not_elem_of_cons. split_and!; try assumption. by intros ?%not_elem_of_nil.
Qed.

(** The global part of a parse. *)
Lemma psbt_read_ok s p s' : psbt_read PSBT_new s = (Ok p, s') →
  ∃ st keys rest inputs outputs s1 s2, g_valid st ∧ global_map s st keys rest ∧ g_keys st keys ∧ check_version_constraints st [] = (Ok (), []) ∧
    read_inputs (Z.to_nat (default (len (vin (psbt_tx (g_psbt st)))) (g_input_count st))) 0 (g_psbt st) s1 = (Ok inputs, s2) ∧
    len inputs = default (len (vin (psbt_tx (g_psbt st)))) (g_input_count st) ∧
    len outputs = default (len (vout (psbt_tx (g_psbt st)))) (g_output_count st) ∧
    cache_unsigned_tx_pieces (set_outputs outputs (set_inputs inputs (g_psbt st))) = Ok p.
Proof.
  unfold psbt_read. intros Hr. apply reader_bind_ok in Hr as (magic & s1 & Hm & Hr).
  apply reader_bind_ok in Hr as (u & s2 & Hmagic & Hr). apply reader_bind_ok in Hr as (st & s3 & Hg & Hr).
  change (read 5 s) with (Ok (take 5 s) : result bytes, drop 5 s) in Hm. injection Hm as <- <-. apply check_ok in Hmagic as [Hmagic ->]. bools.
  fold g_new in Hg. unfold read_map in Hg. destruct (loop _ _ _ _) as [[[st0 keys]|e] s0] eqn:El; [|discriminate]. injection Hg as -> ->.
  assert (g_valid st) as Hg.
  { eapply (map_loop_inv g_entry (λ st _, g_valid st)); [| |exact El]; [intros; by eapply g_entry_valid|by split_and!]. }
  assert (g_keys st keys) as Hk.
  { eapply (map_loop_inv g_entry g_keys); [| |exact El]; [intros; by eapply g_entry_keys|]. intros t Ht. clear -Ht. revert t Ht. each_flag. }
  apply reader_bind_ok in Hr as (u' & s4 & Hv & Hr). cbv zeta in Hr.
  apply reader_bind_ok in Hr as (inputs & s5 & Hi & Hr). apply reader_bind_ok in Hr as (u2 & s6 & Hci & Hr).
  apply reader_bind_ok in Hr as (outputs & s7 & Ho & Hr). apply reader_bind_ok in Hr as (u3 & s8 & Hco & Hr).
  apply lift_ok in Hr as [Hr _]. apply check_ok in Hci as [Hci _]. apply check_ok in Hco as [Hco _]. bools.
  pose proof Hg as (V1 & V2 & _). exists st, keys, s3, inputs, outputs, s4, s5.
  cbn [psbt_inputs psbt_outputs set_inputs set_outputs psbt_tx] in *. rewrite V1, V2 in *. cbn [app] in *.
  split_and!; try done. clear -Hv. revert Hv. unfold check_version_constraints.
  destruct (psbt_version (g_psbt st) =? 0), (psbt_version (g_psbt st) =? 1), (2 <=? psbt_version (g_psbt st));
    destruct (g_found_unsigned_tx st), (psbt_tx_version (g_psbt st)), (psbt_fallback_locktime (g_psbt st)),
      (g_input_count st), (g_output_count st), (psbt_tx_modifiable (g_psbt st)); cbn; done.
Qed.
End accepted.

(** ** Lock times *)

Definition only_time (i : PsbtIn) : bool :=
  bool_decide (is_Some (in_time_locktime i)) && negb (bool_decide (is_Some (in_height_locktime i))).
Definition only_height (i : PsbtIn) : bool :=
  bool_decide (is_Some (in_height_locktime i)) && negb (bool_decide (is_Some (in_time_locktime i))).

(** BIP 370: an input that names both kinds can do with either; the height is
    preferred; without requirements the fallback is used. *)
Definition lock_time_spec (inputs : list PsbtIn) (fallback : option Z) : result Z :=
  let times := omap in_time_locktime inputs in
  let heights := omap in_height_locktime inputs in
  if existsb only_time inputs && existsb only_height inputs then Err PSBTSerializationError
  else if existsb only_time inputs then Ok (foldl Z.max 0 times)
  else match heights with [] => Ok (default 0 fallback) | _ => Ok (foldl Z.max 0 heights) end.

Lemma lock_fold_spec inputs t h mt mh :
  t && h = false →
  lock_fold (if h then None else Some mt, if t then None else Some mh) inputs =
  (let t' := t || existsb only_time inputs in
   let h' := h || existsb only_height inputs in
   if t' && h' then Err PSBTSerializationError
   else Ok (if h' then None else Some (foldl Z.max mt (omap in_time_locktime inputs)),
            if t' then None else Some (foldl Z.max mh (omap in_height_locktime inputs)))).
Proof.
  revert t h mt mh. induction inputs as [|i inputs IH]; intros t h mt mh Hth.
  - cbn [existsb lock_fold]. rewrite !orb_false_r, Hth. by destruct t, h.
  - cbn [existsb lock_fold]. unfold lock_step.
    destruct (only_time i) eqn:Eot, (only_height i) eqn:Eoh; unfold only_time in Eot; unfold only_height in Eoh;
      destruct (in_time_locktime i) as [ti|] eqn:Et, (in_height_locktime i) as [hi|] eqn:Eh; try done;
      cbn [omap list_omap]; rewrite Et, Eh; destruct t, h; try done; rewrite ?orb_false_l, ?orb_true_l, ?orb_true_r;
      rewrite bind_Ok.
    + exact (IH true false (Z.max mt ti) mh eq_refl).
    + exact (IH true false (Z.max mt ti) mh eq_refl).
    + exact (IH false true mt (Z.max mh hi) eq_refl).
    + exact (IH false true mt (Z.max mh hi) eq_refl).
    + exact (IH true false (Z.max mt ti) mh eq_refl).
    + exact (IH false true mt (Z.max mh hi) eq_refl).
    + exact (IH false false (Z.max mt ti) (Z.max mh hi) eq_refl).
    + exact (IH true false mt mh eq_refl).
    + exact (IH false true mt mh eq_refl).
    + exact (IH false false mt mh eq_refl).
Qed.

Lemma foldl_max_ge l m : m <= foldl Z.max m l.
Proof. revert m. induction l as [|x l IH]; intros m; cbn; [lia|]. specialize (IH (Z.max m x)). lia. Qed.

Lemma foldl_max_pos l x : Forall (λ v, 0 < v) l → x ∈ l → 0 < foldl Z.max 0 l.
Proof.
  intros Hl Hx. assert (∀ m, x <= foldl Z.max m l ∨ x ∉ l) as Hm.
  { clear. induction l as [|y l IH]; intros m; [right; set_solver|]. cbn [foldl].
    destruct (IH (Z.max m y)) as [H|H]; [by left|]. destruct (decide (x = y)) as [->|].
    - left. pose proof (foldl_max_ge l (Z.max m y)). lia.
    - right. set_solver. }
  rewrite Forall_forall in Hl. specialize (Hl x Hx). destruct (Hm 0); [lia|done].
Qed.

(** The required lock times are positive, as the input parser makes sure. *)
Definition locks_positive (i : PsbtIn) : Prop :=
  match in_time_locktime i with Some t => 0 < t | None => True end ∧
  match in_height_locktime i with Some h => 0 < h | None => True end.

Lemma omap_times inputs : Forall locks_positive inputs →
  Forall (λ v, 0 < v) (omap in_time_locktime inputs) ∧ Forall (λ v, 0 < v) (omap in_height_locktime inputs).
Proof.
  induction 1 as [|i l [H1 H2] _ [IH1 IH2]]; [done|]. cbn.
  destruct (in_time_locktime i), (in_height_locktime i); split; try constructor; done.
Qed.

Lemma only_time_elem inputs : existsb only_time inputs = true → ∃ t, t ∈ omap in_time_locktime inputs.
Proof.
  intros (i & Hi & Ho)%existsb_exists. unfold only_time in Ho. bools. destruct H as [t Et].
  exists t. apply list_elem_of_omap. exists i. split; [by apply list_elem_of_In|done].
Qed.

Lemma no_only_time inputs : existsb only_time inputs = false → omap in_height_locktime inputs = [] →
  omap in_time_locktime inputs = [].
Proof.
  induction inputs as [|i l IH]; [done|]. cbn [existsb]. intros Ho Hh. apply orb_false_iff in Ho as [Ho Hl].
  cbn in *. unfold only_time in Ho. destruct (in_time_locktime i), (in_height_locktime i); try done; by apply IH.
Qed.

Lemma only_height_none inputs : omap in_height_locktime inputs = [] → existsb only_height inputs = false.
Proof.
  induction inputs as [|i l IH]; [done|]. cbn. unfold only_height.
  destruct (in_height_locktime i) as [h|]; [done|]. exact IH.
Qed.

(** ** Converting between the versions *)

Section convert.
Context `{Hashes}.

Lemma txin_of_fixed txin p v : txin_wf txin → scriptSig txin = [] → input_from_txin txin p = Ok p →
  txin_of (set_version v p) = Ok txin.
Proof.
  intros ((Hh & _) & _) Hs Hp. unfold input_from_txin in Hp. apply bind_ok in Hp as (h & Eh & Hp).
  assert (in_prev_txid p = h ∧ in_prev_out p = Some (op_n (prevout txin)) ∧ in_sequence p = Some (nSequence txin))
    as (E1 & E2 & E3) by (injection Hp as <-; done).
  unfold txin_of. cbn [set_version in_prev_out in_sequence in_prev_txid]. rewrite E1, E2, E3. cbn [of_option]. rewrite bind_Ok.
  rewrite (uint256_from_str_ser _ _ Hh Eh), bind_Ok. destruct txin as [[h' n'] sc sq]. cbn in *. by subst.
Qed.

Lemma txins_of_fixed vins ins v : Forall txin_wf vins → Forall (λ i, scriptSig i = []) vins →
  Forall2 (λ txin p, input_from_txin txin p = Ok p) vins ins → mapR txin_of (map (set_version v) ins) = Ok vins.
Proof.
  intros Hw Hs Hf. induction Hf as [|txin p vins ins Hp _ IH]; [done|].
  apply Forall_cons_1 in Hw as [Hw1 Hw]. apply Forall_cons_1 in Hs as [Hs1 Hs].
  cbn [map mapR]. by rewrite (txin_of_fixed _ _ _ Hw1 Hs1 Hp), bind_Ok, IH.
Qed.

Lemma txouts_of_fixed vouts outs v : length outs = length vouts → fill_outputs vouts outs = Ok outs →
  mapR txout_of (map (set_out_version v) outs) = Ok vouts.
Proof.
  revert outs. induction vouts as [|txout vouts IH]; intros [|o outs] Hl Hf; try done.
  cbn [fill_outputs] in Hf. apply bind_ok in Hf as (r & Er & E). injection E as E Er'. subst r.
  cbn [map mapR]. rewrite IH by (done || by injection Hl).
  assert (txout_of (set_out_version v o) = Ok txout) as ->; [|done].
  rewrite <- E. unfold txout_of. by destruct txout.
Qed.

Lemma lock_time_none self : Forall (λ i, in_time_locktime i = None ∧ in_height_locktime i = None) (psbt_inputs self) →
  compute_lock_time self = Ok (default 0 (psbt_fallback_locktime self)).
Proof.
  intros Hl. unfold compute_lock_time.
  assert (lock_fold (Some 0, Some 0) (psbt_inputs self) = Ok (Some 0, Some 0)) as ->; [|done].
  induction Hl as [|i l [H1 H2] _ IH]; [done|]. cbn [lock_fold]. unfold lock_step. by rewrite H1, H2, bind_Ok.
Qed.

Lemma convert_versions self v w : Forall (λ i, in_version i = w) (psbt_inputs self) →
  Forall (λ o, out_version o = w) (psbt_outputs self) → psbt_version self = w →
  _convert_version w (_convert_version v self) = self.
Proof.
  intros Hi Ho Hv. unfold _convert_version. destruct self as [tx ins outs u x tv fb m ver ex].
  cbn [psbt_inputs psbt_outputs psbt_version set_outputs set_inputs set_psbt_version] in *. subst ver.
  rewrite !map_map.
  assert (map (λ i, set_version w (set_version v i)) ins = ins) as ->.
  { induction Hi as [|i l E _ IH]; [done|]. cbn [map]. rewrite IH. f_equal. destruct i. cbn in *. by subst. }
  assert (map (λ o, set_out_version w (set_out_version v o)) outs = outs) as ->; [|done].
  induction Ho as [|i l E _ IH]; [done|]. cbn [map]. rewrite IH. f_equal. destruct i. cbn in *. by subst.
Qed.

Lemma psbt_wf0_bytes `{SetOrder} self : psbt_wf0 self → ∃ b, serialize_without_witness (psbt_tx self) = Ok b.
Proof.
  intros (_ & _ & _ & _ & Hb & _). destruct (serialize_without_witness _) as [b|]; [by exists b|done].
Qed.

Lemma unsigned_tx_v2 self : psbt_wf0 self →
  Forall (λ i, in_time_locktime i = None ∧ in_height_locktime i = None) (psbt_inputs self) →
  get_unsigned_tx (convert_to_v2 self) = rehash (psbt_tx self).
Proof.
  intros (Hv & (Hnv & [_ Hi] & _) & Hfresh & Hsig & _ & Hli & Hlo & Htv & Hfb & Hfi & Hfo & _) Hlock.
  unfold get_unsigned_tx, convert_to_v2, _convert_version.
  cbn [psbt_version psbt_tx_version psbt_inputs psbt_outputs set_outputs set_inputs set_psbt_version].
  change (2 =? 0) with false. cbv iota. rewrite Htv. cbn [of_option]. rewrite bind_Ok.
  rewrite lock_time_none by (cbn [psbt_inputs set_outputs set_inputs set_psbt_version]; apply Forall_map;
    eapply Forall_impl; [exact Hlock|]; by intros []).
  cbn [psbt_fallback_locktime set_outputs set_inputs set_psbt_version]. rewrite Hfb. cbn [default]. rewrite bind_Ok.
  rewrite (txins_of_fixed (vin (psbt_tx self))), bind_Ok by (done || by apply fill_inputs_fixed).
  rewrite (txouts_of_fixed (vout (psbt_tx self))), bind_Ok by done.
  rewrite <- Hfresh at 5. done.
Qed.
End convert.

(** ** Examples *)

Definition example_psbt2 : PSBT :=
  {| psbt_tx := CTransaction_new; psbt_inputs := [example_in]; psbt_outputs := [example_out];
     psbt_unknown := [([chr 0x30], [chr 1]); ([chr 0x2f; chr 2], [])];
     psbt_xpub := [(replicate 78 (chr 3), {| fingerprint := map chr [1; 2; 3; 4]; path := [H_ 86] |})];
     psbt_tx_version := Some 2; psbt_fallback_locktime := Some 100; psbt_tx_modifiable := Some 3;
     psbt_version := 2; psbt_explicit_version := true |}.

(** A version 0 PSBT that spends the first output of [example_tx]. *)
Definition example_prev_tx : CTransaction :=
  match rehash (H := executable_hashes) example_tx with Ok tx => tx | Err _ => CTransaction_new end.

Definition example_unsigned_tx : CTransaction :=
  {| nVersion := 2;
     vin := [{| prevout := {| op_hash := default 0 (tx_sha256 example_prev_tx); op_n := 0 |};
                scriptSig := []; nSequence := 7 |}];
     vout := [{| nValue := 4000; scriptPubKey := [chr 0x51] |}]; wit := []; nLockTime := 500;
     tx_sha256 := None; tx_hash := None |}.

Definition example_psbt0 : PSBT :=
  {| psbt_tx := example_unsigned_tx;
     psbt_inputs := [set_sequence (Some 7) (set_prev_out (Some 0) (set_prev_txid (default [] (tx_hash example_prev_tx))
       (set_non_witness_utxo (Some example_prev_tx) (PsbtIn_new 0))))];
     psbt_outputs := [set_out_script [chr 0x51] (set_out_amount (Some 4000) (PsbtOut_new 0))];
     psbt_unknown := []; psbt_xpub := []; psbt_tx_version := Some 2; psbt_fallback_locktime := Some 500;
     psbt_tx_modifiable := None; psbt_version := 0; psbt_explicit_version := false |}.

#[export] Instance PsbtIn_eq_dec : EqDecision PsbtIn.
Proof. solve_decision. Defined.
#[export] Instance PsbtOut_eq_dec : EqDecision PsbtOut.
Proof. solve_decision. Defined.

#[export] Instance psbt_wf0_dec `{Hashes} `{SetOrder} self : Decision (psbt_wf0 self).
Proof. unfold psbt_wf0. cbv zeta. destruct (serialize_without_witness _); apply _. Defined.
#[export] Instance psbt_wf2_dec self : Decision (psbt_wf2 self).
Proof. unfold psbt_wf2. destruct (psbt_tx_version self), (psbt_tx_modifiable self); apply _. Defined.
#[export] Instance prev_tx_ok_dec i : Decision (prev_tx_ok i).
Proof. unfold prev_tx_ok. destruct (in_non_witness_utxo i); apply _. Defined.
#[export] Instance psbt_wf_dec `{Hashes} `{SetOrder} self : Decision (psbt_wf self).
Proof. unfold psbt_wf. apply _. Defined.

Lemma example_psbt2_wf : psbt_wf (H := executable_hashes) example_psbt2.
Proof. apply (bool_decide_unpack _). vm_compute. exact I. Qed.

Lemma example_psbt0_wf : psbt_wf (H := executable_hashes) example_psbt0.
Proof. apply (bool_decide_unpack _). vm_compute. exact I. Qed.

(** * Properties *)

Section same.
Context `{Hashes} `{SetOrder}.

Lemma in_back_same v0 i : in_wf i → (in_version i <? 2) = v0 → in_all_written i → same_in (psbt_in_back v0 i) i.
Proof.
  intros Hwf <- [Hf Hl]. destruct Hwf as (_ & _ & ((Hp & _) & _ & _ & _ & [Hh _] & _) & _ & _ & _ & _ & _ & _ & [Hu _]).
  destruct i as [ns ws ps sh rs wsc hd fs fw pt po sq tl hl ks ss sc bp ik mr mp mn ms un ve].
  unfold psbt_in_back, in_read_back, same_in. cbn in *. rewrite Z.ltb_antisym.
  destruct (in_unfinalized _).
  - destruct (Z.leb_spec 2 ve) as [L|L]; cbn [negb]; [|destruct (Hl L) as [-> ->]];
      (split_and!; [by apply sorted_items_eq..|done]).
  - destruct Hf as (-> & -> & -> & -> & -> & -> & -> & -> & -> & -> & ->); [done|].
    destruct (Z.leb_spec 2 ve) as [L|L]; cbn [negb]; [|destruct (Hl L) as [-> ->]];
      (split_and!; [done|done|by apply sorted_items_eq|done]).
Qed.

Lemma out_back_same v0 o : out_wf o → (out_version o <? 2) = v0 → same_out (psbt_out_back v0 o) o.
Proof.
  intros (_ & _ & [Hh _] & _ & _ & _ & _ & _ & [Hu _]) <-. destruct o as [rs ws hd am sc ik tt bp mp un ve].
  unfold psbt_out_back, out_read_back, same_out. cbn in *. rewrite Z.ltb_antisym.
  destruct (Z.leb_spec 2 ve); cbn [negb]; (split_and!; [by apply sorted_items_eq..|done]).
Qed.

Lemma read_back_same self : psbt_wf self → psbt_all_written self → same_psbt (psbt_read_back self) self.
Proof.
  intros (_ & _ & Hi & Ho & [Hx _] & [Hu _] & Hv) [Hw Hw2].
  assert ((psbt_version self <? 2) = (psbt_version self =? 0)) as Hv0.
  { destruct Hv as [(-> & _)|[Hv _]]; [done|]. destruct (Z.ltb_spec (psbt_version self) 2), (Z.eqb_spec (psbt_version self) 0); lia || done. }
  unfold same_psbt. cbn [psbt_read_back psbt_inputs psbt_outputs psbt_xpub psbt_unknown]. split_and!.
  - apply Forall2_fmap_l, Forall2_same_length_lookup_2; [done|]. intros k x y Hx1 Hy. rewrite Hx1 in Hy. injection Hy as <-.
    apply list_elem_of_lookup_2 in Hx1. rewrite Forall_forall in Hi, Hw. destruct (Hi x Hx1) as (? & Ev & _). apply in_back_same; [done|by rewrite Ev|by apply Hw].
  - apply Forall2_fmap_l, Forall2_same_length_lookup_2; [done|]. intros k x y Hx1 Hy. rewrite Hx1 in Hy. injection Hy as <-.
    apply list_elem_of_lookup_2 in Hx1. rewrite Forall_forall in Ho. destruct (Ho x Hx1) as (? & Ev). apply out_back_same; [done|by rewrite Ev].
  - by apply sorted_items_eq.
  - by apply sorted_items_eq.
  - destruct self as [tx ins outs un xp tv fb m ver ex]. cbn in *. unfold psbt_read_back. cbn.
    destruct (Z.eqb_spec ver 0) as [->|Hne]; [done|]. destruct Hv as [(? & _)|[Hle _]]; [done|].
    destruct (Hw2 Hle) as [-> ->]. by rewrite orb_true_r.
Qed.
End same.

(** C5: a PSBT is read back as it was written: for every well-formed PSBT of version 0 or of a
    version from 2 on, [serialize] gives a string, and what [deserialize] makes of that string is exactly
    [psbt_read_back]: the dictionaries that are written sorted are in that order, the signing fields of
    finalized inputs, the lock times of inputs of version 0, and the transaction of a PSBT from version 2
    on are gone, since they are not written.  Where nothing of that kind is set, it is the same PSBT: every
    field equal, and the dictionaries equal as Python compares them. *)
Theorem psbt_roundtrip `{Hashes} `{SetOrder} (self : PSBT) (Hwf : psbt_wf self) :
  ∃ s, psbt_serialize self = Ok (s, self) ∧ psbt_deserialize s PSBT_new = Ok (psbt_read_back self) ∧
    (psbt_all_written self → same_psbt (psbt_read_back self) self).
Proof.
  destruct (psbt_write_read self Hwf) as (b & Eb & Rb). exists (b64encode b). split; [|split].
  - unfold psbt_serialize. by rewrite Eb.
  - unfold psbt_deserialize. rewrite b64decode_b64encode, bind_Ok. by rewrite (reads_whole _ _ _ Rb).
  - by apply read_back_same.
Qed.

Lemma psbt_roundtrip_witness :
  (∃ s, psbt_serialize example_psbt2 = Ok (s, example_psbt2) ∧
    psbt_deserialize (H := executable_hashes) s PSBT_new = Ok (psbt_read_back example_psbt2)) ∧
  (∃ s, psbt_serialize example_psbt0 = Ok (s, example_psbt0) ∧
    psbt_deserialize (H := executable_hashes) s PSBT_new = Ok (psbt_read_back example_psbt0)) ∧
  same_psbt (psbt_read_back example_psbt0) example_psbt0 ∧ same_psbt (psbt_read_back example_psbt2) example_psbt2.
Proof.
  destruct (psbt_roundtrip (H := executable_hashes) example_psbt2 example_psbt2_wf) as (s2 & E2 & D2 & S2).
  destruct (psbt_roundtrip (H := executable_hashes) example_psbt0 example_psbt0_wf) as (s0 & E0 & D0 & S0).
  split; [exact (ex_intro _ s2 (conj E2 D2))|]. split; [exact (ex_intro _ s0 (conj E0 D0))|].
  split; [apply S0|apply S2]; (split; [constructor; [split|constructor]|]).
  - intros Hf. vm_compute in Hf. discriminate.
  - intros _. split; reflexivity.
  - intros Hv. vm_compute in Hv. destruct Hv. reflexivity.
  - intros Hf. vm_compute in Hf. discriminate.
  - intros Hv. vm_compute in Hv. discriminate.
  - intros _. split; reflexivity.
Defined.

(** Parsing always ends: whatever string it is given, [deserialize] returns a PSBT or raises,
    since every round of its read loops consumes a key; the fuel of the model, the length of the
    stream, never runs out. *)
Theorem psbt_deserialize_terminates `{Hashes} (s : pystr) (self : PSBT) :
  psbt_deserialize s self ≠ Err OutOfFuel.
Proof.
  unfold psbt_deserialize. apply nf_bind; [apply nf_b64decode|]. intros b. apply nf_safe, safe_psbt_read.
Qed.

(** The global fields of version 2, and the keys of both versions. *)
Definition v2_fields : list Z := [0x02; 0x03; 0x04; 0x05; 0x06].
Definition global_fields_ok (version : Z) (keys : gset bytes) : Prop :=
  if version =? 0 then [chr 0x00] ∈ keys ∧ Forall (λ t, [chr t] ∉ keys) v2_fields
  else [chr 0x00] ∉ keys ∧ Forall (λ t, [chr t] ∈ keys) [0x02; 0x04; 0x05].

(** C6: what the parser guarantees its callers.  The string is base 64 of the magic, the global map, and the
    maps of the inputs and outputs.  The version is 0 or at least 2.  In version 0 the global map has the
    unsigned transaction and none of the fields of version 2; the transaction has no signatures, and there is a
    map for each of its inputs and outputs.  From version 2 on the global map has the transaction version and
    the counts, and no transaction, and there are as many maps of inputs and outputs as the counts say.
    And the previous transaction of every input is the one its outpoint names, under the id computed from
    its own serialization. *)
Theorem psbt_deserialize_accepts `{Hashes} (s : pystr) (p : PSBT) (Hd : psbt_deserialize s PSBT_new = Ok p) :
  (psbt_version p = 0 ∨ 2 <= psbt_version p) ∧
  Forall (λ i, in_version i = psbt_version p ∧ prev_tx_id i (in_prev_txid i)) (psbt_inputs p) ∧
  ∃ b st keys rest, b64decode (strip s) = Ok b ∧ global_map b st keys rest ∧
    psbt_version p = psbt_version (g_psbt st) ∧ global_fields_ok (psbt_version p) keys ∧
    if psbt_version p =? 0 then
      psbt_tx p = psbt_tx (g_psbt st) ∧ length (psbt_inputs p) = length (vin (psbt_tx p)) ∧
      length (psbt_outputs p) = length (vout (psbt_tx p)) ∧ Forall (λ i, scriptSig i = []) (vin (psbt_tx p)) ∧ wit (psbt_tx p) = [] ∧
      psbt_tx_version p = Some (nVersion (psbt_tx p))
    else
      psbt_tx p = CTransaction_new ∧ psbt_tx_version p = psbt_tx_version (g_psbt st) ∧
      g_input_count st = Some (len (psbt_inputs p)) ∧ g_output_count st = Some (len (psbt_outputs p)).
Proof.
  unfold psbt_deserialize in Hd. apply bind_ok in Hd as (b & Hb & Hd).
  destruct (psbt_read PSBT_new b) as [r s'] eqn:Er. cbn in Hd. subst r.
  apply psbt_read_ok in Er as (st & keys & rest & ins & outs & s1 & s2 & (_ & _ & V3 & V4 & V5 & V6) & Hgm & Hk & Hv & Hi & Hli & Hlo & Hc).
  pose proof (read_inputs_checked _ _ _ _ _ _ Hi) as Hchk. clear Hi s1 s2 s'.
  assert (∀ t, t ∈ flag_types → (g_flag t st → [chr t] ∈ keys) ∧ (¬ g_flag t st → [chr t] ∉ keys)) as Hkey
    by (intros t Ht; specialize (Hk t Ht); tauto). clear Hk.
  pose proof (Hkey 0x00 ltac:(is_flag)) as K0. pose proof (Hkey 0x02 ltac:(is_flag)) as K2. pose proof (Hkey 0x03 ltac:(is_flag)) as K3.
  pose proof (Hkey 0x04 ltac:(is_flag)) as K4. pose proof (Hkey 0x05 ltac:(is_flag)) as K5. pose proof (Hkey 0x06 ltac:(is_flag)) as K6.
  cbn in K0, K2, K3, K4, K5, K6. clear Hkey.
  destruct (g_psbt st) as [tx i0 o0 u x tv fb m ver ex] eqn:Eg. unfold cache_unsigned_tx_pieces in Hc.
  unfold check_version_constraints in Hv. rewrite Eg in Hv. unfold global_fields_ok, v2_fields.
  cbn [psbt_version psbt_tx set_outputs set_inputs psbt_tx_version psbt_fallback_locktime psbt_tx_modifiable] in *.
  destruct (Z.eqb_spec ver 0) as [->|Hne].
  - unfold setup_from_tx in Hc.
    cbn [psbt_inputs psbt_outputs set_outputs set_inputs set_fallback_locktime set_tx_version] in Hc.
    apply bind_ok in Hc as (ins' & Hf & Hc). apply bind_ok in Hc as (outs' & Hfo & Hc). injection Hc as <-.
    cbn [psbt_version psbt_inputs psbt_outputs psbt_tx psbt_tx_version set_outputs set_inputs set_fallback_locktime set_tx_version].
    destruct (g_input_count st), (g_output_count st), (g_found_unsigned_tx st), tv, fb, m; try done. cbn [default] in *.
    apply fill_inputs_lookup in Hf as [Hlf Hf]. apply fill_outputs_length in Hfo.
    split; [by left|]. split.
    + apply Forall_lookup. intros k q Hq. destruct (Hf k q Hq) as (q0 & Hq0 & Eu & Ev & Et).
      destruct (Hchk k q0 Hq0) as (Hv0 & h & Hh & Hx). cbn [psbt_version psbt_tx Z.leb Z.compare] in Hx, Hv0.
      destruct Hx as (txin & Htx & Hs).
      specialize (Et txin Htx). rewrite Hs in Et. injection Et as <-. split; [congruence|].
      unfold prev_tx_id in *. by rewrite Eu.
    + exists b, st, keys, rest. rewrite Eg. unfold len in Hli, Hlo. split; [done|]. split; [done|]. split; [done|]. split; [|split_and!; try done; lia].
      split; [by apply K0|]. apply Forall_forall. intros t Ht.
      repeat (apply elem_of_cons in Ht as [->|Ht]; [first [apply K2|apply K3|apply K4|apply K5|apply K6]; by intros []|]). by apply not_elem_of_nil in Ht.
  - destruct (Z.eqb_spec ver 1) as [->|Hne1]; [by destruct (2 <=? 1)|].
    assert (2 <= ver) as Hle by lia. rewrite (proj2 (Z.leb_le 2 ver) Hle) in Hv.
    injection Hc as <-. cbn [psbt_version psbt_inputs psbt_outputs psbt_tx psbt_tx_version set_outputs set_inputs].
    destruct tv, (g_input_count st) as [ic|] eqn:Eic, (g_output_count st) as [oc|] eqn:Eoc, (g_found_unsigned_tx st); try done.
    split; [by right|]. split.
    + apply Forall_lookup. intros k q Hq. destruct (Hchk k q Hq) as (Hv0 & h & Hh & Hx). cbn [psbt_version] in Hx, Hv0.
      rewrite (proj2 (Z.leb_le 2 ver) Hle) in Hx. subst h. done.
    + exists b, st, keys, rest. rewrite Eg, Eic, Eoc. cbn [default id] in Hli, Hlo. split; [done|]. split; [done|]. split; [done|]. rewrite (proj2 (Z.eqb_neq ver 0) Hne).
      split; [|split_and!; try done; congruence].
      split; [by apply K0|]. apply Forall_forall. intros t Ht.
      repeat (apply elem_of_cons in Ht as [->|Ht]; [first [apply K2|apply K4|apply K5]; by eexists|]). by apply not_elem_of_nil in Ht.
Qed.

(** Signing as a function on the bytes of a PSBT: a device that knows one of them. *)
Definition example_signed_psbt : PSBT := set_inputs (map (set_tap_key_sig (replicate 64 (chr 7))) (psbt_inputs example_psbt0)) example_psbt0.
Definition psbt_bytes (psbt : PSBT) : bytes := match psbt_write psbt with Ok (b, _) => b | Err _ => [] end.
Definition example_signing (data : bytes) : bytes := if bool_decide (data = psbt_bytes example_psbt0) then psbt_bytes example_signed_psbt else data.

Definition example_psbt0_string : pystr :=
  match psbt_serialize example_psbt0 with Ok (s, _) => s | Err _ => [] end.

Lemma psbt_deserialize_accepts_witness : ∃ b st keys rest,
  b64decode (strip example_psbt0_string) = Ok b ∧ global_map b st keys rest ∧ global_fields_ok 0 keys ∧
  Forall (λ i, in_version i = 0 ∧ prev_tx_id (H := executable_hashes) i (in_prev_txid i)) (psbt_inputs (psbt_read_back example_psbt0)).
Proof.
  destruct (psbt_deserialize_accepts (H := executable_hashes) example_psbt0_string (psbt_read_back example_psbt0)) as (_ & Hi & Hg);
    [vm_compute; reflexivity|].
  destruct Hg as (b & st & keys & rest & Hb & Hg & _ & Hk & _). exists b, st, keys, rest.
  split; [exact Hb|]. split; [exact Hg|]. split; [exact Hk|exact Hi].
Defined.

(** C7: [compute_lock_time] is the rule of BIP 370: an error when one input can only do with a time
    and another only with a height, the greatest required time when some input can only do with a
    time, otherwise the greatest required height, and the fallback when nothing is required. *)
Theorem compute_lock_time_correct (self : PSBT) (Hpos : Forall locks_positive (psbt_inputs self)) :
  compute_lock_time self = lock_time_spec (psbt_inputs self) (psbt_fallback_locktime self).
Proof.
  unfold compute_lock_time, lock_time_spec. set (ins := psbt_inputs self) in *.
  pose proof (lock_fold_spec ins false false 0 0 eq_refl) as E. cbv zeta in E. rewrite E. clear E.
  destruct (omap_times ins Hpos) as [Ht Hh]. rewrite !orb_false_l.
  destruct (existsb only_time ins) eqn:Et, (existsb only_height ins) eqn:Eh; cbn [andb]; try done; rewrite bind_Ok.
  - destruct (only_time_elem ins Et) as (t & Hin). pose proof (foldl_max_pos _ t Ht Hin).
    cbn [default id]. by rewrite (proj2 (Z.ltb_lt 0 _)) by done.
  - destruct (omap in_height_locktime ins) as [|h hs] eqn:E.
    + cbn. by rewrite (only_height_none ins E) in Eh.
    + pose proof (foldl_max_pos _ h Hh (list_elem_of_here _ _)).
      cbn [default id]. by rewrite (proj2 (Z.ltb_lt 0 _)) by done.
  - destruct (omap in_height_locktime ins) as [|h hs] eqn:E.
    + by rewrite (no_only_time ins Et E).
    + pose proof (foldl_max_pos _ h Hh (list_elem_of_here _ _)).
      cbn [default id]. by rewrite (proj2 (Z.ltb_lt 0 _)) by done.
Qed.

(** An input that takes either kind, one that needs a height, and one without requirement. *)
Definition example_locked : PSBT :=
  set_inputs [set_time_locktime (Some 500000001) (set_height_locktime (Some 7) (PsbtIn_new 2));
              set_height_locktime (Some 9) (PsbtIn_new 2); PsbtIn_new 2] example_psbt2.

Lemma compute_lock_time_correct_witness :
  compute_lock_time example_locked = lock_time_spec (psbt_inputs example_locked) (psbt_fallback_locktime example_locked) ∧
  lock_time_spec (psbt_inputs example_locked) (psbt_fallback_locktime example_locked) = Ok 9.
Proof.
  split; [|reflexivity]. apply (compute_lock_time_correct example_locked).
  repeat constructor.
Defined.

(** Converting a version 0 PSBT without required lock times to version 2 keeps its unsigned
    transaction, whose identifiers are computed, and converting it back gives the PSBT with that
    transaction and its version implicit. *)
Theorem convert_roundtrip `{Hashes} `{SetOrder} (self : PSBT) (Hwf : psbt_wf0 self)
  (Hin : Forall (λ i, in_version i = 0) (psbt_inputs self)) (Hout : Forall (λ o, out_version o = 0) (psbt_outputs self))
  (Hlock : Forall (λ i, in_time_locktime i = None ∧ in_height_locktime i = None) (psbt_inputs self)) :
  ∃ tx, rehash (psbt_tx self) = Ok tx ∧ serialize_without_witness tx = serialize_without_witness (psbt_tx self) ∧
    get_unsigned_tx (convert_to_v2 self) = Ok tx ∧
    convert_to_v0 (convert_to_v2 self) = Ok (set_explicit_version false (set_tx tx self)).
Proof.
  pose proof (unsigned_tx_v2 self Hwf Hlock) as Eu.
  destruct (psbt_wf0_bytes self Hwf) as (b & Eb). pose proof (rehash_bytes _ _ Eb) as Etx.
  rewrite Etx in Eu. eexists. split; [exact Etx|]. split; [done|]. split; [done|].
  unfold convert_to_v0. rewrite Eu, bind_Ok. unfold convert_to_v2.
  rewrite convert_versions; [done|done|done|by destruct Hwf].
Qed.

Lemma convert_roundtrip_witness :
  ∃ tx, rehash (H := executable_hashes) (psbt_tx example_psbt0) = Ok tx ∧
    serialize_without_witness tx = serialize_without_witness (psbt_tx example_psbt0) ∧
    get_unsigned_tx (convert_to_v2 example_psbt0) = Ok tx ∧
    convert_to_v0 (convert_to_v2 example_psbt0) = Ok (set_explicit_version false (set_tx tx example_psbt0)).
Proof.
  apply (convert_roundtrip (H := executable_hashes) example_psbt0).
  - apply (bool_decide_unpack _). vm_compute. exact I.
  - repeat constructor.
  - repeat constructor.
  - repeat constructor.
Defined.

(** The transaction version is read and written as an unsigned integer in the PSBT but as a signed
    one in the transaction: a PSBT whose version field is 2^31 or more has no unsigned transaction. *)
Lemma large_tx_version_refused `{Hashes} (self : PSBT) (v : Z) :
  psbt_version self ≠ 0 → psbt_tx_version self = Some v → 2 ^ 31 <= v → ∀ tx, get_unsigned_tx self ≠ Ok tx.
Proof.
  intros Hv Htv Hl tx Hg. unfold get_unsigned_tx in Hg. rewrite (proj2 (Z.eqb_neq _ _) Hv), Htv in Hg.
  cbn [of_option] in Hg. rewrite bind_Ok in Hg. apply bind_ok in Hg as (lt & _ & Hg).
  apply bind_ok in Hg as (i & _ & Hg). apply bind_ok in Hg as (o & _ & Hg).
  unfold rehash, calc_sha256, serialize_without_witness in Hg.
  cbn [negb tx_serialize serialize_without_witness set_ids tx_sha256 nVersion] in Hg.
  assert (pack_s 4 v = Err StructError) as E.
  { unfold pack_s, in_s. change (256 ^ Z.of_nat 4 / 2) with (2 ^ 31).
    by rewrite (proj2 (Z.ltb_ge v (2 ^ 31)) Hl), andb_false_r. }
  by rewrite E in Hg.
Qed.
