(* ===== verification/DescChecksum.v ===== *)
(** * [hwilib/descriptor.py]: the descriptor checksum

    [PolyMod] is one step of a linear code over the field of 32 elements.  Its
    shift [pm40] is linear and injective on 40 bits, which is what makes any
    single wrong character of a descriptor change its checksum, however long
    the descriptor is. *)

From S2P Require Import Prelude Bytes PyStd PyStr.

Definition PolyMod (c val : Z) : Z :=
  let c0 := Z.shiftr c 35 in
  let c := Z.lxor (Z.shiftl (Z.land c 0x7ffffffff) 5) val in
  let c := if negb (Z.land c0 1 =? 0) then Z.lxor c 0xf5dee51989 else c in
  let c := if negb (Z.land c0 2 =? 0) then Z.lxor c 0xa9fdca3312 else c in
  let c := if negb (Z.land c0 4 =? 0) then Z.lxor c 0x1bab10e32d else c in
  let c := if negb (Z.land c0 8 =? 0) then Z.lxor c 0x3706b1677a else c in
  let c := if negb (Z.land c0 16 =? 0) then Z.lxor c 0x644d626ffd else c in
  c.

(** The characters 34, 92 and 32 are a quotation mark, a backslash and a space. *)
Definition INPUT_CHARSET : pystr :=
  $"0123456789()[],'/*abcdefgh@:$%{}IJKLMNOPQRSTUVWXYZ&+-.;<=>?!^_|~ijklmnopqrstuvwxyzABCDEFGH`#"
  ++ [chr 34; chr 92; chr 32].
Definition CHECKSUM_CHARSET : pystr := $"qpzry9x8gf2tvdw0s3jn54khce6mua7l".

(** The loop over the characters; [None] is the early return of the empty string. *)
Fixpoint checksum_loop (desc : pystr) (c cls clscount : Z) : option (Z * Z * Z) :=
  match desc with
  | [] => Some (c, cls, clscount)
  | ch :: desc =>
      match find_char ch INPUT_CHARSET with
      | None => None
      | Some pos =>
          let pos := Z.of_nat pos in
          let c := PolyMod c (Z.land pos 31) in
          let cls := cls * 3 + Z.shiftr pos 5 in
          let clscount := clscount + 1 in
          if clscount =? 3 then checksum_loop desc (PolyMod c cls) 0 0
          else checksum_loop desc c cls clscount
      end
  end.

Definition checksum_char (c j : Z) : byte :=
  default Byte.x00 (CHECKSUM_CHARSET !! Z.to_nat (Z.land (Z.shiftr c (5 * (7 - j))) 31)).

Definition DescriptorChecksum (desc : pystr) : pystr :=
  match checksum_loop desc 1 0 0 with
  | None => []
  | Some (c, cls, clscount) =>
      let c := if 0 <? clscount then PolyMod c cls else c in
      let c := Nat.iter 8 (λ c, PolyMod c 0) c in
      let c := Z.lxor c 1 in
      map (checksum_char c) [0; 1; 2; 3; 4; 5; 6; 7]
  end.

Definition AddChecksum (desc : pystr) : pystr := desc ++ $"#" ++ DescriptorChecksum desc.

(** The checksums of two descriptors of Bitcoin Core's tests. *)
Example checksum_raw : DescriptorChecksum $"raw(deadbeef)" = $"89f8spxm".
Proof. vm_compute. reflexivity. Qed.

(** * Lemmas *)

(** ** The code *)

Definition gen40 (t : Z) : Z :=
  let g (b v : Z) := if Z.land t b =? 0 then 0 else v in
  Z.lxor (g 1 0xf5dee51989) (Z.lxor (g 2 0xa9fdca3312) (Z.lxor (g 4 0x1bab10e32d)
    (Z.lxor (g 8 0x3706b1677a) (g 16 0x644d626ffd)))).

Definition pm40 (c : Z) : Z :=
  Z.lxor (Z.shiftl (Z.land c 0x7ffffffff) 5) (gen40 (Z.shiftr c 35)).

Definition sym5 (v : Z) : Prop := 0 <= v < 32.
Definition word40 (c : Z) : Prop := 0 <= c < 2 ^ 40.

Lemma PolyMod_shift c v : PolyMod c v = Z.lxor (pm40 c) v.
Proof.
  unfold PolyMod, pm40, gen40. set (s := Z.shiftl _ 5). set (t := Z.shiftr c 35).
  rewrite (Z.lxor_comm (Z.lxor s _) v), <- Z.lxor_assoc, (Z.lxor_comm v s).
  destruct (Z.land t 1 =? 0), (Z.land t 2 =? 0), (Z.land t 4 =? 0), (Z.land t 8 =? 0), (Z.land t 16 =? 0);
    cbn [negb]; rewrite ?Z.lxor_0_l, ?Z.lxor_0_r, ?Z.lxor_assoc; reflexivity.
Qed.

(** What is checked of the generator, for all pairs of five-bit words. *)
Definition gen40_checks : bool :=
  forallb (λ a, forallb (λ b,
    (Z.lxor (gen40 a) (gen40 b) =? gen40 (Z.lxor a b)) &&
    ((a =? b) || negb (Z.land (gen40 a) 31 =? Z.land (gen40 b) 31)) &&
    (0 <=? gen40 a) && (gen40 a <? 2 ^ 40)) (map Z.of_nat (seq 0 32))) (map Z.of_nat (seq 0 32)).

Lemma gen40_spec a b : sym5 a → sym5 b →
  Z.lxor (gen40 a) (gen40 b) = gen40 (Z.lxor a b) ∧
  (a ≠ b → Z.land (gen40 a) 31 ≠ Z.land (gen40 b) 31) ∧ word40 (gen40 a).
Proof.
  intros Ha Hb. assert (gen40_checks = true) as H by (vm_compute; reflexivity). unfold sym5, word40 in *.
  unfold gen40_checks in H. rewrite forallb_forall in H.
  assert (∀ x, 0 <= x < 32 → In x (map Z.of_nat (seq 0 32))) as Hin.
  { intros x Hx. apply in_map_iff. exists (Z.to_nat x). rewrite Z2Nat.id by lia. split; [done|]. apply in_seq. lia. }
  specialize (H a (Hin a Ha)). rewrite forallb_forall in H. specialize (H b (Hin b Hb)). bools.
  split; [done|]. split; [|lia]. intros Hne. destruct (Z.eqb_spec a b); [done|]. simpl in *. bools. lia.
Qed.

Lemma sym5_lxor a b : sym5 a → sym5 b → sym5 (Z.lxor a b).
Proof. unfold sym5. change 32 with (2 ^ 5). intros Ha Hb. apply lxor_bound; [lia|exact Ha|exact Hb]. Qed.

Lemma word40_lxor a b : word40 a → word40 b → word40 (Z.lxor a b).
Proof. unfold word40. intros Ha Hb. apply lxor_bound; [lia|exact Ha|exact Hb]. Qed.

Lemma top_sym c : word40 c → sym5 (Z.shiftr c 35).
Proof.
  intros Hc. unfold sym5, word40 in *. rewrite Z.shiftr_div_pow2 by lia.
  split; [apply Z.div_pos; lia|apply Z.div_lt_upper_bound; lia].
Qed.

Lemma low35 c : Z.land c 0x7ffffffff = c mod 2 ^ 35.
Proof. change 0x7ffffffff with (Z.ones 35). apply Z.land_ones. lia. Qed.

Lemma pm40_word c : word40 c → word40 (pm40 c).
Proof.
  intros Hc. apply lxor_bound; [lia| |exact (proj2 (proj2 (gen40_spec _ _ (top_sym c Hc) (top_sym c Hc))))].
  rewrite low35, Z.shiftl_mul_pow2 by lia. pose proof (Z.mod_pos_bound c (2 ^ 35)). lia.
Qed.

Lemma land_lxor_l a b m : Z.land (Z.lxor a b) m = Z.lxor (Z.land a m) (Z.land b m).
Proof.
  apply Z.bits_inj'. intros n _. rewrite !Z.lxor_spec, !Z.land_spec, Z.lxor_spec.
  by destruct (Z.testbit a n), (Z.testbit b n), (Z.testbit m n).
Qed.

Lemma pm40_lxor a b : word40 a → word40 b → pm40 (Z.lxor a b) = Z.lxor (pm40 a) (pm40 b).
Proof.
  intros Ha Hb. unfold pm40. rewrite Z.shiftr_lxor, land_lxor_l, Z.shiftl_lxor.
  destruct (gen40_spec _ _ (top_sym a Ha) (top_sym b Hb)) as [<- _]. apply lxor_swap.
Qed.

(** The low five bits of [pm40 c] determine the top ones of [c]. *)
Lemma pm40_low c : Z.land (pm40 c) 31 = Z.land (gen40 (Z.shiftr c 35)) 31.
Proof.
  unfold pm40. rewrite land_lxor_l. change 31 with (Z.ones 5). rewrite (Z.land_ones (Z.shiftl _ 5)) by lia.
  by rewrite Z.shiftl_mul_pow2, Z.mod_mul, Z.lxor_0_l by lia.
Qed.

Lemma pm40_inj a b : word40 a → word40 b → pm40 a = pm40 b → a = b.
Proof.
  intros Ha Hb E. pose proof (f_equal (λ x, Z.land x 31) E) as El. cbv beta in El. rewrite !pm40_low in El.
  destruct (gen40_spec _ _ (top_sym a Ha) (top_sym b Hb)) as (_ & Hne & _).
  destruct (decide (Z.shiftr a 35 = Z.shiftr b 35)) as [Et|]; [|by apply Hne in El].
  unfold pm40 in E. rewrite Et in E. apply (f_equal (λ x, Z.lxor x (gen40 (Z.shiftr b 35)))) in E.
  rewrite !Z.lxor_assoc, !Z.lxor_nilpotent, !Z.lxor_0_r, !low35, !Z.shiftl_mul_pow2 in E by lia.
  rewrite !Z.shiftr_div_pow2 in Et by lia.
  rewrite (Z.div_mod a (2 ^ 35)), (Z.div_mod b (2 ^ 35)) by lia. lia.
Qed.

Lemma pm40_small v : 0 <= v < 2 ^ 35 → pm40 v = Z.shiftl v 5.
Proof.
  intros Hv. unfold pm40. rewrite low35, Z.mod_small by lia.
  rewrite Z.shiftr_div_pow2, Z.div_small by lia. apply Z.lxor_0_r.
Qed.

Lemma PolyMod_word c v : word40 c → sym5 v → word40 (PolyMod c v).
Proof.
  intros Hc Hv. rewrite PolyMod_shift. apply lxor_bound; [lia|by apply pm40_word|]. unfold sym5 in Hv. lia.
Qed.

(** ** The symbols of a descriptor *)

(** The symbols fed to the code: the low bits of every character, and the
    collected groups of three. *)
Fixpoint desc_symbols (desc : pystr) (cls clscount : Z) : option (list Z) :=
  match desc with
  | [] => Some (if 0 <? clscount then [cls] else [])
  | ch :: desc =>
      match find_char ch INPUT_CHARSET with
      | None => None
      | Some pos =>
          let cls := cls * 3 + Z.shiftr (Z.of_nat pos) 5 in
          l ← (if clscount + 1 =? 3 then l ← desc_symbols desc 0 0; Some (cls :: l)
               else desc_symbols desc cls (clscount + 1));
          Some (Z.land (Z.of_nat pos) 31 :: l)
      end
  end.

Lemma checksum_loop_symbols desc c cls n :
  match checksum_loop desc c cls n with
  | Some (c', cls', n') => ∃ l, desc_symbols desc cls n = Some l ∧ (if 0 <? n' then PolyMod c' cls' else c') = foldl PolyMod c l
  | None => desc_symbols desc cls n = None
  end.
Proof.
  revert c cls n. induction desc as [|ch desc IH]; intros c cls n; cbn [checksum_loop desc_symbols].
  - eexists. split; [reflexivity|]. by destruct (0 <? n).
  - destruct (find_char ch INPUT_CHARSET) as [pos|]; [|done].
    destruct (n + 1 =? 3).
    + match goal with |- context [checksum_loop desc ?c' 0 0] => specialize (IH c' 0 0) end.
      destruct (checksum_loop desc _ 0 0) as [[[c1 cls1] n1]|].
      * destruct IH as (l & -> & E). eexists. split; [reflexivity|]. exact E.
      * by rewrite IH.
    + match goal with |- context [checksum_loop desc ?c' ?k' ?n'] => specialize (IH c' k' n') end.
      destruct (checksum_loop desc _ _ _) as [[[c1 cls1] n1]|].
      * destruct IH as (l & -> & E). eexists. split; [reflexivity|]. exact E.
      * by rewrite IH.
Qed.

(** The value the eight characters print. *)
Definition checksum_word (l : list Z) : Z := Z.lxor (foldl PolyMod 1 (l ++ replicate 8 0)) 1.

Lemma foldl_zeros n c : foldl PolyMod c (replicate n 0) = Nat.iter n (λ c, PolyMod c 0) c.
Proof. revert c. induction n as [|n IH]; intros c; [done|]. cbn [replicate foldl]. by rewrite IH, Nat.iter_succ_r. Qed.

Lemma checksum_symbols desc :
  DescriptorChecksum desc =
  match desc_symbols desc 0 0 with
  | Some l => map (checksum_char (checksum_word l)) [0; 1; 2; 3; 4; 5; 6; 7]
  | None => []
  end.
Proof.
  unfold DescriptorChecksum. pose proof (checksum_loop_symbols desc 1 0 0) as H.
  destruct (checksum_loop desc 1 0 0) as [[[c cls] n]|]; [|by rewrite H].
  destruct H as (l & -> & ->). unfold checksum_word. by rewrite foldl_app, foldl_zeros.
Qed.

(** ** A wrong symbol, or two close to each other *)

Lemma iter_pm40_word n c : word40 c → word40 (Nat.iter n pm40 c).
Proof. intros Hc. induction n as [|n IH]; [done|]. by apply pm40_word. Qed.

Lemma iter_pm40_lxor n a b : word40 a → word40 b →
  Nat.iter n pm40 (Z.lxor a b) = Z.lxor (Nat.iter n pm40 a) (Nat.iter n pm40 b).
Proof.
  intros Ha Hb. induction n as [|n IH]; [done|]. rewrite !Nat.iter_succ, IH.
  apply pm40_lxor; by apply iter_pm40_word.
Qed.

Lemma iter_pm40_nonzero n d : word40 d → d ≠ 0 → Nat.iter n pm40 d ≠ 0.
Proof.
  intros Hd H0. induction n as [|n IH]; [done|]. rewrite Nat.iter_succ. intros E. apply IH.
  apply pm40_inj; [by apply iter_pm40_word|done|]. by rewrite E.
Qed.

Lemma sym_word v : sym5 v → word40 v.
Proof. unfold sym5, word40. lia. Qed.

Lemma foldl_word l c : Forall sym5 l → word40 c → word40 (foldl PolyMod c l).
Proof. intros Hl. revert c. induction Hl as [|v l Hv Hl IH]; intros c Hc; [done|]. apply IH. by apply PolyMod_word. Qed.

(** Equal symbols only shift the difference of two states. *)
Lemma foldl_diff l a b : Forall sym5 l → word40 a → word40 b →
  Z.lxor (foldl PolyMod a l) (foldl PolyMod b l) = Nat.iter (length l) pm40 (Z.lxor a b).
Proof.
  intros Hl. revert a b. induction Hl as [|v l Hv Hl IH]; intros a b Ha Hb; [done|].
  cbn [foldl length]. rewrite IH, Nat.iter_succ_r by (by apply PolyMod_word). f_equal.
  rewrite !PolyMod_shift, lxor_swap, Z.lxor_nilpotent, Z.lxor_0_r. symmetry. by apply pm40_lxor.
Qed.

(** Two symbols at most three apart, at least one of them changed, cannot cancel. *)
Lemma near_symbols_differ c v v' m k k' q :
  word40 c → Forall sym5 (v :: v' :: k :: k' :: m ++ q) → (length m <= 2)%nat → (v, k) ≠ (v', k') →
  foldl PolyMod c (v :: m ++ k :: q) ≠ foldl PolyMod c (v' :: m ++ k' :: q).
Proof.
  intros Hc Hs Hm Hne E. apply Forall_cons_1 in Hs as [Hv Hs]. apply Forall_cons_1 in Hs as [Hv' Hs].
  apply Forall_cons_1 in Hs as [Hk Hs]. apply Forall_cons_1 in Hs as [Hk' Hs]. apply Forall_app in Hs as [Hms Hqs].
  cbn [foldl] in E. rewrite !foldl_app in E. cbn [foldl] in E.
  set (a := foldl PolyMod (PolyMod c v) m) in *. set (b := foldl PolyMod (PolyMod c v') m) in *.
  assert (word40 a ∧ word40 b) as [Ha Hb] by (split; apply foldl_word; try done; by apply PolyMod_word).
  apply (f_equal (Z.lxor (foldl PolyMod (PolyMod a k) q))) in E. rewrite Z.lxor_nilpotent in E.
  rewrite foldl_diff in E by (try done; by apply PolyMod_word). symmetry in E. revert E.
  apply iter_pm40_nonzero.
  - by apply word40_lxor; apply PolyMod_word.
  - rewrite !PolyMod_shift, lxor_swap, <- pm40_lxor by done. unfold a, b.
    rewrite foldl_diff by (try done; by apply PolyMod_word).
    rewrite !PolyMod_shift, lxor_swap, Z.lxor_nilpotent, Z.lxor_0_l.
    set (e := Z.lxor v v'). set (f := Z.lxor k k').
    assert (sym5 e ∧ sym5 f) as [He Hf] by (split; [exact (sym5_lxor v v' Hv Hv')|exact (sym5_lxor k k' Hk Hk')]).
    assert (∀ n, (n <= 2)%nat → Nat.iter n pm40 e = Z.shiftl e (5 * Z.of_nat n)) as Hit.
    { induction n as [|n IH]; intros Hn; [by rewrite Z.shiftl_0_r|]. rewrite Nat.iter_succ, IH by lia.
      rewrite pm40_small, Z.shiftl_shiftl by (unfold sym5 in He; rewrite ?Z.shiftl_mul_pow2 by lia;
        destruct n as [|[|]]; simpl; lia). f_equal. lia. }
    rewrite Hit, pm40_small by (done || unfold sym5 in He; rewrite Z.shiftl_mul_pow2 by lia;
      destruct (length m) as [|[|[|]]]; simpl; lia).
    intros E. apply Z.lxor_eq in E. rewrite Z.shiftl_shiftl, Z.shiftl_mul_pow2 in E by lia.
    assert (2 ^ 5 <= 2 ^ (5 * Z.of_nat (length m) + 5)) by (apply Z.pow_le_mono_r; lia).
    assert (e = 0) as He0 by (unfold sym5 in *; nia). assert (f = 0) as Hf0 by (rewrite <- E, He0; lia).
    apply Z.lxor_eq in He0. apply Z.lxor_eq in Hf0. by subst.
Qed.

(** ** The symbols of two strings that differ in one character *)

Lemma charset_pos ch pos : find_char ch INPUT_CHARSET = Some pos →
  sym5 (Z.land (Z.of_nat pos) 31) ∧ 0 <= Z.shiftr (Z.of_nat pos) 5 <= 2.
Proof.
  intros H. apply find_char_lookup, lookup_lt_Some in H. change (length INPUT_CHARSET) with 95%nat in H.
  change 31 with (Z.ones 5). rewrite Z.land_ones, Z.shiftr_div_pow2 by lia. unfold sym5.
  pose proof (Z.mod_pos_bound (Z.of_nat pos) (2 ^ 5)). split; [lia|].
  split; [apply Z.div_pos; lia|]. apply Z.lt_succ_r, Z.div_lt_upper_bound; lia.
Qed.

Lemma charset_pos_inj a b pa pb :
  find_char a INPUT_CHARSET = Some pa → find_char b INPUT_CHARSET = Some pb →
  Z.land (Z.of_nat pa) 31 = Z.land (Z.of_nat pb) 31 → Z.shiftr (Z.of_nat pa) 5 = Z.shiftr (Z.of_nat pb) 5 → a = b.
Proof.
  intros Ha Hb. change 31 with (Z.ones 5). rewrite !Z.land_ones, !Z.shiftr_div_pow2 by lia. intros E1 E2.
  assert (pa = pb) as ->.
  { apply Nat2Z.inj. rewrite (Z.div_mod (Z.of_nat pa) (2 ^ 5)), (Z.div_mod (Z.of_nat pb) (2 ^ 5)) by lia. lia. }
  apply find_char_lookup in Ha. apply find_char_lookup in Hb. congruence.
Qed.

Lemma desc_symbols_sym desc cls n l : 0 <= n <= 2 → 0 <= cls < 3 ^ n →
  desc_symbols desc cls n = Some l → Forall sym5 l.
Proof.
  revert cls n l. induction desc as [|ch desc IH]; intros cls n l Hn Hc H; cbn [desc_symbols] in H.
  - injection H as <-. assert (cls < 3 ^ 2) by (pose proof (Z.pow_le_mono_r 3 n 2); lia).
    destruct (0 <? n); repeat constructor; unfold sym5; lia.
  - destruct (find_char ch INPUT_CHARSET) as [pos|] eqn:E; [|done]. apply charset_pos in E as [Hv Hg].
    assert (0 <= cls * 3 + Z.shiftr (Z.of_nat pos) 5 < 3 ^ (n + 1)) as Hc'.
    { rewrite Z.pow_add_r, Z.pow_1_r by lia. lia. }
    destruct (Z.eqb_spec (n + 1) 3).
    + destruct (desc_symbols desc 0 0) as [r|] eqn:Er; [|done]. injection H as <-.
      assert (n = 2) as -> by lia. constructor; [exact Hv|constructor; [unfold sym5; lia|]].
      apply (IH 0 0 r); [lia|lia|exact Er].
    + destruct (desc_symbols desc _ (n + 1)) as [r|] eqn:Er; [|done]. injection H as <-.
      constructor; [exact Hv|]. eapply (IH _ (n + 1)); [lia|exact Hc'|exact Er].
Qed.

(** Which characters are allowed does not depend on the group collected so far. *)
Lemma desc_symbols_none s x y n : desc_symbols s x n = None → desc_symbols s y n = None.
Proof.
  revert x y n. induction s as [|ch s IH]; intros x y n H; [done|]. cbn [desc_symbols] in *.
  destruct (find_char ch INPUT_CHARSET) as [pos|]; [|done]. destruct (n + 1 =? 3).
  - by destruct (desc_symbols s 0 0).
  - destruct (desc_symbols s (x * 3 + _) (n + 1)) eqn:E; [done|]. by rewrite (IH _ _ _ E).
Qed.

Lemma desc_symbols_total s cls n : Forall (λ x, x ∈ INPUT_CHARSET) s → desc_symbols s cls n ≠ None.
Proof.
  intros Hs. revert cls n. induction Hs as [|ch s Hc _ IH]; intros cls n; [done|]. cbn [desc_symbols].
  destruct (find_char ch INPUT_CHARSET) as [pos|] eqn:E; [|by apply find_char_None in E].
  destruct (n + 1 =? 3).
  - specialize (IH 0 0). by destruct (desc_symbols s 0 0).
  - specialize (IH (cls * 3 + Z.shiftr (Z.of_nat pos) 5) (n + 1)). by destruct (desc_symbols s _ (n + 1)).
Qed.

(** An open group is closed by a symbol that determines it, at most two places on. *)
Lemma open_group s n : n = 1 ∨ n = 2 → desc_symbols s 0 n ≠ None →
  ∃ m q f, (∀ x, desc_symbols s x n = Some (m ++ f x :: q)) ∧ Z.of_nat (length m) <= 3 - n ∧
    (∀ x y, f x = f y → x = y).
Proof.
  assert (∀ s, desc_symbols s 0 2 ≠ None → ∃ m q f, (∀ x, desc_symbols s x 2 = Some (m ++ f x :: q)) ∧
    Z.of_nat (length m) <= 1 ∧ (∀ x y : Z, f x = f y → x = y)) as H2.
  { intros [|ch r] Hs; [exists [], [], id; split; [done|split; [simpl; lia|done]]|]. cbn [desc_symbols] in *.
    destruct (find_char ch INPUT_CHARSET) as [pos|]; [|done]. change (2 + 1 =? 3) with true in *. cbv iota in *.
    destruct (desc_symbols r 0 0) as [q|]; [|done].
    exists [Z.land (Z.of_nat pos) 31], q, (λ x, x * 3 + Z.shiftr (Z.of_nat pos) 5). split; [done|].
    split; [simpl; lia|]. intros x y E. lia. }
  intros [-> | ->]; [|apply H2]. destruct s as [|ch r]; intros Hs.
  - exists [], [], id. split; [done|]. split; [simpl; lia|done].
  - cbn [desc_symbols] in *. destruct (find_char ch INPUT_CHARSET) as [pos|]; [|done].
    change (1 + 1 =? 3) with false in *. change (1 + 1) with 2 in *. cbv iota in *.
    destruct (H2 r) as (m & q & f & Hf & Hm & Hinj).
    { intros E. apply Hs. by rewrite (desc_symbols_none r 0 _ 2 E). }
    exists (Z.land (Z.of_nat pos) 31 :: m), q, (λ x, f (x * 3 + Z.shiftr (Z.of_nat pos) 5)).
    split; [intros x; by rewrite Hf|]. split; [simpl; lia|]. intros x y E%Hinj. lia.
Qed.

Lemma symbols_subst s1 s2 a b cls n l l' : a ≠ b → n = 0 ∨ n = 1 ∨ n = 2 →
  desc_symbols (s1 ++ a :: s2) cls n = Some l → desc_symbols (s1 ++ b :: s2) cls n = Some l' →
  ∃ p v v' m k k' q, l = p ++ v :: m ++ k :: q ∧ l' = p ++ v' :: m ++ k' :: q ∧
    (length m <= 2)%nat ∧ (v, k) ≠ (v', k').
Proof.
  intros Hab. revert cls n l l'. induction s1 as [|ch s1 IH]; intros cls n l l' Hn Hl Hl'; cbn [app desc_symbols] in Hl, Hl'.
  - destruct (find_char a INPUT_CHARSET) as [pa|] eqn:Ea; [|done].
    destruct (find_char b INPUT_CHARSET) as [pb|] eqn:Eb; [|done].
    pose proof (charset_pos_inj a b pa pb Ea Eb) as Hinj.
    set (ga := Z.shiftr (Z.of_nat pa) 5) in *. set (gb := Z.shiftr (Z.of_nat pb) 5) in *.
    set (va := Z.land (Z.of_nat pa) 31) in *. set (vb := Z.land (Z.of_nat pb) 31) in *.
    destruct (Z.eqb_spec (n + 1) 3).
    + destruct (desc_symbols s2 0 0) as [q|]; [|done]. injection Hl as <-. injection Hl' as <-.
      exists [], va, vb, [], (cls * 3 + ga), (cls * 3 + gb), q. split_and!; try done; [simpl; lia|].
      intros [= E1 E2]. apply Hab, Hinj; [done|lia].
    + destruct (open_group s2 (n + 1) ltac:(lia)) as (m & q & f & Hf & Hm & Hfi).
      { intros E. by rewrite (desc_symbols_none s2 0 _ _ E) in Hl. }
      rewrite Hf in Hl, Hl'. injection Hl as <-. injection Hl' as <-.
      exists [], va, vb, m, (f (cls * 3 + ga)), (f (cls * 3 + gb)), q. split_and!; try done; [lia|].
      intros [= E1 E2%Hfi]. apply Hab, Hinj; [done|lia].
  - destruct (find_char ch INPUT_CHARSET) as [pos|]; [|done]. destruct (Z.eqb_spec (n + 1) 3).
    + destruct (desc_symbols (s1 ++ a :: s2) 0 0) as [r|] eqn:Er; [|done].
      destruct (desc_symbols (s1 ++ b :: s2) 0 0) as [r'|] eqn:Er'; [|done].
      injection Hl as <-; injection Hl' as <-.
      destruct (IH 0 0 r r' ltac:(lia) Er Er') as (p & v & v' & m & k & k' & q & -> & -> & Hm).
      exists (Z.land (Z.of_nat pos) 31 :: cls * 3 + Z.shiftr (Z.of_nat pos) 5 :: p), v, v', m, k, k', q. done.
    + destruct (desc_symbols (s1 ++ a :: s2) _ (n + 1)) as [r|] eqn:Er; [|done].
      destruct (desc_symbols (s1 ++ b :: s2) _ (n + 1)) as [r'|] eqn:Er'; [|done].
      injection Hl as <-. injection Hl' as <-.
      destruct (IH _ (n + 1) r r' ltac:(lia) Er Er') as (p & v & v' & m & k & k' & q & -> & -> & Hm).
      exists (Z.land (Z.of_nat pos) 31 :: p), v, v', m, k, k', q. done.
Qed.

(** ** The eight characters determine the word *)

Lemma checksum_char_inj a b : sym5 a → sym5 b →
  default Byte.x00 (CHECKSUM_CHARSET !! Z.to_nat a) = default Byte.x00 (CHECKSUM_CHARSET !! Z.to_nat b) → a = b.
Proof.
  intros Ha Hb E. assert (NoDup CHECKSUM_CHARSET) as Hd by (apply (bool_decide_unpack _); vm_compute; exact I).
  assert (∀ x, sym5 x → ∃ c, CHECKSUM_CHARSET !! Z.to_nat x = Some c) as Hs.
  { intros x Hx. apply lookup_lt_is_Some. change (length CHECKSUM_CHARSET) with 32%nat. unfold sym5 in Hx. lia. }
  destruct (Hs a Ha) as [ca Ea], (Hs b Hb) as [cb Eb]. rewrite Ea, Eb in E. cbn in E. subst cb.
  pose proof (NoDup_lookup _ _ _ _ Hd Ea Eb). unfold sym5 in *. lia.
Qed.

Lemma checksum_chars_inj a b : word40 a → word40 b →
  map (checksum_char a) [0; 1; 2; 3; 4; 5; 6; 7] = map (checksum_char b) [0; 1; 2; 3; 4; 5; 6; 7] → a = b.
Proof.
  intros Ha Hb E. assert (∀ j, In j [0; 1; 2; 3; 4; 5; 6; 7] → checksum_char a j = checksum_char b j) as Hj.
  { exact (ext_in_map E). }
  assert (∀ i x, word40 x → 40 <= i → Z.testbit x i = false) as Hhigh.
  { intros i x Hx Hi. rewrite Z.testbit_eqb by lia. unfold word40 in Hx.
    rewrite Z.div_small by (pose proof (Z.pow_le_mono_r 2 40 i); lia). done. }
  apply Z.bits_inj'. intros i Hi. destruct (Z.le_gt_cases 40 i); [by rewrite !Hhigh|].
  assert (In (7 - i / 5) [0; 1; 2; 3; 4; 5; 6; 7]) as Hin.
  { assert (0 <= i / 5 <= 7) as Hr by (pose proof (Z.div_le_lower_bound i 5 0); pose proof (Z.div_lt_upper_bound i 5 8); lia).
    cbn [In]. lia. }
  specialize (Hj _ Hin). unfold checksum_char in Hj.
  assert (∀ x, sym5 (Z.land x 31)) as H31.
  { intros x. change 31 with (Z.ones 5). rewrite Z.land_ones by lia. pose proof (Z.mod_pos_bound x (2 ^ 5)). unfold sym5. lia. }
  apply checksum_char_inj in Hj; [|apply H31..]. apply (f_equal (λ x, Z.testbit x (i mod 5))) in Hj.
  cbv beta in Hj. pose proof (Z.mod_pos_bound i 5 ltac:(lia)). change 31 with (Z.ones 5) in Hj.
  rewrite !Z.land_spec, !Z.shiftr_spec, Z.ones_spec_low, !andb_true_r in Hj by lia.
  replace (i mod 5 + 5 * (7 - (7 - i / 5))) with i in Hj by (pose proof (Z.div_mod i 5); lia). exact Hj.
Qed.

Lemma checksum_word_word l : Forall sym5 l → word40 (checksum_word l).
Proof.
  intros Hl. apply word40_lxor; [|done]. apply foldl_word; [|done]. apply Forall_app. split; [done|]. by repeat constructor.
Qed.

(** A descriptor with one character replaced has another checksum. *)
Lemma checksum_differs s1 s2 a b : a ≠ b → Forall (λ x, x ∈ INPUT_CHARSET) (s1 ++ a :: s2) →
  DescriptorChecksum (s1 ++ a :: s2) ≠ DescriptorChecksum (s1 ++ b :: s2).
Proof.
  intros Hab Hs. assert (desc_symbols (s1 ++ a :: s2) 0 0 ≠ None) as Ha by by apply desc_symbols_total.
  rewrite !checksum_symbols. destruct (desc_symbols (s1 ++ a :: s2) 0 0) as [l|] eqn:El; [|done].
  destruct (desc_symbols (s1 ++ b :: s2) 0 0) as [l'|] eqn:El'; [|done].
  pose proof (desc_symbols_sym _ 0 0 _ ltac:(lia) ltac:(lia) El) as Hl.
  pose proof (desc_symbols_sym _ 0 0 _ ltac:(lia) ltac:(lia) El') as Hl'.
  destruct (symbols_subst s1 s2 a b 0 0 l l' Hab ltac:(lia) El El') as (p & v & v' & m & k & k' & q & -> & -> & Hm & Hne).
  pose proof Hl as Hw. pose proof Hl' as Hw'.
  apply Forall_app in Hl as [Hp Hl]. apply Forall_app in Hl' as [_ Hl'].
  apply Forall_cons_1 in Hl as [Hv Hl]. apply Forall_app in Hl as [Hms Hl]. apply Forall_cons_1 in Hl as [Hk Hq].
  apply Forall_cons_1 in Hl' as [Hv' Hl']. apply Forall_app in Hl' as [_ Hl']. apply Forall_cons_1 in Hl' as [Hk' _].
  assert (Forall sym5 (replicate 8 0)) as Hz by (repeat constructor; unfold sym5; lia).
  assert (word40 1) as H1 by done.
  intros E. apply checksum_chars_inj in E.
  - unfold checksum_word in E. apply (f_equal (λ x, Z.lxor x 1)) in E. rewrite !Z.lxor_assoc, !Z.lxor_nilpotent, !Z.lxor_0_r in E.
    rewrite <- !app_assoc, !(foldl_app _ p) in E. cbn [app] in E. rewrite <- !app_assoc in E. cbn [app] in E. revert E.
    apply near_symbols_differ; [by apply foldl_word| |done|done].
    repeat (constructor; [done|]). apply Forall_app. split; [done|]. by apply Forall_app.
  - by apply checksum_word_word.
  - by apply checksum_word_word.
Qed.

Lemma desc_checksum_length desc : Forall (λ x, x ∈ INPUT_CHARSET) desc → length (DescriptorChecksum desc) = 8%nat.
Proof. intros Hs. rewrite checksum_symbols. destruct (desc_symbols desc 0 0) eqn:E; [done|]. by apply desc_symbols_total in E. Qed.
