(* ===== verification/PubkeyProvider.v ===== *)
(** * [hwilib/descriptor.py]: key expressions

    A [PubkeyProvider] is the key expression of a descriptor: an optional
    origin, a hexadecimal key or an extended key, and the derivation steps that
    follow it, of which one may be a multipath step and the last may be a
    wildcard ([ranged]). *)

From S2P Require Import Prelude Bytes Safe PyStd PyStr Common Base58 KeyPath Key DescChecksum.

Record PubkeyProvider := {
  pp_origin : option KeyOriginInfo;
  pp_pubkey : pystr;
  pp_deriv_path : option (list (list Z));
  pp_expr_index : Z;
  pp_ranged : bool;
  pp_multipath_len : Z;
  pp_extkey : option ExtendedKey;
}.

#[export] Instance PubkeyProvider_eq_dec : EqDecision PubkeyProvider.
Proof. solve_decision. Defined.

(** [max([len(p) for p in deriv_path])], and 1 for no path or an empty one. *)
Definition multipath_len_of (deriv_path : option (list (list Z))) : Z :=
  match deriv_path with
  | Some (p :: ps) => foldl Z.max (len p) (map len ps)
  | _ => 1
  end.

Definition PubkeyProvider_init (origin : option KeyOriginInfo) (pubkey : pystr)
    (deriv_path : option (list (list Z))) (expr_index : Z) (ranged : bool) : result PubkeyProvider :=
  extkey ←
    match unhexlify pubkey with
    | Ok _ => Ok None
    | Err _ => k ← ExtendedKey_deserialize pubkey; Ok (Some k)
    end;
  Ok {| pp_origin := origin; pp_pubkey := pubkey; pp_deriv_path := deriv_path; pp_expr_index := expr_index;
        pp_ranged := ranged; pp_multipath_len := multipath_len_of deriv_path; pp_extkey := extkey |}.

(** The origin in brackets, and what follows it. *)
Definition parse_origin (s : pystr) : result (option KeyOriginInfo * pystr) :=
  c ← nth_py s 0;
  if bool_decide (c = chr 91) then
    end_ ← of_option ValueError (find_char (chr 93) s);
    origin ← KeyOriginInfo_from_string (slice 1 end_ s);
    Ok (Some origin, drop (end_ + 1) s)
  else Ok (None, s).

Definition PubkeyProvider_parse (s : pystr) (key_expr_index : Z) : result PubkeyProvider :=
  '(origin, s) ← parse_origin s;
  match find_char (chr 47) s with
  | None => PubkeyProvider_init origin s None key_expr_index false
  | Some slash_idx =>
      let pubkey := take slash_idx s in
      let path_str := drop (slash_idx + 1) s in
      let ranged := endswith_char (chr 42) path_str in
      let path_str := if ranged then slice_to_neg 2 path_str else path_str in
      deriv_path ← (if 0 <? len path_str then p ← parse_multipath path_str; Ok (Some p) else Ok None);
      PubkeyProvider_init origin pubkey deriv_path key_expr_index ranged
  end.

(** [if self.deriv_path: s += multipath_to_string(...)], which is false for an empty list too. *)
Definition pp_path_string (hardened_char : pystr) (p : PubkeyProvider) : pystr :=
  match pp_deriv_path p with
  | Some (mp :: r) => multipath_to_string (mp :: r) hardened_char
  | _ => []
  end ++ (if pp_ranged p then $"/*" else []).

Definition pp_origin_string (hardened_char : pystr) (p : PubkeyProvider) : pystr :=
  match pp_origin p with
  | Some o => $"[" ++ KeyOriginInfo_to_string o hardened_char ++ $"]"
  | None => []
  end.

Definition PubkeyProvider_to_string (hardened_char : pystr) (p : PubkeyProvider) : pystr :=
  pp_origin_string hardened_char p ++ pp_pubkey p ++ pp_path_string hardened_char p.

Definition get_deriv_path (pos multipath_pos : Z) (p : PubkeyProvider) : result (list Z) :=
  path ← mapR (λ s : list Z, if len s =? 1 then index_py s 0 else index_py s multipath_pos)
              (default [] (pp_deriv_path p));
  Ok (path ++ (if pp_ranged p then [pos] else [])).

Section derive.
Context `{Hashes} `{HmacSha512}.

Definition get_pubkey_bytes (pos multipath_pos : Z) (p : PubkeyProvider) : result bytes :=
  match pp_extkey p with
  | Some extkey =>
      match pp_deriv_path p with
      | Some _ =>
          path ← get_deriv_path pos multipath_pos p;
          child_key ← derive_pub_path path extkey;
          Ok (pubkey child_key)
      | None => Ok (pubkey extkey)
      end
  | None => unhexlify (pp_pubkey p)
  end.
End derive.

Definition has_deriv_path (p : PubkeyProvider) : bool :=
  match pp_deriv_path p with Some (_ :: _) => true | _ => false end.

Definition get_full_derivation_path (pos multipath_pos : Z) (p : PubkeyProvider) : result pystr :=
  let path := match pp_origin p with Some o => get_derivation_path o | None => $"m/" end in
  path ← (if has_deriv_path p
          then d ← get_deriv_path pos multipath_pos p; Ok (path ++ path_to_string d $"h")
          else Ok path);
  Ok (path ++ (if pp_ranged p then str_int pos else [])).

Definition get_full_derivation_int_list (pos multipath_pos : Z) (p : PubkeyProvider) : result (list Z) :=
  path ← match pp_origin p with Some o => get_full_int_list o | None => Ok [] end;
  path ← (if has_deriv_path p
          then d ← get_deriv_path pos multipath_pos p; Ok (path ++ d)
          else Ok path);
  Ok (path ++ (if pp_ranged p then [pos] else [])).

Definition get_bip388_placeholder (p : PubkeyProvider) : result pystr :=
  if negb (pp_ranged p) then Err InvalidPolicyError
  else if 2 <? pp_multipath_len p then Err InvalidPolicyError
  else Ok ($"@" ++ str_int (pp_expr_index p) ++ pp_path_string $"'" p).

Definition get_bip388_key_info (p : PubkeyProvider) : pystr :=
  pp_origin_string $"'" p ++ pp_pubkey p.

(** [__lt__]: by the key strings. *)
Definition PubkeyProvider_lt (p q : PubkeyProvider) : bool := negb (bytes_leb (pp_pubkey q) (pp_pubkey p)).

(** ** [sorted] of pairs of a public key and its provider, which is stable *)

Definition pair_lt (p q : bytes * PubkeyProvider) : bool :=
  negb (bytes_leb q.1 p.1) || bool_decide (p.1 = q.1) && PubkeyProvider_lt p.2 q.2.

Definition sorted_pairs (l : list (bytes * PubkeyProvider)) : list (bytes * PubkeyProvider) := sort_by pair_lt l.

(** What [Descriptor.derive] does to a key of the copy. *)
Definition derive_pubkey (pos multipath_index : Z) (p : PubkeyProvider) : result PubkeyProvider :=
  path ← get_deriv_path pos multipath_index p;
  Ok {| pp_origin := pp_origin p; pp_pubkey := pp_pubkey p;
        pp_deriv_path := match path with [] => None | _ => Some (map (λ step, [step]) path) end;
        pp_expr_index := pp_expr_index p; pp_ranged := false; pp_multipath_len := 1;
        pp_extkey := pp_extkey p |}.

(** * Lemmas *)

(** ** Characters *)

(** The characters that structure a descriptor. *)
Definition structure_char (x : byte) : bool := bool_decide (x ∈ $"(){},#").

(** Characters a key expression is made of. *)
Definition expr_char (x : byte) : bool := bool_decide (x ∈ INPUT_CHARSET) && negb (structure_char x).
Definition key_char (x : byte) : bool := expr_char x && negb (bool_decide (x ∈ $"/[]*")).

Definition all_chars (f : byte → bool) (s : pystr) : Prop := Forall (λ x, f x = true) s.

Lemma all_chars_app f a b : all_chars f (a ++ b) ↔ all_chars f a ∧ all_chars f b.
Proof. apply Forall_app. Qed.

Lemma all_chars_lit f s : forallb f s = true → all_chars f s.
Proof. intros H. apply Forall_forall. intros x Hx. rewrite forallb_forall in H. by apply H, list_elem_of_In. Qed.

Lemma all_chars_mono (f g : byte → bool) s : (∀ x, f x = true → g x = true) → all_chars f s → all_chars g s.
Proof. intros Hfg Hs. exact (Forall_impl _ _ _ Hs Hfg). Qed.

Lemma all_chars_not f s c : all_chars f s → f c = false → c ∉ s.
Proof. intros Hs Hc Hin. unfold all_chars in Hs. rewrite Forall_forall in Hs. rewrite Hs in Hc; done. Qed.

Lemma key_expr x : key_char x = true → expr_char x = true.
Proof. unfold key_char. by intros [? _]%andb_true_iff. Qed.

(** A string over which a pure check of all 256 bytes decides. *)
Lemma byte_impl (f g : byte → bool) :
  forallb (λ n, implb (f (chr (Z.of_nat n))) (g (chr (Z.of_nat n)))) (seq 0 256) = true → ∀ x, f x = true → g x = true.
Proof.
  intros H x Hx. rewrite forallb_forall in H. pose proof (ord_range x).
  specialize (H (Z.to_nat (ord x))). rewrite Z2Nat.id, chr_ord, Hx in H by lia. apply H, in_seq. lia.
Qed.

Lemma hexlify_chars b : all_chars key_char (hexlify b).
Proof.
  assert (∀ d, 0 <= d < 16 → key_char (hex_digit d) = true) as Hd.
  { intros d Hd. assert (forallb (λ n, key_char (hex_digit (Z.of_nat n))) (seq 0 16) = true) as Hf by (vm_compute; reflexivity).
    rewrite forallb_forall in Hf. specialize (Hf (Z.to_nat d)). rewrite Z2Nat.id in Hf by lia. apply Hf, in_seq. lia. }
  induction b as [|x b IH]; [constructor|]. pose proof (ord_range x). cbn [hexlify].
  constructor; [apply Hd; split; [apply Z.div_pos; lia|apply Z.div_lt_upper_bound; lia]|].
  constructor; [apply Hd, Z.mod_pos_bound; lia|exact IH].
Qed.

Lemma unhexlify_chars n s : (length s <= n)%nat → is_ok (unhexlify s) = true → all_chars key_char s.
Proof.
  revert s. induction n as [|n IH]; intros [|c1 [|c2 s]] Hn Hs; try done; try (by constructor); [simpl in Hn; lia|].
  - cbn [unhexlify] in Hs. destruct (hex_val c1) eqn:E1, (hex_val c2) eqn:E2; try done.
    assert (∀ c, (if hex_val c is Some _ then true else false) = true → key_char c = true) as Hc.
    { apply byte_impl. vm_compute. reflexivity. }
    constructor; [apply Hc; by rewrite E1|]. constructor; [apply Hc; by rewrite E2|].
    apply IH; [simpl in Hn; lia|]. by destruct (unhexlify s).
Qed.

Lemma b58_chars s n : is_ok (decode_int s n) = true → all_chars key_char s.
Proof.
  revert n. induction s as [|c s IH]; intros n Hs; [constructor|]. cbn [decode_int] in Hs.
  destruct (find_char c b58_digits) as [d|] eqn:E; [|done].
  cbn [of_option] in Hs. rewrite bind_Ok in Hs. constructor; [|by eapply IH].
  clear Hs. revert c E. assert (∀ c, (if find_char c b58_digits is Some _ then true else false) = true → key_char c = true) as Hc.
  { apply byte_impl. vm_compute. reflexivity. }
  intros c E. apply Hc. by rewrite E.
Qed.

Lemma init_pubkey_chars o pk dp i r p : PubkeyProvider_init o pk dp i r = Ok p → all_chars key_char pk.
Proof.
  unfold PubkeyProvider_init. intros H. destruct (unhexlify pk) as [b|e] eqn:Eu.
  - eapply unhexlify_chars; [reflexivity|]. by rewrite Eu.
  - apply bind_ok in H as (x & Hx & _). apply bind_ok in Hx as (k & Hk & _). unfold ExtendedKey_deserialize in Hk.
    apply bind_ok in Hk as (d & Hd & _). destruct pk as [|c pk]; [constructor|]. unfold Base58.decode in Hd.
    apply bind_ok in Hd as (n & Hn & _). eapply b58_chars. by rewrite Hn.
Qed.

(** The characters of a printed path. *)
Definition path_char (x : byte) : bool := expr_char x && negb (bool_decide (x ∈ $"[]*")).

Lemma path_expr x : path_char x = true → expr_char x = true.
Proof. unfold path_char. by intros [? _]%andb_true_iff. Qed.

Lemma index_path_chars hc i : marker hc → u32 i → all_chars path_char (index_to_str hc i).
Proof.
  intros Hm Hi. eapply Forall_impl; [by apply index_to_str_chars|]. intros x [Hx|[->| ->]]; [|done..].
  revert x Hx. apply byte_impl. vm_compute. reflexivity.
Qed.

Lemma join_chars f c l : f c = true → Forall (all_chars f) l → all_chars f (join_char c l).
Proof.
  intros Hc. induction 1 as [|x l Hx Hl IH]; [constructor|]. cbn [join_char]. destruct l as [|y l]; [done|].
  apply all_chars_app. split; [done|]. by constructor.
Qed.

Lemma step_path_chars hc mp : marker hc → Forall u32 mp → all_chars path_char (step_str hc mp).
Proof.
  intros Hm Hu. assert (Forall (all_chars path_char) (map (index_to_str hc) mp)) as Hl.
  { apply Forall_map. eapply Forall_impl; [exact Hu|]. intros i. by apply index_path_chars. }
  pose proof (join_chars path_char (chr 59) _ eq_refl Hl) as Hj.
  destruct mp as [|i [|j r]]; cbn [step_str].
  - by repeat constructor.
  - apply Forall_cons_1 in Hu as [Hi _]. by apply index_path_chars.
  - constructor; [done|]. apply all_chars_app. split; [exact Hj|]. by repeat constructor.
Qed.

Lemma multipath_chars hc mp seen : marker hc → multipath_wf seen mp → all_chars path_char (multipath_to_string mp hc).
Proof.
  intros Hm. unfold multipath_to_string. rewrite path_to_string_steps. revert seen.
  induction mp as [|s mp IH]; intros seen Hw; [constructor|]. destruct Hw as ([_ Hu] & _ & Hw). cbn [map concat].
  constructor; [done|]. apply all_chars_app. split; [by apply step_path_chars|by eapply IH].
Qed.

Lemma origin_chars hc o : marker hc → origin_wf o → all_chars path_char (KeyOriginInfo_to_string o hc).
Proof.
  intros Hm [_ Hp]. unfold KeyOriginInfo_to_string, KeyOriginInfo_path_string, path_to_string. apply all_chars_app. split.
  - eapply all_chars_mono; [|apply hexlify_chars]. apply byte_impl. vm_compute. reflexivity.
  - apply (multipath_chars hc (map (λ i, [i]) (path o)) false Hm). by apply singletons_wf.
Qed.

(** ** Key expressions are read back *)

Definition deriv_wf (dp : option (list (list Z))) : Prop :=
  match dp with None => True | Some mp => mp ≠ [] ∧ multipath_wf false mp end.

(** A key expression as [parse] makes them: the extended key and the multipath
    length belong to the strings, indices have 32 bits. *)
Definition pp_wf (p : PubkeyProvider) : Prop :=
  PubkeyProvider_init (pp_origin p) (pp_pubkey p) (pp_deriv_path p) (pp_expr_index p) (pp_ranged p) = Ok p ∧
  match pp_origin p with Some o => origin_wf o | None => pp_pubkey p ≠ [] end ∧ deriv_wf (pp_deriv_path p).

Lemma pp_string_chars hc p : marker hc → pp_wf p → all_chars expr_char (PubkeyProvider_to_string hc p).
Proof.
  intros Hm (Hi & Ho & Hd). apply init_pubkey_chars in Hi. unfold PubkeyProvider_to_string, pp_origin_string, pp_path_string.
  apply all_chars_app. split; [|apply all_chars_app; split; [|apply all_chars_app; split]].
  - destruct (pp_origin p) as [o|]; [|constructor]. constructor; [done|]. apply all_chars_app. split; [|by repeat constructor].
    eapply all_chars_mono; [apply path_expr|]. by apply origin_chars.
  - eapply all_chars_mono; [apply key_expr|done].
  - destruct (pp_deriv_path p) as [[|mp r]|]; [constructor| |constructor].
    eapply all_chars_mono; [apply path_expr|]. by apply (multipath_chars hc _ false Hm), Hd.
  - destruct (pp_ranged p); [by repeat constructor|constructor].
Qed.

Lemma parse_origin_string hc p rest : marker hc → pp_wf p →
  parse_origin (pp_origin_string hc p ++ pp_pubkey p ++ rest) = Ok (pp_origin p, pp_pubkey p ++ rest).
Proof.
  intros Hm (Hi & Ho & _). apply init_pubkey_chars in Hi. unfold parse_origin, pp_origin_string.
  destruct (pp_origin p) as [o|].
  - change ($"[" ++ KeyOriginInfo_to_string o hc ++ $"]") with (chr 91 :: (KeyOriginInfo_to_string o hc ++ $"]")).
    cbn [app nth_py]. change (nth_py (?c :: ?r) 0) with (Ok c). rewrite bind_Ok, bool_decide_eq_true_2 by done.
    pose proof (origin_chars hc o Hm Ho) as Hc. set (s := KeyOriginInfo_to_string o hc) in *.
    replace (chr 91 :: (s ++ $"]") ++ pp_pubkey p ++ rest) with ((chr 91 :: s) ++ chr 93 :: (pp_pubkey p ++ rest))
      by (cbn [app]; by rewrite <- app_assoc).
    rewrite find_char_app.
    + cbn [of_option]. rewrite bind_Ok. change (length (chr 91 :: s)) with (S (length s)).
      change ((chr 91 :: s) ++ ?r) with ([chr 91] ++ s ++ r).
      rewrite (slice_app_exact [chr 91] s _ 1 (S (length s))) by (simpl; lia).
      destruct o as [fp pth]. destruct Ho. unfold s. rewrite origin_from_to_string, bind_Ok by done.
      fold s. change ([chr 91] ++ s ++ chr 93 :: ?r) with ((chr 91 :: s) ++ [chr 93] ++ r). rewrite app_assoc.
      by rewrite drop_app_exact by (rewrite length_app; simpl; lia).
    + apply not_elem_of_cons. split; [done|]. by eapply all_chars_not.
  - destruct (pp_pubkey p) as [|c pk]; [done|]. apply Forall_cons_1 in Hi as [Hc _]. cbn [app nth_py lookup].
    change (nth_py (c :: pk ++ rest) 0) with (Ok c). rewrite bind_Ok.
    rewrite bool_decide_eq_false_2; [done|]. intros ->. by vm_compute in Hc.
Qed.

Lemma parse_to_string hc p : marker hc → pp_wf p →
  PubkeyProvider_parse (PubkeyProvider_to_string hc p) (pp_expr_index p) = Ok p.
Proof.
  intros Hm Hw. unfold PubkeyProvider_parse, PubkeyProvider_to_string. rewrite (parse_origin_string hc p _ Hm Hw), bind_Ok.
  destruct Hw as (Hi & _ & Hd). pose proof (init_pubkey_chars _ _ _ _ _ _ Hi) as Hk.
  assert (chr 47 ∉ pp_pubkey p) as Hns by (by eapply all_chars_not). unfold pp_path_string.
  destruct (pp_deriv_path p) as [[|m r]|] eqn:Ed; [by destruct Hd| |].
  - destruct Hd as [_ Hd]. pose proof (multipath_chars hc _ false Hm Hd) as Hc.
    assert (parse_multipath (drop 1 (multipath_to_string (m :: r) hc)) = Ok (m :: r)) as Hp.
    { unfold parse_multipath, multipath_to_string. by apply parse_rel_path. }
    assert (∃ x s, drop 1 (multipath_to_string (m :: r) hc) = x :: s) as (x & s & Es).
    { unfold multipath_to_string. rewrite path_to_string_steps. destruct Hd as ([Hne Hu] & _). cbn [map concat app drop].
      destruct m as [|i [|j q]]; [done| |by eexists _, _]. apply Forall_cons_1 in Hu as [Hu _].
      destruct (index_to_str_nonempty hc i Hu) as (y & z & Ey & _). cbn [step_str]. rewrite Ey. by eexists _, _. }
    assert (multipath_to_string (m :: r) hc = chr 47 :: x :: s) as Em.
    { rewrite <- Es. unfold multipath_to_string. rewrite path_to_string_steps. cbn [map concat app]. change (drop 1 (?c :: ?l)) with (drop 0 l). by rewrite drop_0. }
    rewrite Em in *. change (drop 1 (chr 47 :: ?l)) with (drop 0 l) in Hp. rewrite drop_0 in Hp. cbn [app]. rewrite find_char_app by done.
    rewrite take_app_exact by done. rewrite (cons_middle (chr 47) (pp_pubkey p)), app_assoc.
    rewrite (drop_app_exact (pp_pubkey p ++ [chr 47])) by (rewrite length_app; simpl; lia).
    apply Forall_cons_1 in Hc as [_ Hc]. change (Forall _ ?l) with (all_chars path_char l) in Hc. destruct (pp_ranged p) eqn:Er.
    + change (x :: s ++ $"/*") with ((x :: s) ++ [chr 47] ++ [chr 42]). rewrite app_assoc, endswith_char_app, bool_decide_eq_true_2 by done.
      rewrite <- app_assoc. rewrite slice_to_neg_exact by done. rewrite len_cons. pose proof (len_nonneg s).
      rewrite (proj2 (Z.ltb_lt 0 _)) by lia. rewrite Hp, !bind_Ok. exact Hi.
    + rewrite app_nil_r. assert (endswith_char (chr 42) (x :: s) = false) as ->.
      { unfold endswith_char. destruct (last (x :: s)) as [y|] eqn:El; [|done]. apply bool_decide_eq_false_2. intros ->.
        apply last_Some_elem_of in El. by eapply all_chars_not in El. }
      rewrite len_cons. pose proof (len_nonneg s). rewrite (proj2 (Z.ltb_lt 0 _)) by lia.
      rewrite Hp, !bind_Ok. exact Hi.
  - destruct (pp_ranged p) eqn:Er.
    + change ([] ++ $"/*") with ([chr 47; chr 42]). rewrite find_char_app, take_app_exact by done.
      change [chr 47; chr 42] with ([chr 47] ++ [chr 42]). rewrite app_assoc.
      rewrite (drop_app_exact (pp_pubkey p ++ [chr 47])) by (rewrite length_app; simpl; lia).
      change (endswith_char (chr 42) [chr 42]) with true. cbv iota. change (slice_to_neg 2 [chr 42]) with (@nil byte).
      change (0 <? len []) with false. cbv iota. rewrite bind_Ok. exact Hi.
    + rewrite app_nil_r. rewrite (proj2 (find_char_None _ _) Hns). exact Hi.
Qed.

(** ** Deriving *)

Lemma index_py_0 {A} (x : A) : index_py [x] 0 = Ok x.
Proof. reflexivity. Qed.

Lemma singleton_steps i path : mapR (λ s : list Z, if len s =? 1 then index_py s 0 else index_py s i) (map (λ step, [step]) path) = Ok path.
Proof. induction path as [|x path IH]; [done|]. cbn [map mapR]. change (len [x] =? 1) with true. cbv iota. by rewrite index_py_0, bind_Ok, IH. Qed.

(** A derived key has one path left, whatever position is asked for. *)
Lemma derive_pubkey_path pos i p q pos' i' : derive_pubkey pos i p = Ok q →
  get_deriv_path pos' i' q = get_deriv_path pos i p ∧ pp_ranged q = false.
Proof.
  unfold derive_pubkey. intros H. apply bind_ok in H as (path & Hp & H). injection H as <-. split; [|done].
  rewrite Hp. unfold get_deriv_path. cbn [pp_deriv_path pp_ranged].
  destruct path as [|x path]; [done|]. cbn [default id]. by rewrite singleton_steps, bind_Ok, app_nil_r.
Qed.

(** With derivation steps, or without a wildcard, it is the key the original gives at that position. *)
Lemma derive_pubkey_bytes `{Hashes} `{HmacSha512} pos i p q pos' i' : derive_pubkey pos i p = Ok q →
  is_Some (pp_deriv_path p) ∨ pp_ranged p = false →
  get_pubkey_bytes pos' i' q = get_pubkey_bytes pos i p.
Proof.
  intros Hd Hp. pose proof (derive_pubkey_path pos i p q pos' i' Hd) as [Hpath _].
  unfold derive_pubkey in Hd. apply bind_ok in Hd as (path & Ep & Hd). unfold get_pubkey_bytes. rewrite Hpath, Ep.
  injection Hd as <-. cbn [pp_extkey pp_deriv_path pp_pubkey]. destruct (pp_extkey p) as [k|]; [|done].
  destruct (pp_deriv_path p) as [dp|] eqn:E.
  - destruct path as [|x path]; [|done]. by rewrite bind_Ok.
  - destruct Hp as [[? ?]|Hr]; [done|]. unfold get_deriv_path in Ep. rewrite E, Hr in Ep. by injection Ep as <-.
Qed.

(** The wildcard is applied twice in the full derivation path of a key with derivation steps. *)
Lemma full_int_list_repeats_index pos i p o d : pp_origin p = Some o → has_deriv_path p = true → pp_ranged p = true →
  get_full_int_list o = Ok d → ∀ path, get_deriv_path pos i p = Ok path →
  get_full_derivation_int_list pos i p = Ok (d ++ path ++ [pos]) ∧ last path = Some pos.
Proof.
  intros Ho Hd Hr Ed path Ep. unfold get_full_derivation_int_list. rewrite Ho, Ed, Hd, Hr, Ep, !bind_Ok, <- app_assoc.
  split; [done|]. unfold get_deriv_path in Ep. rewrite Hr in Ep. apply bind_ok in Ep as (l & _ & Ep). injection Ep as <-. apply last_snoc.
Qed.

(** ** The path of the key of an expression

    At index 0, and at the first of several paths. *)
Definition own_path (p : PubkeyProvider) : list Z :=
  match pp_origin p with Some o => path o | None => [] end ++ map (hd 0) (default [] (pp_deriv_path p)) ++ (if pp_ranged p then [0] else []).

Lemma deriv_path_first p l : get_deriv_path 0 0 p = Ok l → l = map (hd 0) (default [] (pp_deriv_path p)) ++ (if pp_ranged p then [0] else []).
Proof.
  unfold get_deriv_path. intros (steps & Hs & [= <-])%bind_ok. f_equal. revert steps Hs.
  induction (default [] (pp_deriv_path p)) as [|s l' IH]; intros steps Hs; cbn [mapR] in Hs; [by injection Hs as <-|].
  apply bind_ok in Hs as (i & Hi & (js & Hjs & [= <-])%bind_ok). cbn [map]. f_equal; [|by apply IH].
  assert (index_py s 0 = Ok i) as H0 by (by destruct (len s =? 1)). unfold index_py in H0.
  destruct (0 <? - len s); [done|]. destruct s as [|x s]; [done|]. by injection H0.
Qed.

(** The printed path with a second 0 behind its last step. *)
Lemma parse_indexes_00 q : Forall u32 q → parse_indexes false (map (λ i, index_to_str $"h" i) q ++ [$"00"]) false = Ok (map (λ i, [i]) (q ++ [0])).
Proof.
  induction 1 as [|i q Hi Hq IH]; [reflexivity|]. cbn [map app parse_indexes].
  pose proof (parse_index_print $"h" [i] false false ltac:(by left)) as Hp. cbn [step_str] in Hp.
  rewrite Hp; [|split; [done|by constructor]|done|done]. rewrite bind_Ok. cbv iota beta. change (is_multi [i] || false) with false. by rewrite IH.
Qed.

Lemma parse_path_00 q : Forall u32 q → parse_path ($"m" ++ path_to_string (q ++ [0]) $"h" ++ $"0") = Ok (q ++ [0]).
Proof.
  intros Hq. assert ($"m" ++ path_to_string (q ++ [0]) $"h" ++ $"0" =
    $"m" ++ concat (map (λ x, chr 47 :: x) (map (λ i, index_to_str $"h" i) q ++ [$"00"]))) as ->.
  { unfold path_to_string. rewrite path_to_string_steps, map_map, map_app, concat_app, map_app, concat_app, map_map. f_equal.
    rewrite <- app_assoc. f_equal. }
  unfold parse_path. rewrite parse_path_nonempty by done. rewrite split_steps; [|intros H; by apply list_elem_of_singleton in H|].
  2:{ apply Forall_app. split; [|constructor; [apply (bool_decide_unpack _); vm_compute; exact I|constructor]].
      apply Forall_map. eapply Forall_impl; [exact Hq|]. intros i Hi. by apply index_chars_no; [left|..]. }
  cbv zeta. rewrite bool_decide_eq_true_2 by done. cbn [drop]. rewrite drop_0, parse_indexes_00 by done. rewrite bind_Ok.
  apply heads_of_singletons.
Qed.

(** The path that is shown to a device is that of the key, though the index of a key with derivation
    steps is printed twice.  (A wildcard right behind the key is printed behind the last step of the origin.) *)
Lemma full_path_own p o s : pp_origin p = Some o → (pp_ranged p = true → has_deriv_path p = true) → Forall u32 (own_path p) →
  get_full_derivation_path 0 0 p = Ok s → parse_path s = Ok (own_path p).
Proof.
  intros Ho Hr Hu Hs. unfold get_full_derivation_path in Hs. rewrite Ho in Hs. unfold own_path in *. rewrite Ho in *.
  assert (∀ l, Forall u32 l → parse_path ($"m" ++ path_to_string l $"h") = Ok l) as Hm.
  { intros l Hl. unfold parse_path, path_to_string. rewrite parse_m_path by (by left || by apply singletons_wf || (intros H; by apply singletons_not_multi in H)).
    apply heads_of_singletons. }
  assert (∀ a b, path_to_string (a ++ b) $"h" = path_to_string a $"h" ++ path_to_string b $"h") as Happ
    by (intros a b; unfold path_to_string, _path_to_string; by rewrite map_app, map_app, concat_app).
  unfold get_derivation_path, KeyOriginInfo_path_string in Hs. destruct (has_deriv_path p) eqn:Ed.
  - apply bind_ok in Hs as (s1 & (d & Hd & [= <-])%bind_ok & [= <-]). apply deriv_path_first in Hd as ->.
    destruct (pp_ranged p).
    + set (ms := map (hd 0) _) in *. rewrite app_assoc in Hu |- *. apply Forall_app in Hu as [Hu _].
      rewrite <- (parse_path_00 _ Hu). f_equal. rewrite !Happ, <- !app_assoc. done.
    + rewrite !app_nil_r in *. rewrite <- Happ. by apply Hm.
  - destruct (pp_ranged p); [by discriminate Hr|]. rewrite bind_Ok in Hs. injection Hs as <-. unfold has_deriv_path in Ed.
    destruct (pp_deriv_path p) as [[|? ?]|]; [|done|]; cbn [default id map app] in *; rewrite !app_nil_r in *; by apply Hm.
Qed.

(** The list of numbers is that path behind the fingerprint, with a second 0 at the end where
    the key has derivation steps and a wildcard. *)
Definition repeated_index (p : PubkeyProvider) : list Z := if pp_ranged p && has_deriv_path p then [0] else [].

Lemma full_int_list_own p l : get_full_derivation_int_list 0 0 p = Ok l →
  l = match pp_origin p with Some o => [le_int (fingerprint o)] | None => [] end ++ own_path p ++ repeated_index p.
Proof.
  unfold get_full_derivation_int_list, own_path, repeated_index. intros (d0 & Hd0 & Hl)%bind_ok.
  set (fp := match pp_origin p with Some o => [le_int (fingerprint o)] | None => [] end).
  set (po := match pp_origin p with Some o => path o | None => [] end). assert (d0 = fp ++ po) as ->.
  { subst fp po. destruct (pp_origin p) as [o|]; [|by injection Hd0 as <-]. unfold get_full_int_list, unpack_u in Hd0.
    destruct (_ =? _)%nat; [|done]. by injection Hd0 as <-. }
  destruct (has_deriv_path p) eqn:Ed.
  - apply bind_ok in Hl as (l1 & (d & Hd & [= <-])%bind_ok & [= <-]). apply deriv_path_first in Hd as ->. rewrite andb_true_r, <- !app_assoc. by destruct (pp_ranged p).
  - rewrite bind_Ok in Hl. injection Hl as <-. unfold has_deriv_path in Ed. rewrite andb_false_r, app_nil_r, <- app_assoc.
    by destruct (pp_deriv_path p) as [[|? ?]|].
Qed.

(** With such a wildcard the path is another one, or none: here [m/840] for the key [m/84] and its child 0. *)
Lemma bare_wildcard_path_shown p : pp_origin p = Some {| fingerprint := map chr [1; 2; 3; 4]; path := [84] |} → pp_deriv_path p = None → pp_ranged p = true →
  (s ← get_full_derivation_path 0 0 p; parse_path s) = Ok [840] ∧ own_path p = [84; 0].
Proof.
  intros Ho Hd Hr. unfold get_full_derivation_path, own_path, has_deriv_path. rewrite Ho, Hd, Hr. split; vm_compute; reflexivity.
Qed.

(** A bare wildcard is ignored: the key at every position is the extended key itself. *)
Lemma bare_wildcard_ignored `{Hashes} `{HmacSha512} pos i p k : pp_extkey p = Some k → pp_deriv_path p = None →
  get_pubkey_bytes pos i p = Ok (pubkey k).
Proof. intros Hk Hd. unfold get_pubkey_bytes. by rewrite Hk, Hd. Qed.
