(* ===== verification/Descriptor.v ===== *)
(** * [hwilib/descriptor.py]: output script descriptors

    The class hierarchy is the inductive type [Descriptor], one constructor per
    class that the parser makes.  A taproot descriptor stores its leaf scripts
    and their depths in separate lists, as the code does; [taptree] is the tree
    they stand for, and the parser and the printer are related to it.

    A key is an object of its own for every place it is parsed at, so changing
    the keys of a copied descriptor in place is mapping over them. *)

From S2P Require Import Prelude Bytes Safe PyStd PyStr Common Sha256 KeyPath Key DescChecksum PubkeyProvider.

Definition MAX_TAPROOT_NODES : Z := 128.

Inductive Descriptor :=
  | PKDescriptor (pubkey : PubkeyProvider)
  | PKHDescriptor (pubkey : PubkeyProvider)
  | WPKHDescriptor (pubkey : PubkeyProvider)
  | MultisigDescriptor (pubkeys : list PubkeyProvider) (thresh : Z) (is_sorted : bool)
  | SHDescriptor (subdescriptor : Descriptor)
  | WSHDescriptor (subdescriptor : Descriptor)
  | TRDescriptor (internal_key : PubkeyProvider) (subdescriptors : list Descriptor) (depths : list Z).

Definition desc_name (d : Descriptor) : pystr :=
  match d with
  | PKDescriptor _ => $"pk"
  | PKHDescriptor _ => $"pkh"
  | WPKHDescriptor _ => $"wpkh"
  | MultisigDescriptor _ _ is_sorted => if is_sorted then $"sortedmulti" else $"multi"
  | SHDescriptor _ => $"sh"
  | WSHDescriptor _ => $"wsh"
  | TRDescriptor _ _ _ => $"tr"
  end.

Definition desc_pubkeys (d : Descriptor) : list PubkeyProvider :=
  match d with
  | PKDescriptor k | PKHDescriptor k | WPKHDescriptor k | TRDescriptor k _ _ => [k]
  | MultisigDescriptor ks _ _ => ks
  | SHDescriptor _ | WSHDescriptor _ => []
  end.

Fixpoint get_address_type (d : Descriptor) : option AddressType :=
  match d with
  | PKDescriptor _ | MultisigDescriptor _ _ _ => None
  | PKHDescriptor _ => Some LEGACY
  | WPKHDescriptor _ | WSHDescriptor _ => Some WIT
  | SHDescriptor sub => if decide (get_address_type sub = Some WIT) then Some SH_WIT else Some LEGACY
  | TRDescriptor _ _ _ => Some TAP
  end.

Fixpoint get_pubkey_providers (d : Descriptor) : list PubkeyProvider :=
  match d with
  | SHDescriptor sub | WSHDescriptor sub => get_pubkey_providers sub
  | TRDescriptor k subs _ => k :: concat (map get_pubkey_providers subs)
  | _ => desc_pubkeys d
  end.

(** ** Printing *)

(** The loops of [TRDescriptor.to_string_no_checksum].  The list [path] is kept
    with its last element first. *)

(** [while len(path) <= depth], in [n = depth + 1 - len(path)] rounds. *)
Fixpoint tr_open (n : nat) (r : pystr) (path : list bool) : pystr * list bool :=
  match n with
  | O => (r, path)
  | S n => tr_open n (if 0 <? len path then r ++ $"{" else r) (false :: path)
  end.

(** [while len(path) > 0 and path[-1]]. *)
Fixpoint tr_close (r : pystr) (path : list bool) : pystr * list bool :=
  match path with
  | true :: path => tr_close (r ++ $"}") path
  | _ => (r, path)
  end.

(** [if len(path) > 0: path[-1] = True]. *)
Definition tr_right (path : list bool) : list bool :=
  match path with _ :: path => true :: path | [] => [] end.

Section tr_print.
Context (leaf_string : Descriptor → result pystr).

Fixpoint tr_leaves (subdescriptors : list Descriptor) (depths : list Z) (r : pystr) (path : list bool) : result pystr :=
  match subdescriptors, depths with
  | _, [] => Ok (r ++ $")")
  | [], _ :: _ => Err IndexError
  | s :: subdescriptors, depth :: depths =>
      let '(r, path) := tr_open (Z.to_nat (depth + 1 - len path)) (r ++ $",") path in
      t ← leaf_string s;
      let '(r, path) := tr_close (r ++ t) path in
      tr_leaves subdescriptors depths r (tr_right path)
  end.
End tr_print.

(** Both string functions of a descriptor print the same frame around the
    strings of its keys. *)
Definition desc_frame (d : Descriptor) (keys : list pystr) (sub : pystr) : pystr :=
  match d with
  | MultisigDescriptor _ thresh _ =>
      desc_name d ++ $"(" ++ str_int thresh ++ $"," ++ join_char (chr 44) keys ++ $")"
  | _ => desc_name d ++ $"(" ++ join_char (chr 44) keys ++ sub ++ $")"
  end.

Fixpoint to_string_no_checksum (hardened_char : pystr) (d : Descriptor) : result pystr :=
  match d with
  | SHDescriptor sub | WSHDescriptor sub =>
      s ← to_string_no_checksum hardened_char sub; Ok (desc_frame d [] s)
  | TRDescriptor k subs depths =>
      tr_leaves (to_string_no_checksum hardened_char) subs depths
        (desc_name d ++ $"(" ++ PubkeyProvider_to_string hardened_char k) []
  | _ => Ok (desc_frame d (map (PubkeyProvider_to_string hardened_char) (desc_pubkeys d)) [])
  end.

Definition to_string (hardened_char : pystr) (d : Descriptor) : result pystr :=
  s ← to_string_no_checksum hardened_char d;
  Ok (AddChecksum s).

Fixpoint get_bip388_template (d : Descriptor) : result pystr :=
  match d with
  | SHDescriptor sub | WSHDescriptor sub =>
      s ← get_bip388_template sub; Ok (desc_frame d [] s)
  | TRDescriptor k subs depths =>
      p ← get_bip388_placeholder k;
      tr_leaves get_bip388_template subs depths (desc_name d ++ $"(" ++ p) []
  | _ => keys ← mapR get_bip388_placeholder (desc_pubkeys d); Ok (desc_frame d keys [])
  end.

(** ** Deriving *)

Fixpoint derive (pos multipath_index : Z) (d : Descriptor) : result Descriptor :=
  match d with
  | PKDescriptor k => k ← derive_pubkey pos multipath_index k; Ok (PKDescriptor k)
  | PKHDescriptor k => k ← derive_pubkey pos multipath_index k; Ok (PKHDescriptor k)
  | WPKHDescriptor k => k ← derive_pubkey pos multipath_index k; Ok (WPKHDescriptor k)
  | MultisigDescriptor ks thresh is_sorted =>
      ks ← mapR (derive_pubkey pos multipath_index) ks; Ok (MultisigDescriptor ks thresh is_sorted)
  | SHDescriptor sub => sub ← derive pos multipath_index sub; Ok (SHDescriptor sub)
  | WSHDescriptor sub => sub ← derive pos multipath_index sub; Ok (WSHDescriptor sub)
  | TRDescriptor k subs depths =>
      k ← derive_pubkey pos multipath_index k;
      subs ← (fix go l := match l with [] => Ok [] | s :: l => s ← derive pos multipath_index s; r ← go l; Ok (s :: r) end) subs;
      Ok (TRDescriptor k subs depths)
  end.

(** ** Parsing *)

(** [ValueError] when a parenthesis is missing; the text behind the last closing
    one is dropped. *)
Definition _get_func_expr (s : pystr) : result (pystr * pystr) :=
  start ← of_option ValueError (find_char (chr 40) s);
  end_ ← of_option ValueError (rfind_char (chr 41) s);
  Ok (take start s, slice (start + 1) end_ s).

Definition _get_const (s : pystr) (const : byte) : result pystr :=
  c ← nth_py s 0;
  if bool_decide (c ≠ const) then Err ValueError else Ok (drop 1 s).

(** The loop of [_get_expr] from a nesting level on: what it skips, and the rest. *)
Fixpoint get_expr_loop (s : pystr) (level : Z) : pystr * pystr :=
  match s with
  | [] => ([], [])
  | c :: r =>
      if bool_decide (c ∈ $"({") then (λ '(a, b), (c :: a, b)) (get_expr_loop r (level + 1))
      else if (0 <? level) && bool_decide (c ∈ $")}") then (λ '(a, b), (c :: a, b)) (get_expr_loop r (level - 1))
      else if (level =? 0) && bool_decide (c ∈ $")},") then ([], c :: r)
      else (λ '(a, b), (c :: a, b)) (get_expr_loop r level)
  end.

Definition _get_expr (s : pystr) : pystr * pystr := get_expr_loop s 0.

Definition parse_pubkey (expr : pystr) (key_expr_index : Z) : result (PubkeyProvider * pystr * Z) :=
  let '(end_, next_expr) :=
    match find_char (chr 44) expr with
    | None => (length expr, [])
    | Some comma_idx => (comma_idx, drop (comma_idx + 1) expr)
    end in
  p ← PubkeyProvider_parse (take end_ expr) key_expr_index;
  Ok (p, next_expr, key_expr_index + 1).

Inductive _ParseDescriptorContext := TOP | P2SH | P2WSH | P2TR.

#[export] Instance ctx_eq_dec : EqDecision _ParseDescriptorContext.
Proof. solve_decision. Defined.

(** One key joins those with a multipath step seen so far. *)
Definition join_multipath (multipath_len : option Z) (p : PubkeyProvider) : result (option Z) :=
  if 1 <? pp_multipath_len p then
    match multipath_len with
    | None => Ok (Some (pp_multipath_len p))
    | Some n => if negb (n =? pp_multipath_len p) then Err ValueError else Ok (Some n)
    end
  else Ok multipath_len.

(** [while expr], for the keys of a multisig; every round takes a key away. *)
Fixpoint multi_keys (fuel : nat) (expr : pystr) (idx : Z) (multipath_len : option Z) : result (list PubkeyProvider * Z) :=
  match expr with
  | [] => Ok ([], idx)
  | _ =>
      match fuel with
      | O => Err OutOfFuel
      | S fuel =>
          '(p, expr, idx) ← parse_pubkey expr idx;
          multipath_len ← join_multipath multipath_len p;
          '(ps, idx) ← multi_keys fuel expr idx multipath_len;
          Ok (p :: ps, idx)
      end
  end.

(** The open braces; [branches] is kept with its last element first. *)
Fixpoint tr_open_braces (expr : pystr) (branches : list bool) : result (pystr * list bool) :=
  match expr with
  | [] => Err IndexError
  | c :: r =>
      if bool_decide (c = chr 123) then
        if MAX_TAPROOT_NODES <? len (false :: branches) then Err ValueError else tr_open_braces r (false :: branches)
      else Ok (expr, branches)
  end.

Fixpoint tr_close_braces (expr : pystr) (branches : list bool) : result (pystr * list bool) :=
  match branches with
  | true :: branches => expr ← _get_const expr (chr 125); tr_close_braces expr branches
  | _ => Ok (expr, branches)
  end.

(** The comma after a left branch. *)
Definition tr_next_branch (expr : pystr) (branches : list bool) : result (pystr * list bool) :=
  match branches with
  | false :: branches => expr ← _get_const expr (chr 44); Ok (expr, true :: branches)
  | _ => Ok (expr, branches)
  end.

Section tr_parse.
Context (parse_leaf : pystr → Z → result (Descriptor * Z)).

(** [while True], until no branch is left; every round parses a leaf. *)
Fixpoint tr_scripts (fuel : nat) (expr : pystr) (branches : list bool) (idx : Z) (multipath_len : option Z) :
    result (list Descriptor * list Z * Z) :=
  match fuel with
  | O => Err OutOfFuel
  | S fuel =>
      '(expr, branches) ← tr_open_braces expr branches;
      let '(sarg, expr) := _get_expr expr in
      '(subdesc, idx) ← parse_leaf sarg idx;
      multipath_len ← foldl (λ m p, m ← m; join_multipath m p) (Ok multipath_len) (desc_pubkeys subdesc);
      let depth := len branches in
      '(expr, branches) ← tr_close_braces expr branches;
      '(expr, branches) ← tr_next_branch expr branches;
      match branches with
      | [] => Ok ([subdesc], [depth], idx)
      | _ =>
          '(subs, depths, idx) ← tr_scripts fuel expr branches idx multipath_len;
          Ok (subdesc :: subs, depth :: depths, idx)
      end
  end.
End tr_parse.

(** [pk], [pkh] and [wpkh]: one key and nothing behind it. *)
Definition parse_single (make : PubkeyProvider → Descriptor) (expr : pystr) (idx : Z) : result (Descriptor * Z) :=
  '(p, expr, idx) ← parse_pubkey expr idx;
  match expr with [] => Ok (make p, idx) | _ => Err ValueError end.

Definition parse_multi (is_sorted : bool) (expr : pystr) (ctx : _ParseDescriptorContext) (idx : Z) : result (Descriptor * Z) :=
  comma_idx ← of_option ValueError (find_char (chr 44) expr);
  thresh ← int_str (take comma_idx expr);
  let expr := drop (comma_idx + 1) expr in
  '(pubkeys, idx) ← multi_keys (S (length expr)) expr idx None;
  if (len pubkeys =? 0) || (16 <? len pubkeys) then Err ValueError
  else if thresh <? 1 then Err ValueError
  else if len pubkeys <? thresh then Err ValueError
  else if bool_decide (ctx = TOP) && (3 <? len pubkeys) then Err ValueError
  else Ok (MultisigDescriptor pubkeys thresh is_sorted, idx).

Definition parse_tr (parse_leaf : pystr → Z → result (Descriptor * Z)) (expr : pystr) (idx : Z) : result (Descriptor * Z) :=
  '(internal_key, expr, idx) ← parse_pubkey expr idx;
  let multipath_len := if 1 <? pp_multipath_len internal_key then Some (pp_multipath_len internal_key) else None in
  match expr with
  | [] => Ok (TRDescriptor internal_key [] [], idx)
  | _ =>
      '(subscripts, depths, idx) ← tr_scripts parse_leaf (S (length expr)) expr [] idx multipath_len;
      Ok (TRDescriptor internal_key subscripts depths, idx)
  end.

(** Scripts nest at most three deep ([sh], [wsh], and what is in it), since
    every nested call has a context further down; [fuel] counts those levels. *)
Fixpoint _parse_descriptor (fuel : nat) (desc : pystr) (ctx : _ParseDescriptorContext) (idx : Z) : result (Descriptor * Z) :=
  match fuel with
  | O => Err OutOfFuel
  | S fuel =>
      '(func, expr) ← _get_func_expr desc;
      if bool_decide (func = $"pk") then parse_single PKDescriptor expr idx
      else if bool_decide (func = $"pkh") then
        if negb (bool_decide (ctx ∈ [TOP; P2SH; P2WSH])) then Err ValueError else parse_single PKHDescriptor expr idx
      else if bool_decide (func = $"sortedmulti") || bool_decide (func = $"multi") then
        if negb (bool_decide (ctx ∈ [TOP; P2SH; P2WSH])) then Err ValueError
        else parse_multi (bool_decide (func = $"sortedmulti")) expr ctx idx
      else if bool_decide (func = $"wpkh") then
        if negb (bool_decide (ctx ∈ [TOP; P2SH])) then Err ValueError else parse_single WPKHDescriptor expr idx
      else if bool_decide (func = $"sh") then
        if bool_decide (ctx ≠ TOP) then Err ValueError
        else '(subdesc, idx) ← _parse_descriptor fuel expr P2SH idx; Ok (SHDescriptor subdesc, idx)
      else if bool_decide (func = $"wsh") then
        if negb (bool_decide (ctx ∈ [TOP; P2SH])) then Err ValueError
        else '(subdesc, idx) ← _parse_descriptor fuel expr P2WSH idx; Ok (WSHDescriptor subdesc, idx)
      else if bool_decide (func = $"tr") then
        if bool_decide (ctx ≠ TOP) then Err ValueError
        else parse_tr (λ sarg idx, _parse_descriptor fuel sarg P2TR idx) expr idx
      else Err ValueError
  end.

Definition parse_descriptor (desc : pystr) : result Descriptor :=
  desc ←
    match find_char (chr 35) desc with
    | None => Ok desc
    | Some i =>
        let checksum := drop (i + 1) desc in
        let desc := take i desc in
        if bool_decide (DescriptorChecksum desc ≠ checksum) then Err ValueError else Ok desc
    end;
  '(d, _) ← _parse_descriptor 3 desc TOP 0;
  Ok d.

(** * Specification *)

(** Keys carry their position; [multi] and [tr] allow one multipath length. *)
Definition numbered (idx : Z) (ps : list PubkeyProvider) : Prop := map pp_expr_index ps = seqZ idx (len ps).
Definition multipath_agree (n : Z) (ps : list PubkeyProvider) : Prop :=
  Forall (λ p, 1 < pp_multipath_len p → pp_multipath_len p = n) ps.

(** The script tree of a taproot descriptor. *)
Inductive taptree :=
  | Leaf (d : Descriptor)
  | Branch (l r : taptree).

Fixpoint leaves (t : taptree) : list Descriptor :=
  match t with Leaf d => [d] | Branch l r => leaves l ++ leaves r end.
Fixpoint leaf_depths (k : Z) (t : taptree) : list Z :=
  match t with Leaf _ => [k] | Branch l r => leaf_depths (k + 1) l ++ leaf_depths (k + 1) r end.
Fixpoint height (t : taptree) : Z :=
  match t with Leaf _ => 0 | Branch l r => 1 + Z.max (height l) (height r) end.

(** Which scripts are allowed where, and the bounds on multisigs and trees.  A
    tree leaf is a [pk] script: the parser allows nothing else there. *)
Definition is_pk (d : Descriptor) : Prop := match d with PKDescriptor _ => True | _ => False end.

Fixpoint desc_valid (ctx : _ParseDescriptorContext) (d : Descriptor) : Prop :=
  match d with
  | PKDescriptor _ => True
  | PKHDescriptor _ => ctx ≠ P2TR
  | WPKHDescriptor _ => ctx = TOP ∨ ctx = P2SH
  | MultisigDescriptor ks thresh _ =>
      ctx ≠ P2TR ∧ 1 <= thresh <= len ks ∧ len ks <= 16 ∧ (ctx = TOP → len ks <= 3) ∧ ∃ n, multipath_agree n ks
  | SHDescriptor sub => ctx = TOP ∧ desc_valid P2SH sub
  | WSHDescriptor sub => (ctx = TOP ∨ ctx = P2SH) ∧ desc_valid P2WSH sub
  | TRDescriptor k subs depths =>
      ctx = TOP ∧ Forall is_pk subs ∧ (∃ n, multipath_agree n (k :: concat (map desc_pubkeys subs))) ∧
      (subs = [] ∧ depths = [] ∨ ∃ t, leaves t = subs ∧ leaf_depths 0 t = depths ∧ height t <= MAX_TAPROOT_NODES)
  end.

(** A descriptor as the parser makes them at the top level. *)
Definition desc_wf (d : Descriptor) : Prop :=
  desc_valid TOP d ∧ Forall pp_wf (get_pubkey_providers d) ∧ numbered 0 (get_pubkey_providers d).

(** * Lemmas *)

(** ** Strings *)

Definition desc_char (x : byte) : bool := bool_decide (x ∈ INPUT_CHARSET) && negb (bool_decide (x = chr 35)).

Lemma expr_desc x : expr_char x = true → desc_char x = true.
Proof. revert x. apply byte_impl. vm_compute. reflexivity. Qed.

Lemma func_expr_frame name body : chr 40 ∉ name → _get_func_expr (name ++ $"(" ++ body ++ $")") = Ok (name, body).
Proof.
  intros Hn. unfold _get_func_expr. change ($"(" ++ body ++ $")") with (chr 40 :: (body ++ [chr 41])).
  rewrite find_char_app by done. cbn [of_option]. rewrite bind_Ok.
  replace (name ++ chr 40 :: (body ++ [chr 41])) with ((name ++ chr 40 :: body) ++ chr 41 :: []) by (by rewrite <- app_assoc).
  rewrite rfind_char_app by set_solver. cbn [of_option]. rewrite bind_Ok.
  rewrite <- app_assoc, take_app_exact by done. cbn [app].
  replace (name ++ chr 40 :: body ++ [chr 41]) with ((name ++ [chr 40]) ++ body ++ [chr 41]) by (by rewrite <- !app_assoc).
  rewrite slice_app_exact; [done|..]; rewrite ?length_app; simpl; lia.
Qed.

Definition plain (s : pystr) : Prop := all_chars (λ x, negb (structure_char x)) s.

Lemma expr_plain s : all_chars expr_char s → plain s.
Proof. apply all_chars_mono. intros x. unfold expr_char. by intros [_ ?]%andb_true_iff. Qed.

Lemma plain_not s c : plain s → structure_char c = true → c ∉ s.
Proof. intros Hs Hc. eapply all_chars_not; [exact Hs|]. cbv beta. by rewrite Hc. Qed.

Lemma plain_steps c : negb (structure_char c) = true →
  bool_decide (c ∈ $"({") = false ∧ bool_decide (c ∈ $")}") = false ∧ bool_decide (c ∈ $")},") = false.
Proof.
  intros Hc. assert (negb (bool_decide (c ∈ $"({")) && negb (bool_decide (c ∈ $")}")) && negb (bool_decide (c ∈ $")},")) = true) as H.
  { revert c Hc. apply byte_impl. vm_compute. reflexivity. }
  by destruct (bool_decide _), (bool_decide _), (bool_decide _).
Qed.

(** The characters of a key are skipped at any nesting level. *)
Lemma get_expr_plain s r level : plain s → 0 <= level →
  get_expr_loop (s ++ r) level = (s ++ (get_expr_loop r level).1, (get_expr_loop r level).2).
Proof.
  intros Hs Hl. induction Hs as [|c s Hc Hs IH]; [apply surjective_pairing|].
  cbn [app get_expr_loop]. apply plain_steps in Hc as (-> & -> & ->). rewrite !andb_false_r. by rewrite IH.
Qed.

(** What may stand behind a leaf. *)
Definition leaf_end (rest : pystr) : Prop := rest = [] ∨ ∃ c r, rest = c :: r ∧ (c = chr 125 ∨ c = chr 44).

Lemma get_expr_frame name body rest : plain name → plain body → leaf_end rest →
  _get_expr ((name ++ $"(" ++ body ++ $")") ++ rest) = (name ++ $"(" ++ body ++ $")", rest).
Proof.
  intros Hn Hb Hr. unfold _get_expr. rewrite <- app_assoc, get_expr_plain by done.
  rewrite <- app_assoc. cbn [app lit]. change ($"(" ++ ?x) with (chr 40 :: x). cbn [get_expr_loop].
  rewrite bool_decide_eq_true_2 by (apply (bool_decide_unpack _); vm_compute; exact I).
  rewrite <- app_assoc, get_expr_plain by (done || lia). change ($")" ++ rest) with (chr 41 :: rest). cbn [get_expr_loop].
  rewrite bool_decide_eq_false_2 by (apply (bool_decide_unpack _); vm_compute; exact I).
  change (0 <? 0 + 1) with true. rewrite (bool_decide_eq_true_2 (chr 41 ∈ $")}")) by (apply (bool_decide_unpack _); vm_compute; exact I).
  cbn [andb]. change (0 + 1 - 1) with 0.
  assert (get_expr_loop rest 0 = ([], rest)) as ->.
  { destruct Hr as [->|(c & r & -> & Hc)]; [done|]. cbn [get_expr_loop]. by destruct Hc as [-> | ->]. }
  done.
Qed.

Lemma key_string_nonempty hc p : pp_wf p → PubkeyProvider_to_string hc p ≠ [].
Proof.
  intros (_ & Ho & _). unfold PubkeyProvider_to_string, pp_origin_string.
  destruct (pp_origin p); [done|]. by destruct (pp_pubkey p).
Qed.

(** *** Lists of keys *)

Lemma parse_pubkey_last hc p : marker hc → pp_wf p →
  parse_pubkey (PubkeyProvider_to_string hc p) (pp_expr_index p) = Ok (p, [], pp_expr_index p + 1).
Proof.
  intros Hm Hp. unfold parse_pubkey. pose proof (expr_plain _ (pp_string_chars hc p Hm Hp)) as Hs.
  rewrite (proj2 (find_char_None _ _)) by (by apply (plain_not _ (chr 44)) in Hs).
  by rewrite take_ge, parse_to_string, bind_Ok by (done || lia).
Qed.

Lemma parse_pubkey_comma hc p rest : marker hc → pp_wf p →
  parse_pubkey (PubkeyProvider_to_string hc p ++ chr 44 :: rest) (pp_expr_index p) = Ok (p, rest, pp_expr_index p + 1).
Proof.
  intros Hm Hp. unfold parse_pubkey. pose proof (expr_plain _ (pp_string_chars hc p Hm Hp)) as Hs.
  rewrite find_char_app by (by apply (plain_not _ (chr 44)) in Hs).
  rewrite take_app_exact, parse_to_string, bind_Ok by done.
  rewrite (cons_middle (chr 44)), app_assoc, drop_app_exact by (rewrite length_app; simpl; lia). done.
Qed.

Definition multipath_seen (n : Z) (m : option Z) : Prop := m = None ∨ m = Some n.

Lemma join_multipath_agree n m p : multipath_seen n m → (1 < pp_multipath_len p → pp_multipath_len p = n) →
  ∃ m', join_multipath m p = Ok m' ∧ multipath_seen n m'.
Proof.
  intros Hm Hp. unfold join_multipath. destruct (Z.ltb_spec 1 (pp_multipath_len p)); [|by exists m].
  rewrite Hp by done. exists (Some n). split; [|by right].
  destruct Hm as [-> | ->]; [done|]. by rewrite Z.eqb_refl.
Qed.

Lemma numbered_cons idx p ps : numbered idx (p :: ps) ↔ pp_expr_index p = idx ∧ numbered (idx + 1) ps.
Proof.
  unfold numbered. rewrite len_cons, Z.add_comm. pose proof (len_nonneg ps). rewrite seqZ_cons by lia.
  rewrite Z.add_1_r, Z.pred_succ. cbn [map]. rewrite Z.add_1_r. split; [intros [= -> ->]|intros [-> ->]]; done.
Qed.

Lemma numbered_app idx ps qs : numbered idx (ps ++ qs) ↔ numbered idx ps ∧ numbered (idx + len ps) qs.
Proof.
  unfold numbered. rewrite map_app, len_app. pose proof (len_nonneg ps). pose proof (len_nonneg qs).
  rewrite seqZ_app by lia. split; [|by intros [-> ->]]. intros E. apply app_inj_1 in E; [done|].
  rewrite length_map, length_seqZ. unfold len. lia.
Qed.

Lemma multi_keys_print hc n ps fuel idx m : marker hc → Forall pp_wf ps → numbered idx ps → multipath_agree n ps →
  multipath_seen n m → (length ps <= fuel)%nat →
  multi_keys fuel (join_char (chr 44) (map (PubkeyProvider_to_string hc) ps)) idx m = Ok (ps, idx + len ps).
Proof.
  intros Hm Hw. revert fuel idx m. induction Hw as [|p ps Hp Hw IH]; intros fuel idx m Hn Ha Hs Hf.
  - destruct fuel; cbn; by rewrite Z.add_0_r.
  - apply numbered_cons in Hn as [<- Hn]. apply Forall_cons_1 in Ha as [Hap Ha].
    destruct fuel as [|fuel]; [simpl in Hf; lia|]. destruct (join_multipath_agree n m p Hs Hap) as (m' & Em & Hs').
    cbn [map join_char]. pose proof (key_string_nonempty hc p Hp) as Hne. rewrite len_cons.
    replace (pp_expr_index p + (1 + len ps)) with (pp_expr_index p + 1 + len ps) by lia.
    destruct ps as [|q ps].
    + cbn [map]. destruct (PubkeyProvider_to_string hc p) as [|c s] eqn:Es; [done|]. cbn [multi_keys].
      rewrite <- Es, parse_pubkey_last, bind_Ok, Em, bind_Ok by done. cbn. rewrite ?Z.add_0_r. by destruct fuel.
    + specialize (IH fuel (pp_expr_index p + 1) m' Hn Ha Hs' ltac:(simpl in *; lia)).
      cbn [map] in IH |- *. destruct (PubkeyProvider_to_string hc p) as [|c s] eqn:Es; [done|]. cbn [app multi_keys].
      change (c :: s ++ chr 44 :: ?r) with ((c :: s) ++ chr 44 :: r).
      rewrite <- Es, parse_pubkey_comma, bind_Ok, Em, bind_Ok, IH by done. done.
Qed.

(** ** The taproot tree *)

Section tree.
Context (str : Descriptor → pystr).

(** What the printer makes of a tree. *)
Fixpoint render (t : taptree) : pystr :=
  match t with
  | Leaf d => str d
  | Branch l r => $"{" ++ render l ++ $"," ++ render r ++ $"}"
  end.

Lemma leaves_cons t : ∃ d ds, leaves t = d :: ds.
Proof. induction t as [d|l [d [ds Hl]] r _]; [by eexists _, _|]. cbn [leaves]. rewrite Hl. by eexists _, _. Qed.

Lemma leaf_depths_cons k t : ∃ j js, leaf_depths k t = j :: js ∧ k <= j.
Proof.
  revert k. induction t as [d|l IH r _]; intros k; [by eexists _, _|]. cbn [leaf_depths].
  destruct (IH (k + 1)) as (j & js & -> & ?). eexists _, _. split; [done|]. lia.
Qed.

Lemma height_nonneg t : 0 <= height t.
Proof. induction t; cbn [height]; lia. Qed.

Lemma length_leaf_depths k t : length (leaf_depths k t) = length (leaves t).
Proof. revert k. induction t as [d|l IHl r IHr]; intros k; [done|]. cbn [leaf_depths leaves]. by rewrite !length_app, IHl, IHr. Qed.

(** *** Printing *)

Context (leaf_string : Descriptor → result pystr).

(** A round of [tr_leaves] after its comma. *)
Definition tr_body (subs : list Descriptor) (depths : list Z) (r : pystr) (path : list bool) : result pystr :=
  match subs, depths with
  | s :: subs, depth :: depths =>
      let '(r, path) := tr_open (Z.to_nat (depth + 1 - len path)) r path in
      t ← leaf_string s;
      let '(r, path) := tr_close (r ++ t) path in
      tr_leaves leaf_string subs depths r (tr_right path)
  | _, _ => Err IndexError
  end.

Lemma tr_leaves_body t ss k js r path : tr_leaves leaf_string (leaves t ++ ss) (leaf_depths k t ++ js) r path =
  tr_body (leaves t ++ ss) (leaf_depths k t ++ js) (r ++ $",") path.
Proof.
  destruct (leaves_cons t) as (d & ds & ->). by destruct (leaf_depths_cons k t) as (j & l & -> & _).
Qed.

(** A tree below the current node opens a brace, except at the root. *)
Lemma tr_body_open t ss k js r path : len path <= k →
  tr_body (leaves t ++ ss) (leaf_depths k t ++ js) r path =
  tr_body (leaves t ++ ss) (leaf_depths k t ++ js) (if 0 <? len path then r ++ $"{" else r) (false :: path).
Proof.
  intros Hk. destruct (leaves_cons t) as (d & ds & ->). destruct (leaf_depths_cons k t) as (j & l & -> & Hj).
  cbn [app tr_body]. rewrite len_cons.
  replace (Z.to_nat (j + 1 - len path)) with (S (Z.to_nat (j + 1 - (1 + len path)))) by lia. done.
Qed.

Lemma tr_body_render t ss k js r b p : len p = k → Forall (λ d, leaf_string d = Ok (str d)) (leaves t) →
  tr_body (leaves t ++ ss) (leaf_depths k t ++ js) r (b :: p) =
  let '(r', p') := tr_close (r ++ render t) (b :: p) in tr_leaves leaf_string ss js r' (tr_right p').
Proof.
  revert ss k js r b p. induction t as [d|l IHl q IHr]; intros ss k js r b p Hk Hs.
  - cbn [leaves leaf_depths app tr_body render]. rewrite len_cons, Hk.
    replace (k + 1 - (1 + k)) with 0 by lia. change (tr_open (Z.to_nat 0) r (b :: p)) with (r, b :: p).
    apply Forall_cons_1 in Hs as [-> _]. by rewrite bind_Ok.
  - cbn [leaves leaf_depths render] in *. apply Forall_app in Hs as [Hl Hr]. rewrite <- !app_assoc.
    rewrite tr_body_open by (rewrite len_cons; lia). rewrite len_cons. pose proof (len_nonneg p).
    rewrite (proj2 (Z.ltb_lt 0 _)) by lia.
    rewrite (IHl _ (k + 1) _ _ false (b :: p)) by (done || rewrite len_cons; lia). cbn [tr_close tr_right].
    rewrite tr_leaves_body, (IHr _ (k + 1) _ _ true (b :: p)) by (done || rewrite len_cons; lia). cbn [tr_close].
    by rewrite <- !app_assoc.
Qed.

Lemma tr_leaves_render t r : Forall (λ d, leaf_string d = Ok (str d)) (leaves t) →
  tr_leaves leaf_string (leaves t) (leaf_depths 0 t) r [] = Ok (r ++ $"," ++ render t ++ $")").
Proof.
  intros Hs. pose proof (tr_leaves_body t [] 0 [] r []) as E. rewrite !app_nil_r in E. rewrite E. clear E.
  pose proof (tr_body_open t [] 0 [] (r ++ $",") [] ltac:(done)) as E. rewrite !app_nil_r in E. rewrite E. clear E.
  pose proof (tr_body_render t [] 0 [] (r ++ $",") false [] eq_refl Hs) as E. rewrite !app_nil_r in E.
  change (0 <? len []) with false. cbv iota. rewrite E. cbn [tr_close tr_right tr_leaves]. by rewrite <- !app_assoc.
Qed.

(** *** Parsing *)

Context (parse_leaf : pystr → Z → result (Descriptor * Z)) (n : Z).

(** The end of a round of [tr_scripts]: the closing braces, the comma, and the next rounds. *)
Definition tr_after (fuel : nat) (expr : pystr) (branches : list bool) (idx : Z) (m : option Z) :
    result (list Descriptor * list Z * Z) :=
  '(expr, branches) ← tr_close_braces expr branches;
  '(expr, branches) ← tr_next_branch expr branches;
  match branches with [] => Ok ([], [], idx) | _ => tr_scripts parse_leaf fuel expr branches idx m end.

(** A leaf that is read back, with its one key. *)
Definition leaf_ok (d : Descriptor) : Prop :=
  ∃ p, desc_pubkeys d = [p] ∧ multipath_agree n [p] ∧
    (∃ c s, str d = c :: s ∧ c ≠ chr 123) ∧
    (∀ rest, leaf_end rest → _get_expr (str d ++ rest) = (str d, rest)) ∧
    parse_leaf (str d) (pp_expr_index p) = Ok (d, pp_expr_index p + 1).

Definition leaf_keys (t : taptree) : list PubkeyProvider := concat (map desc_pubkeys (leaves t)).

Lemma tr_scripts_brace fuel expr branches idx m : len branches < MAX_TAPROOT_NODES →
  tr_scripts parse_leaf (S fuel) ($"{" ++ expr) branches idx m = tr_scripts parse_leaf (S fuel) expr (false :: branches) idx m.
Proof.
  intros Hl. cbn [tr_scripts]. change ($"{" ++ expr) with (chr 123 :: expr). cbn [tr_open_braces].
  rewrite bool_decide_eq_true_2, len_cons by done. by rewrite (proj2 (Z.ltb_ge MAX_TAPROOT_NODES _)) by lia.
Qed.

Lemma tr_scripts_leaf d fuel rest branches idx m : leaf_ok d → leaf_end rest → multipath_seen n m →
  numbered idx (desc_pubkeys d) →
  ∃ m', multipath_seen n m' ∧ tr_scripts parse_leaf (S fuel) (str d ++ rest) branches idx m =
    ('(s, j, i) ← tr_after fuel rest branches (idx + 1) m'; Ok (d :: s, len branches :: j, i)).
Proof.
  intros (p & Hp & Ha & (c & s & Es & Hc) & Hx & Hl) Hr Hm Hn. rewrite Hp in Hn. apply numbered_cons in Hn as [<- _].
  apply Forall_cons_1 in Ha as [Ha _]. destruct (join_multipath_agree n m p Hm Ha) as (m' & Em & Hm'). exists m'. split; [done|].
  cbn [tr_scripts]. assert (tr_open_braces (str d ++ rest) branches = Ok (str d ++ rest, branches)) as ->.
  { rewrite Es. cbn [app tr_open_braces]. by rewrite bool_decide_eq_false_2. }
  rewrite bind_Ok, Hx, Hl, bind_Ok, Hp by done. cbn [foldl]. rewrite bind_Ok, Em, bind_Ok. unfold tr_after.
  destruct (tr_close_braces rest branches) as [[e1 b1]|]; [|done]. rewrite !bind_Ok.
  destruct (tr_next_branch e1 b1) as [[e2 b2]|]; [|done]. rewrite !bind_Ok. by destruct b2.
Qed.

Lemma tr_scripts_render t fuel rest branches idx m : Forall leaf_ok (leaves t) → leaf_end rest → multipath_seen n m →
  numbered idx (leaf_keys t) → len branches + height t <= MAX_TAPROOT_NODES →
  ∃ m', multipath_seen n m' ∧ tr_scripts parse_leaf (length (leaves t) + fuel) (render t ++ rest) branches idx m =
    ('(s, j, i) ← tr_after fuel rest branches (idx + len (leaf_keys t)) m';
     Ok (leaves t ++ s, leaf_depths (len branches) t ++ j, i)).
Proof.
  revert fuel rest branches idx m. induction t as [d|l IHl q IHr]; intros fuel rest branches idx m Ht Hr Hm Hn Hh.
  - cbn [leaves leaf_depths render length app] in *. apply Forall_cons_1 in Ht as [Hd _]. unfold leaf_keys in *. cbn [leaves map concat] in *.
    rewrite app_nil_r in *. destruct Hd as (p & Hp & Hd). rewrite Hp. change (len [p]) with 1.
    apply tr_scripts_leaf; [by exists p|done..].
  - cbn [leaves leaf_depths render height] in *. apply Forall_app in Ht as [Htl Htr]. unfold leaf_keys in Hn |- *. cbn [leaves] in Hn |- *.
    rewrite map_app, concat_app in Hn |- *. fold (leaf_keys l) (leaf_keys q) in Hn |- *. apply numbered_app in Hn as [Hnl Hnr].
    destruct (leaves_cons l) as (d0 & ds0 & El). destruct (leaves_cons q) as (d1 & ds1 & Er).
    set (R2 := $"}" ++ rest). set (R1 := $"," ++ render q ++ R2).
    replace (($"{" ++ render l ++ $"," ++ render q ++ $"}") ++ rest) with ($"{" ++ render l ++ R1)
      by (unfold R1, R2; by rewrite <- !app_assoc).
    rewrite length_app, <- Nat.add_assoc.
    assert (length (leaves l) + (length (leaves q) + fuel) = S (length ds0 + (length (leaves q) + fuel)))%nat as E0 by (rewrite El; done).
    pose proof (height_nonneg l). rewrite E0, tr_scripts_brace by lia. rewrite <- E0. clear E0.
    destruct (IHl (length (leaves q) + fuel)%nat R1 (false :: branches) idx m) as (m1 & Hm1 & ->);
      [done|right; by eexists _, _; split; [reflexivity|right]|done|done|rewrite len_cons; lia|].
    unfold tr_after at 1. cbn [tr_close_braces]. rewrite bind_Ok. cbn [tr_next_branch]. unfold _get_const.
    change (nth_py R1 0) with (@Ok byte (chr 44)). rewrite bind_Ok. change (drop 1 R1) with (drop 0 (render q ++ R2)). rewrite drop_0.
    rewrite bool_decide_eq_false_2 by (intros Hneq; by apply Hneq). rewrite !bind_Ok.
    destruct (IHr fuel R2 (true :: branches) (idx + len (leaf_keys l)) m1) as (m2 & Hm2 & ->);
      [done|right; by eexists _, _; split; [reflexivity|left]|done|done|rewrite len_cons; lia|].
    exists m2. split; [done|]. unfold tr_after at 1. cbn [tr_close_braces]. unfold _get_const.
    change (nth_py R2 0) with (@Ok byte (chr 125)). rewrite !bind_Ok. change (drop 1 R2) with (drop 0 rest). rewrite drop_0.
    rewrite bool_decide_eq_false_2 by (intros Hneq; by apply Hneq). rewrite !bind_Ok, len_app, Z.add_assoc.
    rewrite !len_cons. replace (1 + len branches) with (len branches + 1) by lia.
    fold (tr_after fuel rest branches (idx + len (leaf_keys l) + len (leaf_keys q)) m2).
    destruct (tr_after fuel rest branches _ m2) as [[[s j] i]|]; [|done]. rewrite !bind_Ok. by rewrite <- !app_assoc.
Qed.
End tree.

(** ** Whole descriptors *)

(** Comparisons of names and contexts are decided by evaluation. *)
Ltac dispatch :=
  repeat match goal with
  | |- context [bool_decide ?P] =>
      let b := eval vm_compute in (bool_decide P) in
      match b with
      | true => change (bool_decide P) with true
      | false => change (bool_decide P) with false
      end; cbn [negb orb andb]; cbv iota
  end.

Definition ctx_levels (ctx : _ParseDescriptorContext) : nat :=
  match ctx with TOP => 3 | P2SH => 2 | P2WSH | P2TR => 1 end.

Lemma parse_single_print hc make p : marker hc → pp_wf p →
  parse_single make (PubkeyProvider_to_string hc p) (pp_expr_index p) = Ok (make p, pp_expr_index p + 1).
Proof. intros Hm Hp. unfold parse_single. by rewrite (parse_pubkey_last hc) by done. Qed.

Definition pk_string (hc : pystr) (d : Descriptor) : pystr :=
  match d with PKDescriptor p => $"pk" ++ $"(" ++ PubkeyProvider_to_string hc p ++ $")" | _ => [] end.

Lemma pk_print hc d : is_pk d → to_string_no_checksum hc d = Ok (pk_string hc d).
Proof. by destruct d. Qed.

Lemma pk_parse hc p fuel ctx : marker hc → pp_wf p → (0 < fuel)%nat →
  _parse_descriptor fuel (pk_string hc (PKDescriptor p)) ctx (pp_expr_index p) = Ok (PKDescriptor p, pp_expr_index p + 1).
Proof.
  intros Hm Hp Hf. destruct fuel as [|fuel]; [lia|]. cbn [_parse_descriptor pk_string].
  rewrite func_expr_frame, bind_Ok by (apply (bool_decide_unpack _); vm_compute; exact I). dispatch. by apply parse_single_print.
Qed.

Lemma pk_leaf_ok hc n fuel p : marker hc → pp_wf p → (1 < pp_multipath_len p → pp_multipath_len p = n) → (0 < fuel)%nat →
  leaf_ok (pk_string hc) (λ sarg idx, _parse_descriptor fuel sarg P2TR idx) n (PKDescriptor p).
Proof.
  intros Hm Hp Ha Hf. exists p. split; [done|]. split; [by constructor|]. split; [by eexists _, _|]. split; [|by apply pk_parse].
  intros rest Hr. cbn [pk_string]. apply get_expr_frame; [|by apply expr_plain, pp_string_chars|done].
  apply all_chars_lit. vm_compute. reflexivity.
Qed.

Lemma frame_chars name body : all_chars desc_char name → all_chars desc_char body → all_chars desc_char (name ++ $"(" ++ body ++ $")").
Proof.
  intros Hn Hb. apply all_chars_app. split; [done|]. constructor; [done|]. apply all_chars_app.
  split; [done|by apply all_chars_lit; vm_compute].
Qed.

Lemma key_chars hc p : marker hc → pp_wf p → all_chars desc_char (PubkeyProvider_to_string hc p).
Proof. intros Hm Hp. eapply all_chars_mono; [apply expr_desc|by apply pp_string_chars]. Qed.

Lemma keys_chars hc ps : marker hc → Forall pp_wf ps → all_chars desc_char (join_char (chr 44) (map (PubkeyProvider_to_string hc) ps)).
Proof.
  intros Hm Hp. apply join_chars; [done|]. apply Forall_map. eapply Forall_impl; [exact Hp|]. intros p. by apply key_chars.
Qed.

Lemma str_nat_chars n : 0 <= n → all_chars key_char (str_nat n).
Proof. intros Hn. eapply Forall_impl; [by apply str_nat_digits|]. apply byte_impl. vm_compute. reflexivity. Qed.

(** *** The scripts with keys only *)

Lemma multi_print hc ks thresh is_sorted ctx idx fuel : marker hc → desc_valid ctx (MultisigDescriptor ks thresh is_sorted) →
  Forall pp_wf ks → numbered idx ks → (0 < fuel)%nat →
  let s := desc_frame (MultisigDescriptor ks thresh is_sorted) (map (PubkeyProvider_to_string hc) ks) [] in
  all_chars desc_char s ∧
  _parse_descriptor fuel s ctx idx = Ok (MultisigDescriptor ks thresh is_sorted, idx + len ks).
Proof.
  intros Hm (Hc & Ht & Hk & H3 & n & Ha) Hw Hn Hf. cbv zeta. cbn [desc_frame].
  assert (str_int thresh = str_nat thresh) as -> by (unfold str_int; by rewrite (proj2 (Z.ltb_ge _ 0)) by lia).
  pose proof (str_nat_chars thresh ltac:(lia)) as Hd.
  set (keys := join_char (chr 44) (map (PubkeyProvider_to_string hc) ks)).
  set (body := str_nat thresh ++ $"," ++ keys).
  replace (desc_name (MultisigDescriptor ks thresh is_sorted) ++ $"(" ++ str_nat thresh ++ $"," ++ keys ++ $")")
    with (desc_name (MultisigDescriptor ks thresh is_sorted) ++ $"(" ++ body ++ $")") by (unfold body; by rewrite <- !app_assoc).
  split.
  { apply frame_chars; [destruct is_sorted; apply all_chars_lit; vm_compute; reflexivity|]. unfold body.
    apply all_chars_app. split; [eapply all_chars_mono; [|exact Hd]; apply byte_impl; vm_compute; reflexivity|].
    constructor; [done|]. by apply keys_chars. }
  destruct fuel as [|fuel]; [lia|]. cbn [_parse_descriptor].
  rewrite func_expr_frame, bind_Ok by (destruct is_sorted; apply (bool_decide_unpack _); vm_compute; exact I).
  assert (parse_multi is_sorted body ctx idx = Ok (MultisigDescriptor ks thresh is_sorted, idx + len ks)) as Hp.
  { unfold parse_multi, body. change ($"," ++ keys) with (chr 44 :: keys). rewrite find_char_app by (by eapply all_chars_not).
    cbn [of_option]. rewrite bind_Ok, take_app_exact, int_str_nat, bind_Ok by (done || apply printable_small; lia).
    rewrite (cons_middle (chr 44)), app_assoc, drop_app_exact by (rewrite length_app; simpl; lia).
    unfold keys. rewrite (multi_keys_print hc n), bind_Ok
      by (done || (by left) || (etrans; [|apply join_char_length]; by rewrite length_map)).
    destruct (Z.eqb_spec (len ks) 0); [lia|]. rewrite (proj2 (Z.ltb_ge 16 _)), (proj2 (Z.ltb_ge thresh 1)), (proj2 (Z.ltb_ge (len ks) _)) by lia.
    cbn [orb]. case_bool_decide; [|done]. by rewrite (proj2 (Z.ltb_ge 3 _)) by auto. }
  assert (bool_decide (ctx ∈ [TOP; P2SH; P2WSH]) = true) as Hx by (apply bool_decide_eq_true_2; destruct ctx; set_solver).
  destruct is_sorted; cbn [desc_name]; rewrite Hx; dispatch; exact Hp.
Qed.

(** [pkh] and [wpkh], with the check of the context left to show. *)
Lemma single_print hc make name ctx p idx : marker hc → pp_wf p → numbered idx [p] →
  to_string_no_checksum hc (make p) = Ok (name ++ $"(" ++ PubkeyProvider_to_string hc p ++ $")") →
  get_pubkey_providers (make p) = [p] → chr 40 ∉ name → all_chars desc_char name →
  (∀ fuel expr, _get_func_expr (name ++ $"(" ++ expr ++ $")") = Ok (name, expr) →
    _parse_descriptor (S fuel) (name ++ $"(" ++ expr ++ $")") ctx idx = parse_single make expr idx) →
  ∃ s, to_string_no_checksum hc (make p) = Ok s ∧ all_chars desc_char s ∧
    ∀ fuel, (ctx_levels ctx <= fuel)%nat →
      _parse_descriptor fuel s ctx idx = Ok (make p, idx + len (get_pubkey_providers (make p))).
Proof.
  intros Hm Hp Hn Es Ek Hname Hnc Hparse. eexists. split; [exact Es|]. split; [apply frame_chars; [done|by apply key_chars]|].
  intros [|fuel] Hf; [destruct ctx; simpl in Hf; lia|]. rewrite Hparse by (by apply func_expr_frame).
  apply numbered_cons in Hn as [<- _]. rewrite Ek. by apply parse_single_print.
Qed.

(** *** Taproot *)

Lemma render_chars hc t : Forall is_pk (leaves t) → marker hc →
  Forall pp_wf (concat (map desc_pubkeys (leaves t))) → all_chars desc_char (render (pk_string hc) t).
Proof.
  intros Hp Hm. induction t as [d|l IHl r IHr]; cbn [leaves render] in *; intros Hw.
  - apply Forall_cons_1 in Hp as [Hd _]. destruct d; try done. cbn in Hw. apply Forall_cons_1 in Hw as [Hw _].
    apply frame_chars; [by apply all_chars_lit; vm_compute|by apply key_chars].
  - apply Forall_app in Hp as [Hl Hr]. rewrite map_app, concat_app in Hw. apply Forall_app in Hw as [Hwl Hwr].
    constructor; [done|]. apply all_chars_app. split; [by apply IHl|]. constructor; [done|].
    apply all_chars_app. split; [by apply IHr|by apply all_chars_lit; vm_compute].
Qed.

Lemma leaves_ok hc n fuel t : marker hc → (0 < fuel)%nat → Forall is_pk (leaves t) →
  Forall pp_wf (leaf_keys t) → multipath_agree n (leaf_keys t) →
  Forall (leaf_ok (pk_string hc) (λ sarg idx, _parse_descriptor fuel sarg P2TR idx) n) (leaves t).
Proof.
  intros Hm Hf Hp Hw Ha. apply Forall_forall. intros d Hd. rewrite Forall_forall in Hp. specialize (Hp d Hd).
  destruct d as [p| | | | | |]; try done.
  assert (p ∈ leaf_keys t) as Hin.
  { apply list_elem_of_In, in_concat. exists [p]. split; [|by left]. apply in_map_iff. exists (PKDescriptor p).
    split; [done|by apply list_elem_of_In]. }
  unfold multipath_agree in Ha. rewrite Forall_forall in Hw, Ha. apply pk_leaf_ok; auto.
Qed.

Lemma leaf_providers subs : Forall is_pk subs → concat (map get_pubkey_providers subs) = concat (map desc_pubkeys subs).
Proof. induction 1 as [|d l Hd _ IH]; [done|]. cbn [map concat]. rewrite IH. by destruct d. Qed.

Lemma leaf_count t : Forall is_pk (leaves t) → length (leaf_keys t) = length (leaves t).
Proof.
  intros Hp. unfold leaf_keys. induction Hp as [|d l Hd _ IH]; [done|]. cbn [map concat length]. rewrite length_app, IH. by destruct d.
Qed.

Lemma render_length hc t : Forall is_pk (leaves t) → (length (leaves t) <= length (render (pk_string hc) t))%nat.
Proof.
  induction t as [d|l IHl r IHr]; cbn [leaves render]; intros Hp.
  - apply Forall_cons_1 in Hp as [Hd _]. destruct d; try done. cbn [pk_string]. rewrite !length_app. simpl. lia.
  - apply Forall_app in Hp as [Hl Hr]. rewrite !length_app. specialize (IHl Hl). specialize (IHr Hr). lia.
Qed.

Lemma tr_print hc k subs depths idx fuel : marker hc → desc_valid TOP (TRDescriptor k subs depths) →
  Forall pp_wf (get_pubkey_providers (TRDescriptor k subs depths)) →
  numbered idx (get_pubkey_providers (TRDescriptor k subs depths)) → (1 < fuel)%nat →
  ∃ s, to_string_no_checksum hc (TRDescriptor k subs depths) = Ok s ∧ all_chars desc_char s ∧
    _parse_descriptor fuel s TOP idx =
      Ok (TRDescriptor k subs depths, idx + len (get_pubkey_providers (TRDescriptor k subs depths))).
Proof.
  intros Hm (_ & Hpk & (n & Ha) & Ht) Hw Hn Hf. cbn [get_pubkey_providers] in *. rewrite leaf_providers in * by done.
  apply Forall_cons_1 in Hw as [Hk Hw]. apply numbered_cons in Hn as [<- Hn]. apply Forall_cons_1 in Ha as [Hak Ha].
  destruct fuel as [|fuel]; [lia|]. cbn [to_string_no_checksum desc_name]. rewrite len_cons.
  set (leaf := λ sarg idx, _parse_descriptor fuel sarg P2TR idx).
  assert (∀ body, all_chars desc_char body →
    parse_tr leaf body (pp_expr_index k) =
      Ok (TRDescriptor k subs depths, pp_expr_index k + (1 + len (concat (map desc_pubkeys subs)))) →
    all_chars desc_char ($"tr" ++ $"(" ++ body ++ $")") ∧
    _parse_descriptor (S fuel) ($"tr" ++ $"(" ++ body ++ $")") TOP (pp_expr_index k) =
      Ok (TRDescriptor k subs depths, pp_expr_index k + (1 + len (concat (map desc_pubkeys subs))))) as Hframe.
  { intros body Hb Hp. split; [apply frame_chars; [by apply all_chars_lit; vm_compute|done]|]. cbn [_parse_descriptor].
    rewrite func_expr_frame, bind_Ok by (apply (bool_decide_unpack _); vm_compute; exact I). dispatch. exact Hp. }
  destruct Ht as [[-> ->]|(t & <- & <- & Hh)].
  - cbn [tr_leaves]. eexists. split; [reflexivity|]. rewrite <- !app_assoc. apply Hframe; [by apply key_chars|].
    unfold parse_tr. rewrite (parse_pubkey_last hc), bind_Ok by done. done.
  - rewrite (tr_leaves_render (pk_string hc)).
    2:{ eapply Forall_impl; [exact Hpk|]. intros d Hd. by apply pk_print. }
    eexists. split; [reflexivity|]. rewrite <- !app_assoc.
    replace (PubkeyProvider_to_string hc k ++ $"," ++ render (pk_string hc) t ++ $")")
      with ((PubkeyProvider_to_string hc k ++ $"," ++ render (pk_string hc) t) ++ $")") by (by rewrite <- !app_assoc).
    apply Hframe.
    { apply all_chars_app. split; [by apply key_chars|]. constructor; [done|]. by apply render_chars. }
    unfold parse_tr. change ($"," ++ ?r) with (chr 44 :: r). rewrite parse_pubkey_comma, bind_Ok by done. fold (leaf_keys t) in *.
    set (m := if 1 <? _ then _ else _).
    assert (multipath_seen n m) as Hseen.
    { unfold m. destruct (Z.ltb_spec 1 (pp_multipath_len k)); [right; by rewrite Hak|by left]. }
    pose proof (leaves_ok hc n fuel t Hm ltac:(lia) Hpk Hw Ha) as Hok.
    pose proof (render_length hc t Hpk) as Hlen. destruct (leaves_cons t) as (d & ds & El).
    destruct (render (pk_string hc) t) as [|c r] eqn:Er; [rewrite El in Hlen; simpl in Hlen; lia|].
    cbv iota. rewrite <- Er in *.
    destruct (tr_scripts_render (pk_string hc) leaf n t (S (length (render (pk_string hc) t)) - length (leaves t)) []
      [] (pp_expr_index k + 1) m Hok (or_introl eq_refl) Hseen Hn Hh) as (m' & _ & Es).
    rewrite app_nil_r in Es. replace (length (leaves t) + _)%nat with (S (length (render (pk_string hc) t))) in Es by lia.
    rewrite Es. unfold tr_after. cbn [tr_close_braces]. rewrite bind_Ok.
    change (tr_next_branch [] []) with (@Ok (pystr * list bool) ([], [])). rewrite !bind_Ok, !app_nil_r, Z.add_assoc. done.
Qed.

(** *** All descriptors *)

Lemma desc_print_parse hc d ctx idx : marker hc → desc_valid ctx d → Forall pp_wf (get_pubkey_providers d) →
  numbered idx (get_pubkey_providers d) →
  ∃ s, to_string_no_checksum hc d = Ok s ∧ all_chars desc_char s ∧
    ∀ fuel, (ctx_levels ctx <= fuel)%nat →
      _parse_descriptor fuel s ctx idx = Ok (d, idx + len (get_pubkey_providers d)).
Proof.
  intros Hm. revert ctx idx.
  induction d as [p|p|p|ks thresh is_sorted|sub IH|sub IH|k subs depths]; intros ctx idx Hv Hw Hn.
  - cbn [get_pubkey_providers desc_pubkeys] in *. apply Forall_cons_1 in Hw as [Hp _]. apply numbered_cons in Hn as [<- _].
    exists (pk_string hc (PKDescriptor p)). split; [done|]. split.
    + apply frame_chars; [by apply all_chars_lit; vm_compute|by apply key_chars].
    + intros fuel Hf. apply pk_parse; [done..|]. destruct ctx; simpl in Hf; lia.
  - cbn [get_pubkey_providers desc_pubkeys] in *. apply Forall_cons_1 in Hw as [Hp _].
    apply (single_print hc PKHDescriptor $"pkh"); try done; [by apply (bool_decide_unpack _); vm_compute|by apply all_chars_lit; vm_compute|].
    intros fuel expr E. cbn [_parse_descriptor]. rewrite E, bind_Ok.
    assert (bool_decide (ctx ∈ [TOP; P2SH; P2WSH]) = true) as -> by (apply bool_decide_eq_true_2; destruct ctx; set_solver). by dispatch.
  - cbn [get_pubkey_providers desc_pubkeys] in *. apply Forall_cons_1 in Hw as [Hp _].
    apply (single_print hc WPKHDescriptor $"wpkh"); try done; [by apply (bool_decide_unpack _); vm_compute|by apply all_chars_lit; vm_compute|].
    intros fuel expr E. cbn [_parse_descriptor]. rewrite E, bind_Ok.
    assert (bool_decide (ctx ∈ [TOP; P2SH]) = true) as -> by (apply bool_decide_eq_true_2; destruct Hv as [-> | ->]; set_solver). by dispatch.
  - eexists. split; [reflexivity|]. cbn [get_pubkey_providers desc_pubkeys] in *.
    destruct (multi_print hc ks thresh is_sorted ctx idx 1 Hm Hv Hw Hn ltac:(lia)) as [Hc _]. split; [exact Hc|].
    intros fuel Hf. apply (multi_print hc ks thresh is_sorted ctx idx fuel Hm Hv Hw Hn). destruct ctx; simpl in Hf; lia.
  - destruct Hv as [-> Hv]. cbn [get_pubkey_providers] in *.
    destruct (IH P2SH idx Hv Hw Hn) as (s & Es & Hc & Hp). cbn [to_string_no_checksum]. rewrite Es, bind_Ok. eexists. split; [reflexivity|].
    split; [apply frame_chars; [by apply all_chars_lit; vm_compute|done]|]. intros [|fuel] Hf; [simpl in Hf; lia|].
    cbn [_parse_descriptor desc_frame desc_name join_char app]. rewrite func_expr_frame, bind_Ok by (apply (bool_decide_unpack _); vm_compute; exact I).
    dispatch. by rewrite Hp, bind_Ok by (simpl in *; lia).
  - destruct Hv as [Hctx Hv]. cbn [get_pubkey_providers] in *.
    destruct (IH P2WSH idx Hv Hw Hn) as (s & Es & Hc & Hp). cbn [to_string_no_checksum]. rewrite Es, bind_Ok. eexists. split; [reflexivity|].
    split; [apply frame_chars; [by apply all_chars_lit; vm_compute|done]|].
    intros [|fuel] Hf; [destruct ctx; simpl in Hf; lia|].
    cbn [_parse_descriptor desc_frame desc_name join_char app]. rewrite func_expr_frame, bind_Ok by (apply (bool_decide_unpack _); vm_compute; exact I).
    assert (bool_decide (ctx ∈ [TOP; P2SH]) = true) as -> by (apply bool_decide_eq_true_2; destruct Hctx as [-> | ->]; set_solver).
    dispatch. rewrite Hp, bind_Ok; [done|]. destruct Hctx as [-> | ->]; simpl in *; lia.
  - destruct Hv as [-> Hv]. pose proof (λ fuel, tr_print hc k subs depths idx fuel Hm (conj eq_refl Hv) Hw Hn) as Ht.
    destruct (Ht 2%nat ltac:(lia)) as (s & Es & Hc & _). exists s. split; [done|]. split; [done|]. intros fuel Hf.
    destruct (Ht fuel ltac:(simpl in Hf; lia)) as (s' & Es' & _ & Hp). rewrite Es in Es'. injection Es' as <-. exact Hp.
Qed.

(** ** What the parser accepts *)

(** The fields of a parsed key belong together. *)
Definition pp_made (p : PubkeyProvider) : Prop :=
  PubkeyProvider_init (pp_origin p) (pp_pubkey p) (pp_deriv_path p) (pp_expr_index p) (pp_ranged p) = Ok p.

Lemma init_made o pk dp i r p : PubkeyProvider_init o pk dp i r = Ok p → pp_made p ∧ pp_expr_index p = i.
Proof.
  intros H. unfold pp_made. enough (pp_origin p = o ∧ pp_pubkey p = pk ∧ pp_deriv_path p = dp ∧ pp_expr_index p = i ∧ pp_ranged p = r)
    as (-> & -> & -> & -> & ->) by done.
  unfold PubkeyProvider_init in H. apply bind_ok in H as (x & _ & H). by injection H as <-.
Qed.

Lemma pubkey_parse_made s i p : PubkeyProvider_parse s i = Ok p → pp_made p ∧ pp_expr_index p = i ∧ s ≠ [].
Proof.
  intros H. assert (s ≠ []) as Hs by (by intros ->). unfold PubkeyProvider_parse in H.
  apply bind_ok in H as ([o s'] & _ & H). destruct (find_char (chr 47) s').
  - apply bind_ok in H as (dp & _ & H). apply init_made in H as [? ?]. done.
  - apply init_made in H as [? ?]. done.
Qed.

Lemma parse_pubkey_ok expr idx p rest idx' : parse_pubkey expr idx = Ok (p, rest, idx') →
  pp_made p ∧ pp_expr_index p = idx ∧ idx' = idx + 1 ∧ (length rest < length expr)%nat.
Proof.
  unfold parse_pubkey. intros H. destruct (find_char (chr 44) expr) as [i|] eqn:E; apply bind_ok in H as (q & Hq & H);
    injection H as <- <- <-; apply pubkey_parse_made in Hq as (? & ? & Hne); split_and!; try done.
  - apply find_char_lookup, lookup_lt_Some in E. rewrite length_drop. lia.
  - destruct expr; [done|simpl; lia].
Qed.

Lemma join_multipath_ok n m p m' : join_multipath m p = Ok m' → multipath_seen n m' →
  multipath_seen n m ∧ (1 < pp_multipath_len p → pp_multipath_len p = n).
Proof.
  unfold join_multipath. intros H Hs. destruct (Z.ltb_spec 1 (pp_multipath_len p)); [|injection H as <-; split; [done|lia]].
  destruct m as [k|].
  - destruct (Z.eqb_spec k (pp_multipath_len p)); [|done]. injection H as <-. destruct Hs as [|[= ->]]; [done|]. split; [by right|done].
  - injection H as <-. destruct Hs as [|[= ->]]; [done|]. split; [by left|done].
Qed.

Lemma seen_some m : ∃ n, multipath_seen n m.
Proof. destruct m as [n|]; [exists n; by right|exists 0; by left]. Qed.

Lemma multi_keys_ok fuel expr idx m ps idx' : multi_keys fuel expr idx m = Ok (ps, idx') →
  idx' = idx + len ps ∧ numbered idx ps ∧ Forall pp_made ps ∧ ∃ n, multipath_seen n m ∧ multipath_agree n ps.
Proof.
  revert expr idx m ps. induction fuel as [|fuel IH]; intros [|c s] idx m ps H; cbn [multi_keys] in H; try done.
  1,2: injection H as <- <-; rewrite Z.add_0_r; destruct (seen_some m) as [n Hn]; split_and!; try done; exists n; by split; [|constructor].
  apply bind_ok in H as ([[p e] i] & Hp & H). apply parse_pubkey_ok in Hp as (Hm & Hi & -> & _).
  apply bind_ok in H as (m' & Hj & H). apply bind_ok in H as ([qs i'] & Hq & H). injection H as <- <-.
  apply IH in Hq as (-> & Hn & Hqs & n & Hs & Ha). destruct (join_multipath_ok n m p m' Hj Hs) as [Hs' Ha'].
  rewrite len_cons. split; [lia|]. split; [by apply numbered_cons|]. split; [by constructor|]. exists n. split; [done|by constructor].
Qed.

(** *** The leaves of a tree *)

Lemma height_depths k B t : Forall (λ j, j <= B) (leaf_depths k t) → k + height t <= B.
Proof.
  revert k. induction t as [d|l IHl r IHr]; intros k H; cbn [leaf_depths height] in *.
  - apply Forall_cons_1 in H as [H _]. lia.
  - apply Forall_app in H as [Hl%IHl Hr%IHr]. lia.
Qed.

(** The leaves that are still to come at a point of the tree: [tree_at] before a
    script, [tree_after] behind one. *)
Inductive tree_at : list bool → list Descriptor → list Z → Prop :=
  | tree_at_intro bs t ss js : tree_after bs ss js → tree_at bs (leaves t ++ ss) (leaf_depths (len bs) t ++ js)
with tree_after : list bool → list Descriptor → list Z → Prop :=
  | tree_after_root : tree_after [] [] []
  | tree_after_right bs ss js : tree_after bs ss js → tree_after (true :: bs) ss js
  | tree_after_left bs ss js : tree_at (true :: bs) ss js → tree_after (false :: bs) ss js.

(** An open brace starts a branch. *)
Lemma tree_at_open bs ss js : tree_at (false :: bs) ss js → tree_at bs ss js.
Proof.
  intros H. inversion H as [bs0 l ss0 js0 H0]; subst. inversion H0 as [| |bs1 ss1 js1 H1]; subst.
  inversion H1 as [bs2 r ss2 js2 H2]; subst. inversion H2 as [|bs3 ss3 js3 H3|]; subst.
  rewrite !app_assoc. rewrite !len_cons. rewrite Z.add_comm. by apply (tree_at_intro bs (Branch l r)).
Qed.

Lemma open_braces_ok expr bs expr' bs' : tr_open_braces expr bs = Ok (expr', bs') →
  len bs <= MAX_TAPROOT_NODES → len bs' <= MAX_TAPROOT_NODES ∧ (length expr' <= length expr)%nat ∧
  ∀ ss js, tree_at bs' ss js → tree_at bs ss js.
Proof.
  revert bs. induction expr as [|c r IH]; intros bs H Hb; [done|]. cbn [tr_open_braces] in H. case_bool_decide.
  - destruct (Z.ltb_spec MAX_TAPROOT_NODES (len (false :: bs))); [done|]. apply IH in H as (? & ? & Ht); [|done].
    split; [done|]. split; [simpl; lia|]. intros ss js Hs. by apply tree_at_open, Ht.
  - by injection H as <- <-.
Qed.

Lemma get_const_ok s c r : _get_const s c = Ok r → (length r < length s)%nat.
Proof. unfold _get_const. destruct s as [|x s]; [done|]. cbn. case_bool_decide; [done|]. intros [= <-]. rewrite drop_0. lia. Qed.

Lemma close_braces_ok expr bs expr' bs' : tr_close_braces expr bs = Ok (expr', bs') →
  len bs' <= len bs ∧ (length expr' <= length expr)%nat ∧ (∀ ss js, tree_after bs' ss js → tree_after bs ss js).
Proof.
  revert expr. induction bs as [|[] bs IH]; intros expr H; cbn [tr_close_braces] in H; [by injection H as <- <-| |by injection H as <- <-].
  apply bind_ok in H as (e & He & H). apply get_const_ok in He. apply IH in H as (? & ? & Ht). rewrite len_cons.
  split; [lia|]. split; [lia|]. intros ss js Hs. by apply tree_after_right, Ht.
Qed.

Lemma next_branch_ok expr bs expr' bs' : tr_next_branch expr bs = Ok (expr', bs') → head bs ≠ Some true →
  len bs' = len bs ∧ (length expr' <= length expr)%nat ∧
  (bs' = [] → tree_after bs [] []) ∧ (bs' ≠ [] → ∀ ss js, tree_at bs' ss js → tree_after bs ss js).
Proof.
  destruct bs as [|[] bs]; cbn [tr_next_branch]; intros H Hh; try done.
  - injection H as <- <-. split_and!; try done. intros _. constructor.
  - apply bind_ok in H as (e & He & H). injection H as <- <-. apply get_const_ok in He. split; [done|]. split; [lia|].
    split; [done|]. intros _ ss js Hs. by apply tree_after_left.
Qed.

Lemma close_braces_head expr bs expr' bs' : tr_close_braces expr bs = Ok (expr', bs') → head bs' ≠ Some true.
Proof.
  revert expr. induction bs as [|[] bs IH]; intros expr H; cbn [tr_close_braces] in H; [by injection H as <- <-| |by injection H as <- <-].
  apply bind_ok in H as (e & _ & H). by eapply IH.
Qed.

Section accepted_tree.
Context (parse_leaf : pystr → Z → result (Descriptor * Z)).
Hypothesis parse_leaf_ok : ∀ s idx d idx', parse_leaf s idx = Ok (d, idx') →
  is_pk d ∧ Forall pp_made (desc_pubkeys d) ∧ numbered idx (desc_pubkeys d) ∧ idx' = idx + 1.

Lemma tr_scripts_ok fuel expr bs idx m subs depths idx' : tr_scripts parse_leaf fuel expr bs idx m = Ok (subs, depths, idx') →
  len bs <= MAX_TAPROOT_NODES →
  let keys := concat (map desc_pubkeys subs) in
  tree_at bs subs depths ∧ Forall (λ j, j <= MAX_TAPROOT_NODES) depths ∧ Forall is_pk subs ∧
  Forall pp_made keys ∧ numbered idx keys ∧ idx' = idx + len keys ∧ ∃ n, multipath_seen n m ∧ multipath_agree n keys.
Proof.
  revert expr bs idx m subs depths. induction fuel as [|fuel IH]; intros expr bs idx m subs depths H Hb; [done|]. cbn [tr_scripts] in H.
  apply bind_ok in H as ([e1 b1] & H1 & H). apply open_braces_ok in H1 as (Hb1 & _ & Hopen); [|done].
  destruct (_get_expr e1) as [sarg e2]. apply bind_ok in H as ([d i1] & Hd & H). apply parse_leaf_ok in Hd as (Hpk & Hmade & Hnum & ->).
  apply bind_ok in H as (m1 & Hm & H). apply bind_ok in H as ([e3 b3] & H3 & H). apply bind_ok in H as ([e4 b4] & H4 & H).
  pose proof (close_braces_head _ _ _ _ H3) as Hh. apply close_braces_ok in H3 as (Hb3 & _ & Hclose).
  apply next_branch_ok in H4 as (Hb4 & _ & Hend & Hnext); [|done].
  assert (∃ p, desc_pubkeys d = [p]) as (p & Ep) by (destruct d; try done; by eexists). rewrite Ep in *. cbn [foldl] in Hm. rewrite bind_Ok in Hm.
  assert (∀ ss js, tree_after b1 ss js → tree_at bs (d :: ss) (len b1 :: js)) as Hleaf.
  { intros ss js Hs. apply Hopen. exact (tree_at_intro b1 (Leaf d) ss js Hs). }
  destruct b4 as [|b b4].
  - injection H as <- <- <-. cbn [map concat]. rewrite Ep. cbn [app]. split; [by apply Hleaf, Hclose, Hend|]. split; [by repeat constructor|].
    split; [by repeat constructor|]. split; [done|]. split; [done|]. split; [done|].
    destruct (seen_some m1) as [n Hn]. exists n. destruct (join_multipath_ok n m p m1 Hm Hn). split; [done|by repeat constructor].
  - apply bind_ok in H as ([[s j] i] & Hs & H). injection H as <- <- <-. apply IH in Hs; [|lia].
    destruct Hs as (Ht & Hj & Hps & Hms & Hns & -> & n & Hn & Ha). destruct (join_multipath_ok n m p m1 Hm Hn) as [Hn' Hap].
    cbn [map concat]. rewrite Ep. cbn [app]. rewrite len_cons. apply Forall_cons_1 in Hmade as [Hmp _]. apply numbered_cons in Hnum as [Hi _].
    split; [by apply Hleaf, Hclose, Hnext|]. split; [by constructor|]. split; [by constructor|]. split; [by constructor|].
    split; [by apply numbered_cons|]. split; [lia|]. exists n. split; [done|by constructor].
Qed.
End accepted_tree.

Lemma single_ok make expr idx d i : parse_single make expr idx = Ok (d, i) →
  ∃ p, d = make p ∧ pp_made p ∧ pp_expr_index p = idx ∧ i = idx + 1.
Proof.
  unfold parse_single. intros H. apply bind_ok in H as ([[p rest] i'] & Hp & H). apply parse_pubkey_ok in Hp as (? & ? & -> & _).
  destruct rest; [|done]. injection H as <- <-. by exists p.
Qed.

Lemma multi_ok is_sorted expr ctx idx d i : ctx ≠ P2TR → parse_multi is_sorted expr ctx idx = Ok (d, i) →
  desc_valid ctx d ∧ Forall pp_made (get_pubkey_providers d) ∧ numbered idx (get_pubkey_providers d) ∧
  i = idx + len (get_pubkey_providers d).
Proof.
  unfold parse_multi. intros Hc H. apply bind_ok in H as (comma & _ & H). apply bind_ok in H as (thresh & _ & H).
  apply bind_ok in H as ([ps i'] & Hk & H). apply multi_keys_ok in Hk as (-> & Hn & Hm & n & _ & Ha). pose proof (len_nonneg ps).
  destruct (Z.eqb_spec (len ps) 0), (Z.ltb_spec 16 (len ps)), (Z.ltb_spec thresh 1), (Z.ltb_spec (len ps) thresh); try done.
  destruct (bool_decide (ctx = TOP) && (3 <? len ps)) eqn:E3; [done|]. injection H as <- <-.
  cbn [desc_valid get_pubkey_providers desc_pubkeys]. split_and!; try done; try lia.
  - intros ->. rewrite bool_decide_eq_true_2 in E3 by done. cbn [andb] in E3. lia.
  - by exists n.
Qed.

Lemma tr_ok parse_leaf expr idx d i :
  (∀ s idx d idx', parse_leaf s idx = Ok (d, idx') →
    is_pk d ∧ Forall pp_made (desc_pubkeys d) ∧ numbered idx (desc_pubkeys d) ∧ idx' = idx + 1) →
  parse_tr parse_leaf expr idx = Ok (d, i) →
  desc_valid TOP d ∧ Forall pp_made (get_pubkey_providers d) ∧ numbered idx (get_pubkey_providers d) ∧
  i = idx + len (get_pubkey_providers d).
Proof.
  intros Hleaf. unfold parse_tr. intros H. apply bind_ok in H as ([[k e] i1] & Hk & H).
  apply parse_pubkey_ok in Hk as (Hmk & <- & -> & _). set (m := if 1 <? _ then _ else _) in H.
  assert (∀ n, multipath_seen n m → 1 < pp_multipath_len k → pp_multipath_len k = n) as Hseen.
  { intros n Hs Hl. unfold m in Hs. rewrite (proj2 (Z.ltb_lt 1 _)) in Hs by done. by destruct Hs as [|[= ->]]. }
  destruct e as [|c e].
  - injection H as <- <-. cbn. split.
    + split; [done|]. split; [done|]. split; [|by left]. exists (pp_multipath_len k). by constructor.
    + split; [by repeat constructor|]. split; [by apply numbered_cons|done].
  - apply bind_ok in H as ([[subs depths] i'] & Hs & H). injection H as <- <-.
    apply (tr_scripts_ok parse_leaf Hleaf) in Hs; [|done]. destruct Hs as (Ht & Hj & Hp & Hm & Hn & -> & n & Hsn & Ha).
    cbn [desc_valid get_pubkey_providers]. rewrite leaf_providers, len_cons by done. split.
    + split; [done|]. split; [done|]. split; [exists n; constructor; [by apply Hseen|done]|]. right.
      inversion Ht as [bs t ss js Haf]; subst. inversion Haf; subst. rewrite !app_nil_r in *. exists t. split; [done|]. split; [done|].
      by apply (height_depths 0).
    + split; [by constructor|]. split; [by apply numbered_cons|]. lia.
Qed.

Lemma guard_ok {A} (P : Prop) `{Decision P} (r : result A) x :
  (if negb (bool_decide P) then Err ValueError else r) = Ok x → P ∧ r = Ok x.
Proof. by case_bool_decide. Qed.

Lemma guard_not_ok {A} (ctx c : _ParseDescriptorContext) (r : result A) x :
  (if bool_decide (ctx ≠ c) then Err ValueError else r) = Ok x → ctx = c ∧ r = Ok x.
Proof. destruct (decide (ctx = c)) as [->|Hne]; [rewrite bool_decide_eq_false_2 by tauto; done|by rewrite bool_decide_eq_true_2]. Qed.

Lemma _parse_descriptor_ok fuel s ctx idx d i : _parse_descriptor fuel s ctx idx = Ok (d, i) →
  desc_valid ctx d ∧ Forall pp_made (get_pubkey_providers d) ∧ numbered idx (get_pubkey_providers d) ∧
  i = idx + len (get_pubkey_providers d).
Proof.
  revert s ctx idx d i. induction fuel as [|fuel IH]; intros s ctx idx d i H; [done|]. cbn [_parse_descriptor] in H.
  apply bind_ok in H as ([func expr] & _ & H).
  assert (∀ make : PubkeyProvider → Descriptor, (∀ p, desc_valid ctx (make p) ∧ get_pubkey_providers (make p) = [p]) →
    parse_single make expr idx = Ok (d, i) →
    desc_valid ctx d ∧ Forall pp_made (get_pubkey_providers d) ∧ numbered idx (get_pubkey_providers d) ∧
    i = idx + len (get_pubkey_providers d)) as Hsingle.
  { intros make Hmake Hp. apply single_ok in Hp as (p & -> & ? & ? & ->). destruct (Hmake p) as [? ->].
    split; [done|]. split; [by constructor|]. split; [by apply numbered_cons|done]. }
  case_bool_decide; [by apply (Hsingle PKDescriptor)|].
  case_bool_decide.
  { apply guard_ok in H as [Hc H]. apply (Hsingle PKHDescriptor); [|done]. intros p. split; [|done]. cbn. intros ->. set_solver. }
  destruct (bool_decide (func = _) || bool_decide (func = _)).
  { apply guard_ok in H as [Hc H]. apply multi_ok in H; [done|]. intros ->. set_solver. }
  case_bool_decide.
  { apply guard_ok in H as [Hc H]. apply (Hsingle WPKHDescriptor); [|done]. intros p. split; [|done]. cbn. set_solver. }
  case_bool_decide.
  { apply guard_not_ok in H as [-> H]. apply bind_ok in H as ([sub i'] & Hs & H). injection H as <- <-.
    apply IH in Hs as (? & ? & ? & ->). by split_and!. }
  case_bool_decide.
  { apply guard_ok in H as [Hc H]. apply bind_ok in H as ([sub i'] & Hs & H). injection H as <- <-.
    apply IH in Hs as (? & ? & ? & ->). split_and!; try done. split; [set_solver|done]. }
  case_bool_decide; [|done]. apply guard_not_ok in H as [-> H].
  apply tr_ok in H; [done|]. intros s' idx' d' i' Hd. apply IH in Hd as (Hv & Hm & Hn & Hi).
  destruct d'; cbn [desc_valid] in Hv; [by split_and!|exfalso; naive_solver..].
Qed.

(** ** The fuel is enough *)

Lemma nf_unhexlify s : no_fuel_error (unhexlify s).
Proof.
  enough (∀ n s, (length s <= n)%nat → no_fuel_error (unhexlify s)) as H by (by eapply H).
  induction n as [|n IH]; intros [|c1 [|c2 r]] Hn; try done; [simpl in Hn; lia|].
  cbn [unhexlify]. destruct (hex_val c1), (hex_val c2); try done. apply nf_bind; [apply IH; simpl in Hn; lia|done].
Qed.

Lemma nf_nth_py {A} (l : list A) i : no_fuel_error (nth_py l i).
Proof. by apply nf_option. Qed.

Lemma nf_int_str s : no_fuel_error (int_str s).
Proof. intros H. by apply ove_int_str in H. Qed.

Lemma nf_parse_multipath s : no_fuel_error (parse_multipath s).
Proof. intros H. by apply ove__parse_path in H. Qed.

Lemma nf_parse_path s : no_fuel_error (parse_path s).
Proof.
  apply nf_bind; [intros H; by apply ove__parse_path in H|]. intros p. apply nf_mapR. intros. apply nf_nth_py.
Qed.

#[local] Hint Resolve nf_unhexlify nf_nth_py nf_int_str nf_parse_multipath nf_parse_path : safe.

Lemma nf_base58_decode s : no_fuel_error (Base58.decode s).
Proof.
  assert (∀ s n, no_fuel_error (Base58.decode_int s n)) as Hi.
  { induction s0 as [|c r IH]; intros n; [done|]. cbn [Base58.decode_int]. apply nf_bind; [by apply nf_option|]. intros d. apply IH. }
  unfold Base58.decode. destruct s; [done|]. apply nf_bind; [apply Hi|]. intros n. apply nf_bind; [apply nf_unhexlify|done].
Qed.

Lemma nf_extkey_deserialize s : no_fuel_error (ExtendedKey_deserialize s).
Proof.
  apply nf_bind; [apply nf_base58_decode|]. intros d. unfold ExtendedKey_from_bytes. cbv zeta.
  destruct (negb _); [done|]. apply nf_bind; [apply nf_nth_py|]. intros dp. apply nf_bind; [|intros c].
  { unfold unpack_u_be. by destruct (_ =? _)%nat. }
  destruct (_ || _); [|done]. apply nf_bind; [|done]. generalize (point_mul G (be_int (drop 46 (slice_to_neg 4 d)))). intros [[x y]|]; [|done].
  unfold point_to_bytes, to_bytes_be. by destruct (_ && _).
Qed.

Lemma nf_pubkey_parse s idx : no_fuel_error (PubkeyProvider_parse s idx).
Proof.
  assert (∀ o pk dp i r, no_fuel_error (PubkeyProvider_init o pk dp i r)) as Hi.
  { intros. unfold PubkeyProvider_init. apply nf_bind; [|done]. destruct (unhexlify pk); [done|].
    apply nf_bind; [apply nf_extkey_deserialize|done]. }
  apply nf_bind.
  - unfold parse_origin, KeyOriginInfo_from_string. cbv zeta. safe_solve.
  - intros [o r]. destruct (find_char (chr 47) r); [|apply Hi]. apply nf_bind; [|intros; apply Hi].
    safe_solve.
Qed.

Lemma nf_parse_pubkey expr idx : no_fuel_error (parse_pubkey expr idx).
Proof. unfold parse_pubkey. destruct (find_char (chr 44) expr); (apply nf_bind; [apply nf_pubkey_parse|done]). Qed.

Lemma nf_join_multipath m p : no_fuel_error (join_multipath m p).
Proof. unfold join_multipath. safe_solve. Qed.

#[local] Hint Resolve nf_parse_pubkey nf_join_multipath : safe.

Lemma nf_multi_keys fuel expr idx m : (length expr <= fuel)%nat → no_fuel_error (multi_keys fuel expr idx m).
Proof.
  revert expr idx m. induction fuel as [|fuel IH]; intros [|c s] idx m Hf; try done; [simpl in Hf; lia|].
  cbn [multi_keys]. intros H. destruct (parse_pubkey (c :: s) idx) as [[[p e] i]|e] eqn:E; rewrite ?bind_Ok in H; cbv iota beta in H.
  - apply parse_pubkey_ok in E as (_ & _ & _ & Hl). revert H. apply nf_bind; [apply nf_join_multipath|]. intros m'.
    apply nf_bind; [apply IH; lia|]. by intros [].
  - injection H as ->. by apply nf_parse_pubkey in E.
Qed.

(** What is skipped and the rest make up the text. *)
Lemma get_expr_app s level a b : get_expr_loop s level = (a, b) → s = a ++ b.
Proof.
  revert level a b. induction s as [|c s IH]; intros level a b H; [by injection H as <- <-|]. cbn [get_expr_loop] in H.
  assert (∀ l, (λ '(x, y), (c :: x, y)) (get_expr_loop s l) = (a, b) → c :: s = a ++ b) as Hc.
  { intros l Hx. destruct (get_expr_loop s l) as [x y] eqn:E. injection Hx as <- <-. apply IH in E as ->. done. }
  destruct (bool_decide (c ∈ $"({")); [by eapply Hc|]. destruct (_ && _); [by eapply Hc|].
  destruct (_ && _); [|by eapply Hc]. by injection H as <- <-.
Qed.

Lemma nf_close_braces expr bs : no_fuel_error (tr_close_braces expr bs).
Proof. revert expr. induction bs as [|[] bs IH]; intros expr; try done. cbn [tr_close_braces]. unfold _get_const. safe_solve; apply IH. Qed.

Lemma nf_next_branch expr bs : no_fuel_error (tr_next_branch expr bs).
Proof. unfold tr_next_branch, _get_const. safe_solve. Qed.

Lemma nf_open_braces expr bs : no_fuel_error (tr_open_braces expr bs).
Proof. revert bs. induction expr as [|c r IH]; intros bs; [done|]. cbn [tr_open_braces]. safe_solve; apply IH. Qed.

Lemma nf_join_all ps m : no_fuel_error m → no_fuel_error (foldl (λ m p, m ← m; join_multipath m p) m ps).
Proof. revert m. induction ps as [|p ps IH]; intros m Hm; [done|]. cbn [foldl]. apply IH, nf_bind; [done|]. intros. apply nf_join_multipath. Qed.

#[local] Hint Resolve nf_close_braces nf_next_branch : safe.

(** Every leaf takes something away, since no leaf is empty. *)
Lemma nf_tr_scripts parse_leaf fuel expr bs idx m :
  (∀ s i, no_fuel_error (parse_leaf s i)) → (∀ i r, parse_leaf [] i ≠ Ok r) →
  (length expr < fuel)%nat → no_fuel_error (tr_scripts parse_leaf fuel expr bs idx m).
Proof.
  intros Hnf Hne. revert expr bs idx m. induction fuel as [|fuel IH]; intros expr bs idx m Hf; [lia|]. cbn [tr_scripts].
  destruct (tr_open_braces expr bs) as [[e1 bs1]|x] eqn:E1; [|intros [= ->]; by apply nf_open_braces in E1].
  rewrite bind_Ok. assert (length e1 <= length expr)%nat as L1.
  { clear -E1. revert bs E1. induction expr as [|c r IHr]; intros bs E1; [done|]. cbn [tr_open_braces] in E1.
    case_bool_decide; [|by injection E1 as <- <-]. destruct (_ <? _); [done|]. apply IHr in E1. simpl. lia. }
  destruct (_get_expr e1) as [sarg e2] eqn:E2. apply get_expr_app in E2 as ->. rewrite length_app in L1.
  destruct (parse_leaf sarg idx) as [[d i]|x] eqn:E3; [|intros [= ->]; by apply Hnf in E3]. rewrite bind_Ok.
  destruct sarg as [|c sarg]; [by apply Hne in E3|]. simpl in L1.
  apply nf_bind; [by apply nf_join_all|]. intros m'. cbv zeta.
  destruct (tr_close_braces e2 bs1) as [[e3 bs3]|x] eqn:E4; [|intros [= ->]; by apply nf_close_braces in E4].
  rewrite bind_Ok. pose proof (proj1 (proj2 (close_braces_ok _ _ _ _ E4))) as L3.
  destruct (tr_next_branch e3 bs3) as [[e4 bs4]|x] eqn:E5; [|intros [= ->]; by apply nf_next_branch in E5].
  rewrite bind_Ok. pose proof (proj1 (proj2 (next_branch_ok _ _ _ _ E5 (close_braces_head _ _ _ _ E4)))) as L4.
  destruct bs4; [done|]. apply nf_bind; [apply IH; lia|]. by intros [[]].
Qed.

Lemma parse_empty fuel ctx i r : _parse_descriptor fuel [] ctx i ≠ Ok r.
Proof. by destruct fuel. Qed.

Lemma nf__parse_descriptor fuel s ctx idx : (ctx_levels ctx <= fuel)%nat → no_fuel_error (_parse_descriptor fuel s ctx idx).
Proof.
  revert s ctx idx. induction fuel as [|fuel IH]; intros s ctx idx Hf; [by destruct ctx; simpl in Hf; lia|]. cbn [_parse_descriptor].
  apply nf_bind; [unfold _get_func_expr; safe_solve|]. intros [func expr].
  assert (∀ make, no_fuel_error (parse_single make expr idx)) as Hs by (intros; unfold parse_single; safe_solve).
  assert (∀ b, no_fuel_error (parse_multi b expr ctx idx)) as Hm.
  { intros b. unfold parse_multi. apply nf_bind; [by apply nf_option|]. intros comma. apply nf_bind; [auto with safe|]. intros t.
    cbv zeta. apply nf_bind; [apply nf_multi_keys; lia|]. intros [ps i]. safe_solve. }
  assert (∀ b r, no_fuel_error r → no_fuel_error (if b : bool then Err ValueError else r : result (Descriptor * Z))) as Hg
    by (by intros []).
  case_bool_decide; [apply Hs|]. case_bool_decide; [apply Hg, Hs|]. destruct (_ || _); [apply Hg, Hm|].
  case_bool_decide; [apply Hg, Hs|].
  case_bool_decide.
  { case_bool_decide as Hc; [done|]. apply nf_bind; [|by intros []]. apply IH. subst ctx. simpl in *. lia. }
  case_bool_decide.
  { case_bool_decide as Hc; [|done]. cbn [negb]. apply nf_bind; [|by intros []]. apply IH.
    rewrite !elem_of_cons, elem_of_nil in Hc. destruct Hc as [-> |[-> |[]]]; simpl in *; lia. }
  case_bool_decide; [|done]. case_bool_decide as Hc; [done|]. unfold parse_tr. apply nf_bind; [apply nf_parse_pubkey|].
  intros [[k e] i]. cbv zeta. destruct e; [done|]. apply nf_bind; [|by intros [[]]]. apply nf_tr_scripts; [|intros; apply parse_empty|lia].
  intros s' i'. apply IH. subst ctx. simpl in *. lia.
Qed.

(** ** Deriving *)

Lemma mapR_ok_Forall2 {A B} (f : A → result B) l r : mapR f l = Ok r → Forall2 (λ x y, f x = Ok y) l r.
Proof.
  revert r. induction l as [|x l IH]; intros r H; cbn [mapR] in H; [injection H as <-; constructor|].
  apply bind_ok in H as (y & Hy & H). apply bind_ok in H as (s & Hs & H). injection H as <-. constructor; [done|by apply IH].
Qed.

Definition derived (pos i : Z) (p q : PubkeyProvider) : Prop := derive_pubkey pos i p = Ok q.

(** Only the keys change, and each by [derive_pubkey]. *)
Lemma derive_shape pos i ctx d d' : desc_valid ctx d → derive pos i d = Ok d' →
  Forall2 (derived pos i) (get_pubkey_providers d) (get_pubkey_providers d') ∧
  get_address_type d' = get_address_type d ∧ desc_name d' = desc_name d.
Proof.
  revert ctx d'. induction d; intros ctx d' Hv H; cbn [derive] in H.
  1-3: apply bind_ok in H as (k & Hk & H); injection H as <-; by repeat constructor.
  - apply bind_ok in H as (ks & Hk & H). injection H as <-. split; [|done]. by apply mapR_ok_Forall2.
  - apply bind_ok in H as (s & Hs & H). injection H as <-. destruct Hv as [_ Hv]. destruct (IHd _ _ Hv Hs) as (? & Ha & _).
    split; [done|]. cbn [get_address_type]. by rewrite Ha.
  - apply bind_ok in H as (s & Hs & H). injection H as <-. destruct Hv as [_ Hv]. by destruct (IHd _ _ Hv Hs) as (? & _ & _).
  - apply bind_ok in H as (k & Hk & H). apply bind_ok in H as (ss & Hs & H). injection H as <-. split; [|done].
    constructor; [done|]. destruct Hv as (_ & Hpk & _). clear -Hpk Hs. revert ss Hs.
    induction Hpk as [|x l Hx Hl IH]; intros ss Hs; [injection Hs as <-; constructor|].
    apply bind_ok in Hs as (y & Hy & Hs). apply bind_ok in Hs as (r & Hr & Hs). injection Hs as <-. destruct x; try done.
    apply bind_ok in Hy as (q & Hq & Hy). injection Hy as <-. cbn [map concat get_pubkey_providers desc_pubkeys app].
    constructor; [done|]. by apply IH.
Qed.

(** * Properties *)

(** The keys and descriptors of the witnesses: hexadecimal keys, one with an origin. *)
Definition example_origin : KeyOriginInfo := {| fingerprint := map chr [0x76; 0x22; 0x3a; 0x6f]; path := [2147483732; 0] |}.
Definition example_pp (i : Z) (o : option KeyOriginInfo) : PubkeyProvider :=
  {| pp_origin := o; pp_pubkey := $"02c97dc3f4420402e01a113984311bf4a1b8de376cac0bdcfaf1b3ac81f13433c7";
     pp_deriv_path := None; pp_expr_index := i; pp_ranged := false; pp_multipath_len := 1; pp_extkey := None |}.
Definition example_tr : Descriptor :=
  TRDescriptor (example_pp 0 (Some example_origin)) [PKDescriptor (example_pp 1 None); PKDescriptor (example_pp 2 None); PKDescriptor (example_pp 3 None)] [1; 2; 2].
Definition example_sh : Descriptor :=
  SHDescriptor (WSHDescriptor (MultisigDescriptor [example_pp 0 (Some example_origin); example_pp 1 None] 2 true)).

Lemma example_wf : desc_wf example_tr ∧ desc_wf example_sh.
Proof.
  assert (∀ i o, o = None ∨ o = Some example_origin → pp_wf (example_pp i o)) as Hk.
  { intros i o Ho. split; [|by destruct Ho as [-> | ->]; (split; [done || (split; [done|repeat constructor; done])|])].
    destruct Ho as [-> | ->]; vm_compute; reflexivity. }
  split; (split; [|split; [repeat first [apply Forall_nil_2|apply Forall_cons_2; [by apply Hk; auto|]]|vm_compute; reflexivity]]).
  - split; [done|]. split; [repeat constructor|]. split; [exists 1; repeat constructor; intros ?; done|].
    right. exists (Branch (Leaf (PKDescriptor (example_pp 1 None))) (Branch (Leaf (PKDescriptor (example_pp 2 None))) (Leaf (PKDescriptor (example_pp 3 None))))).
    done.
  - split; [done|]. split; [by right|]. split; [done|]. split; [done|]. split; [done|]. split; [done|]. exists 1. repeat constructor; intros ?; done.
Qed.

(** A well-formed descriptor and its two strings. *)
Lemma desc_strings_parse (hc : pystr) (d : Descriptor) (Hm : marker hc) (Hwf : desc_wf d) :
  ∃ s, to_string_no_checksum hc d = Ok s ∧ parse_descriptor s = Ok d ∧
    to_string hc d = Ok (AddChecksum s) ∧ parse_descriptor (AddChecksum s) = Ok d.
Proof.
  destruct Hwf as (Hv & Hp & Hn). destruct (desc_print_parse hc d TOP 0 Hm Hv Hp Hn) as (s & Es & Hc & Hparse).
  exists s. assert (chr 35 ∉ s) as Hs by (by eapply all_chars_not). specialize (Hparse 3%nat ltac:(simpl; lia)).
  split; [done|]. split; [|split].
  - unfold parse_descriptor. by rewrite (proj2 (find_char_None _ _) Hs), bind_Ok, Hparse, bind_Ok.
  - unfold to_string. by rewrite Es.
  - unfold parse_descriptor, AddChecksum. change ($"#" ++ ?x) with (chr 35 :: x). rewrite find_char_app by done.
    rewrite take_app_exact, (cons_middle (chr 35)), app_assoc, drop_app_exact by (done || (rewrite length_app; simpl; lia)).
    by rewrite bool_decide_eq_false_2, bind_Ok, Hparse, bind_Ok by tauto.
Qed.

(** C1: a well-formed descriptor, however its script tree branches, prints with either hardened marker to
    a text that is parsed back to it, with its checksum or without. *)
Theorem descriptor_roundtrip (hc : pystr) (d : Descriptor) (Hm : marker hc) (Hwf : desc_wf d) :
  ∃ s, to_string_no_checksum hc d = Ok s ∧ parse_descriptor s = Ok d ∧
    to_string hc d = Ok (AddChecksum s) ∧ parse_descriptor (AddChecksum s) = Ok d.
Proof. exact (desc_strings_parse hc d Hm Hwf). Qed.

Lemma descriptor_roundtrip_witness :
  (∃ s, to_string $"h" example_tr = Ok s ∧ parse_descriptor s = Ok example_tr) ∧
  (∃ s, to_string $"'" example_sh = Ok s ∧ parse_descriptor s = Ok example_sh).
Proof.
  destruct example_wf as [H1 H2]. split.
  - destruct (descriptor_roundtrip $"h" example_tr ltac:(by left) H1) as (s & _ & _ & ? & ?). by exists (AddChecksum s).
  - destruct (descriptor_roundtrip $"'" example_sh ltac:(by right) H2) as (s & _ & _ & ? & ?). by exists (AddChecksum s).
Defined.

Lemma parse_descriptor_ok (s : pystr) (d : Descriptor) (H : parse_descriptor s = Ok d) :
  desc_valid TOP d ∧ Forall pp_made (get_pubkey_providers d) ∧ numbered 0 (get_pubkey_providers d).
Proof.
  unfold parse_descriptor in H. apply bind_ok in H as (s' & _ & H). apply bind_ok in H as ([d' i] & Hd & H).
  injection H as ->. by apply _parse_descriptor_ok in Hd as (? & ? & ? & _).
Qed.

(** C2: whatever the parser accepts is a script that is allowed where it stands, with the bounds
    on multisigs and on the depth of script trees respected and the depths those of a binary tree; its
    keys are numbered from 0 in the order of the text, and each has the extended key its text encodes. *)
Theorem parse_descriptor_accepts (s : pystr) (d : Descriptor) (H : parse_descriptor s = Ok d) :
  desc_valid TOP d ∧ Forall pp_made (get_pubkey_providers d) ∧ numbered 0 (get_pubkey_providers d).
Proof. exact (parse_descriptor_ok s d H). Qed.

Definition example_tr_string : pystr :=
  let k := $"02c97dc3f4420402e01a113984311bf4a1b8de376cac0bdcfaf1b3ac81f13433c7" in
  $"tr([76223a6f/84h/0]" ++ k ++ $",{pk(" ++ k ++ $"),{pk(" ++ k ++ $"),pk(" ++ k ++ $")}})".

Lemma parse_descriptor_accepts_witness : desc_valid TOP example_tr.
Proof. apply (parse_descriptor_accepts example_tr_string). vm_compute. reflexivity. Defined.

(** C4: parsing a text returns, whatever the text: the scripts nest at most three deep, every round of
    the loops over keys and leaves takes at least one character away, so the bounds the model puts on
    them are never reached. *)
Theorem parse_descriptor_terminates (s : pystr) : parse_descriptor s ≠ Err OutOfFuel.
Proof.
  change (no_fuel_error (parse_descriptor s)). unfold parse_descriptor. apply nf_bind.
  - destruct (find_char (chr 35) s); [|done]. cbv zeta. by destruct (bool_decide _).
  - intros desc. apply nf_bind; [apply nf__parse_descriptor; simpl; lia|]. by intros [].
Qed.

(** C3: a descriptor whose checksum is not that of the text before it is refused; in particular a
    checksummed descriptor with one character of its text replaced by any other. *)
Theorem checksum_detects_substitution (s1 s2 : pystr) (a b : byte)
    (Hs : Forall (λ x, x ∈ INPUT_CHARSET ∧ x ≠ chr 35) (s1 ++ a :: s2)) (Hb : b ≠ a) (Hb35 : b ≠ chr 35) :
  (∀ c, c ≠ DescriptorChecksum (s1 ++ a :: s2) → parse_descriptor ((s1 ++ a :: s2) ++ $"#" ++ c) = Err ValueError) ∧
  parse_descriptor ((s1 ++ b :: s2) ++ $"#" ++ DescriptorChecksum (s1 ++ a :: s2)) = Err ValueError.
Proof.
  assert (∀ s c, chr 35 ∉ s → c ≠ DescriptorChecksum s → parse_descriptor (s ++ $"#" ++ c) = Err ValueError) as Hw.
  { intros s c Hn Hc. unfold parse_descriptor. change ($"#" ++ c) with (chr 35 :: c). rewrite find_char_app by done.
    rewrite take_app_exact, (cons_middle (chr 35)), app_assoc, drop_app_exact by (done || (rewrite length_app; simpl; lia)).
    by rewrite bool_decide_eq_true_2 by done. }
  assert (chr 35 ∉ s1 ++ a :: s2) as Hn by (intros Hin; rewrite Forall_forall in Hs; by apply Hs in Hin as [_ ?]).
  split; [by intros; apply Hw|]. apply Hw.
  - rewrite elem_of_app, elem_of_cons in *. intros [?|[?|?]]; [|by subst|]; tauto.
  - apply not_eq_sym. intros E. symmetry in E. revert E. apply checksum_differs; [done|]. eapply Forall_impl; [exact Hs|]. by intros x [? _].
Qed.

Lemma checksum_detects_substitution_witness :
  parse_descriptor ($"pkh(02c97dc3f4420402e01a113984311bf4a1b8de376cac0bdcfaf1b3ac81f13433c8)#" ++
    DescriptorChecksum $"pkh(02c97dc3f4420402e01a113984311bf4a1b8de376cac0bdcfaf1b3ac81f13433c7)") = Err ValueError.
Proof.
  apply (checksum_detects_substitution $"pkh(02c97dc3f4420402e01a113984311bf4a1b8de376cac0bdcfaf1b3ac81f13433c" $")" (chr 55) (chr 56)); [|done..].
  apply (bool_decide_unpack _). vm_compute. exact I.
Defined.

(** Deriving a descriptor at an address index keeps its scripts and gives one without wildcards
    and multipath steps, which has for every key, at whatever position it is asked, the public key that the
    original has at that index (for keys with derivation steps before their wildcard, or without one). *)
Theorem derive_selects_keys `{Hashes} `{HmacSha512} (pos i : Z) (d d' : Descriptor)
    (Hd : desc_valid TOP d) (Hr : derive pos i d = Ok d') :
  get_address_type d' = get_address_type d ∧
  Forall2 (λ p q, pp_ranged q = false ∧ pp_multipath_len q = 1 ∧ pp_expr_index q = pp_expr_index p ∧
    ∀ pos' i', get_deriv_path pos' i' q = get_deriv_path pos i p ∧
      (is_Some (pp_deriv_path p) ∨ pp_ranged p = false → get_pubkey_bytes pos' i' q = get_pubkey_bytes pos i p))
    (get_pubkey_providers d) (get_pubkey_providers d').
Proof.
  destruct (derive_shape pos i TOP d d' Hd Hr) as (Hk & Ha & _). split; [done|].
  eapply Forall2_impl; [exact Hk|]. intros p q Hq. unfold derived in Hq. split; [by apply (derive_pubkey_path pos i p q 0 0)|].
  pose proof Hq as Hq2. unfold derive_pubkey in Hq2. apply bind_ok in Hq2 as (path & _ & Hq2). split; [by injection Hq2 as <-|].
  split; [by injection Hq2 as <-|]. intros pos' i'. split; [by apply derive_pubkey_path|]. intros Hx. by apply derive_pubkey_bytes.
Qed.

Lemma derive_selects_keys_witness :
  let p := {| pp_origin := None; pp_pubkey := []; pp_deriv_path := Some [[0; 1]]; pp_expr_index := 0;
              pp_ranged := true; pp_multipath_len := 2; pp_extkey := Some example_xpub |} in
  ∃ q, derive 5 1 (SHDescriptor (WPKHDescriptor p)) = Ok (SHDescriptor (WPKHDescriptor q)) ∧
    get_deriv_path 0 0 q = Ok [1; 5] ∧
    get_pubkey_bytes (H := executable_hashes) (H0 := executable_hmac) 0 0 q = get_pubkey_bytes 5 1 p.
Proof.
  intros p. eexists. split; [reflexivity|].
  destruct (derive_selects_keys (H := executable_hashes) (H0 := executable_hmac) 5 1 (SHDescriptor (WPKHDescriptor p))
    _ ltac:(split; [done|by right]) eq_refl) as [_ Hk].
  apply Forall2_cons_1 in Hk as [(_ & _ & _ & Hk) _]. destruct (Hk 0 0) as [Hpath Hbytes]. split; [exact Hpath|].
  apply Hbytes. left. by exists [[0; 1]].
Defined.

(** ** Where the code departs from what it means *)

Definition example_key : pystr := $"02c97dc3f4420402e01a113984311bf4a1b8de376cac0bdcfaf1b3ac81f13433c7".

(** A script behind the script tree of [tr] is dropped, and so is text behind the
    last parenthesis; a key list may end with a comma; an empty argument is an
    [IndexError]. *)
Lemma parse_too_lenient :
  parse_descriptor ($"tr(" ++ example_key ++ $",pk(" ++ example_key ++ $"),pk(" ++ example_key ++ $"))") =
    parse_descriptor ($"tr(" ++ example_key ++ $",pk(" ++ example_key ++ $"))") ∧
  parse_descriptor ($"pkh(" ++ example_key ++ $")junk") = parse_descriptor ($"pkh(" ++ example_key ++ $")") ∧
  parse_descriptor ($"pkh(" ++ example_key ++ $",)") = parse_descriptor ($"pkh(" ++ example_key ++ $")") ∧
  is_ok (parse_descriptor ($"pkh(" ++ example_key ++ $")")) = true ∧
  is_ok (parse_descriptor ($"tr(" ++ example_key ++ $",pk(" ++ example_key ++ $"))")) = true ∧
  parse_descriptor $"pkh()" = Err IndexError.
Proof. split_and!; vm_compute; reflexivity. Qed.
