(* ===== verification/RegDescriptor.v ===== *)
(** * [hwilib/descriptor.py]: registered descriptors

    A descriptor that was registered with a device is kept as text: the base 64
    encoding of its name, the descriptor, the type of the device and what the
    device returned. *)

From S2P Require Import Prelude Bytes Safe PyStd PyStr Common Serialize KeyPath Key DescChecksum PubkeyProvider Descriptor.

Record RegisteredDescriptor := mkRegistered {
  rd_version : Z;
  rd_name : pystr;
  rd_descriptor : Descriptor;
  rd_device_type : pystr;
  rd_registration : bytes;
}.

Definition RegisteredDescriptor_new (name : pystr) (descriptor : Descriptor) (device_type : pystr) (registration : bytes) : RegisteredDescriptor :=
  mkRegistered 1 name descriptor device_type registration.

Definition rdesc_magic : bytes := $"rdesc".

Definition RegisteredDescriptor_serialize (self : RegisteredDescriptor) : result pystr :=
  version ← ser_compact_size (rd_version self);
  name ← ser_string (encode_utf8 (rd_name self));
  d ← to_string $"h" (rd_descriptor self);
  descriptor ← ser_string (encode_utf8 d);
  device_type ← ser_string (encode_utf8 (rd_device_type self));
  registration ← ser_string (rd_registration self);
  Ok (b64encode (rdesc_magic ++ version ++ name ++ descriptor ++ device_type ++ registration)).

(** [deser_string(s).decode()]. *)
Definition deser_text : reader pystr := b ← deser_string; lift (decode_utf8 b).

Definition read_registered : reader RegisteredDescriptor :=
  magic ← read 5;
  lift (raise_if (bool_decide (magic ≠ rdesc_magic)) BadArgumentError);;
  version ← deser_compact_size;
  lift (raise_if (negb (version =? 1)) BadArgumentError);;
  name ← deser_text;
  d ← deser_text;
  descriptor ← lift (parse_descriptor d);
  device_type ← deser_text;
  registration ← deser_string;
  mret (RegisteredDescriptor_new name descriptor device_type registration).

Definition RegisteredDescriptor_deserialize (policy : pystr) : result RegisteredDescriptor :=
  policy_bytes ← b64decode (strip policy);
  (read_registered policy_bytes).1.

(** * Lemmas *)

(** A registration whose parts can be written and whose descriptor is well-formed. *)
Definition registered_wf (r : RegisteredDescriptor) : Prop :=
  rd_version r = 1 ∧ desc_wf (rd_descriptor r) ∧ small (encode_utf8 (rd_name r)) ∧ small (encode_utf8 (rd_device_type r)) ∧
  small (rd_registration r) ∧ ∀ s, to_string $"h" (rd_descriptor r) = Ok s → small (encode_utf8 s).

Lemma reads_text s b : small (encode_utf8 s) → ser_string (encode_utf8 s) = Ok b → reads deser_text b s.
Proof.
  intros Hs Hb. eapply reads_bind_end; [by eapply codec_reads|]. apply reads_lift, decode_encode_utf8.
Qed.

Lemma reads_guard {A} b e (k : reader A) bs a : b = false → reads k bs a → reads (lift (raise_if b e);; k) bs a.
Proof. intros -> Hk. exact Hk. Qed.

Lemma reads_registered r b : registered_wf r →
  (version ← ser_compact_size (rd_version r);
   name ← ser_string (encode_utf8 (rd_name r));
   d ← to_string $"h" (rd_descriptor r);
   descriptor ← ser_string (encode_utf8 d);
   device_type ← ser_string (encode_utf8 (rd_device_type r));
   registration ← ser_string (rd_registration r);
   Ok (version ++ name ++ descriptor ++ device_type ++ registration)) = Ok b → reads read_registered (rdesc_magic ++ b) r.
Proof.
  destruct r as [v name d dt reg]. intros (Hv & Hd & Hn & Ht & Hr & Hs) Hb. cbn [rd_version rd_name rd_descriptor rd_device_type rd_registration] in *. subst v.
  apply bind_ok in Hb as (bv & Hbv & Hb). apply bind_ok in Hb as (bn & Hbn & Hb). apply bind_ok in Hb as (s & Es & Hb).
  apply bind_ok in Hb as (bd & Hbd & Hb). apply bind_ok in Hb as (bt & Hbt & Hb). apply bind_ok in Hb as (br & Hbr & [= <-]).
  destruct (desc_strings_parse $"h" d (or_introl eq_refl) Hd) as (s0 & _ & _ & Es' & Hparse). rewrite Es' in Es. injection Es as <-.
  unfold read_registered. eapply reads_bind; [by apply (reads_read rdesc_magic)|]. apply reads_guard; [by apply bool_decide_eq_false_2; tauto|].
  eapply reads_bind; [by apply reads_compact_size|]. apply reads_guard; [done|].
  eapply reads_bind; [apply reads_text; [exact Hn|exact Hbn]|]. eapply reads_bind; [apply reads_text; [by apply Hs|exact Hbd]|].
  intros rest. rewrite (reader_bind_eval _ _ _ d ((bt ++ br) ++ rest)) by (unfold lift; by rewrite Hparse). revert rest.
  eapply reads_bind; [apply reads_text; [exact Ht|exact Hbt]|]. eapply reads_bind_end; [eapply codec_reads; [exact Hr|exact Hbr]|]. apply reads_ret.
Qed.

Lemma registered_total r : registered_wf r → ∃ b, RegisteredDescriptor_serialize r = Ok (b64encode (rdesc_magic ++ b)) ∧ reads read_registered (rdesc_magic ++ b) r.
Proof.
  intros Hw. pose proof Hw as (Hv & Hd & Hn & Ht & Hr & Hs). unfold RegisteredDescriptor_serialize.
  destruct (desc_strings_parse $"h" _ (or_introl eq_refl) Hd) as (s0 & _ & _ & Es & _). specialize (Hs _ Es).
  destruct (codec_total (ser := ser_string) (deser := deser_string) _ Hn) as [bn Hbn]. destruct (codec_total (ser := ser_string) (deser := deser_string) _ Hs) as [bd Hbd].
  destruct (codec_total (ser := ser_string) (deser := deser_string) _ Ht) as [bt Hbt]. destruct (codec_total (ser := ser_string) (deser := deser_string) _ Hr) as [br Hbr].
  destruct (ser_compact_size_total (rd_version r)) as [bv Hbv]; [rewrite Hv; vm_compute; split; [discriminate|done]|].
  exists (bv ++ bn ++ bd ++ bt ++ br). split.
  - by rewrite Hbv, bind_Ok, Hbn, bind_Ok, Es, bind_Ok, Hbd, bind_Ok, Hbt, bind_Ok, Hbr, bind_Ok.
  - apply reads_registered; [done|]. by rewrite Hbv, bind_Ok, Hbn, bind_Ok, Es, bind_Ok, Hbd, bind_Ok, Hbt, bind_Ok, Hbr, bind_Ok.
Qed.

(** * Properties *)

(** A registration is written as text that is read back to it, whatever white space surrounds the text. *)
Theorem registered_roundtrip (r : RegisteredDescriptor) (pre post : pystr) (Hr : registered_wf r)
    (Hpre : Forall (λ c, is_space c = true) pre) (Hpost : Forall (λ c, is_space c = true) post) :
  ∃ s, RegisteredDescriptor_serialize r = Ok s ∧ RegisteredDescriptor_deserialize (pre ++ s ++ post) = Ok r.
Proof.
  destruct (registered_total r Hr) as (b & Es & Hreads). eexists. split; [exact Es|]. unfold RegisteredDescriptor_deserialize.
  rewrite strip_around by done. rewrite b64decode_b64encode, bind_Ok. by rewrite (reads_whole _ _ _ Hreads).
Qed.

Definition example_registered : RegisteredDescriptor :=
  RegisteredDescriptor_new [chr 0x63; chr 0xE9] example_sh $"ledger" (replicate 32 (chr 7)).

Lemma registered_roundtrip_witness : ∃ s,
  RegisteredDescriptor_serialize example_registered = Ok s ∧
  RegisteredDescriptor_deserialize ($" " ++ s ++ [chr 10]) = Ok example_registered.
Proof.
  apply (registered_roundtrip example_registered $" " [chr 10]).
  - split; [reflexivity|]. split; [apply example_wf|]. split; [vm_compute; discriminate|]. split; [vm_compute; discriminate|].
    split; [vm_compute; discriminate|]. intros s Es. vm_compute in Es. injection Es as <-. vm_compute. discriminate.
  - repeat constructor.
  - repeat constructor.
Defined.
