(* ===== verification/Merkle.v ===== *)
(** * [hwilib/devices/ledger_bitcoin/merkle.py]: dynamic Merkle trees

    The tree is built from node objects that point to their children and to their
    parent and are changed in place, so its nodes live in a heap: a list of
    nodes in which a new object is put at the end.  Nodes never leave the
    [MerkleTree] that made them, which therefore owns its heap. *)

From S2P Require Import Prelude Bytes StateM PyStd PyStr Common Sha256 Serialize.

Definition NIL : bytes := replicate 32 (chr 0).

(** ** Arithmetic *)

(** [while 2 * t <= n]. *)
Fixpoint floor_lg_loop (fuel : nat) (n r t : Z) : result Z :=
  match fuel with
  | O => Err OutOfFuel
  | S fuel => if 2 * t <=? n then floor_lg_loop fuel n (r + 1) (2 * t) else Ok r
  end.

Definition floor_lg (n : Z) : result Z :=
  raise_if (negb (0 <? n)) AssertionError;; floor_lg_loop (S (Z.to_nat (Z.log2_up n))) n 0 1.

(** [while t < n]. *)
Fixpoint ceil_lg_loop (fuel : nat) (n r t : Z) : result Z :=
  match fuel with
  | O => Err OutOfFuel
  | S fuel => if t <? n then ceil_lg_loop fuel n (r + 1) (2 * t) else Ok r
  end.

Definition ceil_lg (n : Z) : result Z :=
  raise_if (negb (0 <? n)) AssertionError;; ceil_lg_loop (S (Z.to_nat (Z.log2_up n))) n 0 1.

(** The numbers of [add]: integers, and the floats that dividing one by 2 makes.
    [PyFloat m e] is [m / 2^e], which a float holds exactly while [m] has at
    most 53 bits. *)
Inductive pynum := PyInt (z : Z) | PyFloat (m e : Z).

Definition num_half (x : pynum) : pynum :=
  match x with PyInt z => PyFloat z 1 | PyFloat m e => PyFloat m (e + 1) end.

Definition num_sub (x y : pynum) : pynum :=
  match x, y with
  | PyInt a, PyInt b => PyInt (a - b)
  | PyInt a, PyFloat m e => PyFloat (a * 2 ^ e - m) e
  | PyFloat m e, PyInt b => PyFloat (m - b * 2 ^ e) e
  | PyFloat m e, PyFloat m' e' => PyFloat (m * 2 ^ e' - m' * 2 ^ e) (e + e')
  end.

(** [n & (n - 1)] is a [TypeError] on floats. *)
Definition is_power_of_2 (n : pynum) : result bool :=
  match n with
  | PyInt z => raise_if (negb (1 <=? z)) AssertionError;; Ok (Z.land z (z - 1) =? 0)
  | PyFloat m e => raise_if (negb (2 ^ e <=? m)) AssertionError;; Err TypeError
  end.

Definition largest_power_of_2_less_than (n : Z) : result Z :=
  raise_if (negb (1 <? n)) AssertionError;;
  b ← is_power_of_2 (PyInt n);
  if b : bool then Ok (n / 2) else l ← floor_lg n; Ok (Z.shiftl 1 l).

(** ** Nodes *)

Abbreviation loc := nat (only parsing).

Record Node := mkNode {
  n_left : option loc;
  n_right : option loc;
  n_parent : option loc;
  n_value : option bytes;
}.

#[export] Instance Node_eq_dec : EqDecision Node.
Proof. solve_decision. Defined.

Abbreviation heap := (list Node).

(** An attribute of [None] is an [AttributeError]. *)
Definition deref (n : option loc) : state heap Node := λ h,
  (of_option AttributeError (n ← n; h !! n), h).

Definition new_node (x : Node) : state heap loc := λ h, (Ok (length h), h ++ [x]).

Definition update_node (n : loc) (f : Node → Node) : state heap () := modify (alter f n).
Definition set_parent (p : option loc) (x : Node) : Node := mkNode (n_left x) (n_right x) p (n_value x).
Definition set_right (r : option loc) (x : Node) : Node := mkNode (n_left x) r (n_parent x) (n_value x).
Definition set_value (v : option bytes) (x : Node) : Node := mkNode (n_left x) (n_right x) (n_parent x) v.

Section merkle.
Context `{Hashes}.

Definition element_hash (element_preimage : bytes) : bytes := sha256 (chr 0 :: element_preimage).

Definition combine_hashes (left right : bytes) : result bytes :=
  if negb (len left =? 32) || negb (len right =? 32) then Err ValueError
  else Ok (sha256 (chr 1 :: left ++ right)).

(** [len] of a value that is still [None] is a [TypeError]. *)
Definition recompute_value (self : loc) : state heap () :=
  node ← deref (Some self);
  assert_ (bool_decide (is_Some (n_left node)));;
  assert_ (bool_decide (is_Some (n_right node)));;
  l ← deref (n_left node);
  r ← deref (n_right node);
  lv ← liftS (of_option TypeError (n_value l));
  rv ← liftS (of_option TypeError (n_value r));
  v ← liftS (combine_hashes lv rv);
  update_node self (set_value (Some v)).

Definition sibling (self : loc) : state heap (option loc) :=
  node ← deref (Some self);
  match n_parent node with
  | None => raise IndexError
  | Some p =>
      parent ← deref (Some p);
      if bool_decide (n_left parent = Some self) then mret (n_right parent)
      else if bool_decide (n_right parent = Some self) then mret (n_left parent)
      else raise IndexError
  end.

(** The recursion is on smaller sizes.  [None] is the empty list that the
    function returns for size 0. *)
Fixpoint make_tree (fuel : nat) (leaves : list loc) (begin size : Z) : state heap (option loc) :=
  match fuel with
  | O => raise OutOfFuel
  | S fuel =>
      if size =? 0 then mret None
      else if size =? 1 then n ← liftS (index_py leaves begin); mret (Some n)
      else
        lchild_size ← liftS (largest_power_of_2_less_than size);
        lchild ← make_tree fuel leaves begin lchild_size;
        rchild ← make_tree fuel leaves (begin + lchild_size) (size - lchild_size);
        root ← new_node (mkNode lchild rchild None None);
        recompute_value root;;
        l ← liftS (of_option AttributeError lchild);
        update_node l (set_parent (Some root));;
        r ← liftS (of_option AttributeError rchild);
        update_node r (set_parent (Some root));;
        mret (Some root)
  end.

(** ** [MerkleTree] *)

Record MerkleTree := mkTree {
  mt_heap : heap;
  mt_leaves : list loc;
  mt_root_node : option loc;
  mt_depth : option Z;
}.

Definition set_heap (h : heap) (t : MerkleTree) : MerkleTree := mkTree h (mt_leaves t) (mt_root_node t) (mt_depth t).
Definition set_leaves (l : list loc) (t : MerkleTree) : MerkleTree := mkTree (mt_heap t) l (mt_root_node t) (mt_depth t).
Definition set_root (r : option loc) (t : MerkleTree) : MerkleTree := mkTree (mt_heap t) (mt_leaves t) r (mt_depth t).
Definition set_depth (d : option Z) (t : MerkleTree) : MerkleTree := mkTree (mt_heap t) (mt_leaves t) (mt_root_node t) d.

Definition on_heap {A} (m : state heap A) : state MerkleTree A := zoom mt_heap set_heap m.

Definition leaf_node (el : bytes) : Node := mkNode None None None (Some el).

Definition MerkleTree_new (elements : list bytes) : result MerkleTree :=
  let leaves := seq 0 (length elements) in
  let h := map leaf_node elements in
  if 0 <? len leaves then
    match make_tree (length leaves) leaves 0 (len leaves) h with
    | (Ok root, h) => d ← ceil_lg (len leaves); Ok (mkTree h leaves root (Some d))
    | (Err e, _) => Err e
    end
  else Ok (mkTree h leaves None None).

Definition mt_len (self : MerkleTree) : Z := len (mt_leaves self).

(** The value of a node; [None] while it has not been computed. *)
Definition value_at (self : MerkleTree) (n : option loc) : result (option bytes) :=
  x ← (deref n (mt_heap self)).1; Ok (n_value x).

Definition root (self : MerkleTree) : result (option bytes) :=
  match mt_root_node self with None => Ok (Some NIL) | Some n => value_at self (Some n) end.

Definition copy (self : MerkleTree) : result MerkleTree :=
  els ← mapR (λ n, v ← value_at self (Some n); of_option TypeError v) (mt_leaves self);
  MerkleTree_new els.

(** [while node is not None]. *)
Fixpoint fix_up (fuel : nat) (node : option loc) : state heap () :=
  match node with
  | None => mret ()
  | Some n =>
      match fuel with
      | O => raise OutOfFuel
      | S fuel =>
          recompute_value n;;
          x ← deref (Some n);
          fix_up fuel (n_parent x)
      end
  end.

(** [while not is_power_of_2(cur_root_size)]: the subtree the new leaf is joined with. *)
Fixpoint descend (fuel : nat) (cur_root : option loc) (cur_root_size ltree_size : pynum) : state heap (option loc) :=
  match fuel with
  | O => raise OutOfFuel
  | S fuel =>
      stop ← liftS (is_power_of_2 cur_root_size);
      if stop : bool then mret cur_root
      else
        x ← deref cur_root;
        descend fuel (n_right x) (num_sub cur_root_size ltree_size) (num_half ltree_size)
  end.

Definition add (x : bytes) : state MerkleTree () :=
  liftS (raise_if (negb (len x =? 32)) ValueError);;
  new_leaf ← on_heap (new_node (leaf_node x));
  self ← get;
  let leaves := mt_leaves self ++ [new_leaf] in
  modify (set_leaves leaves);;
  if len leaves =? 1 then
    modify (set_root (Some new_leaf));;
    modify (set_depth (Some 0))
  else
    depth ← liftS (of_option TypeError (mt_depth self));
    let ltree_size := if depth =? 0 then 0 else Z.shiftl 1 (depth - 1) in
    cur_root ← on_heap (descend (length leaves) (mt_root_node self) (PyInt (len leaves - 1)) (PyInt ltree_size));
    cur ← on_heap (deref cur_root);
    new_node ← on_heap (new_node (mkNode cur_root (Some new_leaf) (n_parent cur) None));
    match n_parent cur with
    | None =>
        modify (set_depth (Some (depth + 1)));;
        modify (set_root (Some new_node))
    | Some p =>
        parent ← on_heap (deref (Some p));
        assert_ (bool_decide (n_right parent = cur_root));;
        on_heap (update_node p (set_right (Some new_node)))
    end;;
    c ← liftS (of_option AttributeError cur_root);
    on_heap (update_node c (set_parent (Some new_node)));;
    on_heap (update_node new_leaf (set_parent (Some new_node)));;
    self ← get;
    on_heap (fix_up (length (mt_heap self)) (Some new_node)).

Definition set (index : Z) (x : bytes) : state MerkleTree () :=
  self ← get;
  assert_ ((0 <=? index) && (index <=? mt_len self));;
  liftS (raise_if (negb ((0 <=? index) && (index <=? mt_len self))) ValueError);;
  liftS (raise_if (negb (len x =? 32)) ValueError);;
  if index =? mt_len self then add x
  else
    n ← liftS (index_py (mt_leaves self) index);
    on_heap (update_node n (set_value (Some x)));;
    leaf ← on_heap (deref (Some n));
    on_heap (fix_up (length (mt_heap self)) (n_parent leaf)).

Definition mt_get (self : MerkleTree) (i : Z) : result (option bytes) :=
  n ← index_py (mt_leaves self) i;
  value_at self (Some n).

(** [while idx < len(self)], over the leaves that are left. *)
Fixpoint leaf_index_from (self : MerkleTree) (leaves : list loc) (x : bytes) (idx : Z) : result Z :=
  match leaves with
  | [] => Err ValueError
  | n :: leaves =>
      v ← value_at self (Some n);
      if bool_decide (v = Some x) then Ok idx else leaf_index_from self leaves x (idx + 1)
  end.

Definition leaf_index (self : MerkleTree) (x : bytes) : result Z := leaf_index_from self (mt_leaves self) x 0.

(** [while node.parent is not None]. *)
Fixpoint proof_loop (fuel : nat) (node : loc) : state heap (list (option bytes)) :=
  match fuel with
  | O => raise OutOfFuel
  | S fuel =>
      x ← deref (Some node);
      match n_parent x with
      | None => mret []
      | Some p =>
          s ← sibling node;
          assert_ (bool_decide (is_Some s));;
          y ← deref s;
          proof ← proof_loop fuel p;
          mret (n_value y :: proof)
      end
  end.

Definition prove_leaf (self : MerkleTree) (index : Z) : result (list (option bytes)) :=
  n ← index_py (mt_leaves self) index;
  (proof_loop (S (length (mt_heap self))) n (mt_heap self)).1.

(** ** [get_merkleized_map_commitment] *)

Definition get_merkleized_map_commitment (mapping : pydict bytes bytes) : result bytes :=
  let items := sorted_items mapping in
  keys ← MerkleTree_new (map (λ i, element_hash i.1) items);
  values ← MerkleTree_new (map (λ i, element_hash i.2) items);
  n ← ser_compact_size (len mapping);
  kr ← root keys; kr ← of_option TypeError kr;
  vr ← root values; vr ← of_option TypeError vr;
  Ok (n ++ kr ++ vr).
End merkle.

(** * Arithmetic *)

(** The size of the left subtree of a tree of [n] leaves. *)
Definition lp2 (n : Z) : Z := 2 ^ (Z.log2_up n - 1).

Lemma floor_lg_loop_ok fuel n k : 0 <= k <= Z.log2 n → 0 < n → Z.log2 n - k < Z.of_nat fuel →
  floor_lg_loop fuel n k (2 ^ k) = Ok (Z.log2 n).
Proof.
  revert k. induction fuel as [|fuel IH]; intros k Hk Hn Hf; [lia|]. cbn [floor_lg_loop].
  rewrite <- Z.pow_succ_r by lia. pose proof (Z.log2_spec n Hn) as [L1 L2]. destruct (Z.leb_spec (2 ^ Z.succ k) n) as [L|L].
  - apply Z.log2_le_pow2 in L; [|lia]. apply IH; lia.
  - apply Z.log2_lt_pow2 in L; [|lia]. f_equal. lia.
Qed.

Lemma floor_lg_ok n : 0 < n → floor_lg n = Ok (Z.log2 n).
Proof.
  intros Hn. unfold floor_lg. rewrite (proj2 (Z.ltb_lt 0 n)) by done. cbn [negb raise_if]. rewrite bind_Ok.
  pose proof (Z.log2_nonneg n). pose proof (Z.le_log2_log2_up n). apply (floor_lg_loop_ok _ n 0); lia.
Qed.

Lemma ceil_lg_loop_ok fuel n k : 0 <= k <= Z.log2_up n → 0 < n → Z.log2_up n - k < Z.of_nat fuel →
  ceil_lg_loop fuel n k (2 ^ k) = Ok (Z.log2_up n).
Proof.
  revert k. induction fuel as [|fuel IH]; intros k Hk Hn Hf; [lia|]. cbn [ceil_lg_loop].
  rewrite <- Z.pow_succ_r by lia. destruct (Z.ltb_spec (2 ^ k) n) as [L|L].
  - apply Z.log2_up_lt_pow2 in L; [|lia]. apply IH; lia.
  - apply Z.log2_up_le_pow2 in L; [|lia]. f_equal. lia.
Qed.

Lemma ceil_lg_ok n : 0 < n → ceil_lg n = Ok (Z.log2_up n).
Proof.
  intros Hn. unfold ceil_lg. rewrite (proj2 (Z.ltb_lt 0 n)) by done. cbn [negb raise_if]. rewrite bind_Ok.
  pose proof (Z.log2_up_nonneg n). apply (ceil_lg_loop_ok _ n 0); lia.
Qed.

Lemma is_power_of_2_ok n : 1 <= n → is_power_of_2 (PyInt n) = Ok (bool_decide (n = 2 ^ Z.log2 n)).
Proof.
  intros Hn. unfold is_power_of_2. rewrite (proj2 (Z.leb_le 1 n)) by done. cbn [negb raise_if]. rewrite bind_Ok. f_equal.
  pose proof (Z.log2_nonneg n). pose proof (Z.log2_spec n ltac:(lia)) as [L1 L2]. case_bool_decide as E.
  - apply Z.eqb_eq. rewrite E at 1 2. rewrite Z.sub_1_r, <- Z.ones_equiv, Z.land_ones by lia. by rewrite Z.mod_same by lia.
  - apply Z.eqb_neq. intros H0. apply (f_equal (λ z, Z.testbit z (Z.log2 n))) in H0. rewrite Z.land_spec, Z.bits_0 in H0.
    rewrite Z.bit_log2 in H0 by lia. assert (Z.log2 (n - 1) = Z.log2 n) as El.
    { apply Z.log2_unique; lia. }
    rewrite <- El, Z.bit_log2 in H0; [done|]. destruct (Z.eq_dec n 1) as [->|]; [by vm_compute in E|lia].
Qed.

Lemma log2_up_pow2 n : 1 <= n → n = 2 ^ Z.log2 n → Z.log2_up n = Z.log2 n.
Proof. intros Hn E. rewrite E at 1. apply Z.log2_up_pow2, Z.log2_nonneg. Qed.

Lemma log2_up_not_pow2 n : 1 <= n → n ≠ 2 ^ Z.log2 n → Z.log2_up n = Z.log2 n + 1.
Proof.
  intros Hn E. pose proof (Z.log2_spec n ltac:(lia)) as [L1 L2]. pose proof (Z.log2_nonneg n).
  apply Z.log2_up_unique; [lia|]. rewrite Z.add_1_r, Z.pred_succ. lia.
Qed.

Lemma lp2_bounds n : 2 <= n → 1 <= lp2 n < n ∧ n <= 2 * lp2 n.
Proof.
  intros Hn. unfold lp2. pose proof (Z.log2_up_spec n ltac:(lia)) as [L1 L2]. pose proof (Z.log2_up_pos n ltac:(lia)).
  rewrite <- Z.sub_1_r in L1. rewrite <- Z.pow_succ_r by lia. replace (Z.succ (Z.log2_up n - 1)) with (Z.log2_up n) by lia.
  split; [|done]. split; [|done]. assert (0 < 2 ^ (Z.log2_up n - 1)) by (apply Z.pow_pos_nonneg; lia). lia.
Qed.

Lemma largest_ok n : 2 <= n → largest_power_of_2_less_than n = Ok (lp2 n).
Proof.
  intros Hn. unfold largest_power_of_2_less_than. rewrite (proj2 (Z.ltb_lt 1 n)) by lia. cbn [negb raise_if].
  rewrite bind_Ok, is_power_of_2_ok, bind_Ok by lia. unfold lp2. pose proof (Z.log2_pos n ltac:(lia)). case_bool_decide as E.
  - rewrite log2_up_pow2 by (done || lia). f_equal. rewrite E at 1.
    replace (Z.log2 n) with (Z.succ (Z.log2 n - 1)) at 1 by lia. rewrite Z.pow_succ_r by lia. rewrite Z.mul_comm. apply Z.div_mul. lia.
  - rewrite floor_lg_ok, bind_Ok by lia. f_equal. rewrite log2_up_not_pow2 by (done || lia).
    rewrite Z.shiftl_1_l. f_equal. lia.
Qed.

(** A size that one more leaf leaves within the same power of 2. *)
Lemma lp2_unique n k : 0 <= k → 2 ^ k < n <= 2 * 2 ^ k → lp2 n = 2 ^ k.
Proof.
  intros Hk [L1 L2]. unfold lp2. rewrite (Z.log2_up_unique n (k + 1)); [f_equal; lia|lia|].
  rewrite Z.add_1_r, Z.pred_succ, Z.pow_succ_r by lia. lia.
Qed.

(** * Specification: the tree of a vector *)

Inductive tree :=
  | TLeaf (n : loc) (v : bytes)
  | TNode (n : loc) (v : option bytes) (l r : tree).

Definition tloc (t : tree) : loc := match t with TLeaf n _ | TNode n _ _ _ => n end.
Definition tval (t : tree) : option bytes := match t with TLeaf _ v => Some v | TNode _ v _ _ => v end.
Fixpoint tlocs (t : tree) : list loc := match t with TLeaf n _ => [n] | TNode n _ l r => n :: tlocs l ++ tlocs r end.
Fixpoint leaf_locs (t : tree) : list loc := match t with TLeaf n _ => [n] | TNode _ _ l r => leaf_locs l ++ leaf_locs r end.
Fixpoint leaf_vals (t : tree) : list bytes := match t with TLeaf _ v => [v] | TNode _ _ l r => leaf_vals l ++ leaf_vals r end.

(** The node objects of [t], with [p] the parent of its root. *)
Fixpoint repr (h : heap) (p : option loc) (t : tree) : Prop :=
  match t with
  | TLeaf n v => h !! n = Some (mkNode None None p (Some v))
  | TNode n v l r =>
      h !! n = Some (mkNode (Some (tloc l)) (Some (tloc r)) p v) ∧ repr h (Some n) l ∧ repr h (Some n) r
  end.

(** The left child of [n > 1] leaves has [lp2 n]. *)
Fixpoint left_complete (t : tree) : Prop :=
  match t with
  | TLeaf _ _ => True
  | TNode _ _ l r => len (leaf_vals l) = lp2 (len (leaf_vals l ++ leaf_vals r)) ∧ left_complete l ∧ left_complete r
  end.

Definition is_hash (v : bytes) : Prop := length v = 32%nat.

(** Whether a vector can be built: a single element is not looked at. *)
Definition buildable (vs : list bytes) : Prop := (length vs <= 1)%nat ∨ Forall is_hash vs.

#[export] Instance buildable_dec vs : Decision (buildable vs).
Proof. apply or_dec; [apply _|]. apply Forall_dec. intros v. apply Nat.eq_dec. Defined.

Section spec.
Context `{Hashes}.

Definition combine (a b : bytes) : bytes := sha256 (chr 1 :: a ++ b).

Fixpoint thash (t : tree) : bytes :=
  match t with TLeaf _ v => v | TNode _ _ l r => combine (thash l) (thash r) end.

(** Every internal node has its value. *)
Fixpoint hashed (t : tree) : Prop :=
  match t with TLeaf _ _ => True | TNode _ v l r => v = Some (thash t) ∧ hashed l ∧ hashed r end.

(** The Merkle root and the membership proofs of a vector, from the vector
    alone.  A proof lists the siblings from the leaf to the root. *)
Definition split_size (vs : list bytes) : nat := Z.to_nat (lp2 (len vs)).

Fixpoint mroot (fuel : nat) (vs : list bytes) : bytes :=
  match vs, fuel with
  | [], _ => NIL
  | [v], _ => v
  | _, O => NIL
  | _, S fuel => combine (mroot fuel (take (split_size vs) vs)) (mroot fuel (drop (split_size vs) vs))
  end.
Definition merkle_root (vs : list bytes) : bytes := mroot (length vs) vs.

Fixpoint mproof (fuel : nat) (vs : list bytes) (i : nat) : list bytes :=
  match vs, fuel with
  | [], _ | [_], _ | _, O => []
  | _, S fuel =>
      let k := split_size vs in
      if (i <? k)%nat then mproof fuel (take k vs) i ++ [merkle_root (drop k vs)]
      else mproof fuel (drop k vs) (i - k) ++ [merkle_root (take k vs)]
  end.
Definition merkle_proof (vs : list bytes) (i : nat) : list bytes := mproof (length vs) vs i.

(** The strings that are hashed for the inner nodes. *)
Fixpoint mnodes (fuel : nat) (vs : list bytes) : list bytes :=
  match vs, fuel with
  | [], _ | [_], _ | _, O => []
  | _, S fuel =>
      let l := take (split_size vs) vs in let r := drop (split_size vs) vs in
      (chr 1 :: merkle_root l ++ merkle_root r) :: mnodes fuel l ++ mnodes fuel r
  end.
Definition node_inputs (vs : list bytes) : list bytes := mnodes (length vs) vs.

(** What a verifier computes for the leaf [v] at position [i] of [n], from a
    proof with the sibling nearest to the root first. *)
Fixpoint proof_root (n i : Z) (v : bytes) (proof : list bytes) : option bytes :=
  match proof with
  | [] => if n =? 1 then Some v else None
  | s :: proof =>
      if n <=? 1 then None
      else if i <? lp2 n then r ← proof_root (lp2 n) i v proof; Some (combine r s)
      else r ← proof_root (n - lp2 n) (i - lp2 n) v proof; Some (combine s r)
  end.

(** The strings that it hashes. *)
Fixpoint proof_inputs (n i : Z) (v : bytes) (proof : list bytes) : list bytes :=
  match proof with
  | [] => []
  | s :: proof =>
      if i <? lp2 n then
        (if proof_root (lp2 n) i v proof is Some r then [chr 1 :: r ++ s] else []) ++ proof_inputs (lp2 n) i v proof
      else
        (if proof_root (n - lp2 n) (i - lp2 n) v proof is Some r then [chr 1 :: s ++ r] else []) ++
        proof_inputs (n - lp2 n) (i - lp2 n) v proof
  end.

(** The hash function tells the strings of [l] apart.  It cannot tell all strings apart. *)
Definition collision_free (l : list bytes) : Prop := ∀ x y, x ∈ l → y ∈ l → sha256 x = sha256 y → x = y.

(** A [MerkleTree] object holds the vector [vs]. *)
Definition tree_of (h : heap) (leaves : list loc) (vs : list bytes) (t : tree) : Prop :=
  repr h None t ∧ NoDup (tlocs t) ∧ leaf_locs t = leaves ∧ leaf_vals t = vs ∧ left_complete t ∧ hashed t.

Definition holds (self : MerkleTree) (vs : list bytes) : Prop :=
  buildable vs ∧
  match vs with
  | [] => mt_leaves self = [] ∧ mt_root_node self = None
  | _ => ∃ t, tree_of (mt_heap self) (mt_leaves self) vs t ∧ mt_root_node self = Some (tloc t) ∧
              mt_depth self = Some (Z.log2_up (len vs))
  end.
End spec.

(** * Lemmas *)

(** ** Trees *)

Lemma length_leaf_vals t : length (leaf_vals t) = length (leaf_locs t).
Proof. induction t as [|n v l IHl r IHr]; [done|]. cbn. rewrite !length_app. lia. Qed.

Lemma leaf_vals_nonempty t : (1 <= length (leaf_vals t))%nat.
Proof. induction t as [|n v l IHl r IHr]; cbn; [done|]. rewrite length_app. lia. Qed.

Lemma len_leaf_vals t : 1 <= len (leaf_vals t).
Proof. pose proof (leaf_vals_nonempty t). unfold len. lia. Qed.

Lemma leaf_locs_sub t : leaf_locs t ⊆ tlocs t.
Proof. induction t as [|n v l IHl r IHr]; cbn; [done|]. set_solver. Qed.

Lemma tloc_in t : tloc t ∈ tlocs t.
Proof. destruct t; cbn; set_solver. Qed.

Section trees.
Context `{Hashes}.

Lemma combine_length a b : is_hash (combine a b).
Proof. apply sha256_length. Qed.

Lemma thash_is_hash t : Forall is_hash (leaf_vals t) → is_hash (thash t).
Proof. destruct t; cbn; [by intros [? _]%Forall_cons_1|intros; apply combine_length]. Qed.

Lemma hashed_tval t : hashed t → tval t = Some (thash t).
Proof. destruct t; cbn; [done|]. by intros [? _]. Qed.

Lemma mroot_fuel fuel fuel' vs : (length vs <= fuel)%nat → (length vs <= fuel')%nat → mroot fuel vs = mroot fuel' vs.
Proof.
  revert fuel' vs. induction fuel as [|fuel IH]; intros [|fuel'] [|v [|w vs]] H1 H2; cbn [mroot]; try done; try (simpl in *; lia).
  set (l := v :: w :: vs) in *. pose proof (lp2_bounds (len l) ltac:(unfold len, l; simpl; lia)). unfold len in *.
  f_equal; apply IH; unfold split_size, len; rewrite ?length_take, ?length_drop; lia.
Qed.

Lemma mproof_fuel fuel fuel' vs i : (length vs <= fuel)%nat → (length vs <= fuel')%nat → mproof fuel vs i = mproof fuel' vs i.
Proof.
  revert fuel' vs i. induction fuel as [|fuel IH]; intros [|fuel'] [|v [|w vs]] i H1 H2; cbn [mproof]; try done; try (simpl in *; lia).
  set (l := v :: w :: vs) in *. pose proof (lp2_bounds (len l) ltac:(unfold len, l; simpl; lia)). unfold len in *. cbv zeta.
  destruct (i <? _)%nat; f_equal; apply IH; unfold split_size, len; rewrite ?length_take, ?length_drop; lia.
Qed.

Lemma mroot_step fuel vs : (2 <= length vs)%nat → mroot (S fuel) vs =
  combine (mroot fuel (take (split_size vs) vs)) (mroot fuel (drop (split_size vs) vs)).
Proof. destruct vs as [|v [|w vs]]; simpl length; [lia..|done]. Qed.

Lemma mproof_step fuel vs i : (2 <= length vs)%nat → mproof (S fuel) vs i =
  if (i <? split_size vs)%nat then mproof fuel (take (split_size vs) vs) i ++ [merkle_root (drop (split_size vs) vs)]
  else mproof fuel (drop (split_size vs) vs) (i - split_size vs) ++ [merkle_root (take (split_size vs) vs)].
Proof. destruct vs as [|v [|w vs]]; simpl length; [lia..|done]. Qed.

(** One level of both, at a list that is split in the right place. *)
Lemma merkle_app l r i : l ≠ [] → r ≠ [] → len l = lp2 (len (l ++ r)) →
  merkle_root (l ++ r) = combine (merkle_root l) (merkle_root r) ∧
  merkle_proof (l ++ r) i = if (i <? length l)%nat then merkle_proof l i ++ [merkle_root r]
                            else merkle_proof r (i - length l) ++ [merkle_root l].
Proof.
  intros Hl Hr Hk. assert (split_size (l ++ r) = length l) as Es by (unfold split_size; rewrite <- Hk; unfold len; lia).
  assert (1 <= length l ∧ 1 <= length r)%nat as [L1 L2] by (destruct l, r; simpl; [done..|lia]).
  assert (length (l ++ r) = S (pred (length l) + length r)) as En by (rewrite length_app; lia). split.
  - unfold merkle_root at 1. rewrite En, mroot_step, Es, take_app_length, drop_app_length by (rewrite length_app; lia).
    unfold merkle_root. f_equal; apply mroot_fuel; lia.
  - unfold merkle_proof at 1. rewrite En, mproof_step, Es, take_app_length, drop_app_length by (rewrite length_app; lia).
    unfold merkle_proof. destruct (i <? _)%nat; f_equal; apply mproof_fuel; lia.
Qed.

Lemma nonempty_leaf_vals t : leaf_vals t ≠ [].
Proof. pose proof (leaf_vals_nonempty t). by destruct (leaf_vals t); [simpl in *; lia|]. Qed.

Lemma thash_root t : left_complete t → thash t = merkle_root (leaf_vals t).
Proof.
  induction t as [n v|n v l IHl r IHr]; [done|]. cbn [left_complete thash leaf_vals]. intros (Hk & Hl & Hr).
  rewrite (proj1 (merkle_app _ _ 0 (nonempty_leaf_vals l) (nonempty_leaf_vals r) Hk)). by rewrite IHl, IHr.
Qed.

(** ** The heap *)

Lemma repr_ext h h' p t : (∀ n, n ∈ tlocs t → h' !! n = h !! n) → repr h p t → repr h' p t.
Proof.
  revert p. induction t as [n v|n v l IHl r IHr]; intros p He; cbn [repr tlocs] in *.
  - intros <-. apply He. set_solver.
  - intros (Hn & Hl & Hr). split; [rewrite He by set_solver; done|]. split; [apply IHl|apply IHr]; (done || (intros; apply He; set_solver)).
Qed.

Lemma repr_lookup h p t : repr h p t → ∃ x, h !! tloc t = Some x ∧ n_parent x = p ∧ n_value x = tval t.
Proof. destruct t; cbn; [intros ->|intros [-> _]]; by eexists. Qed.

Lemma repr_bound h p t n : repr h p t → n ∈ tlocs t → (n < length h)%nat.
Proof.
  revert p. induction t as [m v|m v l IHl r IHr]; intros p; cbn [repr tlocs].
  - intros Hm Hn. apply list_elem_of_singleton in Hn as ->. by eapply lookup_lt_Some.
  - intros (Hm & Hl & Hr) Hn. apply elem_of_cons in Hn as [->|Hn]; [by eapply lookup_lt_Some|].
    apply elem_of_app in Hn as [Hn|Hn]; [by eapply IHl|by eapply IHr].
Qed.

Lemma repr_set_parent h p q t : NoDup (tlocs t) → repr h p t → repr (alter (set_parent q) (tloc t) h) q t.
Proof.
  intros Hd. destruct t as [n v|n v l r]; cbn [repr tlocs tloc] in *.
  - intros Hn. by rewrite list_lookup_alter_eq, Hn.
  - apply NoDup_cons in Hd as [Hn _]. intros (Hx & Hl & Hr). split; [by rewrite list_lookup_alter_eq, Hx|].
    split; (eapply repr_ext; [|done]); intros m Hm; apply list_lookup_alter_ne; set_solver.
Qed.
End trees.

(** ** Paths in a tree

    A path goes from a subtree up to the root of the tree; [plug] puts a tree at
    its lower end. *)

Record frame := mkFrame {
  f_right : bool;  (** the path comes from the right child *)
  f_loc : loc;
  f_val : option bytes;
  f_sib : tree;
}.

Definition fnode (f : frame) (t : tree) : tree :=
  if f_right f then TNode (f_loc f) (f_val f) (f_sib f) t else TNode (f_loc f) (f_val f) t (f_sib f).

Fixpoint plug (fs : list frame) (t : tree) : tree :=
  match fs with [] => t | f :: fs => plug fs (fnode f t) end.

Definition fparent (fs : list frame) : option loc := match fs with [] => None | f :: _ => Some (f_loc f) end.

(** The nodes of a path whose lower end is [n]. *)
Fixpoint repr_path (h : heap) (fs : list frame) (n : loc) : Prop :=
  match fs with
  | [] => True
  | f :: fs =>
      h !! f_loc f = Some (if f_right f then mkNode (Some (tloc (f_sib f))) (Some n) (fparent fs) (f_val f)
                           else mkNode (Some n) (Some (tloc (f_sib f))) (fparent fs) (f_val f)) ∧
      repr h (Some (f_loc f)) (f_sib f) ∧ repr_path h fs (f_loc f)
  end.

Definition path_locs (fs : list frame) : list loc := concat (map (λ f, f_loc f :: tlocs (f_sib f)) fs).

Lemma tloc_fnode f t : tloc (fnode f t) = f_loc f.
Proof. unfold fnode. by destruct (f_right f). Qed.

Lemma tlocs_plug fs t : tlocs (plug fs t) ≡ₚ tlocs t ++ path_locs fs.
Proof.
  revert t. induction fs as [|f fs IH]; intros t; [by rewrite app_nil_r|]. cbn [plug]. rewrite IH.
  unfold path_locs. cbn [map concat]. unfold fnode. destruct (f_right f); cbn [tlocs]; solve_Permutation.
Qed.

Lemma repr_plug h fs t : repr h None (plug fs t) ↔ repr h (fparent fs) t ∧ repr_path h fs (tloc t).
Proof.
  revert t. induction fs as [|f fs IH]; intros t; cbn [plug repr_path fparent]; [tauto|].
  rewrite IH, tloc_fnode. unfold fnode. destruct (f_right f); cbn [repr]; tauto.
Qed.

Lemma leaf_vals_plug fs t : Forall is_hash (leaf_vals (plug fs t)) → Forall is_hash (leaf_vals t).
Proof.
  revert t. induction fs as [|f fs IH]; intros t Hv; [done|]. apply IH in Hv. unfold fnode in Hv.
  destruct (f_right f); cbn [leaf_vals] in Hv; apply Forall_app in Hv; tauto.
Qed.

Lemma leaf_vals_plug_eq fs t t' : leaf_vals t = leaf_vals t' → leaf_vals (plug fs t) = leaf_vals (plug fs t').
Proof.
  revert t t'. induction fs as [|f fs IH]; intros t t' E; [done|]. apply IH. unfold fnode. destruct (f_right f); cbn; by rewrite E.
Qed.

Lemma deref_some h n x : h !! n = Some x → deref (Some n) h = (Ok x, h).
Proof. intros Hx. unfold deref. change (Some n ≫= _) with (h !! n). by rewrite Hx. Qed.

Section paths.
Context `{Hashes}.

(** [t] with the values of all nodes computed anew. *)
Fixpoint rehash_tree (t : tree) : tree :=
  match t with
  | TLeaf n v => TLeaf n v
  | TNode n _ l r => TNode n (Some (thash t)) (rehash_tree l) (rehash_tree r)
  end.

Lemma rehash_same t : tloc (rehash_tree t) = tloc t ∧ tlocs (rehash_tree t) = tlocs t ∧ leaf_locs (rehash_tree t) = leaf_locs t ∧
  leaf_vals (rehash_tree t) = leaf_vals t ∧ thash (rehash_tree t) = thash t ∧ hashed (rehash_tree t).
Proof. induction t as [n v|n v l IHl r IHr]; cbn; [done|]. by destruct IHl as (? & -> & -> & -> & -> & ?), IHr as (? & -> & -> & -> & -> & ?). Qed.

Lemma rehash_left_complete t : left_complete t → left_complete (rehash_tree t).
Proof.
  induction t as [n v|n v l IHl r IHr]; cbn [left_complete rehash_tree]; [done|]. intros (? & Hl & Hr).
  pose proof (rehash_same l) as (_ & _ & _ & -> & _). pose proof (rehash_same r) as (_ & _ & _ & -> & _). auto.
Qed.

Lemma rehash_hashed t : hashed t → rehash_tree t = t.
Proof. induction t as [n v|n v l IHl r IHr]; cbn [hashed rehash_tree]; [done|]. intros (-> & Hl & Hr). by rewrite IHl, IHr. Qed.

Lemma rehash_plug fs t : rehash_tree (plug fs (rehash_tree t)) = rehash_tree (plug fs t).
Proof.
  revert t. induction fs as [|f fs IH]; intros t; cbn [plug]; [apply rehash_hashed, rehash_same|].
  rewrite <- (IH (fnode f (rehash_tree t))), <- (IH (fnode f t)). do 2 f_equal. unfold fnode.
  pose proof (rehash_same t) as (_ & _ & _ & _ & Ht & Hh). destruct (f_right f); cbn [rehash_tree thash]; by rewrite Ht, (rehash_hashed (rehash_tree t)).
Qed.

(** ** [recompute_value] and [fix_up] *)

Lemma recompute_at h n p v a b x y va vb : h !! n = Some (mkNode (Some a) (Some b) p v) →
  h !! a = Some x → n_value x = Some va → h !! b = Some y → n_value y = Some vb →
  recompute_value n h =
    if bool_decide (is_hash va ∧ is_hash vb)
    then (Ok (), alter (set_value (Some (combine va vb))) n h) else (Err ValueError, h).
Proof.
  intros Hn Hx Vx Hy Vy. unfold recompute_value. run_step (deref_some h n _ Hn). cbn [n_left n_right].
  rewrite !bool_decide_eq_true_2 by (by eexists). do 2 (run_step (@assert_true heap h)).
  run_step (deref_some h _ _ Hx). run_step (deref_some h _ _ Hy). rewrite Vx, Vy.
  do 2 (erewrite state_bind_eval; [|reflexivity]). unfold combine_hashes, is_hash, len.
  destruct (Z.eqb_spec (Z.of_nat (length va)) 32), (Z.eqb_spec (Z.of_nat (length vb)) 32); cbn [negb orb];
    [rewrite bool_decide_eq_true_2 by lia|rewrite bool_decide_eq_false_2 by lia..]; done.
Qed.

Lemma recompute_ok h n p v l r : repr h p (TNode n v l r) → tval l = Some (thash l) → tval r = Some (thash r) →
  recompute_value n h =
    if bool_decide (is_hash (thash l) ∧ is_hash (thash r))
    then (Ok (), alter (set_value (Some (combine (thash l) (thash r)))) n h) else (Err ValueError, h).
Proof.
  intros (Hn & Hl & Hr) El Er. apply repr_lookup in Hl as (x & Hx & _ & Vx). apply repr_lookup in Hr as (y & Hy & _ & Vy).
  by eapply recompute_at; [..|rewrite Vx|exact Hy|rewrite Vy].
Qed.

Lemma repr_set_value h p n v w l r : NoDup (tlocs (TNode n v l r)) → repr h p (TNode n v l r) →
  repr (alter (set_value w) n h) p (TNode n w l r).
Proof.
  cbn [tlocs repr]. intros [Hn _]%NoDup_cons (Hx & Hl & Hr). split; [by rewrite list_lookup_alter_eq, Hx|].
  split; (eapply repr_ext; [|done]); intros m Hm; apply list_lookup_alter_ne; set_solver.
Qed.

Lemma repr_path_ext h h' fs n : (∀ m, m ∈ path_locs fs → h' !! m = h !! m) → repr_path h fs n → repr_path h' fs n.
Proof.
  revert n. induction fs as [|f fs IH]; intros n He; cbn [repr_path]; [done|]. unfold path_locs in *. cbn [map concat] in He.
  intros (Hf & Hs & Hp). split; [rewrite He by set_solver; done|]. split; [|apply IH; [intros; apply He; set_solver|done]].
  eapply repr_ext; [|done]. intros; apply He; set_solver.
Qed.

(** The values on the path from a node to the root are computed; everything else is left alone. *)
Lemma fix_up_ok fuel fs t h : (length fs <= fuel)%nat → repr h None (plug fs t) → NoDup (tlocs (plug fs t)) →
  hashed t → Forall (λ f, hashed (f_sib f)) fs → Forall is_hash (leaf_vals (plug fs t)) →
  ∃ h', fix_up fuel (fparent fs) h = (Ok (), h') ∧ repr h' None (rehash_tree (plug fs t)) ∧ length h' = length h.
Proof.
  revert fs t h. induction fuel as [|fuel IH]; intros [|f fs] t h Hf Hr Hd Ht Hs Hv; try (simpl in Hf; lia).
  1,2: exists h; split; [done|]; split; [|done]; cbn [plug] in *; by rewrite rehash_hashed.
  apply Forall_cons_1 in Hs as [Hsib Hs]. cbn [plug] in *. cbn [fparent fix_up].
  assert (∃ l r, fnode f t = TNode (f_loc f) (f_val f) l r ∧ hashed l ∧ hashed r) as (l & r & En & Hl & Hrr).
  { unfold fnode. destruct (f_right f); by eexists _, _. }
  rewrite En in *. pose proof (proj1 (repr_plug _ _ _) Hr) as [Hn Hp].
  assert (Forall is_hash (leaf_vals (TNode (f_loc f) (f_val f) l r))) as Hlr by (by eapply leaf_vals_plug).
  apply Forall_app in Hlr as [Hlv Hrv].
  assert (NoDup (tlocs (TNode (f_loc f) (f_val f) l r) ++ path_locs fs)) as Hd2 by (by rewrite <- tlocs_plug).
  apply NoDup_app in Hd2 as (Hd2 & Hdis & _).
  assert (recompute_value (f_loc f) h = (Ok (), alter (set_value (Some (combine (thash l) (thash r)))) (f_loc f) h)) as Hrec.
  { rewrite (recompute_ok _ _ _ _ _ _ Hn) by (by apply hashed_tval). rewrite bool_decide_eq_true_2; [done|].
    split; by apply thash_is_hash. }
  run_step Hrec. set (h1 := alter _ _ h) in *.
  apply (repr_set_value _ _ _ _ (Some (combine (thash l) (thash r)))) in Hn; [|done]. fold h1 in Hn.
  assert (repr_path h1 fs (f_loc f)) as Hp1.
  { eapply repr_path_ext; [|exact Hp]. intros m Hm. apply list_lookup_alter_ne. intros <-. apply (Hdis (f_loc f)); [cbn; set_solver|done]. }
  pose proof (repr_lookup _ _ _ Hn) as (x & Hx & Px & _). cbn [tloc] in Hx. run_step (deref_some h1 _ _ Hx). rewrite Px.
  assert (rehash_tree (TNode (f_loc f) (f_val f) l r) = TNode (f_loc f) (Some (combine (thash l) (thash r))) l r) as Eh
    by (cbn [rehash_tree thash]; by rewrite !rehash_hashed).
  destruct (IH fs (TNode (f_loc f) (Some (combine (thash l) (thash r))) l r) h1) as (h' & Hfix & Hrepr & Hlen).
  - simpl in Hf. lia.
  - apply repr_plug. by split.
  - rewrite tlocs_plug in Hd |- *. exact Hd.
  - rewrite <- Eh. apply rehash_same.
  - done.
  - by rewrite leaf_vals_plug_eq with (t' := TNode (f_loc f) (f_val f) l r).
  - exists h'. split; [exact Hfix|]. split; [|rewrite Hlen; apply length_alter]. by rewrite <- Eh, rehash_plug in Hrepr.
Qed.

(** ** Leaves and proofs *)

Lemma plug_app fs gs t : plug (fs ++ gs) t = plug gs (plug fs t).
Proof. revert t. induction fs as [|f fs IH]; intros t; [done|]. cbn [app plug]. apply IH. Qed.

(** A leaf is at the end of a path along which its proof is read, and where its
    value can be replaced. *)
Lemma leaf_path t i n : leaf_locs t !! i = Some n →
  ∃ fs v, t = plug fs (TLeaf n v) ∧ leaf_vals t !! i = Some v ∧
    (hashed t → Forall (λ f, hashed (f_sib f)) fs) ∧
    (left_complete t → map (λ f, thash (f_sib f)) fs = merkle_proof (leaf_vals t) i) ∧
    ∀ x, leaf_vals (plug fs (TLeaf n x)) = <[i := x]> (leaf_vals t) ∧ leaf_locs (plug fs (TLeaf n x)) = leaf_locs t ∧
         (left_complete t → left_complete (plug fs (TLeaf n x))).
Proof.
  revert i. induction t as [m v|m v l IHl r IHr]; intros i; cbn [leaf_locs leaf_vals].
  { destruct i; [|done]. intros [= ->]. exists [], v. split_and!; try done. }
  intros Hi. pose proof (nonempty_leaf_vals l) as Nl. pose proof (nonempty_leaf_vals r) as Nr.
  destruct (decide (i < length (leaf_locs l))%nat) as [Hlt|Hge].
  - rewrite lookup_app_l in Hi by done. destruct (IHl i Hi) as (fs & w & -> & Hw & Hh & Hp & Hx).
    exists (fs ++ [mkFrame false m v r]), w. rewrite <- length_leaf_vals in Hlt. rewrite lookup_app_l by done. split; [by rewrite plug_app|].
    split; [done|]. split; [|split].
    + intros (_ & Hl & Hr). apply Forall_app. split; [by apply Hh|by repeat constructor].
    + intros (Hk & Hl & Hr). rewrite map_app, Hp by done. rewrite (proj2 (merkle_app _ _ i Nl Nr Hk)).
      rewrite (proj2 (Nat.ltb_lt _ _) Hlt). cbn [map f_sib]. by rewrite thash_root.
    + intros x. destruct (Hx x) as (Ev & El & Hc). rewrite plug_app. cbn [plug fnode f_right leaf_vals leaf_locs f_loc f_val f_sib].
      rewrite Ev, El, insert_app_l by done. split; [done|]. split; [done|]. intros (Hk & Hl & Hr). cbn [left_complete]. split; [|auto].
      rewrite Ev. unfold len in *. rewrite length_app, length_insert. by rewrite length_app in Hk.
  - rewrite lookup_app_r in Hi by lia. destruct (IHr _ Hi) as (fs & w & -> & Hw & Hh & Hp & Hx).
    exists (fs ++ [mkFrame true m v l]), w. rewrite <- length_leaf_vals in Hge. rewrite <- length_leaf_vals in Hi, Hw, Hp, Hx.
    rewrite lookup_app_r by lia. split; [by rewrite plug_app|]. split; [done|]. split; [|split].
    + intros (_ & Hl & Hr). apply Forall_app. split; [by apply Hh|by repeat constructor].
    + intros (Hk & Hl & Hr). rewrite map_app, Hp by done. rewrite (proj2 (merkle_app _ _ i Nl Nr Hk)).
      rewrite (proj2 (Nat.ltb_ge _ _)) by lia. cbn [map f_sib]. by rewrite thash_root.
    + intros x. destruct (Hx x) as (Ev & El & Hc). rewrite plug_app. cbn [plug fnode f_right leaf_vals leaf_locs f_loc f_val f_sib].
      rewrite Ev, El, insert_app_r_alt by lia. split; [done|]. split; [done|]. intros (Hk & Hl & Hr). cbn [left_complete]. split; [|auto].
      rewrite Ev. unfold len in *. rewrite length_app, length_insert. by rewrite length_app in Hk.
Qed.

Lemma sibling_ok h f fs t : repr h None (plug (f :: fs) t) → NoDup (tlocs (plug (f :: fs) t)) →
  sibling (tloc t) h = (Ok (Some (tloc (f_sib f))), h).
Proof.
  intros Hr Hd. apply repr_plug in Hr as (Ht & Hf & _). apply repr_lookup in Ht as (x & Hx & Px & _).
  unfold sibling. run_step (deref_some h _ _ Hx). rewrite Px. cbn [fparent]. run_step (deref_some h _ _ Hf).
  rewrite tlocs_plug in Hd. apply NoDup_app in Hd as (_ & Hd & _). specialize (Hd _ (tloc_in t)).
  destruct (f_right f); cbn [n_left n_right]; [|by rewrite bool_decide_eq_true_2].
  rewrite bool_decide_eq_false_2; [by rewrite bool_decide_eq_true_2|]. intros [= E]. apply Hd. rewrite <- E.
  unfold path_locs. cbn [map concat]. pose proof (tloc_in (f_sib f)). set_solver.
Qed.

Lemma proof_loop_ok fuel fs t h : (length fs < fuel)%nat → repr h None (plug fs t) → NoDup (tlocs (plug fs t)) →
  Forall (λ f, hashed (f_sib f)) fs →
  proof_loop fuel (tloc t) h = (Ok (map (λ f, Some (thash (f_sib f))) fs), h).
Proof.
  revert fs t. induction fuel as [|fuel IH]; intros fs t Hf Hr Hd Hs; [lia|]. cbn [proof_loop].
  pose proof (proj1 (repr_plug _ _ _) Hr) as [Ht Hp]. apply repr_lookup in Ht as (x & Hx & Px & _).
  run_step (deref_some h _ _ Hx). rewrite Px. destruct fs as [|f fs]; [done|]. cbn [fparent].
  run_step (sibling_ok h f fs t Hr Hd). rewrite bool_decide_eq_true_2 by (by eexists). run_step (@assert_true heap h).
  apply Forall_cons_1 in Hs as [Hsib Hs]. destruct Hp as (_ & Hp & _). apply repr_lookup in Hp as (y & Hy & _ & Vy).
  run_step (deref_some h _ _ Hy). cbn [plug] in Hr, Hd. specialize (IH fs (fnode f t) ltac:(simpl in Hf; lia) Hr Hd Hs).
  rewrite tloc_fnode in IH. run_step IH. rewrite Vy, (hashed_tval _ Hsib). done.
Qed.
End paths.

(** ** Building *)

Section build.
Context `{Hashes}.

(** The nodes a call of [make_tree] makes and changes. *)
Definition fresh_in (lo hi begin size : nat) (n : loc) : Prop :=
  (begin <= n < begin + size)%nat ∨ (lo <= n < hi)%nat.

Definition built (h h' : heap) (begin size : nat) (vs : list bytes) (t : tree) : Prop :=
  tree_of h' (seq begin size) vs t ∧
  (∀ n, n ∈ tlocs t → fresh_in (length h) (length h') begin size n) ∧
  (∀ n, (n < length h)%nat → ¬ (begin <= n < begin + size)%nat → h' !! n = h !! n) ∧ (length h <= length h')%nat.

(** Two trees built one after the other get a common root. *)
Lemma join_built h h1 h2 begin k m vs ws t1 t2 : (begin + k + m <= length h)%nat →
  built h h1 begin k vs t1 → built h1 h2 (begin + k) m ws t2 →
  len vs = lp2 (len (vs ++ ws)) →
  let h3 := h2 ++ [mkNode (Some (tloc t1)) (Some (tloc t2)) None None] in
  let h4 := alter (set_value (Some (combine (thash t1) (thash t2)))) (length h2) h3 in
  let h5 := alter (set_parent (Some (length h2))) (tloc t1) h4 in
  let h6 := alter (set_parent (Some (length h2))) (tloc t2) h5 in
  recompute_value (length h2) h3 =
    (if bool_decide (is_hash (thash t1) ∧ is_hash (thash t2)) then (Ok (), h4) else (Err ValueError, h3)) ∧
  built h h6 begin (k + m) (vs ++ ws) (TNode (length h2) (Some (combine (thash t1) (thash t2))) t1 t2).
Proof.
  intros Hb ((R1 & D1 & E1 & V1 & C1 & H1) & F1 & K1 & L1) ((R2 & D2 & E2 & V2 & C2 & H2) & F2 & K2 & L2) Hk h3 h4 h5 h6.
  assert (∀ n, n ∈ tlocs t1 → (n < length h1)%nat ∧ ¬ (begin + k <= n < begin + k + m)%nat) as B1
    by (intros n [?|?]%F1; lia).
  assert (∀ n, n ∈ tlocs t2 → (n < length h2)%nat) as B2 by (intros n Hn; by eapply repr_bound).
  assert (repr h2 None t1) as R1' by (eapply repr_ext; [|exact R1]; intros n Hn; apply K2; by apply B1).
  assert (∀ n, n ∈ tlocs t1 → n ∉ tlocs t2) as Dis.
  { intros n Hn Hn2. pose proof (B1 n Hn). apply F2 in Hn2 as [?|?]; lia. }
  assert (∀ n, (n < length h2)%nat → h4 !! n = h2 !! n) as K4.
  { intros n Hn. unfold h4, h3. rewrite list_lookup_alter_ne by lia. by apply lookup_app_l. }
  assert (repr h4 None t1) as R1'' by (eapply repr_ext; [|exact R1']; intros n Hn; apply K4; pose proof (B1 n Hn); lia).
  assert (repr h4 None t2) as R2'' by (eapply repr_ext; [|exact R2]; intros n Hn; by apply K4, B2).
  assert (repr h5 (Some (length h2)) t1) as R15 by (by eapply repr_set_parent).
  assert (repr h5 None t2) as R25.
  { eapply repr_ext; [|exact R2'']. intros n Hn. apply list_lookup_alter_ne. intros <-. by apply (Dis (tloc t1)); [apply tloc_in|]. }
  assert (repr h6 (Some (length h2)) t2) as R26 by (by eapply repr_set_parent).
  assert (repr h6 (Some (length h2)) t1) as R16.
  { eapply repr_ext; [|exact R15]. intros n Hn. apply list_lookup_alter_ne. intros <-. apply (Dis _ Hn), tloc_in. }
  assert (length h6 = S (length h2)) as L6 by (unfold h6, h5, h4, h3; rewrite !length_alter, length_app; simpl; lia).
  assert (tloc t1 < length h2)%nat as T1 by (pose proof (B1 _ (tloc_in t1)); lia).
  assert (tloc t2 < length h2)%nat as T2 by (apply B2, tloc_in). split.
  - pose proof (repr_lookup _ _ _ R1') as (x & Hx & _ & Vx). pose proof (repr_lookup _ _ _ R2) as (y & Hy & _ & Vy).
    rewrite (recompute_at h3 (length h2) None None (tloc t1) (tloc t2) x y (thash t1) (thash t2)); [reflexivity|..].
    + unfold h3. by apply list_lookup_middle.
    + unfold h3. by rewrite lookup_app_l.
    + by rewrite Vx, hashed_tval.
    + unfold h3. by rewrite lookup_app_l.
    + by rewrite Vy, hashed_tval.
  - split; [|split; [|split; [|lia]]].
    + split; [|split; [|split; [|split; [|split]]]].
      * cbn [repr]. split; [|by split]. unfold h6, h5. rewrite !list_lookup_alter_ne by lia. unfold h4.
        rewrite list_lookup_alter_eq. unfold h3. by rewrite list_lookup_middle.
      * cbn [tlocs]. apply NoDup_cons. split; [|apply NoDup_app; by split_and!]. rewrite elem_of_app. intros [Hn|Hn].
        -- pose proof (B1 _ Hn). lia.
        -- apply B2 in Hn. lia.
      * cbn [leaf_locs]. by rewrite E1, E2, seq_app.
      * cbn [leaf_vals]. by rewrite V1, V2.
      * cbn [left_complete]. by rewrite V1, V2.
      * cbn [hashed]. done.
    + intros n Hn. rewrite L6. cbn [tlocs] in Hn. unfold fresh_in in *. apply elem_of_cons in Hn as [->|Hn]; [lia|].
      apply elem_of_app in Hn as [[?|?]%F1|[?|?]%F2]; lia.
    + intros n Hn Hr. unfold h6, h5. rewrite !list_lookup_alter_ne.
      * rewrite K4 by lia. rewrite K2 by lia. apply K1; lia.
      * intros <-. pose proof (F1 _ (tloc_in t1)) as [?|?]; lia.
      * intros <-. pose proof (F2 _ (tloc_in t2)) as [?|?]; lia.
Qed.

Lemma built_hash h h' begin size vs t : built h h' begin size vs t → Forall is_hash vs → is_hash (thash t).
Proof. intros ((_ & _ & _ & <- & _) & _). apply thash_is_hash. Qed.

Lemma built_hash_inv h h' begin size vs t : built h h' begin size vs t → buildable vs → is_hash (thash t) → Forall is_hash vs.
Proof.
  intros ((_ & _ & _ & <- & _) & _) [Hl|Hv] Ht; [|done]. destruct t as [n v|n v l r]; cbn in *; [by repeat constructor|].
  rewrite length_app in Hl. pose proof (leaf_vals_nonempty l). pose proof (leaf_vals_nonempty r). lia.
Qed.

Lemma index_seq N i : (i < N)%nat → index_py (seq 0 N) (Z.of_nat i) = Ok i.
Proof.
  intros Hi. unfold index_py, len. rewrite length_seq. rewrite (proj2 (Z.ltb_ge _ _)) by lia. rewrite (proj2 (Z.ltb_ge _ 0)) by lia.
  rewrite Nat2Z.id, lookup_seq_lt by done. done.
Qed.

Lemma make_tree_ok fuel N h begin vs : (1 <= length vs <= fuel)%nat → (begin + length vs <= N <= length h)%nat →
  (∀ i v, vs !! i = Some v → h !! (begin + i)%nat = Some (leaf_node v)) →
  if decide (buildable vs)
  then ∃ t h', make_tree fuel (seq 0 N) (Z.of_nat begin) (len vs) h = (Ok (Some (tloc t)), h') ∧ built h h' begin (length vs) vs t
  else ∃ h', make_tree fuel (seq 0 N) (Z.of_nat begin) (len vs) h = (Err ValueError, h').
Proof.
  revert h begin vs. induction fuel as [|fuel IH]; intros h begin vs Hf HN Hh; [lia|]. cbn [make_tree].
  destruct (Z.eqb_spec (len vs) 0) as [E0|E0]; [unfold len in *; lia|]. destruct (Z.eqb_spec (len vs) 1) as [E1|E1].
  - destruct vs as [|v [|w vs]]; try (unfold len in E1; simpl in E1; lia). rewrite decide_True by (left; simpl; lia).
    simpl in HN. rewrite index_seq by lia. specialize (Hh 0%nat v eq_refl). rewrite Nat.add_0_r in Hh. unfold leaf_node in Hh.
    exists (TLeaf begin v), h. split; [done|]. split; [|split; [|split; [done|lia]]].
    + split; [done|]. split; [apply NoDup_singleton|done].
    + intros n Hn. apply list_elem_of_singleton in Hn as ->. left. simpl. lia.
  - assert (2 <= len vs) as L2 by (unfold len in *; lia). rewrite largest_ok by done.
    erewrite state_bind_eval; [|reflexivity]. pose proof (lp2_bounds _ L2) as (B1 & B2).
    set (k := Z.to_nat (lp2 (len vs))). assert (lp2 (len vs) = Z.of_nat k) as Ek by lia.
    assert (len vs = Z.of_nat (length vs)) as Lz by done.
    assert (len vs = Z.of_nat k + len (drop k vs)) as El by (unfold len in *; rewrite length_drop; lia).
    assert (len (take k vs) = Z.of_nat k) as Etk by (unfold len in *; rewrite length_take; lia).
    assert (length (take k vs) = k) as Ltk by (unfold len in *; lia). assert (length vs = k + length (drop k vs))%nat as Lvs by (unfold len in *; lia).
    pose proof (IH h begin (take k vs) ltac:(lia) ltac:(lia)) as IHl. rewrite Etk, <- Ek, Ltk in IHl.
    specialize (IHl ltac:(intros i v Hi; apply Hh; apply lookup_take_Some in Hi; tauto)).
    destruct (decide (buildable (take k vs))) as [Gl|Gl].
    2:{ destruct IHl as (h1 & Hl). rewrite (state_bind_err _ _ _ _ _ Hl). rewrite decide_False; [by exists h1|].
        intros [G|G]; [lia|]. apply Gl. right. by apply Forall_take. }
    destruct IHl as (t1 & h1 & Hl & Bl). run_step Hl. pose proof Bl as (_ & _ & K1 & L1).
    replace (Z.of_nat begin + lp2 (len vs)) with (Z.of_nat (begin + k)) by lia.
    replace (len vs - lp2 (len vs)) with (len (drop k vs)) by lia.
    pose proof (IH h1 (begin + k)%nat (drop k vs) ltac:(unfold len in *; lia) ltac:(lia)) as IHr.
    specialize (IHr ltac:(intros i v Hi; rewrite K1 by (apply lookup_lt_Some in Hi; lia); rewrite lookup_drop in Hi;
      rewrite <- Nat.add_assoc; by apply Hh)).
    destruct (decide (buildable (drop k vs))) as [Gr|Gr].
    2:{ destruct IHr as (h2 & Hr). rewrite (state_bind_err _ _ _ _ _ Hr). rewrite decide_False; [by exists h2|].
        intros [G|G]; [lia|]. apply Gr. right. by apply Forall_drop. }
    destruct IHr as (t2 & h2 & Hr & Br). run_step Hr. erewrite state_bind_eval; [|reflexivity].
    assert (len (take k vs) = lp2 (len (take k vs ++ drop k vs))) as Hk by (rewrite take_drop; lia).
    destruct (join_built h h1 h2 begin k (length (drop k vs)) _ _ t1 t2 ltac:(lia) Bl Br Hk) as [Hrec Hb]. rewrite take_drop, <- Lvs in Hb.
    rewrite (bool_decide_ext _ (buildable vs)) in Hrec.
    2:{ split; [intros [Q1 Q2]|intros [G|G]; [lia|]].
        - right. rewrite <- (take_drop k vs). apply Forall_app. split; [by eapply (built_hash_inv h h1)|by eapply (built_hash_inv h1 h2)].
        - rewrite <- (take_drop k vs) in G. apply Forall_app in G as [G1 G2]. split; by eapply built_hash. }
    destruct (decide (buildable vs)) as [G|G].
    + rewrite bool_decide_eq_true_2 in Hrec by done. run_step Hrec. do 4 (erewrite state_bind_eval; [|reflexivity]).
      eexists _, _. split; [|exact Hb]. done.
    + rewrite bool_decide_eq_false_2 in Hrec by done. rewrite (state_bind_err _ _ _ _ _ Hrec). by eexists.
Qed.
End build.

(** ** The methods of [MerkleTree] *)

Section methods.
Context `{Hashes}.

Lemma new_holds vs :
  if decide (buildable vs) then ∃ self, MerkleTree_new vs = Ok self ∧ holds self vs else MerkleTree_new vs = Err ValueError.
Proof.
  unfold MerkleTree_new, len. rewrite !length_seq. destruct vs as [|v vs].
  { rewrite decide_True by (left; simpl; lia). eexists. split; [done|]. split; [left; simpl; lia|done]. }
  set (l := v :: vs). change (0 <? Z.of_nat (length l)) with true. cbv iota.
  pose proof (make_tree_ok (length l) (length l) (map leaf_node l) 0 l ltac:(simpl; lia) ltac:(rewrite length_map; lia)) as Hm.
  change (len l) with (Z.of_nat (length l)) in Hm. change (Z.of_nat 0) with 0 in Hm.
  specialize (Hm ltac:(intros i w Hi; cbn [Nat.add]; by rewrite list_lookup_fmap, Hi)).
  destruct (decide (buildable l)) as [G|G].
  - destruct Hm as (t & h' & E & (Ht & _)). rewrite E, ceil_lg_ok, bind_Ok by (simpl; lia). eexists. split; [done|].
    split; [done|]. exists t. done.
  - destruct Hm as (h' & E). by rewrite E.
Qed.

(** What a tree with at least one leaf looks like. *)
Lemma holds_tree self v vs : holds self (v :: vs) → ∃ t,
  tree_of (mt_heap self) (mt_leaves self) (v :: vs) t ∧ mt_root_node self = Some (tloc t) ∧ mt_depth self = Some (Z.log2_up (len (v :: vs))).
Proof. by intros [_ Ht]. Qed.

Lemma holds_leaves self vs : holds self vs → length (mt_leaves self) = length vs.
Proof.
  intros Hh. destruct vs as [|v vs]; [by destruct Hh as [_ [-> _]]|]. apply holds_tree in Hh as (t & (_ & _ & <- & <- & _) & _).
  by rewrite length_leaf_vals.
Qed.

Lemma value_at_repr self p t : repr (mt_heap self) p t → value_at self (Some (tloc t)) = Ok (tval t).
Proof. intros Hr. apply repr_lookup in Hr as (x & Hx & _ & Vx). unfold value_at. rewrite (deref_some _ _ _ Hx). cbn. by rewrite Vx. Qed.

(** A leaf object of the tree: its value, and the path that leads to it. *)
Lemma holds_leaf self vs i v : holds self vs → vs !! i = Some v → ∃ n fs,
  mt_leaves self !! i = Some n ∧ repr (mt_heap self) None (plug fs (TLeaf n v)) ∧ NoDup (tlocs (plug fs (TLeaf n v))) ∧
  Forall (λ f, hashed (f_sib f)) fs ∧ map (λ f, thash (f_sib f)) fs = merkle_proof vs i ∧
  mt_root_node self = Some (tloc (plug fs (TLeaf n v))) ∧
  ∀ x, leaf_vals (plug fs (TLeaf n x)) = <[i := x]> vs ∧ leaf_locs (plug fs (TLeaf n x)) = mt_leaves self ∧
       left_complete (plug fs (TLeaf n x)).
Proof.
  intros Hh Hi. destruct vs as [|w vs]; [done|]. apply holds_tree in Hh as (t & (Hr & Hd & El & Ev & Hc & Hs) & Hn & _).
  assert (is_Some (leaf_locs t !! i)) as [n Hn'] by (apply lookup_lt_is_Some; rewrite <- length_leaf_vals, Ev; by eapply lookup_lt_Some).
  destruct (leaf_path t i n Hn') as (fs & v' & Et & Hv' & Hsib & Hp & Hx). rewrite Ev, Hi in Hv'. injection Hv' as <-.
  exists n, fs. rewrite <- Et, <- El. rewrite Ev in Hp, Hx. split_and!; try done; [by apply Hsib|by apply Hp|].
  intros x. destruct (Hx x) as (? & ? & Hxc). split_and!; [done|done|by apply Hxc].
Qed.

Lemma index_leaves self (vs : list bytes) i v n : vs !! i = Some v → mt_leaves self !! i = Some n → index_py (mt_leaves self) (Z.of_nat i) = Ok n.
Proof.
  intros Hv Hn. unfold index_py. rewrite (proj2 (Z.ltb_ge _ _)) by (unfold len; lia). rewrite (proj2 (Z.ltb_ge _ 0)) by lia.
  by rewrite Nat2Z.id, Hn.
Qed.

Lemma path_depth h fs t : repr h None (plug fs t) → NoDup (tlocs (plug fs t)) → (length fs < length h)%nat.
Proof.
  intros Hr Hd. assert (length (tlocs (plug fs t)) <= length h)%nat as Hl.
  { rewrite <- (length_seq (length h) 0). apply submseteq_length, NoDup_submseteq; [done|]. intros n Hn. apply elem_of_seq.
    pose proof (repr_bound _ _ _ _ Hr Hn). lia. }
  rewrite tlocs_plug, length_app in Hl.
  assert (length fs <= length (path_locs fs))%nat.
  { clear. unfold path_locs. induction fs as [|f fs IH]; [done|]. cbn. rewrite length_app. lia. }
  pose proof (tloc_in t). destruct (tlocs t); [set_solver|]. simpl in Hl. lia.
Qed.

Lemma root_ok self vs : holds self vs → root self = Ok (Some (merkle_root vs)).
Proof.
  intros Hh. unfold root. destruct vs as [|v vs]; [by destruct Hh as [_ [_ ->]]|].
  apply holds_tree in Hh as (t & (Hr & _ & _ & Ev & Hc & Hs) & -> & _). rewrite (value_at_repr _ None) by done.
  by rewrite hashed_tval, thash_root, Ev.
Qed.

Lemma leaf_value self vs i v n : holds self vs → vs !! i = Some v → mt_leaves self !! i = Some n → value_at self (Some n) = Ok (Some v).
Proof.
  intros Hh Hv Hn. destruct (holds_leaf self vs i v Hh Hv) as (m & fs & Hm & Hr & _). rewrite Hn in Hm. injection Hm as <-.
  apply repr_plug in Hr as [Hr _]. by apply value_at_repr in Hr.
Qed.

Lemma prove_leaf_ok self vs i v : holds self vs → vs !! i = Some v →
  prove_leaf self (Z.of_nat i) = Ok (map Some (merkle_proof vs i)).
Proof.
  intros Hh Hv. destruct (holds_leaf self vs i v Hh Hv) as (n & fs & Hn & Hr & Hd & Hs & Hp & _).
  unfold prove_leaf. rewrite (index_leaves self vs i v n), bind_Ok by done.
  pose proof (path_depth _ _ _ Hr Hd). pose proof (proof_loop_ok (S (length (mt_heap self))) fs (TLeaf n v) _ ltac:(lia) Hr Hd Hs) as E.
  cbn [tloc] in E. rewrite E. cbn [fst]. by rewrite <- Hp, map_map.
Qed.

Lemma get_ok self vs i v : holds self vs → vs !! i = Some v → mt_get self (Z.of_nat i) = Ok (Some v).
Proof.
  intros Hh Hv. destruct (holds_leaf self vs i v Hh Hv) as (n & fs & Hn & _). unfold mt_get.
  rewrite (index_leaves self vs i v n), bind_Ok by done. by eapply leaf_value.
Qed.

Lemma leaf_index_ok self vs x : holds self vs →
  leaf_index self x = of_option ValueError ((λ p, Z.of_nat p.1) <$> list_find (λ v, v = x) vs).
Proof.
  intros Hh. unfold leaf_index.
  enough (∀ ls ws k, ls = drop k (mt_leaves self) → ws = drop k vs →
    leaf_index_from self ls x (Z.of_nat k) = of_option ValueError ((λ p, Z.of_nat (k + p.1)) <$> list_find (λ v, v = x) ws)) as Hg.
  { by apply (Hg (mt_leaves self) vs 0%nat); rewrite drop_0. }
  pose proof (holds_leaves self vs Hh) as Hlen.
  induction ls as [|n ls IH]; intros ws k El Ew.
  - assert (length (drop k (mt_leaves self)) = 0%nat) as E by (by rewrite <- El). rewrite length_drop in E.
    by rewrite Ew, drop_ge by lia.
  - destruct ws as [|w ws].
    { assert (length (drop k vs) = 0%nat) as E by (by rewrite <- Ew). rewrite length_drop in E.
      assert (length (drop k (mt_leaves self)) ≠ 0%nat) as E2 by (by rewrite <- El). rewrite length_drop in E2. lia. }
    assert (mt_leaves self !! k = Some n) as Hn by (rewrite <- (Nat.add_0_r k), <- lookup_drop, <- El; done).
    assert (vs !! k = Some w) as Hw by (rewrite <- (Nat.add_0_r k), <- lookup_drop, <- Ew; done).
    cbn [leaf_index_from]. rewrite (leaf_value self vs k w n Hh Hw Hn), bind_Ok. cbn [list_find].
    destruct (decide (w = x)) as [->|Hne].
    + rewrite bool_decide_eq_true_2 by done. cbn. do 2 f_equal. lia.
    + rewrite bool_decide_eq_false_2 by (by intros [= ->]).
      replace (Z.of_nat k + 1) with (Z.of_nat (S k)) by lia. rewrite (IH ws (S k)).
      * destruct (list_find _ ws) as [[j y]|]; cbn; [|done]. do 2 f_equal. lia.
      * by rewrite <- Nat.add_1_r, <- drop_drop, <- El.
      * by rewrite <- Nat.add_1_r, <- drop_drop, <- Ew.
Qed.

Lemma copy_ok self vs : holds self vs → ∃ c, copy self = Ok c ∧ holds c vs.
Proof.
  intros Hh. unfold copy. assert (mapR (λ n, v ← value_at self (Some n); of_option TypeError v) (mt_leaves self) = Ok vs) as ->.
  { apply mapR_Forall2, Forall2_same_length_lookup_2; [by apply holds_leaves|]. intros i n v Hn Hv.
    by rewrite (leaf_value self vs i v n), bind_Ok. }
  rewrite bind_Ok. pose proof (new_holds vs) as Hn. rewrite decide_True in Hn by apply Hh. exact Hn.
Qed.

Lemma on_heap_ok {A} (m : state heap A) self r h : m (mt_heap self) = (r, h) → on_heap m self = (r, set_heap h self).
Proof. intros E. unfold on_heap, zoom. by rewrite E. Qed.

Lemma tloc_plug fs t t' : tloc t = tloc t' → tloc (plug fs t) = tloc (plug fs t').
Proof. revert t t'. induction fs as [|f fs IH]; intros t t' E; [done|]. cbn [plug]. apply IH. by rewrite !tloc_fnode. Qed.

Lemma NoDup_plug fs t t' : tlocs t ≡ₚ tlocs t' → NoDup (tlocs (plug fs t)) → NoDup (tlocs (plug fs t')).
Proof. intros E. by rewrite !tlocs_plug, E. Qed.

(** A value computed along a path leaves a well-formed tree. *)
Lemma holds_rehash (self' : MerkleTree) vs t : repr (mt_heap self') None (rehash_tree t) → NoDup (tlocs t) → left_complete t →
  leaf_locs t = mt_leaves self' → leaf_vals t = vs → buildable vs → mt_root_node self' = Some (tloc t) →
  mt_depth self' = Some (Z.log2_up (len vs)) → holds self' vs.
Proof.
  intros Hr Hd Hc El Ev Hb Hn Hdp. split; [done|]. pose proof (nonempty_leaf_vals t) as Ne. rewrite Ev in Ne. destruct vs as [|v vs]; [done|].
  exists (rehash_tree t). pose proof (rehash_same t) as (-> & Et & El' & Ev' & _ & Hh). split; [|done].
  split; [done|]. rewrite Et, El', Ev'. split_and!; try done. by apply rehash_left_complete.
Qed.

Lemma insert_hash vs i x : buildable vs → is_hash x → (i < length vs)%nat → Forall is_hash (<[i := x]> vs).
Proof.
  intros [Hl|Hv] Hx Hi; [|by apply Forall_insert]. destruct vs as [|v [|w vs]]; simpl in *; [lia| |lia].
  destruct i; [|lia]. by repeat constructor.
Qed.

Lemma set_ok self vs i x : holds self vs → (i < length vs)%nat → is_hash x →
  ∃ self', set (Z.of_nat i) x self = (Ok (), self') ∧ holds self' (<[i := x]> vs).
Proof.
  intros Hh Hi Hx. assert (is_Some (vs !! i)) as [v Hv] by by apply lookup_lt_is_Some.
  destruct (holds_leaf self vs i v Hh Hv) as (n & fs & Hn & Hr & Hd & Hs & _ & Hroot & Hp). destruct (Hp x) as (Ev & El & Hc).
  assert (∃ s', set (Z.of_nat i) x self = on_heap (fix_up (length (mt_heap self)) (fparent fs)) s' ∧
    s' = set_heap (alter (set_value (Some x)) n (mt_heap self)) self) as (s' & -> & Es').
  { unfold set. erewrite state_bind_eval; [|reflexivity]. unfold mt_len, len. rewrite (holds_leaves self vs Hh).
    rewrite (proj2 (Z.leb_le 0 _)), (proj2 (Z.leb_le (Z.of_nat i) _)) by lia. cbn [andb].
    rewrite (state_bind_eval _ _ _ _ _ (assert_true self)). erewrite state_bind_eval; [|reflexivity].
    unfold is_hash in Hx. rewrite Hx. erewrite state_bind_eval; [|reflexivity]. destruct (Z.eqb_spec (Z.of_nat i) (Z.of_nat (length vs))); [lia|].
    rewrite (index_leaves self vs i v n Hv Hn). erewrite state_bind_eval; [|reflexivity]. erewrite state_bind_eval; [|reflexivity].
    pose proof (proj1 (repr_plug _ _ _) Hr) as [Hlf _]. cbn [repr tloc] in Hlf. erewrite state_bind_eval.
    2:{ apply on_heap_ok, deref_some. cbn [mt_heap set_heap]. by rewrite list_lookup_alter_eq, Hlf. }
    by eexists. }
  pose proof (proj1 (repr_plug _ _ _) Hr) as [Hlf Hpath]. set (h1 := alter (set_value (Some x)) n (mt_heap self)) in *.
  assert (repr h1 None (plug fs (TLeaf n x))) as Hr1.
  { apply repr_plug. cbn [repr tloc] in *. split; [unfold h1; by rewrite list_lookup_alter_eq, Hlf|].
    eapply repr_path_ext; [|exact Hpath]. intros m Hm. apply list_lookup_alter_ne. intros <-.
    rewrite tlocs_plug in Hd. apply NoDup_app in Hd as (_ & Hd & _). apply (Hd n); [cbn; set_solver|done]. }
  assert (NoDup (tlocs (plug fs (TLeaf n x)))) as Hd1 by (by eapply NoDup_plug; [|exact Hd]).
  assert (Forall is_hash (leaf_vals (plug fs (TLeaf n x)))) as Hv1 by (rewrite Ev; apply insert_hash; [apply Hh|done..]).
  pose proof (path_depth _ _ _ Hr Hd) as Hdepth.
  destruct (fix_up_ok (length (mt_heap self)) fs (TLeaf n x) h1 ltac:(lia) Hr1 Hd1 I Hs Hv1) as (h' & Hfix & Hr' & _).
  exists (set_heap h' s'). split; [apply on_heap_ok; by rewrite Es'|]. rewrite Es'.
  eapply holds_rehash; [exact Hr'|exact Hd1|exact Hc|exact El|exact Ev| | |].
  - right. by rewrite <- Ev.
  - cbn [mt_root_node set_heap]. rewrite Hroot. f_equal. by apply tloc_plug.
  - cbn [mt_depth set_heap]. destruct vs as [|w vs]; [done|]. apply holds_tree in Hh as (_ & _ & _ & ->).
    unfold len. by rewrite length_insert.
Qed.

(** ** [add] *)

(** The new leaf is joined with [c], the root or the right child of the root. *)
Definition attach_heap (h : heap) (fs : list frame) (c : tree) (x : bytes) : heap :=
  let nl := length h in
  let nn := S (length h) in
  let h2 := (h ++ [leaf_node x]) ++ [mkNode (Some (tloc c)) (Some nl) (fparent fs) None] in
  let h3 := match fs with f :: _ => alter (set_right (Some nn)) (f_loc f) h2 | [] => h2 end in
  alter (set_parent (Some nn)) nl (alter (set_parent (Some nn)) (tloc c) h3).

Definition new_frame (h : heap) (x : bytes) : frame :=
  mkFrame false (S (length h)) None (TLeaf (length h) x).

Lemma attach_repr h fs c x : repr h None (plug fs c) → NoDup (tlocs (plug fs c)) → (∀ f gs, fs = f :: gs → f_right f = true) →
  repr (attach_heap h fs c x) None (plug (new_frame h x :: fs) c) ∧ NoDup (tlocs (plug (new_frame h x :: fs) c)) ∧
  length (attach_heap h fs c x) = S (S (length h)).
Proof.
  intros Hr Hd Hfs. assert (∀ n, n ∈ tlocs (plug fs c) → (n < length h)%nat) as Hb by (intros n; by apply repr_bound with None).
  assert (∀ n, n ∈ tlocs c → (n < length h)%nat) as Hbc by (intros n Hn; apply Hb; rewrite tlocs_plug; set_solver).
  assert (∀ n, n ∈ path_locs fs → (n < length h)%nat) as Hbp by (intros n Hn; apply Hb; rewrite tlocs_plug; set_solver).
  assert (∀ n, n ∈ tlocs c → n ∉ path_locs fs) as Hdis by (rewrite tlocs_plug in Hd; by apply NoDup_app in Hd as (_ & ? & _)).
  apply repr_plug in Hr as [Hc Hp]. split; [|split].
  - apply repr_plug. cbn [plug fparent repr_path new_frame f_right f_loc f_sib f_val tloc]. unfold attach_heap. cbv zeta.
    set (h2 := (h ++ _) ++ _). set (h3 := match fs with [] => h2 | _ => _ end). set (nn := S (length h)).
    assert (∀ n, (n < length h)%nat → h2 !! n = h !! n) as K2 by (intros n Hn; unfold h2; by rewrite <- app_assoc, lookup_app_l).
    assert (∀ n, (n < length h)%nat → fparent fs ≠ Some n → h3 !! n = h !! n) as K3.
    { intros n Hn Hf. unfold h3. destruct fs as [|f fs]; [by apply K2|]. rewrite list_lookup_alter_ne by (intros <-; by apply Hf). by apply K2. }
    assert (∀ n, h3 !! (length h + n)%nat = h2 !! (length h + n)%nat) as K3'.
    { intros n. unfold h3. destruct fs as [|f fs]; [done|]. apply list_lookup_alter_ne. specialize (Hbp (f_loc f)).
      unfold path_locs in Hbp. cbn in Hbp. specialize (Hbp ltac:(set_solver)). lia. }
    assert (∀ n, n ∈ tlocs c → fparent fs ≠ Some n) as Hpc.
    { intros n Hn Hf. apply (Hdis n Hn). destruct fs as [|f fs]; [done|]. injection Hf as <-. unfold path_locs. cbn. set_solver. }
    assert (repr h3 (fparent fs) c) as Hc3 by (eapply repr_ext; [|exact Hc]; intros n Hn; apply K3; [by apply Hbc|by apply Hpc]).
    apply (repr_set_parent _ _ (Some nn)) in Hc3; [|rewrite tlocs_plug in Hd; by apply NoDup_app in Hd as (? & _)].
    set (h4 := alter _ (tloc c) h3) in *. pose proof (Hbc _ (tloc_in c)) as Bc. split; [|split; [|split]].
    + eapply repr_ext; [|exact Hc3]. intros n Hn. apply list_lookup_alter_ne. pose proof (Hbc n Hn). lia.
    + rewrite list_lookup_alter_ne by lia. unfold h4. rewrite list_lookup_alter_ne by lia.
      replace nn with (length h + 1)%nat by lia. rewrite K3'. unfold h2.
      rewrite lookup_app_r, length_app by (rewrite length_app; simpl; lia). simpl length. by rewrite Nat.sub_diag.
    + cbn [repr]. rewrite list_lookup_alter_eq. unfold h4. rewrite list_lookup_alter_ne by lia.
      rewrite <- (Nat.add_0_r (length h)) at 1. rewrite K3'. unfold h2. rewrite Nat.add_0_r, <- app_assoc. cbn [app]. by rewrite list_lookup_middle.
    + assert (∀ n, n ∈ path_locs fs → fparent fs ≠ Some n → alter (set_parent (Some nn)) (length h) h4 !! n = h !! n) as K5.
      { intros n Hn Hf. pose proof (Hbp n Hn). rewrite list_lookup_alter_ne by lia. unfold h4.
        rewrite list_lookup_alter_ne by (intros <-; by apply (Hdis _ (tloc_in c))). apply K3; [lia|done]. }
      destruct fs as [|f fs]; [done|]. specialize (Hfs f fs eq_refl). cbn [repr_path fparent] in *.
      rewrite tlocs_plug in Hd. apply NoDup_app in Hd as (_ & _ & Hd). unfold path_locs in Hd, K5, Hbp. cbn [map concat] in Hd, K5, Hbp.
      apply NoDup_cons in Hd as [Hnf Hd]. destruct Hp as (Hf & Hs & Hp). rewrite Hfs in *.
      assert (f_loc f < length h)%nat as Bf by (apply Hbp; set_solver). split; [|split].
      * rewrite list_lookup_alter_ne by lia. unfold h4. rewrite list_lookup_alter_ne by (intros E; apply (Hpc _ (tloc_in c)); by rewrite E).
        unfold h3. rewrite list_lookup_alter_eq, K2, Hf by done. done.
      * eapply repr_ext; [|exact Hs]. intros n Hn. apply K5; [set_solver|]. intros [= <-]. apply Hnf. set_solver.
      * eapply repr_path_ext; [|exact Hp]. intros n Hn. unfold path_locs in Hn. apply K5; [set_solver|]. intros [= <-]. apply Hnf. set_solver.
  - rewrite tlocs_plug in Hd |- *. unfold path_locs. cbn [map concat new_frame f_loc f_sib tlocs]. fold (path_locs fs).
    apply NoDup_app in Hd as (D1 & D2 & D3). apply NoDup_app. split; [done|]. split.
    + intros n Hn Hx. apply elem_of_app in Hx as [Hx|Hx]; [|by apply (D2 n)]. pose proof (Hbc n Hn). set_unfold. lia.
    + cbn [app]. apply NoDup_cons. split; [|apply NoDup_cons; split; [|done]].
      * rewrite elem_of_cons. intros [?|Hx]; [lia|]. apply Hbp in Hx. lia.
      * intros Hx. apply Hbp in Hx. lia.
  - unfold attach_heap. cbv zeta. rewrite !length_alter. destruct fs; rewrite ?length_alter, !length_app; simpl; lia.
Qed.

Lemma lookup_snoc_lt (h : heap) x n y : h !! n = Some y → (h ++ [x]) !! n = Some y.
Proof. intros Hn. by apply lookup_app_l_Some. Qed.

(** What [add] does once the place of the new leaf is found. *)
Lemma add_run self vs x fs c depth : holds self vs → vs ≠ [] → is_hash x → mt_depth self = Some depth →
  repr (mt_heap self) None (plug fs c) → (∀ f gs, fs = f :: gs → f_right f = true) →
  descend (S (length vs)) (mt_root_node self) (PyInt (len vs)) (PyInt (if depth =? 0 then 0 else Z.shiftl 1 (depth - 1)))
    (mt_heap self ++ [leaf_node x]) = (Ok (Some (tloc c)), mt_heap self ++ [leaf_node x]) →
  add x self = on_heap (fix_up (S (S (length (mt_heap self)))) (Some (S (length (mt_heap self)))))
    (mkTree (attach_heap (mt_heap self) fs c x) (mt_leaves self ++ [length (mt_heap self)])
       (if fs is [] then Some (S (length (mt_heap self))) else mt_root_node self)
       (if fs is [] then Some (depth + 1) else mt_depth self)).
Proof.
  intros Hh Hne Hx Hdp Hr Hfs Hdesc. pose proof (holds_leaves self vs Hh) as Hlen. apply repr_plug in Hr as [Hc Hp].
  apply repr_lookup in Hc as (y & Hy & Py & _). unfold add. unfold is_hash in Hx.
  assert (len x =? 32 = true) as -> by (unfold len; rewrite Hx; done). erewrite state_bind_eval; [|reflexivity].
  erewrite state_bind_eval; [|reflexivity]. erewrite state_bind_eval; [|reflexivity].
  erewrite state_bind_eval; [|reflexivity]. cbn [set_heap set_leaves mt_heap mt_leaves mt_root_node mt_depth].
  rewrite !length_app, Hlen. assert (len (mt_leaves self ++ [length (mt_heap self)]) = len vs + 1) as ->.
  { unfold len. rewrite length_app, Hlen. simpl. lia. }
  assert (1 <= len vs) as Hl by (destruct vs; [done|unfold len; simpl; lia]). destruct (Z.eqb_spec (len vs + 1) 1); [lia|].
  erewrite (state_bind_eval (liftS _)); [|rewrite Hdp; reflexivity]. cbv zeta. rewrite Z.add_simpl_r. simpl length. rewrite Nat.add_1_r.
  erewrite state_bind_eval; [|apply on_heap_ok, Hdesc]. cbn [set_heap mt_heap mt_leaves mt_root_node mt_depth].
  erewrite state_bind_eval; [|apply on_heap_ok, deref_some, lookup_snoc_lt, Hy]. rewrite Py.
  erewrite state_bind_eval; [|reflexivity]. cbn [set_heap mt_heap mt_leaves mt_root_node mt_depth].
  rewrite length_app. simpl length. rewrite Nat.add_1_r.
  destruct fs as [|f fs]; cbn [fparent].
  - erewrite state_bind_eval; [|reflexivity]. do 4 (erewrite state_bind_eval; [|reflexivity]). unfold on_heap, zoom, get, modify.
    cbn [set_heap set_depth set_root mt_heap mt_leaves mt_root_node mt_depth].
    match goal with |- context [fix_up (length ?h)] => replace (length h) with (S (S (length (mt_heap self)))); [reflexivity|] end.
    rewrite !length_alter, !length_app. simpl. lia.
  - specialize (Hfs f fs eq_refl). destruct Hp as (Hf & _). rewrite Hfs in Hf.
    erewrite state_bind_eval.
    2:{ erewrite state_bind_eval; [|apply on_heap_ok, deref_some, lookup_snoc_lt, lookup_snoc_lt, Hf].
        cbn [n_right]. rewrite bool_decide_eq_true_2 by done. erewrite state_bind_eval; [|reflexivity]. reflexivity. }
    do 4 (erewrite state_bind_eval; [|reflexivity]). unfold on_heap, zoom, get, modify.
    cbn [set_heap set_depth set_root mt_heap mt_leaves mt_root_node mt_depth].
    match goal with |- context [fix_up (length ?h)] => replace (length h) with (S (S (length (mt_heap self)))); [reflexivity|] end.
    rewrite !length_alter, !length_app. simpl. lia.
Qed.

(** The size of the last complete subtree that the new leaf is joined with; a
    second step to the right is not survived. *)
Definition rest_size (n : Z) : Z := if bool_decide (n = 2 ^ Z.log2 n) then n else n - lp2 n.
Definition can_add (n : Z) : Prop := n = 0 ∨ rest_size n = 2 ^ Z.log2 (rest_size n).

#[export] Instance can_add_dec n : Decision (can_add n).
Proof. unfold can_add. apply _. Defined.

Lemma lp2_not_pow2 n : 1 <= n → n ≠ 2 ^ Z.log2 n → lp2 n = 2 ^ Z.log2 n ∧ 2 ^ Z.log2 n < n < 2 * 2 ^ Z.log2 n.
Proof.
  intros Hn E. unfold lp2. rewrite log2_up_not_pow2, Z.add_simpl_r by done.
  pose proof (Z.log2_spec n ltac:(lia)) as [L1 L2]. rewrite Z.pow_succ_r in L2 by apply Z.log2_nonneg. lia.
Qed.

Lemma lp2_succ_pow2 m : 1 <= m → m = 2 ^ Z.log2 m → lp2 (m + 1) = m.
Proof.
  intros Hm E. pose proof (Z.log2_nonneg m). rewrite E at 2. apply lp2_unique; [done|]. lia.
Qed.

Lemma log2_up_succ n : 1 <= n → Z.log2_up (n + 1) = Z.log2 n + 1.
Proof.
  intros Hn. pose proof (Z.log2_nonneg n). pose proof (Z.log2_spec n ltac:(lia)) as [L1 L2].
  apply Z.log2_up_unique; [lia|]. rewrite Z.add_1_r, Z.pred_succ. lia.
Qed.

(** Where the new leaf goes: the root if the tree is complete, else its right child. *)
Lemma find_place t h fuel nl x (n := len (leaf_vals t)) : repr h None t → hashed t → left_complete t → can_add n → (2 <= fuel)%nat →
  ∃ fs c, t = plug fs c ∧ (∀ f gs, fs = f :: gs → f_right f = true) ∧ hashed c ∧ Forall (λ f, hashed (f_sib f)) fs ∧
    descend fuel (Some (tloc t)) (PyInt n) (PyInt (if Z.log2_up n =? 0 then 0 else Z.shiftl 1 (Z.log2_up n - 1))) h = (Ok (Some (tloc c)), h) ∧
    (∀ f, f_right f = false → f_sib f = TLeaf nl x → left_complete (plug (f :: fs) c) ∧
      leaf_locs (plug (f :: fs) c) = leaf_locs t ++ [nl] ∧ leaf_vals (plug (f :: fs) c) = leaf_vals t ++ [x]) ∧
    (if fs is [] then Z.log2_up n + 1 else Z.log2_up n) = Z.log2_up (n + 1).
Proof.
  intros Hr Hs Hc Hcan Hf. pose proof (len_leaf_vals t) as Hn. fold n in Hn. rewrite log2_up_succ by done.
  destruct fuel as [|[|fuel]]; [lia..|]. destruct (decide (n = 2 ^ Z.log2 n)) as [E|E].
  - exists [], t. split; [done|]. split; [done|]. split; [done|]. split; [constructor|]. split; [|split; [|by rewrite log2_up_pow2]].
    + cbn [descend]. rewrite is_power_of_2_ok, bool_decide_eq_true_2 by done. done.
    + intros f Hfr Hfs. cbn [plug]. unfold fnode. rewrite Hfr, Hfs. cbn [left_complete leaf_vals leaf_locs].
      split; [|done]. split; [|done]. rewrite len_app. fold n. change (len [x]) with 1. by rewrite lp2_succ_pow2.
  - destruct Hcan as [?|Hcan]; [lia|]. unfold rest_size in Hcan. rewrite bool_decide_eq_false_2 in Hcan by done.
    destruct (lp2_not_pow2 n Hn E) as [El Hb]. destruct t as [k v|k v l r]; [by vm_compute in E|].
    destruct Hs as (Hv & Hl & Hrs), Hc as (Hk & Hcl & Hcr). cbn [repr] in Hr. cbn [leaf_vals] in n. fold n in Hk.
    assert (len (leaf_vals r) = n - lp2 n) as Em by (pose proof (len_app (leaf_vals l) (leaf_vals r)) as Ea; fold n in Ea; lia).
    exists [mkFrame true k v l], r. split; [done|]. split; [by intros ? ? [= <- _]|]. split; [done|]. split; [by repeat constructor|].
    split; [|split; [|by rewrite log2_up_not_pow2]].
    + cbn [descend]. rewrite is_power_of_2_ok, bool_decide_eq_false_2 by done. erewrite state_bind_eval; [|reflexivity]. cbv iota.
      cbn [tloc]. erewrite state_bind_eval; [|apply deref_some, Hr]. cbn [n_right num_sub num_half].
      pose proof (Z.log2_nonneg n). rewrite log2_up_not_pow2, Z.add_simpl_r by done. destruct (Z.eqb_spec (Z.log2 n + 1) 0); [lia|].
      rewrite Z.shiftl_1_l, <- El. rewrite is_power_of_2_ok, bool_decide_eq_true_2 by (done || lia). done.
    + intros f Hfr Hfs. cbn [plug]. unfold fnode at 1 3 5. cbn [f_right f_loc f_val f_sib]. unfold fnode. rewrite Hfr, Hfs.
      cbn [left_complete leaf_vals leaf_locs]. rewrite !app_assoc. split; [|done]. fold n. split; [|split; [done|]].
      * rewrite len_app. fold n. change (len [x]) with 1. rewrite Hk, El. symmetry. apply lp2_unique; [apply Z.log2_nonneg|lia].
      * split; [|done]. rewrite len_app, Em. change (len [x]) with 1. by rewrite lp2_succ_pow2 by lia.
Qed.

Lemma add_ok self vs x : holds self vs → is_hash x → buildable (vs ++ [x]) → can_add (len vs) →
  ∃ self', add x self = (Ok (), self') ∧ holds self' (vs ++ [x]).
Proof.
  intros Hh Hx Hb Hcan. destruct vs as [|v vs].
  { destruct Hh as [_ [El Er]]. unfold add. unfold is_hash in Hx.
    assert (len x =? 32 = true) as -> by (unfold len; rewrite Hx; done). eexists. split.
    - erewrite state_bind_eval; [|reflexivity]. erewrite state_bind_eval; [|reflexivity]. erewrite state_bind_eval; [|reflexivity].
      cbn [set_heap mt_leaves]. rewrite El. reflexivity.
    - split; [done|]. exists (TLeaf (length (mt_heap self)) x). split; [|done].
      split; [by apply list_lookup_middle|]. split; [apply NoDup_singleton|done]. }
  set (ws := v :: vs) in *. pose proof (holds_tree self v vs Hh) as (t & (Hr & Hd & El & Ev & Hc & Hs) & Hroot & Hdp). fold ws in Ev, Hdp.
  assert (1 <= len ws) as Hn by (unfold len, ws; simpl; lia). pose proof (Z.log2_nonneg (len ws)).
  destruct Hb as [Hb|Hb]; [rewrite length_app in Hb; unfold ws in Hb; simpl in Hb; lia|].
  assert (repr (mt_heap self ++ [leaf_node x]) None t) as Hr1
    by (eapply repr_ext; [|exact Hr]; intros n Hin; apply lookup_app_l; by eapply repr_bound).
  destruct (find_place t _ (S (length ws)) (length (mt_heap self)) x Hr1 Hs Hc ltac:(by rewrite Ev) ltac:(unfold ws; simpl; lia))
    as (fs & c & -> & Hright & Hsc & Hsf & Hdesc & Hnew & Hdp').
  rewrite Ev in Hdesc, Hdp'. rewrite <- Hroot in Hdesc.
  pose proof (attach_repr (mt_heap self) fs c x Hr Hd Hright) as (Hr' & Hd' & Hlh).
  destruct (Hnew (new_frame (mt_heap self) x) eq_refl eq_refl) as (Nc & Nl & Nv).
  rewrite (add_run self ws x fs c _ Hh ltac:(done) Hx Hdp Hr Hright Hdesc).
  pose proof (path_depth _ _ _ Hr' Hd') as Hdepth. rewrite Hlh in Hdepth.
  destruct (fix_up_ok (S (S (length (mt_heap self)))) (new_frame (mt_heap self) x :: fs) c _ ltac:(lia) Hr' Hd' Hsc
    ltac:(constructor; [exact I|done]) ltac:(by rewrite Nv, Ev)) as (h' & Hfix & Hrh & _).
  eexists. split; [apply on_heap_ok; exact Hfix|].
  eapply holds_rehash; [exact Hrh|exact Hd'|exact Nc| | | | |]; cbn [mt_leaves mt_root_node mt_depth set_heap].
  - by rewrite Nl, El.
  - by rewrite Nv, Ev.
  - by right.
  - destruct fs as [|f fs]; [done|]. rewrite Hroot. f_equal. cbn [plug]. apply tloc_plug. by rewrite !tloc_fnode.
  - rewrite len_app. change (len [x]) with 1. rewrite <- Hdp', Hdp. by destruct fs.
Qed.
(** The test asks first whether what is left, here two times it, is at least 1. *)
Definition add_error (n : Z) : pyexn := if 2 <=? 2 * (n - lp2 n) - lp2 n then TypeError else AssertionError.

(** Halving the size with [/=] makes a float, on which the test for a power of 2
    fails: a leaf cannot be added when that takes two steps to the right, as for
    the eighth leaf, and the leaf has by then been appended to [leaves]. *)
Lemma add_fails self vs x : holds self vs → is_hash x → ¬ can_add (len vs) →
  ∃ self', add x self = (Err (add_error (len vs)), self') ∧ length (mt_leaves self') = S (length vs).
Proof.
  intros Hh Hx Hcan. destruct vs as [|v vs]; [by destruct Hcan; left|].
  set (ws := v :: vs) in *. pose proof (holds_tree self v vs Hh) as (t & (Hr & _ & El & Ev & Hc & _) & Hroot & Hdp). fold ws in Ev, Hdp.
  assert (1 <= len ws) as Hn by (unfold len, ws; simpl; lia). pose proof (holds_leaves self ws Hh) as Hlen.
  assert (len ws ≠ 2 ^ Z.log2 (len ws)) as E.
  { intros E. apply Hcan. right. unfold rest_size. by rewrite bool_decide_eq_true_2. }
  destruct (lp2_not_pow2 _ Hn E) as [El2 Hb]. unfold can_add, rest_size in Hcan. rewrite bool_decide_eq_false_2 in Hcan by done.
  unfold add. unfold is_hash in Hx. assert (len x =? 32 = true) as -> by (unfold len; rewrite Hx; done).
  erewrite state_bind_eval; [|reflexivity]. erewrite state_bind_eval; [|reflexivity]. erewrite state_bind_eval; [|reflexivity].
  erewrite state_bind_eval; [|reflexivity]. cbn [set_heap set_leaves mt_heap mt_leaves mt_root_node mt_depth].
  rewrite !length_app, Hlen. assert (len (mt_leaves self ++ [length (mt_heap self)]) = len ws + 1) as ->.
  { unfold len. rewrite length_app, Hlen. simpl length. lia. }
  destruct (Z.eqb_spec (len ws + 1) 1); [lia|]. erewrite (state_bind_eval (liftS _)); [|rewrite Hdp; reflexivity]. cbv zeta.
  rewrite Z.add_simpl_r, Hroot. pose proof (Z.log2_nonneg (len ws)).
  rewrite log2_up_not_pow2, Z.add_simpl_r by done. destruct (Z.eqb_spec (Z.log2 (len ws) + 1) 0); [lia|]. rewrite Z.shiftl_1_l, <- El2.
  unfold add_error. set (k := lp2 (len ws)) in *. clearbody k.
  assert (∀ (h : heap) fuel, (3 <= fuel)%nat → repr h None t → 
    descend fuel (Some (tloc t)) (PyInt (len ws)) (PyInt k) h = (Err (if 2 <=? 2 * (len ws - k) - k then TypeError else AssertionError), h)) as Hdesc.
  { intros h fuel Hf Hrh. destruct fuel as [|[|[|fuel]]]; [lia..|]. destruct t as [a w|a w l r]; [by rewrite <- Ev in E|].
    destruct Hrh as (Ha & _ & Hrr). apply repr_lookup in Hrr as (y & Hy & _). cbn [descend tloc].
    rewrite is_power_of_2_ok, bool_decide_eq_false_2 by done. erewrite state_bind_eval; [|reflexivity]. cbv iota.
    erewrite state_bind_eval; [|apply deref_some, Ha]. cbn [n_right num_sub num_half].
    assert (1 <= len ws - k) by lia. rewrite is_power_of_2_ok, bool_decide_eq_false_2 by (done || (intros ?; apply Hcan; by right)).
    erewrite state_bind_eval; [|reflexivity]. cbv iota. erewrite state_bind_eval; [|apply deref_some, Hy]. cbn [num_sub is_power_of_2].
    change (2 ^ 1) with 2.
    replace ((len ws - k) * 2 - k) with (2 * (len ws - k) - k) by ring. by destruct (2 <=? _). }
  assert (2 <= length ws)%nat as L2 by (destruct (length ws) as [|[|?]] eqn:E3; [unfold len in Hn; rewrite E3 in Hn; lia|unfold len in E; by rewrite E3 in E|lia]).
  assert (repr (mt_heap self ++ [leaf_node x]) None t) as Hr1
    by (eapply repr_ext; [|exact Hr]; intros m Hm; apply lookup_app_l; by eapply repr_bound).
  pose proof (Hdesc _ (length ws + 1)%nat ltac:(lia) Hr1) as Ed.
  eexists. split; [apply state_bind_err, on_heap_ok, Ed|]. cbn [set_heap set_leaves mt_leaves]. rewrite length_app, Hlen. simpl. lia.
Qed.

(** A single element that is not a hash cannot be hashed with a second one. *)
Lemma add_unhashed self v x : holds self [v] → is_hash x → ¬ is_hash v → ∃ self', add x self = (Err ValueError, self').
Proof.
  intros Hh Hx Hv. pose proof (holds_tree self v [] Hh) as (t & (Hr & Hd & _ & Ev & _) & Hroot & Hdp).
  destruct t as [n w|n w l r].
  2:{ apply (f_equal length) in Ev. cbn in Ev. rewrite length_app in Ev. pose proof (nonempty_leaf_vals l). pose proof (nonempty_leaf_vals r).
      destruct (leaf_vals l), (leaf_vals r); simpl in *; lia || done. }
  injection Ev as ->. pose proof (attach_repr (mt_heap self) [] (TLeaf n v) x Hr Hd ltac:(done)) as (Hr' & _ & _).
  rewrite (add_run self [v] x [] (TLeaf n v) 0 Hh ltac:(done) Hx Hdp Hr ltac:(done)) by (rewrite Hroot; reflexivity).
  cbn [plug] in Hr'. unfold fnode in Hr'. cbn [f_right new_frame f_loc f_val f_sib repr tloc] in Hr'. destruct Hr' as (Hn & Hl & Hrr).
  eexists. unfold on_heap, zoom. cbn [mt_heap fix_up].
  assert (∀ h, h = attach_heap (mt_heap self) [] (TLeaf n v) x → recompute_value (S (length (mt_heap self))) h = (Err ValueError, h)) as E.
  { intros h ->. unfold recompute_value. erewrite state_bind_eval; [|apply deref_some, Hn]. cbn [n_left n_right].
    do 2 (erewrite state_bind_eval; [|reflexivity]). erewrite state_bind_eval; [|apply deref_some, Hl].
    erewrite state_bind_eval; [|apply deref_some, Hrr]. do 2 (erewrite state_bind_eval; [|reflexivity]).
    apply state_bind_err. unfold combine_hashes, liftS. cbn [n_value]. rewrite (proj2 (Z.eqb_neq (len v) 32)); [done|].
    intros E. apply Hv. unfold is_hash, len in *. lia. }
  by rewrite (state_bind_err _ _ _ _ _ (E _ eq_refl)).
Qed.
End methods.

(** ** Proofs of membership *)

Section membership.
Context `{Hashes}.

(** The strings that are hashed for the tree of the elements [els]. *)
Definition list_inputs (els : list bytes) : list bytes := map (cons (chr 0)) els ++ node_inputs (map element_hash els).

Lemma mnodes_fuel fuel fuel' vs : (length vs <= fuel)%nat → (length vs <= fuel')%nat → mnodes fuel vs = mnodes fuel' vs.
Proof.
  revert fuel' vs. induction fuel as [|fuel IH]; intros [|fuel'] [|v [|w vs]] H1 H2; cbn [mnodes]; try done; try (simpl in *; lia).
  set (l := v :: w :: vs) in *. pose proof (lp2_bounds (len l) ltac:(unfold len, l; simpl; lia)). unfold len in *. cbv zeta.
  f_equal. f_equal; apply IH; unfold split_size, len; rewrite ?length_take, ?length_drop; lia.
Qed.

Lemma mnodes_step fuel vs : (2 <= length vs)%nat → let l := take (split_size vs) vs in let r := drop (split_size vs) vs in
  mnodes (S fuel) vs = (chr 1 :: merkle_root l ++ merkle_root r) :: mnodes fuel l ++ mnodes fuel r.
Proof. destruct vs as [|v [|w vs]]; simpl length; [lia..|done]. Qed.

Lemma node_inputs_app l r : l ≠ [] → r ≠ [] → len l = lp2 (len (l ++ r)) →
  node_inputs (l ++ r) = (chr 1 :: merkle_root l ++ merkle_root r) :: node_inputs l ++ node_inputs r.
Proof.
  intros Hl Hr Hk. assert (split_size (l ++ r) = length l) as Es by (unfold split_size; rewrite <- Hk; unfold len; lia).
  assert (1 <= length l ∧ 1 <= length r)%nat as [L1 L2] by (destruct l, r; simpl; [done..|lia]).
  assert (length (l ++ r) = S (pred (length l) + length r)) as En by (rewrite length_app; lia).
  unfold node_inputs at 1. rewrite En, mnodes_step, Es, take_app_length, drop_app_length by (rewrite length_app; lia).
  unfold node_inputs. f_equal. f_equal; apply mnodes_fuel; lia.
Qed.

(** The two halves of a vector of at least two elements. *)
Lemma split_vec (vs : list bytes) : 2 <= len vs → let k := lp2 (len vs) in
  ∃ l r, vs = l ++ r ∧ l ≠ [] ∧ r ≠ [] ∧ len l = k ∧ len r = len vs - k ∧ (length l < length vs)%nat ∧ (length r < length vs)%nat.
Proof.
  intros Hl k. destruct (lp2_bounds _ Hl) as [Hb _]. fold k in Hb. exists (take (Z.to_nat k) vs), (drop (Z.to_nat k) vs).
  assert (length (take (Z.to_nat k) vs) = Z.to_nat k) as L1 by (rewrite length_take; unfold len in *; lia).
  assert (length (drop (Z.to_nat k) vs) = length vs - Z.to_nat k)%nat as L2 by apply length_drop.
  split; [by rewrite take_drop|]. unfold len in *. rewrite L1, L2. split; [intros E; rewrite E in L1; simpl in L1; lia|].
  split; [intros E; rewrite E in L2; simpl in L2; lia|]. lia.
Qed.

(** The verifier computes the root from every proof of the tree. *)
Lemma proof_complete vs i v : vs !! i = Some v →
  proof_root (len vs) (Z.of_nat i) v (rev (merkle_proof vs i)) = Some (merkle_root vs).
Proof.
  remember (length vs) as n eqn:En. revert vs i En. induction n as [n IH] using lt_wf_ind. intros vs i -> Hv.
  pose proof (lookup_lt_Some _ _ _ Hv) as Hi. destruct (decide (len vs <= 1)) as [L|L].
  - destruct vs as [|w [|? ?]]; [done| |unfold len in L; simpl in L; lia]. destruct i; [|done]. by injection Hv as ->.
  - destruct (split_vec vs ltac:(lia)) as (l & r & -> & Nl & Nr & Ll & Lr & H1 & H2).
    destruct (merkle_app l r i Nl Nr ltac:(by rewrite Ll)) as [-> ->]. rewrite Nat.ltb_antisym. assert (len l = Z.of_nat (length l)) as Lz by done.
    destruct (Nat.leb_spec (length l) i) as [Hlt|Hlt]; cbn [negb]; rewrite rev_unit; cbn [proof_root];
      destruct (Z.leb_spec (len (l ++ r)) 1); try lia; rewrite <- Ll.
    + rewrite (proj2 (Z.ltb_ge _ _)) by lia. rewrite lookup_app_r in Hv by done.
      replace (len (l ++ r) - len l) with (len r) by lia.
      replace (Z.of_nat i - len l) with (Z.of_nat (i - length l)) by lia. by rewrite (IH (length r) H2 r).
    + rewrite (proj2 (Z.ltb_lt _ _)) by lia. rewrite lookup_app_l in Hv by done. by rewrite (IH (length l) H1 l).
Qed.

Lemma proof_root_hash n i v p r : is_hash v → proof_root n i v p = Some r → is_hash r.
Proof.
  revert n i r. induction p as [|s p IH]; intros n i r Hv; cbn [proof_root].
  - by destruct (n =? 1); [intros [= <-]|].
  - destruct (n <=? 1); [done|]. destruct (i <? lp2 n); (destruct (proof_root _ _ v p); [|done]); intros [= <-]; apply combine_length.
Qed.

(** A proof is as long as the tree is high, and made of hashes. *)
Lemma proof_bounds vs i : (i < length vs)%nat → Forall is_hash vs →
  len (merkle_proof vs i) <= Z.log2_up (len vs) ∧ Forall is_hash (merkle_proof vs i) ∧ is_hash (merkle_root vs).
Proof.
  remember (length vs) as n eqn:En. revert vs i En. induction n as [n IH] using lt_wf_ind. intros vs i -> Hi Hvs.
  destruct (decide (len vs <= 1)) as [L|L].
  - destruct vs as [|w [|? ?]]; [simpl in Hi; lia| |unfold len in L; simpl in L; lia]. split; [done|]. split; [constructor|].
    by apply Forall_cons_1 in Hvs as [? _].
  - assert (Z.log2_up (lp2 (len vs)) = Z.log2_up (len vs) - 1) as Ek.
    { unfold lp2. apply Z.log2_up_pow2. pose proof (Z.log2_up_pos (len vs)). lia. }
    destruct (lp2_bounds (len vs) ltac:(lia)) as [Hb1 Hb2].
    destruct (split_vec vs ltac:(lia)) as (l & r & -> & Nl & Nr & Ll & Lr & H1 & H2). apply Forall_app in Hvs as [Hl Hr].
    destruct (merkle_app l r i Nl Nr ltac:(by rewrite Ll)) as [-> ->].
    assert (0 < length l)%nat as L1 by (destruct l; [done|simpl; lia]). assert (0 < length r)%nat as L2 by (destruct r; [done|simpl; lia]).
    assert (Z.log2_up (len r) <= Z.log2_up (len (l ++ r)) - 1) as Er by (rewrite <- Ek; apply Z.log2_up_le_mono; lia).
    destruct (Nat.ltb_spec i (length l)) as [Hlt|Hge]; rewrite len_app; change (len [_]) with 1;
      (split; [|split; [apply Forall_app; split|apply combine_length]]).
    + destruct (IH _ H1 l i eq_refl Hlt Hl) as [? _]. rewrite Ll in *. lia.
    + by apply (IH _ H1 l i).
    + repeat constructor. by apply (IH _ H2 r 0%nat).
    + destruct (IH _ H2 r (i - length l)%nat eq_refl ltac:(rewrite length_app in Hi; lia) Hr) as [? _]. lia.
    + apply (IH _ H2 r (i - length l)%nat); [done|rewrite length_app in Hi; lia|done].
    + repeat constructor. by apply (IH _ H1 l 0%nat).
Qed.

(** Strings that the hash function tells apart. *)
Section collision_free.
Context (P : list bytes) (HP : collision_free P).

Lemma combine_inj a b c d : is_hash a → is_hash c → chr 1 :: a ++ b ∈ P → chr 1 :: c ++ d ∈ P → combine a b = combine c d → a = c ∧ b = d.
Proof.
  intros Ha Hc I1 I2 E. apply HP in E; [|done..]. injection E as E. apply app_inj_1 in E; [done|]. unfold is_hash in *. congruence.
Qed.

(** The root of a vector of known length determines it. *)
Lemma merkle_root_inj vs ws : len vs = len ws → Forall is_hash vs → Forall is_hash ws → node_inputs vs ⊆ P → node_inputs ws ⊆ P →
  merkle_root vs = merkle_root ws → vs = ws.
Proof.
  remember (length vs) as n eqn:En. revert vs ws En. induction n as [n IH] using lt_wf_ind. intros vs ws -> Hlen Hvs Hws Iv Iw E.
  destruct (decide (len vs <= 1)) as [L|L].
  - destruct vs as [|v [|? ?]], ws as [|w [|? ?]]; try (unfold len in *; simpl in *; lia); [done|]. by rewrite (E : v = w).
  - destruct (split_vec vs ltac:(lia)) as (l & r & -> & Nl & Nr & Ll & Lr & H1 & H2).
    destruct (split_vec ws ltac:(lia)) as (l' & r' & -> & Nl' & Nr' & Ll' & Lr' & _ & _).
    rewrite (proj1 (merkle_app l r 0 Nl Nr ltac:(by rewrite Ll))), (proj1 (merkle_app l' r' 0 Nl' Nr' ltac:(by rewrite Ll'))) in E.
    rewrite (node_inputs_app l r) in Iv by (done || by rewrite Ll). rewrite (node_inputs_app l' r') in Iw by (done || by rewrite Ll').
    apply Forall_app in Hvs as [Hl Hr], Hws as [Hl' Hr']. rewrite <- Hlen in Ll', Lr'.
    assert (0 < length l)%nat by (destruct l; [done|simpl; lia]). assert (0 < length l')%nat by (destruct l'; [done|simpl; lia]).
    apply combine_inj in E as [El Er]; [|by apply (proof_bounds _ 0)|by apply (proof_bounds _ 0)|set_solver..].
    apply (IH _ H1 l l' eq_refl) in El as ->; [|lia|done..|set_solver|set_solver].
    apply (IH _ H2 r r' eq_refl) in Er as ->; [done|lia|done..|set_solver|set_solver].
Qed.

(** Whatever proof the verifier accepts is of the value that is there. *)
Lemma proof_sound vs i v p : Forall is_hash vs → is_hash v → Forall is_hash p → 0 <= i < len vs →
  node_inputs vs ⊆ P → proof_inputs (len vs) i v p ⊆ P →
  proof_root (len vs) i v p = Some (merkle_root vs) → vs !! Z.to_nat i = Some v.
Proof.
  remember (length vs) as n eqn:En. revert vs i p En. induction n as [n IH] using lt_wf_ind. intros vs i p -> Hvs Hv Hph Hi Iv Ip Hp.
  destruct (decide (len vs <= 1)) as [L|L].
  - destruct vs as [|w [|? ?]]; [unfold len in Hi; simpl in Hi; lia| |unfold len in L; simpl in L; lia].
    replace i with 0 by (unfold len in Hi; simpl in Hi; lia). destruct p; [|done]. by injection Hp as ->.
  - destruct (split_vec vs ltac:(lia)) as (l & r & -> & Nl & Nr & Ll & Lr & H1 & H2).
    rewrite (proj1 (merkle_app l r 0 Nl Nr ltac:(by rewrite Ll))) in Hp. apply Forall_app in Hvs as [Hl Hr].
    rewrite (node_inputs_app l r) in Iv by (done || by rewrite Ll).
    destruct p as [|s p]; cbn [proof_root] in Hp; [by rewrite (proj2 (Z.eqb_neq (len (l ++ r)) 1)) in Hp by lia|].
    apply Forall_cons_1 in Hph as [Hs Hph]. destruct (Z.leb_spec (len (l ++ r)) 1); [lia|]. cbn [proof_inputs] in Ip. rewrite <- Lr, <- Ll in Hp, Ip.
    assert (is_hash (merkle_root l)) as Hrl.
    { destruct l as [|a [|b l]]; [done|by apply Forall_cons_1 in Hl as [? _]|]. apply combine_length. }
    destruct (Z.ltb_spec i (len l)) as [Hlt|Hge].
    + destruct (proof_root (len l) i v p) as [a|] eqn:E; [|done]. injection Hp as Hp.
      apply combine_inj in Hp as [-> _]; [|exact (proof_root_hash _ _ _ _ _ Hv E)|done|set_solver..].
      apply (IH _ H1 l i p eq_refl Hl Hv Hph ltac:(lia)) in E; [|set_solver..]. by rewrite lookup_app_l by (unfold len in Hlt; lia).
    + destruct (proof_root (len r) (i - len l) v p) as [a|] eqn:E; [|done]. injection Hp as Hp.
      apply combine_inj in Hp as [_ ->]; [|done|done|set_solver..].
      apply (IH _ H2 r (i - len l) p eq_refl Hr Hv Hph ltac:(lia)) in E; [|set_solver..].
      rewrite lookup_app_r by (unfold len in *; lia). by replace (Z.to_nat i - length l)%nat with (Z.to_nat (i - len l)) by (unfold len; lia).
Qed.

Lemma element_hash_inj x y : chr 0 :: x ∈ P → chr 0 :: y ∈ P → element_hash x = element_hash y → x = y.
Proof. intros Ix Iy E. apply HP in E; [|done..]. by injection E. Qed.

Lemma element_hashes_inj l k : map (cons (chr 0)) l ⊆ P → map (cons (chr 0)) k ⊆ P → map element_hash l = map element_hash k → l = k.
Proof.
  revert k. induction l as [|x l IH]; intros [|y k] Il Ik E; cbn [map] in *; try done. injection E as Ex E.
  apply element_hash_inj in Ex as ->; [|set_solver..]. f_equal. apply IH; [set_solver..|done].
Qed.

(** A list of known length under its root. *)
Lemma list_root_inj l k : len l = len k → list_inputs l ⊆ P → list_inputs k ⊆ P →
  merkle_root (map element_hash l) = merkle_root (map element_hash k) → l = k.
Proof.
  unfold list_inputs. intros Hl Il Ik E.
  apply element_hashes_inj; [set_solver..|]. apply merkle_root_inj; [unfold len in *; by rewrite !length_map| | |set_solver..|done];
    apply Forall_map, Forall_true; intros; apply sha256_length.
Qed.
End collision_free.

Lemma collision_free_incl l k : collision_free k → l ⊆ k → collision_free l.
Proof. intros Hk Hl x y Hx Hy. apply Hk; by apply Hl. Qed.

(** No two hashes are equal: to be found by evaluation. *)
Lemma collision_free_NoDup l : NoDup (map sha256 (remove_dups l)) → collision_free l.
Proof.
  intros Hn x y Hx Hy E. rewrite <- elem_of_remove_dups in Hx, Hy. apply list_elem_of_lookup in Hx as [i Hi], Hy as [j Hj].
  assert (i = j) as <-; [|congruence].
  eapply (NoDup_lookup (map sha256 (remove_dups l))); [done| |]; rewrite list_lookup_fmap; [by rewrite Hi|rewrite Hj; simpl; by rewrite E].
Qed.
End membership.

(** * Properties *)

Section properties_refinement.
Context `{Hashes}.

(** The changes a vector goes through. *)
Inductive mt_op := OpAdd (x : bytes) | OpSet (index : Z) (x : bytes).

Definition run_op (op : mt_op) : state MerkleTree () :=
  match op with OpAdd x => add x | OpSet index x => set index x end.
Fixpoint run_ops (ops : list mt_op) : state MerkleTree () :=
  match ops with [] => mret () | op :: ops => run_op op;; run_ops ops end.

(** The abstract vector, with the calls that it refuses: an element that is not a hash, an index
    outside of the vector, a length to which the method does not add. *)
Definition vec_add (vs : list bytes) (x : bytes) : result (list bytes) :=
  if negb (len x =? 32) then Err ValueError
  else if negb (bool_decide (can_add (len vs))) then Err (add_error (len vs))
  else if bool_decide (buildable (vs ++ [x])) then Ok (vs ++ [x]) else Err ValueError.
Definition vec_op (vs : list bytes) (op : mt_op) : result (list bytes) :=
  match op with
  | OpAdd x => vec_add vs x
  | OpSet index x =>
      if negb ((0 <=? index) && (index <=? len vs)) then Err AssertionError
      else if negb (len x =? 32) then Err ValueError
      else if index =? len vs then vec_add vs x else Ok (<[Z.to_nat index := x]> vs)
  end.
Fixpoint vec_ops (vs : list bytes) (ops : list mt_op) : result (list bytes) :=
  match ops with [] => Ok vs | op :: ops => vs ← vec_op vs op; vec_ops vs ops end.

Lemma not_hash_len x : len x =? 32 = bool_decide (is_hash x).
Proof. unfold is_hash, len. case_bool_decide; [apply Z.eqb_eq|apply Z.eqb_neq]; lia. Qed.

Lemma buildable_snoc vs x : buildable vs → is_hash x → ¬ buildable (vs ++ [x]) → ∃ v, vs = [v] ∧ ¬ is_hash v.
Proof.
  intros Hb Hx Hn. destruct vs as [|v [|w vs]].
  - destruct Hn. left. simpl. lia.
  - exists v. split; [done|]. intros Hv. apply Hn. right. by repeat constructor.
  - destruct Hb as [Hb|Hb]; [simpl in Hb; lia|]. destruct Hn. right. apply Forall_app. split; [done|by constructor].
Qed.

Lemma add_step self vs x : holds self vs → ∃ r self', add x self = (r, self') ∧
  match vec_add vs x with Ok vs' => r = Ok () ∧ holds self' vs' | Err e => r = Err e end.
Proof.
  intros Hh. unfold vec_add. rewrite not_hash_len. case_bool_decide as Hx; cbn [negb].
  2:{ eexists _, _. split; [|reflexivity]. apply state_bind_err. unfold liftS. by rewrite not_hash_len, bool_decide_eq_false_2. }
  case_bool_decide as Hcan; cbn [negb].
  2:{ destruct (add_fails self vs x Hh Hx Hcan) as (s & E & _). by eexists _, s. }
  case_bool_decide as Hb.
  - destruct (add_ok self vs x Hh Hx Hb Hcan) as (s & E & Hs). by eexists _, s.
  - destruct (buildable_snoc vs x (proj1 Hh) Hx Hb) as (v & -> & Hv).
    destruct (add_unhashed self v x Hh Hx Hv) as (s & E). by eexists _, s.
Qed.

Lemma run_op_step self vs op : holds self vs → ∃ r self', run_op op self = (r, self') ∧
  match vec_op vs op with Ok vs' => r = Ok () ∧ holds self' vs' | Err e => r = Err e end.
Proof.
  intros Hh. destruct op as [x|index x]; cbn [run_op vec_op]; [by apply add_step|].
  assert (mt_len self = len vs) as Hl by (unfold mt_len, len; by rewrite (holds_leaves self vs)).
  rewrite not_hash_len. destruct (decide (0 <= index < len vs ∧ is_hash x)) as [[Hi Hx]|Hno].
  { destruct (set_ok self vs (Z.to_nat index) x Hh ltac:(unfold len in *; lia) Hx) as (s & E & Hs). rewrite Z2Nat.id in E by lia.
    rewrite (proj2 (Z.leb_le 0 index)), (proj2 (Z.leb_le index _)), bool_decide_eq_true_2, (proj2 (Z.eqb_neq _ _)) by (done || lia).
    by exists (Ok ()), s. }
  unfold set. erewrite state_bind_eval; [|reflexivity]. rewrite Hl.
  destruct ((0 <=? index) && (index <=? len vs)) eqn:Hi; cbn [negb]; [|eexists _, _; split; [by apply state_bind_err|done]].
  do 2 (erewrite state_bind_eval; [|reflexivity]). rewrite not_hash_len. case_bool_decide as Hx; cbn [negb raise_if].
  2:{ eexists _, _. split; [by apply state_bind_err|done]. }
  erewrite state_bind_eval; [|reflexivity]. destruct (Z.eqb_spec index (len vs)) as [->|Hne]; [by apply add_step|].
  apply andb_true_iff in Hi as [H0%Z.leb_le H1%Z.leb_le]. destruct Hno. split; [lia|done].
Qed.

(** C14: the tree of node objects that is changed in place refines the vector of its leaves. Any sequence of
    additions and replacements does what it does to the vector: it goes through, and then the root, the
    leaves and the proofs are those of the vector, or it raises the exception of the first call that the
    vector refuses: an index out of range, an element that is not a hash, and an addition at one of the
    lengths, 7 the first, where the search for the place of the new leaf goes to the right twice. *)
Theorem merkle_refinement (vs : list bytes) (ops : list mt_op) (self : MerkleTree) (Hnew : MerkleTree_new vs = Ok self) :
  ∃ r self', run_ops ops self = (r, self') ∧
    match vec_ops vs ops with
    | Ok vs' => r = Ok () ∧ root self' = Ok (Some (merkle_root vs')) ∧ mt_len self' = len vs' ∧
        ∀ i v, vs' !! i = Some v → mt_get self' (Z.of_nat i) = Ok (Some v) ∧
          prove_leaf self' (Z.of_nat i) = Ok (map Some (merkle_proof vs' i))
    | Err e => r = Err e
    end.
Proof.
  assert (holds self vs) as Hh.
  { pose proof (new_holds vs) as Hn. destruct (decide (buildable vs)); [|by rewrite Hn in Hnew].
    destruct Hn as (s & E & Hs). rewrite E in Hnew. by injection Hnew as ->. }
  clear Hnew. revert vs self Hh. induction ops as [|op ops IH]; intros vs self Hh; cbn [run_ops vec_ops].
  - exists (Ok ()), self. split; [done|]. split; [done|]. split; [by apply root_ok|].
    split; [unfold mt_len, len; by rewrite (holds_leaves self vs)|].
    intros i v Hv. split; [by eapply get_ok|by eapply prove_leaf_ok].
  - destruct (run_op_step self vs op Hh) as (r & s1 & E & H1). destruct (vec_op vs op) as [vs1|e]; cbn [mbind result_bind].
    + destruct H1 as [-> H1]. rewrite (state_bind_eval _ _ _ _ _ E). exact (IH vs1 s1 H1).
    + subst r. exists (Err e), s1. split; [|done]. by apply state_bind_err.
Qed.

End properties_refinement.

Definition example_leaf (n : Z) : bytes := replicate 32 (chr n).

Lemma merkle_refinement_witness :
  (∃ self, run_ops (H := executable_hashes) [OpAdd (example_leaf 1); OpAdd (example_leaf 2); OpAdd (example_leaf 3); OpSet 1 (example_leaf 4)]
      (mkTree [] [] None None) = (Ok (), self) ∧ mt_len self = 3 ∧ mt_get self 1 = Ok (Some (example_leaf 4))) ∧
  (∃ self, run_ops (H := executable_hashes) (map (λ n, OpAdd (example_leaf n)) [1; 2; 3; 4; 5; 6; 7; 8])
      (mkTree [] [] None None) = (Err TypeError, self)).
Proof.
  split.
  - destruct (merkle_refinement (H := executable_hashes) [] [OpAdd (example_leaf 1); OpAdd (example_leaf 2); OpAdd (example_leaf 3);
      OpSet 1 (example_leaf 4)] (mkTree [] [] None None) eq_refl) as (r & self & E & Hv).
    destruct (vec_ops _ _) as [vs|e] eqn:Ev; vm_compute in Ev; [injection Ev as <-|discriminate].
    destruct Hv as (-> & _ & Hl & Hi). exists self. split; [exact E|]. split; [exact Hl|exact (proj1 (Hi 1%nat _ eq_refl))].
  - destruct (merkle_refinement (H := executable_hashes) [] (map (λ n, OpAdd (example_leaf n)) [1; 2; 3; 4; 5; 6; 7; 8])
      (mkTree [] [] None None) eq_refl) as (r & self & E & Hv).
    destruct (vec_ops _ _) as [vs|e] eqn:Ev; vm_compute in Ev; [discriminate|injection Ev as <-]. subst r. exists self. exact E.
Defined.

Section properties.
Context `{Hashes}.

(** A tree can be built from any vector of hashes (or of at most one element), else the constructor
    raises [ValueError]; its root, leaves, proofs and copy are those of the vector, and looking a
    leaf up gives its first position or raises [ValueError]. *)
Theorem merkle_tree_correct (vs : list bytes) :
  if decide (buildable vs) then ∃ self, MerkleTree_new vs = Ok self ∧ root self = Ok (Some (merkle_root vs)) ∧
    (∀ i v, vs !! i = Some v → mt_get self (Z.of_nat i) = Ok (Some v) ∧
       prove_leaf self (Z.of_nat i) = Ok (map Some (merkle_proof vs i))) ∧
    (∀ x, leaf_index self x = of_option ValueError ((λ p, Z.of_nat p.1) <$> list_find (λ v, v = x) vs)) ∧
    ∃ c, copy self = Ok c ∧ root c = Ok (Some (merkle_root vs))
  else MerkleTree_new vs = Err ValueError.
Proof.
  pose proof (new_holds vs) as Hn. destruct (decide (buildable vs)); [|done]. destruct Hn as (self & E & Hh).
  exists self. split; [done|]. split; [by apply root_ok|]. split; [intros i v Hv; split; [by eapply get_ok|by eapply prove_leaf_ok]|].
  split; [intros x; by apply leaf_index_ok|]. destruct (copy_ok self vs Hh) as (c & Ec & Hc). exists c. split; [done|]. by apply root_ok.
Qed.

(** Membership proofs are complete and sound: the verifier computes the root from the proof of every
    leaf, and any proof it accepts for a position is of the leaf at that position, where the strings hashed for
    the tree and for the proof do not collide. *)
Theorem merkle_membership (vs : list bytes) (self : MerkleTree) (Hvs : Forall is_hash vs) (Hnew : MerkleTree_new vs = Ok self)
    (i : nat) (v : bytes) (Hv : vs !! i = Some v) :
  (∃ p, prove_leaf self (Z.of_nat i) = Ok (map Some p) ∧ proof_root (len vs) (Z.of_nat i) v (rev p) = Some (merkle_root vs)) ∧
  ∀ w p, is_hash w → Forall is_hash p → proof_root (len vs) (Z.of_nat i) w p = Some (merkle_root vs) →
    collision_free (node_inputs vs ++ proof_inputs (len vs) (Z.of_nat i) w p) → w = v.
Proof.
  pose proof (new_holds vs) as Hn. rewrite decide_True in Hn by by right. destruct Hn as (s & E & Hh).
  rewrite E in Hnew. injection Hnew as ->. split.
  - exists (merkle_proof vs i). split; [by eapply prove_leaf_ok|by apply proof_complete].
  - intros w p Hw Hp Hr HP. pose proof (lookup_lt_Some _ _ _ Hv).
    eapply (proof_sound _ HP) in Hr; [|done..|unfold len; lia|set_solver|set_solver]. rewrite Nat2Z.id, Hv in Hr. by injection Hr.
Qed.

(** The commitment to a mapping is its size and the roots of its keys and of its values in
    the order of the keys, whatever order the mapping was filled in. *)
Theorem map_commitment (m m' : pydict bytes bytes) (n : bytes) (Hw : dict_wf m) (Hp : m ≡ₚ m') (Hn : ser_compact_size (len m) = Ok n) :
  get_merkleized_map_commitment m' = get_merkleized_map_commitment m ∧
  get_merkleized_map_commitment m =
    Ok (n ++ merkle_root (map (λ i, element_hash i.1) (sorted_items m)) ++ merkle_root (map (λ i, element_hash i.2) (sorted_items m))).
Proof.
  split.
  - unfold get_merkleized_map_commitment. rewrite (sorted_items_unique m m') by done.
    assert (len m = len m') as -> by (unfold len; by rewrite Hp). done.
  - unfold get_merkleized_map_commitment. cbv zeta.
    assert (∀ f : bytes * bytes → bytes, (∀ i, is_hash (f i)) → ∃ s, MerkleTree_new (map f (sorted_items m)) = Ok s ∧ root s = Ok (Some (merkle_root (map f (sorted_items m))))) as Ht.
    { intros f Hf. pose proof (new_holds (map f (sorted_items m))) as Hh. rewrite decide_True in Hh.
      - destruct Hh as (s & E & Hh). exists s. split; [done|]. by apply root_ok.
      - right. apply Forall_map, Forall_true. intros. apply Hf. }
    destruct (Ht (λ i, element_hash i.1)) as (s1 & E1 & R1); [intros; apply sha256_length|].
    destruct (Ht (λ i, element_hash i.2)) as (s2 & E2 & R2); [intros; apply sha256_length|].
    rewrite E1, bind_Ok, E2, bind_Ok, Hn, bind_Ok, R1, bind_Ok. cbn [of_option]. rewrite bind_Ok, R2, bind_Ok. cbn [of_option]. by rewrite bind_Ok.
Qed.

(** ** Where the code departs from what it means *)
End properties.

Lemma eighth_leaf : ¬ can_add 7 ∧ can_add 6.
Proof. split; apply (bool_decide_unpack _); vm_compute; exact I. Qed.

Lemma merkle_membership_witness :
  let vs := map example_leaf [1; 2; 3] in
  ∃ self p, MerkleTree_new (H := executable_hashes) vs = Ok self ∧ prove_leaf self 2 = Ok (map Some p) ∧
    proof_root (H := executable_hashes) 3 2 (example_leaf 3) (rev p) = Some (merkle_root vs).
Proof.
  intros vs. assert (Forall is_hash vs) as Hvs by (repeat constructor).
  destruct (MerkleTree_new (H := executable_hashes) vs) as [self|e] eqn:E; [|vm_compute in E; discriminate].
  destruct (merkle_membership (H := executable_hashes) vs self Hvs E 2 (example_leaf 3) eq_refl) as [(p & H1 & H2) _].
  exists self, p. split; [reflexivity|]. split; [exact H1|exact H2].
Defined.

Lemma map_commitment_witness :
  get_merkleized_map_commitment (H := executable_hashes) [([chr 1], [chr 7]); ([chr 0], [chr 8])] =
  get_merkleized_map_commitment (H := executable_hashes) [([chr 0], [chr 8]); ([chr 1], [chr 7])].
Proof.
  refine (proj1 (map_commitment (H := executable_hashes) _ _ [chr 2] _ _ _)).
  - apply (bool_decide_unpack _). vm_compute. exact I.
  - apply Permutation_swap.
  - vm_compute. reflexivity.
Defined.
