(* ===== verification/ClientCommand.v ===== *)
(** * [hwilib/devices/ledger_bitcoin/client_command.py]: client commands

    While a Ledger device processes a command it sends requests of its own: for
    the preimage of a hash, for a leaf of a Merkle tree with its proof, for
    the index of a leaf, for more elements of a long answer.  The command objects
    share the dictionaries, the list of results and the queue of the
    interpreter, which are the fields of one record here. *)

From S2P Require Import Prelude Bytes Safe StateM PyStd PyStr Common Sha256 Serialize Merkle.

(** ** [ByteStreamParser] *)

Definition assert_empty : reader () :=
  b ← read 1;
  lift (raise_if (bool_decide (b ≠ [])) ValueError).

Definition read_bytes (n : Z) : reader bytes :=
  result ← read n;
  if len result <? n then lift (Err ValueError) else mret result.

Definition read_uint (n : Z) : reader Z := b ← read_bytes n; mret (be_int b).
Definition read_uint_le (n : Z) : reader Z := b ← read_bytes n; mret (le_int b).

Definition read_varint : reader Z :=
  prefix ← read_uint 1;
  if prefix =? 253 then read_uint_le 2
  else if prefix =? 254 then read_uint_le 4
  else if prefix =? 255 then read_uint_le 8
  else mret prefix.

(** ** [ClientCommandInterpreter] *)

Inductive ClientCommandCode := YIELD | GET_PREIMAGE | GET_MERKLE_LEAF_PROOF | GET_MERKLE_LEAF_INDEX | GET_MORE_ELEMENTS.

Definition code (c : ClientCommandCode) : Z :=
  match c with
  | YIELD => 0x10
  | GET_PREIMAGE => 0x40
  | GET_MERKLE_LEAF_PROOF => 0x41
  | GET_MERKLE_LEAF_INDEX => 0x42
  | GET_MORE_ELEMENTS => 0xA0
  end.

Record Interpreter := mkInterpreter {
  known_preimages : pydict bytes bytes;
  known_trees : pydict (option bytes) MerkleTree;
  yielded : list bytes;
  queue : list bytes;
}.

Definition Interpreter_new : Interpreter := mkInterpreter [] [] [] [].

Definition set_preimages (d : pydict bytes bytes) (s : Interpreter) : Interpreter := mkInterpreter d (known_trees s) (yielded s) (queue s).
Definition set_trees (d : pydict (option bytes) MerkleTree) (s : Interpreter) : Interpreter := mkInterpreter (known_preimages s) d (yielded s) (queue s).
Definition set_yielded (l : list bytes) (s : Interpreter) : Interpreter := mkInterpreter (known_preimages s) (known_trees s) l (queue s).
Definition set_queue (q : list bytes) (s : Interpreter) : Interpreter := mkInterpreter (known_preimages s) (known_trees s) (yielded s) q.

(** [self.queue.extend(elements)]. *)
Definition extend_queue (elements : list bytes) : state Interpreter () := modify (λ s, set_queue (queue s ++ elements) s).

Definition parse_request {A} (p : reader A) (request : bytes) : result A := (p (drop 1 request)).1.

Section client.
Context `{Hashes}.

Definition execute_yield (request : bytes) : state Interpreter bytes :=
  modify (λ s, set_yielded (yielded s ++ [drop 1 request]) s);;
  mret [].

Definition execute_get_preimage (request : bytes) : state Interpreter bytes :=
  req_hash ← liftS (parse_request (
    b ← read_bytes 1;
    lift (raise_if (bool_decide (b ≠ [chr 0])) RuntimeError);;
    req_hash ← read_bytes 32;
    assert_empty;;
    mret req_hash) request);
  self ← get;
  match dict_get req_hash (known_preimages self) with
  | Some known_preimage =>
      preimage_len_out ← liftS (ser_compact_size (len known_preimage));
      let max_payload_size := 255 - len preimage_len_out - 1 in
      let payload_size := Z.min max_payload_size (len known_preimage) in
      (if payload_size <? len known_preimage
       then extend_queue (map (λ b, [b]) (drop (Z.to_nat payload_size) known_preimage))
       else mret ());;
      n ← liftS (to_bytes_be 1 payload_size);
      mret (preimage_len_out ++ n ++ take (Z.to_nat payload_size) known_preimage)
  | None => raise RuntimeError
  end.

(** The values of a tree that was built are not [None]. *)
Definition execute_get_merkle_leaf_proof (request : bytes) : state Interpreter bytes :=
  '(root, tree_size, leaf_index) ← liftS (parse_request (
    root ← read_bytes 32;
    tree_size ← read_varint;
    leaf_index ← read_varint;
    assert_empty;;
    mret (root, tree_size, leaf_index)) request);
  self ← get;
  mt ← liftS (of_option ValueError (dict_get (Some root) (known_trees self)));
  if (tree_size <=? leaf_index) || negb (mt_len mt =? tree_size) then raise ValueError
  else if negb (len (queue self) =? 0) then raise RuntimeError
  else
    proof ← liftS (p ← prove_leaf mt leaf_index; mapR (of_option TypeError) p);
    let n_response_elements := Z.min ((255 - 32 - 1 - 1) / 32) (len proof) in
    let n_leftover_elements := len proof - n_response_elements in
    (if 0 <? n_leftover_elements then extend_queue (slice_from_neg (Z.to_nat n_leftover_elements) proof) else mret ());;
    leaf ← liftS (v ← mt_get mt leaf_index; of_option TypeError v);
    n ← liftS (to_bytes_be 1 (len proof));
    k ← liftS (to_bytes_be 1 n_response_elements);
    mret (leaf ++ n ++ k ++ concat (take (Z.to_nat n_response_elements) proof)).

Definition execute_get_merkle_leaf_index (request : bytes) : state Interpreter bytes :=
  '(root, leaf_hash) ← liftS (parse_request (
    root ← read_bytes 32;
    leaf_hash ← read_bytes 32;
    assert_empty;;
    mret (root, leaf_hash)) request);
  self ← get;
  mt ← liftS (of_option ValueError (dict_get (Some root) (known_trees self)));
  '(leaf_index, found) ← liftS (match leaf_index mt leaf_hash with
    | Ok i => Ok (i, 1)
    | Err e => if is_value_error e then Ok (0, 0) else Err e
    end);
  f ← liftS (to_bytes_be 1 found);
  i ← liftS (ser_compact_size leaf_index);
  mret (f ++ i).

(** [while len(self.queue) > 0 and len(response_elements) + element_len <= 253]. *)
Fixpoint pop_elements (queue : list bytes) (element_len : Z) (response : bytes) (n : Z) : bytes * Z * list bytes :=
  match queue with
  | [] => (response, n, [])
  | el :: queue' =>
      if len response + element_len <=? 253 then pop_elements queue' element_len (response ++ el) (n + 1)
      else (response, n, queue)
  end.

Definition execute_get_more_elements (request : bytes) : state Interpreter bytes :=
  if negb (len request =? 1) then raise ValueError
  else
    self ← get;
    match queue self with
    | [] => raise ValueError
    | el :: _ =>
        let element_len := len el in
        if existsb (λ el, negb (len el =? element_len)) (queue self) then raise ValueError
        else
          let '(response_elements, n_added_elements, rest) := pop_elements (queue self) element_len [] 0 in
          modify (set_queue rest);;
          n ← liftS (to_bytes_be 1 n_added_elements);
          l ← liftS (to_bytes_be 1 element_len);
          mret (n ++ l ++ response_elements)
    end.

Definition execute (hw_response : bytes) : state Interpreter bytes :=
  match hw_response with
  | [] => raise RuntimeError
  | b :: _ =>
      let cmd_code := ord b in
      if cmd_code =? code YIELD then execute_yield hw_response
      else if cmd_code =? code GET_PREIMAGE then execute_get_preimage hw_response
      else if cmd_code =? code GET_MERKLE_LEAF_INDEX then execute_get_merkle_leaf_index hw_response
      else if cmd_code =? code GET_MERKLE_LEAF_PROOF then execute_get_merkle_leaf_proof hw_response
      else if cmd_code =? code GET_MORE_ELEMENTS then execute_get_more_elements hw_response
      else raise RuntimeError
  end.

Definition add_known_preimage (element : bytes) : state Interpreter () :=
  modify (λ s, set_preimages (dict_set (sha256 element) element (known_preimages s)) s).

Fixpoint add_known_preimages (elements : list bytes) : state Interpreter () :=
  match elements with
  | [] => mret ()
  | el :: elements => add_known_preimage (chr 0 :: el);; add_known_preimages elements
  end.

Definition add_known_list (elements : list bytes) : state Interpreter () :=
  add_known_preimages elements;;
  mt ← liftS (MerkleTree_new (map element_hash elements));
  r ← liftS (root mt);
  modify (λ s, set_trees (dict_set r mt (known_trees s)) s).

Definition add_known_mapping (mapping : pydict bytes bytes) : state Interpreter () :=
  let items := sorted_items mapping in
  add_known_list (map fst items);;
  add_known_list (map snd items).
End client.

(** * Specification: the device's side

    The requests the device makes, and how it reads the answers.  The firmware is
    not part of the repository; this is the protocol that the comments of the
    code describe. *)

Section device.
Context `{Hashes}.

Definition send {A} (request : bytes) (answer : reader A) : state Interpreter A :=
  r ← execute request;
  liftS (answer r).1.

(** An answer to [GET_MORE_ELEMENTS]. *)
Definition elements_answer : reader (list bytes) :=
  n ← read_u 1;
  l ← read_u 1;
  replicateR (Z.to_nat n) (read l).

Fixpoint device_more (fuel : nat) (need : Z) (have : list bytes) : state Interpreter (list bytes) :=
  if len have <? need then
    match fuel with
    | O => raise OutOfFuel
    | S fuel =>
        els ← send [chr (code GET_MORE_ELEMENTS)] elements_answer;
        device_more fuel need (have ++ els)
    end
  else mret have.

Definition preimage_answer : reader (Z * bytes) :=
  total ← deser_compact_size;
  n ← read_u 1;
  data ← read n;
  mret (total, data).

Definition device_get_preimage (fuel : nat) (h : bytes) : state Interpreter bytes :=
  '(total, data) ← send (chr (code GET_PREIMAGE) :: chr 0 :: h) preimage_answer;
  els ← device_more fuel total (map (λ b, [b]) data);
  mret (concat els).

Definition proof_answer : reader (bytes * Z * list bytes) :=
  leaf ← read 32;
  n ← read_u 1;
  k ← read_u 1;
  els ← replicateR (Z.to_nat k) (read 32);
  mret (leaf, n, els).

Definition device_get_proof (fuel : nat) (root : bytes) (tree_size leaf_index : Z) : state Interpreter (bytes * list bytes) :=
  n ← liftS (ser_compact_size tree_size);
  i ← liftS (ser_compact_size leaf_index);
  '(leaf, total, els) ← send (chr (code GET_MERKLE_LEAF_PROOF) :: root ++ n ++ i) proof_answer;
  proof ← device_more fuel total els;
  mret (leaf, proof).

Definition index_answer : reader (bool * Z) :=
  found ← read_u 1;
  i ← deser_compact_size;
  mret (negb (found =? 0), i).

(** The state of an interpreter: preimages and trees are kept under their hashes. *)
Definition tree_known (r : option bytes) (mt : MerkleTree) : Prop :=
  ∃ vs, holds mt vs ∧ Forall is_hash vs ∧ r = Some (merkle_root vs) ∧ len vs < 2 ^ 64.
Definition interpreter_wf (s : Interpreter) : Prop :=
  (∀ h p, dict_get h (known_preimages s) = Some p → sha256 p = h) ∧
  (∀ r mt, dict_get r (known_trees s) = Some mt → tree_known r mt).

(** Everything a client does with an interpreter; an exception does not stop it from being used. *)
Inductive reachable : Interpreter → Prop :=
  | reach_new : reachable Interpreter_new
  | reach_preimage s element : reachable s → reachable (add_known_preimage element s).2
  | reach_list s elements : reachable s → len elements < 2 ^ 64 → reachable (add_known_list elements s).2
  | reach_mapping s mapping : reachable s → len mapping < 2 ^ 64 → reachable (add_known_mapping mapping s).2
  | reach_execute s request : reachable s → reachable (execute request s).2.
End device.

(** * Lemmas *)

(** ** Requests *)

Lemma reads_bytes_n b n : len b = n → n <= maxsize → reads (read_bytes n) b b.
Proof.
  intros <- Hb rest. unfold read_bytes. rewrite (reader_bind_eval _ _ _ b rest) by (by apply reads_read). by rewrite Z.ltb_irrefl.
Qed.

Lemma reads_uint1 x : reads (read_uint 1) [x] (ord x).
Proof.
  change [x] with ([x] ++ []). eapply reads_bind; [by apply reads_bytes_n|]. replace (ord x) with (be_int [x]); [apply reads_ret|].
  unfold be_int. cbn. lia.
Qed.

Lemma reads_uint_le b n : len b = n → n <= maxsize → reads (read_uint_le n) b (le_int b).
Proof. intros Hn Hs. eapply reads_bind_end; [by apply reads_bytes_n|]. apply reads_ret. Qed.

Lemma pack_u_le n z b : pack_u n z = Ok b → len b = Z.of_nat n ∧ le_int b = z.
Proof.
  intros [Hf ->]%pack_u_ok. unfold len. rewrite length_le_bytes. split; [done|]. by apply le_int_le_bytes_small.
Qed.

(** The client reads the sizes the device writes. *)
Lemma reads_varint n b : ser_compact_size n = Ok b → reads read_varint b n.
Proof.
  unfold ser_compact_size. intros Hb.
  assert (∀ x k r, reads (read_uint_le (Z.of_nat k)) r n → (ord x =? 253) && (k =? 2)%nat || (ord x =? 254) && (k =? 4)%nat || (ord x =? 255) && (k =? 8)%nat = true →
    reads read_varint (x :: r) n) as Hx.
  { intros x k r Hr Hk. change (x :: r) with ([x] ++ r). eapply reads_bind; [apply reads_uint1|].
    destruct (Z.eqb_spec (ord x) 253) as [E|E]; [|destruct (Z.eqb_spec (ord x) 254) as [E2|E2]; [|destruct (Z.eqb_spec (ord x) 255) as [E3|E3]; [|done]]];
      rewrite ?E, ?E2, ?E3 in Hk; cbn [andb orb] in Hk; rewrite ?orb_false_r in Hk; apply Nat.eqb_eq in Hk as ->; exact Hr. }
  destruct (Z.ltb_spec n 253); [|destruct (n <? 0x10000); [|destruct (n <? 0x100000000)]].
  - assert (0 <= n) as H0 by (unfold pack_u in Hb; destruct (Z.leb_spec 0 n); [done|done]).
    apply pack_u_le in Hb as [Hl Hv]. destruct b as [|x [|? ?]]; [done| |unfold len in Hl; simpl in Hl; lia].
    assert (ord x = n) as E by (rewrite <- Hv; cbn; lia). eapply (reads_bind_end _ _ [x]); [apply reads_uint1|]. rewrite E.
    rewrite !(proj2 (Z.eqb_neq n _)) by lia. apply reads_ret.
  - apply bind_ok in Hb as (r & Hr & [= <-]). apply pack_u_le in Hr as [Hl <-]. apply (Hx _ 2%nat); [|done]. by apply reads_uint_le.
  - apply bind_ok in Hb as (r & Hr & [= <-]). apply pack_u_le in Hr as [Hl <-]. apply (Hx _ 4%nat); [|done]. by apply reads_uint_le.
  - apply bind_ok in Hb as (r & Hr & [= <-]). apply pack_u_le in Hr as [Hl <-]. apply (Hx _ 8%nat); [|done]. by apply reads_uint_le.
Qed.

Lemma read_step {A B} (p : reader A) b a (f : A → reader B) rest : reads p b a → (p ≫= f) (b ++ rest) = f a rest.
Proof. intros Hp. by rewrite (reader_bind_eval _ _ _ _ _ (Hp rest)). Qed.

Lemma empty_step {B} (k : reader B) : (assert_empty;; k) [] = k [].
Proof. reflexivity. Qed.

Lemma reads_byte n : 0 <= n < 256 → reads (read_u 1) [chr n] n.
Proof. intros Hn. apply reads_read_u; [done|]. by apply pack_u_ok. Qed.

(** ** The queue *)

Lemma pop_elements_ok q e resp n : Forall (λ el, len el = e) q → 1 <= e → len resp <= 253 →
  ∃ k, pop_elements q e resp n = (resp ++ concat (take k q), n + Z.of_nat k, drop k q) ∧
    (k <= length q)%nat ∧ len (resp ++ concat (take k q)) <= 253 ∧ (q ≠ [] → len resp + e <= 253 → (1 <= k)%nat).
Proof.
  intros Hq He. revert resp n. induction Hq as [|el q Hel Hq IH]; intros resp n Hr; cbn [pop_elements].
  - exists 0%nat. cbn. rewrite app_nil_r, Z.add_0_r. done.
  - destruct (Z.leb_spec (len resp + e) 253) as [L|L].
    + destruct (IH (resp ++ el) (n + 1)) as (k & -> & Hk & Hl & _); [rewrite len_app; lia|]. exists (S k). cbn [take drop concat].
      rewrite <- app_assoc in *. split; [by replace (n + 1 + Z.of_nat k) with (n + Z.of_nat (S k)) by lia|]. split; [simpl; lia|].
      split; [done|]. intros. lia.
    + exists 0%nat. cbn [take drop concat]. rewrite app_nil_r, Z.add_0_r. split; [done|]. split; [lia|]. split; [done|]. intros. lia.
Qed.

Lemma len_concat_same (q : list bytes) e : Forall (λ el, len el = e) q → len (concat q) = len q * e.
Proof. induction 1 as [|el q Hel Hq IH]; [done|]. cbn [concat]. rewrite len_app, len_cons, IH. lia. Qed.

(** The answer to [GET_MORE_ELEMENTS]: at least one element of the queue. *)
Lemma more_elements_ok `{Hashes} s e : Forall (λ el, len el = e) (queue s) → 1 <= e <= 253 → queue s ≠ [] →
  ∃ k, (1 <= k)%nat ∧ send [chr (code GET_MORE_ELEMENTS)] elements_answer s =
    (Ok (take k (queue s)), set_queue (drop k (queue s)) s) ∧ ∃ r, execute_get_more_elements [chr (code GET_MORE_ELEMENTS)] s = (Ok r, set_queue (drop k (queue s)) s) ∧ len r <= 255.
Proof.
  intros Hq He Hne. destruct (pop_elements_ok (queue s) e [] 0 Hq ltac:(lia) ltac:(done)) as (k & Hpop & Hk & Hl & H1).
  specialize (H1 Hne ltac:(change (len []) with 0; lia)). cbn [app] in Hpop, Hl. rewrite Z.add_0_l in Hpop.
  assert (Forall (λ el, len el = e) (take k (queue s))) as Ht by (by apply Forall_take).
  rewrite (len_concat_same _ e Ht) in Hl. assert (len (take k (queue s)) = Z.of_nat k) as Elt by (unfold len; rewrite length_take; lia).
  assert (Z.of_nat k <= 253) as Hk2 by nia.
  assert (execute_get_more_elements [chr (code GET_MORE_ELEMENTS)] s =
    (Ok ([chr (Z.of_nat k)] ++ [chr e] ++ concat (take k (queue s))), set_queue (drop k (queue s)) s)) as He2.
  { unfold execute_get_more_elements. change (negb (len [_] =? 1)) with false. cbv iota. erewrite state_bind_eval; [|reflexivity].
    destruct (queue s) as [|el q] eqn:Eq; [done|]. pose proof (Forall_cons_1 _ _ _ Hq) as [-> _].
    assert (existsb (λ el, negb (len el =? e)) (el :: q) = false) as ->.
    { apply not_true_iff_false. intros (x & Hx & Hn)%existsb_exists. rewrite Forall_forall in Hq. apply list_elem_of_In, Hq in Hx.
      rewrite Hx, Z.eqb_refl in Hn. done. }
    rewrite Hpop. cbv iota beta. rewrite !to_bytes_1 by lia. do 3 (erewrite state_bind_eval; [|reflexivity]). done. }
  exists k. split; [done|]. split.
  - unfold send. change (execute [chr (code GET_MORE_ELEMENTS)] s) with (execute_get_more_elements [chr (code GET_MORE_ELEMENTS)] s).
    rewrite (state_bind_eval _ _ _ _ _ He2). unfold liftS. do 2 f_equal.
    assert (reads elements_answer ([chr (Z.of_nat k)] ++ [chr e] ++ concat (take k (queue s))) (take k (queue s))) as Hr.
    { eapply reads_bind; [apply reads_byte; lia|]. eapply reads_bind; [apply reads_byte; lia|].
      assert (Z.to_nat (Z.of_nat k) = length (take k (queue s))) as -> by (rewrite length_take; lia).
      apply reads_replicate. clear -Ht He. induction Ht as [|el q Hel Ht IH]; constructor; [|done]. apply reads_read_n; [done|]. unfold maxsize. lia. }
    by rewrite (reads_whole _ _ _ Hr).
  - eexists. split; [exact He2|]. rewrite !len_app, (len_concat_same _ e Ht). change (len [?x]) with 1. lia.
Qed.

Section delivery.
Context `{Hashes}.

Lemma set_queue_same s : set_queue (queue s) s = s.
Proof. by destruct s. Qed.

Lemma set_queue_twice q q' s : set_queue q (set_queue q' s) = set_queue q s.
Proof. done. Qed.

(** The device gets the rest of the queue, in at most as many rounds as there are elements. *)
Lemma device_more_ok fuel need have s e : Forall (λ el, len el = e) (queue s) → 1 <= e <= 253 → len have + len (queue s) = need →
  (length (queue s) <= fuel)%nat → device_more fuel need have s = (Ok (have ++ queue s), set_queue [] s).
Proof.
  revert have s. induction fuel as [|fuel IH]; intros have s Hq He Hn Hf; cbn [device_more].
  - assert (queue s = []) as E by (destruct (queue s); [done|simpl in Hf; lia]). rewrite E in *.
    rewrite (proj2 (Z.ltb_ge _ _)) by (unfold len in *; simpl in *; lia). rewrite app_nil_r, <- E, set_queue_same. done.
  - destruct (queue s) as [|el q] eqn:E.
    { rewrite (proj2 (Z.ltb_ge _ _)) by (unfold len in *; simpl in *; lia). rewrite app_nil_r, <- E, set_queue_same. done. }
    rewrite <- E in *. assert (queue s ≠ []) as Hne by (by rewrite E).
    destruct (more_elements_ok s e Hq He Hne) as (k & Hk & Hs & _).
    rewrite (proj2 (Z.ltb_lt _ _)) by (rewrite E in Hn; unfold len in *; simpl in *; lia). run_step Hs.
    rewrite (IH (have ++ take k (queue s))); cbn [queue set_queue].
    + by rewrite <- app_assoc, take_drop.
    + by apply Forall_drop.
    + done.
    + rewrite <- Hn, len_app. unfold len. rewrite length_take, length_drop. lia.
    + rewrite length_drop. lia.
Qed.

Lemma concat_singletons (l : bytes) : concat (map (λ b, [b]) l) = l.
Proof. induction l as [|x l IH]; [done|]. cbn. by rewrite IH. Qed.

(** The answer to [GET_PREIMAGE], and what is left for [GET_MORE_ELEMENTS]. *)
Lemma get_preimage_answer s h p b : len h = 32 → dict_get h (known_preimages s) = Some p → ser_compact_size (len p) = Ok b →
  let n := Z.min (255 - len b - 1) (len p) in
  0 <= n < 256 ∧ execute (chr (code GET_PREIMAGE) :: chr 0 :: h) s =
    (Ok (b ++ [chr n] ++ take (Z.to_nat n) p), set_queue (queue s ++ map (λ b, [b]) (drop (Z.to_nat n) p)) s).
Proof.
  intros Hh Hp Hb n. apply ser_compact_size_length in Hb as Hl.
  assert (1 <= len b <= 9) as Hlb by (rewrite Hl; repeat case_match; lia).
  assert (0 <= n < 256) as Hn by (pose proof (len_nonneg p); unfold n; lia). split; [done|].
  change (execute (chr (code GET_PREIMAGE) :: chr 0 :: h) s) with (execute_get_preimage (chr (code GET_PREIMAGE) :: chr 0 :: h) s).
  unfold execute_get_preimage.
  match goal with |- context [parse_request ?p ?r] => assert (parse_request p r = Ok h) as -> end.
  { unfold parse_request. change (drop 1 (?c :: ?l)) with (drop 0 l). rewrite drop_0. change (chr 0 :: h) with ([chr 0] ++ h).
    rewrite (read_step _ [chr 0] _ _ h (reads_bytes_n [chr 0] 1 eq_refl ltac:(done))). cbv beta. rewrite bool_decide_eq_false_2 by tauto.
    change ((lift (raise_if false RuntimeError);; ?k) h) with (k h). rewrite <- (app_nil_r h) at 1.
    by rewrite (read_step _ h _ _ [] (reads_bytes_n h 32 Hh ltac:(done))). }
  do 2 (erewrite state_bind_eval; [|reflexivity]). rewrite Hp, Hb. erewrite state_bind_eval; [|reflexivity]. cbv zeta. fold n.
  destruct (Z.ltb_spec n (len p)) as [L|L].
  - erewrite state_bind_eval; [|reflexivity]. rewrite to_bytes_1 by done. erewrite state_bind_eval; [|reflexivity]. done.
  - erewrite state_bind_eval; [|reflexivity]. rewrite to_bytes_1 by done. erewrite state_bind_eval; [|reflexivity].
    rewrite (drop_ge p) by (unfold len in L; lia). cbn [map]. by rewrite app_nil_r, set_queue_same.
Qed.

Lemma preimage_delivery s h p fuel : len h = 32 → dict_get h (known_preimages s) = Some p → len p < 2 ^ 64 → queue s = [] →
  (length p <= fuel)%nat → device_get_preimage fuel h s = (Ok p, s).
Proof.
  intros Hh Hp Hlen Hq Hf. destruct (ser_compact_size_total (len p)) as [b Hb]; [split; [apply len_nonneg|done]|].
  destruct (get_preimage_answer s h p b Hh Hp Hb) as [Hn Ha]. set (n := Z.min _ _) in *. rewrite Hq, (app_nil_l (map _ _)) in Ha.
  assert (n <= len p) as Hnp by (unfold n; lia).
  assert (send (chr (code GET_PREIMAGE) :: chr 0 :: h) preimage_answer s =
    (Ok (len p, take (Z.to_nat n) p), set_queue (map (λ b, [b]) (drop (Z.to_nat n) p)) s)) as Hs.
  { unfold send. rewrite (state_bind_eval _ _ _ _ _ Ha). unfold liftS.
    assert (reads preimage_answer (b ++ [chr n] ++ take (Z.to_nat n) p) (len p, take (Z.to_nat n) p)) as Hr; [|by rewrite (reads_whole _ _ _ Hr)].
    eapply reads_bind; [by apply reads_compact_size|]. eapply reads_bind; [by apply reads_byte|]. eapply reads_bind_end; [|apply reads_ret].
    apply reads_read_n; [unfold len in *; rewrite length_take; lia|unfold maxsize; lia]. }
  unfold device_get_preimage. run_step Hs.
  assert (device_more fuel (len p) (map (λ b, [b]) (take (Z.to_nat n) p)) (set_queue (map (λ b, [b]) (drop (Z.to_nat n) p)) s) =
    (Ok (map (λ b, [b]) p), set_queue [] s)) as Hm.
  { rewrite (device_more_ok _ _ _ _ 1); cbn [queue set_queue]; [by rewrite <- map_app, take_drop|..].
    - apply Forall_map, Forall_true. done.
    - lia.
    - unfold len. rewrite !length_map, <- Nat2Z.inj_add, <- length_app, take_drop. done.
    - rewrite length_map, length_drop. lia. }
  run_step Hm. rewrite concat_singletons. rewrite <- Hq at 1. by rewrite set_queue_same.
Qed.

(** The answer to [GET_MERKLE_LEAF_PROOF], and what is left for [GET_MORE_ELEMENTS]. *)
Lemma get_proof_answer s r mt vs i v bn bi : len r = 32 → dict_get (Some r) (known_trees s) = Some mt → holds mt vs → Forall is_hash vs →
  vs !! i = Some v → queue s = [] → ser_compact_size (len vs) = Ok bn → ser_compact_size (Z.of_nat i) = Ok bi → len vs < 2 ^ 64 →
  let p := merkle_proof vs i in
  let k := Z.min 6 (len p) in
  len p < 256 ∧ execute (chr (code GET_MERKLE_LEAF_PROOF) :: r ++ bn ++ bi) s =
    (Ok (v ++ [chr (len p)] ++ [chr k] ++ concat (take (Z.to_nat k) p)), set_queue (drop (Z.to_nat k) p) s).
Proof.
  intros Hr Hd Hh Hvs Hv Hq Hbn Hbi Hlen p k. pose proof (lookup_lt_Some _ _ _ Hv) as Hi.
  destruct (proof_bounds vs i Hi Hvs) as (Hpl & Hph & _). fold p in Hpl, Hph.
  assert (Z.log2_up (len vs) <= 64) as H64 by (apply Z.log2_up_le_pow2; unfold len in *; lia). pose proof (len_nonneg p).
  split; [lia|]. set (req := chr (code GET_MERKLE_LEAF_PROOF) :: r ++ bn ++ bi).
  change (execute req s) with (execute_get_merkle_leaf_proof req s). unfold execute_get_merkle_leaf_proof.
  match goal with |- context [parse_request ?p ?x] => assert (parse_request p x = Ok (r, len vs, Z.of_nat i)) as -> end.
  { unfold parse_request, req. change (drop 1 (?c :: ?l)) with (drop 0 l). rewrite drop_0.
    rewrite (read_step _ r _ _ _ (reads_bytes_n r 32 Hr ltac:(done))), (read_step _ bn _ _ _ (reads_varint _ _ Hbn)).
    rewrite <- (app_nil_r bi), (read_step _ bi _ _ _ (reads_varint _ _ Hbi)). done. }
  erewrite state_bind_eval; [|reflexivity]. cbv iota beta. erewrite state_bind_eval; [|reflexivity]. rewrite Hd.
  erewrite state_bind_eval; [|reflexivity].
  assert (mt_len mt = len vs) as -> by (unfold mt_len, len; by rewrite (holds_leaves mt vs)).
  rewrite (proj2 (Z.leb_gt _ _)) by (unfold len; lia). rewrite Z.eqb_refl, Hq. cbn [negb orb]. change (len [] =? 0) with true. cbn [negb].
  rewrite (prove_leaf_ok mt vs i v Hh Hv), bind_Ok. fold p.
  assert (mapR (of_option TypeError) (map Some p) = Ok p) as -> by (clear; induction p as [|x p IH]; [done|]; cbn [map mapR of_option]; by rewrite bind_Ok, IH).
  erewrite state_bind_eval; [|reflexivity]. cbv zeta. change ((255 - 32 - 1 - 1) / 32) with 6. fold k.
  rewrite (get_ok mt vs i v Hh Hv), bind_Ok. cbn [of_option].
  assert (0 <= k <= len p) as Hk by (unfold k; lia).
  assert ((if 0 <? len p - k then extend_queue (slice_from_neg (Z.to_nat (len p - k)) p) else mret ()) s = (Ok (), set_queue (drop (Z.to_nat k) p) s)) as E.
  { destruct (Z.ltb_spec 0 (len p - k)) as [L|L].
    - unfold extend_queue, modify, slice_from_neg. rewrite Hq. cbn [app]. do 4 f_equal. unfold len in *. lia.
    - rewrite drop_ge by (unfold len in L; lia). by rewrite <- Hq, set_queue_same. }
  run_step E. rewrite !to_bytes_1 by lia. do 3 (erewrite state_bind_eval; [|reflexivity]). done.
Qed.

Lemma proof_delivery s r mt vs i v fuel : len r = 32 → dict_get (Some r) (known_trees s) = Some mt → holds mt vs → Forall is_hash vs →
  vs !! i = Some v → queue s = [] → len vs < 2 ^ 64 → (64 <= fuel)%nat →
  device_get_proof fuel r (len vs) (Z.of_nat i) s = (Ok (v, merkle_proof vs i), s).
Proof.
  intros Hr Hd Hh Hvs Hv Hq Hlen Hf. pose proof (lookup_lt_Some _ _ _ Hv) as Hi.
  destruct (ser_compact_size_total (len vs)) as [bn Hbn]; [split; [apply len_nonneg|done]|].
  destruct (ser_compact_size_total (Z.of_nat i)) as [bi Hbi]; [split; [lia|change (256 ^ Z.of_nat 8) with (2 ^ 64); unfold len in Hlen; lia]|].
  destruct (get_proof_answer s r mt vs i v bn bi Hr Hd Hh Hvs Hv Hq Hbn Hbi Hlen) as [Hpl Ha]. cbv zeta in Ha.
  destruct (proof_bounds vs i Hi Hvs) as (Hpl2 & Hph & _). set (p := merkle_proof vs i) in *. set (k := Z.min 6 (len p)) in *.
  pose proof (len_nonneg p). assert (0 <= k <= len p) as Hk by (unfold k; lia).
  assert (Z.log2_up (len vs) <= 64) as H64 by (apply Z.log2_up_le_pow2; unfold len in *; lia).
  assert (Forall (λ el, len el = 32) p) as Hp32 by (eapply Forall_impl; [exact Hph|]; intros x Hx; unfold is_hash in Hx; unfold len; by rewrite Hx).
  unfold device_get_proof. rewrite Hbn, Hbi. do 2 (erewrite state_bind_eval; [|reflexivity]).
  assert (send (chr (code GET_MERKLE_LEAF_PROOF) :: r ++ bn ++ bi) proof_answer s =
    (Ok (v, len p, take (Z.to_nat k) p), set_queue (drop (Z.to_nat k) p) s)) as Hs.
  { unfold send. rewrite (state_bind_eval _ _ _ _ _ Ha). unfold liftS.
    assert (reads proof_answer (v ++ [chr (len p)] ++ [chr k] ++ concat (take (Z.to_nat k) p)) (v, len p, take (Z.to_nat k) p)) as Hrd; [|by rewrite (reads_whole _ _ _ Hrd)].
    assert (is_hash v) as Hvh by (rewrite Forall_lookup in Hvs; by eapply Hvs).
    eapply reads_bind; [apply reads_read_n; [by rewrite Hvh|done]|]. eapply reads_bind; [apply reads_byte; lia|]. eapply reads_bind; [apply reads_byte; lia|].
    eapply reads_bind_end; [|apply reads_ret].
    assert (Z.to_nat k = length (take (Z.to_nat k) p)) as Ek by (rewrite length_take; unfold len in *; lia).
    rewrite Ek at 1. apply reads_replicate.
    assert (Forall (λ el, len el = 32) (take (Z.to_nat k) p)) as Ht by by apply Forall_take.
    clear -Ht. induction Ht as [|el q Hel Ht IH]; constructor; [|done]. by apply reads_read_n. }
  run_step Hs.
  assert (device_more fuel (len p) (take (Z.to_nat k) p) (set_queue (drop (Z.to_nat k) p) s) = (Ok p, set_queue [] s)) as Hm.
  { rewrite (device_more_ok _ _ _ _ 32); cbn [queue set_queue]; [by rewrite take_drop|by apply Forall_drop|lia| |].
    - rewrite <- len_app. by rewrite take_drop.
    - rewrite length_drop. unfold len in *. lia. }
  run_step Hm. by rewrite <- Hq, set_queue_same.
Qed.
End delivery.

(** ** The invariant of the interpreter *)

Section invariant.
Context `{Hashes}.

(** Computations that leave the dictionaries alone, whether or not they raise. *)
Definition keeps {A} (m : state Interpreter A) : Prop :=
  ∀ s, known_preimages (m s).2 = known_preimages s ∧ known_trees (m s).2 = known_trees s.

Lemma keeps_bind {A B} (m : state Interpreter A) (f : A → state Interpreter B) : keeps m → (∀ a, keeps (f a)) → keeps (m ≫= f).
Proof.
  intros Hm Hf s. unfold mbind, state_bind. destruct (Hm s) as [H1 H2]. destruct (m s) as [[a|e] s1]; cbn [snd] in *; [|done].
  destruct (Hf a s1) as [-> ->]. done.
Qed.

Lemma keeps_lift {A} (r : result A) : keeps (liftS r).
Proof. done. Qed.

Lemma keeps_queue q : keeps (modify (set_queue q)).
Proof. done. Qed.

Lemma keeps_get : keeps get.
Proof. done. Qed.

#[local] Hint Resolve keeps_lift keeps_queue keeps_get : keeps.

(** Walk through a handler. *)
Ltac keeps_solve :=
  repeat (cbv beta zeta; match goal with
  | |- keeps (_ ≫= _) => apply keeps_bind; [|intros ?]
  | |- keeps (if ?b then _ else _) => destruct b
  | |- keeps (match ?x with _ => _ end) => destruct x
  | |- keeps (let '(_, _) := ?x in _) => destruct x
  | |- _ => solve [auto with keeps | done]
  end).

Lemma keeps_execute request : keeps (execute request).
Proof.
  destruct request as [|b request]; [done|]. cbn [execute]. cbv zeta. set (req := b :: request).
  repeat match goal with |- keeps (if ?b then _ else _) => destruct b end; [done|..|done].
  - unfold execute_get_preimage, extend_queue. keeps_solve.
  - unfold execute_get_merkle_leaf_index. keeps_solve.
  - unfold execute_get_merkle_leaf_proof, extend_queue. keeps_solve.
  - unfold execute_get_more_elements. keeps_solve.
Qed.

Lemma add_preimages_trees els s : known_trees (add_known_preimages els s).2 = known_trees s ∧ queue (add_known_preimages els s).2 = queue s ∧
  (add_known_preimages els s).1 = Ok ().
Proof.
  revert s. induction els as [|el els IH]; intros s; [done|]. cbn [add_known_preimages].
  erewrite state_bind_eval; [|reflexivity]. destruct (IH (set_preimages (dict_set (sha256 (chr 0 :: el)) (chr 0 :: el) (known_preimages s)) s)) as (-> & -> & ->). done.
Qed.

Definition preimages_ok (s : Interpreter) : Prop := ∀ h p, dict_get h (known_preimages s) = Some p → sha256 p = h.

Lemma add_preimage_ok el s : preimages_ok s → preimages_ok (add_known_preimage el s).2.
Proof. intros Hs h p. cbn. rewrite dict_get_set. case_decide as E; [by intros [= <-]|apply Hs]. Qed.

(** Afterwards every element is known: what its hash gives is the element, or has the same hash. *)
Lemma add_preimages_ok els s : preimages_ok s → preimages_ok (add_known_preimages els s).2 ∧
  ∀ h, is_Some (dict_get h (known_preimages s)) ∨ (∃ el, el ∈ els ∧ h = element_hash el) →
    is_Some (dict_get h (known_preimages (add_known_preimages els s).2)).
Proof.
  revert s. induction els as [|el els IH]; intros s Hs.
  - split; [done|]. intros h [?|(el & Hel & _)]; [done|set_solver].
  - cbn [add_known_preimages]. erewrite state_bind_eval; [|reflexivity].
    destruct (IH _ (add_preimage_ok (chr 0 :: el) s Hs)) as [H1 H2]. split; [exact H1|]. intros h Hh. apply H2. cbn. rewrite dict_get_set.
    case_decide as E; [left; by eexists|]. destruct Hh as [?|(x & Hx & ->)]; [by left|]. apply elem_of_cons in Hx as [->|Hx]; [by destruct E|].
    right. by exists x.
Qed.

(** What is found under a hash was there before, or is one of the elements. *)
Lemma add_preimages_get els s h x : dict_get h (known_preimages (add_known_preimages els s).2) = Some x →
  x ∈ map (cons (chr 0)) els ∨ (dict_get h (known_preimages s) = Some x ∧ h ∉ map element_hash els).
Proof.
  revert s. induction els as [|el els IH]; intros s; [intros; right; split; [done|apply not_elem_of_nil]|].
  cbn [add_known_preimages map]. erewrite state_bind_eval; [|reflexivity]. intros Hx. apply IH in Hx as [Hx|[Hx Hn]]; [left; by right|].
  cbn in Hx. rewrite dict_get_set in Hx. case_decide as E; [injection Hx as <-; left; left|]. right. split; [done|].
  intros [Hh|Hh]%elem_of_cons; [by destruct E|done].
Qed.

(** Adding a list never fails: its leaves are hashes. *)
Lemma add_list_run els s : ∃ mt, holds mt (map element_hash els) ∧
  add_known_list els s = (Ok (), set_trees (dict_set (Some (merkle_root (map element_hash els))) mt (known_trees s)) (add_known_preimages els s).2).
Proof.
  pose proof (new_holds (map element_hash els)) as Hn. rewrite decide_True in Hn.
  2:{ right. apply Forall_map, Forall_true. intros. apply sha256_length. }
  destruct Hn as (mt & E & Hh). exists mt. split; [done|]. unfold add_known_list. destruct (add_preimages_trees els s) as (Ht & _ & H1).
  destruct (add_known_preimages els s) as [r s1] eqn:Ea. cbn [fst snd] in *. subst r. run_step Ea. rewrite E.
  erewrite state_bind_eval; [|reflexivity]. rewrite (root_ok _ _ Hh). erewrite state_bind_eval; [|reflexivity]. unfold modify. by rewrite Ht.
Qed.

Lemma hashes_of els : Forall is_hash (map element_hash els).
Proof. apply Forall_map, Forall_true. intros. apply sha256_length. Qed.

Lemma add_list_wf els s : interpreter_wf s → len els < 2 ^ 64 → interpreter_wf (add_known_list els s).2.
Proof.
  intros [Hp Ht] Hl. destruct (add_list_run els s) as (mt & Hh & ->). cbn [snd]. split.
  - cbn [known_preimages set_trees]. by apply add_preimages_ok.
  - intros r t. cbn [known_trees set_trees]. rewrite dict_get_set. case_decide as E; [|apply Ht].
    intros [= <-]. exists (map element_hash els). split; [done|]. split; [apply hashes_of|]. split; [done|].
    unfold len. by rewrite length_map.
Qed.

Lemma reachable_wf s : reachable s → interpreter_wf s.
Proof.
  induction 1 as [|s el Hs IH|s els Hs IH Hl|s m Hs IH Hl|s req Hs IH].
  - by split.
  - destruct IH as [Hp Ht]. split; [by apply add_preimage_ok|done].
  - by apply add_list_wf.
  - unfold add_known_mapping. cbv zeta. assert (∀ {A} (f : bytes * bytes → A), len (map f (sorted_items m)) < 2 ^ 64) as Hf.
    { intros A f. unfold len. rewrite length_map. by rewrite (Permutation_length (sorted_items_perm m)). }
    pose proof (add_list_wf (map fst (sorted_items m)) s IH (Hf _ fst)) as H1.
    destruct (add_list_run (map fst (sorted_items m)) s) as (mt & _ & E). run_step E. rewrite E in H1. by apply add_list_wf.
  - destruct IH as [Hp Ht]. destruct (keeps_execute req s) as [E1 E2]. unfold interpreter_wf. by rewrite E1, E2.
Qed.

(** ** Every answer fits the 255 bytes of a message *)

Lemma pop_elements_bound q e resp n : len resp <= 253 → len (pop_elements q e resp n).1.1 <= 253 ∨ ∃ el, el ∈ q ∧ len el ≠ e.
Proof.
  revert resp n. induction q as [|el q IH]; intros resp n Hr; cbn [pop_elements]; [by left|].
  destruct (Z.leb_spec (len resp + e) 253); [|by left]. destruct (decide (len el = e)); [|right; exists el; set_solver].
  destruct (IH (resp ++ el) (n + 1)) as [?|(x & ? & ?)]; [rewrite len_app; lia|by left|]. right. exists x. set_solver.
Qed.

Lemma to_bytes_1_len z b : to_bytes_be 1 z = Ok b → len b = 1.
Proof. unfold to_bytes_be. destruct (_ && _); [|done]. intros [= <-]. done. Qed.

Lemma compact_len n b : ser_compact_size n = Ok b → 1 <= len b <= 9.
Proof. intros Hb. apply ser_compact_size_length in Hb as ->. repeat case_match; lia. Qed.

Lemma liftS_ok {S A B} (r : result A) (k : A → state S B) (s s' : S) b :
  (liftS r ≫= k) s = (Ok b, s') → ∃ a, r = Ok a ∧ k a s = (Ok b, s').
Proof. unfold mbind, state_bind, liftS. destruct r as [a|e]; [by exists a|done]. Qed.

Lemma len_take_le {A} k (l : list A) : 0 <= k → len (take (Z.to_nat k) l) <= k.
Proof. intros Hk. unfold len. rewrite length_take. lia. Qed.

Lemma get_preimage_bound req s r s' : execute_get_preimage req s = (Ok r, s') → len r <= 255.
Proof.
  unfold execute_get_preimage. intros (h & _ & H1)%liftS_ok. apply state_bind_ok in H1 as (self & s1 & _ & H1).
  destruct (dict_get h _) as [p|]; [|done]. apply liftS_ok in H1 as (b & Hb & H1). cbv zeta in H1. apply compact_len in Hb.
  apply state_bind_ok in H1 as (u & s2 & _ & H1). apply liftS_ok in H1 as (n & Hn & H1). injection H1 as <- _.
  apply to_bytes_1_len in Hn. rewrite !len_app, Hn. pose proof (len_nonneg p).
  pose proof (len_take_le (Z.min (255 - len b - 1) (len p)) p ltac:(lia)). lia.
Qed.

Lemma get_proof_bound req s r s' : interpreter_wf s → execute_get_merkle_leaf_proof req s = (Ok r, s') → len r <= 255.
Proof.
  intros [_ Hw]. unfold execute_get_merkle_leaf_proof. intros ([[root n] i] & _ & H1)%liftS_ok.
  apply state_bind_ok in H1 as (self & s1 & [= <- <-] & H1). apply liftS_ok in H1 as (mt & Hmt & H1).
  destruct (dict_get (Some root) (known_trees s)) as [t|] eqn:Ed; [|done]. injection Hmt as ->. apply Hw in Ed as (vs & Hh & Hvs & _ & _).
  destruct (_ || _); [done|]. destruct (negb _); [done|]. apply liftS_ok in H1 as (p & Hp & H1). cbv zeta in H1.
  apply state_bind_ok in H1 as (u & s2 & _ & H1). apply liftS_ok in H1 as (v & Hv & H1). apply liftS_ok in H1 as (bn & Hbn & H1).
  apply liftS_ok in H1 as (bk & Hbk & H1). injection H1 as <- _. apply to_bytes_1_len in Hbn, Hbk.
  apply bind_ok in Hv as (ov & Hget & Hov). apply bind_ok in Hp as (op & Hprove & Hop).
  unfold prove_leaf in Hprove. apply bind_ok in Hprove as (nl & Hidx & Hprove).
  assert (∃ j x, vs !! j = Some x ∧ mt_leaves mt !! j = Some nl) as (j & x & Hx & Hj).
  { unfold index_py in Hidx. destruct (_ <? _); [done|]. destruct (mt_leaves mt !! _) as [y|] eqn:Ej; [|done]. injection Hidx as ->.
    pose proof (lookup_lt_Some _ _ _ Ej) as Hl. rewrite (holds_leaves mt vs Hh) in Hl. apply lookup_lt_is_Some in Hl as [x Hx]. by eexists _, x. }
  destruct (holds_leaf mt vs j x Hh Hx) as (m & fs & Hm & Hr & Hd & Hs & Hpf & _). rewrite Hj in Hm. injection Hm as <-.
  pose proof (path_depth _ _ _ Hr Hd) as Hdep.
  pose proof (proof_loop_ok (S (length (mt_heap mt))) fs (TLeaf nl x) _ ltac:(lia) Hr Hd Hs) as Hl. cbn [tloc] in Hl.
  rewrite Hl in Hprove. injection Hprove as <-.
  assert (p = merkle_proof vs j) as ->.
  { rewrite <- Hpf. clear -Hop. revert p Hop. induction fs as [|f fs IH]; intros p Hop; cbn [map mapR of_option] in Hop; [by injection Hop as <-|].
    rewrite bind_Ok in Hop. apply bind_ok in Hop as (ys & Hys & [= <-]). cbn [map]. by rewrite (IH ys Hys). }
  unfold mt_get in Hget. rewrite Hidx, bind_Ok, (leaf_value mt vs j x nl Hh Hx Hj) in Hget. injection Hget as <-. injection Hov as <-.
  destruct (proof_bounds vs j (lookup_lt_Some _ _ _ Hx) Hvs) as (_ & Hph & _). assert (is_hash x) as Hxh by (rewrite Forall_lookup in Hvs; by eapply Hvs).
  set (pf := merkle_proof vs j) in *. rewrite !len_app, Hbn, Hbk. rewrite (len_concat_same _ 32).
  - assert (len x = 32) as -> by (unfold is_hash in Hxh; unfold len; by rewrite Hxh). pose proof (len_nonneg pf).
    change ((255 - 32 - 1 - 1) / 32) with 6. pose proof (len_take_le (Z.min 6 (len pf)) pf ltac:(lia)). lia.
  - apply Forall_take. eapply Forall_impl; [exact Hph|]. intros y Hy. unfold is_hash in Hy. unfold len. by rewrite Hy.
Qed.

Lemma get_index_bound req s r s' : execute_get_merkle_leaf_index req s = (Ok r, s') → len r <= 255.
Proof.
  unfold execute_get_merkle_leaf_index. intros ([root h] & _ & H1)%liftS_ok. apply state_bind_ok in H1 as (self & s1 & _ & H1).
  apply liftS_ok in H1 as (mt & _ & H1). apply liftS_ok in H1 as ([i f] & _ & H1). apply liftS_ok in H1 as (bf & Hf & H1).
  apply liftS_ok in H1 as (bi & Hi & H1). injection H1 as <- _. apply to_bytes_1_len in Hf. apply compact_len in Hi. rewrite len_app. lia.
Qed.

Lemma get_more_bound req s r s' : execute_get_more_elements req s = (Ok r, s') → len r <= 255.
Proof.
  unfold execute_get_more_elements. destruct (negb _); [done|]. intros (self & s1 & [= <- <-] & H1)%state_bind_ok.
  destruct (queue s) as [|el q] eqn:Eq; [done|]. destruct (existsb _ _) eqn:Ex; [done|].
  pose proof (pop_elements_bound (el :: q) (len el) [] 0 ltac:(done)) as Hb.
  destruct (pop_elements (el :: q) (len el) [] 0) as [[resp n] rest]. cbn [fst] in Hb.
  apply state_bind_ok in H1 as (u & s2 & _ & H1). apply liftS_ok in H1 as (bn & Hn & H1). apply liftS_ok in H1 as (bl & Hl & H1).
  injection H1 as <- _. apply to_bytes_1_len in Hn, Hl. rewrite !len_app, Hn, Hl. destruct Hb as [?|(x & Hx & Hne)]; [lia|].
  exfalso. apply not_true_iff_false in Ex. apply Ex. apply existsb_exists. exists x. split; [by apply list_elem_of_In|].
  apply negb_true_iff. by apply Z.eqb_neq.
Qed.

Lemma execute_bound req s r s' : interpreter_wf s → execute req s = (Ok r, s') → len r <= 255.
Proof.
  intros Hw. destruct req as [|b req]; [done|]. cbn [execute]. cbv zeta.
  destruct (_ =? code YIELD); [by intros [= <- _]|]. destruct (_ =? code GET_PREIMAGE); [by intros ?%get_preimage_bound|].
  destruct (_ =? code GET_MERKLE_LEAF_INDEX); [by intros ?%get_index_bound|].
  destruct (_ =? code GET_MERKLE_LEAF_PROOF); [by intros ?%get_proof_bound|].
  destruct (_ =? code GET_MORE_ELEMENTS); [by intros ?%get_more_bound|done].
Qed.
End invariant.

(** ** Serving a list *)

Section serving.
Context `{Hashes}.

(** The device gets the hash of the element with a proof for the root of the list, and from the hash the element. *)
Definition served (s : Interpreter) (els : list bytes) (i : nat) (el : bytes) : Prop :=
  let r := merkle_root (map element_hash els) in
  (∃ p, device_get_proof 64 r (len els) (Z.of_nat i) s = (Ok (element_hash el, p), s) ∧
     proof_root (len els) (Z.of_nat i) (element_hash el) (rev p) = Some r) ∧
  ∃ fuel, device_get_preimage fuel (element_hash el) s = (Ok (chr 0 :: el), s).

Lemma delivered_served s mt els i el : dict_get (Some (merkle_root (map element_hash els))) (known_trees s) = Some mt →
  holds mt (map element_hash els) → dict_get (element_hash el) (known_preimages s) = Some (chr 0 :: el) → queue s = [] →
  len els < 2 ^ 64 → len el < 2 ^ 64 - 1 → els !! i = Some el → served s els i el.
Proof.
  intros Hmt Hh Hel Hq Hl Hel64 Hi. assert (len (map element_hash els) = len els) as El by (unfold len; by rewrite length_map).
  assert (map element_hash els !! i = Some (element_hash el)) as Hi' by (by rewrite list_lookup_fmap, Hi).
  split.
  - exists (merkle_proof (map element_hash els) i). rewrite <- El. split; [|by apply proof_complete].
    apply (proof_delivery _ _ mt); try done; [|apply hashes_of|by rewrite El].
    unfold len. by destruct (proof_bounds _ i (lookup_lt_Some _ _ _ Hi') (hashes_of els)) as (_ & _ & ->).
  - exists (length (chr 0 :: el)). apply preimage_delivery; try done; [|rewrite len_cons; lia].
    unfold len, element_hash. by rewrite sha256_length.
Qed.
End serving.

(** * Properties *)

Section properties.
Context `{Hashes}.

(** C17: however an interpreter is used, also after errors, it only knows preimages under their hashes and
    trees of hashes under their roots, and every answer it gives fits the 255 bytes of a message. *)
Theorem client_invariant (s : Interpreter) (Hs : reachable s) :
  interpreter_wf s ∧ ∀ request r s', execute request s = (Ok r, s') → len r <= 255.
Proof. pose proof (reachable_wf s Hs). split; [done|]. intros. by eapply execute_bound. Qed.

(** C15: the device gets any preimage the client knows, whatever its length: asking for it and then for more
    elements until it has all of them ends, with the preimage of the hash it asked for, and leaves
    nothing behind in the queue. *)
Theorem preimage_delivered (s : Interpreter) (h p : bytes) (Hs : reachable s) (Hp : dict_get h (known_preimages s) = Some p)
    (Hlen : len p < 2 ^ 64) (Hq : queue s = []) :
  sha256 p = h ∧ ∃ fuel, device_get_preimage fuel h s = (Ok p, s).
Proof.
  destruct (reachable_wf s Hs) as [Hw _]. pose proof (Hw h p Hp) as Hh. split; [done|]. exists (length p).
  apply preimage_delivery; try done. unfold len. by rewrite <- Hh, sha256_length.
Qed.

(** C16: a list the client has been given is served: for every position the device gets the hash of the
    element with a proof that the verifier accepts for the root of the list, and for that hash it gets the
    element, where the hash function tells the elements of the list apart. *)
Theorem known_list_served (s : Interpreter) (els : list bytes) (i : nat) (el : bytes) (Hs : reachable s) (Hq : queue s = [])
    (Hlen : len els < 2 ^ 64) (Hel : els !! i = Some el) (Hel64 : len el < 2 ^ 64 - 1) (Hc : collision_free (map (cons (chr 0)) els)) :
  served (add_known_list els s).2 els i el.
Proof.
  pose proof (reachable_wf s Hs) as Hw. destruct (add_list_run els s) as (mt & Hh & E).
  assert (el ∈ els) as Hin by by eapply list_elem_of_lookup_2.
  apply (delivered_served _ mt); try done; rewrite E; cbn [known_trees known_preimages queue set_trees snd].
  - by rewrite dict_get_set, decide_True.
  - destruct (add_preimages_ok els s (proj1 Hw)) as [Hok Hknown].
    destruct (Hknown (element_hash el)) as [x Hx]; [right; by exists el|]. rewrite Hx. f_equal.
    assert (x ∈ map (cons (chr 0)) els) as Hxin by (apply add_preimages_get in Hx as [?|[_ Hn]]; [done|destruct Hn; by apply list_elem_of_fmap_2]).
    apply Hc; [done|by apply list_elem_of_fmap_2|by apply Hok in Hx].
  - by rewrite (proj1 (proj2 (add_preimages_trees els s))).
Qed.
End properties.

Definition example_preimage : bytes := replicate 300 (chr 5).

Lemma client_invariant_witness : ∃ r,
  execute (chr (code GET_PREIMAGE) :: chr 0 :: sha256_fips example_preimage)
    (add_known_preimage (H := executable_hashes) example_preimage Interpreter_new).2 = r ∧
  match r.1 with Ok a => len a <= 255 | Err _ => False end.
Proof.
  eexists. split; [reflexivity|].
  pose proof (proj2 (client_invariant (H := executable_hashes) _ (reach_preimage (H := executable_hashes) Interpreter_new example_preimage reach_new))
    (chr (code GET_PREIMAGE) :: chr 0 :: sha256_fips example_preimage)) as Hb.
  destruct (execute _ _) as [[a|e] s'] eqn:E; [exact (Hb a s' eq_refl)|vm_compute in E; discriminate].
Defined.

Lemma preimage_delivered_witness : ∃ fuel s,
  s = (add_known_preimage (H := executable_hashes) example_preimage Interpreter_new).2 ∧
  device_get_preimage fuel (sha256_fips example_preimage) s = (Ok example_preimage, s).
Proof.
  destruct (preimage_delivered (H := executable_hashes) (add_known_preimage (H := executable_hashes) example_preimage Interpreter_new).2
    (sha256_fips example_preimage) example_preimage
    (reach_preimage (H := executable_hashes) Interpreter_new example_preimage reach_new)) as [_ [fuel E]].
  - cbn [add_known_preimage modify snd known_preimages set_preimages Interpreter_new dict_set dict_get]. by rewrite decide_True.
  - done.
  - done.
  - exists fuel, (add_known_preimage (H := executable_hashes) example_preimage Interpreter_new).2. split; [reflexivity|exact E].
Defined.

Lemma known_list_served_witness :
  let els := [[chr 1]; [chr 2]; [chr 3]] in
  served (H := executable_hashes) (add_known_list (H := executable_hashes) els Interpreter_new).2 els 1 [chr 2].
Proof.
  intros els. apply (known_list_served (H := executable_hashes) Interpreter_new els 1 [chr 2] reach_new); [reflexivity..|].
  apply collision_free_NoDup, (bool_decide_unpack _). vm_compute. exact I.
Defined.
