(* ===== verification/LedgerWallet.v ===== *)
(** * [hwilib/devices/ledger_bitcoin/wallet.py]: wallet policies

    A wallet policy is a descriptor template with placeholders [@i] for its keys.
    The device registers the hash of its serialization, which commits to the
    keys through their Merkle root. *)

From S2P Require Import Prelude Bytes PyStd PyStr Common Sha256 Serialize Merkle.

Definition serialize_str (value : pystr) : result bytes :=
  n ← to_bytes_be 1 (len value);
  Ok (n ++ value).

Inductive WalletType := WALLET_POLICY_V1 | WALLET_POLICY_V2.

#[export] Instance WalletType_eq_dec : EqDecision WalletType.
Proof. solve_decision. Defined.

Definition WalletType_value (v : WalletType) : Z := match v with WALLET_POLICY_V1 => 1 | WALLET_POLICY_V2 => 2 end.

Record WalletPolicy := {
  wp_name : pystr;
  wp_version : WalletType;
  descriptor_template : pystr;
  keys_info : list pystr;
}.

(** The check on the version is of no consequence for a member of the enumeration. *)
Definition WalletPolicy_new (name template : pystr) (keys : list pystr) (version : WalletType) : result WalletPolicy :=
  if bool_decide (version ≠ WALLET_POLICY_V1) && bool_decide (version ≠ WALLET_POLICY_V2) then Err ValueError
  else Ok {| wp_name := name; wp_version := version; descriptor_template := template; keys_info := keys |}.

Definition n_keys (self : WalletPolicy) : Z := len (keys_info self).

Definition WalletPolicyBase_serialize (self : WalletPolicy) : result bytes :=
  v ← to_bytes_be 1 (WalletType_value (wp_version self));
  n ← serialize_str (wp_name self);
  Ok (v ++ n).

Section wallet.
Context `{Hashes}.

Definition WalletPolicy_serialize (self : WalletPolicy) : result bytes :=
  let keys_info_hashes := map (λ k, element_hash (encode_utf8 k)) (keys_info self) in
  let descriptor_template_sha256 := sha256 (encode_utf8 (descriptor_template self)) in
  base ← WalletPolicyBase_serialize self;
  tlen ← ser_compact_size (len (encode_utf8 (descriptor_template self)));
  klen ← ser_compact_size (len (keys_info self));
  tree ← MerkleTree_new keys_info_hashes;
  r ← root tree;
  r ← of_option TypeError r;
  Ok (base ++ tlen ++
      (if bool_decide (wp_version self = WALLET_POLICY_V1) then encode_utf8 (descriptor_template self)
       else descriptor_template_sha256) ++ klen ++ r).

Definition wallet_id (self : WalletPolicy) : result bytes :=
  b ← WalletPolicy_serialize self; Ok (sha256 b).
End wallet.

(** ** [get_descriptor] *)

(** The digits a text begins with, and the rest. *)
Fixpoint span_digits (s : pystr) : pystr * pystr :=
  match s with
  | c :: r => if is_digit c then let '(d, t) := span_digits r in (c :: d, t) else ([], s)
  | [] => ([], [])
  end.

(** A match of [/<(\d+);(\d+)>] at the start of a text: its groups and its length. *)
Definition match_multipath (s : pystr) : option (pystr * pystr * nat) :=
  if startswith $"/<" s then
    let '(m, t) := span_digits (drop 2 s) in
    match m, t with
    | _ :: _, c :: t =>
        if bool_decide (c = chr 59) then
          let '(n, t) := span_digits t in
          match n, t with
          | _ :: _, c :: _ => if bool_decide (c = chr 62) then Some (m, n, 2 + length m + 1 + length n + 1)%nat else None
          | _, _ => None
          end
        else None
    | _, _ => None
    end
  else None.

(** [re.sub(regex, "/\\2" if change else "/\\1", desc)]. *)
Fixpoint sub_multipath (change : bool) (s : pystr) (skip : nat) : pystr :=
  match s with
  | [] => []
  | c :: r =>
      match skip with
      | S skip => sub_multipath change r skip
      | O =>
          match match_multipath (c :: r) with
          | Some (m, n, l) => chr 47 :: (if change then n else m) ++ sub_multipath change r (l - 1)
          | None => c :: sub_multipath change r 0
          end
      end
  end.

Definition placeholder (i : Z) : pystr := $"@" ++ str_int i.

Definition get_descriptor (change : bool) (self : WalletPolicy) : pystr :=
  let desc := foldl (λ desc i, str_replace (placeholder (Z.of_nat i)) (default [] (keys_info self !! i)) desc)
                    (descriptor_template self) (rev (seq 0 (length (keys_info self)))) in
  let desc := str_replace $"/**" ($"/" ++ (if change then $"1" else $"0") ++ $"/*") desc in
  if bool_decide (wp_version self = WALLET_POLICY_V2) then sub_multipath change desc 0 else desc.

(** ** [MultisigWallet] *)

Definition policy_prefix (address_type : AddressType) (multisig_op : pystr) : option (pystr * pystr) :=
  match address_type with
  | LEGACY => Some ($"sh(" ++ multisig_op ++ $"(", $"))")
  | WIT => Some ($"wsh(" ++ multisig_op ++ $"(", $"))")
  | SH_WIT => Some ($"sh(wsh(" ++ multisig_op ++ $"(", $")))")
  | TAP => None
  end.

Definition MultisigWallet_new (name : pystr) (address_type : AddressType) (threshold : Z) (keys : list pystr)
    (sorted : bool) (version : WalletType) : result WalletPolicy :=
  let n_keys := len keys in
  if negb ((1 <=? threshold) && (threshold <=? n_keys) && (n_keys <=? 16)) then Err ValueError
  else
    let multisig_op := if sorted then $"sortedmulti" else $"multi" in
    '(prefix, suffix) ← of_option ValueError (policy_prefix address_type multisig_op);
    let key_placeholder_suffix := if bool_decide (version = WALLET_POLICY_V2) then $"/**" else [] in
    let descriptor_template :=
      prefix ++ (str_int threshold ++ $",") ++
      join_char (chr 44) (map (λ k, $"@" ++ str_int (Z.of_nat k) ++ key_placeholder_suffix) (seq 0 (length keys))) ++ suffix in
    WalletPolicy_new name descriptor_template keys version.

(** * Lemmas *)

Lemma compact_size_prefix n m a b x y :
  ser_compact_size n = Ok a → ser_compact_size m = Ok b → a ++ x = b ++ y → n = m ∧ x = y.
Proof.
  intros Ha%reads_compact_size Hb%reads_compact_size E. specialize (Ha x). specialize (Hb y). rewrite E, Hb in Ha. by injection Ha as -> ->.
Qed.

Lemma serialize_str_inj v w a b x y : serialize_str v = Ok a → serialize_str w = Ok b → a ++ x = b ++ y → v = w ∧ x = y.
Proof.
  unfold serialize_str. intros (n & Hn & [= <-])%bind_ok (m & Hm & [= <-])%bind_ok E. rewrite <- !app_assoc in E.
  apply app_inj_1 in E as [-> E].
  - assert (length v = length w) as El by (apply to_bytes_be_ok in Hn as [_ Hn]; apply to_bytes_be_ok in Hm as [_ Hm]; unfold len in *; lia).
    by apply app_inj_1 in E.
  - apply to_bytes_be_ok in Hn as [Hn _]. apply to_bytes_be_ok in Hm as [Hm _]. lia.
Qed.

Section binding.
Context `{Hashes}.

Lemma new_root vs t r : Forall is_hash vs → MerkleTree_new vs = Ok t → root t = Ok r → r = Some (merkle_root vs).
Proof.
  intros Hvs Ht Hr. pose proof (new_holds vs) as Hn. rewrite decide_True in Hn by by right. destruct Hn as (s & E & Hh).
  rewrite E in Ht. injection Ht as <-. rewrite (root_ok _ _ Hh) in Hr. by injection Hr as <-.
Qed.

(** What a serialization is made of. *)
Lemma serialize_parts self b : WalletPolicy_serialize self = Ok b → ∃ n tl kl,
  serialize_str (wp_name self) = Ok n ∧ ser_compact_size (len (encode_utf8 (descriptor_template self))) = Ok tl ∧
  ser_compact_size (len (keys_info self)) = Ok kl ∧
  b = [chr (WalletType_value (wp_version self))] ++ n ++ tl ++
      (if bool_decide (wp_version self = WALLET_POLICY_V1) then encode_utf8 (descriptor_template self)
       else sha256 (encode_utf8 (descriptor_template self))) ++ kl ++
      merkle_root (map (λ k, element_hash (encode_utf8 k)) (keys_info self)).
Proof.
  unfold WalletPolicy_serialize, WalletPolicyBase_serialize. cbv zeta. intros (base & (v & Hv & (n & Hn & [= <-])%bind_ok)%bind_ok & Hb)%bind_ok.
  apply bind_ok in Hb as (tl & Htl & Hb). apply bind_ok in Hb as (kl & Hkl & Hb). apply bind_ok in Hb as (t & Ht & Hb).
  apply bind_ok in Hb as (r & Hr & Hb). apply (new_root _ _ _ ltac:(apply Forall_map, Forall_true; intros; apply sha256_length) Ht) in Hr as ->.
  cbn [of_option] in Hb. rewrite bind_Ok in Hb. injection Hb as <-. exists n, tl, kl. split_and!; try done.
  rewrite to_bytes_1 in Hv by (destruct (wp_version self); cbn; lia). injection Hv as <-. by rewrite <- !app_assoc.
Qed.

(** The strings that are hashed for the serialization of a policy. *)
Definition policy_inputs (p : WalletPolicy) : list bytes := encode_utf8 (descriptor_template p) :: list_inputs (map encode_utf8 (keys_info p)).

Lemma encoded_keys_inj ks ls : map encode_utf8 ks = map encode_utf8 ls → ks = ls.
Proof.
  revert ls. induction ks as [|k ks IH]; intros [|l ls] E; cbn [map] in E; try done. injection E as Ek%encode_utf8_inj E. f_equal; [done|by apply IH].
Qed.

Lemma serialize_binding P (HP : collision_free P) (p q : WalletPolicy) (b : bytes) (Ip : policy_inputs p ⊆ P) (Iq : policy_inputs q ⊆ P)
  (Hp : WalletPolicy_serialize p = Ok b) (Hq : WalletPolicy_serialize q = Ok b) : p = q.
Proof.
  apply serialize_parts in Hp as (n & tl & kl & Hn & Htl & Hkl & ->). apply serialize_parts in Hq as (n' & tl' & kl' & Hn' & Htl' & Hkl' & E).
  unfold policy_inputs in Ip, Iq. destruct p as [pn pv pt pk], q as [qn qv qt qk]. cbn [wp_name wp_version descriptor_template keys_info] in *.
  cbn [app] in E. injection E as Ev E. assert (pv = qv) as <- by (destruct pv, qv; done).
  destruct (serialize_str_inj _ _ _ _ _ _ Hn Hn' E) as [<- E2]. destruct (compact_size_prefix _ _ _ _ _ _ Htl Htl' E2) as [Hl E3].
  assert (∃ x y, x ++ kl ++ merkle_root (map (λ k, element_hash (encode_utf8 k)) pk) = y ++ kl' ++ merkle_root (map (λ k, element_hash (encode_utf8 k)) qk) ∧
    length x = length y ∧ (x = y → encode_utf8 pt = encode_utf8 qt)) as (x & y & E4 & Hxy & Ht).
  { eexists _, _. split; [exact E3|]. case_bool_decide; (split; [by rewrite ?sha256_length; unfold len in Hl; lia|]); [done|].
    intros Ex. apply HP; [set_solver..|exact Ex]. }
  apply app_inj_1 in E4 as [Ex E4]; [|done]. apply Ht, encode_utf8_inj in Ex as <-.
  destruct (compact_size_prefix _ _ _ _ _ _ Hkl Hkl' E4) as [Hk E5]. rewrite <- !(map_map encode_utf8 element_hash) in E5.
  eapply list_root_inj in E5; [|exact HP|unfold len in *; rewrite !length_map; lia|set_solver..]. by apply encoded_keys_inj in E5 as ->.
Qed.

(** What the user registers is what is meant: two policies with the same serialization have the same
    version, name, descriptor template and keys, where the strings hashed for them do not collide. *)
Theorem wallet_policy_binding (p q : WalletPolicy) (b : bytes) (Hc : collision_free (policy_inputs p ++ policy_inputs q))
  (Hp : WalletPolicy_serialize p = Ok b) (Hq : WalletPolicy_serialize q = Ok b) : p = q.
Proof. apply (serialize_binding _ Hc p q b); [set_solver..|done|done]. Qed.
End binding.

(** ** Filling in a template *)

(** What follows a number: no more digits. *)
Definition ends_number (t : pystr) : bool := match t with c :: _ => negb (is_digit c) | [] => true end.

Lemma startswith_longer q p d r t : p = q ++ d :: r → is_digit d = true → ends_number t = true → startswith p (q ++ t) = false.
Proof.
  intros -> Hd Ht. induction q as [|x q IH]; cbn [app].
  - destruct t as [|c t]; [done|]. cbn in Ht |- *. rewrite bool_decide_eq_false_2; [done|]. intros ->. by rewrite Hd in Ht.
  - cbn [startswith]. by rewrite bool_decide_eq_true_2.
Qed.

Definition told_apart (p q : pystr) : bool :=
  diverge p q || match drop (length q) p with d :: _ => is_digit d && startswith q p | [] => false end.

Lemma startswith_split q p : startswith q p = true → p = q ++ drop (length q) p.
Proof.
  revert p. induction q as [|x q IH]; intros [|y p]; try done. cbn [startswith length drop app].
  intros [->%bool_decide_eq_true H]%andb_true_iff. f_equal. by apply IH.
Qed.

Lemma told_apart_miss p q t : told_apart p q = true → ends_number t = true → startswith p (q ++ t) = false.
Proof.
  unfold told_apart. intros [H|H]%orb_true_iff Ht; [by apply diverge_startswith|].
  destruct (drop (length q) p) as [|d r] eqn:E; [done|]. apply andb_true_iff in H as [Hd Hs].
  apply startswith_split in Hs. rewrite E in Hs. by eapply startswith_longer.
Qed.

(** A placeholder is not mistaken for one with a smaller number. *)
Lemma placeholders_told_apart i j : (i < j < 16)%nat → told_apart (placeholder (Z.of_nat j)) (placeholder (Z.of_nat i)) = true.
Proof.
  intros H.
  assert (Forall (λ j, Forall (λ i, told_apart (placeholder (Z.of_nat j)) (placeholder (Z.of_nat i)) = true) (seq 0 j)) (seq 0 16)) as Hall
    by (apply (bool_decide_unpack _); vm_compute; exact I).
  rewrite Forall_forall in Hall. specialize (Hall j ltac:(apply elem_of_seq; lia)). rewrite Forall_forall in Hall.
  apply Hall, elem_of_seq. lia.
Qed.

Lemma placeholder_chars i : chr 64 ∉ str_int (Z.of_nat i).
Proof.
  unfold str_int. rewrite (proj2 (Z.ltb_ge _ _)) by lia. pose proof (str_nat_digits (Z.of_nat i) ltac:(lia)) as Hd.
  intros Hin. rewrite Forall_forall in Hd. by apply Hd in Hin.
Qed.

Section fill.
Context (key : nat → pystr) (sfx suf : pystr).
Context (Hkey : ∀ i, chr 64 ∉ key i) (Hsfx : chr 64 ∉ sfx) (Hsuf : chr 64 ∉ suf).
Context (Hnum : ends_number (sfx ++ suf) = true) (Hnum' : ends_number (sfx ++ [chr 44]) = true).

(** The keys with the number [j] and above are filled in. *)
Definition filled (j : nat) (l : list nat) : pystr :=
  concat (map (λ i, chr 44 :: (if decide (j <= i)%nat then key i else placeholder (Z.of_nat i)) ++ sfx) l) ++ suf.

Lemma filled_ends j l : ends_number (sfx ++ filled j l) = true.
Proof.
  unfold filled. destruct l as [|i l]; [done|]. cbn [map concat]. destruct sfx as [|c s]; [done|]. exact Hnum'.
Qed.

Lemma fill_step j l : Forall (λ i, (i < 16)%nat) l → (j < 16)%nat →
  str_replace (placeholder (Z.of_nat j)) (key j) (filled (S j) l) = filled j l.
Proof.
  intros Hl Hj. induction l as [|i l IH].
  - unfold filled. cbn [map concat app]. by apply replace_plain_all.
  - apply Forall_cons in Hl as [Hi Hl]. specialize (IH Hl).
    assert (∀ k, filled k (i :: l) = [chr 44] ++ ((if decide (k <= i)%nat then key i else placeholder (Z.of_nat i)) ++ sfx) ++ filled k l) as E.
    { intros k. unfold filled. cbn [map concat app]. by rewrite <- app_assoc. }
    assert (∀ s, chr 64 ∉ s → ∀ t, str_replace (placeholder (Z.of_nat j)) (key j) (s ++ t) = s ++ str_replace (placeholder (Z.of_nat j)) (key j) t) as Hplain
      by (intros s Hs t; by apply replace_plain).
    rewrite !E, <- !app_assoc. rewrite (Hplain [chr 44]) by (by intros ?%list_elem_of_singleton). f_equal.
    destruct (decide (S j <= i)%nat) as [L|L]; [rewrite decide_True by lia; by rewrite (Hplain (key i)), (Hplain sfx), IH|].
    destruct (decide (j <= i)%nat) as [L2|L2].
    + replace i with j by lia. rewrite replace_hit by done. by rewrite (Hplain sfx), IH.
    + pose proof (placeholders_told_apart i j ltac:(lia)) as Ht.
      pose proof (told_apart_miss _ _ (sfx ++ filled (S j) l) Ht (filled_ends _ _)) as Hm.
      change (placeholder (Z.of_nat i)) with (chr 64 :: str_int (Z.of_nat i)) in Hm |- *. cbn [app] in Hm |- *.
      rewrite replace_miss; [by rewrite (Hplain sfx), IH|done|done|]. intros x [= <-]. apply placeholder_chars.
Qed.

Lemma fill_all pre n m : chr 64 ∉ pre → (m <= n <= 16)%nat →
  foldl (λ desc i, str_replace (placeholder (Z.of_nat i)) (key i) desc) (pre ++ filled m (seq 0 n)) (rev (seq 0 m)) = pre ++ filled 0 (seq 0 n).
Proof.
  intros Hp Hm. induction m as [|m IH]; [done|]. rewrite seq_S, rev_app_distr. cbn [rev app foldl Nat.add].
  unfold placeholder at 2. change ($"@" ++ ?s) with (chr 64 :: s). rewrite replace_plain by done.
  change (chr 64 :: str_int (Z.of_nat m)) with (placeholder (Z.of_nat m)). rewrite fill_step; [apply IH; lia| |lia].
  apply Forall_forall. intros i Hi%elem_of_seq. lia.
Qed.
End fill.

Lemma join_commas c l : l ≠ [] → c :: join_char c l = concat (map (cons c) l).
Proof.
  induction l as [|x l IH]; [done|]. intros _. destruct l as [|y l]; [cbn; by rewrite app_nil_r|].
  change (join_char c (x :: y :: l)) with (x ++ c :: join_char c (y :: l)). rewrite IH by done. reflexivity.
Qed.

Lemma stars_hit new s t : chr 42 ∉ s → str_replace $"/**" new (s ++ $"/**" ++ t) = s ++ new ++ str_replace $"/**" new t.
Proof.
  intros Hs. induction s as [|c s IH]; [exact (replace_hit $"/**" new t ltac:(done))|]. apply not_elem_of_cons in Hs as [Hc Hs].
  unfold str_replace in *. cbn [app replace_from].
  assert (startswith $"/**" (c :: s ++ $"/**" ++ t) = false) as ->; [|by rewrite IH].
  destruct s as [|d s]; [cbn; by rewrite andb_false_r|]. apply not_elem_of_cons in Hs as [Hd _].
  cbn. rewrite (bool_decide_eq_false_2 (_ = d)) by exact Hd. apply andb_false_r.
Qed.

Lemma sub_multipath_none change s : chr 60 ∉ s → sub_multipath change s 0 = s.
Proof.
  induction s as [|c s IH]; [done|]. intros [Hc Hs]%not_elem_of_cons. cbn [sub_multipath].
  assert (match_multipath (c :: s) = None) as ->; [|by rewrite IH]. unfold match_multipath.
  assert (startswith $"/<" (c :: s) = false) as ->; [|done]. destruct s as [|d s]; [cbn; apply andb_false_r|].
  apply not_elem_of_cons in Hs as [Hd _]. cbn. rewrite (bool_decide_eq_false_2 (_ = d)) by exact Hd. apply andb_false_r.
Qed.

(** * Specification: the descriptor of a multisig wallet *)

(** The keys with the suffix of their branch. *)
Definition branch (change : bool) : pystr := $"/" ++ (if change then $"1" else $"0") ++ $"/*".
Definition multisig_descriptor (prefix suffix : pystr) (threshold : Z) (keys : list pystr) (change : bool) : pystr :=
  prefix ++ str_int threshold ++ $"," ++ join_char (chr 44) (map (λ k, k ++ branch change) keys) ++ suffix.

(** In the first version the derivation is a part of the key, in the second of the template. *)
Definition policy_keys (version : WalletType) (keys : list pystr) : list pystr :=
  match version with WALLET_POLICY_V1 => map (λ k, k ++ $"/**") keys | WALLET_POLICY_V2 => keys end.

Definition plain_key (k : pystr) : Prop := chr 64 ∉ k ∧ chr 42 ∉ k ∧ chr 60 ∉ k.
Definition multisig_ok (threshold : Z) (keys : list pystr) : Prop := 1 <= threshold <= len keys ∧ len keys <= 16.

#[export] Instance multisig_ok_dec threshold keys : Decision (multisig_ok threshold keys).
Proof. unfold multisig_ok. apply _. Defined.

(** ** The descriptor *)

Definition no_marks (s : pystr) : bool := forallb (λ c, negb (bool_decide (c ∈ [chr 64; chr 47; chr 60]))) s.

Lemma no_marks_ok s : no_marks s = true → chr 64 ∉ s ∧ chr 47 ∉ s ∧ chr 60 ∉ s.
Proof.
  unfold no_marks. rewrite forallb_forall. intros H.
  split_and!; intros Hin; apply list_elem_of_In, H, negb_true_iff, bool_decide_eq_false in Hin; set_solver.
Qed.

Lemma prefix_marks at_ op pre suf t : policy_prefix at_ (if op : bool then $"sortedmulti" else $"multi") = Some (pre, suf) → 1 <= t <= 16 →
  no_marks (pre ++ str_int t) = true ∧ no_marks suf = true ∧ ends_number suf = true.
Proof.
  intros Hp Ht. assert (Forall (λ t, no_marks (str_int (Z.of_nat t)) = true) (seq 1 16)) as Hall by (apply (bool_decide_unpack _); vm_compute; exact I).
  rewrite Forall_forall in Hall. specialize (Hall (Z.to_nat t) ltac:(apply elem_of_seq; lia)). rewrite Z2Nat.id in Hall by lia.
  unfold no_marks in *. rewrite forallb_app, Hall, andb_true_r.
  destruct at_, op; cbn [policy_prefix] in Hp; try done; injection Hp as <- <-; by vm_compute.
Qed.

(** Expanding [/**] in a template that is filled in. *)
Lemma expand_stars change (keys : list pystr) suf : Forall (λ k, chr 42 ∉ k) keys → chr 47 ∉ suf →
  str_replace $"/**" (branch change) (concat (map (λ k, chr 44 :: k ++ $"/**") keys) ++ suf) =
  concat (map (λ k, chr 44 :: k ++ branch change) keys) ++ suf.
Proof.
  intros Hk Hs. induction Hk as [|k keys Hk Hkeys IH]; cbn [map concat]; [by apply replace_plain_all|].
  rewrite <- !app_comm_cons, <- !app_assoc. pose proof (replace_plain (chr 47) (lit "**") (branch change) [chr 44]) as Hp. cbn [app] in Hp.
  change (chr 47 :: lit "**") with (lit "/**") in Hp. rewrite Hp by (by intros ?%list_elem_of_singleton). f_equal. by rewrite stars_hit, IH.
Qed.

Lemma map_seq_lookup {A B} (f : nat → B) (g : A → B) l : (∀ i x, l !! i = Some x → f i = g x) → map f (seq 0 (length l)) = map g l.
Proof.
  intros H. apply list_eq. intros i. rewrite !list_lookup_fmap. destruct (l !! i) as [x|] eqn:E.
  - rewrite lookup_seq_lt by (by eapply lookup_lt_Some). cbn. f_equal. by apply H.
  - rewrite lookup_seq_ge; [done|]. by apply lookup_ge_None.
Qed.

Lemma policy_keys_lookup version keys i k : keys !! i = Some k →
  default [] (policy_keys version keys !! i) = k ++ (if bool_decide (version = WALLET_POLICY_V2) then [] else $"/**").
Proof.
  intros Hi. destruct version; cbn [policy_keys]; rewrite ?list_lookup_fmap, Hi; cbn; by rewrite ?app_nil_r.
Qed.

Lemma stars_chars : chr 64 ∉ $"/**".
Proof. apply (bool_decide_unpack _). vm_compute. exact I. Qed.

Lemma fill_policy version keys pre suf : Forall plain_key keys → len keys <= 16 → chr 64 ∉ pre → chr 64 ∉ suf → ends_number suf = true → keys ≠ [] →
  foldl (λ desc i, str_replace (placeholder (Z.of_nat i)) (default [] (policy_keys version keys !! i)) desc)
    (pre ++ $"," ++ join_char (chr 44) (map (λ k, $"@" ++ str_int (Z.of_nat k) ++ (if bool_decide (version = WALLET_POLICY_V2) then $"/**" else []))
       (seq 0 (length keys))) ++ suf) (rev (seq 0 (length keys))) =
  pre ++ concat (map (λ k, chr 44 :: k ++ $"/**") keys) ++ suf.
Proof.
  intros Hk Hl Hpre Hsuf Hnum Hne. set (sfx := if bool_decide _ then _ else _).
  set (key := λ i, default [] (policy_keys version keys !! i)).
  assert (chr 64 ∉ sfx ∧ ends_number (sfx ++ suf) = true ∧ ends_number (sfx ++ [chr 44]) = true) as (Hsfx & Hn1 & Hn2).
  { unfold sfx. case_bool_decide; split; [apply stars_chars|done|apply not_elem_of_nil|done]. }
  assert (∀ i, chr 64 ∉ key i) as Hkey.
  { intros i. unfold key. destruct (keys !! i) as [k|] eqn:E.
    - rewrite (policy_keys_lookup _ _ _ _ E). rewrite Forall_lookup in Hk. destruct (Hk _ _ E) as [Hk1 _].
      intros [?|?]%elem_of_app; [done|]. case_bool_decide; [by apply not_elem_of_nil in H|by apply stars_chars].
    - assert (policy_keys version keys !! i = None) as ->; [|apply not_elem_of_nil].
      destruct version; cbn [policy_keys]; [by rewrite list_lookup_fmap, E|done]. }
  pose proof (fill_all key sfx suf Hkey Hsfx Hsuf Hn1 Hn2 pre (length keys) (length keys) Hpre ltac:(unfold len in Hl; lia)) as Hf.
  assert (filled key sfx suf (length keys) (seq 0 (length keys)) = $"," ++ join_char (chr 44) (map (λ k, $"@" ++ str_int (Z.of_nat k) ++ sfx) (seq 0 (length keys))) ++ suf) as <-.
  { change ($"," ++ ?x) with (chr 44 :: x). rewrite app_comm_cons, join_commas by (intros E%map_eq_nil; by destruct keys).
    unfold filled. do 2 f_equal. rewrite map_map. apply map_ext_in. intros i Hi%list_elem_of_In%elem_of_seq.
    by rewrite decide_False by lia. }
  etrans; [exact Hf|]. f_equal. unfold filled. do 2 f_equal. apply map_seq_lookup. intros i k Hi. rewrite decide_True by lia.
  unfold key. rewrite (policy_keys_lookup _ _ _ _ Hi), <- app_assoc. unfold sfx. by case_bool_decide; rewrite ?app_nil_r.
Qed.

Definition multisig_op (sorted : bool) : pystr := if sorted then $"sortedmulti" else $"multi".

Lemma branch_chars change k : chr 60 ∉ k → chr 60 ∉ k ++ branch change.
Proof.
  intros Hk [?|Hb]%elem_of_app; [done|]. revert Hb. change (chr 60 ∉ branch change).
  destruct change; apply (bool_decide_unpack _); vm_compute; exact I.
Qed.

(** C21: a multisig wallet is made of 1 to 16 keys and a threshold between 1 and their number, with any type of
    address but Taproot, else [ValueError] is raised; its descriptor, in both versions of the policy,
    is the multisig of the keys in their order, each followed by the branch that was asked for. *)
Theorem multisig_wallet_descriptor (name : pystr) (address_type : AddressType) (threshold : Z) (keys : list pystr)
    (sorted : bool) (version : WalletType) (Hk : Forall plain_key keys) :
  match policy_prefix address_type (multisig_op sorted) with
  | Some (prefix, suffix) =>
      if decide (multisig_ok threshold keys) then
        ∃ w, MultisigWallet_new name address_type threshold (policy_keys version keys) sorted version = Ok w ∧
          ∀ change, get_descriptor change w = multisig_descriptor prefix suffix threshold keys change
      else MultisigWallet_new name address_type threshold (policy_keys version keys) sorted version = Err ValueError
  | None => MultisigWallet_new name address_type threshold (policy_keys version keys) sorted version = Err ValueError
  end.
Proof.
  unfold MultisigWallet_new. assert (len (policy_keys version keys) = len keys) as El by (unfold len; destruct version; cbn [policy_keys]; by rewrite ?length_map).
  assert (length (policy_keys version keys) = length keys) as El2 by (unfold len in El; lia).
  cbv zeta. rewrite El. fold (multisig_op sorted). destruct (policy_prefix _ _) as [[pre suf]|] eqn:Ep.
  2:{ destruct (negb _); [done|]. done. }
  destruct (decide (multisig_ok threshold keys)) as [[H1 H2]|Hn].
  2:{ unfold multisig_ok in Hn. destruct (negb _) eqn:E; [done|]. lia. }
  rewrite (proj2 (Z.leb_le 1 _)), !(proj2 (Z.leb_le _ _)) by lia. cbn [andb negb of_option]. rewrite bind_Ok.
  assert (∀ t k, WalletPolicy_new name t k version = Ok {| wp_name := name; wp_version := version; descriptor_template := t; keys_info := k |}) as Hnew.
  { intros t k. unfold WalletPolicy_new. by destruct version. }
  rewrite Hnew. eexists. split; [done|]. intros change. unfold get_descriptor. cbn [wp_version descriptor_template keys_info].
  destruct (prefix_marks address_type sorted pre suf threshold Ep ltac:(lia)) as (Hpre & Hsuf & Hnum).
  assert (keys ≠ []) as Hne by (intros ->; unfold len in H1; simpl in H1; lia).
  apply no_marks_ok in Hpre as (P1 & P2 & P3), Hsuf as (S1 & S2 & S3).
  rewrite El2, <- (app_assoc (str_int threshold)), (app_assoc pre (str_int threshold)). rewrite fill_policy by done.
  change ($"/" ++ _ ++ $"/*") with (branch change).
  rewrite (replace_plain (chr 47) (lit "**") (branch change) _ _ P2 : str_replace (lit "/**") (branch change) (_ ++ _) = _ ++ str_replace (lit "/**") (branch change) _).
  rewrite expand_stars; [|eapply Forall_impl; [exact Hk|]; by intros k (_ & ? & _)|done].
  assert (multisig_descriptor pre suf threshold keys change = (pre ++ str_int threshold) ++ concat (map (λ k, chr 44 :: k ++ branch change) keys) ++ suf) as ->.
  { unfold multisig_descriptor. rewrite <- (app_assoc pre). do 2 f_equal. change ($"," ++ ?x) with (chr 44 :: x).
    rewrite app_comm_cons, join_commas by (intros E%map_eq_nil; by destruct keys). by rewrite map_map. }
  destruct (bool_decide _); [|done]. apply sub_multipath_none. intros [?|[Hin|?]%elem_of_app]%elem_of_app; [done| |done].
  apply list_elem_of_In, in_concat in Hin as (x & Hx & Hin). apply in_map_iff in Hx as (k & <- & Hin2%list_elem_of_In).
  rewrite Forall_forall in Hk. apply list_elem_of_In, elem_of_cons in Hin as [?|Hin]; [done|]. revert Hin. by apply branch_chars, Hk.
Qed.

Definition example_keys : list pystr := map (λ i, $"[f5acc2fd/48'/1'/" ++ str_int (Z.of_nat i) ++ $"']tpub") (seq 0 12).

Lemma multisig_wallet_descriptor_witness : ∃ w,
  MultisigWallet_new $"shared" WIT 2 example_keys true WALLET_POLICY_V2 = Ok w ∧
  get_descriptor true w = multisig_descriptor $"wsh(sortedmulti(" $"))" 2 example_keys true.
Proof.
  assert (Forall plain_key example_keys) as Hk by (apply (bool_decide_unpack _); vm_compute; exact I).
  pose proof (multisig_wallet_descriptor $"shared" WIT 2 example_keys true WALLET_POLICY_V2 Hk) as Hm.
  cbn [policy_prefix multisig_op] in Hm. rewrite decide_True in Hm by (split; vm_compute; done).
  destruct Hm as (w & E & Hd). exists w. split; [exact E|exact (Hd true)].
Defined.

Definition example_policy : WalletPolicy := {|
  wp_name := $"cold storage"; wp_version := WALLET_POLICY_V2; descriptor_template := $"wpkh(@0/**)"; keys_info := [$"tpub"];
|}.

Lemma wallet_policy_binding_witness : ∃ b,
  WalletPolicy_serialize (H := executable_hashes) example_policy = Ok b ∧
  ∀ q, collision_free (H := executable_hashes) (policy_inputs example_policy ++ policy_inputs q) →
    WalletPolicy_serialize (H := executable_hashes) q = Ok b → example_policy = q.
Proof.
  destruct (WalletPolicy_serialize (H := executable_hashes) example_policy) as [b|e] eqn:E; [|vm_compute in E; discriminate].
  exists b. split; [reflexivity|]. intros q Hc Hq. exact (wallet_policy_binding (H := executable_hashes) _ _ _ Hc E Hq).
Defined.
