(* ===== verification/LedgerCommands.v ===== *)
(** * [hwilib/devices/ledger_bitcoin/command_builder.py]: commands

    The APDU messages of the Bitcoin application.  A request to sign a PSBT
    carries commitments to its maps, from which the device then asks for what it
    needs. *)

From S2P Require Import Prelude Bytes PyStd PyStr Common Sha256 Serialize KeyPath Merkle LedgerWallet.

Definition CURRENT_PROTOCOL_VERSION : Z := 1.

(** The elements of the paths, four bytes each. *)
Definition path_element (p : pystr) : result bytes :=
  if bool_decide (chr 39 ∉ p) then v ← int_str p; to_bytes_be 4 v
  else v ← int_str (slice_to_neg 1 p); to_bytes_be 4 (Z.lor 0x80000000 v).

Definition bip32_path_from_string (path : pystr) : result (list bytes) :=
  let splitted_path := split_char (chr 47) path in
  let splitted_path :=
    if bool_decide ($"m" ∈ splitted_path) && bool_decide (head splitted_path = Some $"m") then drop 1 splitted_path else splitted_path in
  mapR path_element splitted_path.

(** [for i in range(chunk)]: whole chunks, none of them the last. *)
Fixpoint whole_chunks (chunk : nat) (chunk_len : nat) (data : bytes) : list (bool * bytes) * bytes :=
  match chunk with
  | O => ([], data)
  | S chunk =>
      let '(cs, rest) := whole_chunks chunk chunk_len (drop chunk_len data) in
      ((false, take chunk_len data) :: cs, rest)
  end.

(** What the generator yields, for a positive [chunk_len]. *)
Definition chunkify (data : bytes) (chunk_len : nat) : list (bool * bytes) :=
  if (length data <=? chunk_len)%nat then [(true, data)]
  else
    let chunk := (length data / chunk_len)%nat in
    let remaining := (length data mod chunk_len)%nat in
    let '(cs, rest) := whole_chunks chunk chunk_len data in
    cs ++ (if (remaining =? 0)%nat then [] else [(true, rest)]).

Inductive DefaultInsType := GET_VERSION.
Inductive BitcoinInsType :=
  GET_EXTENDED_PUBKEY | GET_ADDRESS | REGISTER_WALLET | GET_WALLET_ADDRESS | SIGN_PSBT | GET_MASTER_FINGERPRINT | SIGN_MESSAGE.
Inductive FrameworkInsType := CONTINUE_INTERRUPTED.

Definition bitcoin_ins (i : BitcoinInsType) : Z :=
  match i with
  | GET_EXTENDED_PUBKEY => 0x00
  | GET_ADDRESS => 0x01
  | REGISTER_WALLET => 0x02
  | GET_WALLET_ADDRESS => 0x03
  | SIGN_PSBT => 0x04
  | GET_MASTER_FINGERPRINT => 0x05
  | SIGN_MESSAGE => 0x10
  end.
Definition default_ins (i : DefaultInsType) : Z := match i with GET_VERSION => 0x01 end.
Definition framework_ins (i : FrameworkInsType) : Z := match i with CONTINUE_INTERRUPTED => 0x01 end.

Definition CLA_DEFAULT : Z := 0xB0.
Definition CLA_BITCOIN : Z := 0xE1.
Definition CLA_FRAMEWORK : Z := 0xF8.

(** The dictionary of an APDU. *)
Record apdu := mkApdu { cla : Z; ins : Z; p1 : Z; p2 : Z; data : bytes }.

Definition serialize_cmd (cla ins : Z) (cdata : bytes) : apdu := mkApdu cla ins 0 CURRENT_PROTOCOL_VERSION cdata.

Definition flag_byte (b : bool) : bytes := [chr (if b then 1 else 0)].

Definition build_get_extended_pubkey (bip32_path : pystr) (display : bool) : result apdu :=
  bip32_paths ← bip32_path_from_string bip32_path;
  n ← to_bytes_be 1 (len bip32_paths);
  Ok (serialize_cmd CLA_BITCOIN (bitcoin_ins GET_EXTENDED_PUBKEY) (flag_byte display ++ n ++ concat bip32_paths)).

Definition build_get_master_fingerprint : apdu := serialize_cmd CLA_BITCOIN (bitcoin_ins GET_MASTER_FINGERPRINT) [].

Definition continue_interrupted (cdata : bytes) : apdu := serialize_cmd CLA_FRAMEWORK (framework_ins CONTINUE_INTERRUPTED) cdata.

(** [message[64 * i: 64 * i + 64] for i in range(n_chunks)]. *)
Definition message_chunks (message : bytes) : list bytes :=
  let n_chunks := ((length message + 63) / 64)%nat in
  map (λ i, slice (64 * i) (64 * i + 64) message) (seq 0 n_chunks).

Definition hmac_or_zeros (wallet_hmac : option bytes) : bytes := default (replicate 32 (chr 0)) wallet_hmac.

Section builder.
Context `{Hashes}.

Definition build_register_wallet (wallet : WalletPolicy) : result apdu :=
  wallet_bytes ← WalletPolicy_serialize wallet;
  n ← ser_compact_size (len wallet_bytes);
  Ok (serialize_cmd CLA_BITCOIN (bitcoin_ins REGISTER_WALLET) (n ++ wallet_bytes)).

Definition build_get_wallet_address (wallet : WalletPolicy) (wallet_hmac : option bytes) (address_index : Z)
    (change display : bool) : result apdu :=
  id ← wallet_id wallet;
  i ← to_bytes_be 4 address_index;
  Ok (serialize_cmd CLA_BITCOIN (bitcoin_ins GET_WALLET_ADDRESS)
        (flag_byte display ++ id ++ hmac_or_zeros wallet_hmac ++ flag_byte change ++ i)).

(** [MerkleTree([element_hash(get_merkleized_map_commitment(m)) for m in maps]).root]. *)
Definition maps_root (maps : list (pydict bytes bytes)) : result bytes :=
  cs ← mapR get_merkleized_map_commitment maps;
  t ← MerkleTree_new (map element_hash cs);
  r ← root t;
  of_option TypeError r.

Definition build_sign_psbt (global_mapping : pydict bytes bytes) (input_mappings output_mappings : list (pydict bytes bytes))
    (wallet : WalletPolicy) (wallet_hmac : option bytes) : result apdu :=
  g ← get_merkleized_map_commitment global_mapping;
  ni ← ser_compact_size (len input_mappings);
  ri ← maps_root input_mappings;
  no ← ser_compact_size (len output_mappings);
  ro ← maps_root output_mappings;
  id ← wallet_id wallet;
  Ok (serialize_cmd CLA_BITCOIN (bitcoin_ins SIGN_PSBT) (g ++ ni ++ ri ++ no ++ ro ++ id ++ hmac_or_zeros wallet_hmac)).

Definition build_sign_message (message : bytes) (bip32_path : pystr) : result apdu :=
  bip32_path ← bip32_path_from_string bip32_path;
  n ← to_bytes_be 1 (len bip32_path);
  l ← ser_compact_size (len message);
  t ← MerkleTree_new (map element_hash (message_chunks message));
  r ← root t;
  r ← of_option TypeError r;
  Ok (serialize_cmd CLA_BITCOIN (bitcoin_ins SIGN_MESSAGE) (n ++ concat bip32_path ++ l ++ r)).
End builder.

(** * Lemmas *)

Section lemmas.
Context `{Hashes}.

(** ** Commitments to lists and mappings *)

Lemma merkle_root_hash vs : vs ≠ [] → Forall is_hash vs → is_hash (merkle_root vs).
Proof.
  intros Hne Hvs. destruct vs as [|v vs]; [done|]. by destruct (proof_bounds (v :: vs) 0 ltac:(simpl; lia) Hvs) as (_ & _ & ?).
Qed.

Lemma root_of_hashes_length {A} (f : A → bytes) (l : list A) : (∀ x, is_hash (f x)) → length (merkle_root (map f l)) = 32%nat.
Proof.
  intros Hf. destruct l as [|x l]; [done|]. apply merkle_root_hash; [done|]. by apply Forall_map, Forall_true.
Qed.

Lemma element_hash_is_hash x : is_hash (element_hash x).
Proof. apply sha256_length. Qed.

Lemma commitment_parts m a : get_merkleized_map_commitment m = Ok a → ∃ n, ser_compact_size (len m) = Ok n ∧
  a = n ++ merkle_root (map element_hash (map fst (sorted_items m))) ++ merkle_root (map element_hash (map snd (sorted_items m))).
Proof.
  unfold get_merkleized_map_commitment. cbv zeta. rewrite !map_map. intros (t1 & H1 & (t2 & H2 & H3)%bind_ok)%bind_ok.
  apply bind_ok in H3 as (n & Hn & H3). apply bind_ok in H3 as (r1 & Hr1 & H3). apply bind_ok in H3 as (o1 & Ho1 & H3).
  apply bind_ok in H3 as (r2 & Hr2 & H3). apply bind_ok in H3 as (o2 & Ho2 & [= <-]).
  assert (∀ f : bytes * bytes → bytes, Forall is_hash (map (λ i, element_hash (f i)) (sorted_items m))) as Hf
    by (intros f; apply Forall_map, Forall_true; intros; apply element_hash_is_hash).
  apply (new_root _ _ _ (Hf fst) H1) in Hr1 as ->. apply (new_root _ _ _ (Hf snd) H2) in Hr2 as ->.
  injection Ho1 as <-. injection Ho2 as <-. by exists n.
Qed.

(** The same items, in the order of the keys. *)
Definition same_map (m m' : pydict bytes bytes) : Prop := sorted_items m = sorted_items m'.

Lemma fst_snd_eq {A B} (l k : list (A * B)) : map fst l = map fst k → map snd l = map snd k → l = k.
Proof.
  revert k. induction l as [|[a b] l IH]; intros [|[c d] k] E1 E2; try done. cbn [map fst snd] in *.
  injection E1 as -> E1. injection E2 as -> E2. f_equal. by apply IH.
Qed.

(** The strings that are hashed for the commitment to a mapping, and for a list of commitments. *)
Definition map_inputs (m : pydict bytes bytes) : list bytes := list_inputs (map fst (sorted_items m)) ++ list_inputs (map snd (sorted_items m)).
Definition maps_inputs (ms : list (pydict bytes bytes)) : list bytes :=
  concat (map map_inputs ms) ++ (if mapR get_merkleized_map_commitment ms is Ok cs then list_inputs cs else []).

Section binding.
Context (P : list bytes) (HP : collision_free P).

Lemma commitment_prefix m m' a b x y : map_inputs m ⊆ P → map_inputs m' ⊆ P →
  get_merkleized_map_commitment m = Ok a → get_merkleized_map_commitment m' = Ok b → a ++ x = b ++ y → same_map m m' ∧ x = y.
Proof.
  unfold map_inputs. intros Im Im' (n & Hn & ->)%commitment_parts (n' & Hn' & ->)%commitment_parts E. rewrite <- !app_assoc in E.
  destruct (compact_size_prefix _ _ _ _ _ _ Hn Hn' E) as [Hl E1].
  apply app_inj_1 in E1 as [K E1]; [|by rewrite !root_of_hashes_length by apply element_hash_is_hash].
  apply app_inj_1 in E1 as [V ->]; [|by rewrite !root_of_hashes_length by apply element_hash_is_hash].
  assert (len (sorted_items m) = len (sorted_items m')) as Hs by (unfold len in *; by rewrite !(Permutation_length (sorted_items_perm _))).
  apply (list_root_inj P HP) in K; [|unfold len in *; by rewrite !length_map|set_solver..].
  apply (list_root_inj P HP) in V; [|unfold len in *; by rewrite !length_map|set_solver..].
  split; [|done]. by apply fst_snd_eq.
Qed.

Lemma commitments_inj ms ms' l l' : concat (map map_inputs ms) ⊆ P → concat (map map_inputs ms') ⊆ P →
  mapR get_merkleized_map_commitment ms = Ok l → mapR get_merkleized_map_commitment ms' = Ok l' → l = l' → Forall2 same_map ms ms'.
Proof.
  revert ms' l l'. induction ms as [|m ms IH]; intros [|m' ms'] l l' Im Im' Hl Hl' E; cbn [mapR map concat] in *.
  - constructor.
  - injection Hl as <-. apply bind_ok in Hl' as (c & _ & (cs & _ & [= <-])%bind_ok). done.
  - injection Hl' as <-. apply bind_ok in Hl as (c & _ & (cs & _ & [= <-])%bind_ok). done.
  - apply bind_ok in Hl as (c & Hc & (cs & Hcs & [= <-])%bind_ok). apply bind_ok in Hl' as (c' & Hc' & (cs' & Hcs' & [= <-])%bind_ok).
    injection E as -> E. destruct (commitment_prefix m m' c' c' [] []) as [? _]; [set_solver..|done|done|done|].
    constructor; [done|]. apply (IH ms' cs cs'); [set_solver..|done|done|done].
Qed.
End binding.

Lemma mapR_len {A B} (f : A → result B) l r : mapR f l = Ok r → len r = len l.
Proof.
  revert r. induction l as [|x l IH]; intros r Hr; cbn [mapR] in Hr; [by injection Hr as <-|].
  apply bind_ok in Hr as (y & _ & (ys & Hys & [= <-])%bind_ok). rewrite !len_cons. by rewrite (IH ys Hys).
Qed.

Lemma maps_root_parts ms r : maps_root ms = Ok r → ∃ cs, mapR get_merkleized_map_commitment ms = Ok cs ∧ r = merkle_root (map element_hash cs).
Proof.
  unfold maps_root. intros (cs & Hcs & (t & Ht & (o & Ho & H1)%bind_ok)%bind_ok)%bind_ok. exists cs. split; [done|].
  apply (new_root _ _ _ ltac:(apply Forall_map, Forall_true; intros; apply element_hash_is_hash) Ht) in Ho as ->. by injection H1.
Qed.

Lemma maps_root_prefix P (HP : collision_free P) ms ms' a b r r' x y : maps_inputs ms ⊆ P → maps_inputs ms' ⊆ P →
  ser_compact_size (len ms) = Ok a → ser_compact_size (len ms') = Ok b →
  maps_root ms = Ok r → maps_root ms' = Ok r' → a ++ r ++ x = b ++ r' ++ y → Forall2 same_map ms ms' ∧ x = y.
Proof.
  unfold maps_inputs. intros Im Im' Ha Hb (cs & Hcs & ->)%maps_root_parts (cs' & Hcs' & ->)%maps_root_parts E. rewrite Hcs in Im. rewrite Hcs' in Im'.
  destruct (compact_size_prefix _ _ _ _ _ _ Ha Hb E) as [Hl E1].
  apply app_inj_1 in E1 as [K ->]; [|by rewrite !root_of_hashes_length by apply element_hash_is_hash].
  apply mapR_len in Hcs as L1, Hcs' as L2. apply (list_root_inj P HP) in K; [|congruence|set_solver..].
  split; [|done]. eapply (commitments_inj P HP); [| |exact Hcs|exact Hcs'|done]; set_solver.
Qed.

Lemma sign_request_parts g ins outs w h a : build_sign_psbt g ins outs w h = Ok a → ∃ cg ni ri no ro b,
  get_merkleized_map_commitment g = Ok cg ∧ ser_compact_size (len ins) = Ok ni ∧ maps_root ins = Ok ri ∧
  ser_compact_size (len outs) = Ok no ∧ maps_root outs = Ok ro ∧ WalletPolicy_serialize w = Ok b ∧
  a = serialize_cmd CLA_BITCOIN (bitcoin_ins SIGN_PSBT) (cg ++ ni ++ ri ++ no ++ ro ++ sha256 b ++ hmac_or_zeros h).
Proof.
  unfold build_sign_psbt. intros (cg & Hcg & (ni & Hni & (ri & Hri & (no & Hno & H1)%bind_ok)%bind_ok)%bind_ok)%bind_ok.
  apply bind_ok in H1 as (ro & Hro & (id & Hid & [= <-])%bind_ok). unfold wallet_id in Hid. apply bind_ok in Hid as (b & Hb & [= <-]).
  by exists cg, ni, ri, no, ro, b.
Qed.

(** The strings that are hashed for a request to sign. *)
Definition request_inputs (g : pydict bytes bytes) (ins outs : list (pydict bytes bytes)) (w : WalletPolicy) : list bytes :=
  map_inputs g ++ maps_inputs ins ++ maps_inputs outs ++ policy_inputs w ++ (if WalletPolicy_serialize w is Ok b then [b] else []).
End lemmas.

(** ** Paths *)

(** One step of a path, without a minus sign or the [h] that the rest of the program knows. *)
Lemma path_element_ok p b : chr 45 ∉ p → chr 104 ∉ p →
  path_element p = Ok b ↔ ∃ v, str_to_harden p = Ok v ∧ to_bytes_be 4 v = Ok b.
Proof.
  intros Hm Hh. unfold path_element, str_to_harden, startswith_char, endswith_char.
  assert ((if p is x :: _ then bool_decide (x = chr 45) else false) = false) as ->.
  { destruct p as [|x p]; [done|]. apply bool_decide_eq_false. intros ->. apply Hm. left. }
  assert (∀ c, c ∉ p → (if last p is Some x then bool_decide (x = c) else false) = false) as Hlast.
  { intros c Hc. destruct (last p) as [x|] eqn:E; [|done]. apply bool_decide_eq_false. intros ->. apply Hc. by apply last_Some_elem_of. }
  rewrite (Hlast _ Hh). cbn [orb]. case_bool_decide as Hq; [rewrite (Hlast _ Hq); by rewrite bind_ok|].
  destruct (last p) as [x|] eqn:El; [|by destruct p using rev_ind; [apply not_elem_of_nil in Hq|rewrite last_snoc in El]].
  case_bool_decide as Hx.
  - unfold H_. change HARDENED_FLAG with 0x80000000. rewrite bind_ok. split.
    + intros (v & Hv & Hb). exists (Z.lor v 0x80000000). rewrite Hv, bind_Ok. by rewrite Z.lor_comm.
    + intros (v & (u & Hu & [= <-])%bind_ok & Hb). exists u. by rewrite Z.lor_comm.
  - assert (∀ s v, chr 39 ∈ s → int_str s = Ok v → False) as Hbad by (intros s v Hc H1; by apply (int_str_char _ _ _ H1) in Hc).
    split; [|intros (v & Hv & _); by apply Hbad in Hv]. intros (v & Hv & _)%bind_ok. exfalso. revert Hv. apply Hbad.
    apply last_Some in El as (l & ->). rewrite slice_to_neg_exact by done. apply elem_of_app in Hq as [?|?%list_elem_of_singleton]; [done|by subst].
Qed.

Lemma parse_index_single x seen r : parse_index false x seen = Ok r ↔ ∃ v, startswith_char (chr 60) x = false ∧ str_to_harden x = Ok v ∧ r = ([v], seen).
Proof.
  unfold parse_index. destruct (startswith_char (chr 60) x).
  - split; [by destruct seen|]. by intros (? & ? & _).
  - rewrite bind_ok. split; [intros (v & Hv & [= <-]); by exists v|]. intros (v & _ & Hv & ->). by exists v.
Qed.

Lemma path_elements_ok ps ws : Forall (λ p, chr 45 ∉ p) ps → Forall (λ p, chr 104 ∉ p) ps →
  mapR path_element ps = Ok ws ↔ ∃ path, (p ← parse_indexes false ps false; mapR (λ i, nth_py i 0) p) = Ok path ∧ mapR (to_bytes_be 4) path = Ok ws.
Proof.
  intros Hm. revert ws. induction Hm as [|p ps Hp Hm IH]; intros ws Hh.
  - cbn [mapR parse_indexes]. rewrite bind_Ok. cbn [mapR]. split; [intros [= <-]; by exists []|]. by intros (? & [= <-] & ?).
  - apply Forall_cons in Hh as [Hph Hh]. cbn [mapR parse_indexes]. split.
    + intros (b & Hb & (bs & Hbs & [= <-])%bind_ok)%bind_ok. apply path_element_ok in Hb as (v & Hv & Hb); [|done..].
      assert (startswith_char (chr 60) p = false) as H60.
      { destruct p as [|x p]; [done|]. apply bool_decide_eq_false. intros ->. revert Hv. unfold str_to_harden. cbn [startswith_char].
        rewrite (bool_decide_eq_false_2 (chr 60 = chr 45)) by done.
        assert (∀ s v, chr 60 ∈ s → int_str s = Ok v → False) as Hbad by (intros s u Hc H1; by apply (int_str_char _ _ _ H1) in Hc).
        destruct (_ || _) eqn:E; [|intros Hv; eapply Hbad; [|exact Hv]; left].
        intros (u & Hu & _)%bind_ok. eapply Hbad; [|exact Hu]. destruct p as [|y p]; [done|]. unfold slice_to_neg. cbn [length Nat.sub take]. left. }
      apply (IH bs Hh) in Hbs as (path & Hpath & Hbs). exists (v :: path).
      assert (parse_index false p false = Ok ([v], false)) as -> by (apply parse_index_single; by exists v). rewrite bind_Ok. cbv iota beta.
      apply bind_ok in Hpath as (q & Hq & Hpath). rewrite Hq, !bind_Ok. cbn [mapR]. change (nth_py [v] 0) with (Ok v). rewrite bind_Ok, Hpath, bind_Ok.
      split; [done|]. cbn [mapR]. by rewrite Hb, bind_Ok, Hbs, bind_Ok.
    + intros (path & (q & Hq & Hpath)%bind_ok & Hws). apply bind_ok in Hq as ([idx s] & Hi & (r & Hr & [= <-])%bind_ok).
      apply parse_index_single in Hi as (v & _ & Hv & [= -> ->]). cbn [mapR] in Hpath. change (nth_py [v] 0) with (Ok v) in Hpath. rewrite bind_Ok in Hpath.
      apply bind_ok in Hpath as (vs & Hvs & [= <-]). cbn [mapR] in Hws. apply bind_ok in Hws as (b & Hb & (bs & Hbs & [= <-])%bind_ok).
      assert (path_element p = Ok b) as -> by (apply path_element_ok; [done|done|by exists v]). rewrite bind_Ok.
      assert (mapR path_element ps = Ok bs) as ->; [|done]. apply IH; [done|]. exists vs. by rewrite Hr, bind_Ok.
Qed.

(** * Properties *)

Section properties.
Context `{Hashes}.

(** A request to sign commits the device to what is signed: two requests with the same data have the same
    global map, input maps, output maps, wallet policy and HMAC, where the strings hashed for them do not
    collide. *)
Theorem sign_request_binding (g g' : pydict bytes bytes) (ins ins' outs outs' : list (pydict bytes bytes)) (w w' : WalletPolicy)
    (h h' : option bytes) (a : apdu)
    (Hc : collision_free (request_inputs g ins outs w ++ request_inputs g' ins' outs' w'))
    (Ha : build_sign_psbt g ins outs w h = Ok a) (Ha' : build_sign_psbt g' ins' outs' w' h' = Ok a) :
  same_map g g' ∧ Forall2 same_map ins ins' ∧ Forall2 same_map outs outs' ∧ w = w' ∧ hmac_or_zeros h = hmac_or_zeros h'.
Proof.
  apply sign_request_parts in Ha as (cg & ni & ri & no & ro & b & Hg & Hni & Hri & Hno & Hro & Hb & ->).
  apply sign_request_parts in Ha' as (cg' & ni' & ri' & no' & ro' & b' & Hg' & Hni' & Hri' & Hno' & Hro' & Hb' & E). injection E as E.
  unfold request_inputs in Hc. rewrite Hb, Hb' in Hc.
  destruct (commitment_prefix _ Hc g g' _ _ _ _ ltac:(set_solver) ltac:(set_solver) Hg Hg' E) as [? E1].
  destruct (maps_root_prefix _ Hc ins ins' _ _ _ _ _ _ ltac:(set_solver) ltac:(set_solver) Hni Hni' Hri Hri' E1) as [? E2].
  destruct (maps_root_prefix _ Hc outs outs' _ _ _ _ _ _ ltac:(set_solver) ltac:(set_solver) Hno Hno' Hro Hro' E2) as [? E3].
  apply app_inj_1 in E3 as [Eid ?]; [|by rewrite !sha256_length].
  apply Hc in Eid as <-; [|set_solver..]. split_and!; try done.
  apply (serialize_binding _ Hc w w' b); [set_solver..|done|done].
Qed.

(** The client reads a path as the rest of the program does: where there is no minus sign and no [h] it
    accepts the paths that [parse_path] accepts with all indices below 2^32, and gives the same indices,
    four bytes each. *)
Theorem ledger_path_agrees (s : pystr) (Hs : s ≠ []) (Hm : chr 45 ∉ s) (Hh : chr 104 ∉ s) (ws : list bytes) :
  bip32_path_from_string s = Ok ws ↔ ∃ path, parse_path s = Ok path ∧ mapR (to_bytes_be 4) path = Ok ws.
Proof.
  unfold bip32_path_from_string, parse_path, _parse_path. destruct s as [|c s]; [done|]. set (ps := split_char (chr 47) (c :: s)).
  assert (∀ q, Forall (λ p, q ∉ p) ps → Forall (λ p, q ∉ p) (if bool_decide (head ps = Some $"m") then drop 1 ps else ps)) as Hd
    by (intros q Hq; case_bool_decide; [by apply Forall_drop|done]).
  assert (bool_decide ($"m" ∈ ps) && bool_decide (head ps = Some $"m") = bool_decide (head ps = Some $"m")) as ->.
  { destruct (bool_decide_reflect (head ps = Some $"m")) as [E|E]; [|by rewrite andb_false_r]. rewrite andb_true_r. apply bool_decide_eq_true.
    destruct ps; [done|]. injection E as ->. left. }
  cbv zeta. apply path_elements_ok; apply Hd; by apply split_char_chars.
Qed.
End properties.

(** ** Chunks *)

Lemma whole_chunks_ok n k data : concat (map snd (whole_chunks n k data).1) ++ (whole_chunks n k data).2 = data ∧
  (whole_chunks n k data).2 = drop (n * k) data ∧ Forall (λ c, c.1 = false) (whole_chunks n k data).1.
Proof.
  revert data. induction n as [|n IH]; intros data; cbn [whole_chunks]; [done|]. destruct (IH (drop k data)) as (H1 & H2 & H3).
  destruct (whole_chunks n k (drop k data)) as [cs rest]. cbn [fst snd map concat] in *.
  rewrite <- app_assoc, H1, H2, drop_drop. split; [apply take_drop|]. split; [done|]. by constructor.
Qed.

(** The chunks are the data, but when they are whole and more than one, none of
    them is said to be the last. *)
Lemma chunkify_ok data k : k ≠ 0%nat →
  concat (map snd (chunkify data k)) = data ∧
  (existsb fst (chunkify data k) = false ↔ (k < length data ∧ length data mod k = 0)%nat).
Proof.
  intros Hk. unfold chunkify. destruct (Nat.leb_spec (length data) k) as [L|L].
  - cbn. rewrite app_nil_r. split; [done|]. split; [done|lia].
  - destruct (whole_chunks_ok (length data / k) k data) as (H1 & H2 & H3).
    destruct (whole_chunks (length data / k) k data) as [cs rest]. cbn [fst snd] in *.
    assert (existsb fst cs = false) as Hcs by (clear -H3; induction H3 as [|c cs Hc H3 IH]; [done|]; cbn; by rewrite Hc, IH).
    rewrite map_app, concat_app, existsb_app, Hcs.
    destruct (Nat.eqb_spec (length data mod k) 0) as [E|E]; cbn [map concat existsb fst snd orb]; rewrite ?app_nil_r.
    + split; [|done]. transitivity (concat (map snd cs) ++ rest); [|exact H1]. rewrite H2, drop_ge; [by rewrite app_nil_r|].
      pose proof (Nat.div_mod (length data) k Hk). lia.
    + split; [done|]. split; [done|]. by intros [_ ?].
Qed.

Lemma chunkify_no_last : chunkify (replicate 4 (chr 0)) 2 = [(false, [chr 0; chr 0]); (false, [chr 0; chr 0])].
Proof. reflexivity. Qed.

Lemma ledger_path_agrees_witness : bip32_path_from_string $"m/84'/1'/7" = Ok (map (be_bytes 4) [0x80000054; 0x80000001; 7]).
Proof.
  assert (∀ c, bool_decide (c ∈ $"m/84'/1'/7") = false → c ∉ $"m/84'/1'/7") as Hc by (intros c; apply bool_decide_eq_false).
  apply (ledger_path_agrees $"m/84'/1'/7"); [discriminate|apply Hc; vm_compute; reflexivity|apply Hc; vm_compute; reflexivity|].
  exists [0x80000054; 0x80000001; 7]. split; vm_compute; reflexivity.
Defined.

Definition example_map : pydict bytes bytes := [([chr 2], [chr 9]); ([chr 1], [chr 8])].

Lemma sign_request_binding_witness : ∃ a,
  build_sign_psbt (H := executable_hashes) example_map [example_map] [] example_policy None = Ok a ∧
  ∀ g ins outs w h,
    collision_free (H := executable_hashes) (request_inputs example_map [example_map] [] example_policy ++ request_inputs g ins outs w) →
    build_sign_psbt (H := executable_hashes) g ins outs w h = Ok a →
    same_map example_map g ∧ Forall2 same_map [example_map] ins ∧ Forall2 same_map [] outs ∧ example_policy = w ∧
     hmac_or_zeros None = hmac_or_zeros h.
Proof.
  destruct (build_sign_psbt (H := executable_hashes) example_map [example_map] [] example_policy None) as [a|e] eqn:E; [|vm_compute in E; discriminate].
  exists a. split; [reflexivity|]. intros g ins outs w h Hc Ha. exact (sign_request_binding (H := executable_hashes) _ _ _ _ _ _ _ _ _ _ _ Hc E Ha).
Defined.
