(* ===== verification/LedgerHid.v ===== *)
(** * [hwilib/devices/ledger_bitcoin/ledgercomm]: APDUs over HID reports

    An APDU is a header and at most 255 bytes of data.  Over HID it is cut into
    reports of at most 64 bytes, each with a channel, a tag and a sequence number.
    The calls of the [hid] package are writes and reads of reports: what is
    written is an output, what the reads return is an input, in which a read that
    timed out is the empty report. *)

From S2P Require Import Prelude Bytes PyStd Common Sha256 Serialize Merkle LedgerWallet LedgerCommands.

(** ** [transport.py] *)

Definition apdu_header (cla ins p1 p2 : Z) (opt : option Z) (lc : Z) : result bytes :=
  match opt with
  | Some opt =>
      if negb (opt =? 0) then
        bs ← mapR (pack_u 1) [cla; ins; p1; p2; 1 + lc; opt]; Ok (concat bs)
      else bs ← mapR (pack_u 1) [cla; ins; p1; p2; lc]; Ok (concat bs)
  | None => bs ← mapR (pack_u 1) [cla; ins; p1; p2; lc]; Ok (concat bs)
  end.

(** What [Transport.exchange] gives to the interface. *)
Definition apdu_bytes (a : apdu) : result bytes :=
  header ← apdu_header (cla a) (ins a) (p1 a) (p2 a) None (len (data a));
  Ok (header ++ data a).

(** ** [interfaces/hid_device.py] *)

(** [l[lo:hi]], where a negative bound counts from the end. *)
Definition slice_py {A} (lo hi : Z) (l : list A) : list A :=
  let at_ x := Z.to_nat (if x <? 0 then Z.max 0 (x + len l) else x) in
  slice (at_ lo) (at_ hi) l.

Definition hid_header (seq_idx : Z) : result bytes :=
  s ← to_bytes_be 2 seq_idx; Ok ([chr 1; chr 1; chr 5] ++ s).

(** [while offset < len(data)]: the reports that are written and their total length. *)
Fixpoint send_loop (fuel : nat) (data : bytes) (offset seq_idx length_ : Z) : result (list bytes * Z) :=
  if offset <? len data then
    match fuel with
    | O => Err OutOfFuel
    | S fuel =>
        header ← hid_header seq_idx;
        let data_chunk := header ++ slice_py offset (offset + 64 - len header) data in
        '(reports, n) ← send_loop fuel data (offset + (64 - len header)) (seq_idx + 1) (length_ + (len data_chunk + 1));
        Ok ((chr 0 :: data_chunk) :: reports, n)
    end
  else Ok ([], length_).

Definition hid_send (data : bytes) : result (list bytes * Z) :=
  match data with
  | [] => Err PlainException
  | _ =>
      l ← to_bytes_be 2 (len data);
      let data := l ++ data in
      send_loop (length data) data 0 0 0
  end.

(** [while len(data) < data_len]: the reads of the loop are given; it goes on as
    long as they do not bring enough. *)
Fixpoint recv_loop (reads : list bytes) (data : bytes) (data_len : Z) : result (bytes * list bytes) :=
  if len data <? data_len then
    match reads with
    | [] => Err OutOfFuel
    | read_bytes :: reads => recv_loop reads (data ++ drop 5 read_bytes) data_len
    end
  else Ok (data, reads).

Definition hid_recv (reads : list bytes) : result (Z * bytes * list bytes) :=
  match reads with
  | [] => Err OutOfFuel
  | data_chunk :: reads =>
      raise_if (negb (bool_decide (take 2 data_chunk = [chr 1; chr 1]))) AssertionError;;
      tag ← nth_py data_chunk 2;
      raise_if (negb (ord tag =? 5)) AssertionError;;
      s ← to_bytes_be 2 0;
      raise_if (negb (bool_decide (slice 3 5 data_chunk = s))) AssertionError;;
      let data_len := be_int (slice 5 7 data_chunk) in
      '(data, reads) ← recv_loop reads (drop 7 data_chunk) data_len;
      let sw := be_int (slice_py (data_len - 2) data_len data) in
      let rdata := slice_py 0 (data_len - 2) data in
      Ok (sw, rdata, reads)
  end.

(** [exchange]: the reports that are written, and what the reads bring. *)
Definition hid_exchange (data : bytes) (reads : list bytes) : result (list bytes * (Z * bytes) * list bytes) :=
  '(reports, _) ← hid_send data;
  '(sw, rdata, reads) ← hid_recv reads;
  Ok (reports, (sw, rdata), reads).

(** * Specification: the device's side *)

(** A message cut into pieces of 59 bytes. *)
Fixpoint pieces (fuel : nat) (m : bytes) : list bytes :=
  match fuel, m with
  | O, _ | _, [] => []
  | S fuel, _ => take 59 m :: pieces fuel (drop 59 m)
  end.

Definition report (seq_idx : Z) (piece : bytes) : bytes := [chr 1; chr 1; chr 5] ++ be_bytes 2 seq_idx ++ piece.

Fixpoint reports_from (i : Z) (ps : list bytes) : list bytes :=
  match ps with [] => [] | p :: ps => report i p :: reports_from (i + 1) ps end.

(** The message with its length, in reports with the numbers from 0. *)
Definition frame (m : bytes) : list bytes :=
  let m := be_bytes 2 (len m) ++ m in reports_from 0 (pieces (length m) m).

(** Reading a message from reports: their numbers are in order, and the length
    says where the padding of the last one begins. *)
Fixpoint unreports (i : Z) (rs : list bytes) : option bytes :=
  match rs with
  | [] => Some []
  | r :: rs =>
      if decide (take 5 r = [chr 1; chr 1; chr 5] ++ be_bytes 2 i) then
        m ← unreports (i + 1) rs; Some (drop 5 r ++ m)
      else None
  end.

Definition unframe (rs : list bytes) : option bytes :=
  m ← unreports 0 rs;
  let n := be_int (take 2 m) in
  if n <=? len (drop 2 m) then Some (take (Z.to_nat n) (drop 2 m)) else None.

(** How reports arrive: the last one may be padded, and reads may time out. *)
Inductive arrives : list bytes → list bytes → Prop :=
  | arrives_nil : arrives [] []
  | arrives_report r rs rs' : arrives rs rs' → arrives (r :: rs) (r :: rs')
  | arrives_last r z : arrives [r] [r ++ z]
  | arrives_timeout rs rs' : arrives rs rs' → arrives rs ([] :: rs').

(** * Lemmas *)

(** ** Pieces and reports *)

Lemma slice_py_pos {A} a b (l : list A) : 0 <= a → 0 <= b → slice_py a b l = slice (Z.to_nat a) (Z.to_nat b) l.
Proof. intros Ha Hb. unfold slice_py. by rewrite !(proj2 (Z.ltb_ge _ 0)) by lia. Qed.

Lemma pieces_ok fuel m : (length m <= fuel)%nat →
  concat (pieces fuel m) = m ∧ Forall (λ p, p ≠ [] ∧ (length p <= 59)%nat) (pieces fuel m) ∧ (length (pieces fuel m) <= length m)%nat.
Proof.
  revert m. induction fuel as [|fuel IH]; intros m Hm; [by destruct m; [|simpl in Hm; lia]|].
  destruct m as [|c m]; [done|]. cbn [pieces]. destruct (IH (drop 59 (c :: m))) as (H1 & H2 & H3).
  { rewrite length_drop. simpl in *. lia. }
  cbn [concat length]. rewrite H1, take_drop. split; [done|]. split.
  - constructor; [|done]. split; [done|]. rewrite length_take. lia.
  - rewrite length_drop in H3. simpl in *. lia.
Qed.

Lemma length_report i p : length (report i p) = (5 + length p)%nat.
Proof. unfold report. rewrite !length_app, length_be_bytes. simpl. lia. Qed.

Lemma drop_report i p z : drop 5 (report i p ++ z) = p ++ z.
Proof. unfold report. rewrite <- !app_assoc, app_assoc. apply drop_app_length'. by rewrite length_app, length_be_bytes. Qed.

Lemma drop_report_exact i p : drop 5 (report i p) = p.
Proof. pose proof (drop_report i p []) as Hd. rewrite app_nil_r in Hd. by rewrite (app_nil_r p) in Hd. Qed.

Lemma take_report i p z : take 5 (report i p ++ z) = [chr 1; chr 1; chr 5] ++ be_bytes 2 i.
Proof. unfold report. rewrite <- !app_assoc, app_assoc. apply take_app_length'. by rewrite length_app, length_be_bytes. Qed.

(** ** Sending *)

Lemma send_loop_ok fuel m off i n : (length m <= off + fuel)%nat → 0 <= i → len m - Z.of_nat off <= 59 * (65536 - i) →
  ∃ n', send_loop fuel m (Z.of_nat off) i n = Ok (map (cons (chr 0)) (reports_from i (pieces fuel (drop off m))), n').
Proof.
  revert off i n. induction fuel as [|fuel IH]; intros off i n Hf H0 H1; cbn [send_loop].
  - rewrite (proj2 (Z.ltb_ge _ _)) by (unfold len; lia). by eexists.
  - destruct (Z.ltb_spec (Z.of_nat off) (len m)) as [L|L].
    + unfold hid_header. rewrite (to_bytes_be_fits 2) by (unfold fits; change (256 ^ Z.of_nat 2) with 65536; lia). rewrite !bind_Ok. cbv zeta.
      assert (len ([chr 1; chr 1; chr 5] ++ be_bytes 2 i) = 5) as -> by (unfold len; rewrite length_app, length_be_bytes; done).
      replace (Z.of_nat off + (64 - 5)) with (Z.of_nat (off + 59)) by lia.
      match goal with |- context [send_loop fuel m ?o ?j ?k] => destruct (IH (off + 59)%nat (i + 1) k) as [n' ->]; [lia..|] end.
      rewrite bind_Ok. eexists. do 2 f_equal. rewrite slice_py_pos by lia. unfold slice.
      replace (Z.to_nat (Z.of_nat off + 64 - 5) - Z.to_nat (Z.of_nat off))%nat with 59%nat by lia. rewrite Nat2Z.id.
      destruct (drop off m) as [|c r] eqn:E; [apply (f_equal length) in E; rewrite length_drop in E; unfold len in L; simpl in E; lia|].
      cbn [pieces reports_from map]. rewrite <- E, drop_drop. unfold report. by rewrite <- app_assoc.
    + rewrite drop_ge by (unfold len in L; lia). by eexists.
Qed.

Lemma hid_send_ok m : 0 < len m < 65536 → ∃ n, hid_send m = Ok (map (cons (chr 0)) (frame m), n).
Proof.
  intros Hm. unfold hid_send, frame. destruct m as [|c m]; [unfold len in Hm; simpl in Hm; lia|]. set (x := c :: m) in *.
  rewrite (to_bytes_be_fits 2) by (unfold fits; change (256 ^ Z.of_nat 2) with 65536; lia). rewrite bind_Ok. cbv zeta.
  destruct (send_loop_ok (length (be_bytes 2 (len x) ++ x)) (be_bytes 2 (len x) ++ x) 0 0 0) as [n E]; [lia..| |].
  - rewrite len_app. unfold len at 1. rewrite length_be_bytes. lia.
  - change (Z.of_nat 0) with 0 in E. rewrite E. by eexists.
Qed.

(** ** The device reads what was sent *)

Lemma unreports_ok i ps : 0 <= i → unreports i (reports_from i ps) = Some (concat ps).
Proof.
  revert i. induction ps as [|p ps IH]; intros i Hi; [done|]. cbn [reports_from unreports concat].
  pose proof (take_report i p []) as Ht. rewrite app_nil_r in Ht.
  rewrite decide_True by exact Ht. rewrite IH by lia. change (Some (drop 5 (report i p) ++ concat ps) = Some (p ++ concat ps)). by rewrite drop_report_exact.
Qed.

Lemma unframe_frame m : len m < 65536 → unframe (frame m) = Some m.
Proof.
  intros Hm. unfold unframe, frame. set (x := be_bytes 2 (len m) ++ m). destruct (pieces_ok (length x) x ltac:(done)) as (E & _ & _).
  rewrite unreports_ok by done. rewrite E. cbn [mbind option_bind]. unfold x.
  rewrite take_app_length', drop_app_length' by by rewrite length_be_bytes.
  rewrite be_int_be_bytes by (pose proof (len_nonneg m); change (256 ^ Z.of_nat 2) with 65536; lia). rewrite Z.leb_refl. unfold len. by rewrite Nat2Z.id, firstn_all.
Qed.

(** ** Receiving *)

Lemma recv_loop_ok i ps rs data n : arrives (reports_from i ps) rs → Forall (λ p, p ≠ []) ps → n = len (data ++ concat ps) →
  ∃ z rest, recv_loop rs data n = Ok (data ++ concat ps ++ z, rest).
Proof.
  intros Ha. remember (reports_from i ps) as fs eqn:Ef. revert i ps data Ef. induction Ha as [|r fs rs Ha IH|r z|fs rs Ha IH]; intros i ps data Ef Hp ->.
  - destruct ps; [|done]. cbn [recv_loop concat]. rewrite app_nil_r, Z.ltb_irrefl. exists [], []. by rewrite app_nil_r.
  - destruct ps as [|p ps]; [done|]. injection Ef as -> ->. apply Forall_cons in Hp as [Hp1 Hp]. cbn [recv_loop concat] in *.
    rewrite (proj2 (Z.ltb_lt _ _)) by (rewrite !len_app; destruct p; [done|]; rewrite len_cons; pose proof (len_nonneg p); pose proof (len_nonneg (concat ps)); lia).
    rewrite drop_report_exact.
    destruct (IH (i + 1) ps (data ++ p) eq_refl Hp ltac:(by rewrite <- app_assoc)) as (z & rest & E). rewrite E. exists z, rest. by rewrite <- !app_assoc.
  - destruct ps as [|p [|? ?]]; [done| |done]. injection Ef as ->. apply Forall_cons in Hp as [Hp1 _]. cbn [recv_loop concat]. rewrite app_nil_r.
    rewrite (proj2 (Z.ltb_lt _ _)) by (rewrite !len_app; destruct p; [done|]; rewrite len_cons; pose proof (len_nonneg p); lia).
    rewrite drop_report, (proj2 (Z.ltb_ge _ _)) by (rewrite !len_app; pose proof (len_nonneg z); lia). by exists z, [].
  - cbn [recv_loop]. destruct (Z.ltb_spec (len data) (len (data ++ concat ps))) as [L|L].
    + cbn [drop]. rewrite app_nil_r. by apply (IH i).
    + destruct ps as [|p ps]; [|apply Forall_cons in Hp as [Hp1 _]; cbn [concat] in L; rewrite !len_app in L; destruct p; [done|];
        rewrite len_cons in L; pose proof (len_nonneg p); pose proof (len_nonneg (concat ps)); lia].
      cbn [concat]. exists [], ([] :: rs). by rewrite app_nil_r.
Qed.

Lemma arrives_cons i p ps rs : arrives (reports_from i (p :: ps)) rs → head rs ≠ Some [] →
  ∃ z rs', rs = (report i p ++ z) :: rs' ∧ (ps = [] ∨ z = []) ∧ arrives (reports_from (i + 1) ps) rs'.
Proof.
  intros Ha Hh. cbn [reports_from] in Ha. inversion Ha as [|r fs rs' Ha'|r z E|fs rs' Ha']; subst; [..|done].
  - exists [], rs'. rewrite app_nil_r. auto.
  - destruct ps; [|done]. exists z, []. split_and!; [done|by left|constructor].
Qed.

Lemma recv_first l t rs : length l = 2%nat → hid_recv (([chr 1; chr 1; chr 5] ++ be_bytes 2 0 ++ l ++ t) :: rs) =
  ('(data, reads) ← recv_loop rs t (be_int l);
   Ok (be_int (slice_py (be_int l - 2) (be_int l) data), slice_py 0 (be_int l - 2) data, reads)).
Proof. destruct l as [|a [|b [|? ?]]]; try done. Qed.

Lemma recv_enough rs data n : n <= len data → recv_loop rs data n = Ok (data, rs).
Proof. intros Hn. destruct rs; cbn [recv_loop]; by rewrite (proj2 (Z.ltb_ge _ _)). Qed.

Lemma slice_py_answer (rdata s z : bytes) : length s = 2%nat →
  slice_py (len rdata + 2 - 2) (len rdata + 2) ((rdata ++ s) ++ z) = s ∧ slice_py 0 (len rdata + 2 - 2) ((rdata ++ s) ++ z) = rdata.
Proof.
  intros Hs. pose proof (len_nonneg rdata). rewrite !slice_py_pos, Z.add_simpl_r by lia. unfold slice, len. rewrite <- app_assoc. split.
  - replace (Z.to_nat (Z.of_nat (length rdata) + 2) - Z.to_nat (Z.of_nat (length rdata)))%nat with (length s) by lia.
    by rewrite Nat2Z.id, drop_app_length, take_app_length.
  - rewrite Nat2Z.id. change (Z.to_nat 0) with 0%nat. rewrite Nat.sub_0_r, drop_0. apply take_app_length.
Qed.

(** A status word of 16 bits and a message that the length can count. *)
Definition answer_ok (sw : Z) (rdata : bytes) : Prop := 0 <= sw < 65536 ∧ len rdata + 2 < 65536.

Lemma hid_recv_ok sw rdata rs : answer_ok sw rdata → arrives (frame (rdata ++ be_bytes 2 sw)) rs → head rs ≠ Some [] →
  ∃ rest, hid_recv rs = Ok (sw, rdata, rest).
Proof.
  intros [Hsw Hlen] Ha Hh. set (m := rdata ++ be_bytes 2 sw) in *.
  assert (len m = len rdata + 2) as Hm by (unfold m; rewrite len_app; unfold len at 2; rewrite length_be_bytes; lia).
  unfold frame in Ha. set (x := be_bytes 2 (len m) ++ m) in *. destruct (pieces_ok (length x) x ltac:(done)) as (Ex & Hp & _).
  destruct (pieces (length x) x) as [|p ps] eqn:Eps.
  { exfalso. apply (f_equal length) in Ex. unfold x in Ex. rewrite length_app, length_be_bytes in Ex. cbn [concat length] in Ex. lia. }
  apply arrives_cons in Ha as (z & rs' & -> & Hz & Ha); [|done].
  assert (∃ q, p = be_bytes 2 (len m) ++ q ∧ q ++ concat ps = m) as (q & -> & Hq).
  { assert (p = take 59 x) as -> by (destruct (length x) eqn:El; [done|]; cbn [pieces] in Eps; destruct x; [done|]; by injection Eps as <- _).
    exists (take 57 m). unfold x. rewrite take_app_ge by (rewrite length_be_bytes; lia). rewrite length_be_bytes. split; [done|].
    cbn [concat] in Ex. unfold x in Ex. rewrite take_app_ge in Ex by (rewrite length_be_bytes; lia). rewrite length_be_bytes, <- app_assoc in Ex.
    by apply app_inv_head in Ex. }
  apply Forall_cons in Hp as [_ Hp]. assert (Forall (λ p : bytes, p ≠ []) ps) as Hne by (eapply Forall_impl; [exact Hp|]; by intros ? [? _]).
  unfold report. rewrite <- !app_assoc, recv_first by apply length_be_bytes.
  rewrite be_int_be_bytes by (pose proof (len_nonneg rdata); rewrite Hm; change (256 ^ Z.of_nat 2) with 65536; lia).
  assert (∃ z' rest, recv_loop rs' (q ++ z) (len m) = Ok (m ++ z', rest)) as (z' & rest & ->).
  { destruct Hz as [-> | ->].
    - cbn [concat] in Hq. rewrite app_nil_r in Hq. subst q. exists z, rs'. apply recv_enough. rewrite len_app. pose proof (len_nonneg z). lia.
    - rewrite app_nil_r. destruct (recv_loop_ok _ _ _ q (len m) Ha Hne) as (z' & rest & E); [by rewrite Hq|].
      exists z', rest. by rewrite E, app_assoc, Hq. }
  rewrite bind_Ok, Hm. destruct (slice_py_answer rdata (be_bytes 2 sw) z' (length_be_bytes _ _)) as [E1 E2].
  exists rest. unfold m. rewrite E1, E2. rewrite be_int_be_bytes; [done|]. change (256 ^ Z.of_nat 2) with 65536. lia.
Qed.

Lemma report_bound m : Forall (λ r, (length r <= 64)%nat) (frame m).
Proof.
  unfold frame. set (x := be_bytes 2 (len m) ++ m). destruct (pieces_ok (length x) x ltac:(done)) as (_ & Hp & _).
  generalize 0. induction Hp as [|p ps [_ Hp] _ IH]; intros i; cbn [reports_from]; constructor; [rewrite length_report; lia|apply IH].
Qed.

(** ** APDUs *)

Lemma mapR_pack1 l : Forall (λ z, 0 <= z < 256) l → mapR (pack_u 1) l = Ok (map (λ z, [chr z]) l).
Proof.
  induction 1 as [|z l Hz Hl IH]; [done|]. cbn [mapR map]. assert (pack_u 1 z = Ok [chr z]) as -> by (by apply pack_u_ok).
  by rewrite bind_Ok, IH.
Qed.

(** A command whose fields are bytes and whose data are at most 255 of them. *)
Lemma apdu_bytes_ok a : Forall (λ z, 0 <= z < 256) [cla a; ins a; p1 a; p2 a] → len (data a) <= 255 →
  apdu_bytes a = Ok ([chr (cla a); chr (ins a); chr (p1 a); chr (p2 a); chr (len (data a))] ++ data a).
Proof.
  intros Hf Hl. unfold apdu_bytes, apdu_header. rewrite mapR_pack1; [done|].
  change [cla a; ins a; p1 a; p2 a; len (data a)] with ([cla a; ins a; p1 a; p2 a] ++ [len (data a)]).
  apply Forall_app. split; [done|]. constructor; [|constructor]. pose proof (len_nonneg (data a)). lia.
Qed.

Section bounds.
Context `{Hashes}.

Lemma compact_size_short n b : ser_compact_size n = Ok b → len b <= 9.
Proof. intros Hb. apply ser_compact_size_length in Hb as ->. repeat case_match; lia. Qed.

Lemma len_root (l : list bytes) : len (merkle_root (map element_hash l)) = 32.
Proof. unfold len. by rewrite root_of_hashes_length by apply element_hash_is_hash. Qed.

(** A request to sign fits an APDU whatever the size of the PSBT, also with an HMAC of 32 bytes. *)
Theorem sign_request_fits (g : pydict bytes bytes) (ins outs : list (pydict bytes bytes)) (w : WalletPolicy) (h : option bytes) (a : apdu)
    (Ha : build_sign_psbt g ins outs w h = Ok a) (Hh : ∀ b, h = Some b → len b = 32) :
  len (data a) <= 219 ∧ apdu_bytes a = Ok ([chr 0xE1; chr 4; chr 0; chr 1; chr (len (data a))] ++ data a).
Proof.
  apply sign_request_parts in Ha as (cg & ni & ri & no & ro & b & Hg & Hni & Hri & Hno & Hro & _ & ->).
  apply commitment_parts in Hg as (n & Hn & ->). apply maps_root_parts in Hri as (ci & _ & ->). apply maps_root_parts in Hro as (co & _ & ->).
  apply compact_size_short in Hn, Hni, Hno.
  assert (len (hmac_or_zeros h) = 32) as Hz by (destruct h as [x|]; [by apply Hh|done]).
  assert (len (sha256 b) = 32) as Hsha by (unfold len; by rewrite sha256_length).
  match goal with |- len (data ?a) <= _ ∧ _ => assert (len (data a) <= 219) as Hl end.
  { cbn [data serialize_cmd]. rewrite !len_app, !len_root, Hz, Hsha. lia. }
  split; [exact Hl|]. apply apdu_bytes_ok; [|lia]. repeat (constructor; [split; vm_compute; done|]). constructor.
Qed.
End bounds.

(** * Properties *)

(** C20: over HID a message of up to 65535 bytes reaches the device, in reports of at most 65 bytes, and its
    answer reaches the program, however the last report is padded and whatever reads time out; there is
    an exception for an empty message and for a longer one. *)
Theorem hid_exchange_delivers (m : bytes) (answer : bytes → Z * bytes) (reads : list bytes)
    (Ha : answer_ok (answer m).1 (answer m).2) (Hr : arrives (frame ((answer m).2 ++ be_bytes 2 (answer m).1)) reads) (Hh : head reads ≠ Some []) :
  if decide (0 < len m < 65536) then
    ∃ reports rest, hid_exchange m reads = Ok (reports, answer m, rest) ∧
      unframe (map (drop 1) reports) = Some m ∧ Forall (λ r, (length r <= 65)%nat) reports
  else hid_exchange m reads = Err (if decide (m = []) then PlainException else OverflowError).
Proof.
  destruct (decide (0 < len m < 65536)) as [Hm|Hm].
  - destruct (hid_send_ok m Hm) as [n Es]. destruct (answer m) as [sw rdata]. cbn [fst snd] in *.
    destruct (hid_recv_ok sw rdata reads Ha Hr Hh) as [rest Er]. exists (map (cons (chr 0)) (frame m)), rest.
    unfold hid_exchange. rewrite Es, bind_Ok, Er, bind_Ok. split; [done|]. split.
    + rewrite map_map. cbn [drop]. rewrite map_id. apply unframe_frame. lia.
    + apply Forall_map. eapply Forall_impl; [apply report_bound|]. intros r Hl. unfold compose. cbn [length]. cbv beta in Hl. lia.
  - unfold hid_exchange, hid_send. destruct m as [|c m]; [done|]. rewrite decide_False by done.
    unfold to_bytes_be. change (256 ^ Z.of_nat 2) with 65536. pose proof (len_nonneg m).
    rewrite len_cons in Hm |- *. rewrite (proj2 (Z.ltb_ge (1 + len m) _)) by lia. by rewrite andb_false_r.
Qed.

(** Of the later reports only what follows the header is looked at: here the
    second report of an answer is one of another channel, with another number. *)
Lemma recv_ignores_headers :
  ∃ rest, hid_recv [report 0 (be_bytes 2 60 ++ replicate 57 (chr 7)); [chr 9; chr 9; chr 9; chr 9; chr 9] ++ [chr 8; chr 0x90; chr 0]] =
    Ok (0x9000, replicate 57 (chr 7) ++ [chr 8], rest).
Proof. eexists. vm_compute. reflexivity. Qed.

Definition example_frame : list bytes := frame (replicate 100 (chr 3) ++ be_bytes 2 0x9000).
Definition example_reads : list bytes := take 1 example_frame ++ [[]] ++ drop 1 example_frame.

Lemma hid_exchange_delivers_witness : ∃ reports rest,
  hid_exchange [chr 0xE1; chr 5] example_reads = Ok (reports, (0x9000, replicate 100 (chr 3)), rest).
Proof.
  assert (arrives example_frame example_reads) as Ha.
  { assert (∃ r1 r2, example_frame = [r1; r2] ∧ example_reads = [r1; []; r2]) as (r1 & r2 & -> & ->)
      by (eexists _, _; split; vm_compute; reflexivity).
    apply arrives_report, arrives_timeout, arrives_report, arrives_nil. }
  pose proof (hid_exchange_delivers [chr 0xE1; chr 5] (λ _, (0x9000, replicate 100 (chr 3))) example_reads) as Hd.
  rewrite decide_True in Hd by (vm_compute; split; reflexivity).
  destruct Hd as (reports & rest & E & _); [split; vm_compute; try split; try reflexivity; discriminate|exact Ha|discriminate|].
  exists reports, rest. exact E.
Defined.

Lemma sign_request_fits_witness : ∃ a,
  build_sign_psbt (H := executable_hashes) example_map [example_map] [] example_policy None = Ok a ∧ len (data a) <= 219.
Proof.
  destruct (build_sign_psbt (H := executable_hashes) example_map [example_map] [] example_policy None) as [a|e] eqn:E; [|vm_compute in E; discriminate].
  exists a. split; [reflexivity|]. apply (sign_request_fits (H := executable_hashes) _ _ _ _ _ _ E). intros b Hb. discriminate Hb.
Defined.
