(* ===== verification/LedgerClient.v ===== *)
(** * [hwilib/devices/ledger_bitcoin/client.py]: the client of the Bitcoin application

    A request is sent as an APDU; as long as the device interrupts its execution
    with a request of its own, the client has the interpreter of client commands
    answer it.  The device is a parameter: what it does with the bytes of an
    APDU. *)

From S2P Require Import Prelude Bytes Safe StateM PyStd PyStr Common Sha256 Serialize KeyPath PsbtMap Psbt Merkle ClientCommand LedgerWallet.
From S2P Require Import LedgerCommands LedgerHid.

(** ** Reading what the device yields *)

Record PartialSignature := { ps_pubkey : bytes; ps_signature : bytes; tapleaf_hash : option bytes }.

Definition _make_partial_signature (pubkey_augm signature : bytes) : result PartialSignature :=
  if len pubkey_augm =? 64 then
    Ok {| ps_pubkey := slice 0 32 pubkey_augm; ps_signature := signature; tapleaf_hash := Some (drop 32 pubkey_augm) |}
  else if negb ((len pubkey_augm =? 32) || (len pubkey_augm =? 33)) then Err UnknownDeviceError
  else Ok {| ps_pubkey := pubkey_augm; ps_signature := signature; tapleaf_hash := None |}.

(** [read_uint] and [read_varint] of this module, which are not those of
    [ByteStreamParser]; [prefix] is never given. *)
Definition client_read_uint (bit_len : Z) : reader Z :=
  let size := bit_len / 8 in
  b ← read size;
  if len b <? size then lift (Err ValueError) else mret (le_int b).

Definition varint_size (b : bytes) : Z :=
  if bool_decide (b = [chr 0xfd]) then 2 else if bool_decide (b = [chr 0xfe]) then 4
  else if bool_decide (b = [chr 0xff]) then 8 else 1.

Definition client_read_varint : reader Z :=
  b ← read 1;
  if bool_decide (b = []) then lift (Err ValueError)
  else
    let n := varint_size b in
    b ← (if 1 <? n then read n else mret b);
    if negb (len b =? n) then lift (Err ValueError) else mret (le_int b).

Definition read_yielded : reader (Z * PartialSignature) :=
  input_index ← client_read_varint;
  pubkey_augm_len ← client_read_uint 8;
  pubkey_augm ← read pubkey_augm_len;
  signature ← read_all;
  s ← lift (_make_partial_signature pubkey_augm signature);
  mret (input_index, s).
Definition _decode_signpsbt_yielded_value (res : bytes) : result (Z * PartialSignature) := (read_yielded res).1.

(** ** [parse_stream_to_map] *)

(** One round of the loop: any exception while reading a key ends it. *)
Definition stream_map_body (result : pydict bytes bytes) : reader (pydict bytes bytes + pydict bytes bytes) := λ f,
  match deser_string f with
  | (Err _, f) => (Ok (inr result), f)
  | (Ok [], f) => (Ok (inr result), f)
  | (Ok key, f) => (value ← deser_string; mret (inl (dict_set key value result))) f
  end.

Definition parse_stream_to_map : reader (pydict bytes bytes) := λ f, loop (S (length f)) stream_map_body [] f.

(** ** [client_base.py]: exchanges *)

Section client.
Context {D : Type} (exchange : bytes → state D (Z * bytes)).
Context `{Hashes} `{SetOrder}.

(** [TransportClient.apdu_exchange] raises [ApduException] ([inr] here), which
    [Client._apdu_exchange] catches. *)
Definition apdu_exchange (a : apdu) : state D (bytes + (Z * bytes)) :=
  b ← liftS (apdu_bytes a);
  '(sw, data) ← exchange b;
  if negb (sw =? 0x9000) then mret (inr (sw, data)) else mret (inl data).

Definition _apdu_exchange (a : apdu) : state D (Z * bytes) :=
  r ← apdu_exchange a;
  match r with inl data => mret (0x9000, data) | inr (sw, data) => mret (sw, data) end.

(** The state of a request: the device, and the interpreter that serves it. *)
Notation M := (state (D * Interpreter)).
Definition on_device {A} (m : state D A) : M A := zoom fst (λ d s, (d, snd s)) m.
Definition on_interp {A} (m : state Interpreter A) : M A := zoom snd (λ i s, (fst s, i)) m.

(** [while sw == 0xE000]. *)
Fixpoint request_loop (fuel : nat) (sw : Z) (response : bytes) : M (Z * bytes) :=
  if sw =? 0xE000 then
    match fuel with
    | O => raise OutOfFuel
    | S fuel =>
        command_response ← on_interp (execute response);
        '(sw, response) ← on_device (_apdu_exchange (continue_interrupted command_response));
        request_loop fuel sw response
    end
  else mret (sw, response).

(** [_make_request] with an interpreter, and without one. *)
Definition _make_request (fuel : nat) (a : apdu) : M (Z * bytes) :=
  '(sw, response) ← on_device (_apdu_exchange a);
  request_loop fuel sw response.

Definition _make_request_simple (a : apdu) : state D (Z * bytes) :=
  '(sw, response) ← _apdu_exchange a;
  if sw =? 0xE000 then raise RuntimeError else mret (sw, response).

Definition check_sw {S} (sw : Z) : state S () := liftS (raise_if (negb (sw =? 0x9000)) (DeviceError sw)).

(** [Client.get_version]: a string that cannot be read is empty. *)
Definition string_or_empty : reader bytes := λ r,
  match deser_string r with (Ok b, r) => (Ok b, r) | (Err _, r) => (Ok [], r) end.

Definition get_version : state D (pystr * pystr * bytes) :=
  '(sw, response) ← _apdu_exchange (mkApdu 0xB0 (default_ins GET_VERSION) 0 0 []);
  check_sw sw;;
  liftS ((format ← read 1;
          app_name ← string_or_empty;
          app_version ← string_or_empty;
          app_flags ← string_or_empty;
          if bool_decide (format ≠ [chr 1]) || bool_decide (app_name = []) || bool_decide (app_version = []) then lift (Err (DeviceError sw))
          else
            app_name ← lift (decode_utf8 app_name);
            app_version ← lift (decode_utf8 app_version);
            mret (app_name, app_version, app_flags)) response).1.

(** ** [client.py]: [NewClient] *)

Definition get_extended_pubkey (path : pystr) (display : bool) : state D pystr :=
  a ← liftS (build_get_extended_pubkey path display);
  '(sw, response) ← _make_request_simple a;
  check_sw sw;;
  liftS (decode_utf8 response).

Definition get_master_fingerprint : state D bytes :=
  '(sw, response) ← _make_request_simple build_get_master_fingerprint;
  check_sw sw;;
  mret response.

(** A request with an interpreter of its own, which [setup] prepares. *)
Definition with_interpreter {A} (m : M A) : state D A := λ d,
  let '(r, (d, _)) := m (d, Interpreter_new) in (r, d).

Definition register_wallet (fuel : nat) (wallet : WalletPolicy) : state D (bytes * bytes) :=
  with_interpreter (
    if negb (bool_decide (wp_version wallet ∈ [WALLET_POLICY_V1; WALLET_POLICY_V2])) then raise ValueError
    else
      b ← liftS (WalletPolicy_serialize wallet);
      on_interp (add_known_preimage b);;
      on_interp (add_known_list (map encode_utf8 (keys_info wallet)));;
      on_interp (add_known_preimage (encode_utf8 (descriptor_template wallet)));;
      a ← liftS (build_register_wallet wallet);
      '(sw, response) ← _make_request fuel a;
      check_sw sw;;
      if negb (len response =? 64) then raise RuntimeError
      else mret (slice 0 32 response, slice 32 64 response)).

Definition get_wallet_address (fuel : nat) (wallet : WalletPolicy) (wallet_hmac : option bytes) (change address_index : Z)
    (display : bool) : state D pystr :=
  with_interpreter (
    if negb (bool_decide (wp_version wallet ∈ [WALLET_POLICY_V1; WALLET_POLICY_V2])) then raise ValueError
    else if negb (change =? 0) && negb (change =? 1) then raise ValueError
    else
      on_interp (add_known_list (map encode_utf8 (keys_info wallet)));;
      b ← liftS (WalletPolicy_serialize wallet);
      on_interp (add_known_preimage b);;
      on_interp (add_known_preimage (encode_utf8 (descriptor_template wallet)));;
      a ← liftS (build_get_wallet_address wallet wallet_hmac address_index (negb (change =? 0)) display);
      '(sw, response) ← _make_request fuel a;
      check_sw sw;;
      liftS (decode_utf8 response)).

Fixpoint add_known_mappings (ms : list (pydict bytes bytes)) : state Interpreter () :=
  match ms with [] => mret () | m :: ms => add_known_mapping m;; add_known_mappings ms end.

(** Reading from the stream [f]: what is read and the rest. *)
Definition read_from {A} (p : reader A) (f : bytes) : result (A * bytes) :=
  match p f with (Ok a, f) => Ok (a, f) | (Err e, _) => Err e end.

(** The stream of a serialized PSBT, behind its magic bytes. *)
Definition psbt_stream (psbt : PSBT) : result bytes :=
  raise_if (negb (psbt_version psbt =? 2)) AssertionError;;
  '(r, _) ← psbt_serialize psbt;
  psbt_bytes ← b64decode r;
  '(magic, f) ← read_from (read 5) psbt_bytes;
  raise_if (negb (bool_decide (magic = psbt_magic))) AssertionError;;
  Ok f.

(** What [sign_psbt] makes known to the interpreter, and the maps it reads. *)
Definition sign_setup (wallet : WalletPolicy) (n_inputs n_outputs : nat) (f : bytes) :
    state Interpreter (pydict bytes bytes * list (pydict bytes bytes) * list (pydict bytes bytes)) :=
  add_known_list (map encode_utf8 (keys_info wallet));;
  b ← liftS (WalletPolicy_serialize wallet);
  add_known_preimage b;;
  add_known_preimage (encode_utf8 (descriptor_template wallet));;
  '(global_map, f) ← liftS (read_from parse_stream_to_map f);
  add_known_mapping global_map;;
  '(input_maps, f) ← liftS (read_from (replicateR n_inputs parse_stream_to_map) f);
  add_known_mappings input_maps;;
  '(output_maps, f) ← liftS (read_from (replicateR n_outputs parse_stream_to_map) f);
  add_known_mappings output_maps;;
  input_commitments ← liftS (mapR get_merkleized_map_commitment input_maps);
  output_commitments ← liftS (mapR get_merkleized_map_commitment output_maps);
  add_known_list input_commitments;;
  add_known_list output_commitments;;
  mret (global_map, input_maps, output_maps).

Definition read_results (results : list bytes) : result (list (Z * PartialSignature)) :=
  if existsb (λ x, len x <=? 1) results then Err RuntimeError
  else mapR _decode_signpsbt_yielded_value results.

Definition sign_psbt (fuel : nat) (psbt : PSBT) (wallet : WalletPolicy) (wallet_hmac : option bytes) : state D (list (Z * PartialSignature)) :=
  with_interpreter (
    f ← liftS (psbt_stream psbt);
    '(g, ins, outs) ← on_interp (sign_setup wallet (length (psbt_inputs psbt)) (length (psbt_outputs psbt)) f);
    a ← liftS (build_sign_psbt g ins outs wallet wallet_hmac);
    '(sw, _) ← _make_request fuel a;
    check_sw sw;;
    s ← get;
    liftS (read_results (yielded (snd s)))).

Definition sign_message (fuel : nat) (message : bytes) (bip32_path : pystr) : state D pystr :=
  with_interpreter (
    on_interp (add_known_list (message_chunks message));;
    a ← liftS (build_sign_message message bip32_path);
    '(sw, response) ← _make_request fuel a;
    check_sw sw;;
    mret (b64encode response)).
End client.

(** ** [createClient] *)

Definition app_names : list pystr := [$"Bitcoin"; $"Bitcoin Test"; $"Bitcoin Legacy"; $"Bitcoin Test Legacy"; $"app"].

(** Whether the client is the one of the legacy protocol. *)
Definition client_is_legacy (app_name app_version : pystr) : result bool :=
  if negb (bool_decide (app_name ∈ app_names)) then Err (DeviceError 0x6A82)
  else
    match split_char (chr 46) app_version with
    | major :: minor :: _ :: _ =>
        major ← int_str major;
        if major <=? 1 then Ok true
        else
          if major =? 2 then
            minor ← int_str minor;
            Ok ((minor =? 0) || contains $"Legacy" app_name)
          else Ok (contains $"Legacy" app_name)
    | _ => Err ValueError
    end.

(** * Lemmas *)

(** ** What the device yields *)

Lemma reads_client_varint n b : ser_compact_size n = Ok b → reads client_read_varint b n.
Proof.
  unfold ser_compact_size. intros Hb.
  assert (∀ x k r, pack_u k n = Ok r → (1 < k)%nat → Z.of_nat k <= maxsize → varint_size [x] = Z.of_nat k → reads client_read_varint (x :: r) n) as Hx.
  { intros x k r [Hr <-]%pack_u_le Hk Hm Hs. change (x :: r) with ([x] ++ r). eapply reads_bind; [by apply (reads_read [x])|].
    rewrite bool_decide_eq_false_2 by done. cbv zeta. rewrite Hs, (proj2 (Z.ltb_lt 1 _)) by lia. eapply reads_bind_end; [rewrite <- Hr; apply reads_read; lia|].
    rewrite Hr, Z.eqb_refl. apply reads_ret. }
  destruct (Z.ltb_spec n 253) as [L|L]; [|destruct (n <? 0x10000); [|destruct (n <? 0x100000000)]].
  - apply pack_u_le in Hb as [Hl Hv]. destruct b as [|x [|? ?]]; [done| |unfold len in Hl; simpl in Hl; lia].
    assert (ord x = n) as Ex by (rewrite <- Hv; cbn; lia). eapply (reads_bind_end _ _ [x]); [by apply (reads_read [x])|].
    rewrite bool_decide_eq_false_2 by done. cbv zeta. assert (varint_size [x] = 1) as ->.
    { unfold varint_size. rewrite !bool_decide_eq_false_2; [done|..]; intros [= E]; apply (f_equal ord) in E; rewrite ord_chr_small in E by lia; lia. }
    change (1 <? 1) with false. cbv iota. intros rest. erewrite reader_bind_eval by reflexivity. change (len [x]) with 1. cbn [negb Z.eqb]. by rewrite Hv.
  - apply bind_ok in Hb as (r & Hr & [= <-]). apply (Hx _ 2%nat); [exact Hr|lia|done|done].
  - apply bind_ok in Hb as (r & Hr & [= <-]). apply (Hx _ 4%nat); [exact Hr|lia|done|done].
  - apply bind_ok in Hb as (r & Hr & [= <-]). apply (Hx _ 8%nat); [exact Hr|lia|done|done].
Qed.

Lemma reads_client_uint8 n : 0 <= n < 256 → reads (client_read_uint 8) [chr n] n.
Proof.
  intros Hn. unfold client_read_uint. change (8 / 8) with 1. eapply reads_bind_end; [by apply (reads_read [chr n])|].
  change (len [chr n] <? 1) with false. cbv iota. assert (le_int [chr n] = n) as -> by (cbn; rewrite ord_chr_small by lia; lia). apply reads_ret.
Qed.

Lemma read_yielded_ok n b pk sig : ser_compact_size n = Ok b → len pk < 256 →
  read_yielded (b ++ [chr (len pk)] ++ pk ++ sig) = ((λ s, (n, s)) <$> _make_partial_signature pk sig, []).
Proof.
  intros Hb Hpk. unfold read_yielded. pose proof (len_nonneg pk).
  rewrite (read_step _ _ _ _ _ (reads_client_varint _ _ Hb)), (read_step _ _ _ _ _ (reads_client_uint8 (len pk) ltac:(lia))).
  rewrite (read_step _ _ _ _ _ (reads_read pk ltac:(unfold maxsize; lia))). erewrite reader_bind_eval by reflexivity.
  by destruct (_make_partial_signature pk sig).
Qed.

(** ** The maps of a stream *)

Definition map_entry_ok (kv : bytes * bytes) : Prop := kv.1 ≠ [] ∧ small kv.1 ∧ small kv.2.

Lemma stream_map_entry d k v kb vb rest : map_entry_ok (k, v) → ser_string k = Ok kb → ser_string v = Ok vb →
  stream_map_body d ((kb ++ vb) ++ rest) = (Ok (inl (dict_set k v d)), rest).
Proof.
  intros (Hk & Sk & Sv) Hkb Hvb. cbn [fst snd] in *. unfold stream_map_body. rewrite <- app_assoc, (codec_reads k kb Sk Hkb).
  destruct k as [|c k]; [done|]. by rewrite (read_step _ _ _ _ _ (codec_reads v vb Sv Hvb)).
Qed.

Lemma stream_map_ok items d b rest fuel : Forall map_entry_ok items → ser_items (λ '(k, v), ser_kv k v) items = Ok b → (length items < fuel)%nat →
  loop fuel stream_map_body d (b ++ [chr 0] ++ rest) = (Ok (foldl (λ d kv, dict_set kv.1 kv.2 d) d items), rest).
Proof.
  intros Hi. revert d b fuel. induction Hi as [|[k v] items Hkv Hi IH]; intros d b fuel Hb Hf; (destruct fuel as [|fuel]; [simpl in Hf; lia|]).
  - injection Hb as <-. reflexivity.
  - unfold ser_items in Hb. cbn [mapR] in Hb. apply bind_ok in Hb as (bs & (e & He & (es & Hes & [= <-])%bind_ok)%bind_ok & [= <-]).
    unfold ser_kv in He. apply bind_ok in He as (kb & Hkb & (vb & Hvb & [= <-])%bind_ok). cbn [concat loop]. rewrite <- (app_assoc (kb ++ vb)).
    erewrite reader_bind_eval by (by apply stream_map_entry). cbv iota. cbn [foldl fst snd]. apply IH; [unfold ser_items; by rewrite Hes|simpl in Hf; lia].
Qed.

(** A round that goes on has read something, and none runs out of fuel. *)
Lemma stream_map_shrinks d f d' f' : stream_map_body d f = (Ok (inl d'), f') → (length f' < length f)%nat.
Proof.
  unfold stream_map_body. destruct (deser_string f) as [[[|c k]|e] s1] eqn:E; [done| |done]. apply deser_string_shrinks in E as L.
  rewrite reader_bind_ok. intros (v & s2 & Hv & H1). apply safe_string in Hv as [L2 _]. injection H1 as _ <-. lia.
Qed.

Lemma stream_map_fuel d f f' : stream_map_body d f ≠ (Err OutOfFuel, f').
Proof.
  unfold stream_map_body. destruct (deser_string f) as [[[|c k]|e] s1] eqn:E; [done| |done].
  assert (safe (value ← deser_string; mret (inl (A := pydict bytes bytes) (B := pydict bytes bytes) (dict_set (c :: k) value d)))) as Hs
    by (apply safe_bind; [apply safe_string|intros; apply safe_ret]).
  intros H1. apply Hs in H1 as [_ H1]. by apply H1.
Qed.

(** * Specification: a device that runs a program *)

(** What a device does with an APDU: finish, or ask for something and go on with
    the answer. *)
Inductive program :=
  | Finish (sw : Z) (response : bytes)
  | Interrupt (request : bytes) (k : bytes → program).

(** The status word of an interruption is not used to finish. *)
Fixpoint program_ok (p : program) : Prop :=
  match p with Finish sw _ => sw ≠ 0xE000 | Interrupt _ k => ∀ b, program_ok (k b) end.

Definition reply (p : program) : Z * bytes :=
  match p with Finish sw response => (sw, response) | Interrupt request _ => (0xE000, request) end.

(** The message that goes on with an interrupted program. *)
Definition continue_data (b : bytes) : option bytes :=
  match apdu_bytes (continue_interrupted (drop 5 b)) with
  | Ok b' => if decide (b = b') then Some (drop 5 b) else None
  | Err _ => None
  end.

(** The device: the program it is in, if any. Any message but an answer starts
    afresh. *)
Definition device (start : bytes → program) (b : bytes) : state (option program) (Z * bytes) := λ d,
  let p := match d, continue_data b with
           | Some (Interrupt _ k), Some answer => k answer
           | _, _ => start b
           end in
  (Ok (reply p), Some p).

(** Running the program against the interpreter, without the messages between them. *)
Fixpoint run_program (p : program) : state Interpreter (Z * bytes) :=
  match p with
  | Finish sw response => mret (sw, response)
  | Interrupt request k => answer ← execute request; run_program (k answer)
  end.

(** ** Requests *)

Lemma continue_bytes r : len r <= 255 → apdu_bytes (continue_interrupted r) = Ok ([chr 0xF8; chr 1; chr 0; chr 1; chr (len r)] ++ r).
Proof.
  intros Hr. unfold apdu_bytes, continue_interrupted, serialize_cmd, apdu_header. cbn [cla ins p1 p2 data framework_ins].
  pose proof (len_nonneg r). assert (pack_u 1 (len r) = Ok [chr (len r)]) as Hp by (apply pack_u_ok; split; [unfold fits; change (256 ^ Z.of_nat 1) with 256; lia|done]).
  cbn [mapR]. rewrite Hp. reflexivity.
Qed.

Lemma continue_data_ok r : len r <= 255 → continue_data ([chr 0xF8; chr 1; chr 0; chr 1; chr (len r)] ++ r) = Some r.
Proof. intros Hr. unfold continue_data. cbn [app drop]. rewrite continue_bytes by done. by rewrite decide_True. Qed.

Section requests.
Context `{Hashes} (start : bytes → program).
Notation apdu_exchange_dev := (_apdu_exchange (device start)).

Lemma apdu_exchange_ok a b d : apdu_bytes a = Ok b →
  apdu_exchange_dev a d = let '(r, d') := device start b d in (r, d').
Proof.
  intros Hb. unfold _apdu_exchange, apdu_exchange. unfold mbind at 1, state_bind at 1. unfold mbind at 1, state_bind at 1. unfold liftS at 1. rewrite Hb.
  unfold mbind at 1, state_bind at 1, device. destruct (reply _) as [sw data]. destruct (Z.eqb_spec sw 0x9000) as [->|]; done.
Qed.

(** The loop serves the program the device is in, and ends with what it finishes with. *)
Lemma request_loop_ok p s : interpreter_wf s → program_ok p → ∃ n, ∀ fuel, (n <= fuel)%nat →
  ∃ d, request_loop (device start) fuel (reply p).1 (reply p).2 (Some p, s) =
       let '(r, s') := run_program p s in (r, (d, s')).
Proof.
  revert s. induction p as [sw response|request k IH]; intros s Hw Hp; cbn [reply fst snd run_program].
  - exists 0%nat. intros fuel _. exists (Some (Finish sw response)). cbn in Hp.
    destruct fuel; cbn [request_loop]; by rewrite (proj2 (Z.eqb_neq _ _)).
  - destruct (execute request s) as [[answer|e] s1] eqn:Ee.
    + pose proof (execute_bound _ _ _ _ Hw Ee) as Hl.
      assert (interpreter_wf s1) as Hw1.
      { destruct (keeps_execute request s) as [E1 E2]. rewrite Ee in E1, E2. cbn [snd] in E1, E2. destruct Hw. by split; rewrite ?E1, ?E2. }
      destruct (IH answer s1 Hw1 (Hp answer)) as [n Hn]. exists (S n). intros fuel Hf. destruct fuel as [|fuel]; [lia|].
      destruct (Hn fuel ltac:(lia)) as [d Hd]. exists d. cbn [request_loop]. change (0xE000 =? 0xE000) with true. cbv iota.
      assert (on_interp (D := option program) (execute request) (Some (Interrupt request k), s) = (Ok answer, (Some (Interrupt request k), s1))) as E1
        by (unfold on_interp, zoom; cbn [fst snd]; by rewrite Ee).
      rewrite (state_bind_eval _ _ _ _ _ E1).
      assert (on_device (apdu_exchange_dev (continue_interrupted answer)) (Some (Interrupt request k), s1) = (Ok (reply (k answer)), (Some (k answer), s1))) as E2.
      { unfold on_device, zoom. cbn [fst snd]. rewrite (apdu_exchange_ok _ _ _ (continue_bytes answer Hl)). unfold device. by rewrite continue_data_ok. }
      rewrite (state_bind_eval _ _ _ _ _ E2). rewrite (state_bind_eval _ _ _ _ _ Ee). destruct (reply (k answer)) as [sw response]. exact Hd.
    + exists 1%nat. intros fuel Hf. destruct fuel as [|fuel]; [lia|]. exists (Some (Interrupt request k)). cbn [request_loop].
      change (0xE000 =? 0xE000) with true. cbv iota.
      assert (on_interp (D := option program) (execute request) (Some (Interrupt request k), s) = (Err e, (Some (Interrupt request k), s1))) as E1
        by (unfold on_interp, zoom; cbn [fst snd]; by rewrite Ee).
      rewrite (state_bind_err _ _ _ _ _ E1), (state_bind_err _ _ _ _ _ Ee). done.
Qed.
End requests.

(** ** Lists under their roots *)

Section known.
Context `{Hashes}.

(** The hash function tells the strings of [P] apart, and from what stands for the empty list. *)
Definition hashes_apart (P : list bytes) : Prop := collision_free P ∧ Forall (λ x, sha256 x ≠ NIL) P.

Lemma hashes_apart_incl l k : hashes_apart k → l ⊆ k → hashes_apart l.
Proof.
  intros [Hk Hn] Hl. split; [by eapply collision_free_incl|]. rewrite Forall_forall in *. intros x Hx. by apply Hn, Hl.
Qed.

(** The root of two elements or more. *)
Lemma root_split xs : 2 <= len xs → ∃ l r, xs = l ++ r ∧ (length l < length xs)%nat ∧ (length r < length xs)%nat ∧
  is_hash (merkle_root (map element_hash l)) ∧
  merkle_root (map element_hash xs) = combine (merkle_root (map element_hash l)) (merkle_root (map element_hash r)) ∧
  chr 1 :: merkle_root (map element_hash l) ++ merkle_root (map element_hash r) ∈ list_inputs xs ∧
  list_inputs l ⊆ list_inputs xs ∧ list_inputs r ⊆ list_inputs xs.
Proof.
  intros Hl. destruct (split_vec (map element_hash xs)) as (vl & vr & E & Nl & Nr & Ll & _ & H1 & H2); [unfold len in *; by rewrite length_map|].
  apply map_eq_app in E as (l & r & -> & <- & <-). rewrite !length_map in H1, H2. exists l, r.
  pose proof (node_inputs_app _ _ Nl Nr ltac:(by rewrite <- map_app)) as En.
  split_and!; try done.
  - by apply merkle_root_hash, hashes_of.
  - rewrite map_app. apply (merkle_app _ _ 0 Nl Nr). by rewrite <- map_app.
  - unfold list_inputs. rewrite map_app, map_app, En. set_solver.
  - unfold list_inputs. rewrite map_app, map_app, En. set_solver.
  - unfold list_inputs. rewrite map_app, map_app, En. set_solver.
Qed.

(** ** What an interpreter knows *)

Definition known_preimage (s : Interpreter) (x : bytes) : Prop := dict_get (sha256 x) (known_preimages s) = Some x.
Definition known (s : Interpreter) (els : list bytes) : Prop :=
  (∃ mt, dict_get (Some (merkle_root (map element_hash els))) (known_trees s) = Some mt ∧ holds mt (map element_hash els)) ∧
  Forall (known_preimage s) (map (cons (chr 0)) els).

(** All strings that are hashed are among [P]. *)
Section apart.
Context (P : list bytes) (HP : hashes_apart P).

Lemma apart_inj x y : x ∈ P → y ∈ P → sha256 x = sha256 y → x = y.
Proof. apply HP. Qed.

Lemma root_not_nil x xs : list_inputs (x :: xs) ⊆ P → merkle_root (map element_hash (x :: xs)) ≠ NIL.
Proof.
  intros Ix. destruct HP as [_ Hn]. rewrite Forall_forall in Hn. destruct xs as [|y xs].
  - apply (Hn (chr 0 :: x)), Ix. left.
  - destruct (root_split (x :: y :: xs)) as (l & r & _ & _ & _ & _ & -> & Hin & _); [rewrite !len_cons; pose proof (len_nonneg xs); lia|].
    apply Hn, Ix, Hin.
Qed.

Lemma root_not_element x xs : 2 <= len xs → chr 0 :: x ∈ P → list_inputs xs ⊆ P → merkle_root (map element_hash xs) ≠ element_hash x.
Proof.
  intros Hl Hx Ixs E. destruct (root_split xs Hl) as (l & r & _ & _ & _ & _ & E1 & Hin & _). rewrite E1 in E.
  apply apart_inj in E; [done|by apply Ixs|done].
Qed.

(** The root of a list of elements determines it, whatever its length. *)
Lemma list_roots_inj xs ys : list_inputs xs ⊆ P → list_inputs ys ⊆ P →
  merkle_root (map element_hash xs) = merkle_root (map element_hash ys) → xs = ys.
Proof.
  remember (length xs) as n eqn:En. revert xs ys En. induction n as [n IH] using lt_wf_ind. intros xs ys -> Ix Iy E.
  destruct xs as [|x [|x' xs]].
  - destruct ys as [|y ys]; [done|]. by destruct (root_not_nil y ys Iy).
  - destruct ys as [|y [|y' ys]]; [by destruct (root_not_nil x [] Ix)| |].
    + apply (element_hash_inj P) in E as ->; [done|apply HP|apply Ix; left|apply Iy; left].
    + destruct (root_not_element x (y :: y' :: ys)); [rewrite !len_cons; pose proof (len_nonneg ys); lia|apply Ix; left|done|by symmetry].
  - destruct ys as [|y [|y' ys]]; [by destruct (root_not_nil x (x' :: xs) Ix)| |].
    { destruct (root_not_element y (x :: x' :: xs)); [rewrite !len_cons; pose proof (len_nonneg xs); lia|apply Iy; left|done..]. }
    destruct (root_split (x :: x' :: xs)) as (l & r & Ex & Ll & Lr & Hl & E1 & N1 & I1 & I2); [rewrite !len_cons; pose proof (len_nonneg xs); lia|].
    destruct (root_split (y :: y' :: ys)) as (l' & r' & Ey & _ & _ & Hl' & E2 & N2 & I3 & I4); [rewrite !len_cons; pose proof (len_nonneg ys); lia|].
    rewrite E1, E2 in E. rewrite Ex, Ey. apply (combine_inj P) in E as [El Er]; [|apply HP|done..|by apply Ix|by apply Iy].
    f_equal; [apply (IH _ Ll)|apply (IH _ Lr)]; try done; (etrans; [eassumption|assumption]).
Qed.

(** The invariant of the setup: all lists and preimages that were added are known. *)
Definition serves (s : Interpreter) (L : list (list bytes)) (Q : list bytes) : Prop :=
  queue s = [] ∧ Forall (known s) L ∧ Forall (known_preimage s) Q ∧ Forall (λ els, list_inputs els ⊆ P) L ∧ Forall (λ x, x ∈ P) Q.

Lemma serves_new : serves Interpreter_new [] [].
Proof. by split_and!. Qed.

Lemma known_preimage_keep s x y : x ∈ P → y ∈ P → known_preimage s x → known_preimage (add_known_preimage y s).2 x.
Proof. intros Hx Hy Hk. unfold known_preimage. cbn. rewrite dict_get_set. case_decide as E; [|done]. by rewrite (apart_inj x y). Qed.

Lemma known_preimages_keep s l y : l ⊆ P → y ∈ P → Forall (known_preimage s) l → Forall (known_preimage (add_known_preimage y s).2) l.
Proof. rewrite !Forall_forall. intros Hl Hy Hk x Hx. apply known_preimage_keep; [by apply Hl|done|by apply Hk]. Qed.

Lemma known_preimage_new s y : known_preimage (add_known_preimage y s).2 y.
Proof. unfold known_preimage. cbn. by rewrite dict_get_set, decide_True. Qed.

Lemma serves_preimage x s L Q : x ∈ P → serves s L Q → serves (add_known_preimage x s).2 L (x :: Q).
Proof.
  intros Hx (Hq & HL & HQ & IL & IQ). split_and!; try done.
  - rewrite Forall_forall in *. intros els Hels. destruct (HL els Hels) as [Hmt Hk]. split; [exact Hmt|].
    apply known_preimages_keep; [|done..]. etrans; [|by apply IL]. unfold list_inputs. set_solver.
  - constructor; [apply known_preimage_new|]. apply known_preimages_keep; [|done..]. by rewrite Forall_forall in IQ.
  - by constructor.
Qed.

Lemma add_preimages_known els s l : map (cons (chr 0)) els ⊆ P → l ⊆ P → Forall (known_preimage s) l →
  Forall (known_preimage (add_known_preimages els s).2) (map (cons (chr 0)) els ++ l).
Proof.
  revert s l. induction els as [|el els IH]; intros s l He Hl Hk; [done|]. cbn [add_known_preimages map] in *.
  erewrite state_bind_eval; [|reflexivity].
  assert (Forall (known_preimage (add_known_preimage (chr 0 :: el) s).2) ((chr 0 :: el) :: l)) as H1.
  { constructor; [apply known_preimage_new|]. apply known_preimages_keep; [done|apply He; left|done]. }
  specialize (IH _ ((chr 0 :: el) :: l) ltac:(set_solver) ltac:(set_solver) H1). cbn [add_known_preimage modify snd] in IH.
  rewrite Forall_forall in *. intros x Hx. apply IH. set_solver.
Qed.

Lemma serves_list els s L Q : serves s L Q → list_inputs els ⊆ P → ∃ s', add_known_list els s = (Ok (), s') ∧ serves s' (els :: L) Q.
Proof.
  intros (Hq & HL & HQ & IL & IQ) Ie. destruct (add_list_run els s) as (mt & Hh & E).
  exists (add_known_list els s).2. rewrite E. split; [done|]. cbn [snd]. set (s1 := (add_known_preimages els s).2).
  assert (map (cons (chr 0)) els ⊆ P) as Ie' by (etrans; [|exact Ie]; unfold list_inputs; set_solver).
  assert (∀ l, l ⊆ P → Forall (known_preimage s) l → Forall (known_preimage s1) (map (cons (chr 0)) els ++ l)) as Hkeep
    by (intros l; by apply add_preimages_known).
  split_and!; [|constructor|by rewrite Forall_forall in IQ; apply (proj1 (Forall_app (known_preimage s1) _ _) (Hkeep Q IQ HQ))|by constructor|done].
  - cbn [queue set_trees]. unfold s1. by rewrite (proj1 (proj2 (add_preimages_trees els s))).
  - split; [exists mt; cbn [known_trees set_trees]; by rewrite dict_get_set, decide_True|].
    apply (proj1 (Forall_app (known_preimage s1) _ _) (Hkeep [] ltac:(set_solver) ltac:(done))).
  - rewrite Forall_forall in HL, IL |- *. intros ys Hys. destruct (HL ys Hys) as [(mt' & Hmt & Hh') Hk]. split.
    + destruct (decide (ys = els)) as [->|Hne]; [exists mt; cbn [known_trees set_trees]; by rewrite dict_get_set, decide_True|].
      exists mt'. cbn [known_trees set_trees]. rewrite dict_get_set, decide_False; [done|]. intros [= Er].
      apply Hne, list_roots_inj; [by apply IL|done|by rewrite Er].
    + refine (proj2 (proj1 (Forall_app (known_preimage s1) _ _) (Hkeep (map (cons (chr 0)) ys) _ Hk))).
      etrans; [|by apply IL]. unfold list_inputs. set_solver.
Qed.
End apart.

(** The lists of a mapping. *)
Definition map_lists (m : pydict bytes bytes) : list (list bytes) := [map snd (sorted_items m); map fst (sorted_items m)].

Definition mapping_strings (m : pydict bytes bytes) : list bytes := concat (map list_inputs (map_lists m)).

Section apart_mappings.
Context (P : list bytes) (HP : hashes_apart P).

Lemma serves_mapping m s L Q : serves P s L Q → mapping_strings m ⊆ P →
  ∃ s', add_known_mapping m s = (Ok (), s') ∧ serves P s' (map_lists m ++ L) Q.
Proof.
  intros Hs Hl. unfold mapping_strings, map_lists in Hl. cbn [map concat] in Hl.
  destruct (serves_list P HP (map fst (sorted_items m)) s L Q Hs ltac:(set_solver)) as (s1 & E1 & Hs1).
  destruct (serves_list P HP (map snd (sorted_items m)) s1 _ Q Hs1 ltac:(set_solver)) as (s2 & E2 & Hs2).
  exists s2. split; [|exact Hs2]. unfold add_known_mapping. cbv zeta. by rewrite (state_bind_eval _ _ _ _ _ E1).
Qed.

Lemma serves_mappings ms s L Q : serves P s L Q → concat (map mapping_strings ms) ⊆ P →
  ∃ s' L', add_known_mappings ms s = (Ok (), s') ∧ serves P s' L' Q ∧ ∀ els, els ∈ L' ↔ els ∈ concat (map map_lists ms) ∨ els ∈ L.
Proof.
  revert s L. induction ms as [|m ms IH]; intros s L Hs Hms; cbn [map concat] in *.
  - exists s, L. split; [done|]. split; [done|]. set_solver.
  - destruct (serves_mapping m s L Q Hs ltac:(set_solver)) as (s1 & E1 & Hs1). destruct (IH s1 _ Hs1 ltac:(set_solver)) as (s2 & L2 & E2 & Hs2 & HL).
    exists s2, L2. split; [cbn [add_known_mappings]; by rewrite (state_bind_eval _ _ _ _ _ E1)|]. split; [done|].
    intros els. rewrite HL, !elem_of_app. tauto.
Qed.
End apart_mappings.
End known.

(** ** Serving a request to sign *)

Section serving.
Context `{Hashes}.

Lemma known_served s els i el : queue s = [] → known s els → len els < 2 ^ 64 → len el < 2 ^ 64 - 1 → els !! i = Some el → served s els i el.
Proof.
  intros Hq [(mt & Hmt & Hh) Hels] Hl Hel Hi. apply (delivered_served _ mt); try done.
  rewrite Forall_forall in Hels. apply Hels, list_elem_of_fmap_2. by eapply list_elem_of_lookup_2.
Qed.

(** The lists of a request to sign. *)
Definition sign_lists (w : WalletPolicy) (g : pydict bytes bytes) (ins outs : list (pydict bytes bytes)) (ci co : list bytes) : list (list bytes) :=
  [map encode_utf8 (keys_info w)] ++ map_lists g ++ concat (map map_lists ins) ++ concat (map map_lists outs) ++ [ci; co].

Definition sizes_ok (L : list (list bytes)) : Prop := Forall (λ els, len els < 2 ^ 64 ∧ Forall (λ el, len el < 2 ^ 64 - 1) els) L.

(** All strings that the setup hashes. *)
Definition setup_inputs (w : WalletPolicy) (b : bytes) (g : pydict bytes bytes) (ins outs : list (pydict bytes bytes)) (ci co : list bytes) : list bytes :=
  b :: encode_utf8 (descriptor_template w) :: concat (map list_inputs (sign_lists w g ins outs ci co)).

Lemma mapping_strings_lists ms : concat (map mapping_strings ms) = concat (map list_inputs (concat (map map_lists ms))).
Proof. induction ms as [|m ms IH]; [done|]. cbn [map concat]. rewrite IH, map_app, concat_app. done. Qed.

Lemma sign_setup_serves w b n m f g ins outs s ci co (P := setup_inputs w b g ins outs ci co) : hashes_apart P →
  sign_setup w n m f Interpreter_new = (Ok (g, ins, outs), s) → WalletPolicy_serialize w = Ok b →
  mapR get_merkleized_map_commitment ins = Ok ci → mapR get_merkleized_map_commitment outs = Ok co →
  ∃ L, serves P s L [encode_utf8 (descriptor_template w); b] ∧ ∀ els, els ∈ sign_lists w g ins outs ci co → els ∈ L.
Proof.
  intros HP Hs Hb Hci Hco. assert (concat (map list_inputs (sign_lists w g ins outs ci co)) ⊆ P) as HL by (unfold P, setup_inputs; set_solver).
  assert (b ∈ P ∧ encode_utf8 (descriptor_template w) ∈ P) as [HbP HtP] by (unfold P, setup_inputs; set_solver). clearbody P.
  unfold sign_lists in HL. rewrite !map_app, !concat_app, <- !mapping_strings_lists in HL. cbn [map concat] in HL.
  unfold sign_setup in Hs.
  apply state_bind_ok in Hs as ([] & s1 & E1 & Hs). apply liftS_ok in Hs as (b' & Hb' & Hs). rewrite Hb in Hb'. injection Hb' as <-.
  apply state_bind_ok in Hs as ([] & s2 & [= <-] & Hs). apply state_bind_ok in Hs as ([] & s3 & [= <-] & Hs).
  apply liftS_ok in Hs as ([g' f1] & _ & Hs). apply state_bind_ok in Hs as ([] & s4 & E4 & Hs).
  apply liftS_ok in Hs as ([ins' f2] & _ & Hs). apply state_bind_ok in Hs as ([] & s5 & E5 & Hs).
  apply liftS_ok in Hs as ([outs' f3] & _ & Hs). apply state_bind_ok in Hs as ([] & s6 & E6 & Hs).
  apply liftS_ok in Hs as (ci' & Hci' & Hs). apply liftS_ok in Hs as (co' & Hco' & Hs).
  apply state_bind_ok in Hs as ([] & s7 & E7 & Hs). apply state_bind_ok in Hs as ([] & s8 & E8 & [= -> -> -> ->]).
  rewrite Hci in Hci'. injection Hci' as <-. rewrite Hco in Hco'. injection Hco' as <-.
  destruct (serves_list P HP (map encode_utf8 (keys_info w)) _ _ _ (serves_new P) ltac:(set_solver)) as (t1 & F1 & I1).
  rewrite E1 in F1. injection F1 as <-.
  pose proof (serves_preimage P HP _ _ _ _ HtP (serves_preimage P HP _ _ _ _ HbP I1)) as I3.
  destruct (serves_mapping P HP g _ _ _ I3) as (t4 & F4 & I4); [unfold mapping_strings; set_solver|]. pose proof (eq_trans (eq_sym E4) F4) as [= <-].
  destruct (serves_mappings P HP ins _ _ _ I4 ltac:(set_solver)) as (t5 & L5 & F5 & I5 & M5). rewrite E5 in F5. injection F5 as <-.
  destruct (serves_mappings P HP outs _ _ _ I5 ltac:(set_solver)) as (t6 & L6 & F6 & I6 & M6). rewrite E6 in F6. injection F6 as <-.
  destruct (serves_list P HP ci _ _ _ I6 ltac:(set_solver)) as (t7 & F7 & I7). rewrite E7 in F7. injection F7 as <-.
  destruct (serves_list P HP co _ _ _ I7 ltac:(set_solver)) as (t8 & F8 & I8). rewrite E8 in F8. injection F8 as <-.
  exists (co :: ci :: L6). split; [exact I8|]. intros els. unfold sign_lists.
  rewrite !elem_of_cons. rewrite M6, M5, !elem_of_app, !elem_of_cons. tauto.
Qed.
End serving.

(** * Properties *)

Section properties.
Context `{Hashes}.

(** C19: the request loop is the device's program run against the interpreter: whatever program the device
    starts, with however many interruptions, enough rounds end the request with what the program ends
    with, or with the exception of a client command, and no message between them fails to be sent. *)
Theorem make_request_refines (start : bytes → program) (a : apdu) (b : bytes) (s : Interpreter)
    (Hb : apdu_bytes a = Ok b) (Hs : reachable s) (Hp : ∀ b, program_ok (start b)) :
  ∃ n, ∀ fuel, (n <= fuel)%nat → ∃ d,
    _make_request (device start) fuel a (None, s) = let '(r, s') := run_program (start b) s in (r, (d, s')).
Proof.
  destruct (request_loop_ok start (start b) s (reachable_wf s Hs) (Hp b)) as [n Hn]. exists n. intros fuel Hf.
  destruct (Hn fuel Hf) as [d Hd]. exists d. unfold _make_request.
  assert (on_device (_apdu_exchange (device start) a) (None, s) = (Ok (reply (start b)), (Some (start b), s))) as E.
  { unfold on_device, zoom. cbn [fst snd]. by rewrite (apdu_exchange_ok start a b None Hb). }
  rewrite (state_bind_eval _ _ _ _ _ E). destruct (reply (start b)) as [sw response]. exact Hd.
Qed.

(** C18: what a device needs to sign is there: once the client is set up, the device gets every element of the
    keys of the wallet, of the keys and the values of the global, input and output maps, and of the
    commitments to the maps, each with a proof for the root of its list, and the wallet policy and its
    template.  The hash function has to tell the strings apart that the setup hashes, and from the hash that
    stands for an empty list. *)
Theorem sign_request_served (w : WalletPolicy) (n m : nat) (f b : bytes) (g : pydict bytes bytes) (ins outs : list (pydict bytes bytes))
    (s : Interpreter) (ci co : list bytes)
    (Hs : sign_setup w n m f Interpreter_new = (Ok (g, ins, outs), s)) (Hb : WalletPolicy_serialize w = Ok b)
    (Hci : mapR get_merkleized_map_commitment ins = Ok ci) (Hco : mapR get_merkleized_map_commitment outs = Ok co)
    (Hsize : sizes_ok (sign_lists w g ins outs ci co)) (Hc : hashes_apart (setup_inputs w b g ins outs ci co)) :
  (∀ els i el, els ∈ sign_lists w g ins outs ci co → els !! i = Some el → served s els i el) ∧
  ∀ x, x ∈ [b; encode_utf8 (descriptor_template w)] → len x < 2 ^ 64 → ∃ fuel, device_get_preimage fuel (sha256 x) s = (Ok x, s).
Proof.
  destruct (sign_setup_serves _ _ _ _ _ _ _ _ _ _ _ Hc Hs Hb Hci Hco) as (L & (Hq & HK & HQ & _) & HL).
  unfold sizes_ok in Hsize. rewrite Forall_forall in Hsize. split.
  - intros els i el Hels Hi. destruct (Hsize els Hels) as [Hl Hel]. rewrite Forall_forall in Hel.
    apply known_served; try done; [by eapply (proj1 (Forall_forall _ _) HK), HL|]. apply Hel. by eapply list_elem_of_lookup_2.
  - intros x Hx Hl. exists (length x). apply preimage_delivery; try done; [unfold len; by rewrite sha256_length|].
    eapply (proj1 (Forall_forall _ _) HQ). set_solver.
Qed.

(** The maps of a serialized PSBT are read back: a separator ends a map of nonempty keys, and a map read
    from any stream at all comes to an end. *)
Theorem stream_map_roundtrip (items : list (bytes * bytes)) (b rest : bytes) (Hi : Forall map_entry_ok items)
    (Hb : ser_items (λ '(k, v), ser_kv k v) items = Ok b) :
  parse_stream_to_map (b ++ [chr 0] ++ rest) = (Ok (dict_of_items items), rest) ∧
  ∀ f f', parse_stream_to_map f ≠ (Err OutOfFuel, f').
Proof.
  split.
  - unfold parse_stream_to_map. apply stream_map_ok; [done|done|]. rewrite length_app.
    enough (length items <= length b)%nat by lia. clear Hi. unfold ser_items in Hb. apply bind_ok in Hb as (bs & Hbs & [= <-]).
    revert bs Hbs. induction items as [|[k v] items IH]; intros bs Hbs; cbn [mapR] in Hbs; [simpl; lia|].
    apply bind_ok in Hbs as (e & He & (es & Hes & [= <-])%bind_ok). cbn [concat length]. rewrite length_app. specialize (IH _ Hes).
    unfold ser_kv, ser_string in He. apply bind_ok in He as (kb & (x & Hx & [= <-])%bind_ok & (vb & _ & [= <-])%bind_ok).
    apply compact_len in Hx. rewrite !length_app. unfold len in Hx. lia.
  - intros f f'. unfold parse_stream_to_map. apply (loop_no_fuel_error stream_map_body); [exact stream_map_shrinks|exact stream_map_fuel|lia].
Qed.

(** A signature that the device yields is read back with the index of its input: a key of 32 or 33 bytes,
    or a key of 32 with the hash of its leaf; any other length of key is an error. *)
Theorem yielded_roundtrip (index : Z) (b pubkey signature : bytes) (Hb : ser_compact_size index = Ok b) (Hk : len pubkey < 256) :
  _decode_signpsbt_yielded_value (b ++ [chr (len pubkey)] ++ pubkey ++ signature) =
    if decide (len pubkey = 64) then
      Ok (index, {| ps_pubkey := take 32 pubkey; ps_signature := signature; tapleaf_hash := Some (drop 32 pubkey) |})
    else if decide (len pubkey = 32 ∨ len pubkey = 33) then
      Ok (index, {| ps_pubkey := pubkey; ps_signature := signature; tapleaf_hash := None |})
    else Err UnknownDeviceError.
Proof.
  unfold _decode_signpsbt_yielded_value. rewrite (read_yielded_ok index) by done. cbn [fst]. unfold _make_partial_signature.
  destruct (Z.eqb_spec (len pubkey) 64), (decide (len pubkey = 64)); try done.
  destruct (Z.eqb_spec (len pubkey) 32), (Z.eqb_spec (len pubkey) 33), (decide (len pubkey = 32 ∨ len pubkey = 33)) as [Hd|Hd]; try done; try tauto.
Qed.
End properties.

(** A device that asks for a preimage and finishes with the number of bytes of the answer. *)
Definition example_program (h : bytes) : program :=
  Interrupt (chr (code GET_PREIMAGE) :: chr 0 :: h) (λ answer, Finish 0x9000 [chr (len answer)]).

Lemma make_request_refines_witness : ∃ fuel d s',
  _make_request (device (λ _, example_program (sha256_fips [chr 5]))) fuel build_get_master_fingerprint
    (None, (add_known_preimage (H := executable_hashes) [chr 5] Interpreter_new).2) = (Ok (0x9000, [chr 3]), (d, s')).
Proof.
  destruct (make_request_refines (H := executable_hashes) (λ _, example_program (sha256_fips [chr 5])) build_get_master_fingerprint
    [chr 0xE1; chr 5; chr 0; chr 1; chr 0] (add_known_preimage (H := executable_hashes) [chr 5] Interpreter_new).2) as [n Hn].
  - reflexivity.
  - apply (reach_preimage (H := executable_hashes)), reach_new.
  - intros b answer. discriminate.
  - exists n. destruct (Hn n (le_n n)) as [d Hd]. exists d.
    destruct (run_program _ _) as [r s'] eqn:E. vm_compute in E. injection E as <- <-. eexists. exact Hd.
Defined.

Lemma stream_map_roundtrip_witness :
  parse_stream_to_map ([chr 1; chr 7; chr 2; chr 8; chr 9] ++ [chr 0] ++ [chr 4]) = (Ok [([chr 7], [chr 8; chr 9])], [chr 4]).
Proof.
  apply (stream_map_roundtrip [([chr 7], [chr 8; chr 9])] [chr 1; chr 7; chr 2; chr 8; chr 9] [chr 4]); [|reflexivity].
  constructor; [|constructor]. split; [discriminate|split; vm_compute; discriminate].
Defined.

Lemma yielded_roundtrip_witness :
  _decode_signpsbt_yielded_value ([chr 3] ++ [chr 32] ++ replicate 32 (chr 2) ++ [chr 0x30]) =
    Ok (3, {| ps_pubkey := replicate 32 (chr 2); ps_signature := [chr 0x30]; tapleaf_hash := None |}).
Proof. apply (yielded_roundtrip 3 [chr 3] (replicate 32 (chr 2)) [chr 0x30]); reflexivity. Defined.

Definition example_stream : bytes := [chr 1; chr 7; chr 2; chr 8; chr 9; chr 0; chr 1; chr 6; chr 1; chr 5; chr 0].

Lemma hashes_apart_NoDup (P : list bytes) : NoDup (map (sha256 (Hashes := executable_hashes)) (remove_dups P)) ∧
  NIL ∉ map (sha256 (Hashes := executable_hashes)) P → hashes_apart (H := executable_hashes) P.
Proof.
  intros [Hd Hn]. split; [by apply collision_free_NoDup|]. rewrite Forall_forall. intros x Hx E. apply Hn. rewrite <- E. by apply list_elem_of_fmap_2.
Qed.

Lemma sign_request_served_witness : ∃ s,
  sign_setup (H := executable_hashes) example_policy 1 0 example_stream Interpreter_new = (Ok ([([chr 7], [chr 8; chr 9])], [[([chr 6], [chr 5])]], []), s) ∧
  served (H := executable_hashes) s [[chr 8; chr 9]] 0 [chr 8; chr 9].
Proof.
  destruct (sign_setup (H := executable_hashes) example_policy 1 0 example_stream Interpreter_new) as [[r|e] s] eqn:E; [|vm_compute in E; discriminate].
  assert (r = ([([chr 7], [chr 8; chr 9])], [[([chr 6], [chr 5])]], [])) as ->.
  { apply (f_equal fst) in E. vm_compute in E. injection E as <-. reflexivity. }
  exists s. split; [reflexivity|].
  destruct (WalletPolicy_serialize (H := executable_hashes) example_policy) as [b|e] eqn:Eb; [|vm_compute in Eb; discriminate].
  destruct (mapR (get_merkleized_map_commitment (H := executable_hashes)) [[([chr 6], [chr 5])]]) as [ci|e] eqn:Eci; [|vm_compute in Eci; discriminate].
  refine (proj1 (sign_request_served (H := executable_hashes) _ _ _ _ b _ _ _ s ci [] E Eb Eci eq_refl _ _) [[chr 8; chr 9]] 0%nat _ _ eq_refl).
  - vm_compute in Eci. injection Eci as <-. apply (bool_decide_unpack _). vm_compute. exact I.
  - vm_compute in Eci, Eb. injection Eci as <-. injection Eb as <-. apply hashes_apart_NoDup, (bool_decide_unpack _). vm_compute. exact I.
  - right. left.
Defined.
