(* ===== verification/Commands.v ===== *)
(** * [hwilib/commands.py] and [hwilib/hwwclient.py]: commands

    What the program does with a device: descriptors and key pools of its keys,
    and addresses that are shown on it.  A client is a record of operations on
    the state of the device; the commands use those and the cache of
    extended keys that every client has. *)

From S2P Require Import Prelude Bytes StateM PyStd PyStr Common Sha256 Base58 KeyPath Key DescChecksum PubkeyProvider Descriptor RegDescriptor.
From S2P Require Import Psbt.

(** ** [hwwclient.py] *)

(** The methods that the drivers implement. *)
Record client_ops (D : Type) := {
  get_pubkey_at_path : pystr → state D ExtendedKey;
  op_master_fingerprint : state D bytes;
  sign_tx : PSBT → list RegisteredDescriptor → state D PSBT;
  op_sign_message : pystr → pystr → state D pystr;
  display_singlesig_address : pystr → AddressType → state D pystr;
  display_multisig_address : AddressType → Descriptor → state D pystr;
  display_bip388_policy_address : RegisteredDescriptor → Z → Z → state D pystr;
  can_sign_taproot : state D bool;
  op_register_descriptor : pystr → Descriptor → state D RegisteredDescriptor;
  op_setup_device : pystr → pystr → state D bool;
  op_wipe_device : state D bool;
  op_restore_device : pystr → Z → state D bool;
  op_backup_device : pystr → pystr → state D bool;
  op_prompt_pin : state D bool;
  op_send_pin : pystr → state D bool;
  op_toggle_passphrase : state D bool;
  op_close : state D ();
}.
Arguments get_pubkey_at_path {D}.
Arguments op_master_fingerprint {D}.
Arguments sign_tx {D}.
Arguments op_sign_message {D}.
Arguments display_singlesig_address {D}.
Arguments display_multisig_address {D}.
Arguments display_bip388_policy_address {D}.
Arguments can_sign_taproot {D}.
Arguments op_register_descriptor {D}.
Arguments op_setup_device {D}.
Arguments op_wipe_device {D}.
Arguments op_restore_device {D}.
Arguments op_backup_device {D}.
Arguments op_prompt_pin {D}.
Arguments op_send_pin {D}.
Arguments op_toggle_passphrase {D}.
Arguments op_close {D}.

(** A client: its device and its cache of extended keys. *)
Record HardwareWalletClient (D : Type) := mkClient { client_device : D; xpub_cache : pydict pystr pystr }.
Arguments mkClient {D}.
Arguments client_device {D}.
Arguments xpub_cache {D}.

Section commands.
Context {D : Type} (ops : client_ops D) (chain : Chain).
Context `{Hashes} `{SetOrder}.
Notation M := (state (HardwareWalletClient D)).

(** A method of the client. *)
Definition call {A} (m : state D A) : M A := zoom client_device (λ d c, mkClient d (xpub_cache c)) m.

(** The method of the abstract class, where a driver has none of its own. *)
Definition base_master_fingerprint : state D bytes :=
  k ← get_pubkey_at_path ops $"m/0h"; mret (parent_fingerprint k).

Definition get_master_xpub (addrtype : AddressType) (account : Z) : state D ExtendedKey :=
  get_pubkey_at_path ops
    ($"m/" ++ str_int (get_bip44_purpose addrtype) ++ $"h/" ++ str_int (get_bip44_chain chain) ++ $"h/" ++ str_int account ++ $"h").

(** ** Keys *)

Definition getmasterxpub (addrtype : AddressType) (account : Z) : M pystr :=
  k ← call (get_master_xpub addrtype account);
  liftS (ExtendedKey_to_string k).

Definition getxpub (path : pystr) (expert : bool) : M (pydict pystr printable_val) :=
  xpub ← call (get_pubkey_at_path ops path);
  s ← liftS (ExtendedKey_to_string xpub);
  let result := [($"xpub", PStr s)] in
  if expert then mret (foldl (λ d kv, dict_set kv.1 kv.2 d) result (get_printable_dict xpub)) else mret result.

Definition signmessage (message path : pystr) : M pystr := call (op_sign_message ops message path).

(** The registrations are a set of objects that are compared by identity. *)
Definition signtx (psbt : pystr) (registrations : option (list pystr)) : M (pystr * bool) :=
  tx ← liftS (psbt_deserialize psbt PSBT_new);
  registered_descriptors ← liftS (mapR RegisteredDescriptor_deserialize (default [] registrations));
  signed ← call (sign_tx ops tx registered_descriptors);
  '(result, _) ← liftS (psbt_serialize signed);
  mret (result, negb (bool_decide (result = psbt))).

(** ** [getdescriptor] *)

Definition descriptor_path (path : option pystr) (internal : bool) (addr_type : AddressType) (account : Z) : result (list Z) :=
  match path with
  | None | Some [] =>
      Ok [H_ (get_bip44_purpose addr_type); H_ (get_bip44_chain chain); H_ account; if internal then 1 else 0]
  | Some (c :: p) =>
      if bool_decide (c ≠ chr 109) then Err BadArgumentError
      else if bool_decide (last (c :: p) ≠ Some (chr 42)) then Err BadArgumentError
      else parse_path (slice_to_neg 2 (c :: p))
  end.

(** The loop over [zip(count(len - 1, -1), reversed(path))]: the value of [i]
    behind it, if it was bound. *)
Fixpoint last_hardened (rpath : list Z) (n : Z) (i : option Z) : option Z :=
  match rpath with
  | [] => i
  | p :: rpath => if is_hardened p then Some n else last_hardened rpath (n - 1) (Some n)
  end.

Definition make_descriptor (pubkey : PubkeyProvider) (addr_type : AddressType) : M Descriptor :=
  match addr_type with
  | LEGACY => mret (PKHDescriptor pubkey)
  | SH_WIT => mret (SHDescriptor (WPKHDescriptor pubkey))
  | WIT => mret (WPKHDescriptor pubkey)
  | TAP =>
      t ← call (can_sign_taproot ops);
      if negb t then raise UnavailableActionError else mret (TRDescriptor pubkey [] [])
  end.

(** The extended key of the cache, which is fetched when it is not there. *)
Definition cached_xpub (path_base : pystr) : M pystr :=
  c ← get;
  (match dict_get path_base (xpub_cache c) with
   | Some _ => mret ()
   | None =>
       k ← call (get_pubkey_at_path ops path_base);
       s ← liftS (ExtendedKey_to_string k);
       modify (λ c, mkClient (client_device c) (dict_set path_base s (xpub_cache c)))
   end);;
  c ← get;
  mret (default [] (dict_get path_base (xpub_cache c))).

Definition getdescriptor (master_fpr : bytes) (path : option pystr) (internal : bool) (addr_type : AddressType) (account : Z) : M Descriptor :=
  parsed_path ← liftS (descriptor_path path internal addr_type account);
  i ← liftS (of_option NameError (last_hardened (rev parsed_path) (len parsed_path - 1) None));
  let i := i + 1 in
  let origin := {| fingerprint := master_fpr; KeyPath.path := take (Z.to_nat i) parsed_path |} in
  let path_base := get_derivation_path origin in
  let path_suffix := map (λ p, [p]) (drop (Z.to_nat i) parsed_path) in
  xpub ← cached_xpub path_base;
  pubkey ← liftS (PubkeyProvider_init (Some origin) xpub (Some path_suffix) 0 true);
  make_descriptor pubkey addr_type.

(** ** [getkeypool] and [getdescriptors] *)

Record import := mkImport {
  import_desc : pystr;
  import_range : Z * Z;
  import_internal : bool;
  import_keypool : bool;
}.

Definition getkeypool_inner (path : option pystr) (start end_ : Z) (internal keypool : bool) (account : Z) (addr_type : AddressType) : M (list import) :=
  master_fpr ← call (op_master_fingerprint ops);
  desc ← getdescriptor master_fpr path internal addr_type account;
  s ← liftS (to_string $"h" desc);
  mret [mkImport s (start, end_) internal keypool].

(** [for internal_addr in [False, True]] for every type of address. *)
Fixpoint standard_chains (addr_types : list AddressType) (start end_ : Z) (keypool : bool) (account : Z) : M (list import) :=
  match addr_types with
  | [] => mret []
  | t :: addr_types =>
      receive ← getkeypool_inner None start end_ false keypool account t;
      change ← getkeypool_inner None start end_ true keypool account t;
      rest ← standard_chains addr_types start end_ keypool account;
      mret (receive ++ change ++ rest)
  end.

Definition getkeypool (path : option pystr) (start end_ : Z) (internal keypool : bool) (account : Z) (addr_type : AddressType) (addr_all : bool) :
    M (list import) :=
  supports_taproot ← call (can_sign_taproot ops);
  if negb addr_all && negb supports_taproot && bool_decide (addr_type = TAP) then raise UnavailableActionError
  else
    let addr_types := if addr_all then addrtype_all else [addr_type] in
    let addr_types := if supports_taproot then addr_types else filter (λ t, t ≠ TAP) addr_types in
    if bool_decide (path = None) && negb internal then standard_chains addr_types start end_ keypool account
    else
      match addr_types with
      | [t] => getkeypool_inner path start end_ internal keypool account t
      | _ => raise AssertionError
      end.

(** [except UnavailableActionError: continue]. *)
Definition if_available {A} (m : M A) : M (option A) := λ c,
  match m c with
  | (Ok a, c) => (Ok (Some a), c)
  | (Err UnavailableActionError, c) => (Ok None, c)
  | (Err e, c) => (Err e, c)
  end.

Fixpoint account_descriptors (master_fpr : bytes) (internal : bool) (addr_types : list AddressType) (account : Z) : M (list pystr) :=
  match addr_types with
  | [] => mret []
  | t :: addr_types =>
      desc ← if_available (getdescriptor master_fpr None internal t account);
      d ← match desc with
          | None => mret []
          | Some desc => s ← liftS (to_string $"h" desc); mret [s]
          end;
      rest ← account_descriptors master_fpr internal addr_types account;
      mret (d ++ rest)
  end.

Definition getdescriptors (account : Z) : M (list pystr * list pystr) :=
  master_fpr ← call (op_master_fingerprint ops);
  receive ← account_descriptors master_fpr false addrtype_all account;
  internal ← account_descriptors master_fpr true addrtype_all account;
  mret (receive, internal).

Definition register_descriptor (name descriptor : pystr) : M pystr :=
  d ← liftS (parse_descriptor descriptor);
  r ← call (op_register_descriptor ops name d);
  liftS (RegisteredDescriptor_serialize r).

(** ** [displayaddress] *)

Inductive displayed :=
  | ShownAddress (address : pystr)
  | ShownPolicyAddress (address : pystr) (index multipath_index : Z).

Definition display_policy (registration : option pystr) (index multipath_index : option Z) : M displayed :=
  registration ← liftS (of_option BadArgumentError registration);
  index ← liftS (of_option BadArgumentError index);
  if index <? 0 then raise BadArgumentError
  else
    multipath_index ← match multipath_index with
                      | None => mret 0
                      | Some m => if m <? 0 then raise BadArgumentError else mret m
                      end;
    registered_descriptor ← liftS (RegisteredDescriptor_deserialize registration);
    address ← call (display_bip388_policy_address ops registered_descriptor index multipath_index);
    mret (ShownPolicyAddress address index multipath_index).

(** [is_sh], [is_wsh] and what is inside the wrappers. *)
Definition unwrap (descriptor : Descriptor) : bool * bool * Descriptor :=
  match descriptor with
  | SHDescriptor (WSHDescriptor d) => (true, true, d)
  | SHDescriptor d => (true, false, d)
  | WSHDescriptor (WSHDescriptor d) => (false, true, d)
  | WSHDescriptor d => (false, true, d)
  | d => (false, false, d)
  end.

Definition is_wpkh (d : Descriptor) : bool := match d with WPKHDescriptor _ => true | _ => false end.
Definition is_tr (d : Descriptor) : bool := match d with TRDescriptor _ _ _ => true | _ => false end.

(** The only key of [pkh], [wpkh] and the internal key of [tr]. *)
Definition single_key (d : Descriptor) : option PubkeyProvider :=
  match d with PKHDescriptor k | WPKHDescriptor k | TRDescriptor k _ _ => Some k | _ => None end.

(** The comparisons stop at the first form that is equal. *)
Definition same_key (key xpub : pystr) : result bool :=
  if bool_decide (key = xpub) then Ok true
  else
    h ← xpub_to_pub_hex xpub;
    if bool_decide (key = h) then Ok true
    else
      x ← xpub_to_xonly_pub_hex xpub;
      Ok (bool_decide (key = x)).

Definition display_single (is_sh : bool) (descriptor : Descriptor) (pubkey : PubkeyProvider) : M displayed :=
  origin ← liftS (of_option BadArgumentError (pp_origin pubkey));
  master_fpr ← call (op_master_fingerprint ops);
  if bool_decide (fingerprint origin ≠ master_fpr) then raise BadArgumentError
  else
    k ← call (get_pubkey_at_path ops (get_derivation_path origin));
    xpub ← liftS (ExtendedKey_to_string k);
    same ← liftS (same_key (pp_pubkey pubkey) xpub);
    if negb same then raise BadArgumentError
    else
      let addr_type := if is_sh && is_wpkh descriptor then SH_WIT
                       else if negb is_sh && is_wpkh descriptor then WIT
                       else if is_tr descriptor then TAP else LEGACY in
      path ← liftS (get_full_derivation_path 0 0 pubkey);
      address ← call (display_singlesig_address ops path addr_type);
      mret (ShownAddress address).

Definition display_descriptor (desc : pystr) : M displayed :=
  descriptor ← liftS (parse_descriptor desc);
  let '(is_sh, is_wsh, descriptor) := unwrap descriptor in
  match descriptor with
  | MultisigDescriptor _ _ _ =>
      if is_sh || is_wsh then
        let addr_type := if is_sh && is_wsh then SH_WIT else if negb is_sh && is_wsh then WIT else LEGACY in
        address ← call (display_multisig_address ops addr_type descriptor);
        mret (ShownAddress address)
      else raise BadArgumentError
  | _ =>
      match single_key descriptor with
      | Some pubkey => display_single is_sh descriptor pubkey
      | None => raise BadArgumentError
      end
  end.

Definition displayaddress (path desc : option pystr) (addr_type : AddressType) (registration : option pystr) (index multipath_index : option Z) : M displayed :=
  if negb (bool_decide (index = None)) || negb (bool_decide (registration = None)) || negb (bool_decide (multipath_index = None)) then
    display_policy registration index multipath_index
  else
    match path, desc with
    | Some path, _ => a ← call (display_singlesig_address ops path addr_type); mret (ShownAddress a)
    | None, Some desc => display_descriptor desc
    | None, None => raise BadArgumentError
    end.

(** ** Managing the device *)

Definition setup_device (label backup_passphrase : pystr) : M bool := call (op_setup_device ops label backup_passphrase).
Definition wipe_device : M bool := call (op_wipe_device ops).
Definition restore_device (label : pystr) (word_count : Z) : M bool := call (op_restore_device ops label word_count).
Definition backup_device (label backup_passphrase : pystr) : M bool := call (op_backup_device ops label backup_passphrase).
Definition prompt_pin : M bool := call (op_prompt_pin ops).
Definition send_pin (pin : pystr) : M bool := call (op_send_pin ops pin).
Definition toggle_passphrase : M bool := call (op_toggle_passphrase ops).
End commands.

(** * Lemmas *)

(** What a device promises: its operations keep [I], and the keys it gives and
    its fingerprint are always those of [keys] and [master]. *)
Class DeviceLaws {D : Type} (ops : client_ops D) (I : D → Prop) (keys : pystr → ExtendedKey → Prop) (master : bytes → Prop) := {
  dl_pubkey path : ensures I (get_pubkey_at_path ops path) (keys path);
  dl_fingerprint : ensures I (op_master_fingerprint ops) master;
  dl_sign_tx psbt rds : ensures I (sign_tx ops psbt rds) (λ _, True);
  dl_sign_message m p : ensures I (op_sign_message ops m p) (λ _, True);
  dl_singlesig p t : ensures I (display_singlesig_address ops p t) (λ _, True);
  dl_multisig t d : ensures I (display_multisig_address ops t d) (λ _, True);
  dl_policy r i m : ensures I (display_bip388_policy_address ops r i m) (λ _, True);
  dl_taproot : ensures I (can_sign_taproot ops) (λ _, True);
  dl_register n d : ensures I (op_register_descriptor ops n d) (λ _, True);
  dl_setup l p : ensures I (op_setup_device ops l p) (λ _, True);
  dl_wipe : ensures I (op_wipe_device ops) (λ _, True);
  dl_restore l n : ensures I (op_restore_device ops l n) (λ _, True);
  dl_backup l p : ensures I (op_backup_device ops l p) (λ _, True);
  dl_prompt : ensures I (op_prompt_pin ops) (λ _, True);
  dl_send_pin p : ensures I (op_send_pin ops p) (λ _, True);
  dl_toggle : ensures I (op_toggle_passphrase ops) (λ _, True);
}.
#[export] Hint Resolve dl_pubkey dl_fingerprint dl_sign_tx dl_sign_message dl_singlesig dl_multisig dl_policy dl_taproot dl_register
  dl_setup dl_wipe dl_restore dl_backup dl_prompt dl_send_pin dl_toggle : ensures.

Section specification.
Context `{Hashes}.

(** The serialized key at a path. *)
Definition key_string (keys : pystr → ExtendedKey → Prop) (path s : pystr) : Prop := ∃ k, keys path k ∧ ExtendedKey_to_string k = Ok s.

(** The cache only holds keys of the device, under their paths. *)
Definition cache_ok {D} (I : D → Prop) (keys : pystr → ExtendedKey → Prop) (c : HardwareWalletClient D) : Prop :=
  I (client_device c) ∧ ∀ path s, dict_get path (xpub_cache c) = Some s → key_string keys path s.

(** The form of descriptor for a type of address. *)
Definition type_form (t : AddressType) (k : PubkeyProvider) : Descriptor :=
  match t with
  | LEGACY => PKHDescriptor k
  | SH_WIT => SHDescriptor (WPKHDescriptor k)
  | WIT => WPKHDescriptor k
  | TAP => TRDescriptor k [] []
  end.

(** A path cut behind its last hardened index, or behind its first index when none is hardened. *)
Definition cut_path (parsed base suffix : list Z) : Prop :=
  parsed = base ++ suffix ∧ Forall (λ i, is_hardened i = false) suffix ∧
  ∃ i, last base = Some i ∧ (is_hardened i = true ∨ base = [i]).

(** The descriptor of a device's key: its origin is the fingerprint and the
    base of the path, its key the device's key there, and the rest of the path
    is left to be derived, with a wildcard behind it. *)
Definition device_descriptor (keys : pystr → ExtendedKey → Prop) (fpr : bytes) (parsed : list Z) (t : AddressType) (d : Descriptor) : Prop :=
  ∃ base suffix k, cut_path parsed base suffix ∧ d = type_form t k ∧
    pp_origin k = Some {| fingerprint := fpr; path := base |} ∧
    key_string keys (get_derivation_path {| fingerprint := fpr; path := base |}) (pp_pubkey k) ∧
    PubkeyProvider_init (pp_origin k) (pp_pubkey k) (Some (map (λ i, [i]) suffix)) 0 true = Ok k.

(** An entry of [getkeypool] for a type of address and a chain of addresses. *)
Definition import_for (keys : pystr → ExtendedKey → Prop) (master : bytes → Prop) (chain : Chain) (path : option pystr) (range : Z * Z)
    (keypool : bool) (account : Z) (which : AddressType * bool) (i : import) : Prop :=
  import_range i = range ∧ import_internal i = which.2 ∧ import_keypool i = keypool ∧
  ∃ fpr parsed d, master fpr ∧ descriptor_path chain path which.2 which.1 account = Ok parsed ∧
    device_descriptor keys fpr parsed which.1 d ∧ to_string $"h" d = Ok (import_desc i).

(** The entries, in order: receive and change addresses of every type unless
    the caller says which. *)
Definition keypool_entries (path : option pystr) (internal : bool) (types : list AddressType) : list (AddressType * bool) :=
  if bool_decide (path = None) && negb internal then concat (map (λ t, [(t, false); (t, true)]) types)
  else map (λ t, (t, internal)) types.

(** The scripts with one key that are not of the four types, and of which the device shows the address of
    another script: of the key hash alone, and of the internal key alone. *)
Inductive other_form : Descriptor → AddressType → PubkeyProvider → Prop :=
  | other_tree k subs depths : subs ≠ [] → other_form (TRDescriptor k subs depths) TAP k
  | other_sh_pkh k : other_form (SHDescriptor (PKHDescriptor k)) LEGACY k
  | other_wsh_pkh k : other_form (WSHDescriptor (PKHDescriptor k)) LEGACY k
  | other_sh_wsh_pkh k : other_form (SHDescriptor (WSHDescriptor (PKHDescriptor k))) LEGACY k.

(** What [displayaddress] takes a descriptor of one key for. *)
Definition shown_as (d : Descriptor) (t : AddressType) (k : PubkeyProvider) : Prop := d = type_form t k ∨ other_form d t k.

Definition multisig_form (t : AddressType) (multisig : Descriptor) : option Descriptor :=
  match t with
  | LEGACY => Some (SHDescriptor multisig)
  | WIT => Some (WSHDescriptor multisig)
  | SH_WIT => Some (SHDescriptor (WSHDescriptor multisig))
  | TAP => None
  end.

(** The key of the descriptor is the extended key, its public key or the x-only one. *)
Definition key_matches (key xpub : pystr) : Prop :=
  key = xpub ∨ xpub_to_pub_hex xpub = Ok key ∨ xpub_to_xonly_pub_hex xpub = Ok key.

End specification.

Lemma last_hardened_cut (pre post : list Z) (n : Z) (i : option Z) : n = len pre - 1 →
  Forall (λ j, is_hardened j = false) post → (post = [] → pre ≠ []) → (post ≠ [] → i = Some (n + 1)) →
  ∃ m, last_hardened (rev pre) n i = Some m ∧ ∃ base suffix, take (Z.to_nat (m + 1)) (pre ++ post) = base ∧
    drop (Z.to_nat (m + 1)) (pre ++ post) = suffix ∧ cut_path (pre ++ post) base suffix.
Proof.
  revert post n i. induction pre as [|x pre IH] using rev_ind; intros post n i Hn Hpost Hne Hi.
  - cbn [rev last_hardened]. destruct post as [|y post]; [by destruct (Hne eq_refl)|]. rewrite (Hi ltac:(done)). eexists. split; [done|].
    change (len []) with 0 in Hn. replace (Z.to_nat (n + 1 + 1)) with 1%nat by lia. eexists _, _. split; [done|]. split; [done|].
    inversion Hpost. split; [done|]. split; [done|]. exists y. cbn [take app]. auto.
  - rewrite rev_app_distr. cbn [rev app last_hardened]. assert (n = len pre) as Hn' by (rewrite Hn; unfold len; rewrite length_app; simpl; lia).
    destruct (is_hardened x) eqn:Ex.
    + eexists. split; [done|]. assert (Z.to_nat (n + 1) = length (pre ++ [x])) as -> by (unfold len in Hn'; rewrite length_app; simpl; lia).
      rewrite take_app_length, drop_app_length. eexists _, _. split; [done|]. split; [done|]. split; [done|]. split; [done|].
      exists x. rewrite last_snoc. auto.
    + rewrite <- app_assoc. cbn [app]. apply IH; [lia|by constructor|done|]. intros _. f_equal. lia.
Qed.

Section lemmas.
Context {D : Type} {ops : client_ops D} {I : D → Prop} {keys : pystr → ExtendedKey → Prop} {master : bytes → Prop}.
Context `{Laws : !DeviceLaws ops I keys master} (chain : Chain).
Context `{Hashes} `{SetOrder}.
Notation J := (cache_ok I keys).

Lemma ensures_call {A} (m : state D A) (Q : A → Prop) : ensures I m Q → ensures J (call m) Q.
Proof.
  intros Hm c r c' [Hd Hc] E. unfold call, zoom in E. destruct (m (client_device c)) as [r1 d1] eqn:Em. injection E as <- <-.
  destruct (Hm _ _ _ Hd Em) as [Hd1 Hq]. by split.
Qed.
Hint Resolve ensures_call : ensures.

Lemma ensures_cached_xpub p : ensures J (cached_xpub ops p) (key_string keys p).
Proof.
  unfold cached_xpub. intros c r c' Hc. erewrite state_bind_eval; [|reflexivity].
  assert (∀ c1 r1 c2, J c1 → (is_Some (dict_get p (xpub_cache c1))) →
    (c ← get; mret (default [] (dict_get p (xpub_cache c)))) c1 = (r1, c2) → J c2 ∧ ∀ a, r1 = Ok a → key_string keys p a) as Hend.
  { intros c1 r1 c2 H1 [s Hs]. erewrite state_bind_eval; [|reflexivity]. intros [= <- <-]. split; [done|]. intros a [= <-].
    rewrite Hs. by apply H1. }
  destruct (dict_get p (xpub_cache c)) as [s|] eqn:Es.
  { erewrite state_bind_eval; [|reflexivity]. apply Hend; [done|by rewrite Es]. }
  destruct (call (get_pubkey_at_path ops p) c) as [[k|e] c1] eqn:Ek;
    destruct (ensures_call _ _ (dl_pubkey p) _ _ _ Hc Ek) as [H1 Hk].
  - destruct (ExtendedKey_to_string k) as [s|e] eqn:Ets.
    + erewrite state_bind_eval; [|rewrite (state_bind_eval _ _ _ _ _ Ek); erewrite state_bind_eval; [reflexivity|by unfold liftS; rewrite Ets]].
      apply Hend; [|cbn [xpub_cache]; by rewrite dict_get_set, decide_True]. destruct H1 as [Hd Hcache]. split; [done|].
      intros path s'. cbn [xpub_cache]. rewrite dict_get_set. case_decide as Hp; [subst path; intros [= <-]; exists k; split; [by apply Hk|exact Ets]|apply Hcache].
    + erewrite state_bind_err; [|rewrite (state_bind_eval _ _ _ _ _ Ek); erewrite state_bind_err; [reflexivity|by unfold liftS; rewrite Ets]].
      intros [= <- <-]. by split.
  - erewrite state_bind_err; [|by rewrite (state_bind_err _ _ _ _ _ Ek)]. intros [= <- <-]. by split.
Qed.
Hint Resolve ensures_cached_xpub : ensures.

Lemma ensures_make_descriptor k t : ensures J (make_descriptor ops k t) (λ d, d = type_form t k).
Proof. unfold make_descriptor. destruct t; repeat (ensures_step || done). Qed.
Hint Resolve ensures_make_descriptor : ensures.

Lemma init_fields o s p i r k : PubkeyProvider_init o s p i r = Ok k →
  pp_origin k = o ∧ pp_pubkey k = s ∧ pp_deriv_path k = p ∧ pp_expr_index k = i ∧ pp_ranged k = r.
Proof. unfold PubkeyProvider_init. intros H1. by apply bind_ok in H1 as (x & _ & [= <-]). Qed.

Lemma ensures_getdescriptor fpr path internal t account :
  ensures J (getdescriptor ops chain fpr path internal t account)
    (λ d, ∃ parsed, descriptor_path chain path internal t account = Ok parsed ∧ device_descriptor keys fpr parsed t d).
Proof.
  unfold getdescriptor. eapply ensures_bind; [apply ensures_lift|].
  intros parsed Hparsed. destruct (decide (parsed = [])) as [->|Hne].
  { eapply ensures_bind; [apply ensures_lift|discriminate]. }
  destruct (last_hardened_cut parsed [] (len parsed - 1) None eq_refl) as (m & -> & base & suffix & Hb & Hs & Hcut); [done..|].
  rewrite app_nil_r in Hb, Hs, Hcut. eapply ensures_bind; [apply ensures_lift|].
  intros i [= <-]. rewrite Hb, Hs. eapply ensures_bind; [apply ensures_cached_xpub|]. intros xpub Hx.
  eapply ensures_bind; [apply ensures_lift|].
  intros k Hk. eapply ensures_weaken; [apply ensures_make_descriptor|]. intros d ->. exists parsed. split; [done|].
  destruct (init_fields _ _ _ _ _ _ Hk) as (Ho & Hp & _). exists base, suffix, k. split; [done|]. split; [done|]. split; [done|].
  rewrite Ho, Hp. split; [exact Hx|exact Hk].
Qed.
Hint Resolve ensures_getdescriptor : ensures.
(** An empty path is printed as no path. *)
Definition drop_empty_path (k : PubkeyProvider) : PubkeyProvider :=
  match pp_deriv_path k with
  | Some [] => {| pp_origin := pp_origin k; pp_pubkey := pp_pubkey k; pp_deriv_path := None; pp_expr_index := pp_expr_index k;
                  pp_ranged := pp_ranged k; pp_multipath_len := pp_multipath_len k; pp_extkey := pp_extkey k |}
  | _ => k
  end.

Lemma type_form_wf t k : pp_wf k → pp_expr_index k = 0 → desc_wf (type_form t k).
Proof.
  intros Hk Hi. split; [|split].
  - destruct t; cbn [type_form desc_valid]; auto. split; [done|]. split; [constructor|]. split; [|auto].
    exists (pp_multipath_len k). by repeat constructor.
  - destruct t; cbn; (constructor; [done|constructor]).
  - destruct t; unfold numbered; cbn [type_form get_pubkey_providers desc_pubkeys map concat]; by rewrite Hi.
Qed.

Lemma drop_empty_string t k hc : to_string hc (type_form t (drop_empty_path k)) = to_string hc (type_form t k).
Proof.
  assert (PubkeyProvider_to_string hc (drop_empty_path k) = PubkeyProvider_to_string hc k) as E.
  { unfold PubkeyProvider_to_string, drop_empty_path, pp_path_string, pp_origin_string. destruct (pp_deriv_path k) as [[|mp r]|] eqn:Ed; cbn; by rewrite ?Ed. }
  unfold to_string. destruct t; cbn [type_form to_string_no_checksum desc_pubkeys map desc_name]; by rewrite E.
Qed.

(** A descriptor of a device's key can be printed, and is parsed back. *)
Lemma device_descriptor_parses fpr parsed t d : device_descriptor keys fpr parsed t d → length fpr = 4%nat → Forall u32 parsed →
  ∃ s k, d = type_form t k ∧ to_string $"h" d = Ok s ∧ parse_descriptor s = Ok (type_form t (drop_empty_path k)).
Proof.
  intros (base & suffix & k & (-> & _ & _) & -> & Ho & _ & Hk) Hf Hu. apply Forall_app in Hu as [Hb Hs].
  destruct (init_fields _ _ _ _ _ _ Hk) as (_ & _ & Hd & Hi & Hr).
  assert (pp_wf (drop_empty_path k)) as Hw.
  { unfold drop_empty_path, pp_wf. rewrite Hd. destruct suffix as [|i suffix]; cbn [map pp_origin pp_pubkey pp_deriv_path pp_expr_index pp_ranged].
    - rewrite Ho, Hi, Hr. split; [|split; [by split|done]]. rewrite <- Ho. unfold PubkeyProvider_init in *.
      apply bind_ok in Hk as (x & -> & [= <-]). reflexivity.
    - rewrite Hd, Hi, Hr, Ho. split; [by rewrite <- Ho|]. split; [by split|]. split; [done|]. by apply singletons_wf. }
  assert (pp_expr_index (drop_empty_path k) = 0) as Hi0 by (unfold drop_empty_path; by destruct (pp_deriv_path k) as [[|? ?]|]).
  destruct (desc_strings_parse $"h" _ (or_introl eq_refl) (type_form_wf t _ Hw Hi0)) as (s & _ & _ & Es & Hp).
  exists (AddChecksum s), k. split; [done|]. split; [by rewrite <- Es, drop_empty_string|done].
Qed.
Lemma ensures_getkeypool_inner path start end_ internal keypool account t :
  ensures J (getkeypool_inner ops chain path start end_ internal keypool account t)
    (λ l, Forall2 (import_for keys master chain path (start, end_) keypool account) [(t, internal)] l).
Proof.
  unfold getkeypool_inner. eapply ensures_bind; [apply ensures_call, dl_fingerprint|]. intros fpr Hf.
  eapply ensures_bind; [apply ensures_getdescriptor|]. intros d (parsed & Hp & Hd).
  eapply ensures_bind; [apply ensures_lift|]. intros s Hs. apply ensures_ret. repeat constructor. by exists fpr, parsed, d.
Qed.

Lemma ensures_standard_chains types start end_ keypool account :
  ensures J (standard_chains ops chain types start end_ keypool account)
    (Forall2 (import_for keys master chain None (start, end_) keypool account) (keypool_entries None false types)).
Proof.
  induction types as [|t types IH]; cbn [standard_chains]; [apply ensures_ret; constructor|].
  eapply ensures_bind; [apply ensures_getkeypool_inner|]. intros l1 H1. eapply ensures_bind; [apply ensures_getkeypool_inner|]. intros l2 H2.
  eapply ensures_bind; [exact IH|]. intros l3 H3. apply ensures_ret.
  change (keypool_entries None false (t :: types)) with ([(t, false)] ++ [(t, true)] ++ keypool_entries None false types). by repeat apply Forall2_app.
Qed.

Lemma ensures_getkeypool path start end_ internal keypool account t all :
  ensures J (getkeypool ops chain path start end_ internal keypool account t all)
    (λ l, ∃ taproot : bool, (taproot = false → all = true ∨ t ≠ TAP) ∧
       Forall2 (import_for keys master chain path (start, end_) keypool account)
         (keypool_entries path internal (let types := if all then addrtype_all else [t] in if taproot then types else filter (λ t, t ≠ TAP) types)) l).
Proof.
  unfold getkeypool. eapply ensures_bind; [apply ensures_call, dl_taproot|]. intros tap _.
  destruct (negb all && negb tap && bool_decide (t = TAP)) eqn:Eu; [apply ensures_raise|].
  assert (tap = false → all = true ∨ t ≠ TAP) as Ht.
  { intros ->. destruct all; [by left|right]. simpl in Eu. by apply bool_decide_eq_false in Eu. }
  set (types := if tap then _ else _). unfold keypool_entries. destruct (bool_decide (path = None) && negb internal) eqn:Ep.
  - apply andb_true_iff in Ep as [->%bool_decide_eq_true _]. eapply ensures_weaken; [apply ensures_standard_chains|]. intros l Hl. by exists tap.
  - assert (∃ ts, types = ts) as [ts Ets] by eauto. rewrite Ets. destruct ts as [|t1 [|t2 ts]]; [apply ensures_raise| |apply ensures_raise].
    eapply ensures_weaken; [apply ensures_getkeypool_inner|]. intros l Hl. exists tap. split; [done|].
    cbv zeta. fold types. by rewrite Ets.
Qed.

Lemma ensures_if_available {A} (m : state _ A) Q : ensures J m Q → ensures J (if_available m) (λ o, ∀ a, o = Some a → Q a).
Proof.
  intros Hm c r c' Hc. unfold if_available. destruct (m c) as [[a|e] c1] eqn:Em; destruct (Hm _ _ _ Hc Em) as [H1 Ha].
  - intros [= <- <-]. split; [done|]. intros o [= <-] a' [= <-]. by apply Ha.
  - destruct e; intros [= <- <-]; (split; [done|]; intros o Ho; try discriminate). injection Ho as <-. discriminate.
Qed.

(** A descriptor that [getdescriptors] gives for an account. *)
Definition account_descriptor (internal : bool) (account : Z) (t : AddressType) (s : pystr) : Prop :=
  ∃ fpr parsed d, master fpr ∧ descriptor_path chain None internal t account = Ok parsed ∧
    device_descriptor keys fpr parsed t d ∧ to_string $"h" d = Ok s.

Lemma ensures_account_descriptors fpr internal types account : master fpr →
  ensures J (account_descriptors ops chain fpr internal types account)
    (λ l, ∃ ts, ts `sublist_of` types ∧ Forall2 (account_descriptor internal account) ts l).
Proof.
  intros Hf. induction types as [|t types IH]; cbn [account_descriptors]; [apply ensures_ret; exists []; auto using Forall2_nil|].
  eapply ensures_bind; [apply ensures_if_available, ensures_getdescriptor|]. intros [d|] Hd.
  - destruct (Hd d eq_refl) as (parsed & Hp & Hd'). eapply ensures_bind.
    { eapply ensures_bind; [apply ensures_lift|]. intros s Hs. apply ensures_ret with (Q := λ l, ∃ s, l = [s] ∧ to_string $"h" d = Ok s). eauto. }
    intros l1 (s & -> & Hs). eapply ensures_bind; [exact IH|]. intros l (ts & Hsub & Hl). apply ensures_ret. exists (t :: ts).
    split; [by constructor|]. constructor; [|done]. by exists fpr, parsed, d.
  - eapply ensures_bind; [apply ensures_ret with (Q := λ l, l = []); done|]. intros l1 ->. eapply ensures_bind; [exact IH|].
    intros l (ts & Hsub & Hl). apply ensures_ret. exists ts. split; [by constructor|done].
Qed.

Lemma ensures_getdescriptors account :
  ensures J (getdescriptors ops chain account)
    (λ r, ∃ ts1 ts2, ts1 `sublist_of` addrtype_all ∧ ts2 `sublist_of` addrtype_all ∧
      Forall2 (account_descriptor false account) ts1 r.1 ∧ Forall2 (account_descriptor true account) ts2 r.2).
Proof.
  unfold getdescriptors. eapply ensures_bind; [apply ensures_call, dl_fingerprint|]. intros fpr Hf.
  eapply ensures_bind; [by apply ensures_account_descriptors|]. intros l1 (ts1 & Hs1 & H1).
  eapply ensures_bind; [by apply ensures_account_descriptors|]. intros l2 (ts2 & Hs2 & H2). apply ensures_ret. by exists ts1, ts2.
Qed.
Lemma same_key_true key xpub : same_key key xpub = Ok true → key_matches key xpub.
Proof.
  unfold same_key, key_matches. case_bool_decide; [auto|]. intros (h & Eh & E)%bind_ok. revert E. case_bool_decide as Hh; [subst; auto|].
  intros (x & Ex & [= ->%bool_decide_eq_true])%bind_ok. auto.
Qed.

(** What is known of an address that [display_single] returns. *)
Definition shown_single (t : AddressType) (k : PubkeyProvider) (r : displayed) : Prop :=
  ∃ o xpub path a d d', pp_origin k = Some o ∧ master (fingerprint o) ∧ key_string keys (get_derivation_path o) xpub ∧
    key_matches (pp_pubkey k) xpub ∧ get_full_derivation_path 0 0 k = Ok path ∧
    I d ∧ display_singlesig_address ops path t d = (Ok a, d') ∧ r = ShownAddress a.

Definition single_type (is_sh : bool) (d : Descriptor) : AddressType :=
  if is_sh && is_wpkh d then SH_WIT else if negb is_sh && is_wpkh d then WIT else if is_tr d then TAP else LEGACY.

Lemma ensures_display_single is_sh d k : ensures J (display_single ops is_sh d k) (shown_single (single_type is_sh d) k).
Proof.
  unfold display_single. eapply ensures_bind; [apply ensures_lift|]. intros o Ho. destruct (pp_origin k) as [o'|] eqn:Ek; [|discriminate].
  injection Ho as ->. eapply ensures_bind; [apply ensures_call, dl_fingerprint|]. intros fpr Hf.
  case_bool_decide as Hfo; [apply ensures_raise|]. subst fpr.
  eapply ensures_bind; [apply ensures_call, dl_pubkey|]. intros key Hkey. eapply ensures_bind; [apply ensures_lift|]. intros xpub Hx.
  eapply ensures_bind; [apply ensures_lift|]. intros [|] Hs; [|apply ensures_raise]. cbn [negb]. cbv zeta.
  eapply ensures_bind; [apply ensures_lift|]. intros path Hp.
  eapply ensures_bind; [apply ensures_call, ensures_run, dl_singlesig|]. intros a (_ & dv & dv' & Hi & Ea). apply ensures_ret.
  exists o, xpub, path, a, dv, dv'. split; [done|]. split; [done|]. split; [by exists key|]. split; [by apply same_key_true|]. done.
Qed.

Lemma unwrap_single d is_sh is_wsh inner k : desc_valid TOP d → unwrap d = (is_sh, is_wsh, inner) → single_key inner = Some k →
  shown_as d (single_type is_sh inner) k.
Proof.
  intros Hv Hu Hk. unfold shown_as. destruct d as [| | | |d|d|k' subs depths]; cbn [unwrap] in Hu; try (injection Hu as <- <- <-; injection Hk as ->).
  - by injection Hu as <- <- <-.
  - by left.
  - by left.
  - by injection Hu as <- <- <-.
  - destruct Hv as [_ Hv]. destruct d as [| | | |d|d|]; injection Hu as <- <- <-; try discriminate; try (injection Hk as ->).
    + right. apply other_sh_pkh.
    + by left.
    + destruct Hv as [_ Hv]. destruct d; try discriminate; injection Hk as ->; [right; apply other_sh_wsh_pkh|by destruct Hv|by destruct Hv].
    + by destruct Hv.
  - destruct Hv as [_ Hv]. destruct d as [| | | |d|d|]; injection Hu as <- <- <-; try discriminate; try (injection Hk as ->).
    + right. apply other_wsh_pkh.
    + by destruct Hv.
    + by destruct Hv as [[?|?] _].
    + by destruct Hv.
  - destruct (decide (subs = [])) as [->|Hs]; [left|right; by apply other_tree]. destruct Hv as (_ & _ & _ & [[_ ->]|(t & Ht & _)]); [done|].
    destruct (leaves_cons t) as (x & xs & Hx). by rewrite Ht in Hx.
Qed.
(** What is known of an address of a multisig script. *)
Definition shown_multisig (d : Descriptor) (r : displayed) : Prop :=
  ∃ ks thresh sorted t a dev dev', multisig_form t (MultisigDescriptor ks thresh sorted) = Some d ∧ I dev ∧
    display_multisig_address ops t (MultisigDescriptor ks thresh sorted) dev = (Ok a, dev') ∧ r = ShownAddress a.

Lemma unwrap_multisig d is_sh is_wsh ks thresh sorted : desc_valid TOP d → unwrap d = (is_sh, is_wsh, MultisigDescriptor ks thresh sorted) →
  is_sh || is_wsh = true →
  multisig_form (if is_sh && is_wsh then SH_WIT else if negb is_sh && is_wsh then WIT else LEGACY) (MultisigDescriptor ks thresh sorted) = Some d.
Proof.
  intros Hv Hu Hw. destruct d as [| | | |d|d|]; cbn [unwrap] in Hu; try (by injection Hu as <- <-).
  - destruct d; try (by injection Hu as <- <- Hu). + injection Hu as <- <- -> -> ->. done. + by injection Hu as <- <- ->.
  - destruct Hv as [_ Hv]. destruct d; try (by injection Hu as <- <- Hu); [injection Hu as <- <- -> -> ->; done|by destruct Hv as [[?|?] _]].
Qed.

Lemma ensures_display_descriptor desc : ensures J (display_descriptor ops desc)
  (λ r, ∃ d, parse_descriptor desc = Ok d ∧ (shown_multisig d r ∨ ∃ t k, shown_as d t k ∧ shown_single t k r)).
Proof.
  unfold display_descriptor. eapply ensures_bind; [apply ensures_lift|]. intros d Hd.
  pose proof (proj1 (parse_descriptor_ok _ _ Hd)) as Hv. destruct (unwrap d) as [[is_sh is_wsh] inner] eqn:Eu.
  assert (∀ k, single_key inner = Some k → ensures J (display_single ops is_sh inner k)
    (λ r, ∃ d, parse_descriptor desc = Ok d ∧ (shown_multisig d r ∨ ∃ t k, shown_as d t k ∧ shown_single t k r))) as Hsingle.
  { intros k Hk. eapply ensures_weaken; [apply ensures_display_single|]. intros r Hr. exists d. split; [done|]. right.
    eexists _, _. split; [by eapply unwrap_single|exact Hr]. }
  destruct inner as [k|k|k|ks thresh sorted|d'|d'|k subs depths]; cbn [single_key] in *; try apply ensures_raise; try (by apply Hsingle).
  destruct (is_sh || is_wsh) eqn:Ew; [|apply ensures_raise]. cbv zeta.
  eapply ensures_bind; [apply ensures_call, ensures_run, dl_multisig|]. intros a (_ & dv & dv' & Hi & Ea). apply ensures_ret.
  exists d. split; [done|]. left. eexists ks, thresh, sorted, _, a, dv, dv'. split; [by apply (unwrap_multisig _ _ _ _ _ _ Hv Eu)|done].
Qed.
(** ** The other commands *)

Lemma ensures_getmasterxpub t account : ensures J (getmasterxpub ops chain t account) (λ _, True).
Proof. unfold getmasterxpub, get_master_xpub. repeat ensures_step. done. Qed.

Lemma ensures_getxpub path expert : ensures J (getxpub ops path expert) (λ _, True).
Proof. unfold getxpub. repeat ensures_step; done. Qed.

Lemma ensures_signmessage m p : ensures J (signmessage ops m p) (λ _, True).
Proof. apply ensures_call, dl_sign_message. Qed.

Lemma ensures_signtx psbt registrations : ensures J (signtx ops psbt registrations) (λ _, True).
Proof. unfold signtx. repeat ensures_step; done. Qed.

Lemma ensures_register_descriptor n d : ensures J (register_descriptor ops n d) (λ _, True).
Proof. unfold register_descriptor. repeat ensures_step; done. Qed.

Lemma ensures_display_policy r i m : ensures J (display_policy ops r i m) (λ _, True).
Proof.
  unfold display_policy. do 2 ensures_step. destruct (_ <? 0); [apply ensures_raise|].
  eapply ensures_bind with (P := λ _, True); [repeat ensures_step; done|]. intros m' _. repeat ensures_step; done.
Qed.

Lemma ensures_displayaddress path desc t r i m : ensures J (displayaddress ops path desc t r i m) (λ _, True).
Proof.
  unfold displayaddress. destruct (_ || _); [apply ensures_display_policy|]. destruct path; [repeat ensures_step; done|].
  destruct desc; [|apply ensures_raise]. eapply ensures_weaken; [apply ensures_display_descriptor|done].
Qed.
End lemmas.
#[export] Hint Resolve ensures_call ensures_getmasterxpub ensures_getxpub ensures_signmessage ensures_signtx ensures_register_descriptor
  ensures_displayaddress ensures_getkeypool ensures_getdescriptors : ensures.

(** A path without an index before the wildcard has no last hardened index: the
    loop variable is read unbound. *)
Lemma bare_wildcard_path {D} (ops : client_ops D) chain `{Hashes} fpr internal t account c :
  getdescriptor ops chain fpr (Some $"m/*") internal t account c = (Err NameError, c).
Proof. reflexivity. Qed.

(** * Properties *)

(** C25: the entries [getkeypool] returns are those that are asked for (receive
    and change addresses of each type the device supports, unless the caller
    names a path or a chain), each with a descriptor whose origin is the
    device's fingerprint and the path up to its last hardened index, whose key
    is the device's key at that path, also when it comes from the cache, and
    which leaves the rest of the path and a wildcard to be derived; its text is
    parsed back to it.  The cache keeps only keys of the device. *)
Theorem getkeypool_describes `{Hashes} {D : Type} (ops : client_ops D) (I : D → Prop) (keys : pystr → ExtendedKey → Prop) (master : bytes → Prop)
    (Laws : DeviceLaws ops I keys master) (Hmaster : ∀ f, master f → length f = 4%nat) (chain : Chain)
    (path : option pystr) (start end_ : Z) (internal keypool : bool) (account : Z) (t : AddressType) (all : bool)
    (c c' : HardwareWalletClient D) (l : list import) (Hc : cache_ok I keys c)
    (E : getkeypool ops chain path start end_ internal keypool account t all c = (Ok l, c')) :
  cache_ok I keys c' ∧
  ∃ taproot : bool, (taproot = false → all = true ∨ t ≠ TAP) ∧
    let types := if all then addrtype_all else [t] in
    Forall2 (λ which i, import_for keys master chain path (start, end_) keypool account which i ∧
        ∀ parsed, descriptor_path chain path which.2 which.1 account = Ok parsed → Forall u32 parsed →
        ∃ fpr k, master fpr ∧ device_descriptor keys fpr parsed which.1 (type_form which.1 k) ∧
          parse_descriptor (import_desc i) = Ok (type_form which.1 (drop_empty_path k)))
      (keypool_entries path internal (if taproot then types else filter (λ t, t ≠ TAP) types)) l.
Proof.
  destruct (ensures_getkeypool chain path start end_ internal keypool account t all _ _ _ Hc E) as [Hc' Hl].
  split; [exact Hc'|]. destruct (Hl l eq_refl) as (taproot & Ht & Hf). exists taproot. split; [done|]. cbv zeta.
  eapply Forall2_impl; [exact Hf|]. intros [t1 int] i Hi. split; [done|]. intros parsed Hp Hu. destruct Hi as (_ & _ & _ & fpr & p1 & d & Hfpr & Hp1 & Hd & Hs).
  cbn [fst snd] in *. rewrite Hp in Hp1. injection Hp1 as <-.
  destruct (device_descriptor_parses fpr parsed t1 d Hd (Hmaster _ Hfpr) Hu) as (s & k & -> & Es & Hparse).
  exists fpr, k. split; [done|]. split; [done|]. rewrite Hs in Es. by injection Es as ->.
Qed.

(** C26: an address that [displayaddress] returns for a descriptor is one the device showed.  Of a multisig
    script it is the one of the type of its wrappers, for the script as it was parsed; neither the fingerprint
    nor the keys of a multisig script are compared with the device's, that is left to the device.  Of
    [pkh], [wpkh], [sh(wpkh)] and [tr] of a single key it is the one of that type; the origin has the
    device's fingerprint, the key is the device's key at the origin's path, and the path is the origin's
    and then the key's own with index 0, for indices of 32 bits and unless a wildcard follows the key at once.
    The other descriptors that are answered, [pkh] in a wrapper and [tr] with scripts, are excluded: see
    [display_other_form]. *)
Theorem display_descriptor_sound `{Hashes} {D : Type} (ops : client_ops D) (I : D → Prop) (keys : pystr → ExtendedKey → Prop) (master : bytes → Prop)
    (Laws : DeviceLaws ops I keys master) (desc : pystr) (d : Descriptor) (c c' : HardwareWalletClient D) (r : displayed) (Hc : cache_ok I keys c)
    (Hd : parse_descriptor desc = Ok d) (Hform : ∀ t k, ¬ other_form d t k) (E : display_descriptor ops desc c = (Ok r, c')) :
  cache_ok I keys c' ∧ ∃ t a dev dev', I dev ∧ r = ShownAddress a ∧
    ((∃ ks thresh sorted, multisig_form t (MultisigDescriptor ks thresh sorted) = Some d ∧
        display_multisig_address ops t (MultisigDescriptor ks thresh sorted) dev = (Ok a, dev')) ∨
     (∃ k o xpub path, d = type_form t k ∧ display_singlesig_address ops path t dev = (Ok a, dev') ∧
        pp_origin k = Some o ∧ master (fingerprint o) ∧ key_string keys (get_derivation_path o) xpub ∧ key_matches (pp_pubkey k) xpub ∧
        (Forall u32 (own_path k) → (pp_ranged k = true → has_deriv_path k = true) → parse_path path = Ok (own_path k)))).
Proof.
  destruct (ensures_display_descriptor desc _ _ _ Hc E) as [Hc' Hr]. split; [exact Hc'|].
  destruct (Hr r eq_refl) as (d' & Hd' & Hs). rewrite Hd in Hd'. injection Hd' as <-. destruct Hs as [Hs|(t & k & [Hf|Ho] & Hs)].
  - destruct Hs as (ks & thresh & sorted & t & a & dev & dev' & Hf & Hi & Ha & ->). exists t, a, dev, dev'.
    split; [done|]. split; [done|]. left. by exists ks, thresh, sorted.
  - destruct Hs as (o & xpub & path & a & dev & dev' & Ho & Hm & Hx & Hk & Hp & Hi & Ha & ->). exists t, a, dev, dev'.
    split; [done|]. split; [done|]. right. exists k, o, xpub, path. split_and!; try done. intros Hu Hw. by eapply full_path_own.
  - by apply Hform in Ho.
Qed.

(** Of the other forms the device shows the address of the key alone: the one of the key hash in a wrapper is not
    the address of the script, nor is that of the internal key the one of the output with scripts. *)
Theorem display_other_form `{Hashes} {D : Type} (ops : client_ops D) (I : D → Prop) (keys : pystr → ExtendedKey → Prop) (master : bytes → Prop)
    (Laws : DeviceLaws ops I keys master) (desc : pystr) (d : Descriptor) (t : AddressType) (k : PubkeyProvider)
    (c c' : HardwareWalletClient D) (r : displayed) (Hc : cache_ok I keys c)
    (Hd : parse_descriptor desc = Ok d) (Hform : other_form d t k) (E : display_descriptor ops desc c = (Ok r, c')) :
  ∃ path a dev dev', get_full_derivation_path 0 0 k = Ok path ∧ display_singlesig_address ops path t dev = (Ok a, dev') ∧ r = ShownAddress a ∧ d ≠ type_form t k.
Proof.
  destruct (ensures_display_descriptor desc _ _ _ Hc E) as [_ Hr].
  destruct (Hr r eq_refl) as (d' & Hd' & Hs). rewrite Hd in Hd'. injection Hd' as <-. destruct Hs as [Hs|(t' & k' & Hf & Hs)].
  - destruct Hs as (ks & thresh & sorted & t' & a & dev & dev' & Hf & _). by destruct Hform; destruct t'.
  - destruct Hs as (o & xpub & path & a & dev & dev' & Ho & Hm & Hx & Hk & Hp & Hi & Ha & ->). exists path, a, dev, dev'.
    assert (k' = k ∧ t' = t) as [-> ->] by (destruct Hf as [Hf|Hf]; [by destruct Hform, t'; (try injection Hf as ->) | by destruct Hform; inversion Hf]).
    split_and!; try done. by destruct Hform; try done; intros [=].
Qed.

(** A device with the same key at every path, which remembers what it was asked. *)
Definition example_ops : client_ops (list pystr) :=
  let ask {A} (what : pystr) (a : A) : state (list pystr) A := λ d, (Ok a, what :: d) in
  {| get_pubkey_at_path p := ask ($"key " ++ p) example_xpub;
     op_master_fingerprint := ask $"fingerprint" (map chr [0xd3; 0x4d; 0xb3; 0x3f]);
     sign_tx p _ := mret p;
     op_sign_message m p := raise UnavailableActionError;
     display_singlesig_address p t := ask ($"show " ++ p) $"bc1q";
     display_multisig_address t d := ask $"multisig" $"3P";
     display_bip388_policy_address _ _ _ := raise NotImplementedError;
     can_sign_taproot := mret false;
     op_register_descriptor _ _ := raise UnavailableActionError;
     op_setup_device _ _ := raise UnavailableActionError;
     op_wipe_device := mret true;
     op_restore_device _ _ := raise UnavailableActionError;
     op_backup_device _ _ := raise UnavailableActionError;
     op_prompt_pin := raise UnavailableActionError;
     op_send_pin _ := raise UnavailableActionError;
     op_toggle_passphrase := raise UnavailableActionError;
     op_close := mret () |}.

Definition example_keys (path : pystr) (k : ExtendedKey) : Prop := k = example_xpub.
Definition example_master (f : bytes) : Prop := f = map chr [0xd3; 0x4d; 0xb3; 0x3f].

Lemma example_laws : DeviceLaws example_ops (λ _, True) example_keys example_master.
Proof. split; intros; intros s0 r0 s1 _ [= <- <-]; (split; [exact I|]); (intros a [= <-] || intros a [=]); reflexivity. Qed.

Lemma getkeypool_describes_witness :
  ∃ l c', getkeypool example_ops MAIN None 0 1000 false true 0 WIT false (mkClient [] []) = (Ok l, c') ∧
    cache_ok (λ _, True) example_keys c' ∧ length l = 2%nat ∧ length (client_device c') = 3%nat.
Proof.
  destruct (getkeypool example_ops MAIN None 0 1000 false true 0 WIT false (mkClient [] [])) as [r c'] eqn:E.
  destruct r as [l|e]; [|vm_compute in E; discriminate]. exists l, c'. split; [reflexivity|].
  destruct (getkeypool_describes example_ops (λ _, True) example_keys example_master example_laws
    ltac:(intros f ->; reflexivity) MAIN None 0 1000 false true 0 WIT false (mkClient [] []) c' l
    ltac:(split; [exact I|intros path s; discriminate]) E) as [Hc _].
  split; [exact Hc|]. vm_compute in E. injection E as <- <-. split; reflexivity.
Defined.

Definition example_display : pystr :=
  $"wpkh([d34db33f/84h/0h/0h]" ++ match ExtendedKey_to_string example_xpub with Ok s => s | Err _ => [] end ++ $"/0/*)".

Lemma display_descriptor_sound_witness :
  ∃ r c', display_descriptor example_ops example_display (mkClient [] []) = (Ok r, c') ∧
    cache_ok (λ _, True) example_keys c' ∧ hd [] (client_device c') = $"show m/84h/0h/0h/0/00" ∧
    ∃ d k, parse_descriptor example_display = Ok d ∧ d = type_form WIT k ∧ own_path k = [H_ 84; H_ 0; H_ 0; 0; 0].
Proof.
  destruct (display_descriptor example_ops example_display (mkClient [] [])) as [r c'] eqn:E.
  destruct r as [r|e]; [|vm_compute in E; discriminate]. exists r, c'. split; [reflexivity|].
  destruct (parse_descriptor example_display) as [d|e] eqn:Ed; [|vm_compute in Ed; discriminate].
  assert (∃ k, d = type_form WIT k ∧ own_path k = [H_ 84; H_ 0; H_ 0; 0; 0]) as (k & Ek & Eo)
    by (vm_compute in Ed; injection Ed as <-; eexists; split; [reflexivity|vm_compute; reflexivity]).
  destruct (display_descriptor_sound example_ops (λ _, True) example_keys example_master example_laws example_display d (mkClient [] []) c' r
    ltac:(split; [exact I|intros path s; discriminate]) Ed ltac:(intros t k'; rewrite Ek; intros H; inversion H) E) as [Hc _].
  split; [exact Hc|]. split; [vm_compute in E; injection E as <- <-; reflexivity|]. exists d, k. split; [reflexivity|]. by split.
Defined.
