(* ===== verification/PyJson.v ===== *)
(** * JSON values

    What [json.loads] returns and the dictionaries the commands return:
    [None], booleans, integers, strings, lists and dictionaries.  The text of
    a number that is not an integer is kept. *)

From S2P Require Import Prelude Bytes PyStd PyStr.

Inductive json :=
  | JNull
  | JBool (b : bool)
  | JInt (i : Z)
  | JFloat (text : pystr)
  | JStr (s : pystr)
  | JList (l : list json)
  | JDict (d : list (pystr * json)).

(** [v[key]] of a value that may not be a dictionary, and [key in v]. *)
Definition json_item (key : pystr) (v : json) : result json :=
  match v with
  | JDict d => of_option KeyError (dict_get key d)
  | _ => Err TypeError
  end.

Definition json_has (key : pystr) (v : json) : bool :=
  match v with JDict d => bool_decide (is_Some (dict_get key d)) | _ => false end.

Definition json_str (v : json) : result pystr := match v with JStr s => Ok s | _ => Err TypeError end.
Definition json_list (v : json) : result (list json) := match v with JList l => Ok l | _ => Err TypeError end.

(** ** [json.loads]

    The text is read from the left; every rule of the grammar reads at least
    one character before it calls itself, so the length of the text is fuel
    enough.  Malformed text raises a subclass of [ValueError]. *)

Definition json_space (c : byte) : bool := bool_decide (c ∈ [chr 32; chr 9; chr 10; chr 13]).
Fixpoint skip_space (s : pystr) : pystr := match s with c :: r => if json_space c then skip_space r else s | [] => [] end.

Definition digit (c : byte) : bool := (48 <=? ord c) && (ord c <=? 57).

(** The digits at the front of a text. *)
Fixpoint span_digits (s : pystr) : pystr * pystr :=
  match s with
  | c :: r => if digit c then let '(d, r) := span_digits r in (c :: d, r) else ([], s)
  | [] => ([], [])
  end.

Definition digits_value (d : pystr) : Z := foldl (λ n c, 10 * n + (ord c - 48)) 0 d.

(** The exponent, if there is a whole one. *)
Definition json_exponent (s : pystr) : pystr * pystr :=
  match s with
  | e :: r =>
      if bool_decide (e ∈ $"eE") then
        let '(sign, r') := match r with c :: r' => if bool_decide (c ∈ $"+-") then ([c], r') else ([], r) | [] => ([], []) end in
        let '(d, r'') := span_digits r' in
        match d with [] => ([], s) | _ => (e :: sign ++ d, r'') end
      else ([], s)
  | [] => ([], [])
  end.

Definition json_fraction (s : pystr) : pystr * pystr :=
  match s with
  | c :: r =>
      if bool_decide (c = chr 46) then let '(d, r') := span_digits r in match d with [] => ([], s) | _ => (c :: d, r') end
      else ([], s)
  | [] => ([], [])
  end.

(** A sign, a number without leading zeros, and a fraction and an exponent that
    make it a float. *)
Definition json_number (s : pystr) : result (json * pystr) :=
  let '(sign, r) := match s with c :: r => if bool_decide (c = chr 45) then ([c], r) else ([], s) | [] => ([], []) end in
  let '(d, r) := match r with
                 | c :: r' => if bool_decide (c = chr 48) then ([c], r') else span_digits r
                 | [] => ([], [])
                 end in
  match d with
  | [] => Err ValueError
  | _ =>
      let '(f, r) := json_fraction r in
      let '(e, r) := json_exponent r in
      match f ++ e with
      | [] => Ok (JInt (if bool_decide (sign = []) then digits_value d else - digits_value d), r)
      | t => Ok (JFloat (sign ++ d ++ t), r)
      end
  end.

Definition hex4 (s : pystr) : result (Z * pystr) :=
  match s with
  | a :: b :: c :: d :: r =>
      match unhexlify [a; b; c; d] with
      | Ok v => Ok (be_int v, r)
      | Err _ => Err ValueError
      end
  | _ => Err ValueError
  end.

(** The text of a string behind its opening quote. *)
Fixpoint json_string (fuel : nat) (s : pystr) : result (pystr * pystr) :=
  match fuel with
  | O => Err OutOfFuel
  | S fuel =>
      match s with
      | [] => Err ValueError
      | c :: r =>
          if bool_decide (c = chr 34) then Ok ([], r)
          else if bool_decide (c = chr 92) then
            match r with
            | [] => Err ValueError
            | e :: r =>
                '(x, r) ←
                  (if bool_decide (e ∈ [chr 34; chr 92; chr 47]) then Ok (e, r)
                   else if bool_decide (e = chr 98) then Ok (chr 8, r)
                   else if bool_decide (e = chr 102) then Ok (chr 12, r)
                   else if bool_decide (e = chr 110) then Ok (chr 10, r)
                   else if bool_decide (e = chr 114) then Ok (chr 13, r)
                   else if bool_decide (e = chr 116) then Ok (chr 9, r)
                   else if bool_decide (e = chr 117) then
                     '(n, r) ← hex4 r;
                     if n <? 256 then Ok (chr n, r) else Err WideText
                   else Err ValueError);
                '(t, r) ← json_string fuel r;
                Ok (x :: t, r)
            end
          else if ord c <? 32 then Err ValueError
          else
            '(t, r) ← json_string fuel r;
            Ok (c :: t, r)
      end
  end.

(** Whether the text begins with a word, and what follows it. *)
Definition after_word (w s : pystr) : option pystr := if bool_decide (take (length w) s = w) then Some (drop (length w) s) else None.

Fixpoint json_value (fuel : nat) (s : pystr) : result (json * pystr) :=
  match fuel with
  | O => Err OutOfFuel
  | S fuel =>
      match s with
      | [] => Err ValueError
      | c :: r =>
          if bool_decide (c = chr 34) then '(t, r) ← json_string (length r + 1) r; Ok (JStr t, r)
          else if bool_decide (c = chr 123) then
            match skip_space r with
            | [] => Err ValueError
            | c :: r' =>
                if bool_decide (c = chr 125) then Ok (JDict [], r')
                else '(d, r) ← json_members fuel (c :: r'); Ok (JDict (foldl (λ d kv, dict_set kv.1 kv.2 d) [] d), r)
            end
          else if bool_decide (c = chr 91) then
            match skip_space r with
            | [] => Err ValueError
            | c :: r' =>
                if bool_decide (c = chr 93) then Ok (JList [], r')
                else '(l, r) ← json_elements fuel (c :: r'); Ok (JList l, r)
            end
          else
            match after_word $"null" s, after_word $"true" s, after_word $"false" s with
            | Some r, _, _ => Ok (JNull, r)
            | _, Some r, _ => Ok (JBool true, r)
            | _, _, Some r => Ok (JBool false, r)
            | _, _, _ =>
                match after_word $"NaN" s, after_word $"Infinity" s, after_word $"-Infinity" s with
                | Some r, _, _ => Ok (JFloat $"NaN", r)
                | _, Some r, _ => Ok (JFloat $"Infinity", r)
                | _, _, Some r => Ok (JFloat $"-Infinity", r)
                | _, _, _ => json_number s
                end
            end
      end
  end
(** The elements of a list, from the first one on. *)
with json_elements (fuel : nat) (s : pystr) : result (list json * pystr) :=
  match fuel with
  | O => Err OutOfFuel
  | S fuel =>
      '(v, r) ← json_value fuel s;
      match skip_space r with
      | c :: r =>
          if bool_decide (c = chr 93) then Ok ([v], r)
          else if bool_decide (c = chr 44) then '(l, r) ← json_elements fuel (skip_space r); Ok (v :: l, r)
          else Err ValueError
      | [] => Err ValueError
      end
  end
(** The members of an object, from the first one on. *)
with json_members (fuel : nat) (s : pystr) : result (list (pystr * json) * pystr) :=
  match fuel with
  | O => Err OutOfFuel
  | S fuel =>
      match s with
      | q :: r =>
          if bool_decide (q = chr 34) then
            '(k, r) ← json_string (length r + 1) r;
            match skip_space r with
            | c :: r =>
                if bool_decide (c = chr 58) then
                  '(v, r) ← json_value fuel (skip_space r);
                  match skip_space r with
                  | c :: r =>
                      if bool_decide (c = chr 125) then Ok ([(k, v)], r)
                      else if bool_decide (c = chr 44) then '(d, r) ← json_members fuel (skip_space r); Ok ((k, v) :: d, r)
                      else Err ValueError
                  | [] => Err ValueError
                  end
                else Err ValueError
            | [] => Err ValueError
            end
          else Err ValueError
      | [] => Err ValueError
      end
  end.

Definition json_loads (s : pystr) : result json :=
  '(v, r) ← json_value (2 * length s + 2) (skip_space s);
  match skip_space r with [] => Ok v | _ => Err ValueError end.

Example json_loads_example :
  json_loads ($"{" ++ [chr 34] ++ $"sign" ++ [chr 34] ++ $": [1, -2.5e3, " ++ [chr 34; chr 92; chr 110; chr 34] ++ $", null]} ") =
    Ok (JDict [($"sign", JList [JInt 1; JFloat $"-2.5e3"; JStr [chr 10]; JNull])]).
Proof. vm_compute. reflexivity. Qed.

(** ** [json.dumps]: characters that are not printable ASCII are escaped *)

Definition hex4_of (n : Z) : pystr := hexlify [chr (n / 256); chr (n mod 256)].

Definition json_escape (c : byte) : pystr :=
  if bool_decide (c = chr 34) then [chr 92; chr 34]
  else if bool_decide (c = chr 92) then [chr 92; chr 92]
  else if bool_decide (c = chr 10) then [chr 92; chr 110]
  else if bool_decide (c = chr 13) then [chr 92; chr 114]
  else if bool_decide (c = chr 9) then [chr 92; chr 116]
  else if bool_decide (c = chr 12) then [chr 92; chr 102]
  else if bool_decide (c = chr 8) then [chr 92; chr 98]
  else if (ord c <? 32) || (126 <? ord c) then [chr 92; chr 117] ++ hex4_of (ord c)
  else [c].

Definition dumps_str (s : pystr) : pystr := [chr 34] ++ concat (map json_escape s) ++ [chr 34].

Definition join_comma (l : list pystr) : pystr :=
  match l with [] => [] | x :: l => x ++ concat (map (λ y, $", " ++ y) l) end.

Fixpoint json_dumps (v : json) : pystr :=
  match v with
  | JNull => $"null"
  | JBool b => if b then $"true" else $"false"
  | JInt i => str_int i
  | JFloat t => t
  | JStr s => dumps_str s
  | JList l => $"[" ++ join_comma (map json_dumps l) ++ $"]"
  | JDict d => $"{" ++ join_comma (map (λ kv, dumps_str kv.1 ++ $": " ++ json_dumps kv.2) d) ++ $"}"
  end.

(** What [for item in v] goes over. *)
Definition json_iter (v : json) : result (list json) :=
  match v with
  | JList l => Ok l
  | JStr s => Ok (map (λ c, JStr [c]) s)
  | JDict d => Ok (map (λ kv, JStr kv.1) d)
  | _ => Err TypeError
  end.

(** * The fuel of the parser is enough *)

Lemma skip_space_length s : (length (skip_space s) <= length s)%nat.
Proof. induction s as [|c s IH]; [done|]. cbn [skip_space]. destruct (json_space c); cbn [length]; lia. Qed.

Lemma span_digits_length s : (length (span_digits s).2 <= length s)%nat ∧ length s = (length (span_digits s).1 + length (span_digits s).2)%nat.
Proof.
  induction s as [|c s [IH1 IH2]]; [done|]. cbn [span_digits]. destruct (digit c); [|done]. destruct (span_digits s) as [d r]. cbn in *. lia.
Qed.

Lemma json_fraction_length s : (length (json_fraction s).2 <= length s)%nat.
Proof.
  unfold json_fraction. destruct s as [|c r]; [done|]. case_bool_decide; [|done]. pose proof (span_digits_length r) as [Hl _].
  destruct (span_digits r) as [[|d ds] r']; cbn in *; lia.
Qed.

Lemma json_exponent_length s : (length (json_exponent s).2 <= length s)%nat.
Proof.
  unfold json_exponent. destruct s as [|e r]; [done|]. case_bool_decide; [|done].
  set (sr := match r with c :: r' => _ | [] => _ end). assert (length sr.2 <= length r)%nat as Hs.
  { unfold sr. destruct r as [|c r']; [done|]. case_bool_decide; cbn; lia. }
  destruct sr as [sign r1]. pose proof (span_digits_length r1) as [Hl _]. destruct (span_digits r1) as [[|d ds] r']; cbn in *; lia.
Qed.

Lemma json_number_shorter s v r : json_number s = Ok (v, r) → (length r < length s)%nat.
Proof.
  unfold json_number. set (sr := match s with c :: r => _ | [] => _ end). assert (length sr.2 <= length s)%nat as Hs.
  { unfold sr. destruct s as [|c s']; [done|]. case_bool_decide; cbn; lia. }
  destruct sr as [sign r1]. set (dr := match r1 with c :: r' => _ | [] => _ end). assert (length r1 = length dr.1 + length dr.2)%nat as Hd.
  { unfold dr. destruct r1 as [|c r1]; [done|]. case_bool_decide; [done|]. apply span_digits_length. }
  destruct dr as [[|d ds] r2]; [discriminate|]. pose proof (json_fraction_length r2) as Hf. destruct (json_fraction r2) as [f r3].
  pose proof (json_exponent_length r3) as He. destruct (json_exponent r3) as [e r4]. cbn in *.
  destruct (f ++ e); intros [= _ <-]; lia.
Qed.

Lemma json_number_fuel s : json_number s ≠ Err OutOfFuel.
Proof.
  unfold json_number. destruct (match s with c :: r => _ | [] => _ end) as [sign r1]. destruct (match r1 with c :: r' => _ | [] => _ end) as [[|d ds] r2]; [done|].
  destruct (json_fraction r2) as [f r3]. destruct (json_exponent r3) as [e r4]. by destruct (f ++ e).
Qed.

Lemma hex4_shorter s n r : hex4 s = Ok (n, r) → (length r < length s)%nat.
Proof. unfold hex4. destruct s as [|a [|b [|c [|d s]]]]; try discriminate. destruct (unhexlify _); [|discriminate]. intros [= _ <-]. cbn. lia. Qed.

(** What follows an escape's letter. *)
Lemma json_string_shorter fuel s t r : json_string fuel s = Ok (t, r) → (length r < length s)%nat.
Proof.
  revert s t r. induction fuel as [|fuel IH]; intros s t r; [discriminate|]. cbn [json_string]. destruct s as [|c s]; [discriminate|].
  case_bool_decide; [intros [= _ <-]; cbn; lia|]. case_bool_decide.
  - destruct s as [|e s]; [discriminate|]. intros ([x r1] & Hx & H1)%bind_ok. apply bind_ok in H1 as ([t1 r2] & Ht & [= _ <-]).
    apply IH in Ht. assert (length r1 <= length s)%nat; [|cbn; lia]. revert Hx. repeat (case_bool_decide; [try (intros [= _ <-]; lia)|]); [|discriminate].
    intros ([n r3] & Hn & Hx)%bind_ok. apply hex4_shorter in Hn. destruct (n <? 256); [|discriminate]. injection Hx as _ <-. lia.
  - destruct (ord c <? 32); [discriminate|]. intros ([t1 r2] & Ht & [= _ <-])%bind_ok. apply IH in Ht. cbn. lia.
Qed.

Lemma json_string_fuel fuel s : (length s < fuel)%nat → json_string fuel s ≠ Err OutOfFuel.
Proof.
  revert s. induction fuel as [|fuel IH]; intros s Hf; [lia|]. cbn [json_string]. destruct s as [|c s]; [done|].
  case_bool_decide; [done|]. case_bool_decide.
  - destruct s as [|e s]; [done|]. destruct (if bool_decide (e ∈ _) then _ else _) as [[x r1]|ex] eqn:Ex.
    + cbn [mbind result_bind]. assert (length r1 <= length s)%nat as Hr.
      { revert Ex. repeat (case_bool_decide; [try (intros [= _ <-]; lia)|]); [|discriminate].
        intros ([n r3] & Hn & Hx)%bind_ok. apply hex4_shorter in Hn. destruct (n <? 256); [|discriminate]. injection Hx as _ <-. lia. }
      specialize (IH r1 ltac:(cbn in *; lia)). destruct (json_string fuel r1) as [[? ?]|]; [done|]. cbn. congruence.
    + cbn. intros [= ->]. revert Ex. repeat (case_bool_decide; [try done|]); [|done]. unfold hex4.
      destruct s as [|a [|b [|c' [|d s]]]]; try done. destruct (unhexlify _); [|done]. cbn. by destruct (_ <? 256).
  - destruct (ord c <? 32); [done|]. specialize (IH s ltac:(cbn in *; lia)). destruct (json_string fuel s) as [[? ?]|]; [done|]. cbn. congruence.
Qed.

Lemma after_word_shorter w s r : w ≠ [] → after_word w s = Some r → (length r < length s)%nat.
Proof.
  intros Hw. unfold after_word. case_bool_decide as E; [|done]. intros [= <-]. rewrite length_drop.
  assert (length (take (length w) s) = length w) as Hl by (by rewrite E). rewrite length_take in Hl. assert (length w ≠ 0%nat) by (by destruct w). lia.
Qed.

(** What the parser leaves is shorter than what it was given, and it does not run out of fuel. *)
Definition json_run {A} (f : nat → pystr → result (A * pystr)) (need : nat) (fuel : nat) : Prop :=
  (∀ s v r, f fuel s = Ok (v, r) → (length r < length s)%nat) ∧ ∀ s, (2 * length s + need <= fuel)%nat → f fuel s ≠ Err OutOfFuel.

Lemma bind_no_fuel {A B} (m : result A) (f : A → result B) : m ≠ Err OutOfFuel → (∀ a, m = Ok a → f a ≠ Err OutOfFuel) → m ≫= f ≠ Err OutOfFuel.
Proof. destruct m as [a|e]; cbn; [auto|congruence]. Qed.

Lemma json_value_step fuel : json_run json_elements 2 fuel → json_run json_members 2 fuel → json_run json_value 1 (S fuel).
Proof.
  intros [El Ef] [Ml Mf]. split.
  - intros s v r. cbn [json_value]. destruct s as [|c s]; [done|].
    case_bool_decide; [intros ([t r1] & Ht & [= _ <-])%bind_ok; apply json_string_shorter in Ht; cbn; lia|]. pose proof (skip_space_length s) as Hs.
    case_bool_decide; [|case_bool_decide].
    + destruct (skip_space s) as [|c' r']; [done|]. case_bool_decide; [intros [= _ <-]; cbn in *; lia|].
      intros ([t r1] & Ht & [= _ <-])%bind_ok. apply Ml in Ht. cbn in *. lia.
    + destruct (skip_space s) as [|c' r']; [done|]. case_bool_decide; [intros [= _ <-]; cbn in *; lia|].
      intros ([t r1] & Ht & [= _ <-])%bind_ok. apply El in Ht. cbn in *. lia.
    + repeat (match goal with |- match after_word ?w ?t with _ => _ end = _ → _ => destruct (after_word w t) as [r1|] eqn:? end);
        try (intros [= _ <-]); try (eapply after_word_shorter; [|eassumption]; done). apply json_number_shorter.
  - intros s Hf. cbn [json_value]. destruct s as [|c s]; [done|]. cbn [length] in Hf. pose proof (skip_space_length s) as Hs.
    case_bool_decide; [apply bind_no_fuel; [apply json_string_fuel; lia|by intros [t r] _]|].
    case_bool_decide; [|case_bool_decide].
    + destruct (skip_space s) as [|c' r']; [done|]. case_bool_decide; [done|]. apply bind_no_fuel; [apply Mf; cbn in *; lia|by intros [t r] _].
    + destruct (skip_space s) as [|c' r']; [done|]. case_bool_decide; [done|]. apply bind_no_fuel; [apply Ef; cbn in *; lia|by intros [t r] _].
    + repeat (match goal with |- match after_word ?w ?t with _ => _ end ≠ _ => destruct (after_word w t) as [r1|] eqn:? end); try done.
      apply json_number_fuel.
Qed.

Lemma json_elements_step fuel : json_run json_value 1 fuel → json_run json_elements 2 fuel → json_run json_elements 2 (S fuel).
Proof.
  intros [Vl Vf] [El Ef]. split.
  - intros s v r. cbn [json_elements]. intros ([v1 r1] & Hv & H)%bind_ok. apply Vl in Hv. pose proof (skip_space_length r1) as Hs. revert H.
    destruct (skip_space r1) as [|c r2]; [done|]. case_bool_decide; [intros [= _ <-]; cbn in *; lia|]. case_bool_decide; [|done].
    intros ([l r3] & Hl & [= _ <-])%bind_ok. apply El in Hl. pose proof (skip_space_length r2). cbn in *. lia.
  - intros s Hf. cbn [json_elements]. apply bind_no_fuel; [apply Vf; lia|]. intros [v1 r1] Hv. apply Vl in Hv. pose proof (skip_space_length r1) as Hs.
    destruct (skip_space r1) as [|c r2]; [done|]. case_bool_decide; [done|]. case_bool_decide; [|done].
    pose proof (skip_space_length r2). apply bind_no_fuel; [apply Ef; cbn in *; lia|by intros [l r3] _].
Qed.

Lemma json_members_step fuel : json_run json_value 1 fuel → json_run json_members 2 fuel → json_run json_members 2 (S fuel).
Proof.
  intros [Vl Vf] [Ml Mf]. split.
  - intros s v r. cbn [json_members]. destruct s as [|q s]; [done|]. case_bool_decide; [|done].
    intros ([k r1] & Hk & H1)%bind_ok. apply json_string_shorter in Hk. pose proof (skip_space_length r1) as Hs. revert H1.
    destruct (skip_space r1) as [|c r2]; [done|]. case_bool_decide; [|done].
    intros ([v1 r3] & Hv & H2)%bind_ok. apply Vl in Hv. pose proof (skip_space_length r2). pose proof (skip_space_length r3) as Hs3. revert H2.
    destruct (skip_space r3) as [|c' r4]; [done|]. case_bool_decide; [intros [= _ <-]; cbn in *; lia|]. case_bool_decide; [|done].
    intros ([l r5] & Hl & [= _ <-])%bind_ok. apply Ml in Hl. pose proof (skip_space_length r4). cbn in *. lia.
  - intros s Hf. cbn [json_members]. destruct s as [|q s]; [done|]. case_bool_decide; [|done]. cbn [length] in Hf.
    apply bind_no_fuel; [apply json_string_fuel; lia|]. intros [k r1] Hk. apply json_string_shorter in Hk. pose proof (skip_space_length r1) as Hs.
    destruct (skip_space r1) as [|c r2]; [done|]. case_bool_decide; [|done]. pose proof (skip_space_length r2).
    apply bind_no_fuel; [apply Vf; cbn in *; lia|]. intros [v1 r3] Hv. apply Vl in Hv. pose proof (skip_space_length r3) as Hs3.
    destruct (skip_space r3) as [|c' r4]; [done|]. case_bool_decide; [done|]. case_bool_decide; [|done]. pose proof (skip_space_length r4).
    apply bind_no_fuel; [apply Mf; cbn in *; lia|by intros [l r5] _].
Qed.

Lemma json_runs fuel : json_run json_value 1 fuel ∧ json_run json_elements 2 fuel ∧ json_run json_members 2 fuel.
Proof.
  induction fuel as [|fuel (IHv & IHe & IHm)].
  - repeat split; try done; intros s Hf; lia.
  - split; [by apply json_value_step|]. split; [by apply json_elements_step|by apply json_members_step].
Qed.

(** [json.loads] returns or raises on every text. *)
Lemma json_loads_fuel s : json_loads s ≠ Err OutOfFuel.
Proof.
  unfold json_loads. pose proof (skip_space_length s). apply bind_no_fuel; [apply json_runs; lia|]. intros [v r] _. by destruct (skip_space r).
Qed.
