(* ===== verification/Errors.v ===== *)
(** * [hwilib/errors.py]: errors and their codes *)

From S2P Require Import Prelude Bytes StateM PyStd PyJson.

Definition NO_DEVICE_TYPE : Z := -1.
Definition MISSING_ARGUMENTS : Z := -2.
Definition DEVICE_CONN_ERROR : Z := -3.
Definition UNKNOWN_DEVICE_TYPE : Z := -4.
Definition INVALID_TX : Z := -5.
Definition NO_PASSWORD : Z := -6.
Definition BAD_ARGUMENT : Z := -7.
Definition NOT_IMPLEMENTED : Z := -8.
Definition UNAVAILABLE_ACTION : Z := -9.
Definition DEVICE_ALREADY_INIT : Z := -10.
Definition DEVICE_ALREADY_UNLOCKED : Z := -11.
Definition DEVICE_NOT_READY : Z := -12.
Definition UNKNOWN_ERROR : Z := -13.
Definition ACTION_CANCELED : Z := -14.
Definition DEVICE_BUSY : Z := -15.
Definition NEED_TO_BE_ROOT : Z := -16.
Definition HELP_TEXT : Z := -17.
Definition DEVICE_NOT_INITIALIZED : Z := -18.
Definition INVALID_POLICY : Z := -19.

(** [HWWError.get_code], for the exceptions that are subclasses of [HWWError]. *)
Definition hww_code (e : pyexn) : option Z :=
  match e with
  | NoPasswordError => Some NO_PASSWORD
  | UnavailableActionError => Some UNAVAILABLE_ACTION
  | DeviceAlreadyInitError => Some DEVICE_ALREADY_INIT
  | DeviceNotReadyError => Some DEVICE_NOT_READY
  | DeviceAlreadyUnlockedError => Some DEVICE_ALREADY_UNLOCKED
  | UnknownDeviceError => Some UNKNOWN_DEVICE_TYPE
  | NotImplementedError => Some NOT_IMPLEMENTED
  | PSBTSerializationError => Some INVALID_TX
  | BadArgumentError => Some BAD_ARGUMENT
  | DeviceFailureError => Some UNKNOWN_ERROR
  | ActionCanceledError => Some ACTION_CANCELED
  | DeviceConnectionError => Some DEVICE_CONN_ERROR
  | DeviceBusyError => Some DEVICE_BUSY
  | NeedsRootError => Some NEED_TO_BE_ROOT
  | InvalidPolicyError => Some INVALID_POLICY
  | _ => None
  end.

Section errors.
(** The messages of exceptions. *)
Context (message : pyexn → pystr).

Definition error_code (code : Z) (e : pyexn) : Z := default code (hww_code e).

(** The two assignments of the handlers, which raise when [result] is no dictionary. *)
Definition set_error (msg : pystr) (code : Z) (e : pyexn) (v : json) : result json :=
  match v with
  | JDict d => Ok (JDict (dict_set $"code" (JInt (error_code code e)) (dict_set $"error" (JStr (msg ++ message e)) d)))
  | _ => Err TypeError
  end.

(** [with handle_errors(msg, result, code): m], where [m] does not change
    [result] otherwise: what the block returned, or [result] with the error. *)
Definition handle_errors {W A} (msg : pystr) (code : Z) (v : json) (m : state W A) : state W (json + A) := λ w,
  match m w with
  | (Ok a, w) => (Ok (inr a), w)
  | (Err e, w) => (v ← set_error msg code e v; Ok (inl v), w)
  end.
End errors.
