(* ===== verification/Discovery.v ===== *)
(** * [hwilib/commands.py]: finding a device

    The drivers are modules that are imported by name.  Each enumerates the
    devices it sees and opens a client for one of them; [find_device] opens the
    first device that matches and closes those that it does not return. *)

From S2P Require Import Prelude Bytes StateM PyStd PyStr PyJson Common.

(** What [enumerate] of a driver says of a device: the entries that are used
    here, and the whole dictionary. *)
Record device_info := mkInfo {
  dev_type : pystr;
  dev_model : pystr;
  dev_path : pystr;
  dev_fingerprint : option pystr;
  dev_dict : json;
}.

Record options := mkOptions {
  opt_password : option pystr;
  opt_expert : bool;
  opt_chain : Chain;
  opt_emulators : bool;
}.

(** A module under [devices/]: its [enumerate] and its classes. *)
Record driver (W C : Type) := {
  drv_enumerate : options → state W (list device_info);
  drv_class : pystr → option (options → pystr → state W C);
}.
Arguments drv_enumerate {W C}.
Arguments drv_class {W C}.

(** [str.capitalize] on ASCII. *)
Definition capitalize (s : pystr) : pystr :=
  match s with [] => [] | c :: s => upper_char c :: lower s end.

Definition all_devs : list pystr :=
  [$"trezor"; $"ledger"; $"keepkey"; $"digitalbitbox"; $"coldcard"; $"bitbox02"; $"jade"].

Section discovery.
Context {W C : Type} (import_module : pystr → state W (driver W C)).
Context (client_fingerprint : C → state W bytes) (client_close : C → state W ()).

(** [client] is only bound when the constructor has returned, which is the last
    statement of the [try] block: its handler has nothing to close. *)
Definition get_client (o : options) (device_type device_path : pystr) : state W C :=
  let t := default [] (head (split_char (chr 95) device_type)) in
  let class_name := capitalize t in
  let module := lower t in
  λ w,
    match (imported_dev ← import_module module;
           client_constructor ← liftS (of_option AttributeError (drv_class imported_dev (class_name ++ $"Client")));
           client_constructor o device_path) w with
    | (Err ImportError, w) => (Err UnknownDeviceError, w)
    | r => r
    end.

Fixpoint enumerate_modules (o : options) (modules : list pystr) (result : list device_info) : state W (list device_info) := λ w,
  match modules with
  | [] => (Ok result, w)
  | module :: modules =>
      match (imported_dev ← import_module module; drv_enumerate imported_dev o) w with
      | (Ok l, w) => enumerate_modules o modules (result ++ l) w
      | (Err ImportError, w) => enumerate_modules o modules result w
      | (Err e, w) => (Err e, w)
      end
  end.

Definition enumerate (o : options) : state W (list device_info) := enumerate_modules o all_devs [].

(** [except Exception]. *)
Definition catch_all {A} (m : state W A) (handler : state W A) : state W A := λ w,
  match m w with
  | (Err _, w) => handler w
  | r => r
  end.

Definition type_differs (device_type : option pystr) (d : device_info) : bool :=
  match device_type with
  | None => false
  | Some t => bool_decide (dev_type d ≠ t) && bool_decide (dev_model d ≠ t)
  end.

(** [if fingerprint:]. *)
Definition wants_fingerprint (fingerprint : option pystr) : option pystr :=
  match fingerprint with Some (c :: s) => Some (c :: s) | _ => None end.

(** The block after the client is opened: whether the client is returned. *)
Definition check_client (fingerprint : option pystr) (d : device_info) (client : C) : state W bool :=
  match wants_fingerprint fingerprint with
  | None => mret true
  | Some f =>
      master_fpr ← match dev_fingerprint d with
                   | Some s => mret s
                   | None => b ← client_fingerprint client; mret (hexlify b)
                   end;
      if bool_decide (master_fpr ≠ f) then (client_close client;; mret false) else mret true
  end.

Definition try_device (o : options) (fingerprint : option pystr) (d : device_info) : state W (option C) := λ w,
  match get_client o (dev_type d) (dev_path d) w with
  | (Err _, w) => (Ok None, w)
  | (Ok client, w) =>
      catch_all (ok ← check_client fingerprint d client; mret (if ok : bool then Some client else None))
                (client_close client;; mret (None : option C)) w
  end.

Fixpoint find_in (o : options) (device_type fingerprint : option pystr) (devices : list device_info) : state W (option C) :=
  match devices with
  | [] => mret None
  | d :: devices =>
      if type_differs device_type d then find_in o device_type fingerprint devices
      else
        c ← try_device o fingerprint d;
        match c with
        | Some client => mret (Some client)
        | None => find_in o device_type fingerprint devices
        end
  end.

Definition find_device (o : options) (device_type fingerprint : option pystr) : state W (option C) :=
  devices ← enumerate o;
  find_in o device_type fingerprint devices.
End discovery.

(** * Lemmas *)

(** What the drivers promise of the clients that are open in a world: a
    constructor that returns has opened its client and one that raises has
    opened none, [close] closes its client, and nothing else changes them. *)
Class DriverLaws {W C : Type} (import_module : pystr → state W (driver W C))
    (client_fingerprint : C → state W bytes) (client_close : C → state W ()) (opened : W → list C) := {
  import_opens m w r w' : import_module m w = (r, w') → opened w' ≡ₚ opened w;
  enumerate_opens m w drv w0 o w1 r w2 :
    import_module m w = (Ok drv, w0) → drv_enumerate drv o w1 = (r, w2) → opened w2 ≡ₚ opened w1;
  class_opens m w drv w0 n f o p w1 r w2 :
    import_module m w = (Ok drv, w0) → drv_class drv n = Some f → f o p w1 = (r, w2) →
    opened w2 ≡ₚ (match r with Ok c => [c] | Err _ => [] end) ++ opened w1;
  fingerprint_opens c w r w' : client_fingerprint c w = (r, w') → opened w' ≡ₚ opened w;
  close_closes c w l : opened w ≡ₚ c :: l → ∃ w', client_close c w = (Ok (), w') ∧ opened w' ≡ₚ l;
}.

Section lemmas.
Context {W C : Type} {import_module : pystr → state W (driver W C)}.
Context {client_fingerprint : C → state W bytes} {client_close : C → state W ()} {opened : W → list C}.
Context `{Laws : !DriverLaws import_module client_fingerprint client_close opened}.

Lemma get_client_opens o t p w r w' : get_client import_module o t p w = (r, w') →
  opened w' ≡ₚ (match r with Ok c => [c] | Err _ => [] end) ++ opened w.
Proof.
  unfold get_client. destruct (import_module (lower (default [] (head (split_char (chr 95) t)))) w) as [[drv|e] w0] eqn:Ei.
  - rewrite (state_bind_eval _ _ _ _ _ Ei). destruct (drv_class drv _) as [f|] eqn:Ec; cbn [of_option].
    + erewrite state_bind_eval; [|reflexivity]. destruct (f o p w0) as [[c|e] w1] eqn:Ef;
        pose proof (class_opens (DriverLaws := Laws) _ _ _ _ _ _ _ _ _ _ _ Ei Ec Ef) as Hp; rewrite (import_opens _ _ _ _ Ei) in Hp;
        [|destruct e]; by intros [= <- <-].
    + intros [= <- <-]. by rewrite (import_opens _ _ _ _ Ei).
  - rewrite (state_bind_err _ _ _ _ _ Ei). pose proof (import_opens _ _ _ _ Ei). destruct e; by intros [= <- <-].
Qed.

Lemma enumerate_modules_opens o modules result w r w' :
  enumerate_modules import_module o modules result w = (r, w') → opened w' ≡ₚ opened w.
Proof.
  revert result w. induction modules as [|m modules IH]; intros result w; cbn [enumerate_modules]; [by intros [= <- <-]|].
  destruct (import_module m w) as [[drv|e] w0] eqn:Ei.
  - rewrite (state_bind_eval _ _ _ _ _ Ei). destruct (drv_enumerate drv o w0) as [[l|e] w1] eqn:Ee;
      pose proof (enumerate_opens _ _ _ _ _ _ _ _ Ei Ee) as Hp; rewrite (import_opens _ _ _ _ Ei) in Hp.
    + intros H. by rewrite (IH _ _ H).
    + destruct e; try (by intros [= <- <-]). intros H. by rewrite (IH _ _ H).
  - rewrite (state_bind_err _ _ _ _ _ Ei). pose proof (import_opens _ _ _ _ Ei) as Hp.
    destruct e; try (by intros [= <- <-]). intros H. by rewrite (IH _ _ H).
Qed.

(** The client is closed unless it is accepted. *)
Lemma check_client_opens f d c w l : opened w ≡ₚ c :: l →
  match check_client client_fingerprint client_close f d c w with
  | (Ok true, w') | (Err _, w') => opened w' ≡ₚ c :: l
  | (Ok false, w') => opened w' ≡ₚ l
  end.
Proof.
  intros Hw. unfold check_client. destruct (wants_fingerprint f) as [s|]; [|done].
  assert (∀ (w1 : W) m, opened w1 ≡ₚ c :: l →
    match (if bool_decide (m ≠ s) then (client_close c;; mret false) else mret true) w1 with
    | (Ok true, w') | (Err _, w') => opened w' ≡ₚ c :: l
    | (Ok false, w') => opened w' ≡ₚ l
    end) as Hcmp.
  { intros w1 m Hw1. case_bool_decide; [|done]. destruct (close_closes c w1 l Hw1) as (w' & Ec & Hw').
    by rewrite (state_bind_eval _ _ _ _ _ Ec). }
  destruct (dev_fingerprint d) as [m|].
  - erewrite state_bind_eval; [|reflexivity]. by apply Hcmp.
  - destruct (client_fingerprint c w) as [[b|e] w1] eqn:Ef; pose proof (fingerprint_opens _ _ _ _ Ef) as H1; rewrite Hw in H1.
    + erewrite state_bind_eval; [|by rewrite (state_bind_eval _ _ _ _ _ Ef)]. by apply Hcmp.
    + erewrite state_bind_err; [exact H1|]. by rewrite (state_bind_err _ _ _ _ _ Ef).
Qed.

Lemma try_device_opens o f d w r w' : try_device import_module client_fingerprint client_close o f d w = (r, w') →
  ∃ oc, r = Ok oc ∧ opened w' ≡ₚ option_list oc ++ opened w.
Proof.
  unfold try_device. destruct (get_client import_module o (dev_type d) (dev_path d) w) as [[c|e] w1] eqn:Eg; pose proof (get_client_opens _ _ _ _ _ _ Eg) as Hg.
  - pose proof (check_client_opens f d c w1 _ Hg) as Hc. unfold catch_all.
    destruct (check_client client_fingerprint client_close f d c w1) as [[[|]|e] w2] eqn:Ec.
    + rewrite (state_bind_eval _ _ _ _ _ Ec). intros [= <- <-]. by exists (Some c).
    + rewrite (state_bind_eval _ _ _ _ _ Ec). intros [= <- <-]. by exists None.
    + rewrite (state_bind_err _ _ _ _ _ Ec). destruct (close_closes c w2 _ Hc) as (w3 & E3 & H3).
      rewrite (state_bind_eval _ _ _ _ _ E3). intros [= <- <-]. by exists None.
  - intros [= <- <-]. by exists None.
Qed.

Lemma find_in_opens o t f devices w r w' : find_in import_module client_fingerprint client_close o t f devices w = (r, w') →
  ∃ oc, r = Ok oc ∧ opened w' ≡ₚ option_list oc ++ opened w.
Proof.
  revert w. induction devices as [|d devices IH]; intros w; cbn [find_in].
  { intros [= <- <-]. by exists None. }
  destruct (type_differs t d); [apply IH|]. destruct (try_device import_module client_fingerprint client_close o f d w) as [r1 w1] eqn:Et.
  destruct (try_device_opens _ _ _ _ _ _ Et) as ([c|] & -> & H1); rewrite (state_bind_eval _ _ _ _ _ Et).
  - intros [= <- <-]. by exists (Some c).
  - intros H. destruct (IH _ H) as (oc & -> & H2). exists oc. by rewrite H2, H1.
Qed.
End lemmas.

Section lemmas2.
Context {W C : Type} {import_module : pystr → state W (driver W C)}.
Context {client_fingerprint : C → state W bytes} {client_close : C → state W ()}.

(** The client has the fingerprint that is asked for, as the enumeration or the client itself says. *)
Definition has_fingerprint (f : option pystr) (d : device_info) (c : C) (w w' : W) : Prop :=
  match wants_fingerprint f, dev_fingerprint d with
  | None, _ => w' = w
  | Some s, Some m => m = s ∧ w' = w
  | Some s, None => ∃ b, client_fingerprint c w = (Ok b, w') ∧ hexlify b = s
  end.

Lemma check_client_true f d c w w' : check_client client_fingerprint client_close f d c w = (Ok true, w') → has_fingerprint f d c w w'.
Proof.
  unfold check_client, has_fingerprint. destruct (wants_fingerprint f) as [s|]; [|by intros [= <-]].
  intros (m & w1 & Hm & H)%state_bind_ok. revert H. case_bool_decide as Hd.
  { by intros (u & w2 & _ & [= Hf])%state_bind_ok. }
  intros [= ->]. assert (m = s) as -> by (destruct (decide (m = s)); [done|tauto]).
  destruct (dev_fingerprint d) as [m|]; [by injection Hm as -> ->|].
  apply state_bind_ok in Hm as (b & w2 & Eb & [= <- <-]). by exists b.
Qed.

Lemma try_device_some o f d w c w' : try_device import_module client_fingerprint client_close o f d w = (Ok (Some c), w') →
  ∃ w1, get_client import_module o (dev_type d) (dev_path d) w = (Ok c, w1) ∧ has_fingerprint f d c w1 w'.
Proof.
  unfold try_device. destruct (get_client import_module o (dev_type d) (dev_path d) w) as [[c1|e] w1]; [|discriminate]. unfold catch_all.
  destruct (check_client client_fingerprint client_close f d c1 w1) as [[b|e] w2] eqn:Ec.
  - rewrite (state_bind_eval _ _ _ _ _ Ec). destruct b; [|discriminate]. intros [= <- <-]. exists w1. by apply check_client_true in Ec.
  - rewrite (state_bind_err _ _ _ _ _ Ec). by intros (u & w3 & _ & [=])%state_bind_ok.
Qed.

Lemma find_in_some o t f devices w c w' : find_in import_module client_fingerprint client_close o t f devices w = (Ok (Some c), w') →
  ∃ before d after w1 w2, devices = before ++ d :: after ∧ type_differs t d = false ∧
    find_in import_module client_fingerprint client_close o t f before w = (Ok None, w1) ∧
    get_client import_module o (dev_type d) (dev_path d) w1 = (Ok c, w2) ∧ has_fingerprint f d c w2 w'.
Proof.
  revert w. induction devices as [|d devices IH]; intros w; cbn [find_in]; [discriminate|].
  destruct (type_differs t d) eqn:Ed.
  - intros H. destruct (IH _ H) as (b & d' & a & w1 & w2 & -> & Ht & Hb & Hg & Hf).
    exists (d :: b), d', a, w1, w2. split; [done|]. split; [done|]. cbn [find_in]. by rewrite Ed.
  - intros ([c1|] & w1 & Et & H)%state_bind_ok.
    + injection H as -> ->. destruct (try_device_some _ _ _ _ _ _ Et) as (w2 & Hg & Hf). by exists [], d, devices, w, w2.
    + destruct (IH _ H) as (b & d' & a & w2 & w3 & -> & Ht & Hb & Hg & Hf). exists (d :: b), d', a, w2, w3.
      split; [done|]. split; [done|]. cbn [find_in]. by rewrite Ed, (state_bind_eval _ _ _ _ _ Et).
Qed.
End lemmas2.

(** * Properties *)

(** C27: [find_device] returns the client of the first enumerated device of the
    type (or model) and with the fingerprint that are asked for, where every
    device before it was of another type, could not be opened or had another
    fingerprint, and when it ends, in whatever way, the clients that are open
    are those that were open before and the one that is returned. *)
Theorem find_device_correct {W C : Type} (import_module : pystr → state W (driver W C)) (client_fingerprint : C → state W bytes)
    (client_close : C → state W ()) (opened : W → list C) (Laws : DriverLaws import_module client_fingerprint client_close opened)
    (o : options) (t f : option pystr) (w w' : W) (r : result (option C))
    (H : find_device import_module client_fingerprint client_close o t f w = (r, w')) :
  opened w' ≡ₚ (match r with Ok (Some c) => [c] | _ => [] end) ++ opened w ∧
  ∀ c, r = Ok (Some c) →
    ∃ before d after w0 w1 w2, enumerate import_module o w = (Ok (before ++ d :: after), w0) ∧
      find_in import_module client_fingerprint client_close o t f before w0 = (Ok None, w1) ∧
      (∀ s, t = Some s → dev_type d = s ∨ dev_model d = s) ∧
      get_client import_module o (dev_type d) (dev_path d) w1 = (Ok c, w2) ∧
      has_fingerprint (client_fingerprint := client_fingerprint) f d c w2 w'.
Proof.
  unfold find_device in H. destruct (enumerate import_module o w) as [[devices|e] w0] eqn:Ee;
    pose proof (enumerate_modules_opens _ _ _ _ _ _ Ee) as He.
  - rewrite (state_bind_eval _ _ _ _ _ Ee) in H. destruct (find_in_opens _ _ _ _ _ _ _ H) as (oc & -> & Ho). split.
    { rewrite Ho, He. by destruct oc. }
    intros c [= ->]. destruct (find_in_some _ _ _ _ _ _ _ H) as (b & d & a & w1 & w2 & -> & Ht & Hb & Hg & Hf).
    exists b, d, a, w0, w1, w2. split; [done|]. split; [done|]. split; [|done]. intros s ->. unfold type_differs in Ht.
    apply andb_false_iff in Ht as [Ht|Ht]; apply bool_decide_eq_false in Ht; [left|right]; by apply dec_stable.
  - rewrite (state_bind_err _ _ _ _ _ Ee) in H. by injection H as <- <-.
Qed.

(** Two devices of one driver, where the first one has another fingerprint. *)
Module Example_drivers.
Definition client : Type := pystr * bytes.
Definition world : Type := list client.

Fixpoint remove_client (c : client) (w : world) : world :=
  match w with [] => [] | x :: w => if decide (x = c) then w else x :: remove_client c w end.

Definition close (c : client) : state world () := modify (remove_client c).
Definition fpr (c : client) : state world bytes := mret c.2.

Definition open_client (o : options) (path : pystr) : state world client := λ w,
  let c := (path, if decide (path = $"usb1") then map chr [1; 2; 3; 4] else map chr [0xd3; 0x4d; 0xb3; 0x3f]) in (Ok c, c :: w).

Definition ledger : driver world client := {|
  drv_enumerate := λ _, mret (map (λ p, mkInfo $"ledger" $"ledger_nano_x" p None JNull) [$"usb1"; $"usb2"]);
  drv_class := λ n, if decide (n = $"LedgerClient") then Some open_client else None;
|}.

Definition import (m : pystr) : state world (driver world client) :=
  if decide (m = $"ledger") then mret ledger else raise ImportError.

Lemma remove_perm (c : client) (w : world) : c ∈ w → w ≡ₚ c :: remove_client c w.
Proof.
  induction w as [|x w IH]; [by intros ?%not_elem_of_nil|]. intros Hc. cbn [remove_client]. destruct (decide (x = c)) as [->|Hn]; [done|].
  apply elem_of_cons in Hc as [->|Hc]; [done|]. rewrite (IH Hc) at 1. apply Permutation_swap.
Qed.

#[export] Instance laws : DriverLaws import fpr close (λ w, w).
Proof.
  split; unfold import.
  - intros m w r w'. destruct (decide _); by intros [= <- <-].
  - intros m w drv w0 o w1 r w2. destruct (decide _); [|done]. intros [= <- <-] [= <- <-]. done.
  - intros m w drv w0 n f o p w1 r w2. destruct (decide _); [|done]. intros [= <- <-]. cbn [drv_class ledger].
    destruct (decide _); [|done]. intros [= <-] [= <- <-]. done.
  - intros c w r w' [= <- <-]. done.
  - intros c w l Hw. exists (remove_client c w). split; [done|]. apply (Permutation_cons_inv (a := c)).
    rewrite <- remove_perm; [done|]. rewrite Hw. apply list_elem_of_here.
Qed.
End Example_drivers.

Lemma find_device_correct_witness : ∃ w' c, let o := mkOptions None false MAIN false in
  find_device Example_drivers.import Example_drivers.fpr Example_drivers.close o (Some $"ledger") (Some $"d34db33f") [] = (Ok (Some c), w') ∧
  w' ≡ₚ [c] ∧ c.1 = $"usb2".
Proof.
  set (o := mkOptions None false MAIN false).
  destruct (find_device Example_drivers.import Example_drivers.fpr Example_drivers.close o (Some $"ledger") (Some $"d34db33f") []) as [r w'] eqn:E.
  destruct (find_device_correct _ _ _ _ Example_drivers.laws o _ _ _ _ _ E) as [Ho _].
  vm_compute in E. injection E as <- <-. eexists _, _. cbv zeta. split; [reflexivity|]. split; [exact Ho|reflexivity].
Defined.
