(* ===== verification/Cli.v ===== *)
(** * [hwilib/_cli.py]: running a command

    What happens behind the parsing of the command line: a client is found or
    opened, the command runs on it, errors become dictionaries with their
    codes, and the client is closed.  The answer is the JSON value that is
    printed. *)

From S2P Require Import Prelude Bytes StateM PyStd PyStr PyJson Common Sha256 Key Errors Commands Discovery.

(** The commands with their arguments, as the parser leaves them. *)
Inductive command :=
  | CEnumerate
  | CInstallUdevRules (location : pystr)
  | CGetMasterXpub (addr_type : AddressType) (account : Z)
  | CGetXpub (path : pystr)
  | CSignTx (psbt : pystr) (registrations : option (list pystr))
  | CSignMessage (message path : pystr)
  | CGetKeypool (path : option pystr) (start end_ : Z) (internal keypool : bool) (account : Z) (addr_type : AddressType) (all : bool)
  | CGetDescriptors (account : Z)
  | CDisplayAddress (desc path : option pystr) (addr_type : AddressType) (registration : option pystr) (index multipath_index : option Z)
  | CSetup (label backup_passphrase : pystr)
  | CWipe
  | CRestore (label : pystr) (word_count : Z)
  | CBackup (label backup_passphrase : pystr)
  | CPromptPin
  | CTogglePassphrase
  | CSendPin (pin : pystr)
  | CRegisterDescriptor (name descriptor : pystr).

Record namespace := mkArgs {
  arg_device_path : option pystr;
  arg_device_type : option pystr;
  arg_password : option pystr;
  arg_stdinpass : bool;
  arg_chain : Chain;
  arg_fingerprint : option pystr;
  arg_interactive : bool;
  arg_expert : bool;
  arg_emulators : bool;
  arg_command : command;
}.

(** ** The dictionaries of the commands *)

Definition entry (key : pystr) (v : json) : json := JDict [(key, v)].

Definition printable_json (v : printable_val) : json :=
  match v with PStr s => JStr s | PInt i => JInt i | PBool b => JBool b end.

Definition import_json (i : import) : json :=
  JDict [($"desc", JStr (import_desc i)); ($"range", JList [JInt (import_range i).1; JInt (import_range i).2]);
         ($"timestamp", JStr $"now"); ($"internal", JBool (import_internal i)); ($"keypool", JBool (import_keypool i));
         ($"active", JBool (import_keypool i)); ($"watchonly", JBool true)].

Definition displayed_json (d : displayed) : json :=
  match d with
  | ShownAddress a => entry $"address" (JStr a)
  | ShownPolicyAddress a i m => JDict [($"address", JStr a); ($"index", JInt i); ($"multipath_index", JInt m)]
  end.

Definition truthy (s : option pystr) : bool := match s with Some (_ :: _) => true | _ => false end.

Section cli.
Context {W C : Type} (import_module : pystr → state W (driver W C)) (methods : C → client_ops W).
Context (message : pyexn → pystr) (typed_password : pystr) (install_udev_rules : pystr → state W bool).
Context `{Hashes} `{SetOrder}.

(** The handlers of the commands that use a client. *)
Definition handler (ops : client_ops W) (a : namespace) : state (HardwareWalletClient W) json :=
  let success (m : state (HardwareWalletClient W) bool) := b ← m; mret (entry $"success" (JBool b)) in
  match arg_command a with
  | CGetMasterXpub t account => s ← getmasterxpub ops (arg_chain a) t account; mret (entry $"xpub" (JStr s))
  | CGetXpub path => d ← getxpub ops path (arg_expert a); mret (JDict (map (λ kv, (kv.1, printable_json kv.2)) d))
  | CSignTx psbt registrations =>
      r ← signtx ops psbt registrations;
      mret (JDict [($"psbt", JStr r.1); ($"signed", JBool r.2)])
  | CSignMessage message path => s ← signmessage ops message path; mret (entry $"signature" (JStr s))
  | CGetKeypool path start end_ internal keypool account t all =>
      l ← getkeypool ops (arg_chain a) path start end_ internal keypool account t all; mret (JList (map import_json l))
  | CGetDescriptors account =>
      r ← getdescriptors ops (arg_chain a) account;
      mret (JDict [($"receive", JList (map JStr r.1)); ($"internal", JList (map JStr r.2))])
  | CDisplayAddress desc path t registration index multipath_index =>
      d ← displayaddress ops path desc t registration index multipath_index; mret (displayed_json d)
  | CSetup label backup_passphrase =>
      if arg_interactive a then success (setup_device ops label backup_passphrase) else raise UnavailableActionError
  | CWipe => success (wipe_device ops)
  | CRestore label word_count =>
      if arg_interactive a then success (restore_device ops label word_count) else raise UnavailableActionError
  | CBackup label backup_passphrase => success (backup_device ops label backup_passphrase)
  | CPromptPin => success (prompt_pin ops)
  | CTogglePassphrase => success (toggle_passphrase ops)
  | CSendPin pin => success (send_pin ops pin)
  | CRegisterDescriptor name descriptor => s ← register_descriptor ops name descriptor; mret (entry $"registration" (JStr s))
  | CEnumerate | CInstallUdevRules _ => raise TypeError
  end.

(** A new client has an empty cache. *)
Definition run {A} (m : state (HardwareWalletClient W) A) : state W A := λ w,
  let '(r, c) := m (mkClient w []) in (r, client_device c).

Definition arg_options (a : namespace) : options :=
  mkOptions (if arg_stdinpass a then Some typed_password else arg_password a) (arg_expert a) (arg_chain a) (arg_emulators a).

Definition error_dict (text : pystr) (code : Z) : json := JDict [($"error", JStr text); ($"code", JInt code)].

(** The client for the arguments, or the dictionary that is returned instead. *)
Definition select_client (a : namespace) : state W (json + C) :=
  if truthy (arg_fingerprint a) || (truthy (arg_device_type a) && negb (truthy (arg_device_path a))) then
    c ← find_device import_module (λ c, op_master_fingerprint (methods c)) (λ c, op_close (methods c)) (arg_options a)
          (arg_device_type a) (arg_fingerprint a);
    mret (match c with
          | Some client => inr client
          | None => inl (error_dict $"Could not find device with specified fingerprint or type" DEVICE_CONN_ERROR)
          end)
  else if truthy (arg_device_type a) && truthy (arg_device_path a) then
    handle_errors message [] DEVICE_CONN_ERROR (JDict [])
      (get_client import_module (arg_options a) (default [] (arg_device_type a)) (default [] (arg_device_path a)))
  else mret (inl (error_dict $"You must specify a device type or fingerprint for all commands except enumerate" NO_DEVICE_TYPE)).

Definition with_client (a : namespace) (client : C) : state W json :=
  r ← handle_errors message [] UNKNOWN_ERROR (JDict []) (run (handler (methods client) a));
  let result := match r with inl v => v | inr v => v end in
  closed ← handle_errors message [] UNKNOWN_ERROR result (op_close (methods client));
  mret (match closed with inl v => v | inr _ => result end).

Definition process_commands (a : namespace) : state W json :=
  match arg_command a with
  | CEnumerate => l ← enumerate import_module (arg_options a); mret (JList (map dev_dict l))
  | CInstallUdevRules location =>
      r ← handle_errors message $"installudevrules failed: " UNKNOWN_ERROR (JDict [])
            (b ← install_udev_rules location; mret (entry $"success" (JBool b)));
      mret (match r with inl v => v | inr v => v end)
  | _ =>
      c ← select_client a;
      match c with
      | inl v => mret v
      | inr client => with_client a client
      end
  end.
End cli.

(** * Lemmas *)

(** The clients of the drivers: opening and closing is as in [DriverLaws], and
    no other operation of a client opens or closes one. *)
Class ClientLaws {W C : Type} (import_module : pystr → state W (driver W C)) (methods : C → client_ops W) (opened : W → list C) := {
  cl_drivers :: DriverLaws import_module (λ c, op_master_fingerprint (methods c)) (λ c, op_close (methods c)) opened;
  cl_device c l :: DeviceLaws (methods c) (λ w, opened w ≡ₚ l) (λ _ _, True) (λ _, True);
}.

Section lemmas.
Context {W C : Type} {import_module : pystr → state W (driver W C)} {methods : C → client_ops W} {opened : W → list C}.
Context `{Laws : !ClientLaws import_module methods opened}.
Context (message : pyexn → pystr) (typed_password : pystr).
Context `{Hashes} `{SetOrder}.

Lemma ensures_handler {D} (ops : client_ops D) I keys master `{!DeviceLaws ops I keys master} a :
  ensures (cache_ok I keys) (handler ops a) (λ _, True).
Proof.
  unfold handler. destruct (arg_command a); try apply ensures_raise; try destruct (arg_interactive a); try apply ensures_raise;
    (eapply ensures_bind; [|intros ? ?; by apply ensures_ret]);
    first [ apply ensures_getkeypool | apply ensures_getdescriptors | apply ensures_getmasterxpub | apply ensures_getxpub
          | apply ensures_signtx | apply ensures_signmessage | apply ensures_displayaddress | apply ensures_register_descriptor
          | apply ensures_call; auto with ensures ].
  all: eauto with ensures.
Qed.

Lemma run_opens c a w r w' : run (handler (methods c) a) w = (r, w') → opened w' ≡ₚ opened w.
Proof.
  unfold run. destruct (handler (methods c) a (mkClient w [])) as [r1 c1] eqn:E. intros [= <- <-].
  destruct (ensures_handler (methods c) (λ w1, opened w1 ≡ₚ opened w) (λ _ _, True) (λ _, True) a (mkClient w []) r1 c1
    ltac:(split; [cbn; reflexivity|by intros path s]) E) as [[Hi _] _]. exact Hi.
Qed.

Lemma handle_errors_opens {A} msg code v (m : state W A) w r w' : handle_errors message msg code v m w = (r, w') →
  ∃ r0, m w = (r0, w') ∧ match r0 with
    | Ok a => r = Ok (inr a)
    | Err e => r = (v ← set_error message msg code e v; Ok (inl v))
    end.
Proof. unfold handle_errors. destruct (m w) as [[a|e] w1]; intros [= <- <-]; eexists; by split. Qed.

Lemma select_opens a w r w' : select_client import_module methods message typed_password a w = (r, w') →
  opened w' ≡ₚ (match r with Ok (inr c) => [c] | _ => [] end) ++ opened w.
Proof.
  unfold select_client. destruct (_ || _).
  - unfold find_device. destruct (enumerate import_module (arg_options typed_password a) w) as [[devices|e] w0] eqn:Ee;
      pose proof (enumerate_modules_opens _ _ _ _ _ _ Ee) as He.
    + destruct (find_in import_module (λ c, op_master_fingerprint (methods c)) (λ c, op_close (methods c)) (arg_options typed_password a)
        (arg_device_type a) (arg_fingerprint a) devices w0) as [r0 w1] eqn:Ef.
      destruct (find_in_opens _ _ _ _ _ _ _ Ef) as (oc & -> & Ho).
      erewrite state_bind_eval; [|by rewrite (state_bind_eval _ _ _ _ _ Ee)]. intros [= <- <-]. rewrite Ho, He. by destruct oc.
    + erewrite state_bind_err; [|by rewrite (state_bind_err _ _ _ _ _ Ee)]. by intros [= <- <-].
  - destruct (_ && _); [|by intros [= <- <-]]. intros (r0 & Eg & Hr)%handle_errors_opens.
    pose proof (get_client_opens _ _ _ _ _ _ Eg) as Hg. destruct r0 as [c|e]; subst r; [done|]. by rewrite Hg.
Qed.

(** The answer of a command: its value, or the message and the code of its error. *)
Definition answer (r : result json) : json :=
  match r with
  | Ok v => v
  | Err e => JDict [($"error", JStr (message e)); ($"code", JInt (default UNKNOWN_ERROR (hww_code e)))]
  end.

Lemma with_client_spec a c w r w' l : opened w ≡ₚ c :: l → with_client methods message a c w = (r, w') →
  opened w' ≡ₚ l ∧ ∃ r1 w1, run (handler (methods c) a) w = (r1, w1) ∧ r = Ok (answer r1).
Proof.
  intros Hw. unfold with_client. destruct (run (handler (methods c) a) w) as [r1 w1] eqn:Er.
  pose proof (run_opens _ _ _ _ _ Er) as H1. rewrite Hw in H1. destruct (close_closes c w1 l H1) as (w2 & Ec & H2).
  assert (handle_errors message [] UNKNOWN_ERROR (JDict []) (run (handler (methods c) a)) w =
    (Ok (match r1 with Ok v => inr v | Err _ => inl (answer r1) end), w1)) as E1.
  { unfold handle_errors. rewrite Er. by destruct r1. }
  rewrite (state_bind_eval _ _ _ _ _ E1). erewrite state_bind_eval; [|by unfold handle_errors; rewrite Ec].
  intros [= <- <-]. split; [done|]. exists r1, w1. by destruct r1.
Qed.

Lemma with_selected a w r w' :
  (c ← select_client import_module methods message typed_password a;
   match c with inl v => mret v | inr client => with_client methods message a client end) w = (r, w') →
  opened w' ≡ₚ opened w ∧ ∀ s w1, select_client import_module methods message typed_password a w = (Ok s, w1) →
    match s with
    | inl v => r = Ok v
    | inr client => ∃ r1 w2, run (handler (methods client) a) w1 = (r1, w2) ∧ r = Ok (answer r1)
    end.
Proof.
  destruct (select_client import_module methods message typed_password a w) as [[[v|c]|e] w1] eqn:Es;
    pose proof (select_opens _ _ _ _ Es) as Ho.
  - rewrite (state_bind_eval _ _ _ _ _ Es). intros [= <- <-]. split; [done|]. by intros s w2 [= <- _].
  - rewrite (state_bind_eval _ _ _ _ _ Es). intros Hw. destruct (with_client_spec _ _ _ _ _ _ Ho Hw) as [H1 H2].
    split; [done|]. by intros s w2 [= <- <-].
  - rewrite (state_bind_err _ _ _ _ _ Es). intros [= <- <-]. by split.
Qed.
End lemmas.

(** * Properties *)

(** Whether a command is run on a client. *)
Definition needs_client (c : command) : bool := match c with CEnumerate | CInstallUdevRules _ => false | _ => true end.

(** C28: whatever the command and however it ends, the clients that are open
    behind it are those that were open before: every client that was opened
    for it, also to look at its fingerprint, is closed.  A command that raises
    is answered by the message and the code of its error, and a command that
    returns by its value; without a client the answer has the code of that. *)
Theorem process_commands_closes `{Hashes} `{SetOrder} {W C : Type} (import_module : pystr → state W (driver W C)) (methods : C → client_ops W)
    (opened : W → list C) (Laws : ClientLaws import_module methods opened) (message : pyexn → pystr) (typed_password : pystr)
    (install_udev_rules : pystr → state W bool) (Hinstall : ∀ l w r w', install_udev_rules l w = (r, w') → opened w' ≡ₚ opened w)
    (a : namespace) (w w' : W) (r : result json)
    (E : process_commands import_module methods message typed_password install_udev_rules a w = (r, w')) :
  opened w' ≡ₚ opened w ∧
  (needs_client (arg_command a) = true → ∀ s w1, select_client import_module methods message typed_password a w = (Ok s, w1) →
    match s with
    | inl v => r = Ok v
    | inr client => ∃ r1 w2, run (handler (methods client) a) w1 = (r1, w2) ∧ r = Ok (answer message r1)
    end).
Proof.
  unfold process_commands in E. destruct (arg_command a); try (destruct (with_selected _ _ _ _ _ _ E) as [H1 H2]; by split).
  - split; [|discriminate].
    destruct (enumerate import_module (arg_options typed_password a) w) as [[l|e] w1] eqn:Ee;
      [rewrite (state_bind_eval _ _ _ _ _ Ee) in E|rewrite (state_bind_err _ _ _ _ _ Ee) in E]; injection E as <- <-;
      by eapply enumerate_modules_opens.
  - split; [|discriminate]. revert E. unfold handle_errors. intros E. unfold mbind, state_bind, mret, state_ret in E.
    destruct (install_udev_rules location w) as [[b|e] w1] eqn:Ei; injection E as <- <-; by eapply Hinstall.
Qed.

(** The devices of [Example_drivers], which know one key and sign nothing. *)
Definition example_methods (c : Example_drivers.client) : client_ops Example_drivers.world :=
  let no {A} : state Example_drivers.world A := raise UnavailableActionError in
  {| get_pubkey_at_path _ := mret example_xpub; op_master_fingerprint := Example_drivers.fpr c; sign_tx _ _ := no; op_sign_message _ _ := no;
     display_singlesig_address _ _ := no; display_multisig_address _ _ := no; display_bip388_policy_address _ _ _ := no;
     can_sign_taproot := mret false; op_register_descriptor _ _ := no; op_setup_device _ _ := no; op_wipe_device := mret true;
     op_restore_device _ _ := no; op_backup_device _ _ := no; op_prompt_pin := no; op_send_pin _ := no; op_toggle_passphrase := no;
     op_close := Example_drivers.close c |}.

Lemma example_client_laws : ClientLaws Example_drivers.import example_methods (λ w, w).
Proof.
  split; [exact Example_drivers.laws|].
  intros c l. split; intros; intros s0 r0 s1 Hs [= <- <-]; by split.
Qed.

Definition example_udev (location : pystr) : state Example_drivers.world bool := mret true.

Lemma example_install l w r w' : example_udev l w = (r, w') → w' ≡ₚ w.
Proof. by intros [= <- <-]. Qed.

Lemma process_commands_closes_witness :
  let a := mkArgs None (Some $"ledger") None false MAIN (Some $"d34db33f") false false false (CSignMessage $"hi" $"m/0") in
  ∃ w', process_commands Example_drivers.import example_methods (λ _, $"no") [] example_udev a [] =
      (Ok (JDict [($"error", JStr $"no"); ($"code", JInt (-9))]), w') ∧ w' = [].
Proof.
  intros a. destruct (process_commands Example_drivers.import example_methods (λ _, $"no") [] example_udev a []) as [r w'] eqn:E.
  destruct (process_commands_closes _ _ _ example_client_laws _ _ example_udev example_install _ _ _ _ E) as [Hw _].
  exists w'. split; [|by apply Permutation_nil_r in Hw]. vm_compute in E. injection E as <- <-. reflexivity.
Defined.
