(* ===== verification/Digitalbitbox.v ===== *)
(** * [hwilib/devices/digitalbitbox.py]: the BitBox01

    Requests are JSON texts, encrypted and authenticated with keys that are
    derived from the password, and cut into HID frames.  The driver computes
    the hashes of a transaction's inputs itself; the device only signs hashes. *)

From S2P Require Import Prelude Bytes StateM PyStd PyStr PyJson Common Sha256 Serialize Script Tx KeyPath Key PsbtIn Psbt Errors.

(** ** Constants *)

Definition usb_report_size : nat := 64.
Definition HWW_CID : Z := 0xFF000000.
Definition HWW_CMD : Z := 0x80 + 0x40 + 0x01.

(** The lists have every code as an integer and as its decimal text. *)
Definition codes (l : list Z) : list json := map JInt l ++ map (λ c, JStr (str_int c)) l.
Definition bad_args : list json := codes [102; 103; 104; 105; 109; 204; 253; 254; 256; 300; 301; 304; 411; 412; 112; 251].
Definition device_failures : list json :=
  codes [101; 107; 200; 250; 252; 303; 400; 401; 402; 403; 405; 407; 408; 410; 500; 501; 502; 110; 111; 113; 900; 901; 902; 903].
Definition cancels : list json := codes [600; 601].
Definition ERR_MEM_SETUP : Z := 503.

(** [x in l] for integers and strings. *)
Definition code_eq (x y : json) : bool :=
  match x, y with
  | JInt i, JInt j => i =? j
  | JStr s, JStr t => bool_decide (s = t)
  | JBool b, JInt j => Z.b2z b =? j
  | _, _ => false
  end.
Definition code_in (x : json) (l : list json) : bool := existsb (code_eq x) l.

(** ** Errors of the device *)

(** A computation of the driver: it may raise [DBBError] with the device's reply. *)
Abbreviation dbb D A := (state D (json + A)).

Definition dbb_raise {D A} (reply : json) : dbb D A := mret (inl reply).

(** [DBBError.get_error] and [DBBError.get_code]. *)
Definition dbb_message (reply : json) : result pystr :=
  e ← json_item $"error" reply;
  m ← json_item $"message" e;
  match m with JStr s => Ok s | _ => Err AssertionError end.

Definition dbb_code (reply : json) : result json :=
  e ← json_item $"error" reply;
  c ← json_item $"code" e;
  match c with JInt _ | JStr _ | JBool _ => Ok c | _ => Err AssertionError end.

(** The handler of [digitalbitbox_exception]: an error whose code is in none of
    the lists is dropped, and the method returns [None]. *)
Definition dbb_handler {A} (reply : json) : result (option A) :=
  code ← dbb_code reply;
  if code_in code bad_args then dbb_message reply;; Err BadArgumentError
  else if code_in code device_failures then dbb_message reply;; Err DeviceFailureError
  else if code_in code cancels then dbb_message reply;; Err ActionCanceledError
  else if code_eq code (JInt ERR_MEM_SETUP) || code_eq code (JStr (str_int ERR_MEM_SETUP)) then dbb_message reply;; Err DeviceNotReadyError
  else Ok None.

Definition digitalbitbox_exception {D A} (f : dbb D A) : state D (option A) :=
  r ← f;
  match r with
  | inr a => mret (Some a)
  | inl reply => liftS (dbb_handler reply)
  end.

(** ** Frames *)

(** What the driver uses of the device, of the simulator's socket and of the
    operating system. *)
Record dbb_device (D : Type) := {
  is_simulator : bool;
  hid_write : bytes → state D ();
  hid_read : Z → state D bytes;
  serial_number : state D pystr;
  socket_sendall : bytes → state D ();
  socket_recv : Z → state D bytes;
  urandom : Z → state D bytes;
  local_time : state D pystr;
}.
Arguments is_simulator {D}.
Arguments hid_write {D}.
Arguments hid_read {D}.
Arguments serial_number {D}.
Arguments socket_sendall {D}.
Arguments socket_recv {D}.
Arguments urandom {D}.
Arguments local_time {D}.

Section transport.
Context {D : Type} (dev : dbb_device D).

(** [struct.pack(">IBH", ...)] and [struct.pack(">IB", ...)]. *)
Definition init_header (data_len : Z) : result bytes :=
  a ← pack_u_be 4 HWW_CID; b ← pack_u_be 1 HWW_CMD; c ← pack_u_be 2 (Z.land data_len 0xFFFF); Ok (a ++ b ++ c).
Definition cont_header (seq : Z) : result bytes :=
  a ← pack_u_be 4 HWW_CID; b ← pack_u_be 1 seq; Ok (a ++ b).

(** [while idx < data_len], which writes at least one byte of data a round. *)
Fixpoint send_frames (fuel : nat) (data : bytes) (idx : nat) (seq : Z) : state D () :=
  if bool_decide (idx < length data)%nat then
    match fuel with
    | O => raise OutOfFuel
    | S fuel =>
        if bool_decide (idx = 0%nat) then
          let write := slice idx (idx + Nat.min (length data) (usb_report_size - 7)) data in
          header ← liftS (init_header (len data));
          hid_write dev ([chr 0] ++ header ++ write ++ replicate (usb_report_size - 7 - length write) (chr 0xEE));;
          send_frames fuel data (idx + length write) seq
        else
          let write := slice idx (idx + Nat.min (length data) (usb_report_size - 5)) data in
          header ← liftS (cont_header seq);
          hid_write dev ([chr 0] ++ header ++ write ++ replicate (usb_report_size - 5 - length write) (chr 0xEE));;
          send_frames fuel data (idx + length write) (seq + 1)
    end
  else mret ().

Definition send_frame (data : bytes) : state D () := send_frames (length data) data 0 0.

(** [while idx < data_len]: as many rounds as the reads take to bring enough. *)
Fixpoint read_frames (fuel : nat) (data : bytes) (idx data_len : Z) : state D bytes :=
  if idx <? data_len then
    match fuel with
    | O => raise OutOfFuel
    | S fuel =>
        read ← hid_read dev (Z.of_nat usb_report_size);
        read_frames fuel (data ++ drop 5 read) (idx + (len read - 5)) data_len
    end
  else mret data.

Definition read_frame (fuel : nat) : state D bytes :=
  read ← hid_read dev (Z.of_nat usb_report_size);
  b0 ← liftS (nth_py read 0); b1 ← liftS (nth_py read 1); b2 ← liftS (nth_py read 2); b3 ← liftS (nth_py read 3);
  let cid := ((ord b0 * 256 + ord b1) * 256 + ord b2) * 256 + ord b3 in
  cmd ← liftS (nth_py read 4);
  b5 ← liftS (nth_py read 5); b6 ← liftS (nth_py read 6);
  let data_len := ord b5 * 256 + ord b6 in
  data ← read_frames fuel (drop 7 read) (len read - 7) data_len;
  assert_ (cid =? HWW_CID);;
  assert_ (ord cmd =? HWW_CMD);;
  mret data.

Definition get_firmware_version : state D (Z * Z * Z) :=
  serial ← serial_number dev;
  split_serial ← liftS (nth_py (split_char (chr 58) serial) 1);
  let split_ver := split_char (chr 46) (drop 1 split_serial) in
  a ← liftS (s ← nth_py split_ver 0; int_str s);
  b ← liftS (s ← nth_py split_ver 1; int_str s);
  c ← liftS (s ← nth_py split_ver 2; int_str s);
  mret (a, b, c).

(** [while len(r) < hidBufSize] of old firmware. *)
Fixpoint read_buffer (fuel : nat) (r : bytes) : state D bytes :=
  if len r <? 4096 then
    match fuel with
    | O => raise OutOfFuel
    | S fuel => b ← hid_read dev 4096; read_buffer fuel (r ++ b)
    end
  else mret r.

Definition send_recv_raw (fuel : nat) (msg : bytes) : state D bytes :=
  if is_simulator dev then
    socket_sendall dev msg;;
    socket_recv dev 3584
  else
    '(major, minor, _) ← get_firmware_version;
    if ((major =? 2) && (minor =? 0)) || (major =? 1) then
      hid_write dev ([chr 0] ++ msg ++ replicate (4096 - length msg) (chr 0));;
      read_buffer fuel []
    else
      send_frame msg;;
      read_frame fuel.
End transport.

(** ** Messages *)

(** Exceptions that Python raises; the others mark the limits of the model. *)
Definition is_python (e : pyexn) : bool := match e with OutOfFuel | WideText => false | _ => true end.

(** [except Exception as e: return handler(e)]. *)
Definition except_exception {D A} (m : state D A) (handler : pyexn → A) : state D A := λ d,
  match m d with
  | (Err e, d) => if is_python e then (Ok (handler e), d) else (Err e, d)
  | r => r
  end.

Definition rstrip_chars (chars s : bytes) : bytes :=
  rev ((fix go l := match l with c :: r => if bool_decide (c ∈ chars) then go r else l | [] => [] end) (rev s)).

(** [hmac.new(key, msg, sha256)], [hashlib.sha512] and [hashlib.pbkdf2_hmac]. *)
Class MoreHashes := {
  hmac_sha256 : bytes → bytes → bytes;
  sha512 : bytes → bytes;
  pbkdf2_sha512 : bytes → bytes → Z → bytes;
  hmac_sha256_length k m : length (hmac_sha256 k m) = 32%nat;
  sha512_length m : length (sha512 m) = 64%nat;
}.

Section messages.
Context {D : Type} (dev : dbb_device D) (rounds : nat) (message : pyexn → pystr).
Context `{Hashes} `{MoreHashes}.
(** AES-256-CBC with padding, of [pyaes]: key, initialization vector, data. *)
Context (aes_encrypt aes_decrypt : bytes → bytes → bytes → result bytes).

(** [assert isinstance(result, dict)]. *)
Definition loads_dict (s : pystr) : result json :=
  v ← json_loads s;
  match v with JDict _ => Ok v | _ => Err AssertionError end.

Definition error_reply (text : pystr) : json := JDict [($"error", JStr text)].

Definition send_plain (msg : bytes) : state D json :=
  except_exception
    (r ← send_recv_raw dev rounds msg;
     let r := rstrip_chars [chr 32; chr 9; chr 13; chr 10; chr 0] r in
     let r := filter (λ c, c ≠ chr 0) r in
     text ← liftS (decode_utf8 r);
     liftS (loads_dict text))
    (λ e, error_reply ($"Exception caught while sending plaintext message to DigitalBitbox " ++ message e)).

Definition double_hash (x : pystr) : bytes := hash256 (encode_utf8 x).

Definition derive_keys (x : pystr) : bytes * bytes :=
  let h := sha512 (double_hash x) in
  (take (length h / 2) h, drop (length h / 2) h).

Definition encrypt_aes (secret s : bytes) : state D bytes :=
  iv ← urandom dev 16;
  ct ← liftS (aes_encrypt secret iv s);
  mret (iv ++ ct).

Definition decrypt_aes (secret e : bytes) : result bytes := aes_decrypt secret (take 16 e) (drop 16 e).

(** [''.join(v)] of a text, a list of texts or a dictionary. *)
Definition join_json (v : json) : result pystr :=
  match v with
  | JStr s => Ok s
  | JList l => parts ← mapR json_str l; Ok (concat parts)
  | JDict d => Ok (concat (map fst d))
  | _ => Err TypeError
  end.

(** What is in the ciphertext of a reply; [auth] is the authentication key of
    new firmware. *)
Definition open_reply (encryption_key : bytes) (auth : option bytes) (reply : json) : result json :=
  c ← json_item $"ciphertext" reply;
  text ← join_json c;
  b64_unencoded ← b64decode text;
  msg ← match auth with
        | Some authentication_key =>
            let msg := slice_to_neg 32 b64_unencoded in
            let reply_hmac := slice_from_neg 32 b64_unencoded in
            raise_if (bool_decide (reply_hmac ≠ hmac_sha256 authentication_key msg)) PlainException;;
            Ok msg
        | None => Ok b64_unencoded
        end;
  plaintext ← decrypt_aes encryption_key msg;
  text ← decode_utf8 plaintext;
  loads_dict text.

Definition send_encrypt (password msg : pystr) : state D json :=
  except_exception
    ('(major, _, _) ← get_firmware_version dev;
     let '(encryption_key, auth) :=
       if 5 <=? major then let '(e, a) := derive_keys password in (e, Some a) else (double_hash password, None) in
     ct ← encrypt_aes encryption_key (encode_utf8 msg);
     let authenticated_msg := b64encode (match auth with Some a => ct ++ hmac_sha256 a ct | None => ct end) in
     reply ← send_plain authenticated_msg;
     if json_has $"ciphertext" reply then liftS (open_reply encryption_key auth reply) else mret reply)
    (λ e, error_reply ($"Exception caught while sending encrypted message to DigitalBitbox " ++ message e)).
End messages.

Section backup_key.
Context `{MoreHashes}.
Definition stretch_backup_key (password : pystr) : pystr :=
  hexlify (pbkdf2_sha512 (encode_utf8 password) $"Digital Bitbox" 20480).
End backup_key.

(** ** Hashes to sign *)

Section sighashes.
Context `{Hashes}.

(** [txin.scriptSig = s] for the input [i] of a transaction. *)
Definition set_script_sig (i : nat) (s : bytes) (tx : CTransaction) : CTransaction :=
  {| nVersion := nVersion tx;
     vin := alter (λ x, {| prevout := prevout x; scriptSig := s; nSequence := nSequence x |}) i (vin tx);
     vout := vout tx; wit := wit tx; nLockTime := nLockTime tx; tx_sha256 := tx_sha256 tx; tx_hash := tx_hash tx |}.

(** The output that is spent. *)
Definition input_utxo (txin : CTxIn) (psbt_in : PsbtIn) : result (option CTxOut) :=
  match in_non_witness_utxo psbt_in with
  | Some tx =>
      raise_if (bool_decide (Some (op_hash (prevout txin)) ≠ tx_sha256 tx)) BadArgumentError;;
      o ← index_py (vout tx) (op_n (prevout txin));
      Ok (Some o)
  | None => Ok (in_witness_utxo psbt_in)
  end.

Definition sighash_all : bytes := map chr [1; 0; 0; 0].

Definition witness_preimage (blank_tx : CTransaction) (txin : CTxIn) (scriptcode : bytes) (amount : Z) : result bytes :=
  prevouts ← mapR (λ i, COutPoint_serialize (prevout i)) (vin blank_tx);
  sequences ← mapR (λ i, pack_u 4 (nSequence i)) (vin blank_tx);
  outputs ← mapR CTxOut_serialize (vout blank_tx);
  let scriptcode :=
    if is_p2wpkh scriptcode then
      let '(_, _, wit_prog) := is_witness scriptcode in map chr [0x76; 0xa9; 0x14] ++ wit_prog ++ map chr [0x88; 0xac]
    else scriptcode in
  v ← pack_s 4 (nVersion blank_tx);
  o ← COutPoint_serialize (prevout txin);
  s ← ser_string scriptcode;
  a ← pack_s 8 amount;
  n ← pack_u 4 (nSequence txin);
  l ← pack_u 4 (nLockTime blank_tx);
  Ok (v ++ hash256 (concat prevouts) ++ hash256 (concat sequences) ++ o ++ s ++ a ++ n ++ hash256 (concat outputs) ++ l ++ sighash_all).

(** The hash to sign for an input, unless it is skipped, and the transaction
    behind it: the input's script is set for the hash and blanked again. *)
Definition input_sighash (blank_tx : CTransaction) (i : nat) (txin : CTxIn) (psbt_in : PsbtIn) : result (option (bytes * CTransaction)) :=
  utxo ← input_utxo txin psbt_in;
  match utxo with
  | None => Ok None
  | Some utxo =>
      let p2sh := is_p2sh (scriptPubKey utxo) in
      if p2sh && bool_decide (in_redeem_script psbt_in = []) then Ok None
      else
        let scriptcode := if p2sh then in_redeem_script psbt_in else scriptPubKey utxo in
        let '(is_wit, _, _) := is_witness scriptcode in
        let p2wsh := is_p2wsh scriptcode in
        if p2wsh && bool_decide (in_witness_script psbt_in = []) then Ok None
        else
          let scriptcode := if p2wsh then in_witness_script psbt_in else scriptcode in
          if negb is_wit then
            if p2sh || is_p2pkh scriptcode || is_p2pk scriptcode then
              ser_tx ← serialize_without_witness (set_script_sig i scriptcode blank_tx);
              Ok (Some (hash256 (ser_tx ++ sighash_all), set_script_sig i [] blank_tx))
            else Ok None
          else
            w ← of_option AssertionError (in_witness_utxo psbt_in);
            preimage ← witness_preimage blank_tx txin scriptcode (nValue w);
            Ok (Some (hash256 preimage, blank_tx))
  end.

(** The hash in hexadecimal, the path of the key, the input and the key. *)
Definition sighash_tuple : Type := pystr * pystr * nat * bytes.

Definition input_tuples (master_fp sighash : bytes) (i : nat) (psbt_in : PsbtIn) : list sighash_tuple :=
  omap (λ kv, if bool_decide (master_fp = fingerprint kv.2) then Some (hexlify sighash, get_derivation_path kv.2, i, kv.1) else None)
       (in_hd_keypaths psbt_in).

(** The loop over [zip(blank_tx.vin, psbt.inputs, range(len(blank_tx.vin)))]:
    the input's own [txin] is taken from the transaction as it is by then. *)
Fixpoint sighash_loop (master_fp : bytes) (blank_tx : CTransaction) (i : nat) (ins : list PsbtIn) : result (list sighash_tuple * CTransaction) :=
  match ins with
  | [] => Ok ([], blank_tx)
  | psbt_in :: ins =>
      match vin blank_tx !! i with
      | None => Ok ([], blank_tx)
      | Some txin =>
          h ← input_sighash blank_tx i txin psbt_in;
          let '(tuples, tx) := match h with
                               | None => ([], blank_tx)
                               | Some (sighash, tx) => (input_tuples master_fp sighash i psbt_in, tx)
                               end in
          '(rest, tx) ← sighash_loop master_fp tx (S i) ins;
          Ok (tuples ++ rest, tx)
      end
  end.
End sighashes.

(** ** The client *)

Definition quote : pystr := [chr 34].

Section client.
Context {D : Type} (send : pystr → state D json) (plain : bytes → state D json) (chain : Chain) (password : pystr).
Context `{Hashes}.

Definition dbb_request (to_send : pystr) : dbb D json :=
  reply ← send to_send;
  if json_has $"error" reply then dbb_raise reply else mret (inr reply).

Definition dbb_bind {A B} (m : dbb D A) (f : A → dbb D B) : dbb D B :=
  r ← m;
  match r with inl reply => mret (inl reply) | inr a => f a end.

Definition dbb_get_pubkey_at_path (path : pystr) : state D (option ExtendedKey) :=
  digitalbitbox_exception
    (if negb (bool_decide (chr 39 ∈ path)) && negb (bool_decide (chr 104 ∈ path)) && negb (bool_decide (chr 72 ∈ path))
     then raise BadArgumentError
     else
       dbb_bind (dbb_request ($"{" ++ quote ++ $"xpub" ++ quote ++ $":" ++ quote ++ path ++ quote ++ $"}"))
         (λ reply,
            xpub ← liftS (v ← json_item $"xpub" reply; s ← json_str v; ExtendedKey_deserialize s);
            mret (inr (if bool_decide (chain ≠ MAIN) then
                         {| version := TESTNET_PUBLIC; depth := depth xpub; parent_fingerprint := parent_fingerprint xpub;
                            child_num := child_num xpub; chaincode := chaincode xpub; privkey := privkey xpub; pubkey := pubkey xpub |}
                       else xpub)))).

Definition dbb_master_fingerprint : state D bytes :=
  k ← dbb_get_pubkey_at_path $"m/0h";
  k ← liftS (of_option AttributeError k);
  mret (parent_fingerprint k).

(** The request for at most 15 hashes. *)
Definition sign_data (tups : list sighash_tuple) : pystr :=
  let to_send := $"{" ++ quote ++ $"sign" ++ quote ++ $":{" ++ quote ++ $"data" ++ quote ++ $":[" ++
    concat (map (λ t : sighash_tuple, $"{" ++ quote ++ $"hash" ++ quote ++ $":" ++ quote ++ t.1.1.1 ++ quote ++ $"," ++
                          quote ++ $"keypath" ++ quote ++ $":" ++ quote ++ t.1.1.2 ++ quote ++ $"},") tups) in
  (if bool_decide (last to_send = Some (chr 44)) then slice_to_neg 1 to_send else to_send) ++ $"]}}".

(** The signatures of a reply, in DER. *)
Definition reply_sigs (reply : json) : result (list bytes) :=
  v ← json_item $"sign" reply;
  items ← json_iter v;
  sigs ← mapR (λ item, v ← json_item $"sig" item; s ← json_str v; unhexlify s) items;
  mapR (λ sig, ser_sig_der (slice 0 32 sig) (slice 32 64 sig)) sigs.

(** [psbt.inputs[i].partial_sigs[pubkey] = sig]. *)
Definition add_sig (psbt : PSBT) (ts : sighash_tuple * bytes) : PSBT :=
  let '((_, _, i, pubkey), sig) := ts in
  set_inputs (alter (λ x, set_partial_sigs (dict_set pubkey sig (in_partial_sigs x)) x) i (psbt_inputs psbt)) psbt.

Fixpoint sign_batches (fuel : nat) (tuples : list sighash_tuple) (psbt : PSBT) : dbb D PSBT :=
  match tuples with
  | [] => mret (inr psbt)
  | _ =>
      match fuel with
      | O => raise OutOfFuel
      | S fuel =>
          let tups := take 15 tuples in
          let to_send := sign_data tups in
          dbb_bind (dbb_request to_send) (λ _,
          dbb_bind (dbb_request to_send) (λ reply,
            der_sigs ← liftS (reply_sigs reply);
            sign_batches fuel (drop 15 tuples) (foldl add_sig psbt (zip tups der_sigs))))
      end
  end.

(** The unsigned transaction of a PSBT of version 0 is its own, which the loop
    over the inputs leaves with blank scripts. *)
Definition dbb_sign_tx (psbt : PSBT) (registered : bool) : state D (option PSBT) :=
  digitalbitbox_exception
    (if registered then raise UnavailableActionError
     else
       blank_tx ← liftS (get_unsigned_tx psbt);
       master_fp ← dbb_master_fingerprint;
       '(tuples, tx) ← liftS (sighash_loop master_fp blank_tx 0 (psbt_inputs psbt));
       let psbt := if psbt_version psbt =? 0 then set_tx tx psbt else psbt in
       match tuples with
       | [] => mret (inr psbt)
       | _ => sign_batches (length tuples) tuples psbt
       end).

(** [v[0]]. *)
Definition json_first (v : json) : result json :=
  match v with
  | JList l => nth_py l 0
  | JStr s => c ← nth_py s 0; Ok (JStr [c])
  | JDict _ => Err KeyError
  | _ => Err TypeError
  end.

Definition message_magic : bytes := chr 0x18 :: $"Bitcoin Signed Message:" ++ [chr 10].

(** [message] is a text; its length is that of the text, not of its bytes. *)
Definition dbb_sign_message (message keypath : pystr) : state D (option pystr) :=
  digitalbitbox_exception
    (l ← liftS (ser_compact_size (len message));
     let to_hash := message_magic ++ l ++ encode_utf8 message in
     let to_send := $"{" ++ quote ++ $"sign" ++ quote ++ $":{" ++ quote ++ $"data" ++ quote ++ $":[{" ++ quote ++ $"hash" ++ quote ++ $":" ++ quote ++
       hexlify (hash256 to_hash) ++ quote ++ $"," ++ quote ++ $"keypath" ++ quote ++ $":" ++ quote ++ keypath ++ quote ++ $"}]}}" in
     dbb_bind (dbb_request to_send) (λ _,
     dbb_bind (dbb_request to_send) (λ reply,
       item ← liftS (v ← json_item $"sign" reply; json_first v);
       sig ← liftS (v ← json_item $"sig" item; s ← json_str v; unhexlify s);
       recid ← liftS (v ← json_item $"recid" item; s ← json_str v; unhexlify s);
       compact ← liftS (ser_sig_compact (slice 0 32 sig) (slice 32 64 sig) recid);
       mret (inr (b64encode compact))))).
(** *** Managing the device *)

Context (time : state D pystr) `{MoreHashes}.

Definition info_request : pystr := $"{" ++ quote ++ $"device" ++ quote ++ $" : " ++ quote ++ $"info" ++ quote ++ $"}".
Definition reset_request : pystr := $"{" ++ quote ++ $"reset" ++ quote ++ $" : " ++ quote ++ $"__ERASE__" ++ quote ++ $"}".

(** [raise DeviceFailureError(reply["error"]["message"])]. *)
Definition fail_message {A} (reply : json) : result A :=
  e ← json_item $"error" reply; json_item $"message" e;; Err DeviceFailureError.

(** Whether the reply is the error 101: the device has no password yet. *)
Definition not_initialized (reply : json) : result bool :=
  if json_has $"error" reply then
    e ← json_item $"error" reply;
    c ← json_item $"code" e;
    Ok (code_eq c (JInt 101) || code_eq c (JStr $"101"))
  else Ok false.

Definition backup_filename (name : pystr) : state D pystr := t ← time; mret (name ++ $"-" ++ t ++ $".pdf").

Definition dbb_setup_device (label passphrase : pystr) : state D (option bool) :=
  digitalbitbox_exception
    (reply ← send info_request;
     fresh ← liftS (not_initialized reply);
     if negb fresh then raise DeviceAlreadyInitError
     else if bool_decide (label = []) || bool_decide (passphrase = []) then raise BadArgumentError
     else
       plain (encode_utf8 (json_dumps (JDict [($"password", JStr password)])));;
       filename ← backup_filename label;
       reply ← send (json_dumps (JDict [($"seed", JDict [($"source", JStr $"create"); ($"key", JStr (stretch_backup_key passphrase));
                                                          ($"filename", JStr filename)])]));
       if json_has $"error" reply then liftS (fail_message reply) else mret (inr true)).

Definition dbb_wipe_device : state D (option bool) :=
  digitalbitbox_exception
    (reply ← send reset_request;
     if json_has $"error" reply then liftS (fail_message reply) else mret (inr true)).

Definition dbb_backup_device (label passphrase : pystr) : state D (option bool) :=
  digitalbitbox_exception
    (if bool_decide (label = []) || bool_decide (passphrase = []) then raise BadArgumentError
     else
       filename ← backup_filename label;
       dbb_bind (dbb_request (json_dumps (JDict [($"backup", JDict [($"source", JStr $"all"); ($"key", JStr (stretch_backup_key passphrase));
                                                                    ($"filename", JStr filename)])])))
         (λ _, mret (inr true))).
End client.

(** * What is signed *)

(** The kinds of outputs whose hashes the driver means to compute. *)
Inductive spend :=
  | SpendPkh (h : bytes)
  | SpendSh (redeem : bytes)
  | SpendWpkh (h : bytes)
  | SpendWsh (script : bytes).

(** A version 0 output of a program, by itself or in a P2SH output. *)
Definition wit0_output (spk redeem prog : bytes) : Prop :=
  spk = witness_script 0 prog ∨ (∃ h, len h = 20 ∧ spk = p2sh_script h) ∧ redeem = witness_script 0 prog.

Definition spends (spk redeem script : bytes) (k : spend) : Prop :=
  match k with
  | SpendPkh h => len h = 20 ∧ spk = p2pkh_script h
  | SpendSh r => (∃ h, len h = 20 ∧ spk = p2sh_script h) ∧ redeem = r ∧ r ≠ [] ∧ (is_witness r).1.1 = false
  | SpendWpkh h => len h = 20 ∧ wit0_output spk redeem h
  | SpendWsh s => s = script ∧ s ≠ [] ∧ is_p2wpkh s = false ∧ ∃ h, len h = 32 ∧ wit0_output spk redeem h
  end.

Section digests.
Context `{Hashes}.

(** The digest of the original signature hash with type ALL: the transaction
    with every input script empty but that of the input, which is the script code. *)
Definition legacy_digest (tx : CTransaction) (i : nat) (script_code : bytes) : result bytes :=
  let vin' := imap (λ j x, {| prevout := prevout x; scriptSig := if bool_decide (j = i) then script_code else []; nSequence := nSequence x |}) (vin tx) in
  b ← serialize_without_witness {| nVersion := nVersion tx; vin := vin'; vout := vout tx; wit := []; nLockTime := nLockTime tx; tx_sha256 := None; tx_hash := None |};
  Ok (hash256 (b ++ map chr [1; 0; 0; 0])).

(** The digest of BIP 143 with type ALL. *)
Definition bip143_digest (tx : CTransaction) (i : nat) (script_code : bytes) (amount : Z) : result bytes :=
  match vin tx !! i with
  | None => Err IndexError
  | Some input =>
      prevouts ← mapR (λ i, COutPoint_serialize (prevout i)) (vin tx);
      sequences ← mapR (λ i, pack_u 4 (nSequence i)) (vin tx);
      outputs ← mapR CTxOut_serialize (vout tx);
      parts ← mapR (λ x, x)
        [pack_s 4 (nVersion tx); Ok (hash256 (concat prevouts)); Ok (hash256 (concat sequences)); COutPoint_serialize (prevout input);
         ser_string script_code; pack_s 8 amount; pack_u 4 (nSequence input); Ok (hash256 (concat outputs)); pack_u 4 (nLockTime tx);
         Ok (map chr [1; 0; 0; 0])];
      Ok (hash256 (concat parts))
  end.

Definition spend_digest (tx : CTransaction) (i : nat) (amount : result Z) (k : spend) : result bytes :=
  match k with
  | SpendPkh h => legacy_digest tx i (p2pkh_script h)
  | SpendSh r => legacy_digest tx i r
  | SpendWpkh h => a ← amount; bip143_digest tx i (p2pkh_script h) a
  | SpendWsh s => a ← amount; bip143_digest tx i s a
  end.
End digests.

Definition blank (tx : CTransaction) : Prop := Forall (λ x, scriptSig x = []) (vin tx).

(** * Lemmas *)

Lemma p2sh_not_witness h : len h = 20 → is_witness (p2sh_script h) = (false, 0, []).
Proof. intros Hh. unfold is_witness, p2sh_script. rewrite !len_app, Hh. reflexivity. Qed.

Lemma p2pkh_not_witness h : len h = 20 → is_witness (p2pkh_script h) = (false, 0, []).
Proof. intros Hh. unfold is_witness, p2pkh_script. rewrite !len_app, Hh. reflexivity. Qed.

Lemma wit0_witness prog : 2 <= len prog <= 40 → is_witness (witness_script 0 prog) = (true, 0, prog).
Proof. intros Hp. apply is_witness_iff. split; [lia|]. by split. Qed.

Lemma p2sh_is_p2sh h : len h = 20 → is_p2sh (p2sh_script h) = true.
Proof. intros Hh. apply is_p2sh_iff. eauto. Qed.

Lemma wit0_not_p2sh prog : 2 <= len prog <= 40 → is_p2sh (witness_script 0 prog) = false.
Proof.
  intros Hp. apply not_true_is_false. intros (h & Hh & E)%is_p2sh_iff. pose proof (wit0_witness prog Hp) as Hw.
  rewrite E, p2sh_not_witness in Hw; done.
Qed.

Lemma p2pkh_not_p2sh h : len h = 20 → is_p2sh (p2pkh_script h) = false.
Proof. intros Hh. apply not_true_is_false. intros (h' & Hh' & E)%is_p2sh_iff. by apply (f_equal (take 1)) in E. Qed.

Lemma not_witness_programs s : (is_witness s).1.1 = false → is_p2wpkh s = false ∧ is_p2wsh s = false.
Proof. unfold is_p2wpkh, is_p2wsh. destruct (is_witness s) as [[b v] p]. cbn. by intros ->. Qed.

Lemma wit0_programs prog : 2 <= len prog <= 40 →
  is_p2wpkh (witness_script 0 prog) = (len prog =? 20) ∧ is_p2wsh (witness_script 0 prog) = (len prog =? 32).
Proof. intros Hp. unfold is_p2wpkh, is_p2wsh. by rewrite wit0_witness. Qed.

Lemma wit0_nonempty prog : witness_script 0 prog ≠ [].
Proof. done. Qed.

(** The script code that is looked at first: the redeem script of a P2SH output. *)
Lemma wit0_output_code spk redeem prog : 2 <= len prog <= 40 → wit0_output spk redeem prog →
  is_p2sh spk && bool_decide (redeem = []) = false ∧ (if is_p2sh spk then redeem else spk) = witness_script 0 prog.
Proof.
  intros Hp [->|[(h & Hh & ->) ->]].
  - by rewrite wit0_not_p2sh.
  - by rewrite p2sh_is_p2sh.
Qed.

Section lemmas.
Context `{Hashes}.

Lemma set_script_sig_blank i tx : blank tx → set_script_sig i [] tx = tx.
Proof.
  intros Hb. unfold set_script_sig. destruct tx as [v ins outs w l s h]. cbn in *. f_equal. unfold blank in Hb. cbn in Hb.
  revert i. induction Hb as [|x ins Hx Hb IH]; intros [|i]; cbn; [done..| |by f_equal]. f_equal. destruct x. cbn in Hx. by subst.
Qed.

Lemma set_script_sig_digest i tx sc : blank tx →
  (ser_tx ← serialize_without_witness (set_script_sig i sc tx); Ok (Some (hash256 (ser_tx ++ sighash_all), set_script_sig i [] tx))) =
  (d ← legacy_digest tx i sc; Ok (Some (d, tx))).
Proof.
  intros Hb. rewrite set_script_sig_blank by done. unfold legacy_digest.
  assert (vin (set_script_sig i sc tx) =
    imap (λ j x, {| prevout := prevout x; scriptSig := if bool_decide (j = i) then sc else []; nSequence := nSequence x |}) (vin tx)) as E.
  { apply list_eq. intros j. unfold set_script_sig. cbn [vin]. rewrite list_lookup_imap.
    destruct (decide (j = i)) as [->|Hj].
    - rewrite list_lookup_alter_eq. destruct (vin tx !! i); [|done]. cbn. by rewrite bool_decide_true.
    - rewrite list_lookup_alter_ne by done. destruct (vin tx !! j) as [x|] eqn:Ex; [|done]. cbn. rewrite bool_decide_false by done.
      destruct x as [p s n]. cbn. do 2 f_equal. unfold blank in Hb. rewrite Forall_lookup in Hb. apply (Hb j _ Ex). }
  unfold serialize_without_witness. rewrite E. cbn [nVersion vout nLockTime set_script_sig vin].
  destruct (pack_s 4 (nVersion tx)); [|done]. rewrite !bind_Ok. destruct (ser_vector CTxIn_serialize _); [|done]. rewrite !bind_Ok.
  destruct (ser_vector CTxOut_serialize _); [|done]. rewrite !bind_Ok. by destruct (pack_u 4 (nLockTime tx)).
Qed.

Lemma witness_preimage_digest tx i txin sc code amount : vin tx !! i = Some txin →
  code = (if is_p2wpkh sc then map chr [0x76; 0xa9; 0x14] ++ (is_witness sc).2 ++ map chr [0x88; 0xac] else sc) →
  (p ← witness_preimage tx txin sc amount; Ok (Some (hash256 p, tx))) = (d ← bip143_digest tx i code amount; Ok (Some (d, tx))).
Proof.
  intros Hi ->. unfold witness_preimage, bip143_digest. rewrite Hi.
  destruct (mapR (λ i, COutPoint_serialize (prevout i)) (vin tx)); [|done]. rewrite !bind_Ok.
  destruct (mapR (λ i, pack_u 4 (nSequence i)) (vin tx)); [|done]. rewrite !bind_Ok.
  destruct (mapR CTxOut_serialize (vout tx)); [|done]. rewrite !bind_Ok.
  assert ((if is_p2wpkh sc then let '(_, _, wit_prog) := is_witness sc in map chr [0x76; 0xa9; 0x14] ++ wit_prog ++ map chr [0x88; 0xac] else sc) =
    (if is_p2wpkh sc then map chr [0x76; 0xa9; 0x14] ++ (is_witness sc).2 ++ map chr [0x88; 0xac] else sc)) as ->.
  { by destruct (is_p2wpkh sc), (is_witness sc) as [[? ?] ?]. }
  cbv zeta. cbn [mapR]. destruct (pack_s 4 (nVersion tx)); [|done]. rewrite !bind_Ok. destruct (COutPoint_serialize (prevout txin)); [|done]. rewrite !bind_Ok.
  destruct (ser_string _); [|done]. rewrite !bind_Ok. destruct (pack_s 8 amount); [|done]. rewrite !bind_Ok.
  destruct (pack_u 4 (nSequence txin)); [|done]. rewrite !bind_Ok. destruct (pack_u 4 (nLockTime tx)); [|done]. rewrite !bind_Ok.
  cbn [concat]. by rewrite app_nil_r.
Qed.
End lemmas.

Section lemmas2.
Context `{Hashes}.

(** The amount of a witness spend: only the witness UTXO is asked for it. *)
Definition witness_amount (psbt_in : PsbtIn) : result Z := of_option AssertionError (nValue <$> in_witness_utxo psbt_in).

Lemma input_sighash_spend tx i txin psbt_in utxo k : blank tx → vin tx !! i = Some txin → input_utxo txin psbt_in = Ok (Some utxo) →
  spends (scriptPubKey utxo) (in_redeem_script psbt_in) (in_witness_script psbt_in) k →
  input_sighash tx i txin psbt_in = (d ← spend_digest tx i (witness_amount psbt_in) k; Ok (Some (d, tx))).
Proof.
  intros Hb Hi Hu Hk. unfold input_sighash. rewrite Hu, bind_Ok. cbv zeta. destruct k as [h|r|h|s]; cbn [spends spend_digest] in *.
  - destruct Hk as [Hh ->]. rewrite p2pkh_not_p2sh by done. cbn [andb orb]. cbv iota. rewrite p2pkh_not_witness by done.
    destruct (not_witness_programs (p2pkh_script h)) as [_ ->]; [by rewrite p2pkh_not_witness|]. cbn [andb negb orb]. cbv iota.
    assert (is_p2pkh (p2pkh_script h) = true) as -> by (apply is_p2pkh_iff; eauto). cbn [orb]. by apply set_script_sig_digest.
  - destruct Hk as ((h & Hh & ->) & -> & Hr & Hw). rewrite p2sh_is_p2sh by done. rewrite bool_decide_false by done. cbn [andb orb]. cbv iota.
    destruct (is_witness r) as [[b v] p] eqn:Ew. cbn in Hw. subst b. destruct (not_witness_programs r) as [_ ->]; [by rewrite Ew|].
    cbn [andb negb orb]. cbv iota. by apply set_script_sig_digest.
  - destruct Hk as [Hh Ho]. destruct (wit0_output_code _ _ _ ltac:(rewrite Hh; lia) Ho) as [-> ->]. cbv iota.
    rewrite wit0_witness by (rewrite Hh; lia). destruct (wit0_programs h) as [Hp1 Hp2]; [rewrite Hh; lia|]. rewrite Hp2, Hh. cbn [andb negb Z.eqb Pos.eqb]. cbv iota.
    unfold witness_amount. destruct (in_witness_utxo psbt_in) as [w|]; [|done]. cbn [fmap option_fmap option_map of_option]. rewrite !bind_Ok.
    apply witness_preimage_digest; [done|]. rewrite Hp1, Hh. cbn [Z.eqb Pos.eqb]. by rewrite wit0_witness by (rewrite Hh; lia).
  - destruct Hk as (-> & Hs & Hns & h & Hh & Ho). destruct (wit0_output_code _ _ _ ltac:(rewrite Hh; lia) Ho) as [-> ->]. cbv iota.
    rewrite wit0_witness by (rewrite Hh; lia). destruct (wit0_programs h) as [Hp1 Hp2]; [rewrite Hh; lia|]. rewrite Hp2, Hh. cbn [Z.eqb Pos.eqb].
    rewrite bool_decide_false by done. cbn [andb negb]. cbv iota.
    unfold witness_amount. destruct (in_witness_utxo psbt_in) as [w|]; [|done]. cbn [fmap option_fmap option_map of_option]. rewrite !bind_Ok.
    apply witness_preimage_digest; [done|]. by rewrite Hns.
Qed.
End lemmas2.

(** ** The tuples of a transaction *)

Section tuples.
Context `{Hashes}.

Lemma input_sighash_tx tx i txin x h tx' : blank tx → input_sighash tx i txin x = Ok (Some (h, tx')) → tx' = tx.
Proof.
  intros Hb Hs. unfold input_sighash in Hs. apply bind_ok in Hs as (u & _ & Hs). destruct u as [utxo|]; [|discriminate].
  cbv zeta in Hs. destruct (_ && _); [discriminate|]. destruct (is_witness _) as [[w ?] ?]. destruct (_ && _); [discriminate|]. destruct w; cbn [negb] in Hs.
  - apply bind_ok in Hs as (a & _ & Hs). by apply bind_ok in Hs as (b & _ & [= _ <-]).
  - destruct (_ || _); [|discriminate]. apply bind_ok in Hs as (b & _ & [= _ <-]). by apply set_script_sig_blank.
Qed.

(** The tuples of the input [i]. *)
Definition tuples_of (master_fp : bytes) (tx : CTransaction) (i : nat) (x : PsbtIn) : list sighash_tuple :=
  match vin tx !! i with
  | Some txin => match input_sighash tx i txin x with Ok (Some (h, _)) => input_tuples master_fp h i x | _ => [] end
  | None => []
  end.

(** Every input has a hash, or is skipped. *)
Definition hashed (tx : CTransaction) (ins : list PsbtIn) : Prop :=
  ∀ i txin x, vin tx !! i = Some txin → ins !! i = Some x → is_ok (input_sighash tx i txin x) = true.

Fixpoint all_tuples (fp : bytes) (tx : CTransaction) (i : nat) (ins : list PsbtIn) : list sighash_tuple :=
  match ins with [] => [] | x :: ins => tuples_of fp tx i x ++ all_tuples fp tx (S i) ins end.

Lemma all_tuples_none fp tx i ins : vin tx !! i = None → all_tuples fp tx i ins = [].
Proof.
  revert i. induction ins as [|x ins IH]; intros i Hi; [done|]. cbn [all_tuples]. unfold tuples_of. rewrite Hi. apply IH.
  apply lookup_ge_None in Hi. apply lookup_ge_None. lia.
Qed.

Lemma sighash_loop_tuples fp tx i ins : blank tx →
  (∀ j txin x, vin tx !! (i + j)%nat = Some txin → ins !! j = Some x → is_ok (input_sighash tx (i + j) txin x) = true) →
  sighash_loop fp tx i ins = Ok (all_tuples fp tx i ins, tx).
Proof.
  intros Hb. revert i. induction ins as [|x ins IH]; intros i Hh; [done|]. cbn [sighash_loop].
  destruct (vin tx !! i) as [txin|] eqn:Ei; [|by rewrite all_tuples_none].
  assert (is_ok (input_sighash tx i txin x) = true) as Ho by (specialize (Hh 0%nat txin x); rewrite Nat.add_0_r in Hh; by apply Hh).
  assert (sighash_loop fp tx (S i) ins = Ok (all_tuples fp tx (S i) ins, tx)) as Hrest.
  { apply IH. intros j t y Ht Hy. specialize (Hh (S j) t y). rewrite Nat.add_succ_r in Hh. by apply Hh. }
  cbn [all_tuples]. unfold tuples_of. rewrite Ei. destruct (input_sighash tx i txin x) as [h|] eqn:Eh; [|done]. rewrite bind_Ok.
  destruct h as [[h tx']|]; [rewrite (input_sighash_tx _ _ _ _ _ _ Hb Eh)|]; by rewrite Hrest, bind_Ok.
Qed.
End tuples.

(** ** Signing *)

(** The reply of a device that signs: a list of signatures in hexadecimal. *)
Definition sign_reply (sigs : list bytes) : json := JDict [($"sign", JList (map (λ s, JDict [($"sig", JStr (hexlify s))]) sigs))].

(** A signature of two nonzero numbers of 32 bytes. *)
Definition sig_ok (sig : bytes) : Prop := length sig = 64%nat ∧ be_int (take 32 sig) ≠ 0 ∧ be_int (drop 32 sig) ≠ 0.

(** The signature as it goes into the PSBT. *)
Definition der_sig (sig : bytes) : bytes := match ser_sig_der (slice 0 32 sig) (slice 32 64 sig) with Ok b => b | Err _ => [] end.

Lemma der_sig_ok sig : sig_ok sig → ser_sig_der (slice 0 32 sig) (slice 32 64 sig) = Ok (der_sig sig).
Proof.
  intros (Hl & Hr & Hs). unfold der_sig.
  assert (slice 0 32 sig = take 32 sig) as E1 by done. assert (slice 32 64 sig = drop 32 sig) as E2.
  { unfold slice. apply take_ge. rewrite length_drop. lia. }
  rewrite E1, E2. destruct (ser_sig_der_strict (take 32 sig) (drop 32 sig)) as (R & S & _ & _ & _ & _ & E);
    [unfold len; rewrite length_take; lia|unfold len; rewrite length_drop; lia|done|done|]. by rewrite E.
Qed.

Lemma reply_sigs_reply sigs : Forall sig_ok sigs → reply_sigs (sign_reply sigs) = Ok (map der_sig sigs).
Proof.
  intros Hs. unfold reply_sigs, sign_reply. cbn [json_item dict_get of_option]. rewrite decide_True by done. cbn [of_option]. rewrite bind_Ok. cbn [json_iter]. rewrite bind_Ok.
  assert (mapR (λ item, v ← json_item $"sig" item; s ← json_str v; unhexlify s) (map (λ s, JDict [($"sig", JStr (hexlify s))]) sigs) = Ok sigs) as ->.
  { clear Hs. induction sigs as [|s sigs IH]; [done|]. cbn [map mapR json_item dict_get]. rewrite decide_True by done. cbn [of_option]. rewrite bind_Ok.
    cbn [json_str]. rewrite bind_Ok, unhexlify_hexlify, bind_Ok, IH. done. }
  rewrite bind_Ok. induction Hs as [|s sigs Hs1 Hs IH]; [done|]. cbn [map mapR]. by rewrite der_sig_ok, bind_Ok, IH by done.
Qed.

(** What the signatures do to one input. *)
Definition sigs_at (i : nat) (l : list (sighash_tuple * bytes)) : pydict bytes bytes :=
  omap (λ ts : sighash_tuple * bytes, if bool_decide (ts.1.1.2 = i) then Some (ts.1.2, ts.2) else None) l.

Definition add_sigs (d : pydict bytes bytes) (x : PsbtIn) : PsbtIn :=
  set_partial_sigs (foldl (λ d kv, dict_set kv.1 kv.2 d) (in_partial_sigs x) d) x.

Lemma set_partial_sigs_id x : set_partial_sigs (in_partial_sigs x) x = x.
Proof. by destruct x. Qed.

Lemma foldl_add_sig l psbt :
  psbt_inputs (foldl add_sig psbt l) = imap (λ i x, add_sigs (sigs_at i l) x) (psbt_inputs psbt) ∧
  foldl add_sig psbt l = set_inputs (psbt_inputs (foldl add_sig psbt l)) psbt.
Proof.
  revert psbt. induction l as [|[[[[h p] i] pk] sig] l IH]; intros psbt.
  - split; [|by destruct psbt]. cbn [foldl sigs_at omap list_omap]. symmetry. apply list_eq. intros j. rewrite list_lookup_imap.
    destruct (psbt_inputs psbt !! j) as [x|]; [|done]. cbn. unfold add_sigs. cbn [foldl]. by rewrite set_partial_sigs_id.
  - cbn [foldl]. destruct (IH (add_sig psbt (h, p, i, pk, sig))) as [IH1 IH2]. split.
    + etransitivity; [exact IH1|]. cbn [add_sig psbt_inputs set_inputs]. apply list_eq. intros j. rewrite !list_lookup_imap.
      destruct (decide (i = j)) as [->|Hj].
      * rewrite list_lookup_alter_eq. destruct (psbt_inputs psbt !! j) as [x|]; [|done]. cbn [fmap option_fmap option_map]. f_equal.
        unfold add_sigs, sigs_at. cbn [omap list_omap fst snd]. rewrite bool_decide_true by done. cbn [foldl fst snd]. by destruct x.
      * rewrite list_lookup_alter_ne by done. destruct (psbt_inputs psbt !! j) as [x|]; [|done]. cbn [fmap option_fmap option_map]. f_equal.
        unfold sigs_at. cbn [omap list_omap fst snd]. by rewrite bool_decide_false by done.
    + etransitivity; [exact IH2|]. by destruct psbt.
Qed.

(** A device that signs what it is asked to of these tuples: a request for some
    of them in a row is answered twice, the second time with the signature of
    each hash by the key at its path. *)
Definition signs {D} (send : pystr → state D json) (sig : pystr → pystr → bytes) (all : list sighash_tuple) : Prop :=
  ∀ before tups after d, all = before ++ tups ++ after → tups ≠ [] → (length tups <= 15)%nat →
    ∃ r d1 d2, send (sign_data tups) d = (Ok r, d1) ∧ json_has $"error" r = false ∧
      send (sign_data tups) d1 = (Ok (sign_reply (map (λ t : sighash_tuple, sig t.1.1.1 t.1.1.2) tups)), d2).

(** The tuple with its signature. *)
Definition signed (sig : pystr → pystr → bytes) (t : sighash_tuple) : sighash_tuple * bytes := (t, der_sig (sig t.1.1.1 t.1.1.2)).

Lemma dbb_request_ok {D} (send : pystr → state D json) s d r d1 : send s d = (Ok r, d1) → json_has $"error" r = false →
  dbb_request send s d = (Ok (inr r), d1).
Proof. intros E Hr. unfold dbb_request. rewrite (state_bind_eval _ _ _ _ _ E), Hr. done. Qed.

Lemma dbb_bind_inr {D A B} (m : dbb D A) (f : A → dbb D B) d a d1 : m d = (Ok (inr a), d1) → dbb_bind m f d = f a d1.
Proof. intros E. unfold dbb_bind. by rewrite (state_bind_eval _ _ _ _ _ E). Qed.

Lemma zip_signed sig l : zip l (map der_sig (map (λ t : sighash_tuple, sig t.1.1.1 t.1.1.2) l)) = map (signed sig) l.
Proof. induction l as [|t l IH]; [done|]. cbn [map zip zip_with]. by rewrite IH. Qed.

Lemma sign_batches_ok {D} (send : pystr → state D json) sig fuel before tuples psbt d : signs send sig (before ++ tuples) → (∀ h p, sig_ok (sig h p)) →
  (length tuples <= fuel)%nat →
  ∃ d', sign_batches send fuel tuples psbt d = (Ok (inr (foldl add_sig psbt (map (signed sig) tuples))), d').
Proof.
  intros Hsend Hsig. revert before tuples psbt d Hsend. induction fuel as [|fuel IH]; intros before tuples psbt d Hsend Hf.
  { destruct tuples; [|cbn in Hf; lia]. by exists d. }
  destruct tuples as [|t tuples]; [by exists d|]. set (tups := take 15 (t :: tuples)).
  destruct (Hsend before tups (drop 15 (t :: tuples)) d) as (r & d1 & d2 & E1 & Hr & E2); [by unfold tups; rewrite take_drop|done|unfold tups; rewrite length_take; lia|].
  change (∃ d', (dbb_bind (dbb_request send (sign_data tups)) (λ _,
          dbb_bind (dbb_request send (sign_data tups)) (λ reply,
            der_sigs ← liftS (reply_sigs reply);
            sign_batches send fuel (drop 15 (t :: tuples)) (foldl add_sig psbt (zip tups der_sigs))))) d =
    (Ok (inr (foldl add_sig psbt (map (signed sig) (t :: tuples)))), d')).
  rewrite (dbb_bind_inr _ _ _ _ _ (dbb_request_ok _ _ _ _ _ E1 Hr)).
  rewrite (dbb_bind_inr _ _ _ _ _ (dbb_request_ok _ _ _ _ _ E2 eq_refl)).
  erewrite state_bind_eval; [|unfold liftS; rewrite reply_sigs_reply; [reflexivity|apply Forall_map; by apply Forall_true]].
  rewrite zip_signed. destruct (IH (before ++ tups) (drop 15 (t :: tuples)) (foldl add_sig psbt (map (signed sig) tups)) d2) as [d' E].
  { by unfold tups; rewrite <- app_assoc, take_drop. }
  { rewrite length_drop. cbn [length] in *. lia. }
  exists d'. rewrite E, <- foldl_app, <- map_app. unfold tups. by rewrite take_drop.
Qed.

(** The signatures of one input are those of its tuples. *)
Lemma sigs_at_tuples `{Hashes} sig fp tx ins i j x : ins !! j = Some x →
  sigs_at (i + j) (map (signed sig) (all_tuples fp tx i ins)) = sigs_at (i + j) (map (signed sig) (tuples_of fp tx (i + j) x)).
Proof.
  assert (∀ k l, k ≠ l → ∀ y, sigs_at k (map (signed sig) (tuples_of fp tx l y)) = []) as Hother.
  { intros k l Hk y. unfold tuples_of. destruct (vin tx !! l); [|done]. destruct (input_sighash _ _ _ _) as [[[h ?]|]|]; try done.
    unfold input_tuples. induction (in_hd_keypaths y) as [|[pk o] kvs IH]; [done|]. cbn [omap list_omap fst snd].
    destruct (bool_decide (fp = fingerprint o)); [|exact IH]. cbn [map]. unfold sigs_at in *. cbn [omap list_omap signed fst snd].
    rewrite bool_decide_false by done. exact IH. }
  assert (∀ k l i, (k < i)%nat → sigs_at k (map (signed sig) (all_tuples fp tx i l)) = []) as Hlater.
  { intros k l. induction l as [|y l IH]; intros i' Hi; [done|]. cbn [all_tuples]. unfold sigs_at in *. rewrite map_app, omap_app, IH by lia.
    rewrite app_nil_r. apply Hother. lia. }
  revert i j. induction ins as [|y ins IH]; intros i j Hj; [done|]. cbn [all_tuples]. unfold sigs_at in *. rewrite map_app, omap_app.
  destruct j as [|j].
  - injection Hj as ->. rewrite Nat.add_0_r. rewrite Hlater by lia. by rewrite app_nil_r.
  - rewrite (Hother (i + S j)%nat i) by lia. cbn [app]. rewrite <- (Nat.add_succ_comm i j). apply (IH (S i) j). exact Hj.
Qed.

(** The items of one input: its keys with the device's fingerprint. *)
Lemma sigs_at_input sig fp h i x : NoDup (in_hd_keypaths x).*1 → ∀ pk,
  dict_get pk (sigs_at i (map (signed sig) (input_tuples fp h i x))) =
    (o ← dict_get pk (in_hd_keypaths x); if bool_decide (fp = fingerprint o) then Some (der_sig (sig (hexlify h) (get_derivation_path o))) else None) ∧
  NoDup (sigs_at i (map (signed sig) (input_tuples fp h i x))).*1.
Proof.
  intros Hd pk.
  assert (sigs_at i (map (signed sig) (input_tuples fp h i x)) =
    omap (λ kv, w ← (if bool_decide (fp = fingerprint kv.2) then Some (der_sig (sig (hexlify h) (get_derivation_path kv.2))) else None); Some (kv.1, w))
      (in_hd_keypaths x)) as ->.
  { unfold input_tuples. clear Hd. induction (in_hd_keypaths x) as [|[k o] kvs IH]; [done|]. cbn [omap list_omap fst snd].
    destruct (bool_decide (fp = fingerprint o)); cbn [mbind option_bind]; [|exact IH]. cbn [map]. unfold sigs_at in *. cbn [omap list_omap signed fst snd].
    rewrite bool_decide_true by done. by rewrite IH. }
  exact (dict_get_omap (λ kv : bytes * KeyOriginInfo, if bool_decide (fp = fingerprint kv.2) then Some (der_sig (sig (hexlify h) (get_derivation_path kv.2))) else None) _ pk Hd).
Qed.

(** The signature that is due for a key of an input. *)
Definition expected_sig `{Hashes} (sig : pystr → pystr → bytes) (fp : bytes) (tx : CTransaction) (i : nat) (x : PsbtIn) (pk : bytes) : option bytes :=
  txin ← vin tx !! i;
  match input_sighash tx i txin x with
  | Ok (Some (h, _)) =>
      o ← dict_get pk (in_hd_keypaths x);
      if bool_decide (fp = fingerprint o) then Some (der_sig (sig (hexlify h) (get_derivation_path o))) else None
  | _ => None
  end.

Lemma sigs_of_input `{Hashes} sig fp tx i x : NoDup (in_hd_keypaths x).*1 → ∀ pk,
  dict_get pk (sigs_at i (map (signed sig) (tuples_of fp tx i x))) = expected_sig sig fp tx i x pk ∧
  NoDup (sigs_at i (map (signed sig) (tuples_of fp tx i x))).*1.
Proof.
  intros Hd pk. unfold tuples_of, expected_sig. destruct (vin tx !! i) as [txin|]; [|split; [done|constructor]]. cbn [mbind option_bind].
  destruct (input_sighash tx i txin x) as [[[h ?]|]|]; [|split; [done|constructor]..]. by apply sigs_at_input.
Qed.

(** * Properties *)

(** C29: for an output to a key hash, a script, or a version 0 witness key hash
    or script (by itself or in P2SH), the hash that is signed is that of the
    original signature hash algorithm, respectively of BIP 143, for type ALL with
    the script code of that output, and the transaction is left as it was; a
    witness spend without witness UTXO is an AssertionError. *)
Theorem dbb_sighash_standard `{Hashes} (tx : CTransaction) (i : nat) (txin : CTxIn) (psbt_in : PsbtIn) (utxo : CTxOut) (k : spend)
    (Hblank : blank tx) (Hi : vin tx !! i = Some txin) (Hutxo : input_utxo txin psbt_in = Ok (Some utxo))
    (Hk : spends (scriptPubKey utxo) (in_redeem_script psbt_in) (in_witness_script psbt_in) k) :
  input_sighash tx i txin psbt_in =
    (d ← spend_digest tx i (of_option AssertionError (nValue <$> in_witness_utxo psbt_in)) k; Ok (Some (d, tx))).
Proof. by apply input_sighash_spend with utxo. Qed.

(** C30: with a device that signs the hashes it is given, [sign_tx] returns the
    PSBT in which every input has, besides the signatures it had, exactly the
    device's signature of the input's hash for every key whose origin has the
    device's fingerprint, made with the key at that key's path, however many
    there are; nothing else of the PSBT changes. *)
Theorem dbb_sign_tx_complete `{Hashes} {D : Type} (send : pystr → state D json) (chain : Chain) (sig : pystr → pystr → bytes)
    (psbt : PSBT) (tx : CTransaction) (Htx : get_unsigned_tx psbt = Ok tx)
    (Hblank : blank tx) (Hhashed : hashed tx (psbt_inputs psbt)) (Hdict : Forall (λ x, NoDup (in_hd_keypaths x).*1) (psbt_inputs psbt))
    (fp : bytes) (d d1 : D) (Hfp : dbb_master_fingerprint send chain d = (Ok fp, d1))
    (Hsend : signs send sig (all_tuples fp tx 0 (psbt_inputs psbt))) (Hsig : ∀ h p, sig_ok (sig h p)) :
  ∃ psbt' d', dbb_sign_tx send chain psbt false d = (Ok (Some psbt'), d') ∧
    psbt' = set_inputs (psbt_inputs psbt') psbt ∧ length (psbt_inputs psbt') = length (psbt_inputs psbt) ∧
    ∀ i x, psbt_inputs psbt !! i = Some x → ∃ sigs, psbt_inputs psbt' !! i = Some (set_partial_sigs sigs x) ∧
      ∀ pk, dict_get pk sigs = match expected_sig sig fp tx i x pk with Some s => Some s | None => dict_get pk (in_partial_sigs x) end.
Proof.
  assert ((if psbt_version psbt =? 0 then set_tx tx psbt else psbt) = psbt) as Eset.
  { unfold get_unsigned_tx in Htx. destruct (psbt_version psbt =? 0); [|done]. injection Htx as <-. by destruct psbt. }
  destruct (foldl_add_sig (map (signed sig) (all_tuples fp tx 0 (psbt_inputs psbt))) psbt) as [Hin Hset].
  set (psbt' := foldl add_sig psbt (map (signed sig) (all_tuples fp tx 0 (psbt_inputs psbt)))) in *.
  assert (∃ d', dbb_sign_tx send chain psbt false d = (Ok (Some psbt'), d')) as [d' E].
  { unfold dbb_sign_tx, digitalbitbox_exception. rewrite Htx.
    destruct (sign_batches_ok send sig (length (all_tuples fp tx 0 (psbt_inputs psbt))) [] (all_tuples fp tx 0 (psbt_inputs psbt)) psbt d1 Hsend Hsig)
      as [d' E]; [lia|].
    exists d'. erewrite (state_bind_eval _ _ _ (inr psbt') d'); [reflexivity|]. erewrite state_bind_eval; [|reflexivity].
    rewrite (state_bind_eval _ _ _ _ _ Hfp). erewrite state_bind_eval; [|unfold liftS; by rewrite sighash_loop_tuples].
    cbv beta iota zeta. rewrite Eset. destruct (all_tuples fp tx 0 (psbt_inputs psbt)) as [|t ts] eqn:Et; [|exact E].
    cbn [length sign_batches] in E. exact E. }
  exists psbt', d'. split; [exact E|]. split; [exact Hset|]. rewrite Hin. split; [apply length_imap|].
  intros i x Hx. rewrite list_lookup_imap, Hx. cbn [fmap option_fmap option_map]. eexists. split; [reflexivity|]. intros pk.
  rewrite Forall_lookup in Hdict. pose proof (Hdict i x Hx) as Hd. destruct (sigs_of_input sig fp tx i x Hd pk) as [Hg Hn].
  pose proof (sigs_at_tuples sig fp tx (psbt_inputs psbt) 0 i x Hx) as Es. cbn [Nat.add] in Es. rewrite Es.
  rewrite dict_get_set_items by done. by rewrite Hg.
Qed.

(** With new firmware, what [send_encrypt] returns is the text of an
    error, a reply the device gave in the clear, or the JSON value in a
    ciphertext that carries the HMAC of the password's authentication key; and
    a reply that was sealed with the keys of the password is opened to its value. *)
Theorem dbb_reply_authentic `{Hashes} `{MoreHashes} {D : Type} (dev : dbb_device D) (rounds : nat) (message : pyexn → pystr)
    (aes_encrypt aes_decrypt : bytes → bytes → bytes → result bytes) (password msg : pystr) (major minor rev : Z) (d d1 : D)
    (Hversion : get_firmware_version dev d = (Ok (major, minor, rev), d1)) (Hmajor : 5 <= major)
    (encryption_key authentication_key : bytes) (Hkeys : derive_keys password = (encryption_key, authentication_key)) :
  (∀ r d', send_encrypt dev rounds message aes_encrypt aes_decrypt password msg d = (Ok r, d') →
     (∃ e, r = error_reply ($"Exception caught while sending encrypted message to DigitalBitbox " ++ message e)) ∨
     ∃ request reply d2, send_plain dev rounds message request d2 = (Ok reply, d') ∧
       (reply = r ∧ json_has $"ciphertext" r = false ∨
        ∃ c b ct plaintext text, json_item $"ciphertext" reply = Ok c ∧ join_json c = Ok b ∧
          b64decode b = Ok (ct ++ hmac_sha256 authentication_key ct) ∧
          aes_decrypt encryption_key (take 16 ct) (drop 16 ct) = Ok plaintext ∧ decode_utf8 plaintext = Ok text ∧ json_loads text = Ok r)) ∧
  (∀ iv text v c, length iv = 16%nat → json_loads text = Ok (JDict v) → aes_decrypt encryption_key iv c = Ok (encode_utf8 text) →
     open_reply aes_decrypt encryption_key (Some authentication_key)
       (JDict [($"ciphertext", JStr (b64encode ((iv ++ c) ++ hmac_sha256 authentication_key (iv ++ c))))]) = Ok (JDict v)).
Proof.
  split.
  - intros r d' E. unfold send_encrypt, except_exception in E. rewrite (state_bind_eval _ _ _ _ _ Hversion) in E. cbv beta iota in E.
    rewrite (proj2 (Z.leb_le 5 major) Hmajor), Hkeys in E. cbv beta iota zeta in E.
    match type of E with match ?m ?s with _ => _ end = _ => destruct (m s) as [[r1|e] d2] eqn:Em end.
    2: { destruct (is_python e); [|discriminate]. injection E as <- <-. left. by exists e. }
    injection E as -> ->. right. apply state_bind_ok in Em as (ct & d3 & _ & Em). apply state_bind_ok in Em as (reply & d4 & Hp & Em).
    eexists _, reply, d3. destruct (json_has $"ciphertext" reply) eqn:Eh.
    + injection Em as Eo <-. split; [exact Hp|]. right. unfold open_reply in Eo. apply bind_ok in Eo as (c & Hc & Eo).
      apply bind_ok in Eo as (b & Hb & Eo). apply bind_ok in Eo as (raw & Hraw & Eo). apply bind_ok in Eo as (m & Hm & Eo).
      apply bind_ok in Hm as (u & Hu & [= <-]). revert Hu. case_bool_decide as Hmac; [discriminate|]. intros _.
      apply bind_ok in Eo as (pt & Hpt & Eo). apply bind_ok in Eo as (text & Ht & Eo). apply bind_ok in Eo as (v & Hv & Eo).
      exists c, b, (slice_to_neg 32 raw), pt, text. split; [done|]. split; [done|].
      split; [by rewrite <- Hmac, slice_split|]. split; [exact Hpt|]. split; [done|]. rewrite Hv. destruct v; try discriminate. exact Eo.
    + injection Em as <- <-. split; [exact Hp|]. by left.
  - intros iv text v c Hiv Hv Hdec. unfold open_reply. cbn [json_item dict_get]. rewrite decide_True by done. cbn [of_option]. rewrite bind_Ok.
    cbn [join_json]. rewrite bind_Ok, b64decode_plain, bind_Ok. cbv zeta.
    rewrite slice_to_neg_exact, slice_from_neg_exact by apply hmac_sha256_length. rewrite bool_decide_false by (intros Hn; by apply Hn).
    cbn [raise_if]. rewrite !bind_Ok. unfold decrypt_aes. rewrite take_app_length', drop_app_length' by done. rewrite Hdec, bind_Ok.
    rewrite decode_encode_utf8, bind_Ok. unfold loads_dict. by rewrite Hv.
Qed.

(** *** An example: one witness key hash output is spent *)

Definition example_keyhash : bytes := replicate 20 (chr 0x11).
Definition example_pubkey : bytes := chr 2 :: replicate 32 (chr 9).
Definition example_tx : CTransaction :=
  {| nVersion := 2; vin := [{| prevout := {| op_hash := 7; op_n := 1 |}; scriptSig := []; nSequence := 0xfffffffd |}];
     vout := [{| nValue := 9000; scriptPubKey := witness_script 0 example_keyhash |}]; wit := []; nLockTime := 0; tx_sha256 := None; tx_hash := None |}.
Definition example_path : list Z := [H_ 84; H_ 0; H_ 0; 0; 5].
Definition example_in : PsbtIn :=
  set_hd_keypaths [(example_pubkey, {| fingerprint := map chr [1; 2; 3; 4]; path := example_path |})]
    (set_witness_utxo (Some {| nValue := 10000; scriptPubKey := witness_script 0 example_keyhash |}) (PsbtIn_new 0)).
Definition example_psbt : PSBT := set_inputs [example_in] (set_tx example_tx PSBT_new).

Definition example_sig (h p : pystr) : bytes := replicate 64 (chr 1).

(** It gives the key of [Key.v] and signs one hash. *)
Definition example_send (s : pystr) : state () json :=
  mret (if bool_decide (len s < 20) then
          JDict [($"xpub", JStr (match ExtendedKey_to_string example_xpub with Ok s => s | Err _ => [] end))]
        else sign_reply [example_sig [] []]).

Lemma dbb_sighash_standard_witness :
  spends (witness_script 0 example_keyhash) [] [] (SpendWpkh example_keyhash) ∧
  is_ok (bip143_digest example_tx 0 (p2pkh_script example_keyhash) 10000) = true ∧
  input_sighash example_tx 0 {| prevout := {| op_hash := 7; op_n := 1 |}; scriptSig := []; nSequence := 0xfffffffd |} example_in =
    (d ← bip143_digest example_tx 0 (p2pkh_script example_keyhash) 10000; Ok (Some (d, example_tx))).
Proof.
  assert (spends (witness_script 0 example_keyhash) [] [] (SpendWpkh example_keyhash)) as Hs by (split; [reflexivity|left; reflexivity]).
  split; [exact Hs|]. split; [vm_compute; reflexivity|].
  apply (dbb_sighash_standard example_tx 0 _ example_in {| nValue := 10000; scriptPubKey := witness_script 0 example_keyhash |} (SpendWpkh example_keyhash)).
  - repeat constructor.
  - reflexivity.
  - reflexivity.
  - exact Hs.
Defined.

Lemma dbb_sign_tx_complete_witness : ∃ psbt' d' x' s,
  dbb_sign_tx example_send MAIN example_psbt false tt = (Ok (Some psbt'), d') ∧
  psbt_inputs psbt' !! 0%nat = Some x' ∧ dict_get example_pubkey (in_partial_sigs x') = Some s ∧ s = der_sig (replicate 64 (chr 1)).
Proof.
  destruct (dbb_sign_tx_complete example_send MAIN example_sig example_psbt example_tx) with (fp := map chr [1; 2; 3; 4]) (d := tt) (d1 := tt)
    as (psbt' & d' & E & _ & _ & Hin).
  - reflexivity.
  - repeat constructor.
  - intros [|i] txin x Ht Hx; [|discriminate]. injection Ht as <-. injection Hx as <-. vm_compute. reflexivity.
  - repeat constructor. intros Hx. inversion Hx.
  - vm_compute. reflexivity.
  - intros before tups after d Ha Hne _.
    assert (∃ t, all_tuples (map chr [1; 2; 3; 4]) example_tx 0 (psbt_inputs example_psbt) = [t] ∧ len (sign_data [t]) = 123) as (t & Et & Hl).
    { eexists. split; [reflexivity|]. vm_compute. reflexivity. }
    rewrite Et in Ha. assert (tups = [t]) as ->.
    { destruct before as [|b before]; [|destruct before; [destruct tups; [done|discriminate]|discriminate]].
      destruct tups as [|t1 [|t2 tups]]; [done| |discriminate]. by injection Ha as <- _. }
    unfold example_send. rewrite Hl. exists (sign_reply [example_sig [] []]), d, d. split; [reflexivity|]. split; reflexivity.
  - intros h p. split; [reflexivity|]. split; vm_compute; discriminate.
  - destruct (Hin 0%nat example_in eq_refl) as (sigs & Ex & Hsig). exists psbt', d', (set_partial_sigs sigs example_in), (der_sig (replicate 64 (chr 1))).
    split; [exact E|]. split; [exact Ex|]. split; [|reflexivity]. specialize (Hsig example_pubkey). cbn [in_partial_sigs set_partial_sigs]. rewrite Hsig.
    assert (expected_sig example_sig (map chr [1; 2; 3; 4]) example_tx 0 example_in example_pubkey = Some (der_sig (replicate 64 (chr 1)))) as -> by (vm_compute; reflexivity).
    reflexivity.
Defined.

(** Functions of the right sizes, and a device that does not answer. *)
#[local] Instance example_more_hashes : MoreHashes.
Proof.
  refine {| hmac_sha256 k m := sha256 (k ++ m); sha512 m := sha256 m ++ sha256 (chr 0 :: m); pbkdf2_sha512 p s n := sha256 (p ++ s) |}.
  - intros k m. apply sha256_length.
  - intros m. by rewrite length_app, !sha256_length.
Defined.

Definition example_dev : dbb_device () := {|
  is_simulator := false; hid_write _ := mret (); hid_read _ := raise PlainException; serial_number := mret $"dbb.fw:v7.1.0";
  socket_sendall _ := mret (); socket_recv _ := raise PlainException; urandom n := mret (replicate (Z.to_nat n) (chr 5)); local_time := mret $"2020" |}.

Lemma dbb_reply_authentic_witness :
  let '(e, a) := derive_keys $"pw" in
  let copy := λ _ _ x : bytes, Ok x in
  (∃ t, send_encrypt example_dev 0 (λ _, $"no answer") copy copy $"pw" $"{}" tt = (Ok (error_reply t), tt)) ∧
  open_reply copy e (Some a)
    (JDict [($"ciphertext", JStr (b64encode ((replicate 16 (chr 5) ++ $"{}") ++ hmac_sha256 a (replicate 16 (chr 5) ++ $"{}"))))]) = Ok (JDict []).
Proof.
  destruct (derive_keys $"pw") as [e a] eqn:Ek. cbv zeta.
  destruct (dbb_reply_authentic example_dev 0 (λ _, $"no answer") (λ _ _ x : bytes, Ok x) (λ _ _ x : bytes, Ok x) $"pw" $"{}" 7 1 0 tt tt
    eq_refl ltac:(lia) e a Ek) as [_ Hopen].
  split; [eexists; vm_compute; reflexivity|]. apply (Hopen (replicate 16 (chr 5)) $"{}" [] $"{}"); reflexivity.
Defined.

(** ** What the driver does not do *)

(** An error whose code is in none of the lists is dropped: the method returns
    nothing.  An error without a code, such as the driver's own for a device
    that does not answer, becomes a TypeError. *)
Lemma unlisted_error_dropped (c : json) :
  c = JInt 999 ∨ c = JInt 404 →
  dbb_handler (A := json) (JDict [($"error", JDict [($"message", JStr $"m"); ($"code", c)])]) = Ok None ∧
  ∀ text, dbb_handler (A := json) (error_reply text) = Err TypeError.
Proof. intros [-> | ->]; (split; [vm_compute|]; reflexivity). Qed.

(** The length in front of a message that is signed is that of its text: it is
    too small when the text has characters beyond ASCII. *)
Lemma message_length_of_text `{Hashes} :
  let send : pystr → state (list pystr) json := λ s d, (Ok (error_reply []), d ++ [s]) in
  (dbb_sign_message send [chr 0xE9] $"m/0h" []).2 =
    [$"{" ++ quote ++ $"sign" ++ quote ++ $":{" ++ quote ++ $"data" ++ quote ++ $":[{" ++ quote ++ $"hash" ++ quote ++ $":" ++ quote ++
     hexlify (hash256 (message_magic ++ map chr [1; 0xC3; 0xA9])) ++ quote ++ $"," ++ quote ++ $"keypath" ++ quote ++ $":" ++ quote ++ $"m/0h" ++ quote ++ $"}]}}"].
Proof. reflexivity. Qed.
