(* ===== verification/TrezorProtobuf.v ===== *)
(** * Trezor's protobuf codec (devices/trezorlib/protobuf.py)

    Variable-length integers, the signed interleaving, the readers, the decoder
    [load_message] and the encoder [dump_message], over an arbitrary module of
    message classes [messages] (the one of messages.py is in TrezorMessages).

    A reader is the bytes that are left of the [BytesIO] object together with
    the limits of the [LimitedReader] objects around it, the innermost one
    first.  An attribute holds a [value]; an [IntEnum] member is the integer it
    equals, and a message object is its class with its attributes.  Writers are
    the class [Writer], because the encoder is run twice on embedded messages:
    once on a [CountingWriter] and once on the real one.

    Fuel: [load_uvarint] and [load_message] have the number of bytes left plus
    one, since every round reads at least one; [dump_uvarint] has the number of
    binary digits; [dump_message] the nesting depth of the message, which is an
    argument. *)

From S2P Require Import Prelude Bytes Safe PyStd PyStr StateM.
#[local] Open Scope string_scope.
#[local] Open Scope list_scope.
#[local] Open Scope Z_scope.

(** ** Values and classes *)

Inductive value :=
  | VNone
  | VPlaceholder
  | VInt (z : Z)
  | VBool (b : bool)
  | VBytes (b : bytes)
  | VStr (s : pystr)
  | VMsg (cls : string) (attrs : list (string * value))
  | VList (l : list value).

#[export] Instance value_inhabited : Inhabited value := populate VNone.

Record Field := mkField {
  f_name : string;
  f_type : string;
  f_repeated : bool;
  f_required : bool;
  f_default : value }.

(** A keyword parameter of a constructor: it must be given, it has a default,
    or it is a list that [None] makes empty. *)
Inductive param := Needed | Default (v : value) | ListParam.

(** A message class: its wire type, its [FIELDS], and the parameters of its
    constructor, all of them keywords, in the order of the attributes ([None]
    for a class that has only the constructor it inherits). *)
Record msg_class := mkClass {
  MESSAGE_WIRE_TYPE : option Z;
  FIELDS : pydict Z Field;
  init_params : option (pydict string param) }.

Inductive type_object :=
  | TMsg (c : msg_class)
  | TEnum (members : list (string * Z)).

Definition WIRE_TYPE_INT : Z := 0.
Definition WIRE_TYPE_LENGTH : Z := 2.

Definition WIRE_TYPES : pydict string Z :=
  [("uint32", WIRE_TYPE_INT); ("uint64", WIRE_TYPE_INT); ("sint32", WIRE_TYPE_INT); ("sint64", WIRE_TYPE_INT);
   ("bool", WIRE_TYPE_INT); ("bytes", WIRE_TYPE_LENGTH); ("string", WIRE_TYPE_LENGTH)].

(** ** Readers *)

Record rd := mkRd { rest : bytes; limits : list Z }.

Definition zeros (n : Z) : bytes := replicate (Z.to_nat n) Byte.x00.

(** [reader.readinto(bytearray(n))]: the number of bytes read, the contents of
    the buffer afterwards, and the reader.  [BytesIO] fills what it can; a
    [LimitedReader] with too small a limit reads nothing. *)
Fixpoint readinto_at (n : Z) (ls : list Z) (s : bytes) : (Z * bytes) * (list Z * bytes) :=
  match ls with
  | [] =>
      let got := take (Z.to_nat n) s in
      ((len got, got ++ zeros (n - len got)), ([], drop (Z.to_nat n) s))
  | l :: ls' =>
      if l <? n then ((0, zeros n), (ls, s))
      else
        let '((nread, buf), (ls'', s')) := readinto_at n ls' s in
        ((nread, buf), (l - nread :: ls'', s'))
  end.

Definition readinto (n : Z) : state rd (Z * bytes) := λ r,
  let '(res, (ls, s)) := readinto_at n (limits r) (rest r) in (Ok res, mkRd s ls).

(** [bytearray(n)]: the length must be a machine word. *)
Definition bytearray (n : Z) : result Z := if maxsize <? n then Err OverflowError else Ok n.

(** Run on [LimitedReader(reader, limit)]; the underlying reader stays where the
    limited one got to. *)
Definition with_limit {A} (limit : Z) (m : state rd A) : state rd A := λ r,
  let '(res, r') := m (mkRd (rest r) (limit :: limits r)) in (res, mkRd (rest r') (tail (limits r'))).

(** [try: ... except EOFError]. *)
Definition catch_eof {A} (m : state rd A) : state rd (option A) := λ r,
  match m r with
  | (Ok a, r') => (Ok (Some a), r')
  | (Err EOFError, r') => (Ok None, r')
  | (Err e, r') => (Err e, r')
  end.

(** ** Variable-length integers *)

Fixpoint uvarint_loop (fuel : nat) (result shift bytes_read : Z) : state rd Z :=
  match fuel with
  | O => raise OutOfFuel
  | S fuel =>
      '(n, buffer) ← readinto 1;
      if n =? 0 then raise (if 0 <? bytes_read then OSError else EOFError)
      else
        let byte := ord (hd Byte.x00 buffer) in
        let result := result + Z.shiftl (Z.land byte 127) shift in
        if Z.land byte 128 =? 0 then mret result
        else uvarint_loop fuel result (shift + 7) (bytes_read + 1)
  end.

Definition load_uvarint : state rd Z := λ r, uvarint_loop (S (length (rest r))) 0 0 0 r.

(** What an object with a [write] method promises: writing is appending. *)
Class Writer (W : Type) := {
  write : bytes → W → W;
  write_nil : ∀ w, write [] w = w;
  write_app : ∀ a b w, write (a ++ b) w = write b (write a w) }.

#[export] Program Instance BytesIO : Writer bytes := {| write b w := w ++ b |}.
Next Obligation. intros w. apply app_nil_r. Qed.
Next Obligation. intros a b w. apply app_assoc. Qed.

#[export] Program Instance CountingWriter : Writer Z := {| write b size := size + len b |}.
Next Obligation. intros w. simpl. unfold len. simpl. lia. Qed.
Next Obligation. intros a b w. simpl. rewrite len_app. lia. Qed.

Section writing.
Context {W : Type} `{Writer W}.

Definition put (b : bytes) : state W () := modify (write b).

Fixpoint dump_uvarint_loop (fuel : nat) (n : Z) : state W () :=
  match fuel with
  | O => raise OutOfFuel
  | S fuel =>
      let shifted := Z.shiftr n 7 in
      put [chr (Z.lor (Z.land n 127) (if shifted =? 0 then 0 else 128))];;
      if shifted =? 0 then mret () else dump_uvarint_loop fuel shifted
  end.

Definition dump_uvarint (n : Z) : state W () :=
  if n <? 0 then raise ValueError else dump_uvarint_loop (S (Z.to_nat (Z.log2 n))) n.
End writing.

Definition sint_to_uint (sint : Z) : Z :=
  let res := Z.shiftl sint 1 in if sint <? 0 then Z.lnot res else res.

Definition uint_to_sint (uint : Z) : Z :=
  let sign := Z.land uint 1 in
  let res := Z.shiftr uint 1 in
  if sign =? 0 then res else Z.lnot res.

(** ** Python's dynamic operations on values *)

(** A value that compares with integers. *)
Definition number (v : value) : option Z :=
  match v with VInt z => Some z | VBool b => Some (Z.b2z b) | _ => None end.

(** [int(v)]; a byte string may not hold the separators that only text treats
    as white space, nor anything beyond ASCII. *)
Definition int_of (v : value) : result Z :=
  match v with
  | VInt z => Ok z
  | VBool b => Ok (Z.b2z b)
  | VStr s => int_str s
  | VBytes b =>
      if existsb (λ c, (128 <=? ord c) || ((28 <=? ord c) && (ord c <=? 31))) b then Err ValueError else int_str b
  | _ => Err TypeError
  end.

(** [for svalue in fvalue]. *)
Definition iterate (v : value) : result (list value) :=
  match v with
  | VList l => Ok l
  | VBytes b => Ok (map (λ c, VInt (ord c)) b)
  | VStr s => Ok (map (λ c, VStr [c]) s)
  | _ => Err TypeError
  end.

Definition value_fits (f : Field) (v : value) : result bool :=
  let within lo hi := z ← of_option TypeError (number v); Ok ((lo <=? z) && (z <? hi)) in
  if bool_decide (f_type f = "uint32") then within 0 (2 ^ 32)
  else if bool_decide (f_type f = "uint64") then within 0 (2 ^ 64)
  else if bool_decide (f_type f = "sint32") then within (- 2 ^ 31) (2 ^ 31)
  else if bool_decide (f_type f = "sint64") then within (- 2 ^ 63) (2 ^ 63)
  else Err ValueError.

Section codec.
(** [get_field_type_object]: the message classes and enumerations of the
    module, by name; and all classes there are, also those that other modules
    derive. *)
Context (messages : string → option type_object) (classes : string → option msg_class).

Definition wire_type (f : Field) : result Z :=
  match dict_get (f_type f) WIRE_TYPES with
  | Some w => Ok w
  | None =>
      match messages (f_type f) with
      | Some (TMsg _) => Ok WIRE_TYPE_LENGTH
      | Some (TEnum _) => Ok WIRE_TYPE_INT
      | None => Err ValueError
      end
  end.

(** ** Constructors *)

(** The constructor a class inherits, called with keywords only. *)
Definition MessageType_init (fields : pydict Z Field) (kwargs : pydict string value) : pydict string value :=
  map (λ '(_, f),
    (f_name f,
     match dict_get (f_name f) kwargs with
     | Some v => v
     | None => if f_repeated f then VList [] else if f_required f then VPlaceholder else f_default f
     end)) fields.

(** A generated constructor: unknown keywords and missing values are
    [TypeError]; every parameter becomes an attribute. *)
Definition generated_init (params : pydict string param) (kwargs : pydict string value) : result (pydict string value) :=
  raise_if (existsb (λ '(k, _), negb (dict_in k params)) kwargs) TypeError;;
  mapR (λ '(name, p),
    v ← match dict_get name kwargs, p with
        | Some VNone, ListParam => Ok (VList [])
        | Some v, _ => Ok v
        | None, Needed => Err TypeError
        | None, Default v => Ok v
        | None, ListParam => Ok (VList [])
        end;
    Ok (name, v)) params.

Definition construct (name : string) (c : msg_class) (kwargs : pydict string value) : result value :=
  match init_params c with
  | None => Ok (VMsg name (MessageType_init (FIELDS c) kwargs))
  | Some params => attrs ← generated_init params kwargs; Ok (VMsg name attrs)
  end.

(** ** Decoding *)

Definition decode_varint_field (f : Field) : state rd value :=
  w ← liftS (wire_type f);
  assert_ (w =? WIRE_TYPE_INT);;
  z ← load_uvarint;
  match messages (f_type f) with
  | Some (TEnum _) => mret (VInt z)
  | _ =>
      if String.prefix "uint" (f_type f) then liftS (value_fits f (VInt z));; mret (VInt z)
      else if String.prefix "sint" (f_type f) then
        let z := uint_to_sint z in liftS (value_fits f (VInt z));; mret (VInt z)
      else if bool_decide (f_type f = "bool") then mret (VBool (negb (z =? 0)))
      else raise TypeError
  end.

Fixpoint packed_loop (fuel : nat) (f : Field) (values : list value) : state rd (list value) :=
  match fuel with
  | O => raise OutOfFuel
  | S fuel =>
      v ← catch_eof (decode_varint_field f);
      match v with
      | None => mret values
      | Some v => packed_loop fuel f (values ++ [v])
      end
  end.

Definition decode_packed_array_field (f : Field) : state rd (list value) :=
  assert_ (f_repeated f);;
  length ← load_uvarint;
  with_limit length (λ r, packed_loop (S (List.length (rest r))) f [] r).

(** [buf = bytearray(n); reader.readinto(buf)]. *)
Definition read_buffer (n : Z) : state rd bytes :=
  n ← liftS (bytearray n);
  '(_, buf) ← readinto n;
  mret buf.

Definition decode_length_delimited_field (load_message : string → msg_class → state rd value) (f : Field) : state rd value :=
  n ← load_uvarint;
  if bool_decide (f_type f = "bytes") then
    buf ← read_buffer n; mret (VBytes buf)
  else if bool_decide (f_type f = "string") then
    buf ← read_buffer n; s ← liftS (decode_utf8 buf); mret (VStr s)
  else
    match messages (f_type f) with
    | Some (TMsg c) => with_limit n (load_message (f_type f) c)
    | _ => raise TypeError
    end.

(** An entry whose tag the class does not have. *)
Definition skip_field (wtype : Z) : state rd () :=
  if wtype =? WIRE_TYPE_INT then load_uvarint;; mret ()
  else if wtype =? WIRE_TYPE_LENGTH then
    ivalue ← load_uvarint; read_buffer ivalue;; mret ()
  else raise ValueError.

Definition decode_field (load_message : string → msg_class → state rd value) (f : Field) (wtype : Z) : state rd (list value) :=
  w ← liftS (wire_type f);
  if (wtype =? WIRE_TYPE_LENGTH) && (w =? WIRE_TYPE_INT) && f_repeated f then decode_packed_array_field f
  else if negb (wtype =? w) then raise ValueError
  else if wtype =? WIRE_TYPE_LENGTH then v ← decode_length_delimited_field load_message f; mret [v]
  else if wtype =? WIRE_TYPE_INT then v ← decode_varint_field f; mret [v]
  else raise TypeError.

(** The update of [msg_dict] with the values of an entry. *)
Definition store (f : Field) (fvalues : list value) (d : pydict string value) : result (pydict string value) :=
  if f_repeated f then
    match dict_get (f_name f) d with
    | Some (VList l) => Ok (dict_set (f_name f) (VList (l ++ fvalues)) d)
    | _ => Err KeyError
    end
  else
    match fvalues with
    | [v] => Ok (dict_set (f_name f) v d)
    | _ => Err ValueError
    end.

Definition preseed (c : msg_class) : pydict string value :=
  foldl (λ d '(_, f),
    if f_repeated f then dict_set (f_name f) (VList []) d
    else if f_required f then d
    else dict_set (f_name f) (f_default f) d) [] (FIELDS c).

Definition finish_message (name : string) (c : msg_class) (d : pydict string value) : result value :=
  raise_if (existsb (λ '(_, f), f_required f && negb (dict_in (f_name f) d)) (FIELDS c)) ValueError;;
  construct name c d.

(** The [while True] loop of [load_message]; an embedded message is loaded with
    the fuel that is left. *)
Fixpoint load_fields (fuel : nat) (c : msg_class) (d : pydict string value) : state rd (pydict string value) :=
  match fuel with
  | O => raise OutOfFuel
  | S fuel =>
      fkey ← catch_eof load_uvarint;
      match fkey with
      | None => mret d
      | Some fkey =>
          let ftag := Z.shiftr fkey 3 in
          let wtype := Z.land fkey 7 in
          match dict_get ftag (FIELDS c) with
          | None => skip_field wtype;; load_fields fuel c d
          | Some f =>
              let load_message name c :=
                d ← load_fields fuel c (preseed c); liftS (finish_message name c d) in
              fvalues ← decode_field load_message f wtype;
              d' ← liftS (store f fvalues d);
              load_fields fuel c d'
          end
      end
  end.

Definition load_message_fuel (fuel : nat) (name : string) (c : msg_class) : state rd value :=
  d ← load_fields fuel c (preseed c);
  liftS (finish_message name c d).

Definition load_message (name : string) (c : msg_class) : state rd value := λ r,
  load_message_fuel (S (length (rest r))) name c r.

(** [load_message(BytesIO(b), cls)]. *)
Definition load_bytes (name : string) (c : msg_class) (b : bytes) : result value :=
  (load_message name c (mkRd b [])).1.

(** ** Encoding *)

Definition class_fields (name : string) : pydict Z Field :=
  match classes name with Some c => FIELDS c | None => [] end.

(** One value of a field, after its key has been written.  [dump_message] is
    given for both kinds of writer. *)
Definition dump_value {W : Type} `{Writer W} (count_message : string → list (string * value) → state Z ())
    (dump_message : string → list (string * value) → state W ()) (f : Field) (svalue : value) : state W () :=
  match messages (f_type f) with
  | Some (TMsg _) =>
      match svalue with
      | VMsg name attrs =>
          if bool_decide (name = f_type f) then
            let '(r, size) := count_message name attrs 0 in
            liftS r;;
            dump_uvarint size;;
            dump_message name attrs
          else raise ValueError
      | _ => raise ValueError
      end
  | Some (TEnum members) =>
      match number svalue with
      | Some z => if bool_decide (z ∈ members.*2) then dump_uvarint z else raise ValueError
      | None => raise ValueError
      end
  | None =>
      if String.prefix "uint" (f_type f) then
        ok ← liftS (value_fits f svalue);
        if ok : bool then z ← liftS (of_option TypeError (number svalue)); dump_uvarint z else raise ValueError
      else if String.prefix "sint" (f_type f) then
        ok ← liftS (value_fits f svalue);
        if ok : bool then z ← liftS (of_option TypeError (number svalue)); dump_uvarint (sint_to_uint z)
        else raise ValueError
      else if bool_decide (f_type f = "bool") then
        z ← liftS (int_of svalue); dump_uvarint z
      else if bool_decide (f_type f = "bytes") then
        match svalue with
        | VBytes b => dump_uvarint (len b);; put b
        | _ => raise AssertionError
        end
      else if bool_decide (f_type f = "string") then
        match svalue with
        | VStr s => let b := encode_utf8 s in dump_uvarint (len b);; put b
        | _ => raise AssertionError
        end
      else raise TypeError
  end.

(** [for x in l: step(x)]. *)
Fixpoint for_each {S A} (step : A → state S ()) (l : list A) : state S () :=
  match l with
  | [] => mret ()
  | x :: l => step x;; for_each step l
  end.

(** The body of the loop over [FIELDS]. *)
Definition dump_field {W : Type} `{Writer W} (count_message : string → list (string * value) → state Z ())
    (dump_message : string → list (string * value) → state W ()) (attrs : list (string * value)) (ftag : Z) (f : Field) :
    state W () :=
  match default VNone (dict_get (f_name f) attrs) with
  | VPlaceholder => raise ValueError
  | VNone => mret ()
  | fvalue =>
      w ← liftS (wire_type f);
      let fkey := Z.lor (Z.shiftl ftag 3) w in
      svalues ← liftS (if f_repeated f then iterate fvalue else Ok [fvalue]);
      for_each (λ svalue, dump_uvarint fkey;; dump_value count_message dump_message f svalue) svalues
  end.

Fixpoint dump_message (fuel : nat) {W : Type} `{Writer W} (name : string) (attrs : list (string * value)) : state W () :=
  match fuel with
  | O => raise OutOfFuel
  | S fuel =>
      for_each (λ tf, dump_field (dump_message fuel) (dump_message fuel) attrs tf.1 tf.2) (class_fields name)
  end.

(** How deep messages are nested in a value; an object counts itself. *)
Fixpoint vdepth (v : value) : nat :=
  match v with
  | VMsg _ attrs =>
      S ((fix go (l : list (string * value)) : nat := match l with [] => O | (_, v) :: l => Nat.max (vdepth v) (go l) end) attrs)
  | VList l => (fix go (l : list value) : nat := match l with [] => O | v :: l => Nat.max (vdepth v) (go l) end) l
  | _ => O
  end.

(** [dump_message(BytesIO(), msg)] and the bytes written. *)
Definition dump_bytes (fuel : nat) (name : string) (attrs : list (string * value)) : result bytes :=
  let '(r, b) := dump_message fuel name attrs [] in r;; Ok b.
End codec.

(** ** Consuming bytes *)

(** The reader has the bytes [b] next, within all of its limits. *)
Definition holds (b : bytes) (r : rd) : Prop :=
  (∃ more, rest r = b ++ more) ∧ Forall (λ l, len b <= l) (limits r).

Definition after (b : bytes) (r : rd) : rd :=
  mkRd (drop (length b) (rest r)) (map (λ l, l - len b) (limits r)).

Definition consumes {A} (p : state rd A) (b : bytes) (a : A) : Prop :=
  ∀ r, holds b r → p r = (Ok a, after b r).

(** Nothing more can be read. *)
Definition ended (r : rd) : Prop := rest r = [] ∨ Exists (λ l, l <= 0) (limits r).

Lemma holds_app a b r : holds (a ++ b) r → holds a r ∧ holds b (after a r).
Proof.
  intros [[more Hr] Hl]. rewrite len_app in Hl. split; split.
  - exists (b ++ more). by rewrite app_assoc.
  - eapply Forall_impl; [exact Hl|]. simpl. intros l Hle. pose proof (len_nonneg b). lia.
  - exists more. simpl. rewrite Hr, <- app_assoc. by rewrite drop_app_length.
  - simpl. rewrite Forall_fmap. eapply Forall_impl; [exact Hl|]. simpl. intros l Hle. lia.
Qed.

Lemma after_app a b r : after (a ++ b) r = after b (after a r).
Proof.
  unfold after. simpl. rewrite drop_drop, length_app, map_map. f_equal.
  apply map_ext. intros l. rewrite len_app. lia.
Qed.

Lemma after_nil r : after [] r = r.
Proof.
  destruct r as [s ls]. unfold after. simpl. f_equal. rewrite <- (map_id ls) at 2. apply map_ext. intros l.
  unfold len. simpl. lia.
Qed.

Lemma consumes_bind {A B} (p : state rd A) (f : A → state rd B) b1 b2 a b :
  consumes p b1 a → consumes (f a) b2 b → consumes (p ≫= f) (b1 ++ b2) b.
Proof.
  intros Hp Hf r [H1 H2]%holds_app. rewrite (state_bind_eval _ _ _ _ _ (Hp r H1)), after_app. by apply Hf.
Qed.

Lemma consumes_bind_nil {A B} (p : state rd A) (f : A → state rd B) b2 a b :
  consumes p [] a → consumes (f a) b2 b → consumes (p ≫= f) b2 b.
Proof. intros Hp Hf. change b2 with ([] ++ b2). by eapply consumes_bind. Qed.

Lemma consumes_bind_end {A B} (p : state rd A) (f : A → state rd B) bs a b :
  consumes p bs a → consumes (f a) [] b → consumes (p ≫= f) bs b.
Proof. intros Hp Hf. rewrite <- (app_nil_r bs). by eapply consumes_bind. Qed.

Lemma consumes_ret {A} (a : A) : consumes (mret a) [] a.
Proof. intros r _. by rewrite after_nil. Qed.

Lemma consumes_lift {A} (x : result A) a : x = Ok a → consumes (liftS x) [] a.
Proof. intros -> r _. by rewrite after_nil. Qed.

Lemma consumes_assert b : b = true → consumes (assert_ b) [] ().
Proof. intros ->. by apply consumes_lift. Qed.

Lemma consumes_catch {A} (p : state rd A) b a : consumes p b a → consumes (catch_eof p) b (Some a).
Proof. intros Hp r Hr. unfold catch_eof. by rewrite (Hp r Hr). Qed.

#[export] Hint Resolve consumes_ret consumes_lift consumes_assert : core.

Lemma readinto_at_holds b ls s : Forall (λ l, len b <= l) ls →
  readinto_at (len b) ls (b ++ s) = ((len b, b), (map (λ l, l - len b) ls, s)).
Proof.
  induction 1 as [|l ls Hl _ IH]; simpl.
  - unfold len. rewrite Nat2Z.id, take_app_length, drop_app_length.
    replace (Z.of_nat (length b) - Z.of_nat (length b)) with 0 by lia. by rewrite app_nil_r.
  - rewrite (proj2 (Z.ltb_ge _ _) Hl), IH. done.
Qed.

Lemma consumes_readinto b n : n = len b → consumes (readinto n) b (n, b).
Proof.
  intros -> [s ls] [[more Hs] Hl]. simpl in *. subst s. unfold readinto. simpl.
  rewrite (readinto_at_holds b ls more Hl). unfold after. simpl. by rewrite drop_app_length.
Qed.

Lemma consumes_buffer b : len b <= maxsize → consumes (read_buffer (len b)) b b.
Proof.
  intros Hb. unfold read_buffer. eapply consumes_bind_nil.
  - apply consumes_lift. unfold bytearray. by rewrite (proj2 (Z.ltb_ge _ _) Hb).
  - eapply consumes_bind_end; [by apply consumes_readinto|]. apply consumes_ret.
Qed.

Lemma consumes_limit {A} (p : state rd A) b a n :
  n = len b → (∀ r, holds b r → ended (after b r) → p r = (Ok a, after b r)) → consumes (with_limit n p) b a.
Proof.
  intros -> Hp r [Hr Hl]. unfold with_limit. rewrite Hp.
  - done.
  - split; [done|]. constructor; [simpl; lia | done].
  - right. constructor. simpl. lia.
Qed.

(** At the end of the input a key is an [EOFError], and the reader stays. *)
Lemma readinto_at_ended ls s : s = [] ∨ Exists (λ l, l <= 0) ls →
  ∃ buf, readinto_at 1 ls s = ((0, buf), (ls, s)).
Proof.
  induction ls as [|l ls IH]; simpl.
  - intros [->|H]; [|by inversion H]. by eexists.
  - intros H. destruct (l <? 1) eqn:El; [by eexists|]. apply Z.ltb_ge in El.
    destruct IH as [buf ->]; [inversion H as [|H']; [by left|]; inversion H'; [lia|by right] |].
    exists buf. by rewrite Z.sub_0_r.
Qed.

Lemma load_uvarint_ended r : ended r → load_uvarint r = (Err EOFError, r).
Proof.
  intros H. destruct r as [s ls]. destruct (readinto_at_ended ls s H) as [buf Hb].
  unfold load_uvarint. simpl. erewrite state_bind_eval; [|unfold readinto; simpl; by rewrite Hb]. reflexivity.
Qed.

(** ** Variable-length integers are read back *)

Fixpoint uvarint (fuel : nat) (n : Z) : bytes :=
  match fuel with
  | O => []
  | S fuel =>
      if Z.shiftr n 7 =? 0 then [chr (Z.land n 127)]
      else chr (Z.lor (Z.land n 127) 128) :: uvarint fuel (Z.shiftr n 7)
  end.

Definition uvarint_bytes (n : Z) : bytes := uvarint (S (Z.to_nat (Z.log2 n))) n.

Lemma low7 n : 0 <= Z.land n 127 < 128.
Proof. change 127 with (Z.ones 7). rewrite Z.land_ones by lia. apply Z.mod_pos_bound. lia. Qed.

Lemma byte_last n : ord (chr (Z.land n 127)) = Z.land n 127 ∧ Z.land (Z.land n 127) 128 = 0.
Proof.
  pose proof (low7 n). split; [apply ord_chr_small; lia|]. rewrite <- Z.land_assoc. apply Z.land_0_r.
Qed.

Lemma byte_more n : let b := Z.lor (Z.land n 127) 128 in
  ord (chr b) = b ∧ Z.land b 127 = Z.land n 127 ∧ Z.land b 128 = 128.
Proof.
  pose proof (low7 n) as Hl. simpl. split_and!.
  - apply ord_chr_small. split; [apply Z.lor_nonneg; lia|].
    assert (Z.lor (Z.land n 127) 128 < 2 ^ 8); [|lia].
    destruct (Z.eq_dec (Z.lor (Z.land n 127) 128) 0) as [->|Hne]; [lia|].
    apply Z.log2_lt_pow2; [pose proof (proj2 (Z.lor_nonneg (Z.land n 127) 128)); lia|].
    rewrite Z.log2_lor by lia. apply Z.max_lub_lt; [|reflexivity].
    destruct (Z.eq_dec (Z.land n 127) 0) as [->|]; [reflexivity|]. apply Z.log2_lt_pow2; lia.
  - rewrite Z.land_lor_distr_l, <- Z.land_assoc. simpl. apply Z.lor_0_r.
  - rewrite Z.land_lor_distr_l, <- Z.land_assoc. simpl. by rewrite Z.land_0_r.
Qed.

Lemma split7 n k : 0 <= k → Z.shiftl (Z.land n 127) k + Z.shiftl (Z.shiftr n 7) (k + 7) = Z.shiftl n k.
Proof.
  intros Hk. change 127 with (Z.ones 7). rewrite Z.land_ones by lia.
  rewrite !Z.shiftl_mul_pow2, Z.shiftr_div_pow2 by lia. rewrite Z.pow_add_r by lia.
  pose proof (Z.div_mod n (2 ^ 7)). nia.
Qed.

(** The digits left after [fuel] rounds. *)
Lemma shiftr7_log2 n fuel : 0 <= n → Z.shiftr n 7 ≠ 0 → (Z.to_nat (Z.log2 n) < S fuel)%nat →
  0 <= Z.shiftr n 7 ∧ (Z.to_nat (Z.log2 (Z.shiftr n 7)) < fuel)%nat.
Proof.
  intros Hn Hne Hf. assert (0 <= Z.shiftr n 7) by (by apply Z.shiftr_nonneg). split; [done|].
  rewrite Z.log2_shiftr by (destruct (Z.eq_dec n 0) as [->|]; [done|lia]).
  assert (7 <= Z.log2 n); [|lia]. destruct (Z.le_gt_cases 7 (Z.log2 n)) as [|Hlt]; [done|].
  exfalso. apply Hne. apply Z.shiftr_eq_0; [done|lia].
Qed.

Lemma load_uvarint_loop fuel fuel' n acc shift cnt r :
  0 <= n → 0 <= shift → (Z.to_nat (Z.log2 n) < fuel')%nat → holds (uvarint fuel' n) r →
  (length (uvarint fuel' n) <= fuel)%nat →
  uvarint_loop fuel acc shift cnt r = (Ok (acc + Z.shiftl n shift), after (uvarint fuel' n) r).
Proof.
  revert fuel n acc shift cnt r. induction fuel' as [|fuel' IH]; intros fuel n acc shift cnt r Hn Hs Hf Hr Hl; [lia|].
  simpl in Hr, Hl |- *. destruct (Z.shiftr n 7 =? 0) eqn:Es.
  - apply Z.eqb_eq in Es. destruct fuel as [|fuel]; [simpl in Hl; lia|]. simpl.
    rewrite (state_bind_eval _ _ _ _ _ (consumes_readinto [_] 1 eq_refl r Hr)). simpl.
    destruct (byte_last n) as [-> Hb]. rewrite Hb. simpl. rewrite <- Z.land_assoc. simpl.
    rewrite <- (split7 n shift Hs), Es, Z.shiftl_0_l, Z.add_0_r. done.
  - apply Z.eqb_neq in Es. destruct (shiftr7_log2 n fuel' Hn Es Hf) as [Hn' Hf'].
    destruct fuel as [|fuel]; [simpl in Hl; lia|]. simpl in Hl |- *.
    apply (holds_app [_]) in Hr as [H1 H2].
    rewrite (state_bind_eval _ _ _ _ _ (consumes_readinto [_] 1 eq_refl r H1)). simpl.
    destruct (byte_more n) as (-> & -> & ->). simpl.
    rewrite (IH fuel (Z.shiftr n 7) _ (shift + 7) (cnt + 1) _ Hn' ltac:(lia) Hf' H2 ltac:(lia)).
    rewrite <- (split7 n shift Hs), Z.add_assoc. f_equal. symmetry. apply (after_app [_]).
Qed.

Lemma consumes_uvarint n : 0 <= n → consumes load_uvarint (uvarint_bytes n) n.
Proof.
  intros Hn r Hr. unfold load_uvarint.
  rewrite (load_uvarint_loop _ (S (Z.to_nat (Z.log2 n))) n 0 0 0 r Hn ltac:(lia) ltac:(lia) Hr).
  - by rewrite Z.shiftl_0_r.
  - destruct Hr as [[more ->] _]. fold (uvarint_bytes n). rewrite length_app. lia.
Qed.

Lemma uvarint_nonempty fuel n : (0 < fuel)%nat → (0 < length (uvarint fuel n))%nat.
Proof. destruct fuel; [lia|]. simpl. destruct (_ =? 0); simpl; lia. Qed.

(** ** Writing *)

(** Whatever the writer, the bytes [b] are written and the result is [r]. *)
Definition writes (m : ∀ W, Writer W → state W ()) (r : result ()) (b : bytes) : Prop :=
  ∀ W (H : Writer W) w, m W H w = (r, write b w).

Definition emits (m : ∀ W, Writer W → state W ()) (b : bytes) : Prop := writes m (Ok ()) b.

Lemma emits_nil : emits (λ W H, mret ()) [].
Proof. intros W H w. by rewrite write_nil. Qed.

Lemma emits_put b : emits (λ W H, put b) b.
Proof. done. Qed.

Lemma emits_bind (m m' : ∀ W, Writer W → state W ()) b b' :
  emits m b → emits m' b' → emits (λ W H, m W H;; m' W H) (b ++ b').
Proof.
  intros H1 H2 W H w. rewrite (state_bind_eval _ _ _ _ _ (H1 W H w)), write_app. apply H2.
Qed.

Lemma emits_lift {A} (x : result A) a (m : A → ∀ W, Writer W → state W ()) b :
  x = Ok a → emits (m a) b → emits (λ W H, a ← liftS x; m a W H) b.
Proof. intros -> Hm W H w. apply Hm. Qed.

Lemma emits_uvarint_loop fuel n : (Z.to_nat (Z.log2 n) < fuel)%nat → 0 <= n →
  emits (λ W H, dump_uvarint_loop fuel n) (uvarint fuel n).
Proof.
  revert n. induction fuel as [|fuel IH]; intros n Hf Hn; [lia|]. simpl.
  destruct (Z.shiftr n 7 =? 0) eqn:Es.
  - rewrite Z.lor_0_r, <- (app_nil_r [_]). apply emits_bind; [apply emits_put | apply emits_nil].
  - apply Z.eqb_neq in Es. destruct (shiftr7_log2 n fuel Hn Es Hf).
    apply (emits_bind _ _ [_]); [apply emits_put | by apply IH].
Qed.

Lemma emits_uvarint n : 0 <= n → emits (λ W H, dump_uvarint n) (uvarint_bytes n).
Proof.
  intros Hn. unfold dump_uvarint. rewrite (proj2 (Z.ltb_ge _ _) Hn). apply emits_uvarint_loop; [lia|done].
Qed.

(** ** The signed interleaving *)

Lemma sint_to_uint_eq z : sint_to_uint z = if z <? 0 then - 2 * z - 1 else 2 * z.
Proof.
  unfold sint_to_uint. rewrite Z.shiftl_mul_pow2 by lia. destruct (z <? 0); [|lia].
  pose proof (Z.add_lnot_diag (z * 2 ^ 1)). lia.
Qed.

Lemma uint_to_sint_eq u : uint_to_sint u = if u mod 2 =? 0 then u / 2 else - (u / 2) - 1.
Proof.
  unfold uint_to_sint. change 1 with (Z.ones 1) at 1. rewrite Z.land_ones by lia. change (2 ^ 1) with 2.
  rewrite Z.shiftr_div_pow2 by lia. change (2 ^ 1) with 2. destruct (u mod 2 =? 0); [done|].
  pose proof (Z.add_lnot_diag (u / 2)). lia.
Qed.

Lemma uint_sint z : uint_to_sint (sint_to_uint z) = z ∧ 0 <= sint_to_uint z.
Proof.
  rewrite uint_to_sint_eq, sint_to_uint_eq. destruct (z <? 0) eqn:Ez; bools.
  - assert ((- 2 * z - 1) mod 2 = 1) as -> by (symmetry; apply Z.mod_unique with (- z - 1); lia).
    assert ((- 2 * z - 1) / 2 = - z - 1) as -> by (symmetry; apply Z.div_unique with 1; lia). simpl. lia.
  - rewrite Z.mul_comm, Z.mod_mul by lia. simpl. rewrite Z.div_mul by lia. lia.
Qed.

Lemma sint_uint u : 0 <= u → sint_to_uint (uint_to_sint u) = u.
Proof.
  intros Hu. rewrite sint_to_uint_eq, uint_to_sint_eq.
  pose proof (Z.div_mod u 2). pose proof (Z.mod_pos_bound u 2). destruct (u mod 2 =? 0) eqn:E; bools.
  - destruct (_ <? _) eqn:El; bools; lia.
  - destruct (_ <? _) eqn:El; bools; lia.
Qed.

(** ** The encoder does the same with every writer *)

Definition uniform (m : ∀ W, Writer W → state W ()) : Prop := ∃ r b, writes m r b.

Lemma uniform_ret : uniform (λ W H, mret ()).
Proof. exists (Ok ()), []. apply emits_nil. Qed.

Lemma uniform_raise e : uniform (λ W H, raise e).
Proof. exists (Err e), []. intros W H w. by rewrite write_nil. Qed.

Lemma uniform_emits m b : emits m b → uniform m.
Proof. by exists (Ok ()), b. Qed.

Lemma uniform_bind (m m' : ∀ W, Writer W → state W ()) : uniform m → uniform m' → uniform (λ W H, m W H;; m' W H).
Proof.
  intros ([[]|e] & b & H1) (r' & b' & H2).
  - exists r', (b ++ b'). intros W H w. rewrite (state_bind_eval _ _ _ _ _ (H1 W H w)), write_app. apply H2.
  - exists (Err e), b. intros W H w. by rewrite (state_bind_err _ _ _ _ _ (H1 W H w)).
Qed.

Lemma uniform_lift {A} (x : result A) (m : A → ∀ W, Writer W → state W ()) :
  (∀ a, x = Ok a → uniform (m a)) → uniform (λ W H, a ← liftS x; m a W H).
Proof.
  intros Hm. destruct x as [a|e].
  - destruct (Hm a eq_refl) as (r & b & H). exists r, b. intros W HW w. apply H.
  - exists (Err e), []. intros W H w. by rewrite write_nil.
Qed.

Lemma uniform_uvarint n : uniform (λ W H, dump_uvarint n).
Proof.
  destruct (Z.leb_spec 0 n) as [Hn|Hn].
  - by eapply uniform_emits, emits_uvarint.
  - exists (Err ValueError), []. intros W H w. unfold dump_uvarint. rewrite (proj2 (Z.ltb_lt _ _) Hn).
    by rewrite write_nil.
Qed.

Lemma uniform_for_each {A} (step : A → ∀ W, Writer W → state W ()) l :
  (∀ a, uniform (step a)) → uniform (λ W H, for_each (λ a, step a W H) l).
Proof. intros Hs. induction l; simpl; [apply uniform_ret | by apply uniform_bind]. Qed.

Create HintDb uniform discriminated.
#[local] Hint Resolve uniform_ret uniform_raise uniform_uvarint : uniform.

(** One step towards [uniform m]. *)
Ltac uniform_step :=
  match goal with
  | |- uniform (λ W H, _ ← liftS _; _) => apply (uniform_lift _ (λ a W H, _)); intros ? _
  | |- uniform (λ W H, _ ≫= _) => apply (uniform_bind (λ W H, _) (λ W H, _))
  | |- uniform (λ W H, put ?b) => exact (uniform_emits (λ W H, put b) b (emits_put b))
  | |- uniform (λ W H, for_each _ _) => apply (uniform_for_each (λ a W H, _)); intros ?
  | |- uniform (λ W H, if ?b then _ else _) => destruct b
  | |- uniform (λ W H, match ?x with _ => _ end) => destruct x
  | _ => solve [auto with uniform]
  end.

Section uniformity.
Context (messages : string → option type_object) (classes : string → option msg_class).

Lemma uniform_dump_value (dump : ∀ W, Writer W → string → list (string * value) → state W ()) f v :
  (∀ name attrs, uniform (λ W H, dump W H name attrs)) →
  uniform (λ W H, dump_value messages (dump Z _) (dump W H) f v).
Proof.
  intros Hd. unfold dump_value. destruct (messages (f_type f)) as [[c|members]|].
  - destruct v as [| | | | | |name attrs|]; auto with uniform.
    case_bool_decide; [|auto with uniform]. destruct (dump Z CountingWriter name attrs 0) as [r size].
    repeat uniform_step.
  - repeat uniform_step.
  - repeat uniform_step.
Qed.

Lemma uniform_dump_message fuel name attrs : uniform (λ W H, dump_message messages classes fuel name attrs).
Proof.
  revert name attrs. induction fuel as [|fuel IH]; intros name attrs; simpl; [apply uniform_raise|].
  apply (uniform_for_each (λ tf W H, dump_field messages (dump_message messages classes fuel) (dump_message messages classes fuel) attrs tf.1 tf.2)).
  intros [ftag f]. unfold dump_field. simpl.
  assert (Hv : ∀ v, uniform (λ W H, dump_value messages (dump_message messages classes fuel) (dump_message messages classes fuel) f v)).
  { intros v. apply (uniform_dump_value (@dump_message messages classes fuel)). exact IH. }
  destruct (default VNone (dict_get (f_name f) attrs)); auto with uniform; repeat uniform_step; apply Hv.
Qed.

(** The size an embedded message is announced with is the size it has. *)
Lemma counting_agrees fuel name attrs :
  let '(r, size) := dump_message messages classes fuel name attrs 0 in
  let '(r', b) := dump_message messages classes fuel name attrs ([] : bytes) in r = r' ∧ size = len b.
Proof.
  destruct (uniform_dump_message fuel name attrs) as (r & b & H). rewrite (H Z _ 0), (H bytes _ []).
  simpl. done.
Qed.
End uniformity.
