(* ===== verification/TrezorCodec.v ===== *)
(** * Trezor's protobuf codec: what is encoded is decoded

    Which objects are well-typed ([typed_msg]), that every one of them is
    encoded and read back ([objects_ok]), and that decoding ends on any input
    ([load_message_no_fuel]). *)

From S2P Require Import Prelude Bytes Safe PyStd PyStr StateM TrezorProtobuf.

#[local] Open Scope string_scope.
#[local] Open Scope list_scope.
#[local] Open Scope Z_scope.

(** ** Messages of the right types *)

Section typing.
Context (messages : string → option type_object) (classes : string → option msg_class).

(** A scalar of a type of the table [WIRE_TYPES]. *)
Definition typed_scalar (ty : string) (v : value) : bool :=
  match v with
  | VInt z =>
      bool_decide (ty = "uint32") && (0 <=? z) && (z <? 2 ^ 32)
      || bool_decide (ty = "uint64") && (0 <=? z) && (z <? 2 ^ 64)
      || bool_decide (ty = "sint32") && (- 2 ^ 31 <=? z) && (z <? 2 ^ 31)
      || bool_decide (ty = "sint64") && (- 2 ^ 63 <=? z) && (z <? 2 ^ 63)
  | VBool _ => bool_decide (ty = "bool")
  | VBytes b => bool_decide (ty = "bytes") && (len b <=? maxsize)
  | VStr s => bool_decide (ty = "string") && (len (encode_utf8 s) <=? maxsize)
  | _ => false
  end.

Definition typed_value (typed_msg : string → list (string * value) → bool) (f : Field) (v : value) : bool :=
  match messages (f_type f) with
  | Some (TMsg _) => match v with VMsg name attrs => bool_decide (name = f_type f) && typed_msg name attrs | _ => false end
  | Some (TEnum members) => match v with VInt z => bool_decide (z ∈ members.*2) && (0 <=? z) | _ => false end
  | None => typed_scalar (f_type f) v
  end.

(** The values of an attribute that go into the message; [None] for an
    attribute that no object of the class has. *)
Definition entries (f : Field) (v : value) : option (list value) :=
  if f_repeated f then match v with VList l => Some l | _ => None end
  else match v with
       | VNone => if f_required f then None else Some []
       | _ => Some [v]
       end.

Definition typed_attr (typed_msg : string → list (string * value) → bool) (f : Field) (v : value) : bool :=
  match entries f v with Some l => forallb (typed_value typed_msg f) l | None => false end.

Fixpoint typed_attrs (typed_msg : string → list (string * value) → bool) (fields : pydict Z Field) (attrs : list (string * value)) : bool :=
  match fields, attrs with
  | [], [] => true
  | (_, f) :: fields, (k, v) :: attrs =>
      bool_decide (k = f_name f) && typed_attr typed_msg f v && typed_attrs typed_msg fields attrs
  | _, _ => false
  end.

(** A message object of a class of the module, nested at most [n] deep. *)
Fixpoint typed_msg (n : nat) (name : string) (attrs : list (string * value)) : bool :=
  match n with
  | O => false
  | S n =>
      match classes name with
      | Some c => typed_attrs (typed_msg n) (FIELDS c) attrs
      | None => false
      end
  end.

(** The constructor takes the fields, in their order. *)
Fixpoint same_params (fields : pydict Z Field) (params : pydict string param) : bool :=
  match fields, params with
  | [], [] => true
  | (_, f) :: fields, (name, p) :: params =>
      bool_decide (name = f_name f) && eqb (f_repeated f) (match p with ListParam => true | _ => false end) && same_params fields params
  | _, _ => false
  end.

(** What a message class has to satisfy. *)
Definition wf_class (c : msg_class) : bool :=
  forallb (λ t, 0 <=? t) (FIELDS c).*1 &&
  bool_decide (NoDup (FIELDS c).*1) &&
  bool_decide (NoDup (map (λ tf, f_name tf.2) (FIELDS c))) &&
  forallb (λ tf, is_ok (wire_type messages tf.2) && match f_default tf.2 with VNone => true | _ => false end) (FIELDS c) &&
  match init_params c with
  | None => true
  | Some params => same_params (FIELDS c) params
  end.

Class SchemaLaws := {
  schema_wf : ∀ name c, messages name = Some (TMsg c) → wf_class c = true;
  schema_classes : ∀ name c, messages name = Some (TMsg c) → classes name = Some c;
  schema_scalars : ∀ t, t ∈ WIRE_TYPES.*1 → messages t = None }.
End typing.

(** ** Messages are read back *)

Section roundtrip.
Context (messages : string → option type_object) (classes : string → option msg_class) `{!SchemaLaws messages classes}.

(** [f] of the class [c] has the wire type [w] and accepts the value [v]. *)
Lemma typed_scalar_known ty v : typed_scalar ty v = true → ty ∈ WIRE_TYPES.*1.
Proof.
  intros H. destruct v; simpl in H; try discriminate;
    repeat (apply orb_prop in H as [H|H]); bools; subst;
    repeat first [apply list_elem_of_here | apply list_elem_of_further].
Qed.

Lemma wire_type_range f w : wire_type messages f = Ok w → w = 0 ∨ w = 2.
Proof using.
  unfold wire_type. destruct (dict_get _ _) as [w'|] eqn:E.
  - intros [= <-]. apply dict_get_Some_elem in E.
    assert (Forall (λ p : string * Z, p.2 = 0 ∨ p.2 = 2) WIRE_TYPES) as HF by (repeat constructor; auto).
    rewrite Forall_forall in HF. by apply HF in E.
  - destruct (messages _) as [[]|]; intros [= <-]; auto.
Qed.

(** The bytes of one value with what the decoder makes of them. *)
Definition value_roundtrip (dump : ∀ W, Writer W → string → list (string * value) → state W ())
    (load : string → msg_class → state rd value) (f : Field) (v : value) (b : bytes) : Prop :=
  emits (λ W H, dump_value messages (dump Z _) (dump W H) f v) b ∧
  ∃ w, wire_type messages f = Ok w ∧ consumes (decode_field messages load f w) b [v].

Lemma decode_varint_entry load f z v : wire_type messages f = Ok 0 →
  consumes (decode_varint_field messages f) (uvarint_bytes z) v →
  consumes (decode_field messages load f 0) (uvarint_bytes z) [v].
Proof using.
  intros Hw Hv. unfold decode_field. eapply consumes_bind_nil; [by apply consumes_lift|].
  simpl. eapply consumes_bind_end; [exact Hv | apply consumes_ret].
Qed.

Lemma decode_length_entry load f b v : wire_type messages f = Ok 2 →
  consumes (decode_length_delimited_field messages load f) b v →
  consumes (decode_field messages load f 2) b [v].
Proof using.
  intros Hw Hv. unfold decode_field. eapply consumes_bind_nil; [by apply consumes_lift|].
  simpl. eapply consumes_bind_end; [exact Hv | apply consumes_ret].
Qed.

Lemma decode_varint_head f z v (k : Z → state rd value) : wire_type messages f = Ok 0 → 0 <= z →
  consumes (k z) [] v → consumes (w ← liftS (wire_type messages f); assert_ (w =? WIRE_TYPE_INT);; z ← load_uvarint; k z) (uvarint_bytes z) v.
Proof using.
  intros Hw Hz Hk. eapply consumes_bind_nil; [by apply consumes_lift|].
  eapply consumes_bind_nil; [by apply consumes_assert|].
  eapply consumes_bind_end; [by apply consumes_uvarint | exact Hk].
Qed.
End roundtrip.

Section scalars.
Context (messages : string → option type_object).
Variables (dump : ∀ W, Writer W → string → list (string * value) → state W ()) (load : string → msg_class → state rd value).

Lemma scalar_uint f z : messages (f_type f) = None → wire_type messages f = Ok 0 → String.prefix "uint" (f_type f) = true →
  value_fits f (VInt z) = Ok true → 0 <= z → value_roundtrip messages dump load f (VInt z) (uvarint_bytes z).
Proof.
  intros Hn Hw Hp Hf Hz. split.
  - unfold dump_value. rewrite Hn, Hp, Hf. intros W H w. by apply emits_uvarint.
  - exists 0. split; [done|]. apply decode_varint_entry; [done|]. unfold decode_varint_field.
    apply decode_varint_head; [done..|]. rewrite Hn, Hp, Hf.
    eapply consumes_bind_nil; [by apply consumes_lift | apply consumes_ret].
Qed.

Lemma scalar_sint f z : messages (f_type f) = None → wire_type messages f = Ok 0 → String.prefix "uint" (f_type f) = false →
  String.prefix "sint" (f_type f) = true → value_fits f (VInt z) = Ok true →
  value_roundtrip messages dump load f (VInt z) (uvarint_bytes (sint_to_uint z)).
Proof.
  intros Hn Hw Hu Hp Hf. destruct (uint_sint z) as [Hz Hnn]. split.
  - unfold dump_value. rewrite Hn, Hu, Hp, Hf. intros W H w. by apply emits_uvarint.
  - exists 0. split; [done|]. apply decode_varint_entry; [done|]. unfold decode_varint_field.
    apply decode_varint_head; [done..|]. rewrite Hn, Hu, Hp. cbv zeta. rewrite Hz, Hf.
    eapply consumes_bind_nil; [by apply consumes_lift | apply consumes_ret].
Qed.

Lemma scalar_bool f b : messages (f_type f) = None → f_type f = "bool" →
  value_roundtrip messages dump load f (VBool b) (uvarint_bytes (Z.b2z b)).
Proof.
  intros Hn Ht. assert (wire_type messages f = Ok 0) as Hw by (unfold wire_type; by rewrite Ht). split.
  - unfold dump_value. rewrite Hn, Ht. simpl. intros W H w. apply emits_uvarint. by destruct b.
  - exists 0. split; [done|]. apply decode_varint_entry; [done|]. unfold decode_varint_field.
    apply decode_varint_head; [done|by destruct b|]. rewrite Hn, Ht. simpl.
    replace (negb (Z.b2z b =? 0)) with b by (by destruct b). apply consumes_ret.
Qed.

(** A length with that many bytes. *)
Lemma emits_chunk b : emits (λ W H, dump_uvarint (len b);; put b) (uvarint_bytes (len b) ++ b).
Proof. apply emits_bind; [apply emits_uvarint, len_nonneg | apply emits_put]. Qed.

Lemma scalar_bytes f b : messages (f_type f) = None → f_type f = "bytes" → len b <= maxsize →
  value_roundtrip messages dump load f (VBytes b) (uvarint_bytes (len b) ++ b).
Proof.
  intros Hn Ht Hb. split.
  - unfold dump_value. rewrite Hn, Ht. apply emits_chunk.
  - exists 2. assert (wire_type messages f = Ok 2) as Hw by (unfold wire_type; by rewrite Ht).
    split; [done|]. apply decode_length_entry; [done|].
    eapply consumes_bind; [apply consumes_uvarint, len_nonneg|]. rewrite Ht. simpl.
    eapply consumes_bind_end; [by apply consumes_buffer | apply consumes_ret].
Qed.

Lemma scalar_string f s : messages (f_type f) = None → f_type f = "string" → len (encode_utf8 s) <= maxsize →
  value_roundtrip messages dump load f (VStr s) (uvarint_bytes (len (encode_utf8 s)) ++ encode_utf8 s).
Proof.
  intros Hn Ht Hb. split.
  - unfold dump_value. rewrite Hn, Ht. apply emits_chunk.
  - exists 2. assert (wire_type messages f = Ok 2) as Hw by (unfold wire_type; by rewrite Ht).
    split; [done|]. apply decode_length_entry; [done|].
    eapply consumes_bind; [apply consumes_uvarint, len_nonneg|]. rewrite Ht. simpl.
    eapply consumes_bind_end; [by apply consumes_buffer|].
    eapply consumes_bind_nil; [apply consumes_lift, decode_encode_utf8 | apply consumes_ret].
Qed.

End scalars.

Section roundtrip.
Context (messages : string → option type_object) (classes : string → option msg_class) `{!SchemaLaws messages classes}.

Lemma scalar_roundtrip f v : messages (f_type f) = None → typed_scalar (f_type f) v = true →
  ∃ b, ∀ dump load, value_roundtrip messages dump load f v b.
Proof using.
  intros Hn Hv. destruct v as [| |z|b|b|s| |]; simpl in Hv; try discriminate; bools.
  - assert (∀ w, dict_get (f_type f) WIRE_TYPES = Some w → wire_type messages f = Ok w) as Hw
      by (intros w; unfold wire_type; by intros ->).
    assert (∀ lo hi, lo <= z → z < hi → (z0 ← of_option TypeError (Some z); Ok ((lo <=? z0) && (z0 <? hi))) = Ok true) as Hfit.
    { intros lo hi H1 H2. simpl. by rewrite (proj2 (Z.leb_le _ _) H1), (proj2 (Z.ltb_lt _ _) H2). }
    repeat (apply orb_prop in Hv as [Hv|Hv]); bools;
      match goal with Ht : f_type f = _ |- _ => rename Ht into Ht' end;
      eexists; intros dump load; first [apply scalar_uint; [..|lia] | apply scalar_sint];
      try done; try (apply Hw; by rewrite Ht'); try (by rewrite Ht'); unfold value_fits; rewrite Ht'; by apply Hfit.
  - eexists. intros. by apply scalar_bool.
  - eexists. intros. by apply scalar_bytes.
  - eexists. intros. by apply scalar_string.
Qed.

Lemma object_wire_type f o : messages (f_type f) = Some o →
  wire_type messages f = Ok (match o with TMsg _ => WIRE_TYPE_LENGTH | TEnum _ => WIRE_TYPE_INT end).
Proof.
  intros Ho. unfold wire_type. destruct (dict_get _ _) as [w|] eqn:E.
  - exfalso. assert (f_type f ∈ WIRE_TYPES.*1) as Hin by (apply dict_in_elem; unfold dict_in; by rewrite E).
    by rewrite (schema_scalars messages classes _ Hin) in Ho.
  - rewrite Ho. by destruct o.
Qed.

Lemma object_not_scalar f o t : messages (f_type f) = Some o → t ∈ WIRE_TYPES.*1 → f_type f ≠ t.
Proof. intros Ho Ht <-. by rewrite (schema_scalars messages classes _ Ht) in Ho. Qed.

Lemma enum_roundtrip f members z : messages (f_type f) = Some (TEnum members) → z ∈ members.*2 → 0 <= z →
  ∀ dump load, value_roundtrip messages dump load f (VInt z) (uvarint_bytes z).
Proof.
  intros He Hz Hnn dump load. pose proof (object_wire_type f _ He) as Hw. split.
  - unfold dump_value. rewrite He. simpl. rewrite bool_decide_true by done. by apply emits_uvarint.
  - exists 0. split; [done|]. apply decode_varint_entry; [done|]. unfold decode_varint_field.
    apply decode_varint_head; [done..|]. rewrite He. apply consumes_ret.
Qed.

(** The bytes [b] of the object are read back by [load], given that they are
    all there is. *)
Definition loads_back (load : string → msg_class → state rd value) (name : string) (c : msg_class)
    (attrs : list (string * value)) (b : bytes) : Prop :=
  ∀ r, holds b r → ended (after b r) → load name c r = (Ok (VMsg name attrs), after b r).

Lemma message_value_roundtrip f c attrs b (dump : ∀ W, Writer W → string → list (string * value) → state W ()) load :
  messages (f_type f) = Some (TMsg c) → emits (λ W H, dump W H (f_type f) attrs) b → loads_back load (f_type f) c attrs b →
  value_roundtrip messages dump load f (VMsg (f_type f) attrs) (uvarint_bytes (len b) ++ b).
Proof.
  intros Hc Hd Hl. pose proof (object_wire_type f _ Hc) as Hw. split.
  - unfold dump_value. rewrite Hc, bool_decide_true by done. rewrite (Hd Z _ 0). simpl.
    apply (emits_bind (λ W H, dump_uvarint (len b)) (λ W H, dump W H (f_type f) attrs)); [apply emits_uvarint, len_nonneg | done].
  - exists 2. split; [done|]. apply decode_length_entry; [done|].
    eapply consumes_bind; [apply consumes_uvarint, len_nonneg|].
    rewrite !bool_decide_false by (eapply object_not_scalar; [exact Hc|];
      repeat first [apply list_elem_of_here | apply list_elem_of_further]).
    rewrite Hc. by apply consumes_limit.
Qed.

Lemma uvarint_bytes_nonempty n : (0 < length (uvarint_bytes n))%nat.
Proof using. apply uvarint_nonempty. lia. Qed.

(** The claim for objects nested [n] deep. *)
Definition objects_roundtrip (n : nat) : Prop :=
  ∀ name c attrs, classes name = Some c → wf_class messages c = true → typed_msg messages classes n name attrs = true → ∃ b,
    emits (λ W H, dump_message messages classes n name attrs) b ∧
    ∀ fuel, (length b < fuel)%nat → loads_back (load_message_fuel messages fuel) name c attrs b.

Lemma typed_value_roundtrip n f v : objects_roundtrip n → typed_value messages (typed_msg messages classes n) f v = true →
  ∃ b, ∀ fuel, (length b <= fuel)%nat →
    value_roundtrip messages (@dump_message messages classes n) (load_message_fuel messages fuel) f v b.
Proof.
  intros IH Hv. unfold typed_value in Hv. destruct (messages (f_type f)) as [[c|members]|] eqn:Eo.
  - destruct v as [| | | | | |cls attrs|]; try discriminate. bools. subst cls.
    match goal with Ht : typed_msg _ _ _ _ _ = true |- _ =>
      destruct (IH _ c _ (schema_classes messages classes _ _ Eo) (schema_wf messages classes _ _ Eo) Ht) as (b & He & Hl) end.
    exists (uvarint_bytes (len b) ++ b). rewrite length_app. pose proof (uvarint_bytes_nonempty (len b)).
    intros fuel Hf. apply (message_value_roundtrip f c); [done..|]. apply Hl. lia.
  - destruct v; try discriminate. bools. exists (uvarint_bytes z). intros fuel _. by eapply enum_roundtrip.
  - destruct (scalar_roundtrip f v Eo Hv) as [b Hb]. exists b. intros; apply Hb.
Qed.

(** Reading the bytes [bs] takes the dictionary of the message from [d] to
    [d']. *)
Definition loads (c : msg_class) (d : pydict string value) (bs : bytes) (d' : pydict string value) : Prop :=
  ∀ fuel r, (length bs < fuel)%nat → holds bs r → ∃ fuel', (fuel - length bs <= fuel')%nat ∧
    load_fields messages fuel c d r = load_fields messages fuel' c d' (after bs r).

Lemma loads_nil c d : loads c d [] d.
Proof using. intros fuel r _ _. exists fuel. rewrite after_nil. split; [lia|done]. Qed.

Lemma loads_app c d1 b1 d2 b2 d3 : loads c d1 b1 d2 → loads c d2 b2 d3 → loads c d1 (b1 ++ b2) d3.
Proof using.
  intros H1 H2 fuel r Hf [Hh1 Hh2]%holds_app. rewrite length_app in Hf.
  destruct (H1 fuel r ltac:(lia) Hh1) as (f1 & Hf1 & ->).
  destruct (H2 f1 _ ltac:(lia) Hh2) as (f2 & Hf2 & ->).
  exists f2. rewrite after_app, length_app. split; [lia|done].
Qed.

Lemma key_parts tag w : w = 0 ∨ w = 2 → 0 <= tag →
  let k := Z.lor (Z.shiftl tag 3) w in Z.shiftr k 3 = tag ∧ Z.land k 7 = w ∧ 0 <= k.
Proof using.
  intros Hw Ht k. subst k. split_and!.
  - rewrite Z.shiftr_lor, Z.shiftr_shiftl_l by lia. rewrite Z.sub_diag, Z.shiftl_0_r.
    destruct Hw as [-> | ->]; apply Z.lor_0_r.
  - rewrite Z.land_lor_distr_l. change 7 with (Z.ones 3). rewrite (Z.land_ones (Z.shiftl tag 3)) by lia.
    rewrite Z.shiftl_mul_pow2, Z.mod_mul by lia. by destruct Hw as [-> | ->].
  - apply Z.lor_nonneg. rewrite Z.shiftl_nonneg. destruct Hw; lia.
Qed.

Lemma entry_loads c tag f v b d d' w : wire_type messages f = Ok w → 0 <= tag → dict_get tag (FIELDS c) = Some f →
  (∀ fuel, (length b <= fuel)%nat → consumes (decode_field messages (load_message_fuel messages fuel) f w) b [v]) →
  store f [v] d = Ok d' → loads c d (uvarint_bytes (Z.lor (Z.shiftl tag 3) w) ++ b) d'.
Proof using.
  intros Hw Ht Hf Hb Hs fuel r Hl [H1 H2]%holds_app. rewrite length_app in Hl.
  destruct (key_parts tag w (wire_type_range _ _ _ Hw) Ht) as (Hk1 & Hk2 & Hk3).
  pose proof (uvarint_bytes_nonempty (Z.lor (Z.shiftl tag 3) w)).
  destruct fuel as [|fuel]; [lia|]. exists fuel. rewrite length_app. split; [lia|]. rewrite after_app. simpl.
  rewrite (state_bind_eval _ _ _ _ _ (consumes_catch _ _ _ (consumes_uvarint _ Hk3) r H1)).
  cbv beta iota zeta. rewrite Hk1, Hk2, Hf. rewrite (state_bind_eval _ _ _ _ _ (Hb fuel ltac:(lia) _ H2)), Hs. done.
Qed.

(** [d'] is [d] except for the name [k]. *)
Definition same_except (k : string) (d d' : pydict string value) : Prop := ∀ k', k' ≠ k → dict_get k' d' = dict_get k' d.

Lemma dict_set_except k v (d : pydict string value) : dict_get k (dict_set k v d) = Some v ∧ same_except k d (dict_set k v d).
Proof using. split; [rewrite dict_get_set; by case_decide|]. intros k' Hk. rewrite dict_get_set. by case_decide. Qed.

Lemma forallb_elem {A} (p : A → bool) l x : forallb p l = true → x ∈ l → p x = true.
Proof using. rewrite forallb_forall, list_elem_of_In. auto. Qed.

Lemma Forall2_elem {A B} (P : A → B → Prop) l k : Forall2 P l k → Forall2 (λ x y, x ∈ l ∧ y ∈ k ∧ P x y) l k.
Proof using.
  induction 1 as [|x y l k Hxy _ IHl]; constructor.
  - split_and!; [left | left | done].
  - eapply Forall2_impl; [exact IHl|]. intros a b (? & ? & ?). split_and!; [by right | by right | done].
Qed.

Lemma Forall2_both {A B} (P Q : A → B → Prop) l k : Forall2 P l k → Forall2 Q l k → Forall2 (λ x y, P x y ∧ Q x y) l k.
Proof using. induction 1; intros H2; inversion H2; subst; constructor; auto. Qed.

(** What [msg_dict] starts with for a field. *)
Definition seed (f : Field) : option value :=
  if f_repeated f then Some (VList []) else if f_required f then None else Some (f_default f).

Lemma preseed_get c k : NoDup (map (λ tf, f_name tf.2) (FIELDS c)) →
  (∀ tf, tf ∈ FIELDS c → f_name tf.2 = k → dict_get k (preseed c) = seed tf.2) ∧
  (k ∉ map (λ tf, f_name tf.2) (FIELDS c) → dict_get k (preseed c) = None).
Proof using.
  unfold preseed. change None with (dict_get k ([] : pydict string value)).
  assert (k ∈ map (λ tf, f_name tf.2) (FIELDS c) → dict_get k ([] : pydict string value) = None) as Hd by done.
  revert Hd. generalize ([] : pydict string value) as d. generalize (FIELDS c) as fs.
  induction fs as [|[t f] fs IH]; intros d Hd Hnd; [split; [intros tf Hin; by inversion Hin | done]|].
  simpl in Hnd. apply NoDup_cons in Hnd as [Hnin Hnd]. simpl.
  set (d1 := if f_repeated f then _ else _).
  assert (dict_get (f_name f) d1 = if f_repeated f || negb (f_required f) then seed f else dict_get (f_name f) d) as Hd1.
  { unfold d1, seed. destruct (f_repeated f), (f_required f); simpl; try done; apply dict_set_except. }
  assert (same_except (f_name f) d d1) as Hex.
  { unfold d1. destruct (f_repeated f), (f_required f); try apply dict_set_except; done. }
  destruct (decide (k = f_name f)) as [->|Hne].
  - destruct (IH d1) as [_ IH2]; [done|done|]. split.
    + intros tf Hin Hname. rewrite (IH2 Hnin). apply elem_of_cons in Hin as [->|Hin].
      * rewrite Hd1. simpl. unfold seed. destruct (f_repeated f), (f_required f); simpl; try done. apply Hd. left.
      * exfalso. apply Hnin. rewrite <- Hname. by apply (list_elem_of_fmap_2 (λ tf, f_name tf.2)).
    + intros Hn. exfalso. apply Hn. left.
  - destruct (IH d1) as [IH1 IH2]; [intros Hin; rewrite Hex by done; apply Hd; by right | done |]. split.
    + intros tf Hin Hname. apply elem_of_cons in Hin as [->|Hin]; [by simpl in Hname|]. by apply IH1.
    + intros Hn. rewrite IH2 by (by intros ?; apply Hn; right). rewrite Hex by done. reflexivity.
Qed.

Section fields.
Variables (n : nat) (c : msg_class) (IH : objects_roundtrip n) (Hwf : wf_class messages c = true).

Lemma field_entry tag f : (tag, f) ∈ FIELDS c →
  0 <= tag ∧ dict_get tag (FIELDS c) = Some f ∧ (∃ w, wire_type messages f = Ok w) ∧ f_default f = VNone.
Proof.
  intros Hin. pose proof Hwf as H. unfold wf_class in H. repeat rewrite andb_true_iff in H.
  destruct H as [[[[Ht Hnd] _] Hf] _]. apply bool_decide_eq_true in Hnd. split_and!.
  - eapply forallb_elem in Ht; [|by apply (list_elem_of_fmap_2 fst)]. by apply Z.leb_le in Ht.
  - by apply elem_dict_get.
  - eapply forallb_elem in Hf; [|exact Hin]. apply andb_prop in Hf as [Hw _]. simpl in Hw.
    destruct (wire_type messages f) as [w|]; [by exists w | done].
  - eapply forallb_elem in Hf; [|exact Hin]. apply andb_prop in Hf as [_ Hd]. simpl in Hd. by destruct (f_default f).
Qed.

(** The encoder's step for one value: its key and the value. *)
Definition dump_entry (tag w : Z) (f : Field) (v : value) (W : Type) (H : Writer W) : state W () :=
  dump_uvarint (Z.lor (Z.shiftl tag 3) w);; dump_value messages (dump_message messages classes n) (dump_message messages classes n) f v.

Lemma one_entry tag f v w : (tag, f) ∈ FIELDS c → wire_type messages f = Ok w →
  typed_value messages (typed_msg messages classes n) f v = true →
  ∃ b, emits (dump_entry tag w f v) b ∧ ∀ d d', store f [v] d = Ok d' → loads c d b d'.
Proof using All.
  intros Hin Hw Hv. destruct (field_entry tag f Hin) as (Ht & Hget & _ & _).
  destruct (typed_value_roundtrip n f v IH Hv) as [b Hb]. destruct (Hb _ (le_n _)) as (Hev & _).
  destruct (key_parts tag w (wire_type_range _ _ _ Hw) Ht) as (_ & _ & Hk).
  exists (uvarint_bytes (Z.lor (Z.shiftl tag 3) w) ++ b). split.
  - apply (emits_bind (λ W H, dump_uvarint _) (λ W H, dump_value messages _ _ f v)); [by apply emits_uvarint | exact Hev].
  - intros d d' Hs. eapply entry_loads; [done|done|done| |done]. intros fuel Hf.
    destruct (Hb fuel Hf) as (_ & w' & Hw' & Hc). rewrite Hw in Hw'. by injection Hw' as <-.
Qed.

(** The values of a repeated field, one entry each. *)
Lemma repeated_loads tag f w l acc d : (tag, f) ∈ FIELDS c → wire_type messages f = Ok w → f_repeated f = true →
  forallb (typed_value messages (typed_msg messages classes n) f) l = true → dict_get (f_name f) d = Some (VList acc) →
  ∃ b d', emits (λ W H, for_each (λ v, dump_entry tag w f v W H) l) b ∧
    loads c d b d' ∧ dict_get (f_name f) d' = Some (VList (acc ++ l)) ∧ same_except (f_name f) d d'.
Proof using All.
  intros Hin Hw Hrep. revert acc d. induction l as [|v l IHl]; intros acc d Hl Hd; simpl in Hl.
  - exists [], d. rewrite app_nil_r. split_and!; [apply emits_nil|apply loads_nil|done|done].
  - apply andb_prop in Hl as [Hv Hl]. destruct (one_entry tag f v w Hin Hw Hv) as (b & He1 & Hl1).
    destruct (dict_set_except (f_name f) (VList (acc ++ [v])) d) as [Hd1 Hex].
    destruct (IHl (acc ++ [v]) _ Hl Hd1) as (b' & d' & He & Hlo & Hd' & Hex').
    exists (b ++ b'), d'. split_and!.
    + by apply (emits_bind (dump_entry tag w f v) (λ W H, for_each _ l)).
    + eapply loads_app; [apply Hl1; unfold store; by rewrite Hrep, Hd | exact Hlo].
    + by rewrite Hd', <- app_assoc.
    + intros k Hk'. by rewrite Hex', Hex.
Qed.

(** One attribute, whatever it holds. *)
Lemma field_loads tag f v A d : (tag, f) ∈ FIELDS c → typed_attr messages (typed_msg messages classes n) f v = true →
  dict_get (f_name f) A = Some v → dict_get (f_name f) d = seed f →
  ∃ b d', emits (λ W H, dump_field messages (dump_message messages classes n) (dump_message messages classes n) A tag f) b ∧
    loads c d b d' ∧ dict_get (f_name f) d' = Some v ∧ same_except (f_name f) d d'.
Proof using All.
  intros Hin Hv HA Hd. destruct (field_entry tag f Hin) as (_ & _ & [w Hw] & Hdef).
  unfold typed_attr, entries in Hv. unfold dump_field. rewrite HA, Hw. simpl. unfold seed in Hd.
  destruct (f_repeated f) eqn:Hrep.
  - destruct v as [| | | | | | |l]; try discriminate.
    by apply (repeated_loads tag f w l [] d).
  - assert (v = VNone ∧ f_required f = false ∨ v ≠ VNone ∧ v ≠ VPlaceholder ∧ typed_value messages (typed_msg messages classes n) f v = true) as [[-> Hreq]|(Hn & Hp & Hv1)].
    { destruct v; try (right; split_and!; [done|done|simpl in Hv; by rewrite andb_true_r in Hv]).
      - left. by destruct (f_required f).
      - exfalso. simpl in Hv. unfold typed_value in Hv. by destruct (messages (f_type f)) as [[]|]. }
    + exists [], d. rewrite Hreq, Hdef in Hd. split_and!; [apply emits_nil | apply loads_nil | done | done].
    + destruct (one_entry tag f v w Hin Hw Hv1) as (b & He & Hl).
      destruct (dict_set_except (f_name f) v d) as [Hd1 Hex].
      exists b, (dict_set (f_name f) v d). split_and!; [|apply Hl; unfold store; by rewrite Hrep|done|done].
      rewrite <- (app_nil_r b). pose proof (emits_bind _ (λ W H, mret ()) _ _ He emits_nil) as Hone.
      destruct v; done.
Qed.

Lemma typed_attrs_Forall2 tm fs attrs : typed_attrs messages tm fs attrs = true →
  Forall2 (λ tf kv, kv.1 = f_name tf.2 ∧ typed_attr messages tm tf.2 kv.2 = true) fs attrs.
Proof using.
  revert attrs. induction fs as [|[t f] fs IHf]; intros [|[k v] attrs] H; simpl in H; try discriminate; [constructor|].
  bools. constructor; [done|]. by apply IHf.
Qed.

Lemma attrs_names tm (fs : pydict Z Field) (attrs : pydict string value) :
  Forall2 (λ tf kv, kv.1 = f_name tf.2 ∧ typed_attr messages tm tf.2 kv.2 = true) fs attrs → attrs.*1 = map (λ tf : Z * Field, f_name tf.2) fs.
Proof using. induction 1 as [|tf [k v] fs attrs [Hk _] _ IHf]; simpl in *; [done|]. by rewrite Hk, <- IHf. Qed.

(** All attributes of an object, in the order of the fields. *)
Lemma fields_load A fs attrs d :
  Forall2 (λ tf kv, tf ∈ FIELDS c ∧ kv.1 = f_name tf.2 ∧ dict_get kv.1 A = Some kv.2 ∧
    typed_attr messages (typed_msg messages classes n) tf.2 kv.2 = true) fs attrs →
  NoDup (map (λ tf, f_name tf.2) fs) → Forall (λ tf, dict_get (f_name tf.2) d = seed tf.2) fs →
  ∃ b d', emits (λ W H, for_each (λ tf, dump_field messages (dump_message messages classes n) (dump_message messages classes n) A tf.1 tf.2) fs) b ∧
    loads c d b d' ∧ Forall2 (λ tf kv, dict_get (f_name tf.2) d' = Some kv.2) fs attrs ∧
    ∀ k, k ∉ map (λ tf, f_name tf.2) fs → dict_get k d' = dict_get k d.
Proof using All.
  intros HF. revert d. induction HF as [|[tag f] [k v] fs attrs (Hin & Hk & HA & Hv) HF IHF]; intros d Hnd Hd; simpl in *.
  - exists [], d. split_and!; [apply emits_nil | apply loads_nil | constructor | done].
  - subst k. apply NoDup_cons in Hnd as [Hnin Hnd]. apply Forall_cons in Hd as [Hd0 Hd].
    destruct (field_loads tag f v A d Hin Hv HA Hd0) as (b & d1 & He & Hl & Hd1 & Hex).
    assert (∀ k, k ∈ map (λ tf, f_name tf.2) fs → k ≠ f_name f) as Hne by (intros k Hk ->; done).
    destruct (IHF d1 Hnd) as (b' & d' & He' & Hl' & HF' & Hrest).
    { rewrite Forall_forall in Hd |- *. intros tf Htf. rewrite Hex; [by apply Hd|].
      apply Hne. by apply (list_elem_of_fmap_2 (λ tf, f_name tf.2)). }
    exists (b ++ b'), d'. split_and!.
    + by apply (emits_bind (λ W H, dump_field messages _ _ A tag f) (λ W H, for_each _ fs)).
    + by eapply loads_app.
    + constructor; [|done]. simpl. by rewrite Hrest.
    + intros k Hk. apply not_elem_of_cons in Hk as [Hk1 Hk2]. by rewrite Hrest, Hex.
Qed.

Lemma same_params_Forall2 fs ps : same_params fs ps = true →
  Forall2 (λ (tf : Z * Field) (np : string * param), np.1 = f_name tf.2 ∧ f_repeated tf.2 = match np.2 with ListParam => true | _ => false end) fs ps.
Proof using.
  revert ps. induction fs as [|[t f] fs IHf]; intros [|[k p] ps] H; simpl in H; try discriminate; [constructor|].
  bools. constructor; [|by apply IHf]. split; [done|]. by apply eqb_prop.
Qed.

Lemma construct_attrs name A d :
  Forall2 (λ tf kv, kv.1 = f_name tf.2 ∧ typed_attr messages (typed_msg messages classes n) tf.2 kv.2 = true) (FIELDS c) A →
  Forall2 (λ tf kv, dict_get (f_name tf.2) d = Some kv.2) (FIELDS c) A →
  (∀ k, k ∉ map (λ tf, f_name tf.2) (FIELDS c) → dict_get k d = None) →
  finish_message name c d = Ok (VMsg name A).
Proof using Hwf.
  intros HF HA Hk. unfold finish_message.
  assert (existsb (λ '(_, f), f_required f && negb (dict_in (f_name f) d)) (FIELDS c) = false) as ->.
  { apply not_true_iff_false. rewrite existsb_exists. intros ([t f] & Hin & Hb). apply list_elem_of_In in Hin.
    assert (Forall (λ tf, is_Some (dict_get (f_name tf.2) d)) (FIELDS c)) as Hall.
    { eapply Forall2_Forall_l; [exact HA|]. apply Forall_true. by eexists. }
    rewrite Forall_forall in Hall. destruct (Hall _ Hin) as [v Hget]. simpl in Hget. unfold dict_in in Hb.
    rewrite Hget, andb_false_r in Hb. done. }
  simpl. unfold construct. pose proof Hwf as H. unfold wf_class in H. repeat rewrite andb_true_iff in H.
  destruct H as [_ Hp]. destruct (init_params c) as [params|].
  - apply same_params_Forall2 in Hp.
    assert (map fst params = map (λ tf, f_name tf.2) (FIELDS c)) as Hnames.
    { clear -Hp. induction Hp as [|[t f] [k p] fs ps [Hk _] _ IHp]; simpl in *; [done|]. by rewrite Hk, IHp. }
    unfold generated_init.
    assert (existsb (λ '(k, _), negb (dict_in k params)) d = false) as ->.
    { apply not_true_iff_false. rewrite existsb_exists. intros ([k v] & Hin & Hb). apply list_elem_of_In in Hin.
      apply negb_true_iff, dict_not_in in Hb.
      assert (dict_in k d = true) as Hd by (apply dict_in_elem; by apply (list_elem_of_fmap_2 fst) in Hin).
      unfold dict_in in Hd. rewrite (Hk k) in Hd; [done|]. by rewrite <- Hnames. }
    simpl. erewrite (proj2 (mapR_Forall2 _ params A)); [done|]. clear Hnames Hk Hwf IH. revert params Hp.
    induction HF as [|[t f] [k v] fs attrs [Hk Hty] _ IHF]; intros params Hp; inversion Hp as [|? [k' p] ? ps [Hk' Hrep]]; subst; [constructor|].
    apply Forall2_cons in HA as [Hget HA]. simpl in *. constructor; [|by apply IHF]. subst k k'. rewrite Hget.
    unfold typed_attr, entries in Hty. rewrite Hrep in Hty. destruct v; try done; by destruct p.
  - do 2 f_equal. unfold MessageType_init. clear Hk Hp Hwf IH. induction HF as [|[t f] [k v] fs attrs [Hk _] _ IHF]; [done|].
    apply Forall2_cons in HA as [Hget HA]. simpl in *. by rewrite Hk, Hget, IHF.
Qed.
End fields.

(** Every object of a class of the module is encoded, and decoding the bytes
    gives it back. *)
Lemma objects_ok n : objects_roundtrip n.
Proof.
  induction n as [|n IH]; intros name c attrs Ec Hwf Hty; simpl in Hty; [done|]. rewrite Ec in Hty.
  pose proof (typed_attrs_Forall2 _ _ _ Hty) as HF.
  assert (NoDup (map (λ tf, f_name tf.2) (FIELDS c))) as Hnd.
  { unfold wf_class in Hwf. repeat rewrite andb_true_iff in Hwf. destruct Hwf as [[[_ Hn] _] _]. by apply bool_decide_eq_true in Hn. }
  destruct (fields_load n c IH Hwf attrs (FIELDS c) attrs (preseed c)) as (b & d' & He & Hl & Hget & Hrest).
  { eapply Forall2_impl; [exact (Forall2_elem _ _ _ HF)|]. intros tf [k v] (Hin & Hkv & Hk & Hta). split_and!; try done.
    apply elem_dict_get; [|done]. unfold dict_wf. by rewrite (attrs_names _ _ _ HF). }
  { done. }
  { apply Forall_forall. intros tf Hin. by apply (preseed_get c). }
  exists b. split.
  - intros W H w. simpl. unfold class_fields. rewrite Ec. apply He.
  - intros fuel Hf r Hr Hend. unfold load_message_fuel.
    destruct (Hl fuel r Hf Hr) as (fuel' & Hf' & Heq).
    assert (load_fields messages fuel' c d' (after b r) = (Ok d', after b r)) as Hdone.
    { destruct fuel' as [|fuel']; [lia|]. simpl. erewrite state_bind_eval; [|unfold catch_eof; by rewrite load_uvarint_ended]. done. }
    rewrite Hdone in Heq. rewrite (state_bind_eval _ _ _ _ _ Heq). unfold liftS.
    by erewrite construct_attrs; [..|intros k Hk; rewrite Hrest by done; by apply (preseed_get c)].
Qed.
End roundtrip.

(** ** Decoding terminates *)

(** On a reader with fewer than [k] bytes left, [p] never runs out of fuel and
    leaves no more bytes than there were, by [less] fewer if it succeeds. *)
Definition tame {A} (k less : nat) (p : state rd A) : Prop := ∀ r, (length (rest r) < k)%nat →
  match p r with
  | (Ok _, r') => (length (rest r') + less <= length (rest r))%nat
  | (Err e, r') => e ≠ OutOfFuel ∧ (length (rest r') <= length (rest r))%nat
  end.

Lemma tame_weaken {A} k k' l l' (p : state rd A) : (k' <= k)%nat → (l' <= l)%nat → tame k l p → tame k' l' p.
Proof. intros Hk Hl Hp r Hr. specialize (Hp r ltac:(lia)). destruct (p r) as [[a|e] r']; [lia|done]. Qed.

Lemma tame_run {A} k l (p : state rd A) r r0 : tame k l p → (length (rest r) < k)%nat → (length (rest r) <= length (rest r0))%nat →
  match p r with
  | (Ok _, r') => (length (rest r') + l <= length (rest r0))%nat
  | (Err e, r') => e ≠ OutOfFuel ∧ (length (rest r') <= length (rest r0))%nat
  end.
Proof. intros Hp Hr Hr0. specialize (Hp r Hr). destruct (p r) as [[a|e] r']; [lia|]. split; [apply Hp | lia]. Qed.

Lemma tame_ret {A} k (a : A) : tame k 0 (mret a).
Proof. intros r _. simpl. lia. Qed.

Lemma tame_lift {A} k (x : result A) : x ≠ Err OutOfFuel → tame k 0 (liftS x).
Proof. intros Hx r _. unfold liftS. destruct x as [a|e]; [lia|]. split; [by intros ->|done]. Qed.

Lemma tame_raise {A} k l e : e ≠ OutOfFuel → tame (A := A) k l (raise e).
Proof. intros He r _. simpl. done. Qed.

Lemma tame_bind {A B} k l1 l2 (p : state rd A) (f : A → state rd B) :
  tame k l1 p → (∀ a, tame (k - l1) l2 (f a)) → tame k (l1 + l2) (p ≫= f).
Proof.
  intros Hp Hf r Hr. specialize (Hp r Hr). unfold mbind, state_bind. destruct (p r) as [[a|e] r']; [|done].
  specialize (Hf a r' ltac:(lia)). destruct (f a r') as [[b|e] r'']; [lia|]. split; [apply Hf | lia].
Qed.

Lemma tame_bind0 {A B} k l (p : state rd A) (f : A → state rd B) : tame k 0 p → (∀ a, tame k l (f a)) → tame k l (p ≫= f).
Proof. intros Hp Hf. apply (tame_bind k 0 l); [done|]. by rewrite Nat.sub_0_r. Qed.

Lemma tame_catch {A} k l (p : state rd A) : tame k l p → tame k 0 (catch_eof p).
Proof.
  intros Hp r Hr. specialize (Hp r Hr). unfold catch_eof. destruct (p r) as [[a|e] r']; [lia|].
  destruct Hp as [He Hl]. destruct e; try done; simpl; lia.
Qed.

Lemma readinto_at_length n ls s : 0 <= n →
  let '((nread, _), (_, s')) := readinto_at n ls s in 0 <= nread ∧ Z.of_nat (length s') = Z.of_nat (length s) - nread.
Proof.
  intros Hn. induction ls as [|l ls IH]; simpl.
  - unfold len. rewrite length_take, length_drop. lia.
  - destruct (l <? n); [lia|]. destruct (readinto_at n ls s) as [[nread buf] [ls' s']]. done.
Qed.

Lemma tame_readinto k n : 0 <= n → tame k 0 (readinto n).
Proof.
  intros Hn r _. unfold readinto. pose proof (readinto_at_length n (limits r) (rest r) Hn) as H.
  destruct (readinto_at n (limits r) (rest r)) as [[nread buf] [ls s]]. simpl. lia.
Qed.

Lemma uvarint_loop_tame fuel res shift cnt r : (length (rest r) < fuel)%nat →
  match uvarint_loop fuel res shift cnt r with
  | (Ok _, r') => (length (rest r') + 1 <= length (rest r))%nat
  | (Err e, r') => e ≠ OutOfFuel ∧ (length (rest r') <= length (rest r))%nat
  end.
Proof.
  revert res shift cnt r. induction fuel as [|fuel IH]; intros res shift cnt r Hf; [lia|]. simpl.
  unfold mbind, state_bind, readinto. pose proof (readinto_at_length 1 (limits r) (rest r) ltac:(lia)) as H.
  destruct (readinto_at 1 (limits r) (rest r)) as [[nread buf] [ls s]]. simpl. destruct H as [Hn Hl].
  destruct (nread =? 0) eqn:E0; bools.
  - simpl. split; [by destruct (0 <? cnt) | lia].
  - destruct (_ =? 0); [simpl; lia|]. specialize (IH (res + Z.shiftl (Z.land (ord (hd Byte.x00 buf)) 127) shift) (shift + 7) (cnt + 1) (mkRd s ls)).
    simpl in IH. specialize (IH ltac:(lia)). destruct (uvarint_loop _ _ _ _ _) as [[a|e] r']; [lia|]. split; [apply IH | lia].
Qed.

Lemma tame_uvarint k : tame k 1 load_uvarint.
Proof. intros r _. unfold load_uvarint. apply uvarint_loop_tame. lia. Qed.

Lemma uvarint_loop_nonneg fuel res shift cnt r z r' : 0 <= res → 0 <= shift →
  uvarint_loop fuel res shift cnt r = (Ok z, r') → 0 <= z.
Proof.
  revert res shift cnt r. induction fuel as [|fuel IH]; intros res shift cnt r Hr Hs H; [done|]. simpl in H.
  apply state_bind_ok in H as ([n buf] & r1 & _ & H). destruct (n =? 0); [done|].
  assert (0 <= res + Z.shiftl (Z.land (ord (hd Byte.x00 buf)) 127) shift).
  { apply Z.add_nonneg_nonneg; [done|]. apply Z.shiftl_nonneg. apply (low7 _). }
  destruct (_ =? 0); [by injection H as <- _|]. eapply IH; [| |exact H]; lia.
Qed.

(** A variable-length integer is never negative. *)
Lemma load_uvarint_nonneg r z r' : load_uvarint r = (Ok z, r') → 0 <= z.
Proof. apply uvarint_loop_nonneg; lia. Qed.

Lemma tame_uvarint_bind {B} k l (f : Z → state rd B) : (∀ z, 0 <= z → tame (k - 1) l (f z)) → tame k (1 + l) (load_uvarint ≫= f).
Proof.
  intros Hf r Hr. pose proof (tame_uvarint k r Hr) as Hu. unfold mbind, state_bind.
  destruct (load_uvarint r) as [[z|e] r'] eqn:E; [|done].
  specialize (Hf z (load_uvarint_nonneg _ _ _ E) r' ltac:(lia)). destruct (f z r') as [[b|e] r'']; [lia|]. split; [apply Hf | lia].
Qed.

Lemma tame_limit {A} k l n (p : state rd A) : tame k l p → tame k l (with_limit n p).
Proof.
  intros Hp r Hr. specialize (Hp (mkRd (rest r) (n :: limits r)) Hr). unfold with_limit.
  destruct (p _) as [[a|e] r']; done.
Qed.

Lemma tame_buffer k n : 0 <= n → tame k 0 (read_buffer n).
Proof.
  intros Hn. unfold read_buffer, bytearray. destruct (maxsize <? n); [by apply tame_raise|].
  change (tame k 0 ('(_, buf) ← readinto n; mret buf)).
  apply tame_bind0; [by apply tame_readinto|]. intros [_ buf]. apply tame_ret.
Qed.

Lemma value_fits_no_fuel f v : value_fits f v ≠ Err OutOfFuel.
Proof. unfold value_fits. repeat case_bool_decide; try done; by destruct (number v). Qed.

Lemma decode_utf8_no_fuel b : decode_utf8 b ≠ Err OutOfFuel.
Proof.
  assert (∀ r, wide r ≠ Err OutOfFuel) as Hw by (by intros [a|[]]).
  induction b as [b IH] using (induction_ltof1 _ (@length byte)). unfold ltof in IH.
  destruct b as [|c b]; [done|]. simpl.
  destruct (_ <? _); [apply nf_bind; [apply IH; simpl; lia | done]|].
  destruct b as [|d b2]; [done|]. destruct (negb _); [done|].
  destruct (_ && _); [apply nf_bind; [apply IH; simpl; lia | done]|]. destruct (_ && _); [apply Hw|].
  destruct b2 as [|e b3]; [done|]. destruct (negb _); [done|]. destruct (_ || _); [apply Hw|].
  destruct b3 as [|f b4]; [done|]. destruct (negb _); [done|]. destruct (_ || _); [apply Hw | done].
Qed.

Section termination.
Context (messages : string → option type_object).

Lemma wire_type_no_fuel f : wire_type messages f ≠ Err OutOfFuel.
Proof. unfold wire_type. destruct (dict_get _ _); [done|]. by destruct (messages _) as [[]|]. Qed.

Lemma tame_varint_field k f : tame k 1 (decode_varint_field messages f).
Proof.
  unfold decode_varint_field. apply tame_bind0; [apply tame_lift, wire_type_no_fuel|]. intros w.
  apply tame_bind0; [apply tame_lift; by destruct (w =? _)|]. intros _.
  apply (tame_uvarint_bind k 0). intros z _.
  assert (∀ k z, tame k 0 (liftS (value_fits f (VInt z));; mret (VInt z) : state rd value)) as Hfit.
  { intros k' z'. apply tame_bind0; [apply tame_lift, value_fits_no_fuel|]. intros _. apply tame_ret. }
  destruct (messages (f_type f)) as [[]|]; try apply tame_ret;
    (destruct (String.prefix "uint" _); [apply Hfit|]; destruct (String.prefix "sint" _); [apply Hfit|];
     case_bool_decide; [apply tame_ret | by apply tame_raise]).
Qed.

Lemma tame_packed fuel f vs : tame fuel 0 (packed_loop messages fuel f vs).
Proof.
  revert vs. induction fuel as [|fuel IH]; intros vs r Hr; [lia|]. simpl. unfold mbind, state_bind.
  pose proof (tame_varint_field (S fuel) f r Hr) as H. unfold catch_eof.
  destruct (decode_varint_field messages f r) as [[v|e] r'].
  - specialize (IH (vs ++ [v]) r' ltac:(lia)). destruct (packed_loop _ _ _ _ _) as [[a|e] r'']; [lia|]. split; [apply IH|lia].
  - destruct H as [He Hl]. destruct e; try done; simpl; lia.
Qed.

Lemma tame_packed_array k f : tame k 1 (decode_packed_array_field messages f).
Proof.
  unfold decode_packed_array_field. apply tame_bind0; [apply tame_lift; by destruct (f_repeated f)|]. intros _.
  apply (tame_uvarint_bind k 0). intros z _. apply tame_limit. intros r _. apply tame_packed. lia.
Qed.

Lemma tame_length_delimited k (load : string → msg_class → state rd value) f :
  (∀ name c, tame (k - 1) 0 (load name c)) → tame k 1 (decode_length_delimited_field messages load f).
Proof.
  intros Hl. apply (tame_uvarint_bind k 0). intros z Hz.
  case_bool_decide; [apply tame_bind0; [by apply tame_buffer|]; intros; apply tame_ret|].
  case_bool_decide.
  - apply tame_bind0; [by apply tame_buffer|]. intros b.
    apply tame_bind0; [apply tame_lift, decode_utf8_no_fuel|]. intros; apply tame_ret.
  - destruct (messages (f_type f)) as [[c|]|]; [by apply tame_limit | by apply tame_raise..].
Qed.

Lemma tame_skip k w : tame k 1 (skip_field w).
Proof.
  unfold skip_field. destruct (_ =? _); [|destruct (_ =? _); [|by apply tame_raise]];
    apply (tame_uvarint_bind k 0); intros z Hz; [apply tame_ret|].
  apply tame_bind0; [by apply tame_buffer|]. intros; apply tame_ret.
Qed.

Lemma tame_field k (load : string → msg_class → state rd value) f w :
  (∀ name c, tame (k - 1) 0 (load name c)) → tame k 1 (decode_field messages load f w).
Proof.
  intros Hl. unfold decode_field. apply tame_bind0; [apply tame_lift, wire_type_no_fuel|]. intros w'.
  destruct (_ && _); [apply tame_packed_array|]. destruct (negb _); [by apply tame_raise|].
  destruct (w =? WIRE_TYPE_LENGTH); [|destruct (w =? WIRE_TYPE_INT); [|by apply tame_raise]];
    apply (tame_bind k 1 0); try (intros; apply tame_ret); [by apply tame_length_delimited | apply tame_varint_field].
Qed.

Lemma store_no_fuel f vs d : store f vs d ≠ Err OutOfFuel.
Proof.
  unfold store. destruct (f_repeated f); [by destruct (dict_get _ _) as [[]|]|]. by destruct vs as [|? []].
Qed.

Lemma finish_no_fuel name c d : finish_message name c d ≠ Err OutOfFuel.
Proof.
  unfold finish_message. destruct (existsb _ _); [done|]. simpl. unfold construct. destruct (init_params c) as [params|]; [|done].
  unfold generated_init. destruct (existsb _ _); [done|]. simpl.
  match goal with |- context [mapR ?f params] => assert (mapR f params ≠ Err OutOfFuel) as Hm end.
  { apply nf_mapR. intros [k p]. apply nf_bind; [|done]. destruct (dict_get k d) as [v|]; [by destruct v, p|by destruct p]. }
  destruct (mapR _ _) as [a|e]; [done|]. simpl. intros [= ->]. by apply Hm.
Qed.

Lemma tame_load_fields fuel c d : tame fuel 0 (load_fields messages fuel c d).
Proof.
  revert c d. induction fuel as [|fuel IH]; intros c d r Hr; [lia|].
  assert (∀ name c, tame fuel 0 (d ← load_fields messages fuel c (preseed c); liftS (finish_message name c d))) as Hload.
  { intros name c'. apply tame_bind0; [apply IH|]. intros d'. apply tame_lift, finish_no_fuel. }
  simpl. unfold mbind at 1, state_bind at 1, catch_eof. pose proof (tame_uvarint (S fuel) r Hr) as Hk.
  destruct (load_uvarint r) as [[fkey|e] r']; [|destruct Hk as [He Hl]; destruct e; try done; simpl; lia].
  assert (length (rest r') < fuel)%nat as Hr' by lia.
  assert (tame fuel 0 (match dict_get (Z.shiftr fkey 3) (FIELDS c) with
    | None => skip_field (Z.land fkey 7);; load_fields messages fuel c d
    | Some f => fvalues ← decode_field messages (λ name c, d ← load_fields messages fuel c (preseed c); liftS (finish_message name c d)) f (Z.land fkey 7);
        d' ← liftS (store f fvalues d); load_fields messages fuel c d' end)) as Hbody.
  { destruct (dict_get _ _) as [f|].
    - apply (tame_weaken fuel fuel 1 0); [done|lia|]. apply (tame_bind fuel 1 0).
      + apply tame_field. intros name c'. eapply tame_weaken; [| |apply Hload]; lia.
      + intros vs. apply tame_bind0; [apply tame_lift, store_no_fuel|]. intros d'. eapply tame_weaken; [| |apply IH]; lia.
    - apply (tame_weaken fuel fuel 1 0); [done|lia|]. apply (tame_bind fuel 1 0); [apply tame_skip|].
      intros _. eapply tame_weaken; [| |apply IH]; lia. }
  apply (tame_run fuel 0 _ r' r Hbody); lia.
Qed.

Lemma load_message_no_fuel name c r : (load_message messages name c r).1 ≠ Err OutOfFuel.
Proof.
  unfold load_message. assert (tame (S (length (rest r))) 0 (load_message_fuel messages (S (length (rest r))) name c)) as H.
  { apply tame_bind0; [apply tame_load_fields|]. intros d. apply tame_lift, finish_no_fuel. }
  specialize (H r (Nat.lt_succ_diag_r _)). destruct (load_message_fuel _ _ _ _ r) as [[a|e] r']; [done|]. simpl. intros [= ->]. by destruct H.
Qed.
End termination.
