(* ===== verification/TrezorMessages.v ===== *)
(** * Trezor's messages (devices/trezorlib/messages.py, devices/trezorlib/mapping.py)

    The enumerations and message classes of the module, in its order and with
    its names: an enumeration is its members, a class is its wire type, its
    fields and the parameters of its constructor.  [messages] looks a class or
    an enumeration up by name, and [SchemaLaws] is shown for it, so that the
    codec's theorems hold for every message of the module.  The rest of the
    file is the mapping between wire types and classes. *)

From S2P Require Import Prelude Bytes PyStd PyStr StateM TrezorProtobuf TrezorCodec.

#[local] Open Scope string_scope.
#[local] Open Scope list_scope.
#[local] Open Scope Z_scope.

(** ** Enumerations and message classes *)

Definition MessageType : list (string * Z) :=
  [("Initialize", 0); ("Ping", 1); ("Success", 2); ("Failure", 3); ("ChangePin", 4); ("WipeDevice", 5);
   ("GetEntropy", 9); ("Entropy", 10); ("LoadDevice", 13); ("ResetDevice", 14); ("Features", 17);
   ("PinMatrixRequest", 18); ("PinMatrixAck", 19); ("Cancel", 20); ("LockDevice", 24); ("ApplySettings", 25);
   ("ButtonRequest", 26); ("ButtonAck", 27); ("ApplyFlags", 28); ("BackupDevice", 34); ("EntropyRequest", 35);
   ("EntropyAck", 36); ("PassphraseRequest", 41); ("PassphraseAck", 42); ("RecoveryDevice", 45);
   ("WordRequest", 46); ("WordAck", 47); ("GetFeatures", 55); ("SdProtect", 79); ("ChangeWipeCode", 82);
   ("EndSession", 83); ("DoPreauthorized", 84); ("PreauthorizedRequest", 85); ("CancelAuthorization", 86);
   ("RebootToBootloader", 87); ("Deprecated_PassphraseStateRequest", 77);
   ("Deprecated_PassphraseStateAck", 78); ("FirmwareErase", 6); ("FirmwareUpload", 7); ("FirmwareRequest", 8);
   ("SelfTest", 32); ("GetPublicKey", 11); ("PublicKey", 12); ("SignTx", 15); ("TxRequest", 21);
   ("TxAck", 22); ("GetAddress", 29); ("Address", 30); ("SignMessage", 38); ("VerifyMessage", 39);
   ("MessageSignature", 40); ("GetOwnershipId", 43); ("OwnershipId", 44); ("GetOwnershipProof", 49);
   ("OwnershipProof", 50); ("AuthorizeCoinJoin", 51); ("DebugLinkDecision", 100); ("DebugLinkGetState", 101);
   ("DebugLinkState", 102); ("DebugLinkStop", 103); ("DebugLinkLog", 104); ("DebugLinkMemoryRead", 110);
   ("DebugLinkMemory", 111); ("DebugLinkMemoryWrite", 112); ("DebugLinkFlashErase", 113);
   ("DebugLinkLayout", 9001); ("DebugLinkReseedRandom", 9002); ("DebugLinkRecordScreen", 9003);
   ("DebugLinkEraseSdCard", 9005); ("DebugLinkWatchLayout", 9006)].

Definition FailureType : list (string * Z) :=
  [("UnexpectedMessage", 1); ("ButtonExpected", 2); ("DataError", 3); ("ActionCancelled", 4);
   ("PinExpected", 5); ("PinCancelled", 6); ("PinInvalid", 7); ("InvalidSignature", 8); ("ProcessError", 9);
   ("NotEnoughFunds", 10); ("NotInitialized", 11); ("PinMismatch", 12); ("WipeCodeMismatch", 13);
   ("InvalidSession", 14); ("FirmwareError", 99)].

Definition ButtonRequestType : list (string * Z) :=
  [("Other", 1); ("FeeOverThreshold", 2); ("ConfirmOutput", 3); ("ResetDevice", 4); ("ConfirmWord", 5);
   ("WipeDevice", 6); ("ProtectCall", 7); ("SignTx", 8); ("FirmwareCheck", 9); ("Address", 10);
   ("PublicKey", 11); ("MnemonicWordCount", 12); ("MnemonicInput", 13);
   ("_Deprecated_ButtonRequest_PassphraseType", 14); ("UnknownDerivationPath", 15); ("RecoveryHomepage", 16);
   ("Success", 17); ("Warning", 18); ("PassphraseEntry", 19); ("PinEntry", 20)].

Definition PinMatrixRequestType : list (string * Z) :=
  [("Current", 1); ("NewFirst", 2); ("NewSecond", 3); ("WipeCodeFirst", 4); ("WipeCodeSecond", 5)].

Definition InputScriptType : list (string * Z) :=
  [("SPENDADDRESS", 0); ("SPENDMULTISIG", 1); ("EXTERNAL", 2); ("SPENDWITNESS", 3); ("SPENDP2SHWITNESS", 4);
   ("SPENDTAPROOT", 5)].

Definition OutputScriptType : list (string * Z) :=
  [("PAYTOADDRESS", 0); ("PAYTOSCRIPTHASH", 1); ("PAYTOMULTISIG", 2); ("PAYTOOPRETURN", 3);
   ("PAYTOWITNESS", 4); ("PAYTOP2SHWITNESS", 5); ("PAYTOTAPROOT", 6)].

Definition DecredStakingSpendType : list (string * Z) :=
  [("SSGen", 0); ("SSRTX", 1)].

Definition AmountUnit : list (string * Z) :=
  [("BITCOIN", 0); ("MILLIBITCOIN", 1); ("MICROBITCOIN", 2); ("SATOSHI", 3)].

Definition RequestType : list (string * Z) :=
  [("TXINPUT", 0); ("TXOUTPUT", 1); ("TXMETA", 2); ("TXFINISHED", 3); ("TXEXTRADATA", 4); ("TXORIGINPUT", 5);
   ("TXORIGOUTPUT", 6)].

Definition BackupType : list (string * Z) :=
  [("Bip39", 0); ("Slip39_Basic", 1); ("Slip39_Advanced", 2)].

Definition SafetyCheckLevel : list (string * Z) :=
  [("Strict", 0); ("PromptAlways", 1); ("PromptTemporarily", 2)].

Definition Capability : list (string * Z) :=
  [("Bitcoin", 1); ("Bitcoin_like", 2); ("Binance", 3); ("Cardano", 4); ("Crypto", 5); ("EOS", 6);
   ("Ethereum", 7); ("Lisk", 8); ("Monero", 9); ("NEM", 10); ("Ripple", 11); ("Stellar", 12); ("Tezos", 13);
   ("U2F", 14); ("Shamir", 15); ("ShamirGroups", 16); ("PassphraseEntry", 17)].

Definition SdProtectOperationType : list (string * Z) :=
  [("DISABLE", 0); ("ENABLE", 1); ("REFRESH", 2)].

Definition RecoveryDeviceType : list (string * Z) :=
  [("ScrambledWords", 0); ("Matrix", 1)].

Definition WordRequestType : list (string * Z) :=
  [("Plain", 0); ("Matrix9", 1); ("Matrix6", 2)].

Definition DebugSwipeDirection : list (string * Z) :=
  [("UP", 0); ("DOWN", 1); ("LEFT", 2); ("RIGHT", 3)].

Definition Success : msg_class := mkClass (Some 2)
  [(1, mkField "message" "string" false false VNone)]
  (Some [("message", Default (VStr $""))]).

Definition Failure : msg_class := mkClass (Some 3)
  [(1, mkField "code" "FailureType" false false VNone);
   (2, mkField "message" "string" false false VNone)]
  (Some [("code", Default VNone); ("message", Default VNone)]).

Definition ButtonRequest : msg_class := mkClass (Some 26)
  [(1, mkField "code" "ButtonRequestType" false false VNone);
   (2, mkField "pages" "uint32" false false VNone)]
  (Some [("code", Default VNone); ("pages", Default VNone)]).

Definition ButtonAck : msg_class := mkClass (Some 27)
  []
  None.

Definition PinMatrixRequest : msg_class := mkClass (Some 18)
  [(1, mkField "type" "PinMatrixRequestType" false false VNone)]
  (Some [("type", Default VNone)]).

Definition PinMatrixAck : msg_class := mkClass (Some 19)
  [(1, mkField "pin" "string" false true VNone)]
  (Some [("pin", Needed)]).

Definition PassphraseRequest : msg_class := mkClass (Some 41)
  [(1, mkField "_on_device" "bool" false false VNone)]
  (Some [("_on_device", Default VNone)]).

Definition PassphraseAck : msg_class := mkClass (Some 42)
  [(1, mkField "passphrase" "string" false false VNone);
   (2, mkField "_state" "bytes" false false VNone);
   (3, mkField "on_device" "bool" false false VNone)]
  (Some [("passphrase", Default VNone); ("_state", Default VNone); ("on_device", Default VNone)]).

Definition Deprecated_PassphraseStateRequest : msg_class := mkClass (Some 77)
  [(1, mkField "state" "bytes" false false VNone)]
  (Some [("state", Default VNone)]).

Definition Deprecated_PassphraseStateAck : msg_class := mkClass (Some 78)
  []
  None.

Definition HDNodeType : msg_class := mkClass None
  [(1, mkField "depth" "uint32" false true VNone);
   (2, mkField "fingerprint" "uint32" false true VNone);
   (3, mkField "child_num" "uint32" false true VNone);
   (4, mkField "chain_code" "bytes" false true VNone);
   (5, mkField "private_key" "bytes" false false VNone);
   (6, mkField "public_key" "bytes" false true VNone)]
  (Some [("depth", Needed); ("fingerprint", Needed); ("child_num", Needed); ("chain_code", Needed);
         ("private_key", Default VNone); ("public_key", Needed)]).

Definition MultisigRedeemScriptType : msg_class := mkClass None
  [(1, mkField "pubkeys" "HDNodePathType" true false VNone);
   (2, mkField "signatures" "bytes" true false VNone);
   (3, mkField "m" "uint32" false true VNone);
   (4, mkField "nodes" "HDNodeType" true false VNone);
   (5, mkField "address_n" "uint32" true false VNone)]
  (Some [("pubkeys", ListParam); ("signatures", ListParam); ("m", Needed); ("nodes", ListParam);
         ("address_n", ListParam)]).

Definition GetPublicKey : msg_class := mkClass (Some 11)
  [(1, mkField "address_n" "uint32" true false VNone);
   (2, mkField "ecdsa_curve_name" "string" false false VNone);
   (3, mkField "show_display" "bool" false false VNone);
   (4, mkField "coin_name" "string" false false VNone);
   (5, mkField "script_type" "InputScriptType" false false VNone);
   (6, mkField "ignore_xpub_magic" "bool" false false VNone)]
  (Some [("address_n", ListParam); ("ecdsa_curve_name", Default VNone); ("show_display", Default VNone);
         ("coin_name", Default (VStr $"Bitcoin")); ("script_type", Default (VInt 0));
         ("ignore_xpub_magic", Default VNone)]).

Definition PublicKey : msg_class := mkClass (Some 12)
  [(1, mkField "node" "HDNodeType" false true VNone);
   (2, mkField "xpub" "string" false true VNone);
   (3, mkField "root_fingerprint" "uint32" false false VNone)]
  (Some [("node", Needed); ("xpub", Needed); ("root_fingerprint", Default VNone)]).

Definition GetAddress : msg_class := mkClass (Some 29)
  [(1, mkField "address_n" "uint32" true false VNone);
   (2, mkField "coin_name" "string" false false VNone);
   (3, mkField "show_display" "bool" false false VNone);
   (4, mkField "multisig" "MultisigRedeemScriptType" false false VNone);
   (5, mkField "script_type" "InputScriptType" false false VNone);
   (6, mkField "ignore_xpub_magic" "bool" false false VNone)]
  (Some [("address_n", ListParam); ("coin_name", Default (VStr $"Bitcoin")); ("show_display", Default VNone);
         ("multisig", Default VNone); ("script_type", Default (VInt 0)); ("ignore_xpub_magic", Default VNone)]).

Definition Address : msg_class := mkClass (Some 30)
  [(1, mkField "address" "string" false true VNone)]
  (Some [("address", Needed)]).

Definition GetOwnershipId : msg_class := mkClass (Some 43)
  [(1, mkField "address_n" "uint32" true false VNone);
   (2, mkField "coin_name" "string" false false VNone);
   (3, mkField "multisig" "MultisigRedeemScriptType" false false VNone);
   (4, mkField "script_type" "InputScriptType" false false VNone)]
  (Some [("address_n", ListParam); ("coin_name", Default (VStr $"Bitcoin")); ("multisig", Default VNone);
         ("script_type", Default (VInt 0))]).

Definition OwnershipId : msg_class := mkClass (Some 44)
  [(1, mkField "ownership_id" "bytes" false true VNone)]
  (Some [("ownership_id", Needed)]).

Definition SignMessage : msg_class := mkClass (Some 38)
  [(1, mkField "address_n" "uint32" true false VNone);
   (2, mkField "message" "bytes" false true VNone);
   (3, mkField "coin_name" "string" false false VNone);
   (4, mkField "script_type" "InputScriptType" false false VNone);
   (5, mkField "no_script_type" "bool" false false VNone)]
  (Some [("address_n", ListParam); ("message", Needed); ("coin_name", Default (VStr $"Bitcoin"));
         ("script_type", Default (VInt 0)); ("no_script_type", Default VNone)]).

Definition MessageSignature : msg_class := mkClass (Some 40)
  [(1, mkField "address" "string" false true VNone);
   (2, mkField "signature" "bytes" false true VNone)]
  (Some [("address", Needed); ("signature", Needed)]).

Definition VerifyMessage : msg_class := mkClass (Some 39)
  [(1, mkField "address" "string" false true VNone);
   (2, mkField "signature" "bytes" false true VNone);
   (3, mkField "message" "bytes" false true VNone);
   (4, mkField "coin_name" "string" false false VNone)]
  (Some [("address", Needed); ("signature", Needed); ("message", Needed); ("coin_name", Default (VStr $"Bitcoin"))]).

Definition SignTx : msg_class := mkClass (Some 15)
  [(1, mkField "outputs_count" "uint32" false true VNone);
   (2, mkField "inputs_count" "uint32" false true VNone);
   (3, mkField "coin_name" "string" false false VNone);
   (4, mkField "version" "uint32" false false VNone);
   (5, mkField "lock_time" "uint32" false false VNone);
   (6, mkField "expiry" "uint32" false false VNone);
   (7, mkField "overwintered" "bool" false false VNone);
   (8, mkField "version_group_id" "uint32" false false VNone);
   (9, mkField "timestamp" "uint32" false false VNone);
   (10, mkField "branch_id" "uint32" false false VNone);
   (11, mkField "amount_unit" "AmountUnit" false false VNone);
   (12, mkField "decred_staking_ticket" "bool" false false VNone);
   (13, mkField "serialize" "bool" false false VNone)]
  (Some [("outputs_count", Needed); ("inputs_count", Needed); ("coin_name", Default (VStr $"Bitcoin"));
         ("version", Default (VInt 1)); ("lock_time", Default (VInt 0)); ("expiry", Default VNone);
         ("overwintered", Default VNone); ("version_group_id", Default VNone); ("timestamp", Default VNone);
         ("branch_id", Default VNone); ("amount_unit", Default (VInt 0));
         ("decred_staking_ticket", Default (VBool false)); ("serialize", Default (VBool true))]).

Definition TxRequest : msg_class := mkClass (Some 21)
  [(1, mkField "request_type" "RequestType" false false VNone);
   (2, mkField "details" "TxRequestDetailsType" false false VNone);
   (3, mkField "serialized" "TxRequestSerializedType" false false VNone)]
  (Some [("request_type", Default VNone); ("details", Default VNone); ("serialized", Default VNone)]).

Definition TxAck : msg_class := mkClass (Some 22)
  [(1, mkField "tx" "TransactionType" false false VNone)]
  (Some [("tx", Default VNone)]).

Definition TxInput : msg_class := mkClass None
  [(1, mkField "address_n" "uint32" true false VNone);
   (2, mkField "prev_hash" "bytes" false true VNone);
   (3, mkField "prev_index" "uint32" false true VNone);
   (4, mkField "script_sig" "bytes" false false VNone);
   (5, mkField "sequence" "uint32" false false VNone);
   (6, mkField "script_type" "InputScriptType" false false VNone);
   (7, mkField "multisig" "MultisigRedeemScriptType" false false VNone);
   (8, mkField "amount" "uint64" false true VNone);
   (9, mkField "decred_tree" "uint32" false false VNone);
   (13, mkField "witness" "bytes" false false VNone);
   (14, mkField "ownership_proof" "bytes" false false VNone);
   (15, mkField "commitment_data" "bytes" false false VNone);
   (16, mkField "orig_hash" "bytes" false false VNone);
   (17, mkField "orig_index" "uint32" false false VNone);
   (18, mkField "decred_staking_spend" "DecredStakingSpendType" false false VNone);
   (19, mkField "script_pubkey" "bytes" false false VNone)]
  (Some [("address_n", ListParam); ("prev_hash", Needed); ("prev_index", Needed); ("script_sig", Default VNone);
         ("sequence", Default (VInt 4294967295)); ("script_type", Default (VInt 0)); ("multisig", Default VNone);
         ("amount", Needed); ("decred_tree", Default VNone); ("witness", Default VNone);
         ("ownership_proof", Default VNone); ("commitment_data", Default VNone); ("orig_hash", Default VNone);
         ("orig_index", Default VNone); ("decred_staking_spend", Default VNone); ("script_pubkey", Default VNone)]).

Definition TxOutput : msg_class := mkClass None
  [(1, mkField "address" "string" false false VNone);
   (2, mkField "address_n" "uint32" true false VNone);
   (3, mkField "amount" "uint64" false true VNone);
   (4, mkField "script_type" "OutputScriptType" false false VNone);
   (5, mkField "multisig" "MultisigRedeemScriptType" false false VNone);
   (6, mkField "op_return_data" "bytes" false false VNone);
   (10, mkField "orig_hash" "bytes" false false VNone);
   (11, mkField "orig_index" "uint32" false false VNone)]
  (Some [("address", Default VNone); ("address_n", ListParam); ("amount", Needed);
         ("script_type", Default (VInt 0)); ("multisig", Default VNone); ("op_return_data", Default VNone);
         ("orig_hash", Default VNone); ("orig_index", Default VNone)]).

Definition PrevTx : msg_class := mkClass None
  [(1, mkField "version" "uint32" false true VNone);
   (4, mkField "lock_time" "uint32" false true VNone);
   (6, mkField "inputs_count" "uint32" false true VNone);
   (7, mkField "outputs_count" "uint32" false true VNone);
   (9, mkField "extra_data_len" "uint32" false false VNone);
   (10, mkField "expiry" "uint32" false false VNone);
   (12, mkField "version_group_id" "uint32" false false VNone);
   (13, mkField "timestamp" "uint32" false false VNone);
   (14, mkField "branch_id" "uint32" false false VNone)]
  (Some [("version", Needed); ("lock_time", Needed); ("inputs_count", Needed); ("outputs_count", Needed);
         ("extra_data_len", Default (VInt 0)); ("expiry", Default VNone); ("version_group_id", Default VNone);
         ("timestamp", Default VNone); ("branch_id", Default VNone)]).

Definition PrevInput : msg_class := mkClass None
  [(2, mkField "prev_hash" "bytes" false true VNone);
   (3, mkField "prev_index" "uint32" false true VNone);
   (4, mkField "script_sig" "bytes" false true VNone);
   (5, mkField "sequence" "uint32" false true VNone);
   (9, mkField "decred_tree" "uint32" false false VNone)]
  (Some [("prev_hash", Needed); ("prev_index", Needed); ("script_sig", Needed); ("sequence", Needed);
         ("decred_tree", Default VNone)]).

Definition PrevOutput : msg_class := mkClass None
  [(1, mkField "amount" "uint64" false true VNone);
   (2, mkField "script_pubkey" "bytes" false true VNone);
   (3, mkField "decred_script_version" "uint32" false false VNone)]
  (Some [("amount", Needed); ("script_pubkey", Needed); ("decred_script_version", Default VNone)]).

Definition TxAckInput : msg_class := mkClass (Some 22)
  [(1, mkField "tx" "TxAckInputWrapper" false true VNone)]
  (Some [("tx", Needed)]).

Definition TxAckOutput : msg_class := mkClass (Some 22)
  [(1, mkField "tx" "TxAckOutputWrapper" false true VNone)]
  (Some [("tx", Needed)]).

Definition TxAckPrevMeta : msg_class := mkClass (Some 22)
  [(1, mkField "tx" "PrevTx" false true VNone)]
  (Some [("tx", Needed)]).

Definition TxAckPrevInput : msg_class := mkClass (Some 22)
  [(1, mkField "tx" "TxAckPrevInputWrapper" false true VNone)]
  (Some [("tx", Needed)]).

Definition TxAckPrevOutput : msg_class := mkClass (Some 22)
  [(1, mkField "tx" "TxAckPrevOutputWrapper" false true VNone)]
  (Some [("tx", Needed)]).

Definition TxAckPrevExtraData : msg_class := mkClass (Some 22)
  [(1, mkField "tx" "TxAckPrevExtraDataWrapper" false true VNone)]
  (Some [("tx", Needed)]).

Definition GetOwnershipProof : msg_class := mkClass (Some 49)
  [(1, mkField "address_n" "uint32" true false VNone);
   (2, mkField "coin_name" "string" false false VNone);
   (3, mkField "script_type" "InputScriptType" false false VNone);
   (4, mkField "multisig" "MultisigRedeemScriptType" false false VNone);
   (5, mkField "user_confirmation" "bool" false false VNone);
   (6, mkField "ownership_ids" "bytes" true false VNone);
   (7, mkField "commitment_data" "bytes" false false VNone)]
  (Some [("address_n", ListParam); ("coin_name", Default (VStr $"Bitcoin")); ("script_type", Default (VInt 3));
         ("multisig", Default VNone); ("user_confirmation", Default (VBool false)); ("ownership_ids", ListParam);
         ("commitment_data", Default (VBytes []))]).

Definition OwnershipProof : msg_class := mkClass (Some 50)
  [(1, mkField "ownership_proof" "bytes" false true VNone);
   (2, mkField "signature" "bytes" false true VNone)]
  (Some [("ownership_proof", Needed); ("signature", Needed)]).

Definition AuthorizeCoinJoin : msg_class := mkClass (Some 51)
  [(1, mkField "coordinator" "string" false true VNone);
   (2, mkField "max_total_fee" "uint64" false true VNone);
   (3, mkField "fee_per_anonymity" "uint32" false false VNone);
   (4, mkField "address_n" "uint32" true false VNone);
   (5, mkField "coin_name" "string" false false VNone);
   (6, mkField "script_type" "InputScriptType" false false VNone);
   (11, mkField "amount_unit" "AmountUnit" false false VNone)]
  (Some [("coordinator", Needed); ("max_total_fee", Needed); ("fee_per_anonymity", Default (VInt 0));
         ("address_n", ListParam); ("coin_name", Default (VStr $"Bitcoin")); ("script_type", Default (VInt 0));
         ("amount_unit", Default (VInt 0))]).

Definition HDNodePathType : msg_class := mkClass None
  [(1, mkField "node" "HDNodeType" false true VNone);
   (2, mkField "address_n" "uint32" true false VNone)]
  (Some [("node", Needed); ("address_n", ListParam)]).

Definition TxRequestDetailsType : msg_class := mkClass None
  [(1, mkField "request_index" "uint32" false false VNone);
   (2, mkField "tx_hash" "bytes" false false VNone);
   (3, mkField "extra_data_len" "uint32" false false VNone);
   (4, mkField "extra_data_offset" "uint32" false false VNone)]
  (Some [("request_index", Default VNone); ("tx_hash", Default VNone); ("extra_data_len", Default VNone);
         ("extra_data_offset", Default VNone)]).

Definition TxRequestSerializedType : msg_class := mkClass None
  [(1, mkField "signature_index" "uint32" false false VNone);
   (2, mkField "signature" "bytes" false false VNone);
   (3, mkField "serialized_tx" "bytes" false false VNone)]
  (Some [("signature_index", Default VNone); ("signature", Default VNone); ("serialized_tx", Default VNone)]).

Definition TransactionType : msg_class := mkClass None
  [(1, mkField "version" "uint32" false false VNone);
   (2, mkField "inputs" "TxInputType" true false VNone);
   (3, mkField "bin_outputs" "TxOutputBinType" true false VNone);
   (4, mkField "lock_time" "uint32" false false VNone);
   (5, mkField "outputs" "TxOutputType" true false VNone);
   (6, mkField "inputs_cnt" "uint32" false false VNone);
   (7, mkField "outputs_cnt" "uint32" false false VNone);
   (8, mkField "extra_data" "bytes" false false VNone);
   (9, mkField "extra_data_len" "uint32" false false VNone);
   (10, mkField "expiry" "uint32" false false VNone);
   (11, mkField "overwintered" "bool" false false VNone);
   (12, mkField "version_group_id" "uint32" false false VNone);
   (13, mkField "timestamp" "uint32" false false VNone);
   (14, mkField "branch_id" "uint32" false false VNone)]
  (Some [("version", Default VNone); ("inputs", ListParam); ("bin_outputs", ListParam);
         ("lock_time", Default VNone); ("outputs", ListParam); ("inputs_cnt", Default VNone);
         ("outputs_cnt", Default VNone); ("extra_data", Default VNone); ("extra_data_len", Default VNone);
         ("expiry", Default VNone); ("overwintered", Default VNone); ("version_group_id", Default VNone);
         ("timestamp", Default VNone); ("branch_id", Default VNone)]).

Definition TxInputType : msg_class := mkClass None
  [(1, mkField "address_n" "uint32" true false VNone);
   (2, mkField "prev_hash" "bytes" false true VNone);
   (3, mkField "prev_index" "uint32" false true VNone);
   (4, mkField "script_sig" "bytes" false false VNone);
   (5, mkField "sequence" "uint32" false false VNone);
   (6, mkField "script_type" "InputScriptType" false false VNone);
   (7, mkField "multisig" "MultisigRedeemScriptType" false false VNone);
   (8, mkField "amount" "uint64" false false VNone);
   (9, mkField "decred_tree" "uint32" false false VNone);
   (13, mkField "witness" "bytes" false false VNone);
   (14, mkField "ownership_proof" "bytes" false false VNone);
   (15, mkField "commitment_data" "bytes" false false VNone);
   (16, mkField "orig_hash" "bytes" false false VNone);
   (17, mkField "orig_index" "uint32" false false VNone);
   (18, mkField "decred_staking_spend" "DecredStakingSpendType" false false VNone);
   (19, mkField "script_pubkey" "bytes" false false VNone)]
  (Some [("address_n", ListParam); ("prev_hash", Needed); ("prev_index", Needed); ("script_sig", Default VNone);
         ("sequence", Default (VInt 4294967295)); ("script_type", Default (VInt 0)); ("multisig", Default VNone);
         ("amount", Default VNone); ("decred_tree", Default VNone); ("witness", Default VNone);
         ("ownership_proof", Default VNone); ("commitment_data", Default VNone); ("orig_hash", Default VNone);
         ("orig_index", Default VNone); ("decred_staking_spend", Default VNone); ("script_pubkey", Default VNone)]).

Definition TxOutputBinType : msg_class := mkClass None
  [(1, mkField "amount" "uint64" false true VNone);
   (2, mkField "script_pubkey" "bytes" false true VNone);
   (3, mkField "decred_script_version" "uint32" false false VNone)]
  (Some [("amount", Needed); ("script_pubkey", Needed); ("decred_script_version", Default VNone)]).

Definition TxOutputType : msg_class := mkClass None
  [(1, mkField "address" "string" false false VNone);
   (2, mkField "address_n" "uint32" true false VNone);
   (3, mkField "amount" "uint64" false true VNone);
   (4, mkField "script_type" "OutputScriptType" false false VNone);
   (5, mkField "multisig" "MultisigRedeemScriptType" false false VNone);
   (6, mkField "op_return_data" "bytes" false false VNone);
   (10, mkField "orig_hash" "bytes" false false VNone);
   (11, mkField "orig_index" "uint32" false false VNone)]
  (Some [("address", Default VNone); ("address_n", ListParam); ("amount", Needed);
         ("script_type", Default (VInt 0)); ("multisig", Default VNone); ("op_return_data", Default VNone);
         ("orig_hash", Default VNone); ("orig_index", Default VNone)]).

Definition TxAckInputWrapper : msg_class := mkClass None
  [(2, mkField "input" "TxInput" false true VNone)]
  (Some [("input", Needed)]).

Definition TxAckOutputWrapper : msg_class := mkClass None
  [(5, mkField "output" "TxOutput" false true VNone)]
  (Some [("output", Needed)]).

Definition TxAckPrevInputWrapper : msg_class := mkClass None
  [(2, mkField "input" "PrevInput" false true VNone)]
  (Some [("input", Needed)]).

Definition TxAckPrevOutputWrapper : msg_class := mkClass None
  [(3, mkField "output" "PrevOutput" false true VNone)]
  (Some [("output", Needed)]).

Definition TxAckPrevExtraDataWrapper : msg_class := mkClass None
  [(8, mkField "extra_data_chunk" "bytes" false true VNone)]
  (Some [("extra_data_chunk", Needed)]).

Definition FirmwareErase : msg_class := mkClass (Some 6)
  [(1, mkField "length" "uint32" false false VNone)]
  (Some [("length", Default VNone)]).

Definition FirmwareRequest : msg_class := mkClass (Some 8)
  [(1, mkField "offset" "uint32" false false VNone);
   (2, mkField "length" "uint32" false false VNone)]
  (Some [("offset", Default VNone); ("length", Default VNone)]).

Definition FirmwareUpload : msg_class := mkClass (Some 7)
  [(1, mkField "payload" "bytes" false true VNone);
   (2, mkField "hash" "bytes" false false VNone)]
  (Some [("payload", Needed); ("hash", Default VNone)]).

Definition SelfTest : msg_class := mkClass (Some 32)
  [(1, mkField "payload" "bytes" false false VNone)]
  (Some [("payload", Default VNone)]).

Definition IdentityType : msg_class := mkClass None
  [(1, mkField "proto" "string" false false VNone);
   (2, mkField "user" "string" false false VNone);
   (3, mkField "host" "string" false false VNone);
   (4, mkField "port" "string" false false VNone);
   (5, mkField "path" "string" false false VNone);
   (6, mkField "index" "uint32" false false VNone)]
  (Some [("proto", Default VNone); ("user", Default VNone); ("host", Default VNone); ("port", Default VNone);
         ("path", Default VNone); ("index", Default (VInt 0))]).

Definition Initialize : msg_class := mkClass (Some 0)
  [(1, mkField "session_id" "bytes" false false VNone);
   (3, mkField "derive_cardano" "bool" false false VNone)]
  (Some [("session_id", Default VNone); ("derive_cardano", Default VNone)]).

Definition GetFeatures : msg_class := mkClass (Some 55)
  []
  None.

Definition Features : msg_class := mkClass (Some 17)
  [(1, mkField "vendor" "string" false false VNone);
   (2, mkField "major_version" "uint32" false true VNone);
   (3, mkField "minor_version" "uint32" false true VNone);
   (4, mkField "patch_version" "uint32" false true VNone);
   (5, mkField "bootloader_mode" "bool" false false VNone);
   (6, mkField "device_id" "string" false false VNone);
   (7, mkField "pin_protection" "bool" false false VNone);
   (8, mkField "passphrase_protection" "bool" false false VNone);
   (9, mkField "language" "string" false false VNone);
   (10, mkField "label" "string" false false VNone);
   (12, mkField "initialized" "bool" false false VNone);
   (13, mkField "revision" "bytes" false false VNone);
   (14, mkField "bootloader_hash" "bytes" false false VNone);
   (15, mkField "imported" "bool" false false VNone);
   (16, mkField "unlocked" "bool" false false VNone);
   (18, mkField "firmware_present" "bool" false false VNone);
   (19, mkField "needs_backup" "bool" false false VNone);
   (20, mkField "flags" "uint32" false false VNone);
   (21, mkField "model" "string" false false VNone);
   (22, mkField "fw_major" "uint32" false false VNone);
   (23, mkField "fw_minor" "uint32" false false VNone);
   (24, mkField "fw_patch" "uint32" false false VNone);
   (25, mkField "fw_vendor" "string" false false VNone);
   (26, mkField "fw_vendor_keys" "bytes" false false VNone);
   (27, mkField "unfinished_backup" "bool" false false VNone);
   (28, mkField "no_backup" "bool" false false VNone);
   (29, mkField "recovery_mode" "bool" false false VNone);
   (30, mkField "capabilities" "Capability" true false VNone);
   (31, mkField "backup_type" "BackupType" false false VNone);
   (32, mkField "sd_card_present" "bool" false false VNone);
   (33, mkField "sd_protection" "bool" false false VNone);
   (34, mkField "wipe_code_protection" "bool" false false VNone);
   (35, mkField "session_id" "bytes" false false VNone);
   (36, mkField "passphrase_always_on_device" "bool" false false VNone);
   (37, mkField "safety_checks" "SafetyCheckLevel" false false VNone);
   (38, mkField "auto_lock_delay_ms" "uint32" false false VNone);
   (39, mkField "display_rotation" "uint32" false false VNone);
   (40, mkField "experimental_features" "bool" false false VNone)]
  (Some [("vendor", Default VNone); ("major_version", Needed); ("minor_version", Needed); ("patch_version", Needed);
         ("bootloader_mode", Default VNone); ("device_id", Default VNone); ("pin_protection", Default VNone);
         ("passphrase_protection", Default VNone); ("language", Default VNone); ("label", Default VNone);
         ("initialized", Default VNone); ("revision", Default VNone); ("bootloader_hash", Default VNone);
         ("imported", Default VNone); ("unlocked", Default VNone); ("firmware_present", Default VNone);
         ("needs_backup", Default VNone); ("flags", Default VNone); ("model", Default VNone);
         ("fw_major", Default VNone); ("fw_minor", Default VNone); ("fw_patch", Default VNone);
         ("fw_vendor", Default VNone); ("fw_vendor_keys", Default VNone); ("unfinished_backup", Default VNone);
         ("no_backup", Default VNone); ("recovery_mode", Default VNone); ("capabilities", ListParam);
         ("backup_type", Default VNone); ("sd_card_present", Default VNone); ("sd_protection", Default VNone);
         ("wipe_code_protection", Default VNone); ("session_id", Default VNone);
         ("passphrase_always_on_device", Default VNone); ("safety_checks", Default VNone);
         ("auto_lock_delay_ms", Default VNone); ("display_rotation", Default VNone);
         ("experimental_features", Default VNone)]).

Definition LockDevice : msg_class := mkClass (Some 24)
  []
  None.

Definition EndSession : msg_class := mkClass (Some 83)
  []
  None.

Definition ApplySettings : msg_class := mkClass (Some 25)
  [(1, mkField "language" "string" false false VNone);
   (2, mkField "label" "string" false false VNone);
   (3, mkField "use_passphrase" "bool" false false VNone);
   (4, mkField "homescreen" "bytes" false false VNone);
   (6, mkField "auto_lock_delay_ms" "uint32" false false VNone);
   (7, mkField "display_rotation" "uint32" false false VNone);
   (8, mkField "passphrase_always_on_device" "bool" false false VNone);
   (9, mkField "safety_checks" "SafetyCheckLevel" false false VNone);
   (10, mkField "experimental_features" "bool" false false VNone)]
  (Some [("language", Default VNone); ("label", Default VNone); ("use_passphrase", Default VNone);
         ("homescreen", Default VNone); ("auto_lock_delay_ms", Default VNone); ("display_rotation", Default VNone);
         ("passphrase_always_on_device", Default VNone); ("safety_checks", Default VNone);
         ("experimental_features", Default VNone)]).

Definition ApplyFlags : msg_class := mkClass (Some 28)
  [(1, mkField "flags" "uint32" false true VNone)]
  (Some [("flags", Needed)]).

Definition ChangePin : msg_class := mkClass (Some 4)
  [(1, mkField "remove" "bool" false false VNone)]
  (Some [("remove", Default VNone)]).

Definition ChangeWipeCode : msg_class := mkClass (Some 82)
  [(1, mkField "remove" "bool" false false VNone)]
  (Some [("remove", Default VNone)]).

Definition SdProtect : msg_class := mkClass (Some 79)
  [(1, mkField "operation" "SdProtectOperationType" false true VNone)]
  (Some [("operation", Needed)]).

Definition Ping : msg_class := mkClass (Some 1)
  [(1, mkField "message" "string" false false VNone);
   (2, mkField "button_protection" "bool" false false VNone)]
  (Some [("message", Default (VStr $"")); ("button_protection", Default VNone)]).

Definition Cancel : msg_class := mkClass (Some 20)
  []
  None.

Definition GetEntropy : msg_class := mkClass (Some 9)
  [(1, mkField "size" "uint32" false true VNone)]
  (Some [("size", Needed)]).

Definition Entropy : msg_class := mkClass (Some 10)
  [(1, mkField "entropy" "bytes" false true VNone)]
  (Some [("entropy", Needed)]).

Definition WipeDevice : msg_class := mkClass (Some 5)
  []
  None.

Definition LoadDevice : msg_class := mkClass (Some 13)
  [(1, mkField "mnemonics" "string" true false VNone);
   (3, mkField "pin" "string" false false VNone);
   (4, mkField "passphrase_protection" "bool" false false VNone);
   (5, mkField "language" "string" false false VNone);
   (6, mkField "label" "string" false false VNone);
   (7, mkField "skip_checksum" "bool" false false VNone);
   (8, mkField "u2f_counter" "uint32" false false VNone);
   (9, mkField "needs_backup" "bool" false false VNone);
   (10, mkField "no_backup" "bool" false false VNone)]
  (Some [("mnemonics", ListParam); ("pin", Default VNone); ("passphrase_protection", Default VNone);
         ("language", Default (VStr $"en-US")); ("label", Default VNone); ("skip_checksum", Default VNone);
         ("u2f_counter", Default VNone); ("needs_backup", Default VNone); ("no_backup", Default VNone)]).

Definition ResetDevice : msg_class := mkClass (Some 14)
  [(1, mkField "display_random" "bool" false false VNone);
   (2, mkField "strength" "uint32" false false VNone);
   (3, mkField "passphrase_protection" "bool" false false VNone);
   (4, mkField "pin_protection" "bool" false false VNone);
   (5, mkField "language" "string" false false VNone);
   (6, mkField "label" "string" false false VNone);
   (7, mkField "u2f_counter" "uint32" false false VNone);
   (8, mkField "skip_backup" "bool" false false VNone);
   (9, mkField "no_backup" "bool" false false VNone);
   (10, mkField "backup_type" "BackupType" false false VNone)]
  (Some [("display_random", Default VNone); ("strength", Default (VInt 256));
         ("passphrase_protection", Default VNone); ("pin_protection", Default VNone);
         ("language", Default (VStr $"en-US")); ("label", Default VNone); ("u2f_counter", Default VNone);
         ("skip_backup", Default VNone); ("no_backup", Default VNone); ("backup_type", Default (VInt 0))]).

Definition BackupDevice : msg_class := mkClass (Some 34)
  []
  None.

Definition EntropyRequest : msg_class := mkClass (Some 35)
  []
  None.

Definition EntropyAck : msg_class := mkClass (Some 36)
  [(1, mkField "entropy" "bytes" false true VNone)]
  (Some [("entropy", Needed)]).

Definition RecoveryDevice : msg_class := mkClass (Some 45)
  [(1, mkField "word_count" "uint32" false false VNone);
   (2, mkField "passphrase_protection" "bool" false false VNone);
   (3, mkField "pin_protection" "bool" false false VNone);
   (4, mkField "language" "string" false false VNone);
   (5, mkField "label" "string" false false VNone);
   (6, mkField "enforce_wordlist" "bool" false false VNone);
   (8, mkField "type" "RecoveryDeviceType" false false VNone);
   (9, mkField "u2f_counter" "uint32" false false VNone);
   (10, mkField "dry_run" "bool" false false VNone)]
  (Some [("word_count", Default VNone); ("passphrase_protection", Default VNone); ("pin_protection", Default VNone);
         ("language", Default VNone); ("label", Default VNone); ("enforce_wordlist", Default VNone);
         ("type", Default VNone); ("u2f_counter", Default VNone); ("dry_run", Default VNone)]).

Definition WordRequest : msg_class := mkClass (Some 46)
  [(1, mkField "type" "WordRequestType" false true VNone)]
  (Some [("type", Needed)]).

Definition WordAck : msg_class := mkClass (Some 47)
  [(1, mkField "word" "string" false true VNone)]
  (Some [("word", Needed)]).

Definition DoPreauthorized : msg_class := mkClass (Some 84)
  []
  None.

Definition PreauthorizedRequest : msg_class := mkClass (Some 85)
  []
  None.

Definition CancelAuthorization : msg_class := mkClass (Some 86)
  []
  None.

Definition RebootToBootloader : msg_class := mkClass (Some 87)
  []
  None.

Definition DebugLinkDecision : msg_class := mkClass (Some 100)
  [(1, mkField "yes_no" "bool" false false VNone);
   (2, mkField "swipe" "DebugSwipeDirection" false false VNone);
   (3, mkField "input" "string" false false VNone);
   (4, mkField "x" "uint32" false false VNone);
   (5, mkField "y" "uint32" false false VNone);
   (6, mkField "wait" "bool" false false VNone);
   (7, mkField "hold_ms" "uint32" false false VNone)]
  (Some [("yes_no", Default VNone); ("swipe", Default VNone); ("input", Default VNone); ("x", Default VNone);
         ("y", Default VNone); ("wait", Default VNone); ("hold_ms", Default VNone)]).

Definition DebugLinkLayout : msg_class := mkClass (Some 9001)
  [(1, mkField "lines" "string" true false VNone)]
  (Some [("lines", ListParam)]).

Definition DebugLinkReseedRandom : msg_class := mkClass (Some 9002)
  [(1, mkField "value" "uint32" false false VNone)]
  (Some [("value", Default VNone)]).

Definition DebugLinkRecordScreen : msg_class := mkClass (Some 9003)
  [(1, mkField "target_directory" "string" false false VNone)]
  (Some [("target_directory", Default VNone)]).

Definition DebugLinkGetState : msg_class := mkClass (Some 101)
  [(1, mkField "wait_word_list" "bool" false false VNone);
   (2, mkField "wait_word_pos" "bool" false false VNone);
   (3, mkField "wait_layout" "bool" false false VNone)]
  (Some [("wait_word_list", Default VNone); ("wait_word_pos", Default VNone); ("wait_layout", Default VNone)]).

Definition DebugLinkState : msg_class := mkClass (Some 102)
  [(1, mkField "layout" "bytes" false false VNone);
   (2, mkField "pin" "string" false false VNone);
   (3, mkField "matrix" "string" false false VNone);
   (4, mkField "mnemonic_secret" "bytes" false false VNone);
   (5, mkField "node" "HDNodeType" false false VNone);
   (6, mkField "passphrase_protection" "bool" false false VNone);
   (7, mkField "reset_word" "string" false false VNone);
   (8, mkField "reset_entropy" "bytes" false false VNone);
   (9, mkField "recovery_fake_word" "string" false false VNone);
   (10, mkField "recovery_word_pos" "uint32" false false VNone);
   (11, mkField "reset_word_pos" "uint32" false false VNone);
   (12, mkField "mnemonic_type" "BackupType" false false VNone);
   (13, mkField "layout_lines" "string" true false VNone)]
  (Some [("layout", Default VNone); ("pin", Default VNone); ("matrix", Default VNone);
         ("mnemonic_secret", Default VNone); ("node", Default VNone); ("passphrase_protection", Default VNone);
         ("reset_word", Default VNone); ("reset_entropy", Default VNone); ("recovery_fake_word", Default VNone);
         ("recovery_word_pos", Default VNone); ("reset_word_pos", Default VNone); ("mnemonic_type", Default VNone);
         ("layout_lines", ListParam)]).

Definition DebugLinkStop : msg_class := mkClass (Some 103)
  []
  None.

Definition DebugLinkLog : msg_class := mkClass (Some 104)
  [(1, mkField "level" "uint32" false false VNone);
   (2, mkField "bucket" "string" false false VNone);
   (3, mkField "text" "string" false false VNone)]
  (Some [("level", Default VNone); ("bucket", Default VNone); ("text", Default VNone)]).

Definition DebugLinkMemoryRead : msg_class := mkClass (Some 110)
  [(1, mkField "address" "uint32" false false VNone);
   (2, mkField "length" "uint32" false false VNone)]
  (Some [("address", Default VNone); ("length", Default VNone)]).

Definition DebugLinkMemory : msg_class := mkClass (Some 111)
  [(1, mkField "memory" "bytes" false false VNone)]
  (Some [("memory", Default VNone)]).

Definition DebugLinkMemoryWrite : msg_class := mkClass (Some 112)
  [(1, mkField "address" "uint32" false false VNone);
   (2, mkField "memory" "bytes" false false VNone);
   (3, mkField "flash" "bool" false false VNone)]
  (Some [("address", Default VNone); ("memory", Default VNone); ("flash", Default VNone)]).

Definition DebugLinkFlashErase : msg_class := mkClass (Some 113)
  [(1, mkField "sector" "uint32" false false VNone)]
  (Some [("sector", Default VNone)]).

Definition DebugLinkEraseSdCard : msg_class := mkClass (Some 9005)
  [(1, mkField "format" "bool" false false VNone)]
  (Some [("format", Default VNone)]).

Definition DebugLinkWatchLayout : msg_class := mkClass (Some 9006)
  [(1, mkField "watch" "bool" false false VNone)]
  (Some [("watch", Default VNone)]).

(** ** The module *)

Definition module : pydict string type_object :=
  [("MessageType", TEnum MessageType);
   ("FailureType", TEnum FailureType);
   ("ButtonRequestType", TEnum ButtonRequestType);
   ("PinMatrixRequestType", TEnum PinMatrixRequestType);
   ("InputScriptType", TEnum InputScriptType);
   ("OutputScriptType", TEnum OutputScriptType);
   ("DecredStakingSpendType", TEnum DecredStakingSpendType);
   ("AmountUnit", TEnum AmountUnit);
   ("RequestType", TEnum RequestType);
   ("BackupType", TEnum BackupType);
   ("SafetyCheckLevel", TEnum SafetyCheckLevel);
   ("Capability", TEnum Capability);
   ("SdProtectOperationType", TEnum SdProtectOperationType);
   ("RecoveryDeviceType", TEnum RecoveryDeviceType);
   ("WordRequestType", TEnum WordRequestType);
   ("DebugSwipeDirection", TEnum DebugSwipeDirection);
   ("Success", TMsg Success);
   ("Failure", TMsg Failure);
   ("ButtonRequest", TMsg ButtonRequest);
   ("ButtonAck", TMsg ButtonAck);
   ("PinMatrixRequest", TMsg PinMatrixRequest);
   ("PinMatrixAck", TMsg PinMatrixAck);
   ("PassphraseRequest", TMsg PassphraseRequest);
   ("PassphraseAck", TMsg PassphraseAck);
   ("Deprecated_PassphraseStateRequest", TMsg Deprecated_PassphraseStateRequest);
   ("Deprecated_PassphraseStateAck", TMsg Deprecated_PassphraseStateAck);
   ("HDNodeType", TMsg HDNodeType);
   ("MultisigRedeemScriptType", TMsg MultisigRedeemScriptType);
   ("GetPublicKey", TMsg GetPublicKey);
   ("PublicKey", TMsg PublicKey);
   ("GetAddress", TMsg GetAddress);
   ("Address", TMsg Address);
   ("GetOwnershipId", TMsg GetOwnershipId);
   ("OwnershipId", TMsg OwnershipId);
   ("SignMessage", TMsg SignMessage);
   ("MessageSignature", TMsg MessageSignature);
   ("VerifyMessage", TMsg VerifyMessage);
   ("SignTx", TMsg SignTx);
   ("TxRequest", TMsg TxRequest);
   ("TxAck", TMsg TxAck);
   ("TxInput", TMsg TxInput);
   ("TxOutput", TMsg TxOutput);
   ("PrevTx", TMsg PrevTx);
   ("PrevInput", TMsg PrevInput);
   ("PrevOutput", TMsg PrevOutput);
   ("TxAckInput", TMsg TxAckInput);
   ("TxAckOutput", TMsg TxAckOutput);
   ("TxAckPrevMeta", TMsg TxAckPrevMeta);
   ("TxAckPrevInput", TMsg TxAckPrevInput);
   ("TxAckPrevOutput", TMsg TxAckPrevOutput);
   ("TxAckPrevExtraData", TMsg TxAckPrevExtraData);
   ("GetOwnershipProof", TMsg GetOwnershipProof);
   ("OwnershipProof", TMsg OwnershipProof);
   ("AuthorizeCoinJoin", TMsg AuthorizeCoinJoin);
   ("HDNodePathType", TMsg HDNodePathType);
   ("TxRequestDetailsType", TMsg TxRequestDetailsType);
   ("TxRequestSerializedType", TMsg TxRequestSerializedType);
   ("TransactionType", TMsg TransactionType);
   ("TxInputType", TMsg TxInputType);
   ("TxOutputBinType", TMsg TxOutputBinType);
   ("TxOutputType", TMsg TxOutputType);
   ("TxAckInputWrapper", TMsg TxAckInputWrapper);
   ("TxAckOutputWrapper", TMsg TxAckOutputWrapper);
   ("TxAckPrevInputWrapper", TMsg TxAckPrevInputWrapper);
   ("TxAckPrevOutputWrapper", TMsg TxAckPrevOutputWrapper);
   ("TxAckPrevExtraDataWrapper", TMsg TxAckPrevExtraDataWrapper);
   ("FirmwareErase", TMsg FirmwareErase);
   ("FirmwareRequest", TMsg FirmwareRequest);
   ("FirmwareUpload", TMsg FirmwareUpload);
   ("SelfTest", TMsg SelfTest);
   ("IdentityType", TMsg IdentityType);
   ("Initialize", TMsg Initialize);
   ("GetFeatures", TMsg GetFeatures);
   ("Features", TMsg Features);
   ("LockDevice", TMsg LockDevice);
   ("EndSession", TMsg EndSession);
   ("ApplySettings", TMsg ApplySettings);
   ("ApplyFlags", TMsg ApplyFlags);
   ("ChangePin", TMsg ChangePin);
   ("ChangeWipeCode", TMsg ChangeWipeCode);
   ("SdProtect", TMsg SdProtect);
   ("Ping", TMsg Ping);
   ("Cancel", TMsg Cancel);
   ("GetEntropy", TMsg GetEntropy);
   ("Entropy", TMsg Entropy);
   ("WipeDevice", TMsg WipeDevice);
   ("LoadDevice", TMsg LoadDevice);
   ("ResetDevice", TMsg ResetDevice);
   ("BackupDevice", TMsg BackupDevice);
   ("EntropyRequest", TMsg EntropyRequest);
   ("EntropyAck", TMsg EntropyAck);
   ("RecoveryDevice", TMsg RecoveryDevice);
   ("WordRequest", TMsg WordRequest);
   ("WordAck", TMsg WordAck);
   ("DoPreauthorized", TMsg DoPreauthorized);
   ("PreauthorizedRequest", TMsg PreauthorizedRequest);
   ("CancelAuthorization", TMsg CancelAuthorization);
   ("RebootToBootloader", TMsg RebootToBootloader);
   ("DebugLinkDecision", TMsg DebugLinkDecision);
   ("DebugLinkLayout", TMsg DebugLinkLayout);
   ("DebugLinkReseedRandom", TMsg DebugLinkReseedRandom);
   ("DebugLinkRecordScreen", TMsg DebugLinkRecordScreen);
   ("DebugLinkGetState", TMsg DebugLinkGetState);
   ("DebugLinkState", TMsg DebugLinkState);
   ("DebugLinkStop", TMsg DebugLinkStop);
   ("DebugLinkLog", TMsg DebugLinkLog);
   ("DebugLinkMemoryRead", TMsg DebugLinkMemoryRead);
   ("DebugLinkMemory", TMsg DebugLinkMemory);
   ("DebugLinkMemoryWrite", TMsg DebugLinkMemoryWrite);
   ("DebugLinkFlashErase", TMsg DebugLinkFlashErase);
   ("DebugLinkEraseSdCard", TMsg DebugLinkEraseSdCard);
   ("DebugLinkWatchLayout", TMsg DebugLinkWatchLayout)].

Definition messages (name : string) : option type_object := dict_get name module.

(** ** The classes that keepkey.py derives

    Their constructors take the keywords of the class they derive from as well
    as their own, and set the attributes of both. *)

Definition KeepkeyFeatures : msg_class := mkClass (Some 17)
  [(1, mkField "vendor" "string" false false VNone);
   (2, mkField "major_version" "uint32" false true VNone);
   (3, mkField "minor_version" "uint32" false true VNone);
   (4, mkField "patch_version" "uint32" false true VNone);
   (5, mkField "bootloader_mode" "bool" false false VNone);
   (6, mkField "device_id" "string" false false VNone);
   (7, mkField "pin_protection" "bool" false false VNone);
   (8, mkField "passphrase_protection" "bool" false false VNone);
   (9, mkField "language" "string" false false VNone);
   (10, mkField "label" "string" false false VNone);
   (12, mkField "initialized" "bool" false false VNone);
   (13, mkField "revision" "bytes" false false VNone);
   (14, mkField "bootloader_hash" "bytes" false false VNone);
   (15, mkField "imported" "bool" false false VNone);
   (16, mkField "unlocked" "bool" false false VNone);
   (17, mkField "passphrase_cached" "bool" false false VNone);
   (21, mkField "model" "string" false false VNone);
   (22, mkField "firmware_variant" "string" false false VNone);
   (23, mkField "firmware_hash" "bytes" false false VNone);
   (24, mkField "no_backup" "bool" false false VNone)]
  (Some [("vendor", Default VNone); ("major_version", Needed); ("minor_version", Needed); ("patch_version", Needed);
         ("bootloader_mode", Default VNone); ("device_id", Default VNone); ("pin_protection", Default VNone);
         ("passphrase_protection", Default VNone); ("language", Default VNone); ("label", Default VNone);
         ("initialized", Default VNone); ("revision", Default VNone); ("bootloader_hash", Default VNone);
         ("imported", Default VNone); ("unlocked", Default VNone); ("passphrase_cached", Default VNone);
         ("model", Default VNone); ("firmware_variant", Default VNone); ("firmware_hash", Default VNone);
         ("no_backup", Default VNone); ("capabilities", ListParam); ("firmware_present", Default VNone);
         ("needs_backup", Default VNone); ("flags", Default VNone); ("fw_major", Default VNone);
         ("fw_minor", Default VNone); ("fw_patch", Default VNone); ("fw_vendor", Default VNone);
         ("fw_vendor_keys", Default VNone); ("unfinished_backup", Default VNone); ("recovery_mode", Default VNone);
         ("backup_type", Default VNone); ("sd_card_present", Default VNone); ("sd_protection", Default VNone);
         ("wipe_code_protection", Default VNone); ("session_id", Default VNone);
         ("passphrase_always_on_device", Default VNone); ("safety_checks", Default VNone);
         ("auto_lock_delay_ms", Default VNone); ("display_rotation", Default VNone);
         ("experimental_features", Default VNone)]).

Definition KeepkeyResetDevice : msg_class := mkClass (Some 14)
  [(1, mkField "display_random" "bool" false false VNone);
   (2, mkField "strength" "uint32" false false VNone);
   (3, mkField "passphrase_protection" "bool" false false VNone);
   (4, mkField "pin_protection" "bool" false false VNone);
   (5, mkField "language" "string" false false VNone);
   (6, mkField "label" "string" false false VNone);
   (7, mkField "no_backup" "bool" false false VNone);
   (8, mkField "auto_lock_delay_ms" "uint32" false false VNone);
   (9, mkField "u2f_counter" "uint32" false false VNone)]
  (Some [("display_random", Default VNone); ("strength", Default (VInt 256));
         ("passphrase_protection", Default VNone); ("pin_protection", Default VNone);
         ("language", Default (VStr $"en-US")); ("label", Default VNone); ("no_backup", Default VNone);
         ("auto_lock_delay_ms", Default VNone); ("u2f_counter", Default VNone); ("skip_backup", Default VNone);
         ("backup_type", Default (VInt 0))]).

Definition KeepkeyDebugLinkState : msg_class := mkClass (Some 102)
  [(1, mkField "layout" "bytes" false false VNone);
   (2, mkField "pin" "string" false false VNone);
   (3, mkField "matrix" "string" false false VNone);
   (4, mkField "mnemonic_secret" "bytes" false false VNone);
   (5, mkField "node" "HDNodeType" false false VNone);
   (6, mkField "passphrase_protection" "bool" false false VNone);
   (7, mkField "reset_word" "string" false false VNone);
   (8, mkField "reset_entropy" "bytes" false false VNone);
   (9, mkField "recovery_fake_word" "string" false false VNone);
   (10, mkField "recovery_word_pos" "uint32" false false VNone);
   (11, mkField "recovery_cipher" "string" false false VNone);
   (12, mkField "recovery_auto_completed_word" "string" false false VNone);
   (13, mkField "firmware_hash" "bytes" false false VNone);
   (14, mkField "storage_hash" "bytes" false false VNone)]
  (Some [("layout", Default VNone); ("pin", Default VNone); ("matrix", Default VNone);
         ("mnemonic_secret", Default VNone); ("node", Default VNone); ("passphrase_protection", Default VNone);
         ("reset_word", Default VNone); ("reset_entropy", Default VNone); ("recovery_fake_word", Default VNone);
         ("recovery_word_pos", Default VNone); ("recovery_cipher", Default VNone);
         ("recovery_auto_completed_word", Default VNone); ("firmware_hash", Default VNone);
         ("storage_hash", Default VNone); ("layout_lines", ListParam); ("reset_word_pos", Default VNone);
         ("mnemonic_type", Default VNone)]).

Definition derived : pydict string msg_class := [("KeepkeyFeatures", KeepkeyFeatures); ("KeepkeyResetDevice", KeepkeyResetDevice); ("KeepkeyDebugLinkState", KeepkeyDebugLinkState)].

(** The class each of them derives from. *)
Definition parents : pydict string string := [("KeepkeyFeatures", "Features"); ("KeepkeyResetDevice", "ResetDevice"); ("KeepkeyDebugLinkState", "DebugLinkState")].

Definition classes (name : string) : option msg_class :=
  match messages name with
  | Some (TMsg c) => Some c
  | Some (TEnum _) => None
  | None => dict_get name derived
  end.

(** [isinstance(msg, cls)]. *)
Definition isinstance (v : value) (cls : string) : bool :=
  match v with
  | VMsg name _ => bool_decide (name = cls) || bool_decide (dict_get name parents = Some cls)
  | _ => false
  end.

(** Attribute access on an object; every attribute of the class is there. *)
Definition getattr (v : value) (name : string) : result value :=
  match v with
  | VMsg _ attrs => of_option AttributeError (dict_get name attrs)
  | _ => Err AttributeError
  end.

Definition setattr (v : value) (name : string) (x : value) : value :=
  match v with
  | VMsg cls attrs => VMsg cls (dict_set name x attrs)
  | _ => v
  end.

(** An object of the class, made from keyword arguments. *)
Definition new (name : string) (kwargs : pydict string value) : result value :=
  match classes name with
  | Some c => construct name c kwargs
  | None => Err AttributeError
  end.

(** ** The mapping between wire types and classes *)

(** A class is its name. *)
Record ProtobufMapping := mkMapping {
  type_to_class : pydict Z string;
  class_to_type_override : pydict string Z }.

Definition wire_type_of (name : string) : option Z :=
  match classes name with Some c => MESSAGE_WIRE_TYPE c | None => None end.

Definition register (m : ProtobufMapping) (msg_class : string) (msg_wire_type : option Z) : result ProtobufMapping :=
  match msg_wire_type with
  | Some w =>
      Ok (mkMapping (dict_set w msg_class (type_to_class m)) (dict_set msg_class w (class_to_type_override m)))
  | None =>
      w ← of_option ValueError (wire_type_of msg_class);
      Ok (mkMapping (dict_set w msg_class (type_to_class m)) (class_to_type_override m))
  end.

Definition encode (m : ProtobufMapping) (fuel : nat) (name : string) (attrs : list (string * value)) : result (Z * bytes) :=
  wire_type ← of_option ValueError
    match dict_get name (class_to_type_override m) with Some w => Some w | None => wire_type_of name end;
  b ← dump_bytes messages classes fuel name attrs;
  Ok (wire_type, b).

(** An object is encoded with as much fuel as it is deep. *)
Definition encode_msg (m : ProtobufMapping) (msg : value) : result (Z * bytes) :=
  match msg with
  | VMsg name attrs => encode m (vdepth msg) name attrs
  | _ => Err AttributeError
  end.

Definition decode (m : ProtobufMapping) (msg_wire_type : Z) (msg_bytes : bytes) : result value :=
  name ← of_option KeyError (dict_get msg_wire_type (type_to_class m));
  match classes name with
  | Some c => load_bytes messages name c msg_bytes
  | None => Err AttributeError
  end.

(** One round of [from_module]'s loop over the entries of [MessageType]. *)
Definition register_entry (m : ProtobufMapping) (name : string) (entry_value : Z) : result ProtobufMapping :=
  match messages name with
  | None => Err ValueError
  | Some (TEnum _) => Err AttributeError
  | Some (TMsg c) =>
      raise_if (bool_decide (MESSAGE_WIRE_TYPE c ≠ Some entry_value)) ValueError;;
      register m name None
  end.

Fixpoint from_entries (m : ProtobufMapping) (message_types : list (string * Z)) : result ProtobufMapping :=
  match message_types with
  | [] => Ok m
  | (name, v) :: message_types => m ← register_entry m name v; from_entries m message_types
  end.

Definition from_module : result ProtobufMapping := from_entries (mkMapping [] []) MessageType.

Definition DEFAULT_MAPPING : ProtobufMapping :=
  Eval vm_compute in match from_module with Ok m => m | Err _ => mkMapping [] [] end.

(** ** The module is well-formed *)

Lemma module_wf : forallb (λ p, match p.2 with TMsg c => wf_class messages c | TEnum _ => true end) module = true.
Proof. by vm_compute. Qed.

#[export] Instance messages_laws : SchemaLaws messages classes.
Proof.
  split.
  - intros name c H. apply dict_get_Some_elem in H. eapply forallb_elem in H; [|exact module_wf]. exact H.
  - intros name c H. unfold classes. by rewrite H.
  - intros t Ht. assert (Forall (λ t, messages t = None) WIRE_TYPES.*1) as HF by (repeat constructor).
    rewrite Forall_forall in HF. by apply HF.
Qed.

(** The module is imported without an exception, and the mapping knows every
    message type by the class of that name. *)
Lemma entries_known : forallb (λ e, bool_decide (dict_get e.2 (type_to_class DEFAULT_MAPPING) = Some e.1) &&
  bool_decide (wire_type_of e.1 = Some e.2) && (0 <=? e.2) && (e.2 <? 2 ^ 16)) MessageType = true.
Proof. by vm_compute. Qed.

Lemma default_mapping_ok : from_module = Ok DEFAULT_MAPPING ∧
  ∀ e, e ∈ MessageType → dict_get e.2 (type_to_class DEFAULT_MAPPING) = Some e.1 ∧ wire_type_of e.1 = Some e.2 ∧ 0 <= e.2 < 2 ^ 16.
Proof. split; [by vm_compute|]. intros e He. eapply forallb_elem in He; [|exact entries_known]. cbv beta in He. bools. by split_and!. Qed.

Lemma listed_classes : forallb (λ e, match classes e.1 with Some c => wf_class messages c | None => false end) MessageType = true.
Proof. by vm_compute. Qed.

Lemma listed_class e : e ∈ MessageType → ∃ c, classes e.1 = Some c ∧ wf_class messages c = true.
Proof. intros He. eapply forallb_elem in He; [|exact listed_classes]. cbv beta in He. destruct (classes e.1) as [c|]; [by exists c | done]. Qed.

Lemma load_back n name c attrs : classes name = Some c → wf_class messages c = true → typed_msg messages classes n name attrs = true →
  ∃ b, dump_bytes messages classes n name attrs = Ok b ∧ load_bytes messages name c b = Ok (VMsg name attrs).
Proof.
  intros Hc Hwf H. destruct (objects_ok messages classes n name c attrs Hc Hwf H) as (b & He & Hl). exists b.
  split; [unfold dump_bytes; by rewrite (He bytes _ [])|]. unfold load_bytes, load_message.
  rewrite (Hl (S (length b)) (Nat.lt_succ_diag_r _)); [done| |].
  - split; [exists []; by rewrite app_nil_r | constructor].
  - left. unfold after. simpl. by rewrite drop_all.
Qed.

(** ** Properties *)

(** C10: every message object of a class that [MessageType] lists, nested at most
    [n] deep and with attributes of the types of its fields, is encoded under
    the number [MessageType] gives it, and decoding what was encoded gives the
    same object back, for all messages of the module. *)
Theorem message_roundtrip n name wire attrs :
  (name, wire) ∈ MessageType → typed_msg messages classes n name attrs = true →
  ∃ b, encode DEFAULT_MAPPING n name attrs = Ok (wire, b) ∧
    decode DEFAULT_MAPPING wire b = Ok (VMsg name attrs).
Proof.
  intros Hin Ht. destruct default_mapping_ok as [_ HF]. destruct (HF _ Hin) as (Hdec & Henc & _). simpl in Hdec, Henc.
  destruct (listed_class _ Hin) as (c & Hc & Hwf). simpl in Hc. destruct (load_back n name c attrs Hc Hwf Ht) as (b & Hd & Hl). exists b.
  unfold encode, decode. simpl. rewrite Henc, Hd, Hdec. simpl. by rewrite Hc, Hl.
Qed.

Definition example_node : value := VMsg "HDNodePathType"
  [("node", VMsg "HDNodeType" [("depth", VInt 3); ("fingerprint", VInt 4294967295); ("child_num", VInt 2147483648);
      ("chain_code", VBytes [Byte.x01; Byte.x02]); ("private_key", VNone); ("public_key", VBytes [Byte.x03])]);
   ("address_n", VList [VInt 0; VInt 300])].

Lemma message_roundtrip_witness :
  ∃ b, encode DEFAULT_MAPPING 4 "GetAddress"
      [("address_n", VList [VInt 2147483692; VInt 1]); ("coin_name", VStr $"Testnet"); ("show_display", VBool true);
       ("multisig", VMsg "MultisigRedeemScriptType" [("pubkeys", VList [example_node]); ("signatures", VList [VBytes []]);
          ("m", VInt 1); ("nodes", VList []); ("address_n", VList [])]);
       ("script_type", VInt 1); ("ignore_xpub_magic", VNone)] = Ok (29, b) ∧
    decode DEFAULT_MAPPING 29 b = Ok (VMsg "GetAddress"
      [("address_n", VList [VInt 2147483692; VInt 1]); ("coin_name", VStr $"Testnet"); ("show_display", VBool true);
       ("multisig", VMsg "MultisigRedeemScriptType" [("pubkeys", VList [example_node]); ("signatures", VList [VBytes []]);
          ("m", VInt 1); ("nodes", VList []); ("address_n", VList [])]);
       ("script_type", VInt 1); ("ignore_xpub_magic", VNone)]).
Proof.
  apply (message_roundtrip 4 "GetAddress" 29); [|by vm_compute].
  apply list_elem_of_In. vm_compute. tauto.
Defined.

(** A byte string whose announced length is more than there is comes out filled
    up with zeros: the decoder does not look at what [readinto] returns. *)
Lemma truncated_bytes_padded :
  decode DEFAULT_MAPPING 10 [Byte.x0a; Byte.x05; Byte.xaa] =
    Ok (VMsg "Entropy" [("entropy", VBytes [Byte.xaa; Byte.x00; Byte.x00; Byte.x00; Byte.x00])]).
Proof. by vm_compute. Qed.

(** Decoding any bytes ends, with a message or with an exception of Python's. *)
Lemma decode_ends m wire b : decode m wire b ≠ Err OutOfFuel.
Proof.
  unfold decode. destruct (dict_get wire (type_to_class m)) as [name|]; [|done]. simpl.
  destruct (classes name) as [c|]; [|done]. apply load_message_no_fuel.
Qed.
