(* ===== verification/TrezorTransport.v ===== *)
(** * Trezor's transports (devices/trezorlib/transport/protocol.py, hid.py)

    A handle moves 64-byte chunks, a transport moves messages; both are records
    of operations on the state of the world behind them.  [ProtocolV1] makes a
    transport of a handle, [HidHandle] a handle of a device of the hidapi
    library.

    Fuel: the reading loop of a message has one round for each 63 bytes
    announced, which is enough when chunks have 64 bytes ([read_enough]);
    waiting for a non-empty report has the number of rounds it is given. *)

From S2P Require Import Prelude Bytes PyStd PyStr StateM.

Definition REPLEN : nat := 64.

(** ** Interfaces *)

Record Handle (D : Type) := mkHandle {
  h_open : state D ();
  h_close : state D ();
  h_read_chunk : state D bytes;
  h_write_chunk : bytes → state D () }.
Arguments h_open {D}.
Arguments h_close {D}.
Arguments h_read_chunk {D}.
Arguments h_write_chunk {D}.

Record Transport (D : Type) := mkTransport {
  t_begin_session : state D ();
  t_end_session : state D ();
  t_write : Z → bytes → state D ();
  t_read : state D (Z * bytes) }.
Arguments t_begin_session {D}.
Arguments t_end_session {D}.
Arguments t_write {D}.
Arguments t_read {D}.

(** ** ProtocolV1 *)

(** A protocol object: its handle's world and its session counter. *)
Record Protocol (D : Type) := mkProtocol { handle : D; session_counter : Z }.
Arguments mkProtocol {D}.
Arguments handle {D}.
Arguments session_counter {D}.

Section protocol.
Context {D : Type} (h : Handle D).

(** Call a method of the handle. *)
Definition on_handle {A} (m : state D A) : state (Protocol D) A :=
  zoom handle (λ d p, mkProtocol d (session_counter p)) m.

Definition set_sessions (n : Z) : state (Protocol D) () := modify (λ p, mkProtocol (handle p) n).

Definition begin_session : state (Protocol D) () :=
  p ← get;
  (if session_counter p =? 0 then on_handle (h_open h) else mret ());;
  set_sessions (session_counter p + 1).

Definition end_session : state (Protocol D) () :=
  p ← get;
  let n := Z.max (session_counter p - 1) 0 in
  set_sessions n;;
  if n =? 0 then on_handle (h_close h) else mret ().

(** [chunk.ljust(n, bytes([0]))]. *)
Definition ljust (n : nat) (b : bytes) : bytes := b ++ replicate (n - length b) Byte.x00.

(** The chunks of a buffer; a round takes 63 bytes of it. *)
Fixpoint write_buffer (fuel : nat) (buffer : bytes) : state (Protocol D) () :=
  match fuel, buffer with
  | _, [] => mret ()
  | O, _ => raise OutOfFuel
  | S fuel, _ =>
      let chunk := ljust REPLEN (chr 63 :: take (REPLEN - 1) buffer) in
      on_handle (h_write_chunk h chunk);;
      write_buffer fuel (drop 63 buffer)
  end.

Definition write (message_type : Z) (message_data : bytes) : state (Protocol D) () :=
  t ← liftS (pack_u_be 2 message_type);
  n ← liftS (pack_u_be 4 (len message_data));
  let buffer := $"##" ++ (t ++ n) ++ message_data in
  write_buffer (length buffer) buffer.

Definition read_first : state (Protocol D) (Z * Z * bytes) :=
  chunk ← on_handle (h_read_chunk h);
  if bool_decide (take 3 chunk ≠ $"?##") then raise RuntimeError
  else
    let header := slice 3 9 chunk in
    match unpack_u_be 2 (take 2 header), unpack_u_be 4 (drop 2 header) with
    | Ok msg_type, Ok datalen => mret (msg_type, datalen, drop 9 chunk)
    | _, _ => raise RuntimeError
    end.

Definition read_next : state (Protocol D) bytes :=
  chunk ← on_handle (h_read_chunk h);
  if bool_decide (take 1 chunk ≠ $"?") then raise RuntimeError else mret (drop 1 chunk).

Fixpoint read_rest (fuel : nat) (datalen : Z) (buffer : bytes) : state (Protocol D) bytes :=
  if len buffer <? datalen then
    match fuel with
    | O => raise OutOfFuel
    | S fuel => b ← read_next; read_rest fuel datalen (buffer ++ b)
    end
  else mret buffer.

Definition read : state (Protocol D) (Z * bytes) :=
  '(msg_type, datalen, first_chunk) ← read_first;
  buffer ← read_rest (Z.to_nat ((datalen + 62) / 63)) datalen first_chunk;
  mret (msg_type, take (Z.to_nat datalen) buffer).

Definition ProtocolV1 : Transport (Protocol D) := mkTransport _ begin_session end_session write read.
End protocol.

(** ** HidHandle *)

(** The device object of the hidapi library. *)
Record hid_device (D : Type) := mkHid {
  hid_open_path : bytes → state D ();
  hid_serial : state D pystr;
  hid_close : state D ();
  hid_set_nonblocking : state D ();
  hid_write : bytes → state D Z;
  hid_read : Z → state D bytes }.
Arguments hid_open_path {D}.
Arguments hid_serial {D}.
Arguments hid_close {D}.
Arguments hid_set_nonblocking {D}.
Arguments hid_write {D}.
Arguments hid_read {D}.

(** A [HidHandle] object: the device behind it, whether its handle is set, and
    its other attributes. *)
Record HidState (D : Type) := mkHidState {
  hs_dev : D;
  hs_open : bool;
  hs_path : bytes;
  hs_serial : pystr;
  hs_version : option Z }.
Arguments mkHidState {D}.
Arguments hs_dev {D}.
Arguments hs_open {D}.
Arguments hs_path {D}.
Arguments hs_serial {D}.
Arguments hs_version {D}.

Section hid.
Context {D : Type} (hid : hid_device D) (patience : nat).

(** A method of [self.handle], which may be [None]. *)
Definition on_hid {A} (m : state D A) : state (HidState D) A :=
  s ← get;
  if hs_open s then zoom hs_dev (λ d s, mkHidState d (hs_open s) (hs_path s) (hs_serial s) (hs_version s)) m
  else raise AttributeError.

Definition set_open (b : bool) : state (HidState D) () :=
  modify (λ s, mkHidState (hs_dev s) b (hs_path s) (hs_serial s) (hs_version s)).

Definition probe_hid_version : state (HidState D) Z :=
  n ← on_hid (hid_write hid ([chr 0; chr 63] ++ replicate 63 Byte.xff));
  if n =? 65 then mret 2
  else
    n ← on_hid (hid_write hid ([chr 63] ++ replicate 63 Byte.xff));
    if n =? 64 then mret 1 else raise TransportException.

Definition hid_handle_open : state (HidState D) () :=
  set_open true;;
  s ← get;
  on_hid (hid_open_path hid (hs_path s));;
  serial ← on_hid (hid_serial hid);
  if bool_decide (serial ≠ hs_serial s) then
    on_hid (hid_close hid);;
    set_open false;;
    raise TransportException
  else
    on_hid (hid_set_nonblocking hid);;
    match hs_version s with
    | Some _ => mret ()
    | None =>
        v ← probe_hid_version;
        modify (λ s, mkHidState (hs_dev s) (hs_open s) (hs_path s) (hs_serial s) (Some v))
    end.

Definition hid_handle_close : state (HidState D) () :=
  s ← get;
  (if hs_open s then
     serial ← on_hid (hid_serial hid);
     modify (λ s, mkHidState (hs_dev s) (hs_open s) (hs_path s) serial (hs_version s));;
     on_hid (hid_close hid)
   else mret ());;
  set_open false.

Definition hid_write_chunk (chunk : bytes) : state (HidState D) () :=
  if bool_decide (len chunk ≠ 64) then raise TransportException
  else
    s ← get;
    let chunk := if bool_decide (hs_version s = Some 2) then chr 0 :: chunk else chunk in
    on_hid (hid_write hid chunk);;
    mret ().

Fixpoint hid_wait (fuel : nat) : state (HidState D) bytes :=
  match fuel with
  | O => raise OutOfFuel
  | S fuel =>
      chunk ← on_hid (hid_read hid 64);
      if bool_decide (chunk = []) then hid_wait fuel else mret chunk
  end.

Definition hid_read_chunk : state (HidState D) bytes :=
  chunk ← hid_wait patience;
  if bool_decide (len chunk ≠ 64) then raise TransportException else mret chunk.

Definition HidHandle : Handle (HidState D) := mkHandle _ hid_handle_open hid_handle_close hid_read_chunk hid_write_chunk.
End hid.

(** ** What crosses a handle *)

Section crossing.
Context {D : Type} (h : Handle D).

(** The handle takes the chunks, one after the other. *)
Fixpoint accepts (cs : list bytes) (d d' : D) : Prop :=
  match cs with
  | [] => d = d'
  | c :: cs => ∃ d1, h_write_chunk h c d = (Ok (), d1) ∧ accepts cs d1 d'
  end.

(** The handle delivers the chunks, one after the other. *)
Fixpoint delivers (cs : list bytes) (d d' : D) : Prop :=
  match cs with
  | [] => d = d'
  | c :: cs => ∃ d1, h_read_chunk h d = (Ok c, d1) ∧ delivers cs d1 d'
  end.
End crossing.

(** The chunks of a buffer. *)
Fixpoint chunks_of (fuel : nat) (buffer : bytes) : list bytes :=
  match fuel, buffer with
  | O, _ | _, [] => []
  | S fuel, _ => ljust REPLEN (chr 63 :: take 63 buffer) :: chunks_of fuel (drop 63 buffer)
  end.

(** The wire form of a message. *)
Definition frame (message_type : Z) (message_data : bytes) : bytes :=
  $"##" ++ (be_bytes 2 message_type ++ be_bytes 4 (len message_data)) ++ message_data.

Definition message_chunks (message_type : Z) (message_data : bytes) : list bytes :=
  chunks_of (length (frame message_type message_data)) (frame message_type message_data).

(** ** Messages are sent in chunks and put together again *)

(** A chunk without its report number. *)
Lemma ljust_tail b : drop 1 (ljust REPLEN (chr 63 :: take 63 b)) = take 63 b ++ replicate (63 - length b) Byte.x00.
Proof.
  unfold ljust, REPLEN. cbn [length app drop]. rewrite length_take, drop_0.
  by replace (64 - S (63 `min` length b))%nat with (63 - length b)%nat by lia.
Qed.

Lemma chunks_of_length fuel b : Forall (λ c, length c = REPLEN) (chunks_of fuel b).
Proof.
  revert b. induction fuel as [|fuel IH]; intros [|c b]; simpl; constructor; [|apply IH].
  unfold ljust. rewrite length_app, length_replicate. cbn [length]. rewrite length_take. unfold REPLEN. simpl length. lia.
Qed.

Section framing.
Context {D : Type} (h : Handle D).

Lemma on_handle_ok {A} (m : state D A) d d' n a : m d = (Ok a, d') → on_handle m (mkProtocol d n) = (Ok a, mkProtocol d' n).
Proof using. intros H. unfold on_handle, zoom. simpl. by rewrite H. Qed.

Lemma write_buffer_chunks fuel buffer d d' n : (length buffer <= fuel)%nat →
  accepts h (chunks_of fuel buffer) d d' → write_buffer h fuel buffer (mkProtocol d n) = (Ok (), mkProtocol d' n).
Proof using.
  revert buffer d. induction fuel as [|fuel IH]; intros [|c buffer] d Hl Ha; simpl in Hl; try lia; simpl in Ha.
  - by subst.
  - by subst.
  - destruct Ha as (d1 & Hw & Ha). cbn [write_buffer].
    rewrite (state_bind_eval _ _ _ _ _ (on_handle_ok _ _ _ n _ Hw)). apply IH; [|exact Ha].
    rewrite length_drop. simpl. lia.
Qed.

Lemma write_message ty data d d' n : fits 2 ty → fits 4 (len data) →
  accepts h (message_chunks ty data) d d' → write h ty data (mkProtocol d n) = (Ok (), mkProtocol d' n).
Proof using.
  intros Ht Hn Ha. unfold write. rewrite (pack_u_be_fits 2 ty Ht), (pack_u_be_fits 4 (len data) Hn).
  by apply (write_buffer_chunks _ _ d).
Qed.

Lemma read_next_chunk b d d1 n : h_read_chunk h d = (Ok (ljust REPLEN (chr 63 :: take 63 b)), d1) →
  read_next h (mkProtocol d n) = (Ok (take 63 b ++ replicate (63 - length b) Byte.x00), mkProtocol d1 n).
Proof using.
  intros Hr. unfold read_next. rewrite (state_bind_eval _ _ _ _ _ (on_handle_ok _ _ _ n _ Hr)), ljust_tail.
  by rewrite bool_decide_false by (intros H; by apply H).
Qed.

(** The bytes of a buffer, read on from [acc], give the message [data]. *)
Lemma read_rest_chunks fuel k data acc r d d' n :
  (acc ++ r = data ∨ r = [] ∧ ∃ z, acc = data ++ z) → (length r <= k)%nat → (length r <= 63 * fuel)%nat →
  delivers h (chunks_of k r) d d' →
  ∃ buf, read_rest h fuel (len data) acc (mkProtocol d n) = (Ok buf, mkProtocol d' n) ∧ take (length data) buf = data.
Proof using.
  revert k acc r d. induction fuel as [|fuel IH]; intros k acc r d Hacc Hk Hf Hd.
  - destruct r; [|simpl in Hf; lia]. simpl. replace (chunks_of k []) with (@nil bytes) in Hd by (by destruct k). simpl in Hd. subst d'.
    assert (∃ z, acc = data ++ z) as [z ->] by (destruct Hacc as [<-|[_ ?]]; [exists []; by rewrite !app_nil_r | done]).
    exists (data ++ z). rewrite take_app_length. unfold len. rewrite length_app.
    destruct (_ <? _) eqn:E; bools; [lia|done].
  - destruct r as [|x r].
    + replace (chunks_of k []) with (@nil bytes) in Hd by (by destruct k). simpl in Hd. subst d'.
      assert (∃ z, acc = data ++ z) as [z ->] by (destruct Hacc as [<-|[_ ?]]; [exists []; by rewrite !app_nil_r | done]).
      exists (data ++ z). rewrite take_app_length. simpl. unfold len. rewrite length_app.
      destruct (_ <? _) eqn:E; bools; [lia|done].
    + destruct Hacc as [<-|[? _]]; [|done]. destruct k as [|k]; [simpl in Hk; lia|].
      destruct Hd as (d1 & Hr & Hd). cbn [read_rest].
      assert (len acc <? len (acc ++ x :: r) = true) as -> by (apply Z.ltb_lt; rewrite len_app, len_cons; pose proof (len_nonneg r); lia).
      rewrite (state_bind_eval _ _ _ _ _ (read_next_chunk (x :: r) d d1 n Hr)).
      apply (IH k _ (drop 63 (x :: r))).
      * destruct (Nat.le_gt_cases 63 (length (x :: r))) as [Hlong|Hshort]; [left|right].
        -- replace (63 - length (x :: r))%nat with O by lia. simpl replicate.
           rewrite app_nil_r, <- app_assoc. by rewrite take_drop.
        -- split; [by apply drop_ge; lia|]. rewrite (take_ge (x :: r)) by lia. exists (replicate (63 - length (x :: r)) Byte.x00). by rewrite app_assoc.
      * rewrite length_drop. simpl in Hk |- *. lia.
      * rewrite length_drop. lia.
      * exact Hd.
Qed.

Lemma read_first_chunk ty data d d1 n : fits 2 ty → fits 4 (len data) →
  h_read_chunk h d = (Ok (ljust REPLEN (chr 63 :: take 63 (frame ty data))), d1) →
  read_first h (mkProtocol d n) =
    (Ok (ty, len data, take 55 data ++ replicate (55 - length data) Byte.x00), mkProtocol d1 n).
Proof using.
  intros Ht Hn Hr. set (hdr := be_bytes 2 ty ++ be_bytes 4 (len data)).
  assert (length hdr = 6%nat) as Hh by (unfold hdr; by rewrite length_app, !length_be_bytes).
  assert (ljust REPLEN (chr 63 :: take 63 (frame ty data)) =
    $"?##" ++ hdr ++ (take 55 data ++ replicate (55 - length data) Byte.x00)) as Hc.
  { rewrite <- (firstn_skipn 1 (ljust _ _)), ljust_tail. unfold frame. fold hdr.
    change ($"##" ++ hdr ++ data) with (chr 35 :: chr 35 :: (hdr ++ data)). cbn [length take].
    rewrite take_app_ge by lia. rewrite Hh, length_app, Hh.
    replace (63 - S (S (6 + length data)))%nat with (55 - length data)%nat by lia. done. }
  unfold read_first. rewrite (state_bind_eval _ _ _ _ _ (on_handle_ok _ _ _ n _ Hr)), Hc.
  rewrite bool_decide_false by (intros H; by apply H).
  rewrite (slice_app_exact ($"?##") hdr) by (rewrite ?Hh; reflexivity).
  unfold hdr at 1 2. rewrite take_app_exact, drop_app_exact by apply length_be_bytes.
  rewrite (unpack_pack_u_be 2 ty _ (pack_u_be_fits 2 ty Ht)), (unpack_pack_u_be 4 _ _ (pack_u_be_fits 4 _ Hn)).
  rewrite app_assoc, drop_app_exact; [done|]. by rewrite length_app, Hh.
Qed.

Lemma read_message ty data d d' n : fits 2 ty → fits 4 (len data) →
  delivers h (message_chunks ty data) d d' → read h (mkProtocol d n) = (Ok (ty, data), mkProtocol d' n).
Proof using.
  intros Ht Hn Hd. unfold message_chunks in Hd.
  assert (length (frame ty data) = S (7 + length data)) as Hk by (unfold frame; by rewrite !length_app, !length_be_bytes).
  rewrite Hk in Hd. destruct (frame ty data) as [|x f] eqn:Ef; [done|]. destruct Hd as (d1 & Hr & Hd). rewrite <- Ef in Hr, Hd.
  unfold read. rewrite (state_bind_eval _ _ _ _ _ (read_first_chunk ty data d d1 n Ht Hn Hr)). cbv beta iota zeta.
  assert (drop 63 (frame ty data) = drop 55 data) as Hdrop.
  { unfold frame. rewrite app_assoc, drop_app_ge by (by rewrite !length_app, !length_be_bytes; simpl; lia).
    by rewrite !length_app, !length_be_bytes. }
  rewrite Hdrop in Hd.
  destruct (read_rest_chunks (Z.to_nat ((len data + 62) / 63)) (7 + length data) data
    (take 55 data ++ replicate (55 - length data) Byte.x00) (drop 55 data) d1 d' n) as (buf & Hb & Htake).
  - destruct (Nat.le_gt_cases 55 (length data)) as [Hlong|Hshort]; [left|right].
    + replace (55 - length data)%nat with O by lia. simpl replicate. by rewrite app_nil_r, take_drop.
    + rewrite drop_ge, take_ge by lia. split; [done|by eexists].
  - rewrite length_drop. lia.
  - rewrite length_drop. unfold len. pose proof (Z.div_mod (Z.of_nat (length data) + 62) 63).
    pose proof (Z.mod_pos_bound (Z.of_nat (length data) + 62) 63). lia.
  - exact Hd.
  - rewrite (state_bind_eval _ _ _ _ _ Hb). unfold len. rewrite Nat2Z.id, Htake. done.
Qed.

(** As long as chunks have 64 bytes, the rounds that [read] gives to the reading
    loop are enough, whatever is in the chunks. *)
Hypothesis chunks_full : ∀ d r d', h_read_chunk h d = (r, d') → match r with Ok b => length b = REPLEN | Err e => e ≠ OutOfFuel end.

Lemma read_next_full p r p' : read_next h p = (r, p') → match r with Ok b => length b = 63%nat | Err e => e ≠ OutOfFuel end.
Proof using chunks_full.
  unfold read_next, on_handle, zoom, mbind, state_bind. destruct (h_read_chunk h (handle p)) as [[b|e] d] eqn:E; apply chunks_full in E.
  - case_bool_decide; intros [= <- _]; [done|]. rewrite length_drop, E. done.
  - by intros [= <- _].
Qed.

Lemma read_rest_enough fuel datalen buffer p : datalen <= len buffer + 63 * Z.of_nat fuel →
  (read_rest h fuel datalen buffer p).1 ≠ Err OutOfFuel.
Proof using chunks_full.
  revert buffer p. induction fuel as [|fuel IH]; intros buffer p Hf; simpl; destruct (len buffer <? datalen) eqn:E; bools; try done; [lia|].
  unfold mbind, state_bind. destruct (read_next h p) as [[b|e] p'] eqn:En; apply read_next_full in En.
  - apply IH. rewrite len_app. unfold len in *. lia.
  - simpl. congruence.
Qed.

Lemma read_enough p : (read h p).1 ≠ Err OutOfFuel.
Proof using chunks_full.
  unfold read, mbind at 1, state_bind at 1. destruct (read_first h p) as [[[[ty n] chunk]|e] p'] eqn:E.
  - unfold mbind, state_bind. pose proof (read_rest_enough (Z.to_nat ((n + 62) / 63)) n chunk p') as H.
    destruct (read_rest h _ n chunk p') as [[buf|e] p2]; [done|]. simpl in *. intros [= ->]. apply H; [|done].
    pose proof (Z.div_mod (n + 62) 63). pose proof (Z.mod_pos_bound (n + 62) 63). pose proof (len_nonneg chunk). lia.
  - simpl. intros [= ->]. revert E. unfold read_first, on_handle, zoom, mbind, state_bind.
    destruct (h_read_chunk h (handle p)) as [[b|e] d] eqn:E1; apply chunks_full in E1; [|by intros [= -> _]].
    case_bool_decide; [done|]. destruct (unpack_u_be 2 _) as [t|]; [|done]. by destruct (unpack_u_be 4 _).
Qed.
End framing.

(** ** Properties *)

(** C13: ProtocolV1 cuts a message into chunks of 64 bytes such that, whatever the
    handle, writing the message puts exactly these chunks on it, in order, and
    a handle that delivers exactly these chunks gives the message back, with
    its type, the length it had and no padding; the session counter stays. *)
Theorem v1_message_crosses ty data : fits 2 ty → fits 4 (len data) →
  ∃ cs, Forall (λ c, length c = REPLEN) cs ∧
    (∀ D (h : Handle D) d d' n, accepts h cs d d' → t_write (ProtocolV1 h) ty data (mkProtocol d n) = (Ok (), mkProtocol d' n)) ∧
    (∀ D (h : Handle D) d d' n, delivers h cs d d' → t_read (ProtocolV1 h) (mkProtocol d n) = (Ok (ty, data), mkProtocol d' n)).
Proof.
  intros Ht Hn. exists (message_chunks ty data). split_and!.
  - apply chunks_of_length.
  - intros D h d d' n Ha. by apply write_message.
  - intros D h d d' n Hd. by apply read_message.
Qed.

(** A handle that stores what is written and reads it back. *)
Definition loopback : Handle (list bytes) := mkHandle _ (mret ()) (mret ())
  (λ q, match q with c :: q => (Ok c, q) | [] => (Err TransportException, []) end)
  (λ c q, (Ok (), q ++ [c])).

Lemma v1_message_crosses_witness :
  fits 2 17 ∧ fits 4 (len (replicate 100 Byte.xaa)) ∧
  ∃ cs, Forall (λ c, length c = REPLEN) cs ∧
    (∀ D (h : Handle D) d d' n, accepts h cs d d' →
      t_write (ProtocolV1 h) 17 (replicate 100 Byte.xaa) (mkProtocol d n) = (Ok (), mkProtocol d' n)) ∧
    (∀ D (h : Handle D) d d' n, delivers h cs d d' →
      t_read (ProtocolV1 h) (mkProtocol d n) = (Ok (17, replicate 100 Byte.xaa), mkProtocol d' n)).
Proof. split; [by vm_compute|]. split; [by vm_compute|]. apply v1_message_crosses; by vm_compute. Defined.

Lemma loopback_works : let '(_, p) := t_write (ProtocolV1 loopback) 17 (replicate 100 Byte.xaa) (mkProtocol [] 0) in
  length (handle p) = 2%nat ∧ (t_read (ProtocolV1 loopback) p).1 = Ok (17, replicate 100 Byte.xaa).
Proof. by vm_compute. Qed.

(** The handle is opened for the first session and closed after the last one:
    in between the counter is positive and sessions only count. *)
Lemma nested_session {D} (h : Handle D) (p : Protocol D) : 0 < session_counter p →
  (begin_session h;; end_session h) p = (Ok (), p).
Proof.
  intros Hp. destruct p as [d n]. simpl in Hp. unfold begin_session, end_session.
  assert ((n =? 0) = false) as E by (apply Z.eqb_neq; lia).
  unfold mbind, state_bind, get, set_sessions, modify. simpl. rewrite E. simpl.
  replace (Z.max (n + 1 - 1) 0) with n by lia. by rewrite E.
Qed.
