(* ===== verification/TrezorClient.v ===== *)
(** * The Trezor client (devices/trezorlib/client.py, models.py, tools.py, and the
      PassphraseUI of devices/trezor.py)

    [client] is a TrezorClient object: its session, the features it got, its
    user interface, and the world behind its transport.  Every method is a
    computation over it; the loop of [call] has as many rounds as it is given
    ([rounds]), because the device decides how often it asks something. *)

From S2P Require Import Prelude Bytes PyStd PyStr StateM TrezorProtobuf TrezorMessages TrezorTransport.

#[local] Open Scope string_scope.
#[local] Open Scope list_scope.
#[local] Open Scope Z_scope.

(** ** Python's operations on values *)

(** [bool(v)]. *)
Definition truthy (v : value) : bool :=
  match v with
  | VNone => false
  | VInt z => negb (z =? 0)
  | VBool b => b
  | VBytes b => negb (bool_decide (b = []))
  | VStr s => negb (bool_decide (s = []))
  | VList l => match l with [] => false | _ => true end
  | VPlaceholder | VMsg _ _ => true
  end.

Definition is_none (v : value) : bool := match v with VNone => true | _ => false end.

(** [v == z] for an integer. *)
Definition is_int (v : value) (z : Z) : bool := match number v with Some n => n =? z | None => false end.

Definition as_int (v : value) : result Z := of_option TypeError (number v).

(** ** tools.py *)

Definition HARDENED_FLAG : Z := Z.shiftl 1 31.
Definition H_ (x : Z) : Z := Z.lor x HARDENED_FLAG.

Definition str_to_harden (x : pystr) : result Z :=
  if startswith_char (chr 45) x then z ← int_str x; Ok (H_ (Z.abs z))
  else if endswith_char (chr 104) x || endswith_char (chr 39) x then z ← int_str (slice_to_neg 1 x); Ok (H_ z)
  else int_str x.

(** [tools.parse_path]; any exception is a [ValueError]. *)
Definition tools_parse_path (nstr : pystr) : result (list Z) :=
  if bool_decide (nstr = []) then Ok []
  else
    let n := split_char (chr 47) nstr in
    let n := if bool_decide (head n = Some $"m") then tail n else n in
    match mapR str_to_harden n with Ok p => Ok p | Err _ => Err ValueError end.

(** ** Models *)

Record TrezorModel := mkModel {
  m_name : pystr;
  m_internal_name : pystr;
  minimum_version : Z * Z * Z;
  vendors : list pystr + pystr;
  default_mapping : ProtobufMapping }.

Definition VENDORS : list pystr := [$"bitcointrezor.com"; $"trezor.io"].

Definition trezor_model (name internal : pystr) (minimum : Z * Z * Z) : TrezorModel :=
  mkModel name internal minimum (inl VENDORS) DEFAULT_MAPPING.

Definition T1B1 : TrezorModel := trezor_model $"1" $"T1B1" (1, 8, 0).
Definition T2T1 : TrezorModel := trezor_model $"T" $"T2T1" (2, 1, 0).
Definition T2B1 : TrezorModel := trezor_model $"Safe 3" $"T2B1" (2, 1, 0).
Definition T3T1 : TrezorModel := trezor_model $"Safe 5" $"T3T1" (2, 1, 0).
Definition T3B1 : TrezorModel := trezor_model $"Safe 3" $"T3B1" (2, 1, 0).
Definition DISC1 : TrezorModel := trezor_model $"DISC1" $"D001" (2, 1, 0).
Definition DISC2 : TrezorModel := trezor_model $"DISC2" $"D002" (2, 1, 0).

(** A set in the code; the two models of one name differ in nothing that is
    used of what [by_name] returns. *)
Definition TREZORS : list TrezorModel := [T1B1; T2T1; T2B1; T3T1; T3B1; DISC1; DISC2].

Definition by_name (name : option pystr) : option TrezorModel :=
  match name with
  | None => Some T1B1
  | Some n => List.find (λ m, bool_decide (m_name m = n)) TREZORS
  end.

(** [vendor in model.vendors]: the vendors are a tuple of texts or one text. *)
Definition vendor_known (vendor : value) (m : TrezorModel) : result bool :=
  match vendors m, vendor with
  | inl l, VStr s => Ok (bool_decide (s ∈ l))
  | inl _, _ => Ok false
  | inr text, VStr s => Ok (contains s text)
  | inr _, _ => Err TypeError
  end.

(** ** The client object *)

(** The [PassphraseUI]: its attributes, whether its [get_pin] was replaced by
    [interactive_get_pin], and the lines the user is going to type. *)
Record PassphraseUI := mkUI {
  ui_passphrase : pystr;
  prompt_shown : bool;
  always_prompt : bool;
  return_passphrase : bool;
  interactive_pin : bool;
  typed_lines : list pystr }.

Definition new_ui (passphrase : pystr) (lines : list pystr) : PassphraseUI := mkUI passphrase false false true false lines.

(** What [get_passphrase] returns. *)
Inductive passphrase := PASSPHRASE_ON_DEVICE | HostPassphrase (s : pystr).

Record client (D : Type) := mkClient {
  world : D;
  model : option TrezorModel;
  mapping : ProtobufMapping;
  ui : PassphraseUI;
  session_count : Z;
  session_id : value;
  features : option value;
  version : Z * Z * Z }.
Arguments mkClient {D}.
Arguments world {D}.
Arguments model {D}.
Arguments mapping {D}.
Arguments ui {D}.
Arguments session_count {D}.
Arguments session_id {D}.
Arguments features {D}.
Arguments version {D}.

(** [TrezorClient(transport, ui, model=model, _init_device=False)]. *)
Definition new_client {D} (d : D) (u : PassphraseUI) (m : option TrezorModel) : client D :=
  mkClient d m (match m with Some m => default_mapping m | None => DEFAULT_MAPPING end) u 0 VNone None (0, 0, 0).

Section client.
Context {D : Type} (tr : Transport D) (normalize_string : pystr → pystr) (rounds : nat).

Abbreviation M := (state (client D)).

Definition on_world {A} (m : state D A) : M A :=
  zoom world (λ d c, mkClient d (model c) (mapping c) (ui c) (session_count c) (session_id c) (features c) (version c)) m.
Definition set_model (x : option TrezorModel) : M () :=
  modify (λ c, mkClient (world c) x (mapping c) (ui c) (session_count c) (session_id c) (features c) (version c)).
Definition set_ui (x : PassphraseUI) : M () :=
  modify (λ c, mkClient (world c) (model c) (mapping c) x (session_count c) (session_id c) (features c) (version c)).
Definition set_session_count (x : Z) : M () :=
  modify (λ c, mkClient (world c) (model c) (mapping c) (ui c) x (session_id c) (features c) (version c)).
Definition set_session_id (x : value) : M () :=
  modify (λ c, mkClient (world c) (model c) (mapping c) (ui c) (session_count c) x (features c) (version c)).
Definition set_features (x : value) (v : Z * Z * Z) : M () :=
  modify (λ c, mkClient (world c) (model c) (mapping c) (ui c) (session_count c) (session_id c) (Some x) v).

(** An attribute of a message; an attribute of [self.features]. *)
Definition attr (v : value) (name : string) : M value := liftS (getattr v name).
Definition get_features : M value := c ← get; liftS (of_option AttributeError (features c)).
Definition feature (name : string) : M value := f ← get_features; attr f name.

(** [try: m except Cancelled: handler; raise]. *)
Definition on_cancelled {A} (handler : M ()) (m : M A) : M A := λ c,
  match m c with
  | (Err Cancelled, c') => (handler;; raise Cancelled) c'
  | r => r
  end.

Definition open : M () :=
  c ← get;
  (if session_count c =? 0 then on_world (t_begin_session tr) else mret ());;
  c ← get;
  set_session_count (session_count c + 1).

Definition close : M () :=
  c ← get;
  let n := Z.max (session_count c - 1) 0 in
  set_session_count n;;
  if n =? 0 then on_world (t_end_session tr) else mret ().

(** The decorator [session]: [open], then the method, then [close] in a
    [finally]. *)
Definition session {A} (m : M A) : M A :=
  open;;
  ((λ c,
    let '(r, c') := m c in
    match close c' with
    | (Ok _, c'') => (r, c'')
    | (Err e, c'') => (Err e, c'')
    end) : M A).

Definition _raw_write (msg : value) : M () :=
  c ← get;
  '(msg_type, msg_bytes) ← liftS (encode_msg (mapping c) msg);
  on_world (t_write tr msg_type msg_bytes).

Definition _raw_read : M value :=
  '(msg_type, msg_bytes) ← on_world (t_read tr);
  c ← get;
  liftS (decode (mapping c) msg_type msg_bytes).

Definition call_raw (msg : value) : M value := _raw_write msg;; _raw_read.

(** A message with these keywords, sent at once. *)
Definition send_new (name : string) (kwargs : pydict string value) : M value :=
  msg ← liftS (new name kwargs); call_raw msg.

(** ** The user interface *)

(** [interactive_get_pin]: lines are read until one is a number; reading past
    the end of the input is an [EOFError]. *)
Fixpoint read_pin (lines : list pystr) : result pystr * list pystr :=
  match lines with
  | [] => (Err EOFError, [])
  | pin :: lines => if isdigit pin then (Ok pin, lines) else read_pin lines
  end.

Definition get_pin (code : value) : M pystr :=
  c ← get;
  let u := ui c in
  if interactive_pin u then
    let '(r, lines) := read_pin (typed_lines u) in
    set_ui (mkUI (ui_passphrase u) (prompt_shown u) (always_prompt u) (return_passphrase u) (interactive_pin u) lines);;
    liftS r
  else raise NotImplementedError.

Definition get_passphrase (available_on_device : bool) : M passphrase :=
  c ← get;
  if available_on_device then mret PASSPHRASE_ON_DEVICE
  else if return_passphrase (ui c) then mret (HostPassphrase (ui_passphrase (ui c)))
  else raise ValueError.

Definition disallow_passphrase : M () :=
  c ← get;
  let u := ui c in
  set_ui (mkUI (ui_passphrase u) (prompt_shown u) (always_prompt u) false (interactive_pin u) (typed_lines u)).

Definition button_request : M () :=
  c ← get;
  let u := ui c in
  if always_prompt u then mret ()
  else set_ui (mkUI (ui_passphrase u) true (always_prompt u) (return_passphrase u) (interactive_pin u) (typed_lines u)).

(** ** Answers to the device's requests *)

Definition MAX_PASSPHRASE_LENGTH : Z := 50.
Definition MAX_PIN_LENGTH : Z := 50.

(** The failures that a wrong PIN gives: PinInvalid, PinCancelled, PinExpected. *)
Definition pin_failure (code : value) : bool := is_int code 7 || is_int code 6 || is_int code 5.

Definition valid_pin (pin : pystr) : bool :=
  forallb (λ d, bool_decide (d ∈ $"123456789")) pin && (1 <=? len pin) && (len pin <=? MAX_PIN_LENGTH).

Definition cancel_raw : M () := send_new "Cancel" [];; mret ().

Definition _callback_pin (msg : value) : M value :=
  code ← attr msg "type";
  pin ← on_cancelled cancel_raw (get_pin code);
  if negb (valid_pin pin) then cancel_raw;; raise ValueError
  else
    resp ← send_new "PinMatrixAck" [("pin", VStr pin)];
    if isinstance resp "Failure" then
      code ← attr resp "code";
      if pin_failure code then raise PinException else mret resp
    else mret resp.

Definition send_passphrase (p : value) (on_device : value) : M value :=
  resp ← send_new "PassphraseAck" [("passphrase", p); ("on_device", on_device)];
  if isinstance resp "Deprecated_PassphraseStateRequest" then
    st ← attr resp "state";
    set_session_id st;;
    send_new "Deprecated_PassphraseStateAck" []
  else mret resp.

(** [Capability.PassphraseEntry in self.features.capabilities]. *)
Definition passphrase_entry : M bool :=
  caps ← feature "capabilities";
  l ← liftS (iterate caps);
  mret (existsb (λ v, is_int v 17) l).

Definition _callback_passphrase (msg : value) : M value :=
  available_on_device ← passphrase_entry;
  on_device ← attr msg "_on_device";
  if match on_device with VBool true => true | _ => false end then send_passphrase VNone VNone
  else
    p ← on_cancelled cancel_raw (get_passphrase available_on_device);
    match p with
    | PASSPHRASE_ON_DEVICE =>
        if negb available_on_device then cancel_raw;; raise RuntimeError
        else send_passphrase VNone (VBool true)
    | HostPassphrase s =>
        let s := normalize_string s in
        if MAX_PASSPHRASE_LENGTH <? len s then cancel_raw;; raise ValueError
        else send_passphrase (VStr s) (VBool false)
    end.

Definition _callback_button (msg : value) : M value :=
  ack ← liftS (new "ButtonAck" []);
  _raw_write ack;;
  button_request;;
  _raw_read.

(** ** Calls *)

Definition is_outdated : M bool :=
  b ← feature "bootloader_mode";
  if truthy b then mret false
  else
    c ← get;
    match model c with
    | None => raise AssertionError
    | Some m => mret (version_lt (version c) (minimum_version m))
    end.

Definition check_firmware_version (warn_only : bool) : M () :=
  b ← is_outdated;
  if b && negb warn_only then raise OutdatedFirmwareError else mret ().

(** The exception for a [Failure]: [Cancelled] for ActionCancelled. *)
Definition failure_exn (code : value) : pyexn := if is_int code 4 then Cancelled else TrezorFailure (number code).

Fixpoint call_loop (fuel : nat) (resp : value) : M value :=
  if isinstance resp "PinMatrixRequest" then
    match fuel with O => raise OutOfFuel | S fuel => r ← _callback_pin resp; call_loop fuel r end
  else if isinstance resp "PassphraseRequest" then
    match fuel with O => raise OutOfFuel | S fuel => r ← _callback_passphrase resp; call_loop fuel r end
  else if isinstance resp "ButtonRequest" then
    match fuel with O => raise OutOfFuel | S fuel => r ← _callback_button resp; call_loop fuel r end
  else if isinstance resp "Failure" then
    code ← attr resp "code"; raise (failure_exn code)
  else mret resp.

Definition call (check_fw : bool) (msg : value) : M value :=
  session (
    (if check_fw then check_firmware_version false else mret ());;
    resp ← call_raw msg;
    call_loop rounds resp).

(** [client.call(messages.<name>(...))]. *)
Definition call_new (name : string) (kwargs : pydict string value) : M value :=
  msg ← liftS (new name kwargs); call true msg.

(** The decorator [expect]: of the class; of the class, and then its field. *)
Definition expect (cls : string) (m : M value) : M value :=
  ret ← m;
  if isinstance ret cls then mret ret else raise RuntimeError.

Definition expect_field (cls field : string) (m : M value) : M value :=
  ret ← expect cls m; attr ret field.

(** ** Sessions and features *)

Definition _refresh_features (feat : value) : M () :=
  c ← get;
  name ← attr feat "model";
  (match model c with
   | Some _ => mret ()
   | None =>
       match by_name (if truthy name then match name with VStr s => Some s | _ => Some [] end else Some $"1") with
       | None => raise RuntimeError
       | Some m => set_model (Some m)
       end
   end);;
  c ← get;
  vendor ← attr feat "vendor";
  (match model c with
   | None => raise AttributeError
   | Some m => known ← liftS (vendor_known vendor m); if known : bool then mret () else raise RuntimeError
   end);;
  v1 ← attr feat "major_version";
  v2 ← attr feat "minor_version";
  v3 ← attr feat "patch_version";
  v1 ← liftS (as_int v1); v2 ← liftS (as_int v2); v3 ← liftS (as_int v3);
  set_features feat (v1, v2, v3);;
  check_firmware_version true;;
  sid ← attr feat "session_id";
  if is_none sid then mret ()
  else set_session_id sid;; set_features (setattr feat "session_id" VNone) (v1, v2, v3).

Definition refresh_features : M value :=
  session (
    resp ← send_new "GetFeatures" [];
    if negb (isinstance resp "Features") then raise TrezorException
    else _refresh_features resp;; get_features).

Definition init_device (given_session_id : value) (new_session : bool) (derive_cardano : value) : M value :=
  session (
    (if new_session then set_session_id VNone
     else if is_none given_session_id then mret () else set_session_id given_session_id);;
    c ← get;
    resp ← send_new "Initialize" [("session_id", session_id c); ("derive_cardano", derive_cardano)];
    if isinstance resp "Failure" then code ← attr resp "code"; raise (TrezorFailure (number code))
    else if negb (isinstance resp "Features") then raise TrezorException
    else
      reported_session_id ← attr resp "session_id";
      _refresh_features resp;;
      mret reported_session_id).
End client.

(** ** What calls send and return *)

(** Messages that are no answer to a call but ask for something, or fail. *)
Definition interaction (v : value) : bool :=
  isinstance v "PinMatrixRequest" || isinstance v "PassphraseRequest" || isinstance v "ButtonRequest" || isinstance v "Failure".

(** The answers that a call may send by itself. *)
Inductive answer (normalize_string : pystr → pystr) : value → Prop :=
  | answer_cancel msg : new "Cancel" [] = Ok msg → answer normalize_string msg
  | answer_button msg : new "ButtonAck" [] = Ok msg → answer normalize_string msg
  | answer_state msg : new "Deprecated_PassphraseStateAck" [] = Ok msg → answer normalize_string msg
  | answer_pin pin msg : valid_pin pin = true → new "PinMatrixAck" [("pin", VStr pin)] = Ok msg → answer normalize_string msg
  | answer_on_device p msg : is_none p = true →
      (∃ b, new "PassphraseAck" [("passphrase", p); ("on_device", b)] = Ok msg) → answer normalize_string msg
  | answer_passphrase s msg : len (normalize_string s) <= MAX_PASSPHRASE_LENGTH →
      new "PassphraseAck" [("passphrase", VStr (normalize_string s)); ("on_device", VBool false)] = Ok msg →
      answer normalize_string msg.

Section calls.
Context {D : Type} (tr : Transport D) (normalize_string : pystr → pystr).

(** The world stays in [Iw] as long as only [allowed] messages are sent. *)
Context (Iw : D → Prop) (mp : ProtobufMapping) (allowed : value → Prop).
Hypothesis writes_ok : ∀ msg ty b, allowed msg → encode_msg mp msg = Ok (ty, b) → ensures Iw (t_write tr ty b) (λ _, True).
Hypothesis reads_ok : ensures Iw (t_read tr) (λ _, True).
Hypothesis begins_ok : ensures Iw (t_begin_session tr) (λ _, True).
Hypothesis ends_ok : ensures Iw (t_end_session tr) (λ _, True).
Hypothesis answers_ok : ∀ msg, answer normalize_string msg → allowed msg.

Definition Inv (n : Z) (c : client D) : Prop := Iw (world c) ∧ session_count c = n ∧ mapping c = mp.

Lemma ensures_world {A} n (m : state D A) : ensures Iw m (λ _, True) → ensures (Inv n) (on_world m) (λ _, True).
Proof.
  intros Hm c r c' (Hw & Hn & Hmp) H. unfold on_world, zoom in H. destruct (m (world c)) as [r' d'] eqn:E.
  injection H as <- <-. destruct (Hm _ _ _ Hw E) as [Hw' _]. by repeat split.
Qed.

Lemma ensures_get n : ensures (Inv n) get (Inv n).
Proof. intros c r c' Hc [= <- <-]. split; [done|]. by intros a [= <-]. Qed.

Lemma ensures_set_ui n u : ensures (Inv n) (set_ui u) (λ _, True).
Proof. intros c r c' (? & ? & ?) [= <- <-]. by repeat split. Qed.

Lemma ensures_set_session_id n v : ensures (Inv n) (set_session_id v) (λ _, True).
Proof. intros c r c' (? & ? & ?) [= <- <-]. by repeat split. Qed.

Lemma ensures_attr n v name : ensures (Inv n) (attr v name) (λ _, True).
Proof. by apply ensures_liftS. Qed.

Lemma ensures_true {A} n (x : result A) : ensures (Inv n) (liftS x) (λ _, True).
Proof. by apply ensures_liftS. Qed.

Lemma ensures_write n msg : allowed msg → ensures (Inv n) (_raw_write tr msg) (λ _, True).
Proof.
  intros Ha. unfold _raw_write. eapply ensures_bind; [apply ensures_get|]. intros c (_ & _ & Hmp). rewrite Hmp.
  eapply ensures_bind; [apply ensures_lift|]. intros [ty b] E. apply ensures_world. by eapply writes_ok.
Qed.

Lemma ensures_read n : ensures (Inv n) (_raw_read tr) (λ _, True).
Proof.
  unfold _raw_read. eapply ensures_bind; [by apply ensures_world|]. intros [ty b] _.
  eapply ensures_bind; [apply ensures_get|]. intros c _. apply ensures_true.
Qed.

Lemma ensures_call_raw n msg : allowed msg → ensures (Inv n) (call_raw tr msg) (λ _, True).
Proof. intros Ha. eapply ensures_bind; [by apply ensures_write|]. intros _ _. apply ensures_read. Qed.

Lemma ensures_send n name kwargs : (∀ msg, new name kwargs = Ok msg → allowed msg) →
  ensures (Inv n) (send_new tr name kwargs) (λ _, True).
Proof.
  intros Ha. unfold send_new. eapply ensures_bind; [apply ensures_lift|]. intros msg E. apply ensures_call_raw. by apply Ha.
Qed.

Lemma ensures_cancel n : ensures (Inv n) (cancel_raw tr) (λ _, True).
Proof.
  unfold cancel_raw. eapply ensures_bind; [apply ensures_send|].
  - intros msg E. by apply answers_ok, answer_cancel.
  - intros v _. by apply ensures_ret.
Qed.

Lemma ensures_on_cancelled {A} n (m : state (client D) A) Q : ensures (Inv n) m Q → ensures (Inv n) (on_cancelled (cancel_raw tr) m) Q.
Proof.
  intros Hm c r c' Hc H. unfold on_cancelled in H. destruct (m c) as [[a|e] c1] eqn:E; destruct (Hm _ _ _ Hc E) as [Hc1 Hq].
  - injection H as <- <-. by split.
  - assert (∀ x, (Err e, c1) = x → x = (r, c') → Inv n c' ∧ ∀ a, r = Ok a → Q a) as Hother by (intros x <- [= <- <-]; by split).
    destruct e; try (by eapply Hother).
    revert H. apply (ensures_bind (Inv n) _ _ (λ _, True)); [apply ensures_cancel | intros _ _; apply ensures_raise | done].
Qed.

Lemma ensures_get_pin n code : ensures (Inv n) (get_pin code) (λ _, True).
Proof.
  unfold get_pin. eapply ensures_bind; [apply ensures_get|]. intros c _. destruct (interactive_pin (ui c)); [|apply ensures_raise].
  destruct (read_pin _) as [r lines]. eapply ensures_bind; [apply ensures_set_ui|]. intros _ _. apply ensures_true.
Qed.

Lemma ensures_get_passphrase n b : ensures (Inv n) (get_passphrase b) (λ _, True).
Proof.
  unfold get_passphrase. eapply ensures_bind; [apply ensures_get|]. intros c _.
  destruct b; [by apply ensures_ret|]. destruct (return_passphrase _); [by apply ensures_ret | apply ensures_raise].
Qed.

Lemma ensures_feature n name : ensures (Inv n) (feature name) (λ _, True).
Proof.
  unfold feature, get_features. eapply ensures_bind; [|intros f _; apply ensures_attr].
  eapply ensures_bind; [apply ensures_get|]. intros c _. apply ensures_true.
Qed.

Lemma ensures_pin n msg : ensures (Inv n) (_callback_pin tr msg) (λ _, True).
Proof.
  unfold _callback_pin. eapply ensures_bind; [apply ensures_attr|]. intros code _.
  eapply ensures_bind; [apply ensures_on_cancelled, ensures_get_pin|]. intros pin _.
  destruct (valid_pin pin) eqn:Ep; simpl.
  - eapply ensures_bind; [apply ensures_send; intros m E; apply answers_ok; by eapply answer_pin|]. intros resp _.
    destruct (isinstance resp _); [|by apply ensures_ret].
    eapply ensures_bind; [apply ensures_attr|]. intros code' _. destruct (pin_failure _); [apply ensures_raise | by apply ensures_ret].
  - eapply ensures_bind; [apply ensures_cancel|]. intros _ _. apply ensures_raise.
Qed.

Lemma ensures_send_passphrase n p b :
  (∀ msg, new "PassphraseAck" [("passphrase", p); ("on_device", b)] = Ok msg → allowed msg) →
  ensures (Inv n) (send_passphrase tr p b) (λ _, True).
Proof.
  intros Ha. unfold send_passphrase. eapply ensures_bind; [by apply ensures_send|]. intros resp _.
  destruct (isinstance resp _); [|by apply ensures_ret].
  eapply ensures_bind; [apply ensures_attr|]. intros st _. eapply ensures_bind; [apply ensures_set_session_id|]. intros _ _.
  apply ensures_send. intros m E. by apply answers_ok, answer_state.
Qed.

Lemma ensures_passphrase n msg : ensures (Inv n) (_callback_passphrase tr normalize_string msg) (λ _, True).
Proof.
  unfold _callback_passphrase. eapply (ensures_bind _ _ _ (λ _, True)).
  - unfold passphrase_entry. eapply ensures_bind; [apply ensures_feature|]. intros caps _.
    eapply ensures_bind; [apply ensures_true|]. intros l _. by apply ensures_ret.
  - intros available _. eapply ensures_bind; [apply ensures_attr|]. intros on_device _.
    assert (∀ b, ensures (Inv n) (send_passphrase tr VNone b) (λ _, True)) as Hdev.
    { intros b. apply ensures_send_passphrase. intros m E. apply answers_ok. eapply (answer_on_device _ VNone); eauto. }
    destruct on_device as [| | |[]| | | |]; try apply Hdev;
      (eapply ensures_bind; [apply ensures_on_cancelled, ensures_get_passphrase|]; intros [|text] _;
       [destruct (negb available); [|apply Hdev] | destruct (MAX_PASSPHRASE_LENGTH <? _) eqn:El]).
    all: try (eapply ensures_bind; [apply ensures_cancel|]; intros _ _; apply ensures_raise).
    all: apply ensures_send_passphrase; intros m E; apply answers_ok; apply Z.ltb_ge in El; by eapply answer_passphrase.
Qed.

Lemma ensures_button n msg : ensures (Inv n) (_callback_button tr msg) (λ _, True).
Proof.
  unfold _callback_button. eapply ensures_bind; [apply ensures_lift|]. intros ack E.
  eapply ensures_bind; [by apply ensures_write, answers_ok, answer_button|]. intros _ _.
  eapply (ensures_bind _ _ _ (λ _, True)); [|intros _ _; apply ensures_read].
  unfold button_request. eapply ensures_bind; [apply ensures_get|]. intros c _.
  destruct (always_prompt _); [by apply ensures_ret | apply ensures_set_ui].
Qed.

Lemma ensures_call_loop n fuel resp :
  ensures (Inv n) (call_loop tr normalize_string fuel resp) (λ v, interaction v = false).
Proof.
  revert resp. induction fuel as [|fuel IH]; intros resp; simpl; unfold interaction.
  all: destruct (isinstance resp "PinMatrixRequest") eqn:E1;
    [first [apply ensures_raise | eapply ensures_bind; [apply ensures_pin | intros r _; apply IH]]|].
  all: destruct (isinstance resp "PassphraseRequest") eqn:E2;
    [first [apply ensures_raise | eapply ensures_bind; [apply ensures_passphrase | intros r _; apply IH]]|].
  all: destruct (isinstance resp "ButtonRequest") eqn:E3;
    [first [apply ensures_raise | eapply ensures_bind; [apply ensures_button | intros r _; apply IH]]|].
  all: destruct (isinstance resp "Failure") eqn:E4; [|apply ensures_ret; by rewrite E1, E2, E3, E4].
  all: eapply ensures_bind; [apply ensures_attr|]; intros code _; apply ensures_raise.
Qed.

Lemma ensures_when {n} (b : bool) (m : state D ()) : ensures Iw m (λ _, True) →
  ensures (Inv n) (if b then on_world m else mret ()) (λ _, True).
Proof. intros Hm. destruct b; [by apply ensures_world | by apply ensures_ret]. Qed.

Lemma open_spec n c r c' : Inv n c → open tr c = (r, c') → Inv (if r is Ok _ then n + 1 else n) c'.
Proof.
  intros Hc H. unfold open in H. unfold mbind, state_bind, get in H.
  destruct ((if session_count c =? 0 then on_world (t_begin_session tr) else mret () : state (client D) ()) c) as [[[]|e] c1] eqn:E.
  all: destruct (ensures_when (n := n) _ _ begins_ok _ _ _ Hc E) as [(Hw & Hn & Hmp) _].
  - injection H as <- <-. split_and!; [done | simpl; by rewrite Hn | done].
  - injection H as <- <-. by repeat split.
Qed.

Lemma close_spec n c r c' : 0 <= n → Inv (n + 1) c → close tr c = (r, c') → Inv n c'.
Proof.
  intros Hn (Hw & Hc & Hm) H. unfold close, mbind, state_bind, get, set_session_count, modify in H. rewrite Hc in H.
  replace (Z.max (n + 1 - 1) 0) with n in H by lia.
  eapply (ensures_when (n := n) _ _ ends_ok) in H as [H _]; [exact H | by repeat split].
Qed.

Lemma ensures_session {A} n (m : state (client D) A) Q : 0 <= n →
  ensures (Inv (n + 1)) m Q → ensures (Inv n) (session tr m) Q.
Proof.
  intros Hn Hm c r c' Hc H. unfold session in H. destruct (open tr c) as [[[]|e] c1] eqn:E1; pose proof (open_spec n _ _ _ Hc E1) as Hc1.
  - rewrite (state_bind_eval _ _ _ _ _ E1) in H. destruct (m c1) as [r2 c2] eqn:E2.
    destruct (Hm _ _ _ Hc1 E2) as [Hc2 Hq]. destruct (close tr c2) as [[[]|e] c3] eqn:E3;
      pose proof (close_spec n _ _ _ Hn Hc2 E3) as Hc3; injection H as <- <-; by split.
  - rewrite (state_bind_err _ _ _ _ _ E1) in H. injection H as <- <-. by split.
Qed.

Lemma ensures_client_call n rounds fw msg : 0 <= n → allowed msg →
  ensures (Inv n) (call tr normalize_string rounds fw msg) (λ v, interaction v = false).
Proof.
  intros Hn Ha. unfold call. apply ensures_session; [done|]. eapply (ensures_bind _ _ _ (λ _, True)).
  - destruct fw; [|by apply ensures_ret]. unfold check_firmware_version, is_outdated.
    eapply (ensures_bind _ _ _ (λ _, True)); [|intros b _; destruct (_ && _); [apply ensures_raise | by apply ensures_ret]].
    eapply ensures_bind; [apply ensures_feature|]. intros b _. destruct (truthy b); [by apply ensures_ret|].
    eapply ensures_bind; [apply ensures_get|]. intros c _. destruct (model c); [by apply ensures_ret | apply ensures_raise].
  - intros _ _. eapply ensures_bind; [by apply ensures_call_raw|]. intros resp _. apply ensures_call_loop.
Qed.
End calls.

(** More rounds never change a result that was reached. *)
Lemma call_loop_rounds {D} (tr : Transport D) norm fuel fuel' resp c r c' : (fuel <= fuel')%nat →
  call_loop tr norm fuel resp c = (r, c') → r ≠ Err OutOfFuel → call_loop tr norm fuel' resp c = (r, c').
Proof.
  revert fuel' resp c. induction fuel as [|fuel IH]; intros fuel' resp c Hf H Hr.
  - destruct fuel' as [|fuel']; [done|]. simpl in H |- *.
    repeat (destruct (isinstance resp _); [by injection H as <- <-|]). destruct (isinstance resp _); done.
  - destruct fuel' as [|fuel']; [lia|]. assert (fuel <= fuel')%nat as Hf' by lia. simpl in H |- *.
    assert (∀ m : state (client D) value, (r ← m; call_loop tr norm fuel r) c = (r, c') → (r ← m; call_loop tr norm fuel' r) c = (r, c')) as Hstep.
    { intros m Hm. unfold mbind, state_bind in *. destruct (m c) as [[v|e] c1]; [by apply (IH fuel') | done]. }
    repeat (destruct (isinstance resp _); [by apply Hstep|]). destruct (isinstance resp _); done.
Qed.

(** ** Properties *)

(** A transport that keeps a record of what is written to it. *)
Definition logged {D} (tr : Transport D) : Transport (list (Z * bytes) * D) :=
  let on_snd {A} (m : state D A) : state (list (Z * bytes) * D) A := zoom snd (λ d p, (p.1, d)) m in
  mkTransport _ (on_snd (t_begin_session tr)) (on_snd (t_end_session tr))
    (λ ty b, modify (λ p, (p.1 ++ [(ty, b)], p.2));; on_snd (t_write tr ty b)) (on_snd (t_read tr)).

Lemma ensures_on_snd {D A} (P : list (Z * bytes) → Prop) (m : state D A) :
  ensures (λ p : list (Z * bytes) * D, P p.1) (zoom snd (λ d p, (p.1, d)) m) (λ _, True).
Proof. intros [l d] r s' Hp H. unfold zoom in H. simpl in H. destruct (m d) as [r0 d0]. injection H as <- <-. by split. Qed.

(** C12: whatever the device answers, and however often it asks: a call puts
    nothing on the wire but its own message and the standard answers (a cancel,
    a button acknowledgement, a PIN of 1 to 50 digits from 1 to 9, a passphrase
    of at most 50 characters after normalization or none at all); it leaves the
    session counter as it was, whether it returns or raises, and what it returns
    is never a request nor a failure. *)
Theorem call_sends_only_answers {D} (tr : Transport D) norm rounds fw msg c r c' : 0 <= session_count c →
  call (logged tr) norm rounds fw msg c = (r, c') →
  (∀ e, e ∈ (world c').1 → e ∈ (world c).1 ∨ encode_msg (mapping c) msg = Ok e ∨
    ∃ m, answer norm m ∧ encode_msg (mapping c) m = Ok e) ∧
  session_count c' = session_count c ∧ (∀ v, r = Ok v → interaction v = false).
Proof.
  intros Hn H. set (allowed m := m = msg ∨ answer norm m).
  set (P := λ l : list (Z * bytes), ∀ e, e ∈ l → e ∈ (world c).1 ∨ ∃ m, allowed m ∧ encode_msg (mapping c) m = Ok e).
  destruct (ensures_client_call (logged tr) norm (λ p, P p.1) (mapping c) allowed) with (n := session_count c) (rounds := rounds) (fw := fw)
    (msg := msg) (s := c) (r := r) (s' := c') as [(Hw & Hc & _) Hq]; try done.
  - intros m ty b Ha He. simpl. eapply (ensures_bind _ _ _ (λ _, True)); [|intros _ _; apply ensures_on_snd].
    intros [l d] r1 s1 Hp [= <- <-]. split; [|done]. simpl in *. intros e [Hin|Hin]%elem_of_app; [by apply Hp|].
    apply list_elem_of_singleton in Hin as ->. right. by exists m.
  - apply ensures_on_snd.
  - apply ensures_on_snd.
  - apply ensures_on_snd.
  - intros m Ha. by right.
  - by left.
  - split_and!; [by left|done|done].
  - split_and!; [|done|done]. intros e He. destruct (Hw e He) as [|(m & [->|Ha] & Hm)]; [by left|by right; left|].
    right. right. by exists m.
Qed.

(** A device that answers from a list. *)
Definition scripted : Transport (list (string * list (string * value))) := mkTransport _ (mret ()) (mret ()) (λ _ _, mret ())
  (λ l, match l with
        | (name, attrs) :: l => (encode DEFAULT_MAPPING 9 name attrs, l)
        | [] => (Err TransportException, [])
        end).

Definition example_client (answers : list (string * list (string * value))) (lines : list pystr) :
    client (list (Z * bytes) * list (string * list (string * value))) :=
  mkClient ([], answers) (Some T1B1) DEFAULT_MAPPING (mkUI $"" false false true true lines) 0 VNone
    (Some (VMsg "Features" [("bootloader_mode", VNone); ("capabilities", VList [])])) (1, 9, 0).

Definition example_dialog : list (string * list (string * value)) :=
  [("PinMatrixRequest", [("type", VInt 1)]); ("ButtonRequest", [("code", VNone); ("pages", VNone)]);
   ("Address", [("address", VStr $"addr")])].

Definition example_request : value :=
  VMsg "GetAddress" [("address_n", VList [VInt 0]); ("coin_name", VStr $"Bitcoin"); ("show_display", VNone);
    ("multisig", VNone); ("script_type", VInt 0); ("ignore_xpub_magic", VNone)].

Definition example_call : result value * client (list (Z * bytes) * list (string * list (string * value))) :=
  call (logged scripted) id 2 true example_request (example_client example_dialog [$"x"; $"1234"]).

Lemma example_call_result : example_call.1 = Ok (VMsg "Address" [("address", VStr $"addr")]) ∧
  map fst (world example_call.2).1 = [29; 19; 27].
Proof. by vm_compute. Qed.

Lemma call_sends_only_answers_witness :
  0 <= 0 ∧ (∀ e, e ∈ (world example_call.2).1 → e ∈ [] ∨ encode_msg DEFAULT_MAPPING example_request = Ok e ∨
    ∃ m, answer id m ∧ encode_msg DEFAULT_MAPPING m = Ok e) ∧
  session_count example_call.2 = 0 ∧ (∀ v, example_call.1 = Ok v → interaction v = false).
Proof.
  split; [lia|].
  exact (call_sends_only_answers scripted id 2 true example_request (example_client example_dialog [$"x"; $"1234"])
    example_call.1 example_call.2 (Z.le_refl 0) (surjective_pairing _)).
Defined.
