(* ===== verification/TrezorBtc.v ===== *)
(** * Trezor's Bitcoin and device commands (devices/trezorlib/btc.py, device.py)

    The commands are computations over the client.  [sign_tx_loop] is the loop
    that answers the device's requests for parts of the transaction; it is
    written over any [call], so that its theorems hold for every client, and
    has as many rounds as it is given. *)

From S2P Require Import Prelude Bytes PyStd PyStr StateM TrezorProtobuf TrezorMessages TrezorTransport TrezorClient.

#[local] Open Scope string_scope.
#[local] Open Scope list_scope.
#[local] Open Scope Z_scope.

(** The member of an enumeration. *)
Definition member (enum : list (string * Z)) (name : string) : Z := default (-1) (dict_get name enum).

(** ** Signing: what the device asks for *)

(** [l[i]] for a list in an attribute. *)
Definition list_item (l : value) (i : value) : result value :=
  l ← iterate l; i ← as_int i; index_py l i.

Definition list_len (v : value) : result Z := l ← iterate v; Ok (len l).

(** Set attributes one after the other. *)
Definition set_attrs (v : value) (l : list (string * value)) : value := foldl (λ v '(name, x), setattr v name x) v l.

Definition copy_tx_meta (tx : value) : result value :=
  inputs ← getattr tx "inputs"; inputs_cnt ← list_len inputs;
  bin_outputs ← getattr tx "bin_outputs"; outputs ← getattr tx "outputs";
  outputs_cnt ← list_len (if truthy bin_outputs then bin_outputs else outputs);
  extra_data ← getattr tx "extra_data";
  extra_data_len ← list_len (if truthy extra_data then extra_data else VBytes []);
  Ok (set_attrs tx
    [("inputs_cnt", VInt inputs_cnt); ("inputs", VList []); ("outputs_cnt", VInt outputs_cnt); ("outputs", VList []);
     ("bin_outputs", VList []); ("extra_data_len", VInt extra_data_len); ("extra_data", VNone)]).

(** [d[k]] of the previous transactions, which are keyed by their hashes. *)
Definition find_prev (prev_txes : pydict bytes value) (tx_hash : value) : result value :=
  match tx_hash with
  | VBytes h => of_option ValueError (dict_get h prev_txes)
  | _ => Err ValueError
  end.

(** [data[o : o + l]] *)
Definition data_slice (data : value) (o l : Z) : result value :=
  match data with
  | VBytes b => Ok (VBytes (slice (Z.to_nat o) (Z.to_nat (o + l)) b))
  | _ => Err TypeError
  end.

(** The transaction message that answers a request which is not the last. *)
Definition answer_request (this_tx : value) (prev_txes : pydict bytes value) (res : value) : result value :=
  details ← getattr res "details";
  raise_if (is_none details) AssertionError;;
  tx_hash ← getattr details "tx_hash";
  current_tx ← (if is_none tx_hash then Ok this_tx else find_prev prev_txes tx_hash);
  msg ← new "TransactionType" [];
  request_type ← getattr res "request_type";
  request_index ← getattr details "request_index";
  let R name := is_int request_type (member RequestType name) in
  let part field :=
    raise_if (is_none request_index) AssertionError;;
    l ← getattr current_tx field; x ← list_item l request_index; Ok (setattr msg field (VList [x])) in
  if R "TXMETA" then copy_tx_meta current_tx
  else if R "TXINPUT" || R "TXORIGINPUT" then part "inputs"
  else if R "TXOUTPUT" then part (if truthy tx_hash then "bin_outputs" else "outputs")
  else if R "TXORIGOUTPUT" then part "outputs"
  else if R "TXEXTRADATA" then
    offset ← getattr details "extra_data_offset"; raise_if (is_none offset) AssertionError;;
    length ← getattr details "extra_data_len"; raise_if (is_none length) AssertionError;;
    data ← getattr current_tx "extra_data"; raise_if (is_none data) AssertionError;;
    o ← as_int offset; l ← as_int length;
    x ← data_slice data o l;
    Ok (setattr msg "extra_data" x)
  else Err TrezorException.

(** The part of the signed transaction that comes with a response. *)
Definition collect (res : value) (signatures : list value) (serialized_tx : bytes) : result (list value * bytes) :=
  serialized ← getattr res "serialized";
  if negb (truthy serialized) then Ok (signatures, serialized_tx)
  else
    chunk ← getattr serialized "serialized_tx";
    serialized_tx ← (if truthy chunk then match chunk with VBytes b => Ok (serialized_tx ++ b) | _ => Err TypeError end
                     else Ok serialized_tx);
    signature_index ← getattr serialized "signature_index";
    if is_none signature_index then Ok (signatures, serialized_tx)
    else
      idx ← as_int signature_index;
      sig ← getattr serialized "signature";
      old ← index_py signatures idx;
      if negb (is_none old) then Err ValueError
      else Ok (<[Z.to_nat (if idx <? 0 then len signatures + idx else idx) := sig]> signatures, serialized_tx).

Definition finished (res : value) : result bool :=
  t ← getattr res "request_type"; Ok (is_int t (member RequestType "TXFINISHED")).

Section signing.
Context {S : Type} (call : value → state S value).

(** [while isinstance(res, messages.TxRequest)]. *)
Fixpoint sign_tx_loop (fuel : nat) (this_tx : value) (prev_txes : pydict bytes value) (res : value) (signatures : list value)
    (serialized_tx : bytes) : state S (value * list value * bytes) :=
  if negb (isinstance res "TxRequest") then mret (res, signatures, serialized_tx)
  else
    '(signatures, serialized_tx) ← liftS (collect res signatures serialized_tx);
    last ← liftS (finished res);
    if last : bool then mret (res, signatures, serialized_tx)
    else
      match fuel with
      | O => raise OutOfFuel
      | Datatypes.S fuel =>
          tx ← liftS (answer_request this_tx prev_txes res);
          ack ← liftS (new "TxAck" [("tx", tx)]);
          res ← call ack;
          sign_tx_loop fuel this_tx prev_txes res signatures serialized_tx
      end.

(** An input the device should have signed and did not. *)
Definition unsigned (input sig : value) : result bool :=
  t ← getattr input "script_type"; Ok (negb (is_int t (member InputScriptType "EXTERNAL")) && is_none sig).

Fixpoint check_signatures (inputs signatures : list value) : result () :=
  match inputs, signatures with
  | i :: inputs, sig :: signatures =>
      b ← unsigned i sig;
      if b : bool then Err TrezorException else check_signatures inputs signatures
  | _, _ => Ok ()
  end.

(** The keywords that are attributes of the request. *)
Definition set_known (signtx : value) (kwargs : list (string * value)) : value :=
  foldl (λ m '(name, x), if is_ok (getattr m name) then setattr m name x else m) signtx kwargs.

(** [sign_tx] with the arguments the drivers use, inside the session. *)
Definition sign_tx_body (rounds : nat) (coin_name : pystr) (inputs outputs : list value) (prev_txes : pydict bytes value)
    (kwargs : list (string * value)) : state S (list value * bytes) :=
  signtx ← liftS (new "SignTx" [("coin_name", VStr coin_name); ("inputs_count", VInt (len inputs)); ("outputs_count", VInt (len outputs))]);
  let signtx := set_known signtx kwargs in
  res ← call signtx;
  version ← liftS (getattr signtx "version");
  this_tx ← liftS (new "TransactionType" [("inputs", VList inputs); ("outputs", VList outputs);
    ("inputs_cnt", VInt (len inputs)); ("outputs_cnt", VInt (len outputs)); ("version", version)]);
  '(res, signatures, serialized_tx) ← sign_tx_loop rounds this_tx prev_txes res (replicate (length inputs) VNone) [];
  if negb (isinstance res "TxRequest") then raise TrezorException
  else
    liftS (check_signatures inputs signatures);;
    mret (signatures, serialized_tx).
End signing.

(** ** Commands *)

Section commands.
Context {D : Type} (tr : Transport D) (normalize_string normalize_nfc : pystr → pystr) (rounds : nat).

Abbreviation M := (state (client D)).
#[local] Notation call := (TrezorClient.call tr normalize_string rounds true).
#[local] Notation call_new := (TrezorClient.call_new tr normalize_string rounds).
#[local] Notation session := (TrezorClient.session tr).

Definition sign_tx (coin_name : pystr) (inputs outputs : list value) (prev_txes : pydict bytes value)
    (kwargs : list (string * value)) : M (list value * bytes) :=
  session (sign_tx_body call rounds coin_name inputs outputs prev_txes kwargs).

Definition get_public_node (n : list Z) (coin_name : value) (script_type : Z) : M value :=
  expect "PublicKey" (call_new "GetPublicKey"
    [("address_n", VList (map VInt n)); ("ecdsa_curve_name", VNone); ("show_display", VBool false); ("coin_name", coin_name);
     ("script_type", VInt script_type); ("ignore_xpub_magic", VBool false)]).

Definition get_address (coin_name : pystr) (n : list Z) (show_display : bool) (multisig : value) (script_type : Z) : M value :=
  expect_field "Address" "address" (call_new "GetAddress"
    [("address_n", VList (map VInt n)); ("coin_name", VStr coin_name); ("show_display", VBool show_display); ("multisig", multisig);
     ("script_type", VInt script_type); ("ignore_xpub_magic", VBool false)]).

Definition sign_message (coin_name : pystr) (n : list Z) (message : pystr) : M value :=
  expect "MessageSignature" (call_new "SignMessage"
    [("coin_name", VStr coin_name); ("address_n", VList (map VInt n)); ("message", VBytes (encode_utf8 (normalize_nfc message)));
     ("script_type", VInt (member InputScriptType "SPENDADDRESS")); ("no_script_type", VBool false)]).

(** client.py: [PASSPHRASE_TEST_PATH], [lock], [ensure_unlocked], [end_session],
    [clear_session]. *)
Definition PASSPHRASE_TEST_PATH : result (list Z) := tools_parse_path $"44h/1h/0h/0/0".

Definition ensure_unlocked : M () :=
  session (
    n ← liftS PASSPHRASE_TEST_PATH;
    get_address $"Testnet" n false VNone (member InputScriptType "SPENDADDRESS");;
    refresh_features tr;; mret ()).

Definition lock (refresh : bool) : M () :=
  session (call_new "LockDevice" [];; if refresh then refresh_features tr;; mret () else mret ()).

Definition end_session : M () :=
  ((λ c,
    match (b ← feature "bootloader_mode"; if truthy b then mret () else call_new "EndSession" [];; mret ()) c with
    | (Err (TrezorFailure _), c') => (Ok (), c')
    | r => r
    end) : M ());;
  set_session_id VNone.

Definition clear_session : M () :=
  session (lock false;; end_session;; init_device tr VNone true VNone;; mret ()).

(** device.py. *)
Definition apply_settings (settings : list (string * value)) : M value :=
  expect_field "Success" "message" (session (
    settings ← liftS (new "ApplySettings" settings);
    out ← call settings;
    refresh_features tr;;
    mret out)).

Definition wipe : M value :=
  expect_field "Success" "message" (session (
    ret ← call_new "WipeDevice" [];
    init_device tr VNone false VNone;;
    mret ret)).

(** [reset] with the arguments the driver uses; [entropy] is what [os.urandom]
    gives. *)
Definition reset (entropy : bytes) (label : value) (passphrase_protection : bool) : M value :=
  expect_field "Success" "message" (session (
    initialized ← feature "initialized";
    if truthy initialized then raise RuntimeError
    else
      name ← feature "model";
      let strength := if match name with VStr s => bool_decide (s = $"1") | _ => false end then 256 else 128 in
      resp ← call_new "ResetDevice"
        [("display_random", VBool false); ("strength", VInt strength); ("passphrase_protection", VBool passphrase_protection);
         ("pin_protection", VBool true); ("language", VStr $"en-US"); ("label", label); ("u2f_counter", VInt 0);
         ("skip_backup", VBool false); ("no_backup", VBool false); ("backup_type", VInt (member BackupType "Bip39"))];
      if negb (isinstance resp "EntropyRequest") then raise RuntimeError
      else
        ret ← call_new "EntropyAck" [("entropy", VBytes entropy)];
        init_device tr VNone false VNone;;
        mret ret)).

(** [mnemonic_words()] of trezor.py: a line the user types; the end of the
    input cancels. *)
Definition get_word (type : value) : M pystr :=
  if negb (is_int type (member WordRequestType "Plain")) then raise AssertionError
  else
    c ← get;
    let u := ui c in
    match typed_lines u with
    | [] => raise Cancelled
    | w :: lines =>
        set_ui (mkUI (ui_passphrase u) (prompt_shown u) (always_prompt u) (return_passphrase u) (interactive_pin u) lines);;
        mret w
    end.

(** [try: m except Cancelled: h]. *)
Definition try_cancelled {A} (m h : M A) : M A := λ c,
  match m c with
  | (Err Cancelled, c') => h c'
  | r => r
  end.

Fixpoint recover_loop (fuel : nat) (res : value) : M value :=
  if negb (isinstance res "WordRequest") then mret res
  else
    match fuel with
    | O => raise OutOfFuel
    | S fuel =>
        res ← try_cancelled (type ← attr res "type"; inp ← get_word type; call_new "WordAck" [("word", VStr inp)])
                            (call_new "Cancel" []);
        recover_loop fuel res
    end.

(** [recover] with the arguments the driver uses; [now] is the time. *)
Definition recover (now : Z) (word_count : Z) (label : value) (passphrase_protection : bool) : M value :=
  session (
    feature "model";;
    if bool_decide (word_count ∉ [12; 18; 24]) then raise ValueError
    else
      initialized ← feature "initialized";
      if truthy initialized then raise RuntimeError
      else
        msg ← liftS (new "RecoveryDevice"
          [("word_count", VInt word_count); ("enforce_wordlist", VBool true);
           ("type", VInt (member RecoveryDeviceType "ScrambledWords")); ("dry_run", VBool false)]);
        let msg := set_attrs msg
          [("passphrase_protection", VBool passphrase_protection); ("pin_protection", VBool true); ("label", label);
           ("language", VStr $"en-US"); ("u2f_counter", VInt now)] in
        res ← call msg;
        res ← recover_loop rounds res;
        init_device tr VNone false VNone;;
        mret res).
End commands.

(** ** What signing returns *)

(** The piece of the serialized transaction and the signature in a response. *)
Definition part_of (res : value) : result (bytes * option (Z * value)) :=
  serialized ← getattr res "serialized";
  if negb (truthy serialized) then Ok ([], None)
  else
    chunk ← getattr serialized "serialized_tx";
    chunk ← (if truthy chunk then match chunk with VBytes b => Ok b | _ => Err TypeError end else Ok []);
    signature_index ← getattr serialized "signature_index";
    if is_none signature_index then Ok (chunk, None)
    else
      idx ← as_int signature_index;
      sig ← getattr serialized "signature";
      Ok (chunk, Some (idx, sig)).

Definition chunk_of (res : value) : bytes := match part_of res with Ok (chunk, _) => chunk | Err _ => [] end.

(** [res] carries the signature [sig] for the input [i] of [n]. *)
Definition signature_in (n : nat) (res : value) (i : nat) (sig : value) : Prop :=
  ∃ chunk idx, part_of res = Ok (chunk, Some (idx, sig)) ∧ i = Z.to_nat (if idx <? 0 then Z.of_nat n + idx else idx).

Lemma collect_ok res sigs ser sigs' ser' : collect res sigs ser = Ok (sigs', ser') →
  ser' = ser ++ chunk_of res ∧
  ((∀ i sig, ¬ signature_in (length sigs) res i sig) ∧ sigs' = sigs ∨
   ∃ i sig, signature_in (length sigs) res i sig ∧ sigs !! i = Some VNone ∧ sigs' = <[i := sig]> sigs).
Proof.
  intros H. unfold collect in H. unfold chunk_of, signature_in, part_of.
  destruct (getattr res "serialized") as [s|]; [|done]. simpl in H |- *.
  destruct (truthy s) eqn:Es; simpl in H |- *.
  2: { injection H as <- <-. split; [by rewrite app_nil_r|]. left. split; [|done]. by intros i sig (? & ? & [=] & _). }
  destruct (getattr s "serialized_tx") as [c|]; [|done]. simpl in H |- *.
  set (chunk := if truthy c then match c with VBytes b => Ok b | _ => Err TypeError end else Ok []) in *.
  assert (∃ b, chunk = Ok b ∧ (if truthy c then match c with VBytes b => Ok (ser ++ b) | _ => Err TypeError end else Ok ser) = Ok (ser ++ b)) as (b & -> & Hb).
  { subst chunk. destruct (truthy c); [|exists []; by rewrite app_nil_r]. destruct c; try done. by exists b. }
  rewrite Hb in H. simpl in H |- *.
  destruct (getattr s "signature_index") as [ix|]; [|done]. simpl in H |- *.
  destruct (is_none ix); [injection H as <- <-; split; [done|]; left; split; [|done]; by intros i sig (? & ? & [=] & _)|].
  destruct (as_int ix) as [idx|]; [|done]. simpl in H |- *.
  destruct (getattr s "signature") as [sig|]; [|done]. simpl in H |- *.
  unfold index_py in H. destruct (idx <? - len sigs); [done|].
  destruct (sigs !! Z.to_nat (if idx <? 0 then len sigs + idx else idx)) as [old|] eqn:El; [|done]. simpl in H.
  destruct old; try done. injection H as <- <-. split; [done|]. right.
  exists (Z.to_nat (if idx <? 0 then len sigs + idx else idx)), sig. split_and!; [by exists b, idx | done | done].
Qed.

Fixpoint collect_all (l : list value) (sigs : list value) (ser : bytes) : result (list value * bytes) :=
  match l with
  | [] => Ok (sigs, ser)
  | res :: l => '(sigs, ser) ← collect res sigs ser; collect_all l sigs ser
  end.

(** What a list of responses makes of the signatures: nothing that is there is
    overwritten, and everything that is new was in a response. *)
Lemma collect_all_ok l sigs ser sigs' ser' : collect_all l sigs ser = Ok (sigs', ser') →
  ser' = ser ++ concat (map chunk_of l) ∧ length sigs' = length sigs ∧
  (∀ i sig, sigs !! i = Some sig → sig ≠ VNone → sigs' !! i = Some sig) ∧
  (∀ i sig, sigs' !! i = Some sig → sigs !! i = Some sig ∨ ∃ res, res ∈ l ∧ signature_in (length sigs) res i sig) ∧
  (∀ res i sig, res ∈ l → signature_in (length sigs) res i sig → sig ≠ VNone → sigs' !! i = Some sig).
Proof.
  revert sigs ser. induction l as [|res l IH]; intros sigs ser H.
  - injection H as <- <-. rewrite app_nil_r. split_and!; [done|done|done|by left|]. intros res i sig Hin. by inversion Hin.
  - simpl in H. apply bind_ok in H as ([sigs1 ser1] & Hc & H). apply collect_ok in Hc as [-> Hc].
    assert (length sigs1 = length sigs) as Hlen by (destruct Hc as [[_ ->]|(i & sig & _ & _ & ->)]; [done|apply length_insert]).
    destruct (IH _ _ H) as (-> & Hl & Hkeep & Hnew & Hall). rewrite Hlen in Hl, Hnew, Hall. split_and!.
    + simpl. by rewrite app_assoc.
    + done.
    + intros i sig Hi Hsig. apply Hkeep; [|done]. destruct Hc as [[_ ->]|(j & sig' & _ & Hj & ->)]; [done|].
      rewrite list_lookup_insert_ne; [done|]. intros ->. rewrite Hj in Hi. by injection Hi as <-.
    + intros i sig Hi. destruct (Hnew i sig Hi) as [Hi1|(r & Hr & Hs)]; [|right; exists r; split; [by right|done]].
      destruct Hc as [[_ ->]|(j & sig' & Hs & Hj & ->)]; [by left|].
      apply list_lookup_insert_Some in Hi1 as [(-> & -> & _)|[_ Hi1]]; [|by left]. right. exists res. split; [left|done].
    + intros r i sig Hr Hs Hsig. apply elem_of_cons in Hr as [->|Hr]; [|by apply (Hall r)].
      apply Hkeep; [|done]. destruct Hc as [[Hno _]|(j & sig' & Hs' & Hj & ->)]; [by destruct (Hno i sig)|].
      destruct Hs as (c1 & x1 & E1 & ->), Hs' as (c2 & x2 & E2 & ->). rewrite E1 in E2. injection E2 as <- <- <-.
      apply list_lookup_insert_eq. by eapply lookup_lt_Some.
Qed.

(** A [call] whose responses are recorded. *)
Definition logged_call {S} (call : value → state S value) (msg : value) : state (list value * S) value := λ '(l, s),
  match call msg s with
  | (Ok v, s') => (Ok v, (l ++ [v], s'))
  | (Err e, s') => (Err e, (l, s'))
  end.

Lemma logged_call_ok {S} (call : value → state S value) msg log s v log' s' :
  logged_call call msg (log, s) = (Ok v, (log', s')) → log' = log ++ [v] ∧ call msg s = (Ok v, s').
Proof. unfold logged_call. destruct (call msg s) as [[]]; [|done]. by intros [= <- <- <-]. Qed.

Section signing_log.
Context {S : Type} (call : value → state S value).

Lemma sign_tx_loop_log fuel this_tx prev res sigs ser log s res' sigs' ser' log' s' :
  sign_tx_loop (logged_call call) fuel this_tx prev res sigs ser (log, s) = (Ok (res', sigs', ser'), (log', s')) →
  isinstance res' "TxRequest" = true →
  ∃ more, log' = log ++ more ∧ collect_all (res :: more) sigs ser = Ok (sigs', ser') ∧ finished res' = Ok true ∧ last (res :: more) = Some res'.
Proof.
  revert res sigs ser log s. induction fuel as [|fuel IH]; intros res sigs ser log s H Hres; simpl in H.
  all: destruct (isinstance res "TxRequest") eqn:Er; simpl in H; [|injection H as <- <- <- <- <-; by rewrite Er in Hres].
  all: apply state_bind_ok in H as ([sigs1 ser1] & s1 & Hc & H); injection Hc as Hc <-.
  all: apply state_bind_ok in H as (last1 & s1 & Hf & H); injection Hf as Hf <-.
  all: destruct last1; [injection H as <- <- <- <- <-; exists []; rewrite app_nil_r; simpl; by rewrite Hc|].
  - done.
  - apply state_bind_ok in H as (tx & s1 & Htx & H). injection Htx as Htx <-.
    apply state_bind_ok in H as (ack & s1 & Hack & H). injection Hack as Hack <-.
    apply state_bind_ok in H as (res1 & [log1 s1] & Hcall & H). apply logged_call_ok in Hcall as [-> _].
    destruct (IH _ _ _ _ _ H Hres) as (more & -> & Hall & Hfin & Hlast). exists (res1 :: more).
    split; [by rewrite <- app_assoc|]. split; [|by rewrite last_cons_cons]. simpl. by rewrite Hc.
Qed.

Lemma check_signatures_ok inputs sigs : check_signatures inputs sigs = Ok () → length sigs = length inputs →
  ∀ i input, inputs !! i = Some input → ∃ t sig, getattr input "script_type" = Ok t ∧ sigs !! i = Some sig ∧
    (is_int t (member InputScriptType "EXTERNAL") = false → sig ≠ VNone).
Proof using.
  revert sigs. induction inputs as [|x inputs IH]; intros [|sig sigs] H Hl i input Hi; simplify_eq/=.
  apply bind_ok in H as (b & Hb & H). unfold unsigned in Hb. apply bind_ok in Hb as (t & Ht & Hb). injection Hb as <-.
  destruct (_ && _) eqn:Eb; [done|]. destruct i as [|i]; simpl in Hi.
  - injection Hi as <-. exists t, sig. split_and!; [done|done|]. intros He ->. rewrite He in Eb. done.
  - simpl. by apply (IH sigs).
Qed.
End signing_log.

(** ** Properties *)

(** C11: when signing succeeds, with any client and any device, the responses it
    got account for the result: the serialized transaction is their pieces in
    order, there is one entry per input, a signature in the result was in one
    of the responses under that index, a signature that was in a response is
    in the result under that index (none is lost or overwritten), and no input
    that is not external is left without a signature. *)
Theorem sign_tx_collects {S} (call : value → state S value) rounds coin inputs outputs prev kwargs s sigs ser log s' :
  sign_tx_body (logged_call call) rounds coin inputs outputs prev kwargs ([], s) = (Ok (sigs, ser), (log, s')) →
  ser = concat (map chunk_of log) ∧ length sigs = length inputs ∧
  (∀ i sig, sigs !! i = Some sig → sig ≠ VNone → ∃ res, res ∈ log ∧ signature_in (length inputs) res i sig) ∧
  (∀ res i sig, res ∈ log → signature_in (length inputs) res i sig → sig ≠ VNone → sigs !! i = Some sig) ∧
  (∀ i input, inputs !! i = Some input → ∃ t sig, getattr input "script_type" = Ok t ∧ sigs !! i = Some sig ∧
    (is_int t (member InputScriptType "EXTERNAL") = false → sig ≠ VNone)).
Proof.
  intros H. unfold sign_tx_body in H.
  apply state_bind_ok in H as (signtx & s1 & E & H). injection E as E <-.
  apply state_bind_ok in H as (res & [log1 s1] & Hcall & H). apply logged_call_ok in Hcall as [-> _].
  apply state_bind_ok in H as (ver & s2 & E2 & H). injection E2 as E2 <-.
  apply state_bind_ok in H as (this_tx & s2 & E3 & H). injection E3 as E3 <-.
  apply state_bind_ok in H as ([[res' sigs'] ser'] & [log2 s2] & Hloop & H).
  destruct (isinstance res' "TxRequest") eqn:Er; [|done]. cbn [negb] in H.
  apply state_bind_ok in H as ([] & s3 & Hchk & H). injection Hchk as Hchk <-. injection H as <- <- <- <-.
  destruct (sign_tx_loop_log _ _ _ _ _ _ _ _ _ _ _ _ _ _ Hloop Er) as (more & -> & Hall & _ & _).
  apply collect_all_ok in Hall as (-> & Hlen & _ & Hnew & Hall). rewrite length_replicate in Hlen, Hnew, Hall.
  split_and!; try done.
  - intros i sig Hi Hsig. destruct (Hnew i sig Hi) as [Hold|Hin]; [|done].
    apply lookup_replicate in Hold as [-> _]. done.
  - by apply check_signatures_ok.
Qed.

(** A device that asks for the input and the output and then returns a signature. *)
Definition request (type : Z) (index : value) (serialized : value) : value :=
  VMsg "TxRequest" [("request_type", VInt type);
    ("details", VMsg "TxRequestDetailsType" [("request_index", index); ("tx_hash", VNone); ("extra_data_len", VNone); ("extra_data_offset", VNone)]);
    ("serialized", serialized)].

Definition next_answer : value → state (list value) value := λ _ l,
  match l with v :: l => (Ok v, l) | [] => (Err EOFError, []) end.

Definition example_responses : list value :=
  [request 0 (VInt 0) VNone; request 1 (VInt 0) VNone;
   request 3 VNone (VMsg "TxRequestSerializedType" [("signature_index", VInt 0); ("signature", VBytes [Byte.x30]); ("serialized_tx", VBytes [Byte.x01; Byte.x02])])].

Definition example_input : value :=
  match new "TxInputType" [("prev_hash", VBytes []); ("prev_index", VInt 0)] with Ok v => v | Err _ => VNone end.

Lemma sign_tx_collects_witness :
  sign_tx_body (logged_call next_answer) 5 $"Bitcoin" [example_input] [VNone] [] [("version", VInt 2)] ([], example_responses) =
    (Ok ([VBytes [Byte.x30]], [Byte.x01; Byte.x02]), (example_responses, [])) ∧
  ([Byte.x01; Byte.x02] = concat (map chunk_of example_responses) ∧ length [VBytes [Byte.x30]] = length [example_input] ∧
   (∀ i sig, [VBytes [Byte.x30]] !! i = Some sig → sig ≠ VNone → ∃ res, res ∈ example_responses ∧ signature_in 1 res i sig) ∧
   (∀ res i sig, res ∈ example_responses → signature_in 1 res i sig → sig ≠ VNone → [VBytes [Byte.x30]] !! i = Some sig) ∧
   (∀ i input, [example_input] !! i = Some input → ∃ t sig, getattr input "script_type" = Ok t ∧ [VBytes [Byte.x30]] !! i = Some sig ∧
     (is_int t (member InputScriptType "EXTERNAL") = false → sig ≠ VNone))).
Proof.
  split; [by vm_compute|].
  apply (sign_tx_collects next_answer 5 $"Bitcoin" [example_input] [VNone] [] [("version", VInt 2)] example_responses
    [VBytes [Byte.x30]] [Byte.x01; Byte.x02] example_responses []).
  by vm_compute.
Defined.
