(* ===== verification/Trezor.v ===== *)
(** * The Trezor driver (devices/trezor.py, devices/keepkey.py)

    First what [sign_tx] makes of the inputs and outputs of a PSBT, then the
    methods of TrezorClient over the client of TrezorClient.v.  The driver's own
    attributes do not change ([chain], [password], [type]); [coin_name] is
    computed from the chain before it is used.  The simulator's client, which
    answers by itself through the debug link, is not modelled: the user
    interface is always a [PassphraseUI]. *)

From S2P Require Import Prelude Bytes PyStd PyStr StateM Common Sha256 Serialize Base58 Bech32 Script Tx KeyPath Key PsbtIn PsbtOut Psbt.
From S2P Require Import PubkeyProvider Descriptor RegDescriptor Commands TrezorProtobuf TrezorMessages TrezorTransport TrezorClient TrezorBtc.

#[local] Open Scope string_scope.
#[local] Open Scope list_scope.
#[local] Open Scope Z_scope.

(** Members of the enumerations. *)
Abbreviation SPEND name := (member InputScriptType name).
Abbreviation PAYTO name := (member OutputScriptType name).

Definition ECDSA_SCRIPT_TYPES : list Z := [SPEND "SPENDADDRESS"; SPEND "SPENDMULTISIG"; SPEND "SPENDWITNESS"; SPEND "SPENDP2SHWITNESS"].
Definition SCHNORR_SCRIPT_TYPES : list Z := [SPEND "SPENDTAPROOT"].

Definition path_value (p : list Z) : value := VList (map VInt p).

(** ** [parse_multisig] *)

Section multisig.
Context `{Hashes}.

Definition HDNode (k : ExtendedKey) : result value :=
  new "HDNodeType" [("depth", VInt (depth k)); ("fingerprint", VInt (be_int (parent_fingerprint k))); ("child_num", VInt (child_num k));
    ("chain_code", VBytes (chaincode k)); ("public_key", VBytes (pubkey k))].

Definition bare_node (key : bytes) : result value :=
  new "HDNodeType" [("depth", VInt 0); ("fingerprint", VInt 0); ("child_num", VInt 0);
    ("chain_code", VBytes (replicate 32 Byte.x00)); ("public_key", VBytes key)].

(** The public keys from an offset on, and the script at the first byte that
    does not push 33 bytes. *)
Fixpoint multisig_keys (fuel : nat) (script : bytes) : result (list bytes * bytes) :=
  match fuel with
  | O => Err OutOfFuel
  | S fuel =>
      pubkey_len ← nth_py script 0;
      if negb (ord pubkey_len =? 33) then Ok ([], script)
      else
        '(keys, rest) ← multisig_keys fuel (drop 34 script);
        Ok (slice 1 34 script :: keys, rest)
  end.

(** The node of a key with its path below the first extended key of the
    transaction that its origin starts with. *)
Fixpoint find_xpub (key : bytes) (derivation : KeyOriginInfo) (tx_xpubs : pydict bytes KeyOriginInfo) : result value :=
  match tx_xpubs with
  | [] => node ← bare_node key; new "HDNodePathType" [("node", node); ("address_n", VList [])]
  | (xpub, origin) :: tx_xpubs =>
      hd ← ExtendedKey_deserialize (Base58.encode (xpub ++ take 4 (hash256 xpub)));
      if bool_decide (fingerprint origin = fingerprint derivation) &&
         bool_decide (path origin = take (length (path origin)) (path derivation)) then
        node ← HDNode hd;
        new "HDNodePathType" [("node", node); ("address_n", path_value (drop (length (path origin)) (path derivation)))]
      else find_xpub key derivation tx_xpubs
  end.

Definition key_node (tx_xpubs hd_keypaths : pydict bytes KeyOriginInfo) (key : bytes) : result value :=
  match dict_get key hd_keypaths with
  | Some derivation => find_xpub key derivation tx_xpubs
  | None => node ← bare_node key; new "HDNodePathType" [("node", node); ("address_n", VList [])]
  end.

(** The message for a multisig script, if it is one. *)
Definition parse_multisig (script : bytes) (tx_xpubs hd_keypaths : pydict bytes KeyOriginInfo) : result (option value) :=
  if len script <? 37 then Ok None
  else
    m0 ← nth_py script 0;
    let m := ord m0 - 80 in
    if (m <? 1) || (15 <? m) then Ok None
    else
      '(keys, rest) ← multisig_keys (length script) (drop 1 script);
      n0 ← nth_py rest 0;
      let n := ord n0 - 80 in
      if negb (n =? len keys) then Ok None
      else
        op_cms ← nth_py rest 1;
        if negb (ord op_cms =? 174) then Ok None
        else
          pubkeys ← mapR (key_node tx_xpubs hd_keypaths) keys;
          multisig ← new "MultisigRedeemScriptType"
            [("m", VInt m); ("signatures", VList (replicate (Z.to_nat n) (VBytes []))); ("pubkeys", VList pubkeys)];
          Ok (Some multisig).

(** ** Inputs *)

(** What becomes of an input: it is left out, or it is sent; its signature may
    have to be ignored, and so many keys of ours have not signed it yet. *)
Inductive prepared := SkipInput | UseInput (txin : value) (ignored : bool) (our_keys : Z).

Definition find_utxo (psbt_in : PsbtIn) (prev_out : Z) : result (option CTxOut) :=
  match in_non_witness_utxo psbt_in with
  | Some tx =>
      raise_if (bool_decide (tx_hash tx ≠ Some (in_prev_txid psbt_in))) BadArgumentError;;
      utxo ← index_py (vout tx) prev_out;
      Ok (Some utxo)
  | None => Ok (in_witness_utxo psbt_in)
  end.

(** The search through the keys: the path to sign with, whether a key of ours
    has signed, how many have not, and the path of the last of ours. *)
Record key_search := mkSearch { found_path : option (list Z); found_in_sigs : bool; our_keys : Z; path_last_ours : option (list Z) }.

Definition search_key (master_fp : bytes) (partial_sigs : pydict bytes bytes) (s : key_search) (kp : bytes * KeyOriginInfo) : key_search :=
  let '(key, keypath) := kp in
  if bool_decide (fingerprint keypath = master_fp) then
    if dict_in key partial_sigs then mkSearch (found_path s) true (our_keys s) (Some (path keypath))
    else mkSearch (match found_path s with Some p => Some p | None => Some (path keypath) end) (found_in_sigs s) (our_keys s + 1) (Some (path keypath))
  else s.

Definition search_ecdsa (master_fp : bytes) (psbt_in : PsbtIn) : key_search :=
  foldl (search_key master_fp (in_partial_sigs psbt_in)) (mkSearch None false 0 None) (in_hd_keypaths psbt_in).

Definition search_taproot (master_fp : bytes) (psbt_in : PsbtIn) : key_search :=
  let signed := negb (bool_decide (in_tap_key_sig psbt_in = [])) in
  match List.find (λ '(key, (_, origin)), bool_decide (key = in_tap_internal_key psbt_in) && bool_decide (fingerprint origin = master_fp))
          (in_tap_bip32_paths psbt_in) with
  | Some (_, (_, origin)) => mkSearch (Some (path origin)) signed 1 (Some (path origin))
  | None => mkSearch None signed 0 None
  end.

Definition search_keys (master_fp : bytes) (script_type : Z) (psbt_in : PsbtIn) : key_search :=
  if bool_decide (script_type ∈ ECDSA_SCRIPT_TYPES) then search_ecdsa master_fp psbt_in
  else if bool_decide (script_type ∈ SCHNORR_SCRIPT_TYPES) then search_taproot master_fp psbt_in
  else mkSearch None false 0 None.

Section inputs.
Context (chain : Chain) (master_fp : bytes) (supports_external : result bool) (xpubs : pydict bytes KeyOriginInfo).

(** [ignore_input]: the input is sent as if it were a key of the first account. *)
Definition ignore_input (txin : value) : value :=
  set_attrs txin
    [("address_n", path_value [Z.lor 0x80000000 84; Z.lor 0x80000000 (if bool_decide (chain = MAIN) then 0 else 1); 0x80000000; 0; 0]);
     ("multisig", VNone); ("script_type", VInt (SPEND "SPENDWITNESS"))].

Definition external_input (txin : value) : result prepared :=
  b ← supports_external;
  if b : bool then Ok (UseInput (ignore_input txin) true 0) else Err BadArgumentError.

(** The part of the loop's body from the search for a key on. *)
Definition choose_key (txin : value) (script_type : Z) (psbt_in : PsbtIn) : result prepared :=
  let s := search_keys master_fp script_type psbt_in in
  match found_path s with
  | Some p => Ok (UseInput (setattr txin "address_n" (path_value p)) false (our_keys s))
  | None =>
      if negb (found_in_sigs s) then external_input txin
      else
        p ← of_option AssertionError (path_last_ours s);
        Ok (UseInput (setattr txin "address_n" (path_value p)) true (our_keys s))
  end.

Definition witness_type (p2sh : bool) (scriptcode : bytes) : bool * Z :=
  let '(is_wit, wit_ver, _) := is_witness scriptcode in
  (is_wit,
   if is_wit then
     if wit_ver =? 0 then if p2sh then SPEND "SPENDP2SHWITNESS" else SPEND "SPENDWITNESS"
     else if wit_ver =? 1 then SPEND "SPENDTAPROOT" else SPEND "SPENDADDRESS"
   else SPEND "SPENDADDRESS").

(** What is known of an input before the keys are searched: it is settled, or
    it has to be signed with a key of a script type. *)
Inductive stage := Settled (p : prepared) | ToSign (txin : value) (script_type : Z).

Definition settled (r : result prepared) : result stage := p ← r; Ok (Settled p).

(** The part of the loop's body before that. *)
Definition prepare_stage (psbt_in : PsbtIn) : result stage :=
  prev_out ← of_option AssertionError (in_prev_out psbt_in);
  sequence ← of_option AssertionError (in_sequence psbt_in);
  txin ← new "TxInputType" [("prev_hash", VBytes (rev (in_prev_txid psbt_in))); ("prev_index", VInt prev_out); ("sequence", VInt sequence)];
  utxo ← find_utxo psbt_in prev_out;
  match utxo with
  | None => Ok (Settled SkipInput)
  | Some utxo =>
      let p2sh := is_p2sh (scriptPubKey utxo) in
      if p2sh && bool_decide (in_redeem_script psbt_in = []) then Ok (Settled SkipInput)
      else
        let scriptcode := if p2sh then in_redeem_script psbt_in else scriptPubKey utxo in
        let '(is_wit, script_type) := witness_type p2sh scriptcode in
        let txin := set_attrs txin [("script_type", VInt script_type); ("amount", VInt (nValue utxo))] in
        let p2wsh := is_p2wsh scriptcode in
        if p2wsh && bool_decide (in_witness_script psbt_in = []) then Ok (Settled SkipInput)
        else
          let scriptcode := if p2wsh then in_witness_script psbt_in else scriptcode in
          ms ← parse_multisig scriptcode xpubs (in_hd_keypaths psbt_in);
          match ms with
          | Some multisig =>
              let txin := setattr txin "multisig" multisig in
              if is_wit then Ok (ToSign txin script_type)
              else if p2sh then
                Ok (ToSign (setattr txin "script_type" (VInt (SPEND "SPENDMULTISIG"))) (SPEND "SPENDMULTISIG"))
              else settled (external_input txin)
          | None =>
              if negb is_wit && negb (is_p2pkh scriptcode) then settled (external_input txin)
              else if is_wit && p2wsh then settled (external_input txin)
              else Ok (ToSign txin script_type)
          end
  end.

(** The body of the loop over the inputs. *)
Definition prepare_input (psbt_in : PsbtIn) : result prepared :=
  st ← prepare_stage psbt_in;
  match st with
  | Settled p => Ok p
  | ToSign txin script_type => choose_key txin script_type psbt_in
  end.

(** The loop over the inputs: the messages, the numbers of the inputs whose
    signatures are ignored, and the number of passes. *)
Fixpoint prepare_inputs (input_num : nat) (l : list PsbtIn) (passes : Z) : result (list value * list nat * Z) :=
  match l with
  | [] => Ok ([], [], passes)
  | psbt_in :: l =>
      r ← prepare_input psbt_in;
      match r with
      | SkipInput => prepare_inputs (S input_num) l passes
      | UseInput txin ignored n =>
          '(inputs, to_ignore, passes) ← prepare_inputs (S input_num) l (if passes <? n then n else passes);
          Ok (txin :: inputs, if ignored then input_num :: to_ignore else to_ignore, passes)
      end
  end.
End inputs.

(** ** Outputs *)

Section outputs.
Context (chain : Chain) (master_fp : bytes) (xpubs : pydict bytes KeyOriginInfo).

Definition p2pkh_version : bytes := if bool_decide (chain ≠ MAIN) then [chr 0x6f] else [chr 0].
Definition p2sh_version : bytes := if bool_decide (chain ≠ MAIN) then [chr 0xc4] else [chr 5].
Definition bech32_hrp : pystr := if bool_decide (chain ≠ MAIN) then $"tb" else $"bc".

(** The destination of an output. *)
Definition output_address (out : CTxOut) (txoutput : value) : result value :=
  let '(wit, ver, prog) := is_witness (scriptPubKey out) in
  if wit then
    a ← Bech32.encode bech32_hrp ver prog;
    Ok (setattr txoutput "address" (match a with Some a => VStr a | None => VNone end))
  else if is_p2pkh (scriptPubKey out) then
    Ok (setattr txoutput "address" (VStr (to_address (slice 3 23 (scriptPubKey out)) p2pkh_version)))
  else if is_p2sh (scriptPubKey out) then
    Ok (setattr txoutput "address" (VStr (to_address (slice 2 22 (scriptPubKey out)) p2sh_version)))
  else
    b ← is_opreturn (scriptPubKey out);
    if b : bool then
      Ok (set_attrs txoutput [("script_type", VInt (PAYTO "PAYTOOPRETURN")); ("op_return_data", VBytes (drop 2 (scriptPubKey out)))])
    else Err BadArgumentError.

(** One key path of the loop that looks for change; [wit] is the variable of
    that name, which the redeem script of a nested output overwrites. *)
Definition change_path (psbt_out : PsbtOut) (out : CTxOut) (st : value * bool) (keypath : KeyOriginInfo) : value * bool :=
  let '(txoutput, wit) := st in
  if bool_decide (fingerprint keypath ≠ master_fp) then (txoutput, wit)
  else
    let '(wit, ver, prog) := is_witness (scriptPubKey out) in
    let ours := [("address_n", path_value (path keypath)); ("address", VNone)] in
    if is_p2pkh (scriptPubKey out) then (set_attrs txoutput ours, wit)
    else if wit then (set_attrs txoutput (("script_type", VInt (PAYTO "PAYTOWITNESS")) :: ours), wit)
    else if is_p2sh (scriptPubKey out) && negb (bool_decide (out_redeem_script psbt_out = [])) then
      let '(wit, ver, prog) := is_witness (out_redeem_script psbt_out) in
      if wit && ((len prog =? 20) || (len prog =? 32)) then
        (set_attrs txoutput (("script_type", VInt (PAYTO "PAYTOP2SHWITNESS")) :: ours), wit)
      else (txoutput, wit)
    else (txoutput, wit).

Definition taproot_change (psbt_out : PsbtOut) (txoutput : value) : value :=
  match List.find (λ '(key, (_, origin)), bool_decide (key = out_tap_internal_key psbt_out) && bool_decide (fingerprint origin = master_fp))
          (out_tap_bip32_paths psbt_out) with
  | Some (_, (_, origin)) =>
      set_attrs txoutput [("address_n", path_value (path origin)); ("script_type", VInt (PAYTO "PAYTOTAPROOT")); ("address", VNone)]
  | None => txoutput
  end.

(** The body of the loop over the outputs. *)
Definition prepare_output (psbt_out : PsbtOut) : result value :=
  out ← get_txout psbt_out;
  txoutput ← new "TxOutputType" [("amount", VInt (nValue out))];
  txoutput ← output_address out (setattr txoutput "script_type" (VInt (PAYTO "PAYTOADDRESS")));
  let '(wit, ver, _) := is_witness (scriptPubKey out) in
  let '(txoutput, wit) :=
    if negb wit || (wit && (ver =? 0)) then foldl (change_path psbt_out out) (txoutput, wit) (map snd (out_hd_keypaths psbt_out))
    else if wit && (ver =? 1) then (taproot_change psbt_out txoutput, wit)
    else (txoutput, wit) in
  let script := if bool_decide (out_witness_script psbt_out = []) then out_redeem_script psbt_out else out_witness_script psbt_out in
  if bool_decide (script = []) then Ok txoutput
  else
    ms ← parse_multisig script xpubs (out_hd_keypaths psbt_out);
    match ms with
    | Some multisig =>
        let txoutput := setattr txoutput "multisig" multisig in
        Ok (if wit then txoutput else setattr txoutput "script_type" (VInt (PAYTO "PAYTOMULTISIG")))
    | None => Ok txoutput
    end.
End outputs.

(** ** Previous transactions *)

Definition prev_input (i : CTxIn) : result value :=
  h ← ser_uint256 (op_hash (prevout i));
  new "TxInputType" [("prev_hash", VBytes (rev h)); ("prev_index", VInt (op_n (prevout i))); ("script_sig", VBytes (scriptSig i));
    ("sequence", VInt (nSequence i))].

Definition prev_output (o : CTxOut) : result value :=
  new "TxOutputBinType" [("amount", VInt (nValue o)); ("script_pubkey", VBytes (scriptPubKey o))].

Definition prev_tx (prev : CTransaction) : result (bytes * value) :=
  t ← new "TransactionType" [];
  inputs ← mapR prev_input (vin prev);
  outputs ← mapR prev_output (vout prev);
  raise_if (bool_decide (tx_hash prev = None)) AssertionError;;
  sha ← of_option AssertionError (tx_sha256 prev);
  key ← ser_uint256 sha;
  Ok (rev key, set_attrs t [("version", VInt (nVersion prev)); ("lock_time", VInt (nLockTime prev)); ("inputs", VList inputs);
                            ("bin_outputs", VList outputs)]).

Fixpoint prev_txs (l : list PsbtIn) (d : pydict bytes value) : result (pydict bytes value) :=
  match l with
  | [] => Ok d
  | i :: l =>
      match in_non_witness_utxo i with
      | None => prev_txs l d
      | Some prev => '(k, t) ← prev_tx prev; prev_txs l (dict_set k t d)
      end
  end.

(** ** Signatures *)

Definition sig_bytes (sig : value) : result bytes := match sig with VBytes b => Ok b | _ => Err TypeError end.

(** The first key of ours that has no signature. *)
Definition unsigned_key (master_fp : bytes) (psbt_in : PsbtIn) : option (bytes * KeyOriginInfo) :=
  List.find (λ '(key, origin), bool_decide (fingerprint origin = master_fp) && negb (dict_in key (in_partial_sigs psbt_in)))
    (in_hd_keypaths psbt_in).

(** The body of the loop over the inputs with their signatures. *)
Definition store_signature (master_fp : bytes) (psbt_in : PsbtIn) (sig : value) : result PsbtIn :=
  psbt_in ← match unsigned_key master_fp psbt_in with
            | Some (key, _) => s ← sig_bytes sig; Ok (set_partial_sigs (dict_set key (s ++ [chr 1]) (in_partial_sigs psbt_in)) psbt_in)
            | None => Ok psbt_in
            end;
  if negb (bool_decide (in_tap_internal_key psbt_in = [])) && bool_decide (in_tap_key_sig psbt_in = []) then
    s ← sig_bytes sig; Ok (set_tap_key_sig s psbt_in)
  else Ok psbt_in.

(** [zip(psbt.inputs, signatures)], numbered. *)
Fixpoint store_signatures (master_fp : bytes) (to_ignore : list nat) (input_num : nat) (l : list PsbtIn) (sigs : list value) : result (list PsbtIn) :=
  match l, sigs with
  | psbt_in :: l, sig :: sigs =>
      psbt_in ← (if bool_decide (input_num ∈ to_ignore) then Ok psbt_in else store_signature master_fp psbt_in sig);
      l ← store_signatures master_fp to_ignore (S input_num) l sigs;
      Ok (psbt_in :: l)
  | _, _ => Ok l
  end.

(** ** Passes *)

Section passes.
Context {S : Type}.
Context (sign : list value → list value → pydict bytes value → list (string * value) → state S (list value * bytes)).
Context (chain : Chain) (master_fp : bytes) (supports_external : result bool).

(** One round of [while p < passes]; [sign] is [btc.sign_tx]. *)
Definition sign_pass (psbt : PSBT) (passes : Z) : state S (PSBT * Z) :=
  '(inputs, to_ignore, passes) ← liftS (prepare_inputs chain master_fp supports_external (psbt_xpub psbt) 0 (psbt_inputs psbt) passes);
  outputs ← liftS (mapR (prepare_output chain master_fp (psbt_xpub psbt)) (psbt_outputs psbt));
  prevtxs ← liftS (prev_txs (psbt_inputs psbt) []);
  version ← liftS (of_option AssertionError (psbt_tx_version psbt));
  lock_time ← liftS (compute_lock_time psbt);
  '(sigs, _) ← sign inputs outputs prevtxs [("version", VInt version); ("lock_time", VInt lock_time); ("serialize", VBool false)];
  ins ← liftS (store_signatures master_fp to_ignore 0 (psbt_inputs psbt) sigs);
  mret (set_inputs ins psbt, passes).

Fixpoint sign_passes (fuel : nat) (psbt : PSBT) (p passes : Z) : state S PSBT :=
  if p <? passes then
    match fuel with
    | O => raise OutOfFuel
    | Datatypes.S fuel =>
        '(psbt, passes) ← sign_pass psbt passes;
        sign_passes fuel psbt (p + 1) passes
    end
  else mret psbt.

(** There are at most as many passes as an input has keys. *)
Definition max_passes (psbt : PSBT) : nat :=
  foldr (λ i n, Nat.max (Nat.max (length (in_hd_keypaths i)) 1) n) 1%nat (psbt_inputs psbt).
End passes.
End multisig.

(** ** Every key of ours signs *)

Section signing.
Context `{Hashes} {S : Type}.
Context (sign : list value → list value → pydict bytes value → list (string * value) → state S (list value * bytes)).
Context (chain : Chain) (master_fp : bytes) (supports_external : result bool) (xpubs : pydict bytes KeyOriginInfo).

(** How many keys of ours have not signed an input. *)
Definition unsigned_count (i : PsbtIn) : Z :=
  len (filter (λ kp : bytes * KeyOriginInfo, fingerprint kp.2 = master_fp ∧ dict_in kp.1 (in_partial_sigs i) = false) (in_hd_keypaths i)).

Abbreviation own kp := (fingerprint (snd kp) = master_fp).
Abbreviation search sigs s l := (foldl (search_key master_fp sigs) s l).

Lemma search_found sigs l s : found_path (search sigs s l) = match found_path s with
  | Some p => Some p
  | None => (λ kp, path kp.2) <$> List.find (λ '(key, origin), bool_decide (fingerprint origin = master_fp) && negb (dict_in key sigs)) l
  end.
Proof using.
  revert s. induction l as [|[key o] l IH]; intros s; simpl; [by destruct (found_path s)|]. rewrite IH. unfold search_key.
  case_bool_decide; [|done]. destruct (dict_in key sigs); simpl; [done|]. by destruct (found_path s).
Qed.

Lemma search_count sigs l s : our_keys (search sigs s l) =
  our_keys s + len (filter (λ kp : bytes * KeyOriginInfo, own kp ∧ dict_in kp.1 sigs = false) l).
Proof using.
  revert s. induction l as [|[key o] l IH]; intros s; [unfold len; simpl; lia|]. rewrite filter_cons. simpl foldl. rewrite IH. unfold search_key.
  case_bool_decide as Hfp; [destruct (dict_in key sigs) eqn:Ed|]; simpl.
  - rewrite decide_False; [done|]. simpl. intros [_ H']. by rewrite Ed in H'.
  - rewrite decide_True by done. rewrite len_cons. lia.
  - rewrite decide_False; [done|]. by intros [H' _].
Qed.

(** A key of ours that has signed is noticed, and the path of the last key of
    ours is kept. *)
Lemma search_signed sigs l s : found_in_sigs s = true ∨ Exists (λ kp : bytes * KeyOriginInfo, own kp ∧ dict_in kp.1 sigs = true) l →
  found_in_sigs (search sigs s l) = true.
Proof using.
  revert s. induction l as [|[key o] l IH]; intros s Hs; simpl.
  - destruct Hs as [|Hs]; [done|by inversion Hs].
  - apply IH. unfold search_key. destruct Hs as [Hs|Hs].
    + left. case_bool_decide; [by destruct (dict_in key sigs)|done].
    + apply Exists_cons in Hs as [[Ho Hd]|Hs]; [|by right]. left. simpl in Ho, Hd. by rewrite bool_decide_true, Hd.
Qed.

Lemma search_last sigs l s : path_last_ours s ≠ None ∨ Exists (λ kp : bytes * KeyOriginInfo, own kp) l → path_last_ours (search sigs s l) ≠ None.
Proof using.
  revert s. induction l as [|[key o] l IH]; intros s Hs; simpl.
  - destruct Hs as [|Hs]; [done|by inversion Hs].
  - apply IH. unfold search_key. destruct Hs as [Hs|Hs].
    + left. case_bool_decide; [by destruct (dict_in key sigs)|done].
    + apply Exists_cons in Hs as [Ho|Hs]; [|by right]. left. simpl in Ho. rewrite bool_decide_true by done. by destruct (dict_in key sigs).
Qed.

(** An input with keys of ours, of a kind that is signed with ECDSA. *)
Definition signable (i : PsbtIn) : Prop :=
  (∃ txin st, prepare_stage chain supports_external xpubs i = Ok (ToSign txin st) ∧ st ∈ ECDSA_SCRIPT_TYPES) ∧
  Exists (λ kp : bytes * KeyOriginInfo, own kp) (in_hd_keypaths i) ∧ dict_wf (in_hd_keypaths i) ∧ in_tap_internal_key i = [].

(** What is known of the input, and the message it is sent as: with the path of
    the first key of ours that has not signed, or of the last one of ours. *)
Definition stage_txin (i : PsbtIn) : value :=
  match prepare_stage chain supports_external xpubs i with Ok (ToSign txin _) => txin | _ => VNone end.
Definition signing_path (i : PsbtIn) : list Z :=
  default (default [] (path_last_ours (search_ecdsa master_fp i))) (found_path (search_ecdsa master_fp i)).
Definition sent (i : PsbtIn) : value := setattr (stage_txin i) "address_n" (path_value (signing_path i)).

Lemma unsigned_key_count i : match unsigned_key master_fp i with Some _ => 0 < unsigned_count i | None => unsigned_count i = 0 end.
Proof using.
  unfold unsigned_key, unsigned_count. induction (in_hd_keypaths i) as [|[key o] l IH]; [done|]. rewrite filter_cons. simpl.
  case_bool_decide as Hfp; simpl; [destruct (dict_in key (in_partial_sigs i)) eqn:Ed; simpl|].
  - rewrite decide_False; [done|]. simpl. intros [_ H']. congruence.
  - rewrite decide_True by done. rewrite len_cons. pose proof (len_nonneg (filter (λ kp : bytes * KeyOriginInfo, own kp ∧ dict_in kp.1 (in_partial_sigs i) = false) l)). lia.
  - rewrite decide_False; [done|]. by intros [H' _].
Qed.

Lemma prepare_signable i : signable i → prepare_input chain master_fp supports_external xpubs i =
  Ok (UseInput (sent i) (if unsigned_key master_fp i is Some _ then false else true) (unsigned_count i)).
Proof using.
  intros ((txin & st & Hst & Hin) & Hown & _ & _). unfold prepare_input, sent, stage_txin. rewrite Hst. simpl.
  unfold choose_key, search_keys. rewrite bool_decide_true by done.
  unfold signing_path. set (s := search_ecdsa master_fp i).
  assert (our_keys s = unsigned_count i) as -> by (unfold s, search_ecdsa; by rewrite search_count).
  assert (found_path s = (λ kp, path kp.2) <$> unsigned_key master_fp i) as Hf by (unfold s, search_ecdsa; by rewrite search_found).
  rewrite Hf. destruct (unsigned_key master_fp i) as [[key o]|] eqn:Eu; [done|]. simpl.
  assert (path_last_ours s ≠ None) as Hl by (unfold s, search_ecdsa; apply search_last; by right).
  assert (found_in_sigs s = true) as ->.
  { unfold s, search_ecdsa. apply search_signed. right. apply Exists_exists in Hown as (kp & Hkp & Ho). apply Exists_exists.
    exists kp. split_and!; [done|done|]. apply not_false_iff_true. intros Hd.
    unfold unsigned_key in Eu. apply list_elem_of_In in Hkp. pose proof (List.find_none _ _ Eu kp Hkp) as Hn. destruct kp as [key o].
    simpl in *. by rewrite bool_decide_true, Hd in Hn. }
  simpl. by destruct (path_last_ours s).
Qed.

(** ** One pass *)

(** A device: what it signs for an input with a path, and no transaction. *)
Context (sg : value → bytes).

Definition step (i : PsbtIn) : PsbtIn :=
  match unsigned_key master_fp i with
  | Some (key, _) => set_partial_sigs (dict_set key (sg (sent i) ++ [chr 1]) (in_partial_sigs i)) i
  | None => i
  end.

Lemma unsigned_key_Some i key o : unsigned_key master_fp i = Some (key, o) →
  (key, o) ∈ in_hd_keypaths i ∧ fingerprint o = master_fp ∧ dict_in key (in_partial_sigs i) = false ∧ signing_path i = path o.
Proof using.
  intros Hu. assert (found_path (search_ecdsa master_fp i) = Some (path o)) as Hf.
  { unfold search_ecdsa. rewrite search_found. cbn [found_path]. unfold unsigned_key in Hu. by rewrite Hu. }
  apply List.find_some in Hu as [Hin Hb]. apply list_elem_of_In in Hin. bools. unfold signing_path. rewrite Hf. by split_and!.
Qed.

Lemma dict_in_after_set k key v (d : pydict bytes bytes) : dict_in k (dict_set key v d) = bool_decide (k = key) || dict_in k d.
Proof using. unfold dict_in. rewrite dict_get_set. case_decide; [by rewrite bool_decide_true | by rewrite bool_decide_false]. Qed.

Lemma filter_same {A} (P Q : A → Prop) `{∀ x, Decision (P x)} `{∀ x, Decision (Q x)} l :
  Forall (λ x, P x ↔ Q x) l → filter P l = filter Q l.
Proof using.
  induction 1 as [|x l Hx _ IH]; [done|]. rewrite !filter_cons, IH. destruct (decide (P x)) as [Hp|Hp], (decide (Q x)) as [Hq|Hq]; tauto.
Qed.

Lemma count_step (l : pydict bytes KeyOriginInfo) (sigs : pydict bytes bytes) key o v : NoDup l.*1 →
  List.find (λ '(key, origin), bool_decide (fingerprint origin = master_fp) && negb (dict_in key sigs)) l = Some (key, o) →
  len (filter (λ kp : bytes * KeyOriginInfo, own kp ∧ dict_in kp.1 (dict_set key v sigs) = false) l) =
  len (filter (λ kp : bytes * KeyOriginInfo, own kp ∧ dict_in kp.1 sigs = false) l) - 1.
Proof using.
  intros Hnd. induction l as [|[k0 o0] l IH]; [done|]. simpl in Hnd. apply NoDup_cons in Hnd as [Hnin Hnd]. rewrite !filter_cons. simpl.
  case_bool_decide as Hfp; simpl; [destruct (dict_in k0 sigs) eqn:Ed; simpl|].
  - intros Hf. rewrite !decide_False by (rewrite ?dict_in_after_set, ?Ed, ?orb_true_r; by intros [_ ?]). by apply IH.
  - intros [= -> ->]. rewrite decide_False by (rewrite dict_in_after_set, bool_decide_true by done; by intros [_ ?]).
    rewrite decide_True by done. rewrite len_cons.
    assert (filter (λ kp : bytes * KeyOriginInfo, own kp ∧ dict_in kp.1 (dict_set key v sigs) = false) l =
            filter (λ kp : bytes * KeyOriginInfo, own kp ∧ dict_in kp.1 sigs = false) l) as ->; [|lia].
    apply filter_same. apply Forall_forall. intros [k1 o1] Hin. simpl. rewrite dict_in_after_set, bool_decide_false; [done|].
    intros ->. apply Hnin. by apply (list_elem_of_fmap_2 fst) in Hin.
  - intros Hf. rewrite !decide_False by (by intros [? _]). by apply IH.
Qed.

Lemma step_count i : dict_wf (in_hd_keypaths i) → unsigned_count (step i) = Z.max 0 (unsigned_count i - 1).
Proof using.
  intros Hwf. pose proof (unsigned_key_count i) as Hu. unfold step. destruct (unsigned_key master_fp i) as [[key o]|] eqn:E; [|lia].
  unfold unsigned_count in *. simpl. rewrite (count_step _ _ key o) by done. lia.
Qed.

Lemma step_fields i : in_hd_keypaths (step i) = in_hd_keypaths i ∧ in_tap_internal_key (step i) = in_tap_internal_key i ∧
  prepare_stage chain supports_external xpubs (step i) = prepare_stage chain supports_external xpubs i ∧
  in_non_witness_utxo (step i) = in_non_witness_utxo i ∧
  in_time_locktime (step i) = in_time_locktime i ∧ in_height_locktime (step i) = in_height_locktime i.
Proof using. unfold step. by destruct (unsigned_key _ _) as [[key o]|]. Qed.

Lemma signable_wf i : signable i → dict_wf (in_hd_keypaths i).
Proof using. by intros (_ & _ & Hwf & _). Qed.

Lemma step_signable i : signable i → signable (step i).
Proof using. destruct (step_fields i) as (Hh & Ht & Hp & _). unfold signable. by rewrite Hh, Ht, Hp. Qed.

Lemma prepare_all n l passes : Forall signable l → ∃ ign,
  prepare_inputs chain master_fp supports_external xpubs n l passes =
    Ok (map sent l, ign, foldl (λ p i, Z.max p (unsigned_count i)) passes l) ∧
  Forall (λ x, n <= x)%nat ign ∧ ∀ k i, l !! k = Some i → (n + k)%nat ∈ ign ↔ unsigned_key master_fp i = None.
Proof using.
  intros Hl. revert n passes. induction Hl as [|i l Hi Hl IH]; intros n passes.
  - exists []. split_and!; [done|constructor|done].
  - simpl. rewrite (prepare_signable i Hi). simpl.
    replace (if passes <? unsigned_count i then unsigned_count i else passes) with (Z.max passes (unsigned_count i))
      by (destruct (_ <? _) eqn:E; bools; lia).
    destruct (IH (Datatypes.S n) (Z.max passes (unsigned_count i))) as (ign & -> & Hge & Hign).
    assert (n ∉ ign) as Hn by (intros Hin; rewrite Forall_forall in Hge; apply Hge in Hin; lia).
    assert (Forall (λ x, n <= x)%nat ign) as Hge' by (eapply Forall_impl; [exact Hge|simpl; lia]).
    eexists. split; [reflexivity|]. destruct (unsigned_key master_fp i) as [[key o]|] eqn:Eu; simpl; (split; [by try constructor|]);
      intros [|k] j Hj; simpl in Hj.
    + injection Hj as <-. rewrite Nat.add_0_r. by rewrite Eu.
    + rewrite <- (Hign k j Hj). by replace (n + Datatypes.S k)%nat with (Datatypes.S n + k)%nat by lia.
    + injection Hj as <-. rewrite Nat.add_0_r, Eu. split; [done|]. intros _. left.
    + rewrite <- (Hign k j Hj). replace (n + Datatypes.S k)%nat with (Datatypes.S n + k)%nat by lia.
      rewrite elem_of_cons. split; [intros [?|?]; [lia|done]|by right].
Qed.

Lemma store_all ign n l : Forall signable l → (∀ k i, l !! k = Some i → (n + k)%nat ∈ ign ↔ unsigned_key master_fp i = None) →
  store_signatures master_fp ign n l (map (λ t, VBytes (sg t)) (map sent l)) = Ok (map step l).
Proof using.
  intros Hl. revert n. induction Hl as [|i l Hi Hl IH]; intros n Hign; [done|]. simpl.
  assert ((if bool_decide (n ∈ ign) then Ok i else store_signature master_fp i (VBytes (sg (sent i)))) = Ok (step i)) as ->.
  { pose proof (Hign 0%nat i eq_refl) as H0. rewrite Nat.add_0_r in H0. unfold step, store_signature.
    destruct (unsigned_key master_fp i) as [[key o]|] eqn:Eu.
    - rewrite bool_decide_false by (by intros Hin%H0). simpl. destruct Hi as (_ & _ & _ & Ht). by rewrite Ht.
    - by rewrite bool_decide_true by (by apply H0). }
  simpl. rewrite IH; [done|]. intros k j Hj. rewrite <- (Hign (Datatypes.S k) j Hj).
  by replace (n + Datatypes.S k)%nat with (Datatypes.S n + k)%nat by lia.
Qed.

(** ** All passes *)

(** What the signatures of an input are at the end: the ones it had, and for
    every key of ours the device's signature with the path of that key. *)
Definition expected (i : PsbtIn) (key : bytes) : option bytes :=
  match dict_get key (in_partial_sigs i) with
  | Some s => Some s
  | None =>
      match dict_get key (in_hd_keypaths i) with
      | Some o =>
          if bool_decide (fingerprint o = master_fp) then
            Some (sg (setattr (stage_txin i) "address_n" (path_value (path o))) ++ [chr 1])
          else None
      | None => None
      end
  end.

(** An input on the way there. *)
Record on_the_way (i0 i : PsbtIn) : Prop := {
  ow_paths : in_hd_keypaths i = in_hd_keypaths i0;
  ow_txin : stage_txin i = stage_txin i0;
  ow_kept : ∀ key s, dict_get key (in_partial_sigs i0) = Some s → dict_get key (in_partial_sigs i) = Some s;
  ow_sigs : ∀ key, dict_get key (in_partial_sigs i) = expected i0 key ∨ dict_get key (in_partial_sigs i) = None }.

Lemma dict_in_None k (d : pydict bytes bytes) : dict_in k d = false → dict_get k d = None.
Proof using. unfold dict_in. by destruct (dict_get k d). Qed.

Lemma on_the_way_refl i : on_the_way i i.
Proof using.
  split; [done..|]. intros key. unfold expected. destruct (dict_get key (in_partial_sigs i)); [by left|by right].
Qed.

Lemma on_the_way_step i0 i : dict_wf (in_hd_keypaths i) → on_the_way i0 i → on_the_way i0 (step i).
Proof using.
  intros Hwf [Hp Ht Hk Hs]. destruct (step_fields i) as (Hh & _ & Hst & _). split.
  - by rewrite Hh.
  - unfold stage_txin in *. by rewrite Hst.
  - intros key s Hkey. specialize (Hk key s Hkey). unfold step. destruct (unsigned_key master_fp i) as [[k o]|] eqn:Eu; [|done].
    apply unsigned_key_Some in Eu as (_ & _ & Hd & _). simpl. rewrite dict_get_set. case_decide as Hkk; [|done].
    subst k. apply dict_in_None in Hd. by rewrite Hd in Hk.
  - intros key. unfold step. destruct (unsigned_key master_fp i) as [[k o]|] eqn:Eu; [|apply Hs].
    apply unsigned_key_Some in Eu as (Hin & Ho & Hd & Hpath). simpl. rewrite dict_get_set. case_decide as Hkk; [|apply Hs].
    subst k. left. unfold expected. apply dict_in_None in Hd.
    destruct (dict_get key (in_partial_sigs i0)) as [s|] eqn:E0; [by rewrite (Hk key s E0) in Hd|].
    rewrite <- Hp, (elem_dict_get _ _ _ Hwf Hin), bool_decide_true by done. unfold sent. by rewrite Hpath, Ht.
Qed.

Lemma on_the_way_end i0 i : dict_wf (in_hd_keypaths i) → on_the_way i0 i → unsigned_count i = 0 →
  ∀ key, dict_get key (in_partial_sigs i) = expected i0 key.
Proof using.
  intros Hwf [Hp _ Hk Hs] Hu key. destruct (Hs key) as [|Hn]; [done|]. rewrite Hn. unfold expected.
  destruct (dict_get key (in_partial_sigs i0)) as [s|] eqn:E0; [by rewrite (Hk key s E0) in Hn|]. rewrite <- Hp.
  destruct (dict_get key (in_hd_keypaths i)) as [o|] eqn:Eo; [|done]. case_bool_decide as Ho; [|done]. exfalso.
  apply len_nil_inv in Hu. apply dict_get_Some_elem in Eo.
  assert ((key, o) ∈ filter (λ kp : bytes * KeyOriginInfo, own kp ∧ dict_in kp.1 (in_partial_sigs i) = false) (in_hd_keypaths i)) as Hin.
  { apply list_elem_of_filter. simpl. unfold dict_in. by rewrite Hn. }
  rewrite Hu in Hin. by inversion Hin.
Qed.

Lemma foldl_max_bound l p : p <= foldl (λ p i, Z.max p (unsigned_count i)) p l ∧
  Forall (λ i, unsigned_count i <= foldl (λ p i, Z.max p (unsigned_count i)) p l) l ∧
  ∀ b, p <= b → Forall (λ i, unsigned_count i <= b) l → foldl (λ p i, Z.max p (unsigned_count i)) p l <= b.
Proof using.
  revert p. induction l as [|i l IH]; intros p; simpl; [split_and!; [lia|constructor|done]|].
  destruct (IH (Z.max p (unsigned_count i))) as (H1 & H2 & H3). split_and!; [lia| |].
  - constructor; [lia|done].
  - intros b Hp Hl. apply Forall_cons in Hl as [Hi Hl]. apply H3; [lia|done].
Qed.

Lemma lock_fold_steps acc l : lock_fold acc (map step l) = lock_fold acc l.
Proof using.
  revert acc. induction l as [|i l IH]; intros acc; [done|]. simpl. destruct (step_fields i) as (_ & _ & _ & _ & Ht & Hh).
  assert (lock_step acc (step i) = lock_step acc i) as -> by (unfold lock_step; by rewrite Ht, Hh).
  destruct (lock_step acc i); [apply IH|done].
Qed.

Lemma prev_txs_steps l d : prev_txs (map step l) d = prev_txs l d.
Proof using.
  revert d. induction l as [|i l IH]; intros d; [done|]. simpl. destruct (step_fields i) as (_ & _ & _ & Hn & _). rewrite Hn.
  destruct (in_non_witness_utxo i) as [t|]; [|apply IH]. destruct (prev_tx t) as [[k v]|]; [apply IH|done].
Qed.

Hypothesis device_signs : ∀ inputs outputs prevs kwargs s, ∃ ser s',
  sign inputs outputs prevs kwargs s = (Ok (map (λ t, VBytes (sg t)) inputs, ser), s').

(** What the transaction must allow besides its inputs. *)
Definition sendable (psbt : PSBT) : Prop :=
  psbt_xpub psbt = xpubs ∧ Forall signable (psbt_inputs psbt) ∧
  is_ok (mapR (prepare_output chain master_fp xpubs) (psbt_outputs psbt)) = true ∧
  is_ok (prev_txs (psbt_inputs psbt) []) = true ∧ psbt_tx_version psbt ≠ None ∧ is_ok (compute_lock_time psbt) = true.

Lemma sendable_step psbt : sendable psbt → sendable (set_inputs (map step (psbt_inputs psbt)) psbt).
Proof using.
  intros (Hx & Hs & Ho & Hp & Hv & Hl). split_and!; simpl; try done.
  - apply Forall_fmap. eapply Forall_impl; [exact Hs|]. intros i. apply step_signable.
  - by rewrite prev_txs_steps.
  - unfold compute_lock_time. simpl. by rewrite lock_fold_steps.
Qed.

Lemma sign_pass_ok psbt passes s : sendable psbt → ∃ s', sign_pass sign chain master_fp supports_external psbt passes s =
  (Ok (set_inputs (map step (psbt_inputs psbt)) psbt, foldl (λ p i, Z.max p (unsigned_count i)) passes (psbt_inputs psbt)), s').
Proof using All.
  intros (Hx & Hs & Ho & Hp & Hv & Hl). unfold sign_pass. rewrite Hx.
  destruct (prepare_all 0 _ passes Hs) as (ign & -> & _ & Hign).
  destruct (mapR _ _) as [outs|]; [|done]. destruct (prev_txs _ _) as [prevs|]; [|done].
  destruct (psbt_tx_version psbt) as [v|]; [|done]. destruct (compute_lock_time psbt) as [lt|]; [|done].
  destruct (device_signs (map sent (psbt_inputs psbt)) outs prevs [("version", VInt v); ("lock_time", VInt lt); ("serialize", VBool false)] s)
    as (ser & s' & Hd).
  exists s'. unfold mbind, state_bind, liftS. cbn [of_option]. rewrite Hd. cbv beta iota zeta. by rewrite (store_all ign 0 _ Hs Hign).
Qed.

Lemma sign_passes_ok l0 fuel psbt p passes s : sendable psbt → Forall2 on_the_way l0 (psbt_inputs psbt) →
  1 <= passes → 0 <= p <= passes → p = 0 ∨ Forall (λ i, unsigned_count i <= passes - p) (psbt_inputs psbt) →
  passes <= Z.of_nat fuel + p → Forall (λ i, unsigned_count i <= Z.of_nat fuel) (psbt_inputs psbt) →
  ∃ psbt' s', sign_passes sign chain master_fp supports_external fuel psbt p passes s = (Ok psbt', s') ∧
    Forall2 (λ i0 i, ∀ key, dict_get key (in_partial_sigs i) = expected i0 key) l0 (psbt_inputs psbt').
Proof using All.
  revert psbt p passes s. induction fuel as [|fuel IH]; intros psbt p passes s Hs How H1 Hp Hcnt Hfuel Hmax.
  all: pose proof Hs as (_ & Hsig & _).
  all: assert (passes <= p → Forall2 (λ i0 i, ∀ key, dict_get key (in_partial_sigs i) = expected i0 key) l0 (psbt_inputs psbt)) as Hend.
  1, 3: intros Hle; assert (p = passes) as -> by lia; destruct Hcnt as [->|Hcnt]; [lia|]; rewrite Z.sub_diag in Hcnt;
    clear -How Hsig Hcnt; induction How as [|i0 i l0 l Hi How IHl]; inversion Hsig; inversion Hcnt; subst; constructor; [|by apply IHl];
    apply on_the_way_end; [by apply signable_wf | done |]; pose proof (unsigned_key_count i); destruct (unsigned_key master_fp i); lia.
  all: simpl; destruct (p <? passes) eqn:E; bools; [|exists psbt, s; split; [done|by apply Hend]].
  - lia.
  - destruct (sign_pass_ok psbt passes s Hs) as [s' Hpass]. rewrite (state_bind_eval _ _ _ _ _ Hpass). cbv beta iota zeta.
    destruct (foldl_max_bound (psbt_inputs psbt) passes) as (Hge & Hall & Hleast).
    set (passes' := foldl (λ p i, Z.max p (unsigned_count i)) passes (psbt_inputs psbt)) in *.
    assert (passes' <= Z.of_nat (Datatypes.S fuel) + p) as Hp'.
    { apply Hleast; [done|]. eapply Forall_impl; [exact Hmax|]. simpl. intros i. lia. }
    apply IH; simpl.
    + by apply sendable_step.
    + clear -How Hsig. induction How as [|i0 i l0 l Hi How IHl]; inversion Hsig; subst; constructor; [|by apply IHl].
      apply on_the_way_step; [by apply signable_wf|done].
    + lia.
    + lia.
    + right. apply Forall_fmap. assert (Forall (λ i, unsigned_count i <= passes' - p) (psbt_inputs psbt)) as Hb.
      { destruct Hcnt as [->|Hcnt]; [eapply Forall_impl; [exact Hall|]; simpl; intros i; lia|].
        eapply Forall_impl; [exact Hcnt|]. simpl. intros i. lia. }
      eapply Forall_impl; [exact (proj2 (Forall_and _ _) (conj Hb Hsig))|]. intros i [Hi Hw]. simpl in *.
      rewrite step_count by (by apply signable_wf). lia.
    + lia.
    + apply Forall_fmap. eapply Forall_impl; [exact (proj2 (Forall_and _ _) (conj Hmax Hsig))|]. intros i [Hi Hw]. simpl in *.
      rewrite step_count by (by apply signable_wf). lia.
Qed.
Lemma max_passes_enough psbt : (1 <= max_passes psbt)%nat ∧ Forall (λ i, unsigned_count i <= Z.of_nat (max_passes psbt)) (psbt_inputs psbt).
Proof using.
  unfold max_passes. induction (psbt_inputs psbt) as [|i l [IH1 IH2]]; simpl; [split; [lia|constructor]|]. split; [lia|]. constructor.
  - unfold unsigned_count, len. pose proof (length_filter (λ kp : bytes * KeyOriginInfo, own kp ∧ dict_in kp.1 (in_partial_sigs i) = false) (in_hd_keypaths i)). lia.
  - eapply Forall_impl; [exact IH2|]. simpl. intros j. lia.
Qed.

(** C8: The signing rounds of [sign_tx], when every input is of a kind the Trezor
    signs with ECDSA, has keys of ours and can be sent, so that none is left out of the
    request, and the device signs every input it is sent: they end after at most as many
    rounds as an input has keys, and the signatures of every input are then the ones
    it had and, for every other key of ours, the device's signature of the input
    with the path of that key, followed by the byte of SIGHASH_ALL.  (With an input
    that is left out the signatures go to the wrong inputs: [left_out_shifts].) *)
Theorem trezor_signs_all_keys psbt s (Hs : sendable psbt) :
  ∃ psbt' s', sign_passes sign chain master_fp supports_external (max_passes psbt) psbt 0 1 s = (Ok psbt', s') ∧
    Forall2 (λ i0 i, ∀ key, dict_get key (in_partial_sigs i) = expected i0 key) (psbt_inputs psbt) (psbt_inputs psbt').
Proof using All.
  destruct (max_passes_enough psbt) as [H1 Hmax].
  apply sign_passes_ok; [done | | lia | lia | by left | lia | done].
  clear. induction (psbt_inputs psbt); constructor; auto using on_the_way_refl.
Qed.
End signing.

(** ** The number of passes *)

Section termination.
Context `{Hashes} {S : Type}.
Context (sign : list value → list value → pydict bytes value → list (string * value) → state S (list value * bytes)).
Context (chain : Chain) (master_fp : bytes) (supports_external : result bool).

(** The keys of an input that can be counted. *)
Definition key_bound (i : PsbtIn) : nat := Nat.max (length (in_hd_keypaths i)) 1.

Lemma choose_key_bound xin st i x ign n : choose_key chain master_fp supports_external xin st i = Ok (UseInput x ign n) →
  n <= Z.of_nat (key_bound i).
Proof using.
  assert (∀ r, external_input chain supports_external xin = Ok r → r = UseInput x ign n → n <= Z.of_nat (key_bound i)) as Hext.
  { unfold external_input. intros r ([|] & _ & E)%bind_ok; [|done]. injection E as <-. intros [= _ _ <-]. lia. }
  assert (our_keys (search_keys master_fp st i) <= Z.of_nat (key_bound i)) as Hk.
  { unfold search_keys, key_bound. case_bool_decide; [|case_bool_decide; simpl; [|lia]].
    - unfold search_ecdsa. rewrite search_count. simpl. unfold len.
      pose proof (length_filter (λ kp : bytes * KeyOriginInfo, fingerprint kp.2 = master_fp ∧ dict_in kp.1 (in_partial_sigs i) = false) (in_hd_keypaths i)). lia.
    - unfold search_taproot. destruct (List.find _ _) as [[k [l o]]|]; simpl; lia. }
  unfold choose_key. destruct (found_path _); [by intros [= _ _ <-]|]. destruct (negb _); [intros E; by apply (Hext _ E)|].
  destruct (path_last_ours _); simpl; [|done]. by intros [= _ _ <-].
Qed.

Lemma prepare_input_bound xpubs i x ign n : prepare_input chain master_fp supports_external xpubs i = Ok (UseInput x ign n) →
  n <= Z.of_nat (key_bound i).
Proof using.
  unfold prepare_input. intros (st & Hst & E)%bind_ok. destruct st as [p|txin st]; [|by eapply choose_key_bound].
  injection E as ->. unfold prepare_stage in Hst.
  assert (∀ txin, settled (external_input chain supports_external txin) = Ok (Settled (UseInput x ign n)) → n <= Z.of_nat (key_bound i)) as Hext.
  { intros txin (p & ([|] & _ & Hp)%bind_ok & [= ->])%bind_ok; [injection Hp as _ _ <-; lia|done]. }
  apply bind_ok in Hst as (po & _ & Hst). apply bind_ok in Hst as (sq & _ & Hst). apply bind_ok in Hst as (t & _ & Hst).
  apply bind_ok in Hst as ([u|] & _ & Hst); [|done]. destruct (_ && _); [done|]. destruct (witness_type _ _) as [w st].
  cbv zeta in Hst. destruct (_ && _); [done|]. apply bind_ok in Hst as ([m|] & _ & Hst).
  - destruct w; [done|]. destruct (is_p2sh _); [done|]. by eapply Hext.
  - destruct (_ && _); [by eapply Hext|]. destruct (_ && _); [by eapply Hext|done].
Qed.

Lemma prepare_inputs_bound xpubs n l passes ins ign passes' : prepare_inputs chain master_fp supports_external xpubs n l passes = Ok (ins, ign, passes') →
  passes <= passes' ∧ ∀ b, passes <= b → Forall (λ i, Z.of_nat (key_bound i) <= b) l → passes' <= b.
Proof using.
  revert n passes ins ign passes'. induction l as [|i l IH]; intros n passes ins ign passes' E; simpl in E.
  - injection E as _ _ <-. split; [lia|]. intros b Hb _. lia.
  - apply bind_ok in E as (p & Hp & E). destruct p as [|x ig k].
    + destruct (IH _ _ _ _ _ E) as [H1 H2]. split; [done|]. intros b Hb Hl. apply H2; [done|]. by inversion Hl.
    + apply bind_ok in E as ([[ins1 ign1] p1] & E1 & [= _ _ <-]). destruct (IH _ _ _ _ _ E1) as [H1 H2].
      apply prepare_input_bound in Hp. split; [destruct (passes <? k) eqn:Ek; bools; lia|].
      intros b Hb Hl. apply Forall_cons in Hl as [Hi Hl]. apply H2; [destruct (_ <? _); lia|done].
Qed.

Lemma store_signature_paths i sig i' : store_signature master_fp i sig = Ok i' → in_hd_keypaths i' = in_hd_keypaths i.
Proof using.
  unfold store_signature. intros (j & Hj & E)%bind_ok.
  assert (in_hd_keypaths j = in_hd_keypaths i) as <-.
  { destruct (unsigned_key _ _) as [[k o]|]; [apply bind_ok in Hj as (b & _ & [= <-])|injection Hj as <-]; done. }
  destruct (_ && _); [apply bind_ok in E as (b & _ & [= <-])|injection E as <-]; done.
Qed.

Lemma store_signatures_paths ign n l sigs l' : store_signatures master_fp ign n l sigs = Ok l' → map in_hd_keypaths l' = map in_hd_keypaths l.
Proof using.
  revert n sigs l'. induction l as [|i l IH]; intros n sigs l' E; simpl in E; [by injection E as <-|].
  destruct sigs as [|sig sigs]; [by injection E as <-|]. apply bind_ok in E as (j & Hj & E). apply bind_ok in E as (l1 & Hl & [= <-]).
  simpl. f_equal; [|by eapply IH]. case_bool_decide; [by injection Hj as ->|by eapply store_signature_paths].
Qed.

Lemma max_passes_bound psbt : Forall (λ i, Z.of_nat (key_bound i) <= Z.of_nat (max_passes psbt)) (psbt_inputs psbt).
Proof using.
  unfold max_passes. induction (psbt_inputs psbt) as [|i l IH]; simpl; constructor; [unfold key_bound; lia|].
  eapply Forall_impl; [exact IH|]. simpl. lia.
Qed.

Lemma bounds_paths l l' b : map in_hd_keypaths l' = map in_hd_keypaths l →
  Forall (λ i, Z.of_nat (key_bound i) <= b) l → Forall (λ i, Z.of_nat (key_bound i) <= b) l'.
Proof using.
  revert l'. induction l as [|i l IH]; intros [|i' l'] E Hl; simplify_eq/=; [constructor|]. apply Forall_cons in Hl as [Hi Hl].
  constructor; [unfold key_bound in *; congruence|]. by apply IH.
Qed.

Lemma sign_passes_more fuel k psbt p passes s : passes <= Z.of_nat fuel + p →
  Forall (λ i, Z.of_nat (key_bound i) <= Z.of_nat fuel + p) (psbt_inputs psbt) →
  sign_passes sign chain master_fp supports_external (fuel + k) psbt p passes s = sign_passes sign chain master_fp supports_external fuel psbt p passes s.
Proof using.
  revert psbt p passes s. induction fuel as [|fuel IH]; intros psbt p passes s Hp Hb.
  - simpl. assert (p <? passes = false) as E by lia. destruct k; simpl; by rewrite E.
  - simpl. destruct (p <? passes); [|done]. unfold mbind, state_bind.
    destruct (sign_pass sign chain master_fp supports_external psbt passes s) as [[[psbt' passes']|e] s'] eqn:E; [|done].
    unfold sign_pass in E. apply state_bind_ok in E as ([[ins ign] p1] & s1 & E1 & E).
    do 4 (apply state_bind_ok in E as (? & ? & _ & E)). apply state_bind_ok in E as ([sigs ser] & s3 & _ & E).
    apply state_bind_ok in E as (l' & s2 & El & [= <- <- _]).
    unfold liftS in E1, El. injection E1 as E1 _. injection El as El _.
    apply IH; simpl.
    + destruct (prepare_inputs_bound _ _ _ _ _ _ _ E1) as [_ Hle]. apply Hle; [lia|]. eapply Forall_impl; [exact Hb|]. simpl. lia.
    + eapply bounds_paths; [by eapply store_signatures_paths|]. eapply Forall_impl; [exact Hb|]. simpl. lia.
Qed.

(** The loop ends after as many rounds as [max_passes] says, whatever the
    device answers: more fuel makes no difference. *)
Lemma sign_passes_end k psbt s :
  sign_passes sign chain master_fp supports_external (max_passes psbt + k) psbt 0 1 s =
  sign_passes sign chain master_fp supports_external (max_passes psbt) psbt 0 1 s.
Proof using.
  apply sign_passes_more.
  - assert (1 <= max_passes psbt)%nat; [|lia]. unfold max_passes. induction (psbt_inputs psbt); simpl; lia.
  - eapply Forall_impl; [apply max_passes_bound|]. simpl. lia.
Qed.
End termination.

(** *** An example: two keys of ours in one input *)

Definition example_origin (n : Z) : KeyOriginInfo := {| fingerprint := map chr [1; 2; 3; 4]; path := [0x80000054; 0x80000000; 0x80000000; 0; n] |}.
Definition example_input (keys : Z) : PsbtIn :=
  set_prev_txid (replicate 32 (chr 7)) (set_prev_out (Some 1) (set_sequence (Some 0xfffffffd)
    (set_hd_keypaths (map (λ n, (chr 2 :: replicate 32 (chr n), example_origin n)) (seqZ 1 keys))
      (set_witness_utxo (Some {| nValue := 10000; scriptPubKey := witness_script 0 (replicate 20 (chr 0x11)) |}) (PsbtIn_new 0))))).
Definition example_output : PsbtOut := set_out_amount (Some 9000) (set_out_script (witness_script 0 (replicate 20 (chr 0x12))) (PsbtOut_new 0)).
Definition example_psbt (ins : list PsbtIn) : PSBT := set_inputs ins (set_outputs [example_output] (set_tx_version (Some 2) PSBT_new)).

(** It signs with the last number of the path. *)
Definition example_sg (txin : value) : bytes :=
  match getattr txin "address_n" with
  | Ok (VList l) => match last l with Some (VInt n) => [chr n] | _ => [] end
  | _ => []
  end.
Definition example_sign (inputs outputs : list value) (prevs : pydict bytes value) (kwargs : list (string * value)) : state () (list value * bytes) :=
  mret (map (λ t, VBytes (example_sg t)) inputs, []).

Lemma trezor_signs_all_keys_witness : ∃ psbt' s',
  sign_passes example_sign MAIN (map chr [1; 2; 3; 4]) (Ok true) (max_passes (example_psbt [example_input 2])) (example_psbt [example_input 2]) 0 1 () =
    (Ok psbt', s') ∧
  Forall2 (λ i0 i, ∀ key, dict_get key (in_partial_sigs i) = expected MAIN (map chr [1; 2; 3; 4]) (Ok true) [] example_sg i0 key)
    [example_input 2] (psbt_inputs psbt').
Proof.
  apply (trezor_signs_all_keys example_sign MAIN (map chr [1; 2; 3; 4]) (Ok true) [] example_sg).
  - intros. by eexists _, _.
  - split_and!; [reflexivity | | vm_compute; reflexivity | reflexivity | done | vm_compute; reflexivity].
    constructor; [|done]. split_and!; [ | by constructor | | done].
    + eexists _, _. split; [vm_compute; reflexivity|]. apply (bool_decide_unpack _). by vm_compute.
    + unfold dict_wf. apply (bool_decide_unpack _). by vm_compute.
Defined.

(** Two signatures after two rounds. *)
Example two_rounds : ∃ i, (sign_passes example_sign MAIN (map chr [1; 2; 3; 4]) (Ok true) 2 (example_psbt [example_input 2]) 0 1 ()).1 =
  Ok (example_psbt [i]) ∧ in_partial_sigs i = [(chr 2 :: replicate 32 (chr 1), [chr 1; chr 1]); (chr 2 :: replicate 32 (chr 2), [chr 2; chr 1])].
Proof. eexists. split; vm_compute; reflexivity. Qed.

(** An input without the output it spends is left out of the request, but not
    of the list the signatures are matched with: the signature of the second
    input becomes one of the first, and the second gets none. *)
Example left_out_shifts : ∃ i j,
  (sign_passes example_sign MAIN (map chr [1; 2; 3; 4]) (Ok true) 2
     (example_psbt [set_hd_keypaths [(chr 2 :: replicate 32 (chr 9), example_origin 9)] (set_witness_utxo None (example_input 1)); example_input 1]) 0 1 ()).1 =
    Ok (example_psbt [i; j]) ∧
  in_partial_sigs i = [(chr 2 :: replicate 32 (chr 9), [chr 1; chr 1])] ∧ in_partial_sigs j = [].
Proof. eexists _, _. split_and!; vm_compute; reflexivity. Qed.
