(* ===== verification/TrezorDriver.v ===== *)
(** * The methods of the Trezor and KeepKey drivers (devices/trezor.py, devices/keepkey.py)

    TrezorClient over the client object of TrezorClient.v, as the operations of
    Commands.v.  KeepkeyClient is the same class with another model and three
    methods of its own ([keepkey]).  The attributes of the driver do not change:
    the chain, the password, which is a text from the constructor on, and the
    type.  [coin_name] is computed from the chain by [_prepare_device], which
    every method that uses it calls before.  [handle] objects, the enumeration
    and the simulator are left out. *)

From S2P Require Import Prelude Bytes PyStd PyStr StateM Common Sha256 Serialize Base58 Script Tx KeyPath Key PsbtIn PsbtOut Psbt.
From S2P Require Import PubkeyProvider Descriptor RegDescriptor Commands TrezorProtobuf TrezorMessages TrezorTransport TrezorClient TrezorBtc Trezor.

#[local] Open Scope string_scope.
#[local] Open Scope list_scope.
#[local] Open Scope Z_scope.

Definition is_str (v : value) (s : pystr) : bool := match v with VStr t => bool_decide (t = s) | _ => false end.

(** A text where [None] behaves as the empty one: [not s]. *)
Definition text_of (v : value) : result pystr := match v with VStr s => Ok s | VNone => Ok [] | _ => Err TypeError end.

Definition with_version (v : bytes) (k : ExtendedKey) : ExtendedKey :=
  {| Key.version := v; depth := depth k; parent_fingerprint := parent_fingerprint k; child_num := child_num k;
     chaincode := chaincode k; privkey := privkey k; pubkey := pubkey k |}.

(** [label or None]. *)
Definition optional_text (s : pystr) : value := if bool_decide (s = []) then VNone else VStr s.

(** ** Exceptions *)

(** The exceptions that the decorator [trezor_exception] replaces. *)
Definition trezor_exn (e : pyexn) : pyexn :=
  if is_value_error e then BadArgumentError
  else match e with
       | Cancelled => ActionCanceledError
       | USBErrorNoDevice => DeviceConnectionError
       | _ => e
       end.

Definition trezor_exception {S A} (m : state S A) : state S A := λ s,
  match m s with
  | (Err e, s') => (Err (trezor_exn e), s')
  | r => r
  end.

(** [try: m except Exception: h]; running out of fuel is no exception. *)
Definition try_except {S A} (m : state S A) (h : state S A) : state S A := λ s,
  match m s with
  | (Err OutOfFuel, s') => (Err OutOfFuel, s')
  | (Err _, s') => h s'
  | r => r
  end.

Definition try_failure {S A} (m : state S A) (h : state S A) : state S A := λ s,
  match m s with
  | (Err (TrezorFailure _), s') => h s'
  | r => r
  end.

Definition PassphraseEntry : Z := member Capability "PassphraseEntry".

Section driver.
Context `{Hashes} `{HmacSha512} {D : Type} (tr : Transport D) (normalize_string normalize_nfc : pystr → pystr) (rounds : nat).
Context (chain : Chain) (password : pystr) (keepkey : bool).
(** [os.urandom(32)] and the time. *)
Context (entropy : bytes) (now : Z).

Abbreviation M := (state (client D)).
#[local] Notation call := (TrezorClient.call tr normalize_string rounds).
#[local] Notation init := (init_device tr VNone false VNone).

Definition coin_name : pystr := if bool_decide (chain = MAIN) then $"Bitcoin" else $"Testnet".

Definition _prepare_device : M () :=
  resp ← refresh_features tr;
  model ← attr resp "model";
  if is_str model $"1" || is_str model $"K1-14AM" then init;; mret ()
  else try_failure (ensure_unlocked tr normalize_string rounds) (init;; mret ()).

(** The check for a password that is [None] never fails: the constructor makes
    it a text. *)
Definition _check_unlocked : M () :=
  _prepare_device;;
  caps ← feature "capabilities";
  l ← liftS (iterate caps);
  (if existsb (λ v, is_int v PassphraseEntry) l then disallow_passphrase else mret ());;
  pin_protection ← feature "pin_protection";
  (if truthy pin_protection then
     unlocked ← feature "unlocked";
     if truthy unlocked then mret () else raise DeviceNotReadyError
   else mret ()).

Definition version_le (a b : Z * Z * Z) : bool := negb (version_lt b a).

Definition _supports_external (c : client D) : result bool :=
  f ← of_option AttributeError (features c);
  model ← getattr f "model";
  Ok (is_str model $"1" && version_le (TrezorClient.version c) (1, 10, 5) ||
      is_str model $"T" && version_le (TrezorClient.version c) (2, 4, 3) ||
      is_str model $"K1-14AM").

Definition get_node (n : list Z) (coin : pystr) : M value :=
  get_public_node tr normalize_string rounds n (VStr coin) (member InputScriptType "SPENDADDRESS").

Definition node_xpub (output : value) : result pystr := v ← getattr output "xpub"; text_of v.

Definition trezor_get_pubkey_at_path (path : pystr) : M ExtendedKey :=
  trezor_exception (
    _check_unlocked;;
    expanded_path ← liftS (parse_path path);
    output ← get_node expanded_path coin_name;
    xpub ← liftS (s ← node_xpub output; ExtendedKey_deserialize s);
    mret (if bool_decide (chain ≠ MAIN) then with_version TESTNET_PUBLIC xpub else xpub)).

(** [HardwareWalletClient.get_master_fingerprint]. *)
Definition trezor_master_fingerprint : M bytes :=
  k ← trezor_get_pubkey_at_path $"m/0h"; mret (parent_fingerprint k).

Definition trezor_sign_tx (psbt : PSBT) (registered : list RegisteredDescriptor) : M PSBT :=
  trezor_exception (
    if negb (bool_decide (length registered = 0%nat)) then raise UnavailableActionError
    else
      _check_unlocked;;
      master_key ← get_node [0x80000000] $"Bitcoin";
      master_fp ← liftS (s ← node_xpub master_key; get_xpub_fingerprint s);
      c ← get;
      sign_passes (TrezorBtc.sign_tx tr normalize_string rounds coin_name) chain master_fp (_supports_external c) (max_passes psbt) psbt 0 1).

Definition trezor_sign_message (message keypath : pystr) : M pystr :=
  trezor_exception (
    _check_unlocked;;
    path ← liftS (parse_path keypath);
    result ← TrezorBtc.sign_message tr normalize_string normalize_nfc rounds coin_name path message;
    sig ← attr result "signature";
    b ← liftS (sig_bytes sig);
    mret (b64encode b)).

Definition taproot_version : M bool :=
  trezor_exception (
    _prepare_device;;
    model ← feature "model";
    c ← get;
    mret (if is_str model $"T" then negb (version_lt (TrezorClient.version c) (2, 4, 3))
          else if is_str model $"1" then negb (version_lt (TrezorClient.version c) (1, 10, 4))
          else true)).

Definition trezor_can_sign_taproot : M bool := if keepkey then mret false else taproot_version.

(** [btc.get_address], whose result has to be a text. *)
Definition shown_address (path : list Z) (script_type : Z) (multisig : value) : M pystr :=
  address ← get_address tr normalize_string rounds coin_name path true multisig script_type;
  match address with VStr s => mret s | _ => raise AssertionError end.

Definition trezor_display_singlesig_address (keypath : pystr) (addr_type : AddressType) : M pystr :=
  trezor_exception (
    _check_unlocked;;
    script_type ← match addr_type with
                  | SH_WIT => mret (SPEND "SPENDP2SHWITNESS")
                  | WIT => mret (SPEND "SPENDWITNESS")
                  | LEGACY => mret (SPEND "SPENDADDRESS")
                  | TAP =>
                      can ← trezor_can_sign_taproot;
                      if can : bool then mret (SPEND "SPENDTAPROOT") else raise UnavailableActionError
                  end;
    expanded_path ← liftS (parse_path keypath);
    try_except (shown_address expanded_path script_type VNone) (raise BadArgumentError)).

(** The node of one key of a multisig descriptor. *)
Definition pubkey_object (x : bytes * PubkeyProvider) : result value :=
  let '(pk, p) := x in
  match pp_extkey p with
  | Some xpub => node ← HDNode xpub; path ← get_deriv_path 0 0 p; new "HDNodePathType" [("node", node); ("address_n", path_value path)]
  | None => node ← bare_node pk; new "HDNodePathType" [("node", node); ("address_n", VList [])]
  end.

Definition multisig_value (pubkeys : list PubkeyProvider) (thresh : Z) (is_sorted : bool) : result value :=
  der_pks ← mapR (λ p, pk ← get_pubkey_bytes 0 0 p; Ok (pk, p)) pubkeys;
  objs ← mapR pubkey_object (if is_sorted then sorted_pairs der_pks else der_pks);
  new "MultisigRedeemScriptType" [("m", VInt thresh); ("signatures", VList (map (λ _, VBytes []) objs)); ("pubkeys", VList objs)].

Definition multisig_script_type (t : AddressType) : result Z :=
  match t with
  | SH_WIT => Ok (SPEND "SPENDP2SHWITNESS")
  | WIT => Ok (SPEND "SPENDWITNESS")
  | LEGACY => Ok (SPEND "SPENDMULTISIG")
  | TAP => Err BadArgumentError
  end.

(** The loop over the keys: the first address the device shows. *)
Fixpoint first_address (script_type : Z) (multisig : value) (l : list PubkeyProvider) : M pystr :=
  match l with
  | [] => raise BadArgumentError
  | p :: l =>
      path ← liftS (keypath ← get_full_derivation_path 0 0 p; parse_path keypath);
      try_except (shown_address path script_type multisig) (first_address script_type multisig l)
  end.

(** The descriptor is the [MultisigDescriptor] inside of [sh] and [wsh]; of the
    others there is no attribute [thresh]. *)
Definition trezor_display_multisig_address (addr_type : AddressType) (multisig : Descriptor) : M pystr :=
  trezor_exception (
    _check_unlocked;;
    match multisig with
    | MultisigDescriptor pubkeys thresh is_sorted =>
        trezor_ms ← liftS (multisig_value pubkeys thresh is_sorted);
        script_type ← liftS (multisig_script_type addr_type);
        first_address script_type trezor_ms pubkeys
    | _ => raise AttributeError
    end).

(** [ui.get_pin] becomes [interactive_get_pin]. *)
Definition ask_for_pin : M () :=
  c ← get;
  let u := ui c in
  set_ui (mkUI (ui_passphrase u) (prompt_shown u) (always_prompt u) (return_passphrase u) true (typed_lines u)).

Definition trezor_setup_device (label passphrase : pystr) : M bool :=
  trezor_exception (
    _prepare_device;;
    ask_for_pin;;
    initialized ← feature "initialized";
    if truthy initialized then raise DeviceAlreadyInitError
    else
      TrezorBtc.reset tr normalize_string rounds entropy (optional_text label) (negb (bool_decide (password = [])));;
      mret true).

Definition trezor_wipe_device : M bool :=
  trezor_exception (_check_unlocked;; wipe tr normalize_string rounds;; mret true).

Definition trezor_restore_device (label : pystr) (word_count : Z) : M bool :=
  trezor_exception (
    _prepare_device;;
    ask_for_pin;;
    recover tr normalize_string rounds now word_count (optional_text label) (negb (bool_decide (password = [])));;
    mret true).

Definition trezor_backup_device (label passphrase : pystr) : M bool := raise UnavailableActionError.

Definition trezor_close : M () := trezor_exception (TrezorClient.close tr).

Definition trezor_prompt_pin : M bool :=
  trezor_exception (
    open tr;;
    _prepare_device;;
    pin_protection ← feature "pin_protection";
    if negb (truthy pin_protection) then raise DeviceAlreadyUnlockedError
    else
      unlocked ← feature "unlocked";
      if truthy unlocked then raise DeviceAlreadyUnlockedError
      else
        send_new tr "GetPublicKey"
          [("address_n", path_value [0x8000002c; 0x80000001; 0x80000000]); ("ecdsa_curve_name", VNone); ("show_display", VBool false);
           ("coin_name", VStr coin_name); ("script_type", VInt (SPEND "SPENDADDRESS"))];;
        mret true).

(** [self.client.features = ...]: the version stays. *)
Definition replace_features (v : value) : M () := c ← get; set_features v (TrezorClient.version c).

Definition trezor_send_pin (pin : pystr) : M bool :=
  trezor_exception (
    open tr;;
    if negb (isdigit pin) then raise BadArgumentError
    else
      resp ← send_new tr "PinMatrixAck" [("pin", VStr pin)];
      if isinstance resp "Failure" then
        f ← send_new tr "GetFeatures" [];
        replace_features f;;
        if isinstance f "Features" then
          pin_protection ← attr f "pin_protection";
          if negb (truthy pin_protection) then raise DeviceAlreadyUnlockedError
          else
            unlocked ← attr f "unlocked";
            if truthy unlocked then raise DeviceAlreadyUnlockedError else mret false
        else mret false
      else if isinstance resp "PassphraseRequest" then
        p ← get_passphrase false;
        ack ← liftS (new "PassphraseAck"
          [("passphrase", match p with HostPassphrase s => VStr s | PASSPHRASE_ON_DEVICE => VNone end); ("on_device", VBool false)]);
        pass_resp ← call false ack;
        if isinstance pass_resp "Deprecated_PassphraseStateRequest" then send_new tr "Deprecated_PassphraseStateAck" [];; mret true
        else mret true
      else mret true).

Definition trezor_toggle_passphrase : M bool :=
  trezor_exception (
    _check_unlocked;;
    try_except (b ← feature "passphrase_protection";
                apply_settings tr normalize_string rounds [("use_passphrase", VBool (negb (truthy b)))];; mret ())
               (mret ());;
    mret true).

Definition trezor_register_descriptor (name : pystr) (descriptor : Descriptor) : M RegisteredDescriptor := raise UnavailableActionError.

(** The client as Commands.v uses it; the base class has no policy addresses. *)
Definition trezor_ops : client_ops (client D) := {|
  get_pubkey_at_path := trezor_get_pubkey_at_path;
  op_master_fingerprint := trezor_master_fingerprint;
  Commands.sign_tx := trezor_sign_tx;
  op_sign_message := trezor_sign_message;
  display_singlesig_address := trezor_display_singlesig_address;
  display_multisig_address := trezor_display_multisig_address;
  display_bip388_policy_address _ _ _ := raise NotImplementedError;
  can_sign_taproot := trezor_can_sign_taproot;
  op_register_descriptor := trezor_register_descriptor;
  op_setup_device := trezor_setup_device;
  op_wipe_device := trezor_wipe_device;
  op_restore_device := trezor_restore_device;
  op_backup_device := trezor_backup_device;
  op_prompt_pin := trezor_prompt_pin;
  op_send_pin := trezor_send_pin;
  op_toggle_passphrase := trezor_toggle_passphrase;
  op_close := trezor_close;
|}.
End driver.

(** ** The KeepKey's model *)

Definition KEEPKEY_MAPPING : result ProtobufMapping :=
  m ← register DEFAULT_MAPPING "KeepkeyFeatures" None;
  register m "KeepkeyResetDevice" None.

(** One text, where a tuple was meant. *)
Definition KEEPKEY_MODEL : result TrezorModel :=
  m ← KEEPKEY_MAPPING; Ok (mkModel $"K1-14M" $"keepkey" (0, 0, 0) (inr $"keepkey.com") m).

(** ** What the methods send *)

(** The messages that read, show or sign, and the answers to the device's own
    requests. *)
Definition reading : list string :=
  ["GetFeatures"; "Initialize"; "GetPublicKey"; "GetAddress"; "SignTx"; "TxAck"; "SignMessage"; "Cancel"; "ButtonAck"; "PinMatrixAck";
   "PassphraseAck"; "Deprecated_PassphraseStateAck"].

Section sends.
Context {D : Type} (tr : Transport D) (norm nfc : pystr → pystr) (rounds : nat).
Context (names : list string) (mp : ProtobufMapping) (before : list (Z * bytes)).
Hypothesis reading_names : ∀ name, name ∈ reading → name ∈ names.
Hypothesis no_override : class_to_type_override mp = [].

(** Everything that was written since has the wire type of one of the names. *)
Definition only_sent (p : list (Z * bytes) * D) : Prop :=
  ∀ e, e ∈ p.1 → e ∈ before ∨ ∃ name, name ∈ names ∧ wire_type_of name = Some e.1.
Definition named (msg : value) : Prop := match msg with VMsg name _ => name ∈ names | _ => False end.

Abbreviation I n := (Inv only_sent mp n).
Abbreviation keeps n m := (ensures (I n) m (λ _, True)).
#[local] Notation trl := (logged tr).

Lemma new_named name kwargs msg : new name kwargs = Ok msg → name ∈ names → named msg.
Proof using.
  unfold new. destruct (classes name) as [c|]; [|done]. unfold construct. destruct (init_params c) as [ps|].
  - intros (attrs & _ & [= <-])%bind_ok. done.
  - by intros [= <-].
Qed.

Lemma setattr_named msg k x : named msg → named (setattr msg k x).
Proof using. by destruct msg. Qed.

Lemma set_attrs_named l msg : named msg → named (set_attrs msg l).
Proof using.
  unfold set_attrs. revert msg. induction l as [|[k x] l IH]; intros msg Hm; [done|]. simpl. by apply IH, setattr_named.
Qed.

Lemma set_known_named l msg : named msg → named (set_known msg l).
Proof using.
  unfold set_known. revert msg. induction l as [|[k x] l IH]; intros msg Hm; [done|]. simpl. apply IH.
  destruct (is_ok _); [by apply setattr_named|done].
Qed.

Lemma reading_name name : bool_decide (name ∈ reading) = true → name ∈ names.
Proof using reading_names. intros Hb. apply reading_names. by apply bool_decide_eq_true in Hb. Qed.

Lemma answer_named m : answer norm m → named m.
Proof using reading_names.
  intros Ha. destruct Ha as [? E|? E|? E|? ? _ E|? ? _ [? E]|? ? _ E]; apply (new_named _ _ _ E); by apply reading_name.
Qed.

Lemma keeps_snd {A} (m : state D A) : ensures only_sent (zoom snd (λ d p, (p.1, d)) m) (λ _, True).
Proof using.
  intros [l d] r s' Hp H. unfold zoom in H. simpl in H. destruct (m d) as [r0 d0]. injection H as <- <-. by split.
Qed.

Lemma writes_named msg ty b : named msg → encode_msg mp msg = Ok (ty, b) → ensures only_sent (t_write trl ty b) (λ _, True).
Proof using no_override.
  intros Hm He. simpl. eapply (ensures_bind _ _ _ (λ _, True)); [|intros _ _; apply keeps_snd].
  intros [l d] r1 s1 Hp [= <- <-]. split; [|done]. intros e [Hin|Hin]%elem_of_app; [by apply Hp|].
  apply list_elem_of_singleton in Hin as ->. right.
  assert (∃ name attrs, msg = VMsg name attrs ∧ name ∈ names) as (name & attrs & -> & Hin) by (destruct msg; try done; by eexists _, _).
  exists name. split; [done|].
  simpl in He. unfold encode in He. rewrite no_override in He. simpl in He. apply bind_ok in He as (w & Hw & He).
  apply bind_ok in He as (b' & _ & [= <- _]). by destruct (wire_type_of name) as [w'|]; [injection Hw as <-|].
Qed.

Lemma keeps_any {A} n (m : state (client (list (Z * bytes) * D)) A) Q : ensures (I n) m Q → keeps n m.
Proof using. intros Hm. by eapply ensures_weaken. Qed.

Lemma keeps_call n fw msg : 0 <= n → named msg → keeps n (call trl norm rounds fw msg).
Proof using reading_names no_override.
  intros Hn Hm. eapply keeps_any, (ensures_client_call trl norm only_sent mp named); try done.
  - apply writes_named.
  - apply keeps_snd.
  - apply keeps_snd.
  - apply keeps_snd.
  - apply answer_named.
Qed.

Lemma keeps_session {A} n (m : state (client (list (Z * bytes) * D)) A) : 0 <= n → keeps (n + 1) m → keeps n (session trl m).
Proof using. intros Hn Hm. refine (ensures_session trl only_sent mp _ _ n m _ Hn Hm); apply keeps_snd. Qed.

Lemma keeps_send n name kwargs : name ∈ names → keeps n (send_new trl name kwargs).
Proof using reading_names no_override.
  intros Hn. eapply (ensures_send trl only_sent mp named); try done.
  - apply writes_named.
  - apply keeps_snd.
  - intros msg E. by apply (new_named _ _ _ E).
Qed.

Lemma keeps_call_new n name kwargs : 0 <= n → name ∈ names → keeps n (call_new trl norm rounds name kwargs).
Proof using reading_names no_override.
  intros Hn Hm. unfold call_new. eapply ensures_bind; [apply ensures_lift|]. intros msg E. apply keeps_call; [done|]. by apply (new_named _ _ _ E).
Qed.

Lemma keeps_feature n name : keeps n (feature name).
Proof using. apply ensures_feature. Qed.
Lemma keeps_attr n v name : keeps n (attr v name).
Proof using. apply ensures_attr. Qed.
Lemma keeps_result {A} n (x : result A) : keeps n (liftS x).
Proof using. by apply ensures_liftS. Qed.
Lemma keeps_client n : keeps n get.
Proof using. by eapply keeps_any, ensures_get. Qed.
Lemma keeps_set_ui n u : keeps n (set_ui u).
Proof using. apply ensures_set_ui. Qed.
Lemma keeps_set_session_id n v : keeps n (set_session_id v).
Proof using. apply ensures_set_session_id. Qed.
Lemma keeps_set_features n f v : keeps n (set_features f v).
Proof using. intros c r c' (? & ? & ?) [= <- <-]. by repeat split. Qed.
Lemma keeps_set_model n m : keeps n (set_model m).
Proof using. intros c r c' (? & ? & ?) [= <- <-]. by repeat split. Qed.
Lemma keeps_get_features n : keeps n get_features.
Proof using. eapply ensures_bind; [apply keeps_client|]. intros c _. apply keeps_result. Qed.
Lemma keeps_get_passphrase n b : keeps n (get_passphrase b).
Proof using. apply ensures_get_passphrase. Qed.

Lemma keeps_expect n cls m : keeps n m → keeps n (expect cls m).
Proof using.
  intros Hm. unfold expect. eapply (ensures_bind _ _ _ (λ _, True)); [exact Hm|]. intros v _.
  destruct (isinstance v cls); [by apply ensures_ret | apply ensures_raise].
Qed.
Lemma keeps_expect_field n cls field m : keeps n m → keeps n (expect_field cls field m).
Proof using.
  intros Hm. eapply (ensures_bind _ _ _ (λ _, True)); [by apply keeps_expect|]. intros v _. apply keeps_attr.
Qed.
Lemma keeps_new n name kwargs : name ∈ names → ensures (I n) (liftS (new name kwargs)) named.
Proof using. intros Hn. apply ensures_liftS. intros msg E. by apply (new_named _ _ _ E). Qed.

Lemma keeps_catching {A} n (m h : state (client (list (Z * bytes) * D)) A) : keeps n m → keeps n h →
  keeps n (try_except m h) ∧ keeps n (try_failure m h) ∧ keeps n (try_cancelled m h) ∧ keeps n (trezor_exception m).
Proof using.
  intros Hm Hh. split_and!; intros c r c' Hc; unfold try_except, try_failure, try_cancelled, trezor_exception;
    destruct (m c) as [[a|e] c1] eqn:E; destruct (Hm _ _ _ Hc E) as [Hc1 _]; try (by intros [= <- <-]);
    destruct e; try (by intros [= <- <-]); by apply Hh.
Qed.
Lemma keeps_except {A} n (m h : state (client (list (Z * bytes) * D)) A) : keeps n m → keeps n h → keeps n (try_except m h).
Proof using. apply keeps_catching. Qed.
Lemma keeps_failure {A} n (m h : state (client (list (Z * bytes) * D)) A) : keeps n m → keeps n h → keeps n (try_failure m h).
Proof using. apply keeps_catching. Qed.
Lemma keeps_cancelled {A} n (m h : state (client (list (Z * bytes) * D)) A) : keeps n m → keeps n h → keeps n (try_cancelled m h).
Proof using. apply keeps_catching. Qed.
Lemma keeps_exception {A} n (m : state (client (list (Z * bytes) * D)) A) : keeps n m → keeps n (trezor_exception m).
Proof using. intros Hm. by apply (keeps_catching n m m). Qed.

(** Composed computations, taken apart down to the lemmas of the database. *)
Ltac keep :=
  lazymatch goal with
  | |- ensures _ (mbind _ (liftS (new _ _))) _ =>
      first [ eapply (ensures_bind _ _ _ named); [apply keeps_new; solve [auto with trezor]|]
            | eapply (ensures_bind _ _ _ (λ _, True)); [apply keeps_result|] ];
      let x := fresh in let Hx := fresh in intros x Hx; keep
  | |- ensures _ (let _ := _ in _) _ => cbv zeta; keep
  | |- ensures _ (mbind _ _) _ => eapply (ensures_bind _ _ _ (λ _, True)); [keep | let x := fresh in intros x _; keep]
  | |- ensures _ (mret _) _ => by apply ensures_ret
  | |- ensures _ (raise _) _ => apply ensures_raise
  | |- ensures _ (if ?b then _ else _) _ => destruct b; keep
  | |- ensures _ (match ?x with _ => _ end) _ => destruct x; keep
  | |- ensures _ (try_except _ _) _ => apply keeps_except; keep
  | |- ensures _ (try_failure _ _) _ => apply keeps_failure; keep
  | |- ensures _ (try_cancelled _ _) _ => apply keeps_cancelled; keep
  | |- ensures _ (trezor_exception _) _ => apply keeps_exception; keep
  | |- ensures _ (expect _ _) _ => apply keeps_expect; keep
  | |- ensures _ (expect_field _ _ _) _ => apply keeps_expect_field; keep
  | |- ensures _ (session _ _) _ => apply keeps_session; [lia | keep]
  | _ => try solve [ eauto with trezor ]
  end.

#[local] Hint Resolve keeps_feature keeps_attr keeps_result keeps_client keeps_set_ui keeps_set_session_id keeps_set_features keeps_set_model
  keeps_get_features keeps_get_passphrase keeps_send keeps_call keeps_call_new setattr_named set_attrs_named set_known_named : trezor.
#[local] Hint Extern 1 (0 <= _) => lia : trezor.
#[local] Hint Extern 1 (_ ∈ names) => apply reading_name; reflexivity : trezor.

Lemma keeps_refresh_with n feat : keeps n (_refresh_features feat).
Proof using. unfold _refresh_features, check_firmware_version, is_outdated. keep. Qed.
#[local] Hint Resolve keeps_refresh_with : trezor.

Lemma keeps_refresh n : 0 <= n → keeps n (refresh_features trl).
Proof using reading_names no_override. intros Hn. unfold refresh_features. keep. Qed.
Lemma keeps_init n sid b cardano : 0 <= n → keeps n (init_device trl sid b cardano).
Proof using reading_names no_override. intros Hn. unfold init_device. keep. Qed.
Lemma keeps_address n coin path show ms st : 0 <= n → keeps n (get_address trl norm rounds coin path show ms st).
Proof using reading_names no_override. intros Hn. unfold get_address. keep. Qed.
Lemma keeps_node n path coin st : 0 <= n → keeps n (get_public_node trl norm rounds path coin st).
Proof using reading_names no_override. intros Hn. unfold get_public_node. keep. Qed.
Lemma keeps_message n coin path message : 0 <= n → keeps n (TrezorBtc.sign_message trl norm nfc rounds coin path message).
Proof using reading_names no_override. intros Hn. unfold TrezorBtc.sign_message. keep. Qed.
#[local] Hint Resolve keeps_refresh keeps_init keeps_address keeps_node keeps_message : trezor.

Lemma keeps_ensure_unlocked n : 0 <= n → keeps n (ensure_unlocked trl norm rounds).
Proof using reading_names no_override. intros Hn. unfold ensure_unlocked. keep. Qed.

#[local] Hint Resolve keeps_ensure_unlocked : trezor.

(** The loops of signing. *)
Lemma keeps_sign_loop n fuel this prev res sigs ser : 0 <= n →
  keeps n (sign_tx_loop (call trl norm rounds true) fuel this prev res sigs ser).
Proof using reading_names no_override.
  intros Hn. revert res sigs ser. induction fuel as [|fuel IH]; intros res sigs ser; simpl; keep.
Qed.

#[local] Hint Resolve keeps_sign_loop : trezor.

Lemma keeps_sign n coin ins outs prevs kwargs : 0 <= n → keeps n (TrezorBtc.sign_tx trl norm rounds coin ins outs prevs kwargs).
Proof using reading_names no_override.
  intros Hn. unfold TrezorBtc.sign_tx, sign_tx_body. keep.
Qed.
#[local] Hint Resolve keeps_sign : trezor.

Lemma keeps_passes `{Hashes} sign chain fp ext n : 0 <= n → (∀ ins outs prevs kwargs, keeps n (sign ins outs prevs kwargs)) →
  ∀ fuel psbt p passes, keeps n (sign_passes sign chain fp ext fuel psbt p passes).
Proof using.
  intros Hn Hs fuel. induction fuel as [|fuel IH]; intros psbt p passes; simpl; unfold sign_pass; keep.
Qed.

(** ** The methods *)

Section methods.
Context `{Hashes} `{HmacSha512} (chain : Chain) (password : pystr) (keepkey : bool) (entropy : bytes) (now : Z).

Lemma keeps_prepare n : 0 <= n → keeps n (_prepare_device trl norm rounds).
Proof using reading_names no_override. intros Hn. unfold _prepare_device. keep. Qed.
#[local] Hint Resolve keeps_prepare : trezor.

Lemma keeps_check n : 0 <= n → keeps n (_check_unlocked trl norm rounds).
Proof using reading_names no_override. intros Hn. unfold _check_unlocked, disallow_passphrase. keep. Qed.
#[local] Hint Resolve keeps_check : trezor.

Lemma keeps_pubkey n path : 0 <= n → keeps n (trezor_get_pubkey_at_path trl norm rounds chain path).
Proof using reading_names no_override. intros Hn. apply keeps_exception. unfold get_node. keep. Qed.
#[local] Hint Resolve keeps_pubkey : trezor.

Lemma keeps_fingerprint n : 0 <= n → keeps n (trezor_master_fingerprint trl norm rounds chain).
Proof using reading_names no_override. intros Hn. unfold trezor_master_fingerprint. keep. Qed.

Lemma keeps_sign_tx n psbt rds : 0 <= n → keeps n (trezor_sign_tx trl norm rounds chain psbt rds).
Proof using reading_names no_override.
  intros Hn. apply keeps_exception. unfold get_node. keep.
  apply keeps_passes; [exact Hn|]. intros ins outs prevs kwargs. exact (keeps_sign n _ ins outs prevs kwargs Hn).
Qed.

Lemma keeps_sign_message n m p : 0 <= n → keeps n (trezor_sign_message trl norm nfc rounds chain m p).
Proof using reading_names no_override. intros Hn. apply keeps_exception. keep. Qed.

Lemma keeps_taproot n : 0 <= n → keeps n (trezor_can_sign_taproot trl norm rounds keepkey).
Proof using reading_names no_override.
  intros Hn. unfold trezor_can_sign_taproot. destruct keepkey; [by apply ensures_ret|]. apply keeps_exception. keep.
Qed.

Lemma keeps_shown n path st ms : 0 <= n → keeps n (shown_address trl norm rounds chain path st ms).
Proof using reading_names no_override. intros Hn. unfold shown_address. keep. Qed.
#[local] Hint Resolve keeps_taproot keeps_shown : trezor.

Lemma keeps_first n st ms l : 0 <= n → keeps n (first_address trl norm rounds chain st ms l).
Proof using reading_names no_override. intros Hn. induction l as [|p l IH]; simpl; keep. Qed.
#[local] Hint Resolve keeps_first : trezor.

Lemma keeps_singlesig n path t : 0 <= n → keeps n (trezor_display_singlesig_address trl norm rounds chain keepkey path t).
Proof using reading_names no_override.
  intros Hn. apply keeps_exception. keep.
Qed.

Lemma keeps_multisig n t d : 0 <= n → keeps n (trezor_display_multisig_address trl norm rounds chain t d).
Proof using reading_names no_override. intros Hn. apply keeps_exception. keep. Qed.

Lemma keeps_wipe n : 0 <= n → "WipeDevice" ∈ names → keeps n (trezor_wipe_device trl norm rounds).
Proof using reading_names no_override. intros Hn Hm. apply keeps_exception. unfold wipe. keep. Qed.

Lemma keeps_setup n l p : 0 <= n → "ResetDevice" ∈ names → "EntropyAck" ∈ names →
  keeps n (trezor_setup_device trl norm rounds password entropy l p).
Proof using reading_names no_override. intros Hn Hm He. apply keeps_exception. unfold ask_for_pin, reset. keep. Qed.

Lemma keeps_recover_loop n fuel res : 0 <= n → "WordAck" ∈ names → keeps n (recover_loop trl norm rounds fuel res).
Proof using reading_names no_override.
  intros Hn Hw. revert res. induction fuel as [|fuel IH]; intros res; simpl; unfold get_word; keep.
Qed.
#[local] Hint Resolve keeps_recover_loop : trezor.

Lemma keeps_restore n l k : 0 <= n → "RecoveryDevice" ∈ names → "WordAck" ∈ names →
  keeps n (trezor_restore_device trl norm rounds password now l k).
Proof using reading_names no_override. intros Hn Hm Hw. apply keeps_exception. unfold ask_for_pin, recover. keep. Qed.

Lemma keeps_toggle n : 0 <= n → "ApplySettings" ∈ names → keeps n (trezor_toggle_passphrase trl norm rounds).
Proof using reading_names no_override. intros Hn Hm. apply keeps_exception. unfold apply_settings. keep. Qed.

(** Opening is the first thing that is done for a PIN, and nothing closes. *)
Lemma keeps_opened {A} n (m : state (client (list (Z * bytes) * D)) A) c r c' : keeps (n + 1) m → I n c →
  trezor_exception (open trl;; m) c = (r, c') → I n c' ∨ I (n + 1) c'.
Proof using.
  intros Hm Hc E. unfold trezor_exception in E. destruct (open trl c) as [[[]|e] c1] eqn:Eo.
  - rewrite (state_bind_eval _ _ _ _ _ Eo) in E. apply (open_spec trl only_sent mp) with (n := n) in Eo; [|apply keeps_snd|done].
    destruct (m c1) as [r1 c2] eqn:E1. destruct (Hm _ _ _ Eo E1) as [H2 _]. right. by destruct r1; injection E as _ <-.
  - rewrite (state_bind_err _ _ _ _ _ Eo) in E. apply (open_spec trl only_sent mp) with (n := n) in Eo; [|apply keeps_snd|done].
    left. by injection E as _ <-.
Qed.

Lemma keeps_prompt n c r c' : 0 <= n → I n c → trezor_prompt_pin trl norm rounds chain c = (r, c') → I n c' ∨ I (n + 1) c'.
Proof using reading_names no_override. intros Hn. apply keeps_opened. keep. Qed.

Lemma keeps_send_pin n pin c r c' : 0 <= n → I n c → trezor_send_pin trl norm rounds pin c = (r, c') → I n c' ∨ I (n + 1) c'.
Proof using reading_names no_override. intros Hn. apply keeps_opened. unfold replace_features. keep. Qed.
End methods.
End sends.

(** [m] writes only messages with the wire types of the names, and leaves as
    many sessions open as there were, whatever the device answers and however
    it ends. *)
Definition sends {D A} (names : list string) (m : state (client (list (Z * bytes) * D)) A) : Prop := ∀ c r c',
  0 <= session_count c → class_to_type_override (mapping c) = [] → m c = (r, c') →
  (∀ e, e ∈ (world c').1 → e ∈ (world c).1 ∨ ∃ name, name ∈ names ∧ wire_type_of name = Some e.1) ∧
  session_count c' = session_count c.

Lemma sends_keeps {D A} names (m : state (client (list (Z * bytes) * D)) A) :
  (∀ mp before n, 0 <= n → class_to_type_override mp = [] → ensures (Inv (only_sent names before) mp n) m (λ _, True)) → sends names m.
Proof.
  intros Hm c r c' Hn Ho E. destruct (Hm (mapping c) (world c).1 (session_count c) Hn Ho c r c') as [(Hw & Hc & _) _]; [|done|by split].
  split_and!; [|done|done]. intros e He. by left.
Qed.

Lemma raises_sends {D A} names e : sends (D := D) (A := A) names (raise e).
Proof. intros c r c' _ _ [= <- <-]. split; [|done]. intros x Hx. by left. Qed.

Lemma close_sends {D} (tr : Transport D) c r c' : trezor_close (logged tr) c = (r, c') →
  (world c').1 = (world c).1 ∧ session_count c' = Z.max (session_count c - 1) 0.
Proof.
  unfold trezor_close, trezor_exception. destruct (TrezorClient.close (logged tr) c) as [r1 c1] eqn:E.
  assert ((world c1).1 = (world c).1 ∧ session_count c1 = Z.max (session_count c - 1) 0) as H1.
  { unfold TrezorClient.close in E. erewrite state_bind_eval in E by reflexivity. erewrite state_bind_eval in E by reflexivity.
    destruct (_ =? 0); [|by injection E as <- <-]. unfold on_world, zoom in E. cbn in E.
    unfold zoom in E. destruct (t_end_session tr _) as [r2 d2]. by injection E as <- <-. }
  by destruct r1 as [?|[]]; intros [= <- <-].
Qed.

(** C9: The methods of the Trezor driver that read keys, show addresses or sign
    write nothing but the messages for that and the answers to the device's
    requests, whatever the device says: none of them can wipe, set up, restore
    or reconfigure it.  The methods that do that write one kind of message more,
    or two, and those that the Trezor does not have write none.  All of these leave the
    counter of open sessions as it was, errors included.  [promptpin] and
    [sendpin] write no such message either, and leave it as it was or one higher,
    since the session they open is for the command that follows; [close] writes
    nothing and takes one off. *)
Theorem trezor_sends_only `{Hashes} `{HmacSha512} {D} (tr : Transport D) norm nfc rounds chain password keepkey entropy now :
  let ops := trezor_ops (logged tr) norm nfc rounds chain password keepkey entropy now in
  (∀ path, sends reading (get_pubkey_at_path ops path)) ∧ sends reading (op_master_fingerprint ops) ∧
  (∀ psbt rds, sends reading (Commands.sign_tx ops psbt rds)) ∧ (∀ m p, sends reading (op_sign_message ops m p)) ∧
  (∀ p t, sends reading (display_singlesig_address ops p t)) ∧ (∀ t d, sends reading (display_multisig_address ops t d)) ∧
  sends reading (can_sign_taproot ops) ∧
  sends ("WipeDevice" :: reading) (op_wipe_device ops) ∧
  (∀ l p, sends ("ResetDevice" :: "EntropyAck" :: reading) (op_setup_device ops l p)) ∧
  (∀ l n, sends ("RecoveryDevice" :: "WordAck" :: reading) (op_restore_device ops l n)) ∧
  sends ("ApplySettings" :: reading) (op_toggle_passphrase ops) ∧
  (∀ l p, sends [] (op_backup_device ops l p)) ∧ (∀ n d, sends [] (op_register_descriptor ops n d)) ∧
  (∀ rd i j, sends [] (display_bip388_policy_address ops rd i j)) ∧
  (∀ pin c r c', 0 <= session_count c → class_to_type_override (mapping c) = [] →
    op_prompt_pin ops c = (r, c') ∨ op_send_pin ops pin c = (r, c') →
    (∀ e, e ∈ (world c').1 → e ∈ (world c).1 ∨ ∃ name, name ∈ reading ∧ wire_type_of name = Some e.1) ∧
    session_count c <= session_count c' <= session_count c + 1) ∧
  (∀ c r c', op_close ops c = (r, c') → (world c').1 = (world c).1 ∧ session_count c' = Z.max (session_count c - 1) 0).
Proof.
  intros ops. split_and!; try (intros; apply raises_sends);
    try (intros; apply sends_keeps; intros mp before sessions Hsessions Hoverride; simpl).
  - by apply keeps_pubkey.
  - by apply keeps_fingerprint.
  - by apply keeps_sign_tx.
  - by apply keeps_sign_message.
  - by apply keeps_singlesig.
  - by apply keeps_multisig.
  - by apply keeps_taproot.
  - apply keeps_wipe; try done; [by right|left].
  - apply keeps_setup; try done; [by right; right|left|right; left].
  - apply keeps_restore; try done; [by right; right|left|right; left].
  - apply keeps_toggle; try done; [by right|left].
  - intros pin c r c' Hn Ho Hr.
    assert (Inv (only_sent reading (world c).1) (mapping c) (session_count c) c) as Hc by (split_and!; [|done|done]; intros e He; by left).
    assert (Inv (only_sent reading (world c).1) (mapping c) (session_count c) c' ∨
            Inv (only_sent reading (world c).1) (mapping c) (session_count c + 1) c') as [(Hw & Hs & _)|(Hw & Hs & _)];
      [|rewrite Hs; split; [done|lia]..].
    destruct Hr as [Hr|Hr]; [eapply keeps_prompt in Hr | eapply keeps_send_pin in Hr]; try done.
  - intros c r c' Hc. exact (close_sends tr c r c' Hc).
Qed.

(** The messages that change a device are others. *)
Example reading_changes_nothing : Forall (λ name, name ∉ reading)
  ["WipeDevice"; "ResetDevice"; "EntropyAck"; "RecoveryDevice"; "WordAck"; "LoadDevice"; "ApplySettings"; "ChangePin"; "BackupDevice"].
Proof. apply (bool_decide_unpack _). by vm_compute. Qed.

(** The KeepKey's mapping changes what is decoded, not what is sent. *)
Example keepkey_no_override : class_to_type_override <$> KEEPKEY_MAPPING = Ok [].
Proof. by vm_compute. Qed.

(** It is the shared mapping that is changed: after a KeepKey was opened, the
    features of a Trezor lose their capabilities, which decide whether its
    passphrase is entered on the device. *)
Example keepkey_mapping_shared : ∃ f g,
  (b ← encode DEFAULT_MAPPING 3 "Features" [("major_version", VInt 2); ("minor_version", VInt 4); ("patch_version", VInt 3); ("capabilities", VList [VInt 17])];
   decode DEFAULT_MAPPING 17 b.2) = Ok f ∧
  (m ← KEEPKEY_MAPPING;
   b ← encode DEFAULT_MAPPING 3 "Features" [("major_version", VInt 2); ("minor_version", VInt 4); ("patch_version", VInt 3); ("capabilities", VList [VInt 17])];
   decode m 17 b.2) = Ok g ∧
  getattr f "capabilities" = Ok (VList [VInt 17]) ∧ getattr g "capabilities" = Ok (VList []).
Proof. eexists _, _. split_and!; vm_compute; reflexivity. Qed.

(** A vendor that is part of the KeepKey's is accepted. *)
Example keepkey_vendor : (m ← KEEPKEY_MODEL; vendor_known (VStr $"key.co") m) = Ok true.
Proof. by vm_compute. Qed.
