(* ===== verification/LedgerDriver.v ===== *)
(** * The Ledger driver (devices/ledger.py)

    LedgerClient over a client of the Bitcoin application, which is the record
    [bitcoin_client] of the methods of client_base.py's [Client]; [NewClient] is
    its instance for the client of LedgerClient.v.  [c_legacy] says whether the
    client is a [LegacyClient], whose implementation is not modelled.

    What a run does with the device is specified by what the device yields
    ([Yields]) and by the trace of its events ([Traced]): what it gave, what it
    registered, what it was asked to sign with.

    The copy that [sign_tx] makes of its PSBT is a value here; the dictionary of
    the public keys that sign, which nothing reads, and the enumeration are left
    out. *)

From S2P Require Import Prelude Bytes PyStd PyStr StateM Common Sha256 Serialize Script Tx KeyPath Key PsbtMap PsbtIn PsbtOut Psbt PubkeyProvider.
From S2P Require Import Descriptor RegDescriptor LedgerWallet LedgerClient Commands.

(** ** The client of the application *)

Record bitcoin_client (D : Type) := mkBitcoinClient {
  c_legacy : bool;
  c_get_extended_pubkey : pystr → bool → state D pystr;
  c_get_master_fingerprint : state D bytes;
  c_register_wallet : WalletPolicy → state D (bytes * bytes);
  c_get_wallet_address : WalletPolicy → option bytes → Z → Z → bool → state D pystr;
  c_sign_psbt : PSBT → WalletPolicy → option bytes → state D (list (Z * PartialSignature));
  c_sign_message : pystr → pystr → state D pystr;
  c_stop : state D () }.
Arguments mkBitcoinClient {D}.
Arguments c_legacy {D}.
Arguments c_get_extended_pubkey {D}.
Arguments c_get_master_fingerprint {D}.
Arguments c_register_wallet {D}.
Arguments c_get_wallet_address {D}.
Arguments c_sign_psbt {D}.
Arguments c_sign_message {D}.
Arguments c_stop {D}.

Definition NewClient `{Hashes} `{SetOrder} {D : Type} (exchange : bytes → state D (Z * bytes)) (stop : state D ()) (fuel : nat) : bitcoin_client D :=
  mkBitcoinClient false (LedgerClient.get_extended_pubkey exchange) (LedgerClient.get_master_fingerprint exchange) (register_wallet exchange fuel)
    (get_wallet_address exchange fuel) (LedgerClient.sign_psbt exchange fuel) (λ message, LedgerClient.sign_message exchange fuel (encode_utf8 message)) stop.

(** ** Paths, status words and priorities *)

(** The characters that mark a hardened index. *)
Definition hardening : list byte := [chr 104; chr 72; chr 39].

Definition check_index (index : pystr) : result bool :=
  let index_int := filter (λ c, c ∉ hardening) index in
  if negb (isdigit index_int) then Ok false
  else i ← int_str index_int; Ok (i <=? 0x80000000).

(** [all], which stops at the first that is not. *)
Fixpoint allR {A} (f : A → result bool) (l : list A) : result bool :=
  match l with
  | [] => Ok true
  | x :: l => ok ← f x; if ok : bool then allR f l else Ok false
  end.

Definition check_keypath (key_path : pystr) : result bool :=
  match split_char (chr 47) key_path with
  | p :: parts => if negb (bool_decide (p = $"m")) then Ok false else allR check_index parts
  | [] => Err IndexError
  end.

Definition bad_args : list Z := [0x6700; 0x6A80; 0x6B00; 0x6D00].
Definition cancels : list Z := [0x6982; 0x6985].

Definition signing_priority (t : AddressType) : Z := match t with TAP => 0 | WIT => 1 | SH_WIT => 2 | LEGACY => 3 end.

(** What [handle_chip_exception] raises for a status word. *)
Definition handle_chip_exception (e : pyexn) (sw : Z) : pyexn :=
  if bool_decide (sw ∈ bad_args) then BadArgumentError
  else if sw =? 0x6F00 then DeviceFailureError
  else if sw =? 0x6FAA then DeviceConnectionError
  else if bool_decide (sw ∈ cancels) then ActionCanceledError
  else e.

(** The exceptions of the client's library ([DeviceError]) are none of those
    that are translated. *)
Definition ledger_exn (e : pyexn) : pyexn :=
  match e with
  | BTChipException sw => handle_chip_exception e sw
  | ApduException sw data => match decode_utf8 data with Ok _ => handle_chip_exception e sw | Err e => e end
  | _ => if is_value_error e then BadArgumentError else e
  end.

Definition ledger_exception {S A} (m : state S A) : state S A := λ s,
  match m s with
  | (Err e, s') => (Err (ledger_exn e), s')
  | r => r
  end.

(** [except NotSupportedError]. *)
Definition NotSupportedError : pyexn := DeviceError 0x6A82.
Definition try_not_supported {S A} (m h : state S A) : state S A := λ s,
  match m s with
  | (Err e, s') => if bool_decide (e = NotSupportedError) then h s' else (Err e, s')
  | r => r
  end.

(** A wallet policy that signs, with what belongs to it in [wallets]. *)
Record signing_wallet := mkWallet { sw_priority : Z; sw_type : AddressType; sw_policy : WalletPolicy; sw_hmac : option bytes }.

(** [a < b] for texts. *)
Definition text_lt (a b : pystr) : bool := negb (bytes_leb b a).

Section driver.
Context `{Hashes} {D : Type} (c : bitcoin_client D) (chain : Chain).

Definition ledger_master_fingerprint : state D bytes := ledger_exception (c_get_master_fingerprint c).

Definition ledger_get_pubkey_at_path (path : pystr) : state D ExtendedKey :=
  ledger_exception (
    let path := str_replace $"H" $"'" (str_replace $"h" $"'" path) in
    xpub_str ← try_not_supported (c_get_extended_pubkey c path false) (c_get_extended_pubkey c path true);
    liftS (ExtendedKey_deserialize xpub_str)).

(** ** Wallet policies *)

Definition singlesig_template (t : AddressType) : pystr :=
  match t with LEGACY => $"pkh(@0/**)" | WIT => $"wpkh(@0/**)" | SH_WIT => $"sh(wpkh(@0/**))" | TAP => $"tr(@0/**)" end.

Definition account_path (t : AddressType) (account : Z) : list Z := [H_ (get_bip44_purpose t); H_ (get_bip44_chain chain); H_ account].

Definition new_policy (name template : pystr) (keys : list pystr) : result WalletPolicy := WalletPolicy_new name template keys WALLET_POLICY_V2.

Definition _get_singlesig_default_wallet_policy (addr_type : AddressType) (account : Z) : state D WalletPolicy :=
  let path := account_path addr_type account in
  fp ← ledger_master_fingerprint;
  let origin := {| fingerprint := fp; path := path |} in
  key ← ledger_get_pubkey_at_path ($"m" ++ KeyOriginInfo_path_string origin $"h");
  liftS (
    s ← ExtendedKey_to_string key;
    pk_prov ← PubkeyProvider_init (Some origin) s None 0 false;
    new_policy [] (singlesig_template addr_type) [PubkeyProvider_to_string $"'" pk_prov]).

(** The policy of a registered descriptor. *)
Definition descriptor_policy (name : pystr) (d : Descriptor) : result WalletPolicy :=
  template ← get_bip388_template d;
  keys ← Ok (map get_bip388_key_info (get_pubkey_providers d));
  new_policy name template keys.

(** ** Signing *)

(** The dictionary of the registered descriptors, in the order of their texts. *)
Fixpoint add_registered (l : list RegisteredDescriptor) (wallets : pydict bytes signing_wallet) : result (pydict bytes signing_wallet) :=
  match l with
  | [] => Ok wallets
  | rd :: l =>
      policy ← descriptor_policy (rd_name rd) (rd_descriptor rd);
      t ← of_option BadArgumentError (get_address_type (rd_descriptor rd));
      id ← wallet_id policy;
      add_registered l (dict_set id (mkWallet (signing_priority t) t policy (Some (rd_registration rd))) wallets)
  end.

Definition registered_wallets (rds : list RegisteredDescriptor) : result (pydict bytes signing_wallet) :=
  keyed ← mapR (λ rd, s ← RegisteredDescriptor_serialize rd; Ok (s, rd)) rds;
  add_registered (map snd (sort_by (λ a b, text_lt a.1 b.1) keyed)) [].

(** The previous output, and the input with it as its witness UTXO. *)
Definition with_utxo (psbt_in : PsbtIn) : result (option (CTxOut * PsbtIn)) :=
  match in_non_witness_utxo psbt_in with
  | Some tx =>
      raise_if (bool_decide (tx_hash tx ≠ Some (in_prev_txid psbt_in))) BadArgumentError;;
      prev_out ← of_option AssertionError (in_prev_out psbt_in);
      utxo ← index_py (vout tx) prev_out;
      Ok (Some (utxo, set_witness_utxo (Some utxo) psbt_in))
  | None => Ok ((λ utxo, (utxo, psbt_in)) <$> in_witness_utxo psbt_in)
  end.

(** The type of address of a script; [None] where the loop goes on. *)
Definition script_type (p2sh : bool) (scriptcode : bytes) : result (option AddressType) :=
  let '(is_wit, wit_ver, _) := is_witness scriptcode in
  if is_wit then
    if p2sh then if wit_ver =? 0 then Ok (Some SH_WIT) else Err BadArgumentError
    else Ok (if wit_ver =? 0 then Some WIT else if wit_ver =? 1 then Some TAP else None)
  else Ok (Some LEGACY).

(** The script that is looked at for a multisig and its type, unless there is
    nothing to sign. *)
Definition spend_script (psbt_in : PsbtIn) (utxo : CTxOut) : result (option (bytes * AddressType)) :=
  let p2sh := is_p2sh (scriptPubKey utxo) in
  if p2sh && bool_decide (in_redeem_script psbt_in = []) then Ok None
  else
    let scriptcode := if p2sh then in_redeem_script psbt_in else scriptPubKey utxo in
    t ← script_type p2sh scriptcode;
    match t with
    | None => Ok None
    | Some t =>
        if is_p2wsh scriptcode then
          Ok (if bool_decide (in_witness_script psbt_in = []) then None else Some (in_witness_script psbt_in, t))
        else Ok (Some (scriptcode, t))
    end.

(** The key expression of the first extended key that an origin starts with. *)
Fixpoint parent_expr (pk_origin : KeyOriginInfo) (xpubs : pydict bytes KeyOriginInfo) : result (option pystr) :=
  match xpubs with
  | [] => Ok None
  | (xpub_bytes, xpub_origin) :: xpubs =>
      xpub ← ExtendedKey_from_bytes xpub_bytes;
      if bool_decide (fingerprint xpub_origin = fingerprint pk_origin) &&
         bool_decide (path xpub_origin = take (length (path xpub_origin)) (path pk_origin)) then
        s ← ExtendedKey_to_string xpub;
        p ← PubkeyProvider_init (Some xpub_origin) s None 0 false;
        Ok (Some (PubkeyProvider_to_string $"'" p))
      else parent_expr pk_origin xpubs
  end.

(** The key expressions of the public keys of a multisig, and whether all of
    those with a path have one; a key without a path is passed over. *)
Fixpoint multisig_exprs (hd_keypaths xpubs : pydict bytes KeyOriginInfo) (pubs : list bytes) : result (list pystr * bool) :=
  match pubs with
  | [] => Ok ([], true)
  | pub :: pubs =>
      e ← match dict_get pub hd_keypaths with
          | Some pk_origin => e ← parent_expr pk_origin xpubs; Ok (match e with Some e => ([e], true) | None => ([], false) end)
          | None => Ok ([], true)
          end;
      '(es, ok) ← multisig_exprs hd_keypaths xpubs pubs;
      Ok (e.1 ++ es, e.2 && ok)
  end.

Definition multisig_name (k n : Z) : pystr := str_int k ++ $" of " ++ str_int n ++ $" Multisig".

Definition add_multisig (xpubs : pydict bytes KeyOriginInfo) (psbt_in : PsbtIn) (t : AddressType) (k : Z) (pubs : list bytes)
    (wallets : pydict bytes signing_wallet) : state D (pydict bytes signing_wallet) :=
  '(key_exprs, ok) ← liftS (multisig_exprs (in_hd_keypaths psbt_in) xpubs pubs);
  if negb ok then mret wallets
  else
    msw ← liftS (MultisigWallet_new (multisig_name k (len key_exprs)) t k key_exprs true WALLET_POLICY_V2);
    msw_id ← liftS (wallet_id msw);
    if dict_in msw_id wallets then mret wallets
    else
      '(_, registered_hmac) ← c_register_wallet c msw;
      mret (dict_set msw_id (mkWallet (signing_priority t) t msw (Some registered_hmac)) wallets).

(** The policy is asked for twice: once for its id, once for its value. *)
Definition process_origin (t : AddressType) (origin : KeyOriginInfo) (wallets : pydict bytes signing_wallet) : state D (pydict bytes signing_wallet) :=
  if negb (is_standard_path (path origin) t chain) then mret wallets
  else
    account ← liftS (nth_py (path origin) 2);
    policy ← _get_singlesig_default_wallet_policy t account;
    policy2 ← _get_singlesig_default_wallet_policy t account;
    id ← liftS (wallet_id policy);
    mret (dict_set id (mkWallet (signing_priority t) t policy2 None) wallets).

Fixpoint process_origins (t : AddressType) (l : list KeyOriginInfo) (wallets : pydict bytes signing_wallet) : state D (pydict bytes signing_wallet) :=
  match l with
  | [] => mret wallets
  | origin :: l => wallets ← process_origin t origin wallets; process_origins t l wallets
  end.

(** The origins of the keys of ours of an input, in the order of the two loops. *)
Definition our_origins (master_fp : bytes) (psbt_in : PsbtIn) : list KeyOriginInfo :=
  filter (λ o, fingerprint o = master_fp) (map snd (in_hd_keypaths psbt_in)) ++
  omap (λ '(key, (_, origin)), if bool_decide (key = in_tap_internal_key psbt_in) && bool_decide (fingerprint origin = master_fp)
                               then Some origin else None) (in_tap_bip32_paths psbt_in).

(** The body of the loop over the inputs. *)
Definition prepare_ledger_input (master_fp : bytes) (xpubs : pydict bytes KeyOriginInfo) (psbt_in : PsbtIn) (wallets : pydict bytes signing_wallet) :
    state D (PsbtIn * pydict bytes signing_wallet) :=
  u ← liftS (with_utxo psbt_in);
  match u with
  | None => mret (psbt_in, wallets)
  | Some (utxo, psbt_in) =>
      s ← liftS (spend_script psbt_in utxo);
      match s with
      | None => mret (psbt_in, wallets)
      | Some (scriptcode, t) =>
          multisig ← liftS (parse_multisig scriptcode);
          wallets ← match multisig with
                    | Some (k, pubs) => add_multisig xpubs psbt_in t k pubs wallets
                    | None => process_origins t (our_origins master_fp psbt_in) wallets
                    end;
          mret (psbt_in, wallets)
      end
  end.

Fixpoint prepare_ledger_inputs (master_fp : bytes) (xpubs : pydict bytes KeyOriginInfo) (l : list PsbtIn) (wallets : pydict bytes signing_wallet) :
    state D (list PsbtIn * pydict bytes signing_wallet) :=
  match l with
  | [] => mret ([], wallets)
  | psbt_in :: l =>
      '(psbt_in, wallets) ← prepare_ledger_input master_fp xpubs psbt_in wallets;
      '(l, wallets) ← prepare_ledger_inputs master_fp xpubs l wallets;
      mret (psbt_in :: l, wallets)
  end.

(** Before signing with a policy for legacy addresses. *)
Definition drop_legacy_utxo (psbt_in : PsbtIn) : PsbtIn :=
  match in_witness_utxo psbt_in with
  | Some utxo => if (is_witness (scriptPubKey utxo)).1.1 then psbt_in else set_witness_utxo None psbt_in
  | None => psbt_in
  end.

(** The output that an input spends. *)
Definition signing_utxo (psbt_in : PsbtIn) : result CTxOut :=
  utxo ← match in_non_witness_utxo psbt_in with
         | Some tx =>
             prev_out ← of_option AssertionError (in_prev_out psbt_in);
             utxo ← index_py (vout tx) prev_out;
             Ok (Some utxo)
         | None => Ok (in_witness_utxo psbt_in)
         end;
  of_option AssertionError utxo.

Definition is_taproot (utxo : CTxOut) : bool := let '(is_wit, wit_ver, _) := is_witness (scriptPubKey utxo) in is_wit && (1 <=? wit_ver).

(** A yielded signature is stored as the Taproot signature of the key or of a
    leaf, or as the signature of a public key. *)
Definition put_sig (taproot : bool) (psbt_in : PsbtIn) (yielded : PartialSignature) : PsbtIn :=
  if taproot then
    match tapleaf_hash yielded with
    | None => set_tap_key_sig (ps_signature yielded) psbt_in
    | Some h => set_tap_script_sigs (dict_set (ps_pubkey yielded, h) (ps_signature yielded) (in_tap_script_sigs psbt_in)) psbt_in
    end
  else set_partial_sigs (dict_set (ps_pubkey yielded) (ps_signature yielded) (in_partial_sigs psbt_in)) psbt_in.

Definition store_yielded (yielded : PartialSignature) (psbt_in : PsbtIn) : result PsbtIn :=
  utxo ← signing_utxo psbt_in;
  Ok (put_sig (is_taproot utxo) psbt_in yielded).

(** Where [l[idx]] is in a list of [n]. *)
Definition resolve (n : nat) (idx : Z) : nat := Z.to_nat (if idx <? 0 then Z.of_nat n + idx else idx).

Fixpoint store_all_yielded (sigs : list (Z * PartialSignature)) (ins : list PsbtIn) : result (list PsbtIn) :=
  match sigs with
  | [] => Ok ins
  | (idx, y) :: sigs =>
      psbt_in ← index_py ins idx;
      psbt_in ← store_yielded y psbt_in;
      store_all_yielded sigs (<[resolve (length ins) idx := psbt_in]> ins)
  end.

(** The loop over the sorted policies. *)
Fixpoint sign_wallets (wallets : list signing_wallet) (psbt2 : PSBT) : state D PSBT :=
  match wallets with
  | [] => mret psbt2
  | w :: wallets =>
      let psbt2 := if bool_decide (sw_type w = LEGACY) then set_inputs (map drop_legacy_utxo (psbt_inputs psbt2)) psbt2 else psbt2 in
      input_sigs ← c_sign_psbt c psbt2 (sw_policy w) (sw_hmac w);
      ins ← liftS (store_all_yielded input_sigs (psbt_inputs psbt2));
      sign_wallets wallets (set_inputs ins psbt2)
  end.

Definition dict_update {K V} `{EqDecision K} (d e : pydict K V) : pydict K V := foldl (λ d kv, dict_set kv.1 kv.2 d) d e.

(** The signatures of an input of the copy are put into the input. *)
Definition merge_sigs (sig_in psbt_in : PsbtIn) : PsbtIn :=
  let psbt_in := set_partial_sigs (dict_update (in_partial_sigs psbt_in) (in_partial_sigs sig_in)) psbt_in in
  let psbt_in := set_tap_script_sigs (dict_update (in_tap_script_sigs psbt_in) (in_tap_script_sigs sig_in)) psbt_in in
  if negb (bool_decide (in_tap_key_sig sig_in = [])) && bool_decide (in_tap_key_sig psbt_in = [])
  then set_tap_key_sig (in_tap_key_sig sig_in) psbt_in else psbt_in.

(** [zip(psbt2.inputs, psbt.inputs)]. *)
Fixpoint merge_all (sig_ins ins : list PsbtIn) : list PsbtIn :=
  match sig_ins, ins with
  | s :: sig_ins, i :: ins => merge_sigs s i :: merge_all sig_ins ins
  | _, _ => ins
  end.

(** [legacy_sign_tx], for a client that is a [LegacyClient]. *)
Fixpoint store_legacy (sigs : list (Z * PartialSignature)) (ins : list PsbtIn) : result (list PsbtIn) :=
  match sigs with
  | [] => Ok ins
  | (idx, y) :: sigs =>
      psbt_in ← index_py ins idx;
      store_legacy sigs (<[resolve (length ins) idx :=
        set_partial_sigs (dict_set (ps_pubkey y) (ps_signature y) (in_partial_sigs psbt_in)) psbt_in]> ins)
  end.

Definition legacy_sign_tx (psbt : PSBT) : state D PSBT :=
  wallet ← liftS (new_policy [] $"wpkh(@0/**)" [[]]);
  legacy_input_sigs ← c_sign_psbt c psbt wallet None;
  ins ← liftS (store_legacy legacy_input_sigs (psbt_inputs psbt));
  mret (set_inputs ins psbt).

Definition by_priority (wallets : pydict bytes signing_wallet) : list signing_wallet :=
  sort_by (λ a b, sw_priority a <? sw_priority b) (map snd wallets).

Definition ledger_sign_tx (psbt : PSBT) (registered : list RegisteredDescriptor) : state D PSBT :=
  ledger_exception (
    if negb (bool_decide (length registered = 0%nat)) && c_legacy c then raise UnavailableActionError
    else
      master_fp ← ledger_master_fingerprint;
      if c_legacy c then legacy_sign_tx psbt
      else
        let psbt2 := if negb (psbt_version psbt =? 2) then convert_to_v2 psbt else psbt in
        wallets ← liftS (registered_wallets registered);
        '(ins, wallets) ← prepare_ledger_inputs master_fp (psbt_xpub psbt2) (psbt_inputs psbt2) wallets;
        psbt2 ← sign_wallets (by_priority wallets) (set_inputs ins psbt2);
        mret (set_inputs (merge_all (psbt_inputs psbt2) (psbt_inputs psbt)) psbt)).

Definition ledger_sign_message (message keypath : pystr) : state D pystr :=
  ledger_exception (
    ok ← liftS (check_keypath keypath);
    if negb ok then raise ValueError
    else c_sign_message c message (str_replace $"h" $"'" keypath)).

(** ** Addresses *)

(** For a legacy client a Taproot address has no template: the variable is
    unbound, since the exception is built but not raised. *)
Definition legacy_template (t : AddressType) : result pystr := match t with TAP => Err NameError | t => Ok (singlesig_template t) end.

Definition ledger_display_singlesig_address (keypath : pystr) (addr_type : AddressType) : state D pystr :=
  ledger_exception (
    path ← liftS (parse_path keypath);
    wallet ← (if c_legacy c then
                fp ← ledger_master_fingerprint;
                template ← liftS (legacy_template addr_type);
                liftS (new_policy [] template [$"[" ++ KeyOriginInfo_to_string {| fingerprint := fp; path := path |} $"'" ++ $"]"])
              else if negb (is_standard_path path addr_type chain) then raise BadArgumentError
              else
                account ← liftS (nth_py path 2);
                _get_singlesig_default_wallet_policy addr_type account);
    change ← liftS (index_py path (-2));
    index ← liftS (index_py path (-1));
    c_get_wallet_address c wallet None change index true).

Definition is_valid_der_path (pk : PubkeyProvider) : result bool :=
  match pp_deriv_path pk with
  | Some [_; change; index] =>
      if bool_decide (change ∈ [[0]; [1]]) then
        i ← nth_py index 0;
        Ok ((0 <=? i) && (i <=? 0x7fffffff) && pp_ranged pk)
      else Ok false
  | _ => Ok false
  end.

Definition format_key_info (pk : PubkeyProvider) : result pystr :=
  match pp_origin pk, pp_extkey pk with
  | Some origin, Some extkey => s ← ExtendedKey_to_string extkey; Ok ($"[" ++ KeyOriginInfo_to_string origin $"'" ++ $"]" ++ s)
  | _, _ => Err AssertionError
  end.

(** The two checks of the paths of the keys, and the one of their origins. *)
Definition multisig_paths_ok (pubkeys : list PubkeyProvider) : result bool :=
  valid ← allR is_valid_der_path pubkeys;
  Ok (valid && forallb (λ pk, bool_decide (pp_deriv_path pk = head pubkeys ≫= pp_deriv_path)) pubkeys &&
    forallb (λ pk, match pp_origin pk with Some o => len (path o) <=? 4 | None => true end) pubkeys).

(** [deriv_path[3]] and [deriv_path[2][0]] of the first key. *)
Definition change_and_index (pubkeys : list PubkeyProvider) : result (Z * Z) :=
  pk ← nth_py pubkeys 0;
  deriv_path ← of_option AssertionError (pp_deriv_path pk);
  last_step ← nth_py deriv_path 3;
  step ← nth_py deriv_path 2;
  index ← nth_py step 0;
  Ok (if bool_decide (last_step = [0]) then 0 else 1, index).

Definition ledger_display_multisig_address (addr_type : AddressType) (multisig : Descriptor) : state D pystr :=
  ledger_exception (
    if c_legacy c then raise BadArgumentError
    else
      match multisig with
      | MultisigDescriptor pubkeys thresh is_sorted =>
          paths_ok ← liftS (multisig_paths_ok pubkeys);
          if negb paths_ok then raise BadArgumentError
          else
            keys_info ← liftS (mapR format_key_info pubkeys);
            wallet ← liftS (MultisigWallet_new (multisig_name thresh (len keys_info)) addr_type thresh keys_info is_sorted WALLET_POLICY_V2);
            '(_, registered_hmac) ← c_register_wallet c wallet;
            '(change, address_index) ← liftS (change_and_index pubkeys);
            c_get_wallet_address c wallet (Some registered_hmac) change address_index true
      | _ => raise AttributeError
      end).

Definition ledger_display_bip388_policy_address (rd : RegisteredDescriptor) (index multipath_index : Z) : state D pystr :=
  ledger_exception (
    if c_legacy c then raise BadArgumentError
    else
      wallet_policy ← liftS (descriptor_policy (rd_name rd) (rd_descriptor rd));
      c_get_wallet_address c wallet_policy (Some (rd_registration rd)) multipath_index index true).

Definition ledger_can_sign_taproot : state D bool := ledger_exception (mret (negb (c_legacy c))).

Definition ledger_register_descriptor (name : pystr) (descriptor : Descriptor) : state D RegisteredDescriptor :=
  ledger_exception (
    if c_legacy c then raise UnavailableActionError
    else
      policy ← liftS (descriptor_policy name descriptor);
      '(_, registered_hmac) ← c_register_wallet c policy;
      mret (RegisteredDescriptor_new name descriptor $"ledger" registered_hmac)).

(** What a Ledger does not do from the host. *)
Definition unavailable {A} : state D A := raise UnavailableActionError.

Definition ledger_ops : client_ops D := {|
  get_pubkey_at_path := ledger_get_pubkey_at_path;
  op_master_fingerprint := ledger_master_fingerprint;
  Commands.sign_tx := ledger_sign_tx;
  op_sign_message := ledger_sign_message;
  display_singlesig_address := ledger_display_singlesig_address;
  display_multisig_address := ledger_display_multisig_address;
  display_bip388_policy_address := ledger_display_bip388_policy_address;
  can_sign_taproot := ledger_can_sign_taproot;
  op_register_descriptor := ledger_register_descriptor;
  op_setup_device _ _ := unavailable;
  op_wipe_device := unavailable;
  op_restore_device _ _ := unavailable;
  op_backup_device _ _ := unavailable;
  op_prompt_pin := unavailable;
  op_send_pin _ := unavailable;
  op_toggle_passphrase := unavailable;
  op_close := c_stop c;
|}.
End driver.

(** * Lemmas *)

Lemma exception_ok {S A} (m : state S A) s a s' : ledger_exception m s = (Ok a, s') ↔ m s = (Ok a, s').
Proof. unfold ledger_exception. by destruct (m s) as [[b|e] s1]. Qed.

Lemma ensures_exception {S A} (I : S → Prop) (m : state S A) Q : ensures I m Q → ensures I (ledger_exception m) Q.
Proof.
  intros Hm s r s' Hs. unfold ledger_exception. destruct (m s) as [[a|e] s1] eqn:Em; destruct (Hm _ _ _ Hs Em) as [Hs1 Ha]; intros [= <- <-]; by split.
Qed.

Lemma ensures_not_supported {S A} (I : S → Prop) (m h : state S A) Q : ensures I m Q → ensures I h Q → ensures I (try_not_supported m h) Q.
Proof.
  intros Hm Hh s r s' Hs. unfold try_not_supported. destruct (m s) as [[a|e] s1] eqn:Em; destruct (Hm _ _ _ Hs Em) as [Hs1 Ha].
  - intros [= <- <-]. by split.
  - case_bool_decide; [by apply Hh|]. intros [= <- <-]. by split.
Qed.

(** ** What the device is asked and what it yields *)

(** A view of the state in which asking for keys and registering do not show. *)
Class Unseen {D V} (c : bitcoin_client D) (view : D → V) := {
  unseen_key p b d : view (c_get_extended_pubkey c p b d).2 = view d;
  unseen_fingerprint d : view (c_get_master_fingerprint c d).2 = view d;
  unseen_register w d : view (c_register_wallet c w d).2 = view d }.

(** One in which the signatures that the device yielded are written down, in
    their order. *)
Class Yields {D} (c : bitcoin_client D) (yielded : D → list (Z * PartialSignature)) := {
  yields_unseen :: Unseen c yielded;
  yields_sign psbt w h d sigs d' : c_sign_psbt c psbt w h d = (Ok sigs, d') → yielded d' = yielded d ++ sigs }.

(** The events of a run: what the device gave, the policies that it registered
    with the registrations that it returned, and the requests to sign. *)
Inductive ledger_event :=
  | GaveFingerprint (fp : bytes)
  | GaveKey (path xpub : pystr)
  | Registered (policy : WalletPolicy) (hmac : bytes)
  | AskedToSign (policy : WalletPolicy) (hmac : option bytes).

Definition answered {A} (f : A → ledger_event) (r : result A) : list ledger_event := match r with Ok a => [f a] | Err _ => [] end.

(** A view in which the events are written down, in their order. *)
Class Traced {D} (c : bitcoin_client D) (trace : D → list ledger_event) := {
  traced_key p b d r d' : c_get_extended_pubkey c p b d = (r, d') → trace d' = trace d ++ answered (GaveKey p) r;
  traced_fingerprint d r d' : c_get_master_fingerprint c d = (r, d') → trace d' = trace d ++ answered GaveFingerprint r;
  traced_register w d r d' : c_register_wallet c w d = (r, d') → trace d' = trace d ++ answered (λ ih, Registered w ih.2) r;
  traced_sign psbt w h d r d' : c_sign_psbt c psbt w h d = (r, d') → trace d' = trace d ++ [AskedToSign w h] }.

(** Every client can be given such views. *)
Definition log : Type := list (Z * PartialSignature) * list ledger_event.
Definition logging {D A} (m : state D A) (f : result A → log) : state (D * log) A := λ s,
  let '(r, d) := m s.1 in (r, (d, (s.2.1 ++ (f r).1, s.2.2 ++ (f r).2))).
Definition logged {D} (c : bitcoin_client D) : bitcoin_client (D * log) :=
  mkBitcoinClient (c_legacy c)
    (λ p b, logging (c_get_extended_pubkey c p b) (λ r, ([], answered (GaveKey p) r)))
    (logging (c_get_master_fingerprint c) (λ r, ([], answered GaveFingerprint r)))
    (λ w, logging (c_register_wallet c w) (λ r, ([], answered (λ ih, Registered w ih.2) r)))
    (λ w h change index display, logging (c_get_wallet_address c w h change index display) (λ _, ([], [])))
    (λ psbt w h, logging (c_sign_psbt c psbt w h) (λ r, (match r with Ok sigs => sigs | Err _ => [] end, [AskedToSign w h])))
    (λ m p, logging (c_sign_message c m p) (λ _, ([], []))) (logging (c_stop c) (λ _, ([], []))).

#[export] Instance logged_yields {D} (c : bitcoin_client D) : Yields (logged c) (λ s, s.2.1).
Proof.
  split; [split|]; intros; cbn in *; unfold logging in *.
  1-3: by case_match; cbn; rewrite app_nil_r.
  destruct (c_sign_psbt c psbt w h d.1) as [r d1]. by simplify_eq/=.
Qed.

#[export] Instance logged_traced {D} (c : bitcoin_client D) : Traced (logged c) (λ s, s.2.2).
Proof. split; intros; cbn in *; unfold logging in *; case_match; by simplify_eq/=. Qed.

(** ** What does not show *)

Section quiet.
Context `{Hashes} {D V : Type} (c : bitcoin_client D) (view : D → V) `{!Unseen c view} (chain : Chain) (v : V).
Notation quiet m := (ensures (λ d, view d = v) m (λ _, True)).
Lemma quiet_step {A} (m : state D A) : (∀ d, view (m d).2 = view d) → quiet m.
Proof. intros Hm d r d' <- Hr. split; [|done]. rewrite <- (Hm d). by rewrite Hr. Qed.

Lemma quiet_fingerprint : quiet (ledger_master_fingerprint c).
Proof. apply ensures_exception, quiet_step, unseen_fingerprint. Qed.

Lemma quiet_pubkey p : quiet (ledger_get_pubkey_at_path c p).
Proof.
  apply ensures_exception. eapply ensures_bind; [|intros x _; by apply ensures_liftS].
  apply ensures_not_supported; apply quiet_step; intros; apply unseen_key.
Qed.

Lemma quiet_register w : quiet (c_register_wallet c w).
Proof. apply quiet_step, unseen_register. Qed.
#[local] Hint Resolve quiet_fingerprint quiet_pubkey quiet_register : ensures.

Lemma quiet_default t account : quiet (_get_singlesig_default_wallet_policy c chain t account).
Proof. unfold _get_singlesig_default_wallet_policy. cbv zeta. by repeat ensures_step. Qed.
#[local] Hint Resolve quiet_default : ensures.

Lemma quiet_origins t l wallets : quiet (process_origins c chain t l wallets).
Proof.
  revert wallets. induction l as [|o l IH]; intros wallets; [by apply ensures_ret|]. apply (ensures_bind _ _ _ (λ _, True)); [|by intros a _].
  unfold process_origin. by repeat ensures_step.
Qed.

Lemma quiet_multisig xpubs psbt_in t k pubs wallets : quiet (add_multisig c xpubs psbt_in t k pubs wallets).
Proof. unfold add_multisig. by repeat ensures_step. Qed.
End quiet.

(** ** What the signatures change in an input *)

Definition spends_taproot (psbt_in : PsbtIn) : bool := match signing_utxo psbt_in with Ok utxo => is_taproot utxo | Err _ => false end.

Definition put_sigs (taproot : bool) (ys : list PartialSignature) (psbt_in : PsbtIn) : PsbtIn := foldl (put_sig taproot) psbt_in ys.

(** The same, except that a signature of the Taproot key that is there stays. *)
Definition put_new_sigs (taproot : bool) (ys : list PartialSignature) (psbt_in : PsbtIn) : PsbtIn :=
  let signed := put_sigs taproot ys psbt_in in
  if bool_decide (in_tap_key_sig psbt_in = []) then signed else set_tap_key_sig (in_tap_key_sig psbt_in) signed.

(** Of the signatures that were yielded, in their order, those for an input of [n]. *)
Definition sigs_of (n : nat) (ys : list (Z * PartialSignature)) (i : nat) : list PartialSignature :=
  omap (λ y, if bool_decide (resolve n y.1 = i) then Some y.2 else None) ys.

Lemma sigs_of_snoc n ys idx y i : sigs_of n (ys ++ [(idx, y)]) i = sigs_of n ys i ++ (if bool_decide (resolve n idx = i) then [y] else []).
Proof. unfold sigs_of. rewrite omap_app. f_equal. cbn. by case_bool_decide. Qed.

Lemma put_sigs_snoc t ys y x : put_sigs t (ys ++ [y]) x = put_sig t (put_sigs t ys x) y.
Proof. unfold put_sigs. by rewrite foldl_app. Qed.

(** Two inputs that differ only where no signature is stored. *)
Lemma put_sigs_utxo t ys w x : put_sigs t ys (set_witness_utxo w x) = set_witness_utxo w (put_sigs t ys x).
Proof.
  revert x. induction ys as [|y ys IH]; intros x; [done|]. simpl. rewrite <- IH. f_equal. unfold put_sig. destruct t; [destruct (tapleaf_hash y)|]; by destruct x.
Qed.

Lemma put_sigs_version t ys v x : put_sigs t ys (set_version v x) = set_version v (put_sigs t ys x).
Proof.
  revert x. induction ys as [|y ys IH]; intros x; [done|]. simpl. rewrite <- IH. f_equal. unfold put_sig. destruct t; [destruct (tapleaf_hash y)|]; by destruct x.
Qed.

(** Nothing else is changed. *)
Lemma put_sigs_shape t ys x :
  let x' := put_sigs t ys x in
  x' = set_partial_sigs (in_partial_sigs x') (set_tap_script_sigs (in_tap_script_sigs x') (set_tap_key_sig (in_tap_key_sig x') x)).
Proof.
  cbv zeta. induction ys as [|y ys IH] using rev_ind; [by destruct x|]. rewrite put_sigs_snoc. rewrite IH at 1. unfold put_sig.
  destruct t; [destruct (tapleaf_hash y)|]; destruct x; reflexivity.
Qed.

(** *** Updating a dictionary with one that grew out of it *)

Lemma dict_set_middle {K V} `{EqDecision K} (k : K) (v v' : V) (a b : pydict K V) : k ∉ a.*1 → dict_set k v (a ++ (k, v') :: b) = a ++ (k, v) :: b.
Proof.
  induction a as [|[k0 v0] a IH]; simpl; intros Hk; [by rewrite decide_True|]. apply not_elem_of_cons in Hk as [H1 H2].
  rewrite decide_False by congruence. by rewrite IH.
Qed.

Lemma update_split {K V} `{EqDecision K} (b a d : pydict K V) : NoDup (a ++ b).*1 → (∃ l, b.*1 = d.*1 ++ l) → dict_update (a ++ d) b = a ++ b.
Proof.
  revert a d. induction b as [|[k v] b IH]; intros a d Hn [l Hl].
  - destruct d as [|? ?]; done.
  - change (dict_update (dict_set k v (a ++ d)) b = a ++ (k, v) :: b). assert (k ∉ a.*1) as Hk.
    { rewrite fmap_app in Hn. apply NoDup_app in Hn as (_ & Hn & _). intros Hk. apply (Hn _ Hk). left. }
    assert (∃ d', dict_set k v (a ++ d) = (a ++ [(k, v)]) ++ d' ∧ ∃ l', b.*1 = d'.*1 ++ l') as (d' & -> & Hd').
    { destruct d as [|[k' v'] d].
      - exists []. rewrite !app_nil_r, dict_set_fresh by done. split; [done|]. by exists b.*1.
      - injection Hl as <- Hl. exists d. rewrite dict_set_middle by done. rewrite <- app_assoc. split; [done|by exists l]. }
    rewrite (IH (a ++ [(k, v)]) d'); rewrite <- ?app_assoc; done.
Qed.

(** [e] is [d] with some values replaced and some items added at the end. *)
Definition grown {K V} `{EqDecision K} (d e : pydict K V) : Prop := NoDup e.*1 ∧ ∃ l, e.*1 = d.*1 ++ l.

Lemma update_grown {K V} `{EqDecision K} (d e : pydict K V) : grown d e → dict_update d e = e.
Proof. intros [Hn Hl]. by apply (update_split e [] d). Qed.

Lemma grown_set {K V} `{EqDecision K} (d e : pydict K V) k v : grown d e → grown d (dict_set k v e).
Proof.
  intros [Hn [l Hl]]. split; [by apply dict_set_wf|]. destruct (decide (k ∈ e.*1)).
  - exists l. by rewrite dict_set_keys.
  - exists (l ++ [k]). by rewrite dict_set_fresh, fmap_app, Hl, <- app_assoc.
Qed.

Lemma grown_refl {K V} `{EqDecision K} (d : pydict K V) : dict_wf d → grown d d.
Proof. intros H. split; [done|]. exists []. by rewrite app_nil_r. Qed.

(** The dictionaries of signatures of an input are dictionaries. *)
Definition sigs_wf (psbt_in : PsbtIn) : Prop := dict_wf (in_partial_sigs psbt_in) ∧ dict_wf (in_tap_script_sigs psbt_in).

Lemma put_sigs_grown t ys x : sigs_wf x →
  grown (in_partial_sigs x) (in_partial_sigs (put_sigs t ys x)) ∧ grown (in_tap_script_sigs x) (in_tap_script_sigs (put_sigs t ys x)).
Proof.
  intros [Hp Ht]. induction ys as [|y ys IH] using rev_ind; [by split; apply grown_refl|]. rewrite put_sigs_snoc. destruct IH as [IHp IHt].
  unfold put_sig. destruct t; [destruct (tapleaf_hash y)|]; split; try done; by apply grown_set.
Qed.

Lemma merge_signed t ys w v x : sigs_wf x → merge_sigs (set_witness_utxo w (put_sigs t ys (set_version v x))) x = put_new_sigs t ys x.
Proof.
  intros Hx. destruct (put_sigs_grown t ys x Hx) as [Hp Ht]. rewrite put_sigs_version. unfold merge_sigs, put_new_sigs.
  rewrite (put_sigs_shape t ys x). set (x' := put_sigs t ys x) in *. cbn -[dict_update]. rewrite (update_grown _ _ Hp), (update_grown _ _ Ht).
  destruct (in_tap_key_sig x) eqn:Ek, (in_tap_key_sig x') eqn:Ek'; cbn; by rewrite ?Ek, ?Ek'; destruct x; cbn in *; subst.
Qed.

(** ** Preparing and signing *)

(** The input itself, except for the witness UTXO of one with its previous transaction. *)
Definition prepared (x x' : PsbtIn) : Prop :=
  ∃ w, x' = set_witness_utxo w x ∧ (in_non_witness_utxo x = None → w = in_witness_utxo x).

Lemma prepared_refl x : prepared x x.
Proof. exists (in_witness_utxo x). split; [by destruct x|done]. Qed.

Lemma with_utxo_prepared x utxo x' : with_utxo x = Ok (Some (utxo, x')) → prepared x x'.
Proof.
  unfold with_utxo. destruct (in_non_witness_utxo x) as [tx|] eqn:En.
  - intros (u & _ & (n & _ & (o & _ & [= <- <-])%bind_ok)%bind_ok)%bind_ok. exists (Some o). split; [done|]. by rewrite En.
  - destruct (in_witness_utxo x); intros [= <- <-]. apply prepared_refl.
Qed.

(** A version 2 copy differs in the version of its inputs. *)
Definition v2_copy (psbt : PSBT) : PSBT := if negb (psbt_version psbt =? 2) then convert_to_v2 psbt else psbt.

Lemma v2_input psbt i x : psbt_inputs psbt !! i = Some x → ∃ v, psbt_inputs (v2_copy psbt) !! i = Some (set_version v x).
Proof.
  intros Hx. unfold v2_copy. destruct (negb _).
  - exists 2. cbn. by rewrite list_lookup_fmap, Hx.
  - exists (in_version x). rewrite Hx. by destruct x.
Qed.

Lemma v2_length psbt : length (psbt_inputs (v2_copy psbt)) = length (psbt_inputs psbt).
Proof. unfold v2_copy. destruct (negb _); [|done]. cbn. by rewrite length_map. Qed.

Section prepare.
Context `{Hashes} {D V : Type} (c : bitcoin_client D) (view : D → V) `{!Unseen c view} (chain : Chain) (rds : list RegisteredDescriptor) (v : V).
Notation quiet := (ensures (λ d, view d = v)).

Lemma prepare_input_ensures fp xpubs x wallets : quiet (prepare_ledger_input c chain fp xpubs x wallets) (λ r, prepared x r.1).
Proof.
  unfold prepare_ledger_input. eapply ensures_bind; [apply ensures_lift|].
  intros [[utxo x']|] Hu; [|apply ensures_ret, prepared_refl].
  apply with_utxo_prepared in Hu. eapply ensures_bind; [apply ensures_lift|]. intros [[scriptcode t]|] _; [|by apply ensures_ret].
  eapply ensures_bind; [apply ensures_lift|]. intros m _. apply (ensures_bind _ _ _ (λ _, True)); [|intros w _; by apply ensures_ret].
  destruct m as [[k pubs]|]; [by apply (quiet_multisig c view)|by apply (quiet_origins c view)].
Qed.

Lemma prepare_inputs_ensures fp xpubs l wallets :
  quiet (prepare_ledger_inputs c chain fp xpubs l wallets) (λ r, Forall2 prepared l r.1).
Proof.
  revert wallets. induction l as [|x l IH]; intros wallets; [by apply ensures_ret|]. cbn [prepare_ledger_inputs].
  eapply ensures_bind; [by apply prepare_input_ensures|]. intros [x' w] Hx. eapply ensures_bind; [by apply IH|]. intros [l' w'] Hl.
  apply ensures_ret. by constructor.
Qed.

(** Everything before the device signs. *)
Lemma sign_tx_prepared psbt psbt' d d' : c_legacy c = false → view d = v → ledger_sign_tx c chain psbt rds d = (Ok psbt', d') →
  ∃ ins wallets psbt2 d1,
    Forall2 prepared (psbt_inputs (v2_copy psbt)) ins ∧ view d1 = v ∧
    sign_wallets c (by_priority wallets) (set_inputs ins (v2_copy psbt)) d1 = (Ok psbt2, d') ∧
    psbt' = set_inputs (merge_all (psbt_inputs psbt2) (psbt_inputs psbt)) psbt.
Proof.
  intros Hc Hv Hr. unfold ledger_sign_tx in Hr. rewrite exception_ok, Hc, andb_false_r in Hr.
  apply state_bind_ok in Hr as (fp & d1 & E1 & Hr). destruct (quiet_fingerprint c view v d _ _ Hv E1) as [Y1 _].
  apply state_bind_ok in Hr as (wallets & d2 & [= Ew <-] & Hr). apply state_bind_ok in Hr as ([ins w] & d3 & E3 & Hr).
  destruct (prepare_inputs_ensures fp _ _ wallets d1 _ _ Y1 E3) as [Y3 Hp].
  apply state_bind_ok in Hr as (psbt2 & d4 & E4 & [= <- <-]). exists ins, w, psbt2, d3. split; [by apply (Hp _ eq_refl)|done].
Qed.
End prepare.

(** The inputs of the copy, once the signatures [ys] were yielded. *)
Definition signed (ys : list (Z * PartialSignature)) (ins ins' : list PsbtIn) : Prop :=
  length ins' = length ins ∧ ∀ i x, ins !! i = Some x →
    ∃ w, ins' !! i = Some (set_witness_utxo w (put_sigs (spends_taproot x) (sigs_of (length ins) ys i) x)) ∧
    (in_non_witness_utxo x = None → w = in_witness_utxo x ∨ w = None).

Lemma signed_start ins ins' : Forall2 prepared ins ins' → signed [] ins ins'.
Proof.
  intros Hp. split; [by rewrite (Forall2_length _ _ _ Hp)|]. intros i x Hi. destruct (Forall2_lookup_l _ _ _ _ _ Hp Hi) as (x' & Hx' & w & -> & Hw).
  exists w. split; [done|]. intros Hn. left. by apply Hw.
Qed.

Lemma signed_drop ys ins ins' : signed ys ins ins' → signed ys ins (map drop_legacy_utxo ins').
Proof.
  intros [Hl Hs]. split; [by rewrite length_map|]. intros i x Hi. destruct (Hs i x Hi) as (w & Hx & Hw).
  rewrite list_lookup_fmap, Hx. cbn. unfold drop_legacy_utxo. cbn. destruct w as [u|]; [|by exists None].
  destruct (is_witness (scriptPubKey u)) as [[[] ?] ?]; cbn; [by exists (Some u)|]. exists None. split; [done|by right].
Qed.

(** The signature is stored in an input that still knows what it spends. *)
Lemma store_signed x ys w y x' : (in_non_witness_utxo x = None → w = in_witness_utxo x ∨ w = None) →
  store_yielded y (set_witness_utxo w (put_sigs (spends_taproot x) ys x)) = Ok x' →
  x' = set_witness_utxo w (put_sigs (spends_taproot x) (ys ++ [y]) x).
Proof.
  intros Hw (u & Hu & [= <-])%bind_ok.
  assert (signing_utxo x = Ok u) as Hx.
  { rewrite (put_sigs_shape (spends_taproot x) ys x) in Hu. unfold signing_utxo in *. cbn in Hu.
    destruct (in_non_witness_utxo x); [done|]. destruct Hw as [-> | ->]; done. }
  assert (spends_taproot x = is_taproot u) as -> by (unfold spends_taproot; by rewrite Hx).
  rewrite put_sigs_snoc. apply (put_sigs_utxo _ [y]).
Qed.

Lemma store_all_signed sigs ys ins l l' : signed ys ins l → store_all_yielded sigs l = Ok l' → signed (ys ++ sigs) ins l'.
Proof.
  revert ys l. induction sigs as [|[idx y] sigs IH]; intros ys l Hs; cbn [store_all_yielded].
  - intros [= <-]. by rewrite app_nil_r.
  - intros (z & Hz & (x' & Hx' & E)%bind_ok)%bind_ok. change ((idx, y) :: sigs) with ([(idx, y)] ++ sigs). rewrite app_assoc.
    refine (IH _ _ _ E). clear IH E. destruct Hs as [Hl Hs].
    assert (l !! resolve (length l) idx = Some z) as Hi.
    { unfold index_py in Hz. case_match; [done|]. unfold resolve. fold (len l). by destruct (l !! _); simplify_eq/=. }
    split; [by rewrite length_insert|]. intros i x Hx. destruct (Hs i x Hx) as (w & Hw & Hn). rewrite <- Hl, sigs_of_snoc. rewrite <- Hl in Hw.
    exists w. split; [|done]. case_bool_decide as Hr.
    + subst i. rewrite list_lookup_insert_eq by (by apply lookup_lt_Some in Hi). f_equal. rewrite Hi in Hw. injection Hw as ->.
      by apply store_signed.
    + rewrite list_lookup_insert_ne, app_nil_r by done. done.
Qed.

Lemma sign_wallets_signed {D} (c : bitcoin_client D) yielded `{!Yields c yielded} ws psbt2 d psbt2' d' ys ins :
  sign_wallets c ws psbt2 d = (Ok psbt2', d') → signed ys ins (psbt_inputs psbt2) →
  ∃ sigs, yielded d' = yielded d ++ sigs ∧ signed (ys ++ sigs) ins (psbt_inputs psbt2').
Proof.
  revert ys psbt2 d. induction ws as [|w ws IH]; intros ys psbt2 d; cbn [sign_wallets].
  - intros [= <- <-] Hs. exists []. by rewrite !app_nil_r.
  - set (p := if bool_decide (sw_type w = LEGACY) then _ else _). intros (sigs & d1 & Hsign & E)%state_bind_ok Hs.
    assert (signed ys ins (psbt_inputs p)) as Hp by (subst p; case_bool_decide; [by apply signed_drop|done]).
    apply state_bind_ok in E as (l & d2 & [= Hl <-] & E). apply (store_all_signed _ _ _ _ _ Hp) in Hl.
    destruct (IH _ _ _ E Hl) as (sigs' & Hy & Hs'). exists (sigs ++ sigs'). by rewrite Hy, (yields_sign _ _ _ _ _ _ Hsign), !app_assoc.
Qed.

Lemma merge_all_imap (f : nat → PsbtIn → PsbtIn) l l' : length l' = length l →
  (∀ i x, l !! i = Some x → ∃ x', l' !! i = Some x' ∧ merge_sigs x' x = f i x) → merge_all l' l = imap f l.
Proof.
  revert f l'. induction l as [|x l IH]; intros f [|x' l'] Hl Hm; try done. cbn. f_equal.
  - by destruct (Hm 0%nat x eq_refl) as (? & [= <-] & ?).
  - apply IH; [by injection Hl|]. intros i z Hz. by apply (Hm (S i)).
Qed.

(** ** The policies that a Ledger signs with *)

(** What an input has to spend: the script itself, the redeem script or the
    witness script, and what type of address that is. *)
Definition spent_script (x : PsbtIn) (utxo : CTxOut) : bytes :=
  if is_p2sh (scriptPubKey utxo) then in_redeem_script x else scriptPubKey utxo.
Definition bottom_script (x : PsbtIn) (utxo : CTxOut) : bytes :=
  if is_p2wsh (spent_script x utxo) then in_witness_script x else spent_script x utxo.
Definition spent_type (x : PsbtIn) (utxo : CTxOut) : AddressType :=
  let '(is_wit, ver, _) := is_witness (spent_script x utxo) in
  if negb is_wit then LEGACY else if is_p2sh (scriptPubKey utxo) then SH_WIT else if ver =? 0 then WIT else TAP.

(** The scripts that this takes are there, and the program is of a known version. *)
Definition spendable (x : PsbtIn) (utxo : CTxOut) : Prop :=
  (is_p2sh (scriptPubKey utxo) = true → in_redeem_script x ≠ []) ∧
  (is_p2wsh (spent_script x utxo) = true → in_witness_script x ≠ []) ∧
  (is_witness (spent_script x utxo)).1.2 <= 1.

(** The keys of an input: those with an origin, and of the Taproot ones the internal key. *)
Definition key_origin (x : PsbtIn) (o : KeyOriginInfo) : Prop :=
  (∃ pub, (pub, o) ∈ in_hd_keypaths x) ∨ ∃ leaves, (in_tap_internal_key x, (leaves, o)) ∈ in_tap_bip32_paths x.

Definition keys_with_origin (x : PsbtIn) (pubs : list bytes) : list KeyOriginInfo := omap (λ pub, dict_get pub (in_hd_keypaths x)) pubs.

Section policies.
Context `{Hashes} (chain : Chain) (rds : list RegisteredDescriptor) (xpubs : pydict bytes KeyOriginInfo).

(** A key expression for an extended key of the PSBT above a key of this origin. *)
Definition key_expr (o : KeyOriginInfo) (e : pystr) : Prop :=
  ∃ xpub xo key s, (xpub, xo) ∈ xpubs ∧ fingerprint xo = fingerprint o ∧ path xo `prefix_of` path o ∧
    ExtendedKey_from_bytes xpub = Ok key ∧ ExtendedKey_to_string key = Ok s ∧
    e = $"[" ++ KeyOriginInfo_to_string xo $"'" ++ $"]" ++ s.

(** The output script of a single key as a descriptor. *)
Definition single_key_form (t : AddressType) (key : pystr) : pystr :=
  match t with
  | LEGACY => $"pkh(" ++ key ++ $")"
  | WIT => $"wpkh(" ++ key ++ $")"
  | SH_WIT => $"sh(" ++ ($"wpkh(" ++ key ++ $")") ++ $")"
  | TAP => $"tr(" ++ key ++ $")"
  end.

(** The policy of an account, made of what the device gave before. *)
Definition account_policy (before : list ledger_event) (t : AddressType) (account : Z) (p : WalletPolicy) : Prop :=
  ∃ fp xpub key s, let origin := {| fingerprint := fp; path := account_path chain t account |} in
    GaveFingerprint fp ∈ before ∧ GaveKey ($"m" ++ KeyOriginInfo_path_string origin $"'") xpub ∈ before ∧
    ExtendedKey_deserialize xpub = Ok key ∧ ExtendedKey_to_string key = Ok s ∧
    p = {| wp_name := []; wp_version := WALLET_POLICY_V2; descriptor_template := single_key_form t $"@0/**";
           keys_info := [$"[" ++ KeyOriginInfo_to_string origin $"'" ++ $"]" ++ s] |}.

(** The policies that may sign, with their ids. *)
Inductive wallet_ok (ins : list PsbtIn) (before : list ledger_event) (id : bytes) : signing_wallet → Prop :=
  | registered_ok rd p t :
      rd ∈ rds → descriptor_policy (rd_name rd) (rd_descriptor rd) = Ok p → get_address_type (rd_descriptor rd) = Some t →
      wallet_id p = Ok id → wallet_ok ins before id (mkWallet (signing_priority t) t p (Some (rd_registration rd)))
  | multisig_ok x utxo k pubs exprs p hmac :
      x ∈ ins → signing_utxo x = Ok utxo → parse_multisig (bottom_script x utxo) = Ok (Some (k, pubs)) →
      Forall2 (key_expr) (keys_with_origin x pubs) exprs →
      MultisigWallet_new (multisig_name k (len exprs)) (spent_type x utxo) k exprs true WALLET_POLICY_V2 = Ok p →
      wallet_id p = Ok id → Registered p hmac ∈ before →
      wallet_ok ins before id (mkWallet (signing_priority (spent_type x utxo)) (spent_type x utxo) p (Some hmac))
  | account_ok x utxo o account change index p0 p :
      x ∈ ins → signing_utxo x = Ok utxo → parse_multisig (bottom_script x utxo) = Ok None →
      key_origin x o → GaveFingerprint (fingerprint o) ∈ before →
      path o = account_path chain (spent_type x utxo) account ++ [change; index] →
      account_policy before (spent_type x utxo) account p0 → account_policy before (spent_type x utxo) account p → wallet_id p0 = Ok id →
      wallet_ok ins before id (mkWallet (signing_priority (spent_type x utxo)) (spent_type x utxo) p None).

(** The policy of the account of a key, if its path is a standard one, is among
    those with the ids [ids]. *)
Definition origin_covered (before : list ledger_event) (ids : list bytes) (t : AddressType) (o : KeyOriginInfo) : Prop :=
  ∀ account change index, is_hardened account = true → change = 0 ∨ change = 1 → is_hardened index = false →
    path o = account_path chain t account ++ [change; index] →
    ∃ p id, account_policy before t account p ∧ wallet_id p = Ok id ∧ id ∈ ids.

(** The policies of a spendable input, of whose keys those with the fingerprint [fp]
    are the device's, are among those with the ids [ids]. *)
Definition input_covered (before : list ledger_event) (fp : bytes) (ids : list bytes) (x : PsbtIn) : Prop :=
  ∀ utxo, signing_utxo x = Ok utxo → spendable x utxo →
    match parse_multisig (bottom_script x utxo) with
    | Ok (Some (k, pubs)) => Forall (λ o, ∃ e, key_expr o e) (keys_with_origin x pubs) →
        ∃ exprs p id, Forall2 (key_expr) (keys_with_origin x pubs) exprs ∧
          MultisigWallet_new (multisig_name k (len exprs)) (spent_type x utxo) k exprs true WALLET_POLICY_V2 = Ok p ∧
          wallet_id p = Ok id ∧ id ∈ ids
    | Ok None => ∀ o, key_origin x o → fingerprint o = fp → origin_covered before ids (spent_type x utxo) o
    | Err _ => False
    end.

Definition registered_covered (ids : list bytes) : Prop :=
  ∀ rd, rd ∈ rds → ∃ p id, descriptor_policy (rd_name rd) (rd_descriptor rd) = Ok p ∧ wallet_id p = Ok id ∧ id ∈ ids.

(** More events and more policies do no harm. *)
Lemma account_policy_mono before after t account p : before ⊆ after → account_policy before t account p → account_policy after t account p.
Proof. intros Hs (fp & xpub & key & s & H1 & H2 & H3). exists fp, xpub, key, s. split; [by apply Hs|]. split; [by apply Hs|done]. Qed.

Lemma wallet_ok_mono ins ins' before after id w : ins ⊆ ins' → before ⊆ after → wallet_ok ins before id w → wallet_ok ins' after id w.
Proof.
  intros Hi Hs [rd p t H1 H2 H3 H4|x utxo k pubs exprs p hmac H1 H2 H3 H4 H5 H6 H7|x utxo o account change index p0 p H1 H2 H3 H4 H5 H6 H7 H8 H9].
  - by eapply registered_ok.
  - apply Hi in H1. apply Hs in H7. by eapply multisig_ok.
  - apply Hi in H1. apply Hs in H5. apply (account_policy_mono _ _ _ _ _ Hs) in H7, H8. by apply (account_ok ins' after id x utxo o account change index p0 p).
Qed.

Lemma origin_covered_mono before after ids ids' t o : before ⊆ after → ids ⊆ ids' → origin_covered before ids t o → origin_covered after ids' t o.
Proof.
  intros Hs Hi Ho account change index H1 H2 H3 H4. destruct (Ho account change index H1 H2 H3 H4) as (p & id & Hp & ? & ?).
  exists p, id. split; [by eapply account_policy_mono|]. auto.
Qed.

Lemma input_covered_mono before after fp ids ids' x : before ⊆ after → ids ⊆ ids' → input_covered before fp ids x → input_covered after fp ids' x.
Proof.
  intros Hs Hi Hx utxo Hu Hok. specialize (Hx utxo Hu Hok). destruct (parse_multisig _) as [[[k pubs]|]|]; [..|done].
  - intros Hf. destruct (Hx Hf) as (es & p & id & ? & ? & ? & ?). exists es, p, id. auto.
  - intros o H1 H2. by eapply origin_covered_mono, Hx.
Qed.

(** The dictionary of the policies that sign. *)
Definition wallets_ok (ins : list PsbtIn) (before : list ledger_event) (wallets : pydict bytes signing_wallet) : Prop :=
  dict_wf wallets ∧ ∀ id w, (id, w) ∈ wallets → wallet_ok ins before id w.

Lemma wallets_ok_mono ins ins' before after wallets : ins ⊆ ins' → before ⊆ after → wallets_ok ins before wallets → wallets_ok ins' after wallets.
Proof. intros Hi Hs [Hd Hw]. split; [done|]. intros id w Hin. by eapply wallet_ok_mono, Hw. Qed.

Lemma wallets_ok_set ins before id w wallets : wallet_ok ins before id w → wallets_ok ins before wallets → wallets_ok ins before (dict_set id w wallets).
Proof.
  intros Hw [Hd Ha]. split; [by apply dict_set_wf|]. intros id' w' Hin. apply (elem_dict_get _ _ _ (dict_set_wf _ _ _ Hd)) in Hin.
  rewrite dict_get_set in Hin. case_decide as E; [by simplify_eq|]. apply Ha. by apply dict_get_Some_elem.
Qed.

Lemma ids_set (id : bytes) (w : signing_wallet) wallets : id ∈ (dict_set id w wallets).*1 ∧ wallets.*1 ⊆ (dict_set id w wallets).*1.
Proof.
  destruct (decide (id ∈ wallets.*1)) as [Hi|Hi]; [by rewrite dict_set_keys|].
  rewrite dict_set_fresh, fmap_app by done. set_solver.
Qed.

Lemma add_registered_ok ins before l wallets ws : l ⊆ rds → wallets_ok ins before wallets → add_registered l wallets = Ok ws →
  wallets_ok ins before ws ∧ wallets.*1 ⊆ ws.*1 ∧
  ∀ rd, rd ∈ l → ∃ p id, descriptor_policy (rd_name rd) (rd_descriptor rd) = Ok p ∧ wallet_id p = Ok id ∧ id ∈ ws.*1.
Proof.
  revert wallets. induction l as [|rd l IH]; intros wallets Hl Hw; cbn [add_registered]; [intros [= <-]; split; [done|]; set_solver|].
  intros (p & Hp & (t & Ht & (id & Hid & E)%bind_ok)%bind_ok)%bind_ok. destruct (ids_set id (mkWallet (signing_priority t) t p (Some (rd_registration rd))) wallets) as [I1 I2].
  destruct (IH _ ltac:(set_solver) (wallets_ok_set ins before id (mkWallet (signing_priority t) t p (Some (rd_registration rd))) _
    ltac:(eapply registered_ok; [set_solver|done|by destruct (get_address_type _); simplify_eq/=|done]) Hw) E) as (W & S & C).
  split; [done|]. split; [set_solver|]. intros rd' [->|Hr]%elem_of_cons; [|by apply C]. exists p, id. auto.
Qed.

Lemma registered_wallets_ok ins before ws : registered_wallets rds = Ok ws → wallets_ok ins before ws ∧ registered_covered ws.*1.
Proof.
  intros (keyed & Hk & E)%bind_ok. assert (map snd (sort_by (λ a b, text_lt a.1 b.1) keyed) ≡ₚ rds) as Hp.
  { change (snd <$> sort_by (λ a b, text_lt a.1 b.1) keyed ≡ₚ rds). rewrite sort_by_perm. apply mapR_Forall2 in Hk.
    clear E. induction Hk as [|rd [s rd'] l k (s' & _ & [= _ ->])%bind_ok Hk IH]; [done|]. cbn. by rewrite IH. }
  destruct (λ H1 H2, add_registered_ok ins before _ [] ws H1 H2 E) as (W & _ & C); [by rewrite Hp|split; [constructor|by intros ?? ?%elem_of_nil]|].
  split; [done|]. intros rd Hr. apply C. by rewrite Hp.
Qed.
End policies.

(** ** The events of a run *)

Definition signing (e : ledger_event) : bool := if e is AskedToSign _ _ then true else false.

(** [tracks before m Q]: with the events [before] behind it, [m] adds events that
    are no requests to sign, and what it returns has [Q] with all of them. *)
Definition tracks {D A} (trace : D → list ledger_event) (before : list ledger_event) (m : state D A) (Q : list ledger_event → A → Prop) : Prop :=
  ∀ d r d', m d = (r, d') → ∃ evs, trace d' = trace d ++ evs ∧ Forall (λ e, signing e = false) evs ∧ ∀ a, r = Ok a → Q (before ++ evs) a.

Section tracks.
Context {D : Type} (trace : D → list ledger_event) (before : list ledger_event).
Notation tracks := (tracks trace).

Lemma tracks_ret {A} (a : A) (Q : list ledger_event → A → Prop) : Q before a → tracks before (mret a) Q.
Proof. intros Ha d r d' [= <- <-]. exists []. rewrite !app_nil_r. split; [done|]. split; [done|]. by intros a' [= <-]. Qed.

Lemma tracks_lift {A} (x : result A) : tracks before (liftS x) (λ evs a, evs = before ∧ x = Ok a).
Proof. intros d r d' [= <- <-]. exists []. rewrite !app_nil_r. done. Qed.

Lemma tracks_bind {A B} (m : state D A) (f : A → state D B) P Q :
  tracks before m P → (∀ evs a, before ⊆ evs → P evs a → tracks evs (f a) Q) → tracks before (m ≫= f) Q.
Proof.
  intros Hm Hf d r d' Hr. destruct (m d) as [[a|e] d1] eqn:Em; destruct (Hm _ _ _ Em) as (evs & T1 & N1 & Ha).
  - rewrite (state_bind_eval _ _ _ _ _ Em) in Hr. destruct (Hf (before ++ evs) a ltac:(set_solver) (Ha a eq_refl) _ _ _ Hr) as (evs' & T2 & N2 & Hq).
    exists (evs ++ evs'). rewrite T2, T1, !app_assoc. split; [done|]. split; [by apply Forall_app|]. exact Hq.
  - rewrite (state_bind_err _ _ _ _ _ Em) in Hr. injection Hr as <- <-. by exists evs.
Qed.

Lemma tracks_weaken {A} (m : state D A) P Q : tracks before m P → (∀ evs a, before ⊆ evs → P evs a → Q evs a) → tracks before m Q.
Proof. intros Hm Hpq d r d' Hr. destruct (Hm _ _ _ Hr) as (evs & T & N & Hp). exists evs. split; [done|]. split; [done|]. intros a Ha. apply Hpq; [set_solver|by apply Hp]. Qed.

(** One event, or none where the device fails. *)
Lemma tracks_event {A} (m : state D A) (f : A → ledger_event) (Hf : ∀ a, signing (f a) = false) :
  (∀ d r d', m d = (r, d') → trace d' = trace d ++ answered f r) → tracks before m (λ evs a, f a ∈ evs).
Proof.
  intros Hm d r d' Hr. exists (answered f r). split; [by apply Hm|]. split; [destruct r; by repeat constructor|].
  intros a ->. cbn. set_solver.
Qed.

Lemma tracks_exception {A} (m : state D A) Q : tracks before m Q → tracks before (ledger_exception m) Q.
Proof.
  intros Hm d r d' Hr. unfold ledger_exception in Hr. destruct (m d) as [[a|e] d1] eqn:Em; destruct (Hm _ _ _ Em) as (evs & T & N & Ha);
    injection Hr as <- <-; exists evs; by repeat split.
Qed.

Lemma tracks_not_supported {A} (m h : state D A) Q : tracks before m Q → (∀ evs, before ⊆ evs → tracks evs h Q) → tracks before (try_not_supported m h) Q.
Proof.
  intros Hm Hh d r d' Hr. unfold try_not_supported in Hr. destruct (m d) as [[a|e] d1] eqn:Em; destruct (Hm _ _ _ Em) as (evs & T & N & Ha).
  - injection Hr as <- <-. by exists evs.
  - case_bool_decide; [|injection Hr as <- <-; exists evs; by repeat split].
    destruct (Hh (before ++ evs) ltac:(set_solver) _ _ _ Hr) as (evs' & T2 & N2 & Hq). exists (evs ++ evs').
    rewrite T2, T, !app_assoc. split; [done|]. split; [by apply Forall_app|]. exact Hq.
Qed.
End tracks.

(** [str_int] writes digits and a sign. *)
Lemma str_int_plain x n : is_digit x = false → x ≠ chr 45 → x ∉ str_int n.
Proof.
  intros Hx Hm Hin. unfold str_int in Hin.
  assert (∀ k, 0 <= k → x ∉ str_nat k) as Hn.
  { intros k Hk Hi. pose proof (str_nat_digits k Hk) as Hd. rewrite Forall_forall in Hd. by rewrite (Hd x Hi) in Hx. }
  destruct (Z.ltb_spec n 0); [apply elem_of_cons in Hin as [->|Hin]; [done|]|]; eapply Hn; try exact Hin; lia.
Qed.

(** The path of an account is asked for with apostrophes. *)
Lemma apostrophes p : str_replace $"H" $"'" (str_replace $"h" $"'" ($"m" ++ path_to_string p $"h")) = $"m" ++ path_to_string p $"'".
Proof.
  assert (∀ i x, x = chr 104 ∨ x = chr 72 → x ∉ $"/" ++ str_int i) as Hc.
  { intros i x Hx. rewrite not_elem_of_app. split; [by destruct Hx as [-> | ->]; apply (bool_decide_unpack _); vm_compute|].
    destruct Hx as [-> | ->]; by apply str_int_plain. }
  assert (str_replace $"h" $"'" (path_to_string p $"h") = path_to_string p $"'" ∧ chr 72 ∉ path_to_string p $"'") as [Hh HH].
  { induction p as [|i p [IH1 IH2]]; [split; [done|by apply not_elem_of_nil]|].
    assert (∀ hc, path_to_string (i :: p) hc = ($"/" ++ str_int (Z.land i (Z.lnot HARDENED_FLAG))) ++ (if is_hardened i then hc else []) ++ path_to_string p hc) as E.
    { intros hc. unfold path_to_string. cbn [map _path_to_string concat]. unfold index_to_str. destruct (is_hardened i); by rewrite <- !app_assoc. }
    rewrite !E. split.
    - change ($"h") with [chr 104] at 1. rewrite replace_plain by (by apply Hc; left). f_equal. change [chr 104] with ($"h").
      destruct (is_hardened i); [|done]. rewrite replace_hit by done. by rewrite IH1.
    - rewrite !not_elem_of_app. split; [by rewrite <- not_elem_of_app; apply Hc; right|]. split; [|done].
      destruct (is_hardened i); by apply (bool_decide_unpack _); vm_compute. }
  change ($"h") with [chr 104] at 1. rewrite replace_plain by (by apply (bool_decide_unpack _); vm_compute). change [chr 104] with ($"h"). rewrite Hh.
  apply replace_plain_all. apply not_elem_of_app. split; [by apply (bool_decide_unpack _); vm_compute|done].
Qed.

(** ** Scripts, keys and origins *)

Section origins.
Context `{Hashes}.

Lemma spend_script_spec x utxo r : spend_script x utxo = Ok r →
  match r with Some (s, t) => s = bottom_script x utxo ∧ t = spent_type x utxo | None => ¬ spendable x utxo end.
Proof.
  unfold spend_script, spendable, bottom_script, spent_type, spent_script, script_type. destruct (is_p2sh (scriptPubKey utxo)) eqn:Es; cbn [andb].
  - case_bool_decide as Hr; [intros [= <-] [Hn _]; by apply Hn|].
    destruct (is_witness (in_redeem_script x)) as [[w v] pr] eqn:Ew. unfold is_p2wsh. rewrite Ew. destruct w; cbn [negb]; [|by intros [= <-]].
    destruct (Z.eqb_spec v 0); [|done]. rewrite bind_Ok. cbn [negb]. destruct (len pr =? 32); [|by intros [= <-]].
    case_bool_decide as Hw; intros [= <-]; [|done]. intros (_ & Hn & _). by apply Hn.
  - destruct (is_witness (scriptPubKey utxo)) as [[w v] pr] eqn:Ew. unfold is_p2wsh. rewrite Ew. destruct w; cbn [negb]; [|by intros [= <-]].
    assert (0 <= v) as Hv by (by apply is_witness_iff in Ew as [[? _] _]). rewrite bind_Ok. destruct (Z.eqb_spec v 0) as [->|]; cbn [negb].
    + destruct (len pr =? 32); [|by intros [= <-]]. case_bool_decide as Hw; intros [= <-]; [|done]. intros (_ & Hn & _). by apply Hn.
    + destruct (Z.eqb_spec v 1); intros [= <-]; [done|]. cbn. intros (_ & _ & Hn). lia.
Qed.

Lemma with_utxo_spec x r : with_utxo x = Ok r →
  match r with Some (utxo, x') => signing_utxo x = Ok utxo ∧ ∃ w, x' = set_witness_utxo w x | None => ∀ utxo, signing_utxo x ≠ Ok utxo end.
Proof.
  unfold with_utxo, signing_utxo. destruct (in_non_witness_utxo x) as [tx|].
  - intros (u & _ & (n & Hn & (o & Ho & [= <-])%bind_ok)%bind_ok)%bind_ok. rewrite Hn, bind_Ok, Ho. split; [done|]. by exists (Some o).
  - destruct (in_witness_utxo x) as [o|] eqn:Eo; intros [= <-]; [|done]. split; [done|]. exists (Some o). destruct x; cbn in *; by subst.
Qed.

Lemma our_origins_iff fp x o : o ∈ our_origins fp x ↔ key_origin x o ∧ fingerprint o = fp.
Proof.
  unfold our_origins, key_origin. rewrite elem_of_app, list_elem_of_filter, list_elem_of_omap. split.
  - intros [[Hf ([pub o'] & -> & Hin)%list_elem_of_fmap]|([key [leaves o']] & Hin & E)]; [split; [left; by exists pub|done]|].
    case_bool_decide; [|done]. case_bool_decide; [|done]. cbn in E. simplify_eq. split; [right; by exists leaves|done].
  - intros [[[pub Hin]|[leaves Hin]] Hf]; [left|right].
    + split; [done|]. by apply (list_elem_of_fmap_2 snd _ (pub, o)).
    + eexists; split; [exact Hin|]. cbn. by rewrite !bool_decide_eq_true_2.
Qed.

Lemma provider_text o s p : PubkeyProvider_init (Some o) s None 0 false = Ok p →
  PubkeyProvider_to_string $"'" p = $"[" ++ KeyOriginInfo_to_string o $"'" ++ $"]" ++ s.
Proof. intros (k & _ & [= <-])%bind_ok. unfold PubkeyProvider_to_string, pp_origin_string, pp_path_string. cbn [pp_origin pp_pubkey pp_deriv_path pp_ranged]. by rewrite !app_nil_r, <- !app_assoc. Qed.

Lemma parent_expr_spec xpubs o r : parent_expr o xpubs = Ok r →
  match r with Some e => key_expr xpubs o e | None => ¬ ∃ e, key_expr xpubs o e end.
Proof.
  revert r. induction xpubs as [|[xb xo] xpubs IH]; intros r; cbn [parent_expr].
  - intros [= <-] (e & xb & xo & k & s & Hin%elem_of_nil & _). done.
  - intros (k & Hk & Hr)%bind_ok. destruct (bool_decide (fingerprint xo = _) && _) eqn:E.
    + apply andb_true_iff in E as [E1%bool_decide_eq_true E2%bool_decide_eq_true]. apply bind_ok in Hr as (s & Hs & (p & Hp & [= <-])%bind_ok).
      exists xb, xo, k, s. split; [left|]. split; [done|]. split; [rewrite E2; apply prefix_take|]. split; [done|]. split; [done|]. by apply provider_text.
    + apply IH in Hr. destruct r as [e|].
      * destruct Hr as (xb' & xo' & k' & s' & Hin & Hr). exists xb', xo', k', s'. split; [by right|done].
      * intros (e & xb' & xo' & k' & s' & [[= -> ->]|Hin]%elem_of_cons & Hf & Hp & Hrest); [|apply Hr; by exists e, xb', xo', k', s'].
        rewrite bool_decide_eq_true_2, bool_decide_eq_true_2 in E; [done| |done]. destruct Hp as [rest ->]. by rewrite take_app_length.
Qed.

Lemma multisig_exprs_spec x xpubs pubs es ok : multisig_exprs (in_hd_keypaths x) xpubs pubs = Ok (es, ok) →
  if ok then Forall2 (key_expr xpubs) (keys_with_origin x pubs) es else ¬ Forall (λ o, ∃ e, key_expr xpubs o e) (keys_with_origin x pubs).
Proof.
  revert es ok. induction pubs as [|pub pubs IH]; intros es ok; cbn [multisig_exprs]; [intros [= <- <-]; constructor|].
  intros (e & He & ([es' ok'] & Hes & [= <- <-])%bind_ok)%bind_ok. specialize (IH _ _ Hes). unfold keys_with_origin in *. cbn [omap list_omap].
  destruct (dict_get pub (in_hd_keypaths x)) as [o|]; [|injection He as <-; exact IH].
  apply bind_ok in He as ([t|] & Ht%parent_expr_spec & [= <-]); cbn.
  - destruct ok'; [by constructor|]. intros [_ Hf]%Forall_cons. by apply IH.
  - intros [Hf _]%Forall_cons. by apply Ht.
Qed.
End origins.

(** ** What the driver does before it signs *)

Section driver_tracks.
Context `{Hashes} {D : Type} (c : bitcoin_client D) (trace : D → list ledger_event) `{!Traced c trace} (chain : Chain).
Context (rds : list RegisteredDescriptor) (xpubs : pydict bytes KeyOriginInfo) (ins : list PsbtIn).
Notation tracks := (tracks trace).
Notation wallets_ok := (wallets_ok chain rds xpubs ins).

Lemma tracks_fingerprint before : tracks before (ledger_master_fingerprint c) (λ evs fp, GaveFingerprint fp ∈ evs).
Proof. by apply tracks_exception, tracks_event; [|apply traced_fingerprint]. Qed.

Lemma tracks_pubkey before p : tracks before (ledger_get_pubkey_at_path c p) (λ evs key, ∃ xpub,
  GaveKey (str_replace $"H" $"'" (str_replace $"h" $"'" p)) xpub ∈ evs ∧ ExtendedKey_deserialize xpub = Ok key).
Proof.
  apply tracks_exception. eapply tracks_bind.
  - apply tracks_not_supported; [|intros evs _]; by eapply tracks_event, traced_key.
  - intros evs xpub _ Hx. eapply tracks_weaken; [apply tracks_lift|]. intros evs' key _ [-> Hk]. by exists xpub.
Qed.

Lemma tracks_default before t account : tracks before (_get_singlesig_default_wallet_policy c chain t account) (λ evs p, account_policy chain evs t account p).
Proof.
  unfold _get_singlesig_default_wallet_policy. eapply tracks_bind; [apply tracks_fingerprint|]. intros evs fp _ Hf.
  eapply tracks_bind; [apply tracks_pubkey|]. intros evs2 key Hs (xpub & Hx & Hk). unfold KeyOriginInfo_path_string in Hx. rewrite apostrophes in Hx.
  eapply tracks_weaken; [apply tracks_lift|]. intros ? p _ [-> (s & Es & (pk & Hp%provider_text & [= <-])%bind_ok)%bind_ok].
  exists fp, xpub, key, s. split; [by apply Hs|]. rewrite Hp. by destruct t.
Qed.

Lemma tracks_origin before x utxo o wallets : x ∈ ins → signing_utxo x = Ok utxo → parse_multisig (bottom_script x utxo) = Ok None →
  key_origin x o → GaveFingerprint (fingerprint o) ∈ before → wallets_ok before wallets →
  tracks before (process_origin c chain (spent_type x utxo) o wallets) (λ evs ws,
    wallets_ok evs ws ∧ wallets.*1 ⊆ ws.*1 ∧ origin_covered chain evs ws.*1 (spent_type x utxo) o).
Proof.
  intros Hx Hu Hm Ho Hf Hw. unfold process_origin. destruct (is_standard_path _ _ _) eqn:Es; cbn [negb].
  2:{ apply tracks_ret. split; [done|]. split; [done|]. intros a ch ix Ha Hc Hi Hp. exfalso. revert Es. apply not_false_iff_true.
    apply standard_path_exact. exists a, ch, ix. rewrite Hp. unfold account_path. by rewrite (harden_id _ Ha). }
  apply standard_path_exact in Es as (account & change & index & Hp & Ha & Hc & Hi). rewrite Hp.
  eapply tracks_bind; [apply tracks_lift|]. intros ? ? _ [-> [= <-]].
  eapply tracks_bind; [apply tracks_default|]. intros e1 p0 S1 H0. eapply tracks_bind; [apply tracks_default|]. intros e2 p S2 H1.
  eapply tracks_bind; [apply tracks_lift|]. intros ? id _ [-> Hid]. apply tracks_ret.
  apply (account_policy_mono _ _ _ _ _ _ S2) in H0. assert (before ⊆ e2) as S by set_solver.
  destruct (ids_set id (mkWallet (signing_priority (spent_type x utxo)) (spent_type x utxo) p None) wallets) as [I1 I2].
  split; [|split; [done|]].
  - apply wallets_ok_set; [|by eapply wallets_ok_mono]. apply (account_ok _ _ _ _ _ _ x utxo o account change index p0 p); try done; [by apply S|].
    unfold account_path. by rewrite (harden_id _ Ha).
  - intros account' ch ix Ha' _ _ E. unfold account_path in E. rewrite Hp, (harden_id _ Ha') in E. injection E as <- _ _. by exists p0, id.
Qed.

Lemma tracks_origins before x utxo l wallets : x ∈ ins → signing_utxo x = Ok utxo → parse_multisig (bottom_script x utxo) = Ok None →
  Forall (λ o, key_origin x o ∧ GaveFingerprint (fingerprint o) ∈ before) l → wallets_ok before wallets →
  tracks before (process_origins c chain (spent_type x utxo) l wallets) (λ evs ws,
    wallets_ok evs ws ∧ wallets.*1 ⊆ ws.*1 ∧ Forall (origin_covered chain evs ws.*1 (spent_type x utxo)) l).
Proof.
  intros Hx Hu Hm. revert before wallets. induction l as [|o l IH]; intros before wallets Hl Hw; [by apply tracks_ret|]. cbn [process_origins].
  apply Forall_cons in Hl as [[Ho Hf] Hl]. eapply tracks_bind; [by apply tracks_origin|]. intros evs ws S (W & K & C).
  eapply tracks_weaken; [apply IH; [|done]|].
  - eapply Forall_impl; [exact Hl|]. intros o' [? ?]. split; [done|by apply S].
  - intros evs' ws' S' (W' & K' & C'). split; [done|]. split; [set_solver|]. constructor; [by eapply origin_covered_mono|done].
Qed.

Lemma tracks_multisig before x x' utxo k pubs wallets : x ∈ ins → signing_utxo x = Ok utxo → parse_multisig (bottom_script x utxo) = Ok (Some (k, pubs)) →
  in_hd_keypaths x' = in_hd_keypaths x → wallets_ok before wallets →
  tracks before (add_multisig c xpubs x' (spent_type x utxo) k pubs wallets) (λ evs ws,
    wallets_ok evs ws ∧ wallets.*1 ⊆ ws.*1 ∧
    (Forall (λ o, ∃ e, key_expr xpubs o e) (keys_with_origin x pubs) → ∃ exprs p id, Forall2 (key_expr xpubs) (keys_with_origin x pubs) exprs ∧
      MultisigWallet_new (multisig_name k (len exprs)) (spent_type x utxo) k exprs true WALLET_POLICY_V2 = Ok p ∧ wallet_id p = Ok id ∧ id ∈ ws.*1)).
Proof.
  intros Hx Hu Hm Eh Hw. unfold add_multisig. rewrite Eh. eapply tracks_bind; [apply tracks_lift|]. intros ? [es ok] _ [-> Hes%multisig_exprs_spec].
  destruct ok; [|by apply tracks_ret]. cbn [negb]. eapply tracks_bind; [apply tracks_lift|]. intros ? p _ [-> Hp].
  eapply tracks_bind; [apply tracks_lift|]. intros ? id _ [-> Hid]. destruct (dict_in id wallets) eqn:Ed.
  - apply tracks_ret. split; [done|]. split; [done|]. intros _. exists es, p, id. by apply dict_in_elem in Ed.
  - eapply tracks_bind; [apply (tracks_event _ _ _ (λ ih, Registered p ih.2)); [done|apply traced_register]|]. intros evs [i hmac] S Hr. apply tracks_ret.
    destruct (ids_set id (mkWallet (signing_priority (spent_type x utxo)) (spent_type x utxo) p (Some hmac)) wallets) as [I1 I2].
    split; [|split; [done|]; intros _; by exists es, p, id].
    apply wallets_ok_set; [by eapply multisig_ok|by eapply wallets_ok_mono].
Qed.

Lemma tracks_input before fp x wallets : x ∈ ins → GaveFingerprint fp ∈ before → wallets_ok before wallets →
  tracks before (prepare_ledger_input c chain fp xpubs x wallets) (λ evs r,
    wallets_ok evs r.2 ∧ wallets.*1 ⊆ r.2.*1 ∧ input_covered chain xpubs evs fp r.2.*1 x).
Proof.
  intros Hx Hf Hw. unfold prepare_ledger_input. eapply tracks_bind; [apply tracks_lift|]. intros ? r _ [-> Hr%with_utxo_spec].
  destruct r as [[utxo x']|]; [|apply tracks_ret; split; [done|]; split; [done|]; intros u Hu; by apply Hr in Hu]. destruct Hr as [Hu [w ->]].
  eapply tracks_bind; [apply tracks_lift|]. intros ? r _ [-> Hr%spend_script_spec].
  change (match r with Some (s, t) => s = bottom_script x utxo ∧ t = spent_type x utxo | None => ¬ spendable x utxo end) in Hr.
  destruct r as [[s t]|]; [|apply tracks_ret; split; [done|]; split; [done|]; intros u Hu'; rewrite Hu in Hu'; by injection Hu' as ->].
  destruct Hr as [-> ->]. eapply tracks_bind; [apply tracks_lift|]. intros ? m _ [-> Hm].
  apply (tracks_bind _ _ _ _ (λ evs ws, wallets_ok evs ws ∧ wallets.*1 ⊆ ws.*1 ∧ input_covered chain xpubs evs fp ws.*1 x)).
  2:{ intros evs ws _ Hq. by apply tracks_ret. }
  destruct m as [[k pubs]|].
  - eapply tracks_weaken; [by apply tracks_multisig|]. intros evs ws _ (W & K & C). split; [done|]. split; [done|].
    intros u Hu' _. rewrite Hu in Hu'. injection Hu' as <-. by rewrite Hm.
  - eapply tracks_weaken; [apply (tracks_origins before x utxo); try done|].
    + apply Forall_forall. intros o [Ho <-]%our_origins_iff. done.
    + intros evs ws _ (W & K & C). split; [done|]. split; [done|]. intros u Hu' _. rewrite Hu in Hu'. injection Hu' as <-. rewrite Hm.
      intros o Ho Hfp. rewrite Forall_forall in C. apply C. by apply our_origins_iff.
Qed.

Lemma tracks_inputs before fp l wallets : l ⊆ ins → GaveFingerprint fp ∈ before → wallets_ok before wallets →
  tracks before (prepare_ledger_inputs c chain fp xpubs l wallets) (λ evs r,
    wallets_ok evs r.2 ∧ wallets.*1 ⊆ r.2.*1 ∧ Forall (input_covered chain xpubs evs fp r.2.*1) l).
Proof.
  revert before wallets. induction l as [|x l IH]; intros before wallets Hl Hf Hw; [by apply tracks_ret|]. cbn [prepare_ledger_inputs].
  eapply tracks_bind; [apply tracks_input; [set_solver|done..]|]. intros evs [x' ws] S (W & K & C).
  eapply tracks_bind; [apply IH; [set_solver|by apply S|done]|]. intros evs' [l' ws'] S' (W' & K' & C'). apply tracks_ret. cbn in *.
  split; [done|]. split; [set_solver|]. constructor; [by eapply input_covered_mono|done].
Qed.
End driver_tracks.

(** ** The order of the policies *)

Definition in_order (ts : list AddressType) : Prop :=
  ∃ n1 n2 n3 n4, ts = replicate n1 TAP ++ replicate n2 WIT ++ replicate n3 SH_WIT ++ replicate n4 LEGACY.

Lemma priorities_in_order ts : StronglySorted (λ a b, signing_priority a <= signing_priority b) ts → in_order ts.
Proof.
  induction 1 as [|t ts _ (n1 & n2 & n3 & n4 & ->) Ht]; [by exists 0%nat, 0%nat, 0%nat, 0%nat|]. rewrite !Forall_app in Ht. destruct Ht as (H1 & H2 & H3 & H4).
  assert (∀ n t', Forall (λ b, signing_priority t <= signing_priority b) (replicate n t') → signing_priority t' < signing_priority t → n = 0%nat) as Hz.
  { intros [|n] t'; [done|]. intros [Hle _]%Forall_cons. lia. }
  destruct t.
  - rewrite (Hz _ _ H1), (Hz _ _ H2), (Hz _ _ H3) by done. by exists 0%nat, 0%nat, 0%nat, (S n4).
  - rewrite (Hz _ _ H1) by done. by exists 0%nat, (S n2), n3, n4.
  - rewrite (Hz _ _ H1), (Hz _ _ H2) by done. by exists 0%nat, 0%nat, (S n3), n4.
  - by exists (S n1), n2, n3, n4.
Qed.

Lemma by_priority_in_order `{Hashes} chain rds xpubs ins before wallets : wallets_ok chain rds xpubs ins before wallets →
  wallets.*2 ≡ₚ by_priority wallets ∧ in_order (map sw_type (by_priority wallets)).
Proof.
  intros [_ Hw]. unfold by_priority. assert (map snd wallets ≡ₚ sort_by (λ a b, sw_priority a <? sw_priority b) (map snd wallets)) as Hp by (symmetry; apply sort_by_perm).
  split; [exact Hp|]. apply priorities_in_order. pose proof (sort_by_sorted sw_priority (map snd wallets)) as Hs.
  assert (Forall (λ w, sw_priority w = signing_priority (sw_type w)) (sort_by (λ a b, sw_priority a <? sw_priority b) (map snd wallets))) as Ha.
  { rewrite <- Hp. apply Forall_fmap, Forall_forall. intros [id w] Hin. by destruct (Hw id w Hin). }
  revert Hs Ha. generalize (sort_by (λ a b, sw_priority a <? sw_priority b) (map snd wallets)). intros l. induction 1 as [|w l _ IH Hl]; [constructor|].
  intros [Ew Ha]%Forall_cons. constructor; [by apply IH|]. apply Forall_fmap. rewrite Forall_forall in Hl, Ha |- *. intros w' Hin. cbn.
  rewrite <- Ew, <- (Ha w' Hin). by apply Hl.
Qed.

(** ** The requests to sign *)

Definition request (w : signing_wallet) : ledger_event := AskedToSign (sw_policy w) (sw_hmac w).

Lemma sign_wallets_trace {D} (c : bitcoin_client D) trace `{!Traced c trace} ws psbt2 d r d' : sign_wallets c ws psbt2 d = (r, d') →
  ∃ asked rest, ws = asked ++ rest ∧ trace d' = trace d ++ map request asked ∧ (is_ok r = true → rest = []).
Proof.
  revert psbt2 d. induction ws as [|w ws IH]; intros psbt2 d; cbn [sign_wallets]; [intros [= <- <-]; exists [], []; split; [done|]; split; [by rewrite app_nil_r|done]|].
  set (p := if bool_decide (sw_type w = LEGACY) then _ else _). destruct (c_sign_psbt c p (sw_policy w) (sw_hmac w) d) as [[sigs|e] d1] eqn:Es;
    pose proof (traced_sign _ _ _ _ _ _ Es) as T.
  2:{ rewrite (state_bind_err _ _ _ _ _ Es). intros [= <- <-]. by exists [w], ws. }
  rewrite (state_bind_eval _ _ _ _ _ Es). unfold mbind at 1, state_bind, liftS. destruct (store_all_yielded _ _) as [l|e].
  - intros E. destruct (IH _ _ E) as (a & rest & -> & T' & Hr). exists (w :: a), rest. rewrite T', T, <- app_assoc. done.
  - intros [= <- <-]. by exists [w], ws.
Qed.

Section run.
Context `{Hashes} {D : Type} (c : bitcoin_client D) (trace : D → list ledger_event) `{!Traced c trace} (chain : Chain).

(** All that the driver does before it signs. *)
Definition preparation (psbt : PSBT) (rds : list RegisteredDescriptor) : state D (bytes * list PsbtIn * pydict bytes signing_wallet) :=
  master_fp ← ledger_master_fingerprint c;
  wallets ← liftS (registered_wallets rds);
  '(ins, wallets) ← prepare_ledger_inputs c chain master_fp (psbt_xpub (v2_copy psbt)) (psbt_inputs (v2_copy psbt)) wallets;
  mret (master_fp, ins, wallets).

Lemma sign_tx_split psbt rds d : c_legacy c = false → ledger_sign_tx c chain psbt rds d =
  match preparation psbt rds d with
  | (Ok (_, ins, wallets), d1) => ledger_exception (
      psbt2 ← sign_wallets c (by_priority wallets) (set_inputs ins (v2_copy psbt));
      mret (set_inputs (merge_all (psbt_inputs psbt2) (psbt_inputs psbt)) psbt)) d1
  | (Err e, d1) => (Err (ledger_exn e), d1)
  end.
Proof.
  intros Hc. unfold ledger_sign_tx, preparation, v2_copy. rewrite Hc, andb_false_r. cbv zeta. unfold ledger_exception at 1. unfold mbind, state_bind, liftS.
  destruct (ledger_master_fingerprint c d) as [[fp|e] d1]; [|done]. destruct (registered_wallets rds) as [ws|e]; [|done].
  by destruct (prepare_ledger_inputs _ _ _ _ _ _ d1) as [[[ins ws']|e] d2].
Qed.

(** The inputs of the copy and of the PSBT are the same but for their version. *)
Lemma v2_elem psbt x : x ∈ psbt_inputs (v2_copy psbt) → ∃ x0 v, x0 ∈ psbt_inputs psbt ∧ x = set_version v x0.
Proof.
  intros [i Hi]%list_elem_of_lookup. pose proof (lookup_lt_Some _ _ _ Hi) as Hl. rewrite v2_length in Hl.
  destruct (lookup_lt_is_Some_2 _ _ Hl) as [x0 Hx]. destruct (v2_input _ _ _ Hx) as [v Hv]. rewrite Hv in Hi. injection Hi as <-.
  exists x0, v. split; [by apply list_elem_of_lookup_2 in Hx|done].
Qed.

Lemma wallet_ok_v2 psbt rds before id w :
  wallet_ok chain rds (psbt_xpub psbt) (psbt_inputs (v2_copy psbt)) before id w → wallet_ok chain rds (psbt_xpub psbt) (psbt_inputs psbt) before id w.
Proof.
  intros [rd p t H1 H2 H3 H4|x utxo k pubs exprs p hmac H1 H2 H3 H4 H5 H6 H7|x utxo o account change index p0 p H1 H2 H3 H4 H5 H6 H7 H8 H9].
  - by eapply registered_ok.
  - apply v2_elem in H1 as (x0 & v & H1 & ->). by apply (multisig_ok _ _ _ _ _ _ x0 utxo k pubs exprs p hmac).
  - apply v2_elem in H1 as (x0 & v & H1 & ->). by apply (account_ok _ _ _ _ _ _ x0 utxo o account change index p0 p).
Qed.

Lemma preparation_tracks psbt rds : tracks trace [] (preparation psbt rds) (λ evs '(fp, _, wallets),
  wallets_ok chain rds (psbt_xpub psbt) (psbt_inputs psbt) evs wallets ∧ registered_covered rds wallets.*1 ∧
  GaveFingerprint fp ∈ evs ∧ Forall (input_covered chain (psbt_xpub psbt) evs fp wallets.*1) (psbt_inputs psbt)).
Proof.
  assert (psbt_xpub (v2_copy psbt) = psbt_xpub psbt) as Ex by (unfold v2_copy; by destruct (negb _)).
  unfold preparation. rewrite Ex. eapply tracks_bind; [by apply tracks_fingerprint|]. intros e1 fp _ Hf.
  eapply tracks_bind; [apply tracks_lift|]. intros ? ws _ [-> Hws].
  apply (registered_wallets_ok chain rds (psbt_xpub psbt) (psbt_inputs (v2_copy psbt)) e1) in Hws as [W R].
  eapply tracks_bind; [by eapply tracks_inputs|]. intros e2 [ins ws'] S (W' & K & C). apply tracks_ret. cbn in *.
  split; [|split; [|split; [by apply S|]]].
  - destruct W' as [Hd Hw]. split; [done|]. intros id w Hin. by apply wallet_ok_v2, Hw.
  - intros rd Hr. destruct (R rd Hr) as (p & id & ? & ? & ?). exists p, id. auto.
  - apply Forall_lookup_2. intros i x Hx. destruct (v2_input _ _ _ Hx) as [v Hv]. apply (proj1 (Forall_lookup _ _) C _ _ Hv).
Qed.

(** What a legacy application is asked to sign with, whose client looks at no policy. *)
Definition dummy_policy : WalletPolicy := {| wp_name := []; wp_version := WALLET_POLICY_V2; descriptor_template := $"wpkh(@0/**)"; keys_info := [[]] |}.
Definition legacy_request : ledger_event := AskedToSign dummy_policy None.

Lemma legacy_sign_trace psbt d r d' : legacy_sign_tx c psbt d = (r, d') → trace d' = trace d ++ [legacy_request].
Proof.
  change (legacy_sign_tx c psbt) with (sigs ← c_sign_psbt c psbt dummy_policy None; ins ← liftS (store_legacy sigs (psbt_inputs psbt)); mret (set_inputs ins psbt)).
  unfold mbind, state_bind, liftS. destruct (c_sign_psbt c psbt dummy_policy None d) as [[sigs|e] d1] eqn:Es; pose proof (traced_sign _ _ _ _ _ _ Es) as T.
  - by destruct (store_legacy sigs _); intros [= <- <-].
  - by intros [= <- <-].
Qed.

(** A legacy application is asked at most once, and never with registered descriptors. *)
Lemma legacy_run psbt rds d r d' : c_legacy c = true → ledger_sign_tx c chain psbt rds d = (r, d') →
  ∃ before asked, trace d' = trace d ++ before ++ asked ∧ Forall (λ e, signing e = false) before ∧
    (asked = [] ∧ is_ok r = false ∨ asked = [legacy_request] ∧ rds = []).
Proof.
  intros Hc. unfold ledger_sign_tx. rewrite Hc, andb_true_r. unfold ledger_exception. case_bool_decide as Hr; cbn [negb].
  2:{ intros [= <- <-]. exists [], []. rewrite app_nil_r. split; [done|]. split; [done|by left]. }
  destruct (ledger_master_fingerprint c d) as [[fp|e] d1] eqn:Ef; destruct (tracks_fingerprint c trace [] _ _ _ Ef) as (evs & T & N & _).
  - rewrite (state_bind_eval _ _ _ _ _ Ef). destruct (legacy_sign_tx c psbt d1) as [s d2] eqn:El. apply legacy_sign_trace in El.
    intros E. exists evs, [legacy_request]. assert (d' = d2) as -> by (by destruct s; injection E). rewrite El, T, <- app_assoc.
    split; [done|]. split; [done|]. right. by destruct rds.
  - rewrite (state_bind_err _ _ _ _ _ Ef). intros [= <- <-]. exists evs, []. rewrite app_nil_r. split; [done|]. split; [done|by left].
Qed.

(** Any other client. *)
Lemma policies_run psbt rds d r d' : c_legacy c = false → ledger_sign_tx c chain psbt rds d = (r, d') →
  ∃ before wallets asked rest, trace d' = trace d ++ before ++ map request asked ∧ Forall (λ e, signing e = false) before ∧
    wallets_ok chain rds (psbt_xpub psbt) (psbt_inputs psbt) before wallets ∧
    wallets.*2 ≡ₚ asked ++ rest ∧ in_order (map sw_type (asked ++ rest)) ∧
    (is_ok r = true → rest = [] ∧ registered_covered rds wallets.*1 ∧
      ∃ fp, GaveFingerprint fp ∈ before ∧ Forall (input_covered chain (psbt_xpub psbt) before fp wallets.*1) (psbt_inputs psbt)).
Proof.
  intros Hc. rewrite sign_tx_split by done.
  destruct (preparation psbt rds d) as [[[[fp ins] ws]|e] d1] eqn:Ep; destruct (preparation_tracks _ _ _ _ _ Ep) as (evs & T & N & Hq).
  - destruct (Hq _ eq_refl) as (W & R & F & C). clear Hq Ep. destruct (by_priority_in_order _ _ _ _ _ _ W) as [P O]. unfold ledger_exception.
    destruct (sign_wallets c (by_priority ws) (set_inputs ins (v2_copy psbt)) d1) as [s d2] eqn:Es.
    destruct (sign_wallets_trace c trace _ _ _ _ _ Es) as (asked & rest & E & T2 & Hr). rewrite E in P, O.
    intros Hd. exists evs, ws, asked, rest. assert (d' = d2 ∧ (is_ok r = true → is_ok s = true)) as [-> Hs].
    { destruct s; [rewrite (state_bind_eval _ _ _ _ _ Es) in Hd|rewrite (state_bind_err _ _ _ _ _ Es) in Hd]; by injection Hd as <- <-. }
    rewrite T2, T, <- app_assoc. split; [done|]. split; [done|]. split; [done|]. split; [done|]. split; [done|].
    intros Hok. split; [by apply Hr, Hs|]. split; [done|]. by exists fp.
  - intros [= <- <-]. exists evs, [], [], []. rewrite app_nil_r. split; [done|]. split; [done|]. split; [|split; [done|split; [|done]]].
    + split; [constructor|by intros ?? ?%elem_of_nil].
    + by exists 0%nat, 0%nat, 0%nat, 0%nat.
Qed.
End run.

(** * Properties *)

Section properties.
Context `{Hashes} {D : Type} (c : bitcoin_client D) (chain : Chain).

(** C31: When a Ledger signs, the PSBT that is returned is the one that was given, with exactly
    the signatures that the device yielded in its inputs: each in the input that the device
    names, as a Taproot signature where the output that is spent is Taproot and as a
    signature of its public key otherwise, in the order in which they came; a Taproot key
    signature that was there is kept.  The version 2 copy, the previous outputs added
    to it and those taken out of it for legacy inputs leave no trace. *)
Theorem ledger_sign_tx_exact (yielded : D → list (Z * PartialSignature)) `{!Yields c yielded} (psbt psbt' : PSBT) (rds : list RegisteredDescriptor)
    (d d' : D) (Hc : c_legacy c = false) (Hwf : Forall sigs_wf (psbt_inputs psbt)) (Hr : ledger_sign_tx c chain psbt rds d = (Ok psbt', d')) :
  ∃ sigs, yielded d' = yielded d ++ sigs ∧
    psbt' = set_inputs (imap (λ i x, put_new_sigs (spends_taproot x) (sigs_of (length (psbt_inputs psbt)) sigs i) x) (psbt_inputs psbt)) psbt.
Proof.
  destruct (sign_tx_prepared c yielded chain rds _ psbt psbt' d d' Hc eq_refl Hr) as (ins & wallets & psbt2 & d1 & Hp & Y1 & Hs & ->).
  destruct (sign_wallets_signed c yielded _ _ _ _ _ [] _ Hs (signed_start _ _ Hp)) as (sigs & Y2 & [Hl Hi]).
  exists sigs. split; [by rewrite Y2, Y1|]. f_equal. rewrite v2_length in *. apply merge_all_imap; [done|]. intros i x Hx.
  destruct (v2_input _ _ _ Hx) as [v Hv]. destruct (Hi i _ Hv) as (u & Hu & _). eexists. split; [exact Hu|].
  apply merge_signed. by apply (proj1 (Forall_lookup _ _) Hwf _ _ Hx).
Qed.

(** C32: Whatever a Ledger answers and however signing ends, the requests to sign come after everything
    else, and are for the policies of a dictionary of ids, each of them once at most,
    in the order Taproot, segwit, segwit in P2SH, legacy.  Such a policy is one of these:
    that of a registered descriptor of the caller, of the descriptor's type and with its
    registration; that of a multisig which an input of the PSBT spends, of the type of this
    input, with its threshold and with extended keys of the PSBT that are above its
    public keys, and with the registration which the device returned earlier in this run; or
    that of the standard account of a key of an input that spends no multisig, of the type of
    this input, without a registration and made of the fingerprint and the account's key that
    the device gave earlier in this run.  When signing succeeds the whole dictionary is used,
    and no registered descriptor, multisig or standard account of a spendable input is left out of it.
    A legacy application is asked once at most, with a policy that its client does not read,
    and never when there are registered descriptors. *)
Theorem ledger_signs_with (trace : D → list ledger_event) `{!Traced c trace} (psbt : PSBT) (rds : list RegisteredDescriptor) (d : D) :
  let '(r, d') := ledger_sign_tx c chain psbt rds d in
  ∃ before requests, trace d' = trace d ++ before ++ requests ∧ Forall (λ e, signing e = false) before ∧
    if c_legacy c then requests = [] ∧ is_ok r = false ∨ requests = [legacy_request] ∧ rds = []
    else ∃ wallets asked rest, requests = map request asked ∧
      wallets.*2 ≡ₚ asked ++ rest ∧ in_order (map sw_type (asked ++ rest)) ∧
      wallets_ok chain rds (psbt_xpub psbt) (psbt_inputs psbt) before wallets ∧
      (is_ok r = true → rest = [] ∧ registered_covered rds wallets.*1 ∧
        ∃ fp, GaveFingerprint fp ∈ before ∧ Forall (input_covered chain (psbt_xpub psbt) before fp wallets.*1) (psbt_inputs psbt)).
Proof.
  destruct (ledger_sign_tx c chain psbt rds d) as [r d'] eqn:E. destruct (c_legacy c) eqn:Hc; [by eapply legacy_run|].
  destruct (policies_run c trace chain psbt rds d r d' Hc E) as (before & wallets & asked & rest & T & N & W & P & O & S).
  exists before, (map request asked). split; [done|]. split; [done|]. by exists wallets, asked, rest.
Qed.

(** A Ledger never shows the address of a multisig: the step of the first key that tells
    change from receiving addresses is looked up behind the end of its path, so that a
    multisig that passes every check is registered with the device, and then the call fails. *)
Theorem ledger_multisig_not_shown (t : AddressType) (multisig : Descriptor) (d : D) :
  (∃ e, (ledger_display_multisig_address c t multisig d).1 = Err e) ∧
  ∀ pk pubkeys thresh is_sorted keys_info w id hmac d', multisig = MultisigDescriptor (pk :: pubkeys) thresh is_sorted → c_legacy c = false →
    multisig_paths_ok (pk :: pubkeys) = Ok true → mapR format_key_info (pk :: pubkeys) = Ok keys_info →
    MultisigWallet_new (multisig_name thresh (len keys_info)) t thresh keys_info is_sorted WALLET_POLICY_V2 = Ok w →
    c_register_wallet c w d = (Ok (id, hmac), d') →
    ledger_display_multisig_address c t multisig d = (Err IndexError, d').
Proof.
  assert (∀ pubkeys, multisig_paths_ok pubkeys = Ok true → change_and_index pubkeys = Err IndexError) as Hi.
  { intros [|pk pubkeys]; [done|]. intros (valid & Hv & [= Hok])%bind_ok. destruct valid; [|done]. cbn [allR] in Hv.
    apply bind_ok in Hv as (ok & Hv & E). unfold is_valid_der_path in Hv. unfold change_and_index. cbn.
    by destruct (pp_deriv_path pk) as [[|? [|? [|? [|? ?]]]]|]; simplify_eq/=. }
  split.
  - destruct (ledger_display_multisig_address c t multisig d) as [[a|e] d'] eqn:E; [|by exists e]. exfalso. unfold ledger_display_multisig_address in E.
    rewrite exception_ok in E. destruct (c_legacy c); [done|]. destruct multisig as [| | |pubkeys thresh is_sorted| | |]; try done.
    apply state_bind_ok in E as ([] & d1 & [= Hok <-] & E); [|done]. cbn [negb] in E.
    apply state_bind_ok in E as (ks & d2 & _ & E). apply state_bind_ok in E as (w & d3 & _ & E). apply state_bind_ok in E as ([i h] & d4 & _ & E).
    apply state_bind_ok in E as ([ch ix] & d5 & [= Hx _] & _). by rewrite (Hi _ Hok) in Hx.
  - intros pk pubkeys thresh is_sorted ks w id hmac d' -> Hc Hok Hk Hw Hr. unfold ledger_display_multisig_address, ledger_exception. rewrite Hc.
    unfold mbind, state_bind, liftS. rewrite Hok. cbn [negb]. rewrite Hk, Hw, Hr, (Hi _ Hok). done.
Qed.

(** A Ledger is only asked to show an address of a standard path: the address that is returned is
    the one the device shows for the policy of the account of the path, made of
    the fingerprint and of the key of the account that the device itself gave, at the change and
    index that the path ends with. *)
Theorem ledger_singlesig_shown (keypath : pystr) (t : AddressType) (a : pystr) (d d' : D) (Hc : c_legacy c = false)
    (Hr : ledger_display_singlesig_address c chain keypath t d = (Ok a, d')) :
  ∃ account change index policy d1, parse_path keypath = Ok (account_path chain t account ++ [change; index]) ∧
    (change = 0 ∨ change = 1) ∧ is_hardened index = false ∧
    _get_singlesig_default_wallet_policy c chain t account d = (Ok policy, d1) ∧
    c_get_wallet_address c policy None change index true d1 = (Ok a, d').
Proof.
  unfold ledger_display_singlesig_address in Hr. rewrite exception_ok, Hc in Hr.
  apply state_bind_ok in Hr as (p & d0 & [= Hp <-] & Hr). apply state_bind_ok in Hr as (w & d1 & Hw & Hr).
  destruct (is_standard_path p t chain) eqn:Es; [|done]. cbn [negb] in Hw.
  apply standard_path_exact in Es as (account & change & index & -> & Ha & Hch & Hi). apply state_bind_ok in Hw as (a' & d2 & [= <- <-] & Hw).
  apply state_bind_ok in Hr as (ch & d2 & [= <- <-] & Hr). apply state_bind_ok in Hr as (ix & d3 & [= <- <-] & Hr).
  exists account, change, index, w, d1. rewrite Hp. unfold account_path. by rewrite (harden_id _ Ha).
Qed.
End properties.

(** * Witnesses *)

(** A device of one account that yields, in each request, one signature for the first input. *)
Definition example_account : pystr := match ExtendedKey_to_string example_xpub with Ok s => s | Err _ => [] end.

Definition example_client : bitcoin_client nat :=
  mkBitcoinClient false (λ _ _, mret example_account) (mret (map chr [1; 2; 3; 4])) (λ _, mret ([], map chr [7]))
    (λ _ _ change index _, mret (str_int (change * 100 + index)))
    (λ _ _ _ n, (Ok [(0, {| ps_pubkey := []; ps_signature := map chr [Z.of_nat n; 9]; tapleaf_hash := None |})], S n))
    (λ _ _, mret []) (mret ()).

(** An input that spends a Taproot output of that account. *)
Definition example_origin : KeyOriginInfo := {| fingerprint := map chr [1; 2; 3; 4]; path := [H_ 86; H_ 0; H_ 0; 0; 5] |}.
Definition example_taproot_in : PsbtIn :=
  set_tap_internal_key (replicate 32 (chr 5)) (set_tap_bip32_paths [(replicate 32 (chr 5), (∅, example_origin))]
    (set_witness_utxo (Some {| nValue := 1000; scriptPubKey := [chr 0x51; chr 32] ++ replicate 32 (chr 6) |}) (PsbtIn_new 2))).
Definition example_ledger_psbt : PSBT := set_psbt_version 2 (set_inputs [example_taproot_in] PSBT_new).
Definition example_signed : PSBT := set_inputs [set_tap_key_sig (map chr [3; 9]) example_taproot_in] example_ledger_psbt.

Lemma ledger_sign_tx_exact_witness : ∃ d', ledger_sign_tx (logged example_client) MAIN example_ledger_psbt [] (3%nat, ([], [])) = (Ok example_signed, d') ∧
  ∃ sigs, d'.2.1 = [] ++ sigs ∧ example_signed =
    set_inputs (imap (λ i x, put_new_sigs (spends_taproot x) (sigs_of 1 sigs i) x) [example_taproot_in]) example_ledger_psbt.
Proof.
  eexists. split; [vm_compute; reflexivity|].
  eapply (ledger_sign_tx_exact (logged example_client) MAIN (λ s, s.2.1) example_ledger_psbt example_signed [] (3%nat, ([], []))).
  - reflexivity.
  - repeat constructor.
  - vm_compute. reflexivity.
Defined.

(** The device is asked once, with the Taproot account of the input's key. *)
Definition request_template (e : ledger_event) : option pystr := if e is AskedToSign p None then Some (descriptor_template p) else None.

Lemma ledger_signs_with_witness : ∃ before id w,
  (ledger_sign_tx (logged example_client) MAIN example_ledger_psbt [] (3%nat, ([], []))).2.2.2 = before ++ [request w] ∧
  wallet_ok MAIN [] [] [example_taproot_in] before id w ∧ descriptor_template (sw_policy w) = $"tr(@0/**)".
Proof.
  pose proof (ledger_signs_with (logged example_client) MAIN (λ s, s.2.2) example_ledger_psbt [] (3%nat, ([], []))) as Ht.
  destruct (ledger_sign_tx (logged example_client) MAIN example_ledger_psbt [] (3%nat, ([], []))) as [r d'] eqn:E.
  assert (is_ok r = true) as Hr by (change r with ((r, d').1); rewrite <- E; vm_compute; reflexivity).
  assert (omap request_template d'.2.2 = [$"tr(@0/**)"]) as Hl by (change d' with ((r, d').2); rewrite <- E; vm_compute; reflexivity).
  assert (length (filter (λ e, signing e = true) d'.2.2) = 1%nat) as Hn by (change d' with ((r, d').2); rewrite <- E; vm_compute; reflexivity).
  destruct Ht as (before & requests & T & N & Hreq). change (c_legacy (logged example_client)) with false in Hreq. cbv iota in Hreq.
  destruct Hreq as (wallets & asked & rest & -> & P & _ & [_ W] & S). destruct (S Hr) as [-> _]. clear E S.
  cbn [snd] in *. rewrite T in *. cbn [app] in *. rewrite app_nil_r in P.
  assert (omap request_template before = [] ∧ filter (λ e, signing e = true) before = []) as [B1 B2].
  { clear - N. induction N as [|[] l]; try discriminate; done. }
  rewrite omap_app, B1 in Hl. rewrite filter_app, B2 in Hn. cbn [app] in *.
  destruct asked as [|w [|w2 asked]]; [discriminate Hn| |discriminate Hn].
  destruct wallets as [|[id w'] [|? ?]]; [apply Permutation_nil_cons in P as []| |by apply Permutation_length in P].
  apply Permutation_singleton_inj in P as [= ->]. exists before, id, w. split; [reflexivity|]. split; [apply W; left|].
  cbn in Hl. destruct (sw_hmac w); [discriminate Hl|]. injection Hl as Hl. exact Hl.
Defined.

Lemma ledger_singlesig_shown_witness : ∃ account change index policy d1,
  parse_path $"m/86h/0h/0h/0/5" = Ok (account_path MAIN TAP account ++ [change; index]) ∧
  _get_singlesig_default_wallet_policy example_client MAIN TAP account 3%nat = (Ok policy, d1) ∧
  c_get_wallet_address example_client policy None change index true d1 = (Ok $"5", 3%nat).
Proof.
  destruct (ledger_singlesig_shown example_client MAIN $"m/86h/0h/0h/0/5" TAP $"5" 3%nat 3%nat) as (account & change & index & policy & d1 & H1 & _ & _ & H2 & H3).
  - reflexivity.
  - vm_compute. reflexivity.
  - exists account, change, index, policy, d1. auto.
Defined.

Definition example_ms_key : PubkeyProvider :=
  ltac:(let r := eval vm_compute in
          (PubkeyProvider_init (Some {| fingerprint := map chr [1; 2; 3; 4]; path := [H_ 48] |}) example_account (Some [[1]; [0]; [5]]) 0 true) in
        match r with Ok ?p => exact p end).

Lemma ledger_multisig_not_shown_witness :
  ledger_display_multisig_address example_client WIT (MultisigDescriptor [example_ms_key] 1 true) 3%nat = (Err IndexError, 3%nat).
Proof.
  refine (proj2 (ledger_multisig_not_shown example_client WIT (MultisigDescriptor [example_ms_key] 1 true) 3%nat)
            example_ms_key [] 1 true _ _ [] (map chr [7]) 3%nat eq_refl eq_refl _ _ _ eq_refl); vm_compute; reflexivity.
Defined.
