(* ===== verification/CkccProtocol.v ===== *)
(** * The protocol of the Coldcard (devices/ckcc/protocol.py, constants.py)

    [CCProtocolPacker] makes the messages of the requests, [CCProtocolUnpacker]
    takes those of the responses apart.  Texts that a packer encodes are in
    [pystr]; a length, an offset or a flag that does not fit its field is a
    [struct.error]. *)

From S2P Require Import Prelude Bytes PyStd PyStr.

#[local] Open Scope string_scope.
#[local] Open Scope list_scope.
#[local] Open Scope Z_scope.

(** ** Constants *)

Definition USB_NCRY_V1 : Z := 0x01.
Definition USB_NCRY_V2 : Z := 0x02.
Definition MAX_BLK_LEN : Z := 2048.
Definition MAX_MSG_LEN : Z := 4 + 4 + 4 + MAX_BLK_LEN.
Definition MAX_USERNAME_LEN : Z := 16.
Definition STXN_FINALIZE : Z := 0x01.

Definition AFC_PUBKEY : Z := 0x01.
Definition AFC_SEGWIT : Z := 0x02.
Definition AFC_BECH32 : Z := 0x04.
Definition AFC_SCRIPT : Z := 0x08.
Definition AFC_WRAPPED : Z := 0x10.
Definition AFC_BECH32M : Z := 0x20.

Definition AF_CLASSIC : Z := AFC_PUBKEY.
Definition AF_P2SH : Z := AFC_SCRIPT.
Definition AF_P2WPKH : Z := Z.lor (Z.lor AFC_PUBKEY AFC_SEGWIT) AFC_BECH32.
Definition AF_P2WSH : Z := Z.lor (Z.lor AFC_SCRIPT AFC_SEGWIT) AFC_BECH32.
Definition AF_P2WPKH_P2SH : Z := Z.lor (Z.lor AFC_WRAPPED AFC_PUBKEY) AFC_SEGWIT.
Definition AF_P2WSH_P2SH : Z := Z.lor (Z.lor AFC_WRAPPED AFC_SCRIPT) AFC_SEGWIT.
Definition AF_P2TR : Z := Z.lor (Z.lor AFC_PUBKEY AFC_SEGWIT) AFC_BECH32M.

(** [s.encode('ascii')] and [b.decode('ascii')]. *)
Definition ascii (s : bytes) : result bytes := if forallb (λ c, ord c <? 128) s then Ok s else Err UnicodeError.

Definition assertR (b : bool) : result () := raise_if (negb b) AssertionError.

(** [pack('<II...', ...)] of values of four bytes. *)
Fixpoint pack_I (l : list Z) : result bytes :=
  match l with
  | [] => Ok []
  | z :: l => a ← pack_u 4 z; b ← pack_I l; Ok (a ++ b)
  end.

(** ** Requests *)

Module CCProtocolPacker.

Definition logout : bytes := $"logo".
Definition reboot : bytes := $"rebo".
Definition version : bytes := $"vers".
Definition ping (msg : bytes) : bytes := $"ping" ++ msg.
Definition bip39_passphrase (pw : pystr) : bytes := $"pass" ++ encode_utf8 pw.
Definition get_passphrase_done : bytes := $"pwok".
Definition check_mitm : bytes := $"mitm".
Definition start_backup : bytes := $"back".

Definition encrypt_start (device_pubkey : bytes) (version : Z) : result bytes :=
  if negb (bool_decide (version ∈ [USB_NCRY_V1; USB_NCRY_V2])) then Err ValueError
  else assertR (len device_pubkey =? 64);; v ← pack_I [version]; Ok ($"ncry" ++ v ++ device_pubkey).

Definition upload (offset total_size : Z) (data : bytes) : result bytes :=
  assertR (len data <=? MAX_MSG_LEN);; v ← pack_I [offset; total_size]; Ok ($"upld" ++ v ++ data).

Definition download (offset length file_number : Z) : result bytes :=
  assertR ((0 <=? file_number) && (file_number <? 2));; v ← pack_I [offset; length; file_number]; Ok ($"dwld" ++ v).

Definition sha256 : bytes := $"sha2".

(** [len] of a field of one byte, and the field. *)
Definition sized (s : bytes) : result bytes := n ← pack_u 1 (len s); Ok (n ++ s).

Definition sign_transaction (length : Z) (file_sha : bytes) (finalize : bool) (flags : Z) (miniscript_name : option pystr) : result bytes :=
  assertR (len file_sha =? 32);;
  let flags := Z.lor flags (if finalize then STXN_FINALIZE else 0) in
  v ← pack_I [length; flags];
  let rv := $"stxn" ++ v ++ file_sha in
  match miniscript_name with
  | Some ((_ :: _) as name) => name ← ascii name; assertR ((1 <=? len name) && (len name <=? 32));; n ← sized name; Ok (rv ++ n)
  | _ => Ok rv
  end.

Definition sign_message (raw_msg : bytes) (subpath : pystr) (addr_fmt : Z) : result bytes :=
  v ← pack_I [addr_fmt; len subpath; len raw_msg]; p ← ascii subpath; Ok ($"smsg" ++ v ++ p ++ raw_msg).

Definition get_signed_msg : bytes := $"smok".
Definition get_backup_file : bytes := $"bkok".
Definition get_signed_txn : bytes := $"stok".

(** A command about an uploaded file. *)
Definition about_file (command : bytes) (length : Z) (file_sha : bytes) : result bytes :=
  assertR (len file_sha =? 32);; v ← pack_I [length]; Ok (command ++ v ++ file_sha).
Definition multisig_enroll : Z → bytes → result bytes := about_file $"enrl".
Definition miniscript_enroll : Z → bytes → result bytes := about_file $"mins".

Definition miniscript_ls : bytes := $"msls".
Definition name_ok (name : pystr) : bool := (2 <=? len name) && (len name <=? 40).
Definition miniscript_delete (name : pystr) : result bytes := assertR (name_ok name);; n ← ascii name; Ok ($"msdl" ++ n).
Definition miniscript_get (name : pystr) : result bytes := assertR (name_ok name);; n ← ascii name; Ok ($"msgt" ++ n).
Definition miniscript_address (name : pystr) (change : bool) (idx : Z) : result bytes :=
  assertR (name_ok name);; assertR ((0 <=? idx) && (idx <? 2 ^ 31));;
  v ← pack_I [if change then 1 else 0; idx]; n ← ascii name; Ok ($"msas" ++ v ++ n).

Definition multisig_check (M N xfp_xor : Z) : result bytes := v ← pack_I [M; N; xfp_xor]; Ok ($"msck" ++ v).
Definition get_xpub (subpath : pystr) : result bytes := p ← ascii subpath; Ok ($"xpub" ++ p).

Definition show_address (subpath : pystr) (addr_fmt : Z) : result bytes :=
  assertR (Z.land addr_fmt AFC_SCRIPT =? 0);; v ← pack_I [addr_fmt]; p ← ascii subpath; Ok ($"show" ++ v ++ p).

Definition show_p2sh_address (M : Z) (xfp_paths : list (list Z)) (witdeem_script : bytes) (addr_fmt : Z) : result bytes :=
  assertR (negb (Z.land addr_fmt AFC_SCRIPT =? 0));;
  assertR ((30 <=? len witdeem_script) && (len witdeem_script <=? 520));;
  f ← pack_I [addr_fmt]; m ← pack_u 1 M; n ← pack_u 1 (len xfp_paths); l ← pack_u 2 (len witdeem_script);
  paths ← mapR (λ xfp_path, ln ← pack_u 1 (len xfp_path); p ← pack_I xfp_path; Ok (ln ++ p)) xfp_paths;
  Ok ($"p2sh" ++ f ++ m ++ n ++ l ++ witdeem_script ++ concat paths).

Definition block_chain : bytes := $"blkc".
Definition sim_keypress (key : bytes) : bytes := $"XKEY" ++ key.
Definition bag_number (new_number : bytes) : bytes := $"bagi" ++ new_number.

Definition hsm_start (length : Z) (file_sha : bytes) : result bytes :=
  if length =? 0 then Ok $"hsms" else about_file $"hsms" length file_sha.
Definition hsm_status : bytes := $"hsts".

Definition create_user (username : bytes) (auth_mode : Z) (secret : bytes) : result bytes :=
  assertR ((1 <=? len username) && (len username <=? MAX_USERNAME_LEN));;
  assertR (bool_decide (len secret ∈ [0; 10; 20; 32]));;
  m ← pack_u 1 auth_mode; u ← pack_u 1 (len username); s ← pack_u 1 (len secret);
  Ok ($"nwur" ++ m ++ u ++ s ++ username ++ secret).

Definition delete_user (username : bytes) : result bytes :=
  assertR ((0 <? len username) && (len username <=? MAX_USERNAME_LEN));; u ← sized username; Ok ($"rmur" ++ u).

Definition user_auth (username token : bytes) (totp_time : Z) : result bytes :=
  assertR ((0 <? len username) && (len username <=? 16));; assertR ((6 <=? len token) && (len token <=? 32));;
  t ← pack_I [totp_time]; u ← pack_u 1 (len username); k ← pack_u 1 (len token);
  Ok ($"user" ++ t ++ u ++ k ++ username ++ token).

Definition get_storage_locker : bytes := $"gslr".
End CCProtocolPacker.

(** ** Responses *)

(** What a response is as a Python value. *)
Inductive response :=
  | RNone
  | RBytes (b : bytes)
  | RText (s : pystr)
  | RInt (n : Z)
  | RInts (l : list Z)
  | RPubkey (dev_pubkey : bytes) (fingerprint : Z) (xpub : bytes)
  | RSigned (address : pystr) (signature : bytes)
  | RFile (ln : Z) (sha : bytes).

#[export] Instance response_eq_dec : EqDecision response.
Proof. solve_decision. Defined.

(** [unpack_from('<I', msg, at)]. *)
Definition unpack_I (msg : bytes) (at_ : nat) : result Z := unpack_u 4 (slice at_ (at_ + 4) msg).

Fixpoint unpack_Is (n : nat) (msg : bytes) (at_ : nat) : result (list Z) :=
  match n with
  | O => Ok []
  | S n => z ← unpack_I msg at_; l ← unpack_Is n msg (at_ + 4); Ok (z :: l)
  end.

(** [unpack_from('Ns', msg, at)]. *)
Definition unpack_s_from (n : nat) (msg : bytes) (at_ : nat) : result bytes :=
  let b := slice at_ (at_ + n) msg in if (length b =? n)%nat then Ok b else Err StructError.

Module CCProtocolUnpacker.

Definition okay (msg : bytes) : result response := assertR (len msg =? 4);; Ok RNone.
Definition fram (msg : bytes) : result response :=
  match decode_utf8 (drop 4 msg) with Err UnicodeError => Err UnicodeError | _ => Err CCFramingError end.
Definition err_ (msg : bytes) : result response := Err CCProtoError.
Definition refu (msg : bytes) : result response := Err CCUserRefused.
Definition busy (msg : bytes) : result response := Err CCBusyError.
Definition biny (msg : bytes) : result response := Ok (RBytes (drop 4 msg)).
Definition int1 (msg : bytes) : result response := n ← unpack_I msg 4; Ok (RInt n).
Definition int2 (msg : bytes) : result response := l ← unpack_Is 2 msg 4; Ok (RInts l).
Definition int3 (msg : bytes) : result response := l ← unpack_Is 3 msg 4; Ok (RInts l).

Definition mypb (msg : bytes) : result response :=
  dev_pubkey ← unpack_s_from 64 msg 4;
  l ← unpack_Is 2 msg 68;
  match l with
  | [fingerprint; xpub_len] => Ok (RPubkey dev_pubkey fingerprint (slice_from_neg (Z.to_nat xpub_len) msg))
  | _ => Err StructError
  end.

Definition asci (msg : bytes) : result response := s ← ascii (drop 4 msg); Ok (RText s).

Definition smrx (msg : bytes) : result response :=
  aln ← unpack_I msg 4;
  address ← ascii (slice 8 (Z.to_nat aln + 8) msg);
  Ok (RSigned address (drop (8 + Z.to_nat aln) msg)).

Definition strx (msg : bytes) : result response := ln ← unpack_I msg 4; sha ← unpack_s_from 32 msg 8; Ok (RFile ln sha).

(** The methods that [decode] finds by the name in a response. *)
Definition methods : list (bytes * (bytes → result response)) :=
  [($"okay", okay); ($"fram", fram); ($"err_", err_); ($"refu", refu); ($"busy", busy); ($"biny", biny);
   ($"int1", int1); ($"int2", int2); ($"int3", int3); ($"mypb", mypb); ($"asci", asci); ($"smrx", smrx); ($"strx", strx)].

Definition decode (msg : bytes) : result response :=
  assertR (4 <=? len msg);;
  match dict_get (take 4 msg) methods with
  | Some d => d msg
  | None => Err CCFramingError
  end.
End CCProtocolUnpacker.
