(* ===== verification/CkccClient.v ===== *)
(** * The link to a Coldcard (devices/ckcc/client.py, utils.py)

    [ColdcardDevice] over an opened device of the hidapi library: its packets,
    the encrypted link, and the transfer of files.  The device, the curve
    operations of the ecdsa library and AES in counter mode of the pyaes library
    are the records [cc_hid] and [cc_crypto]; a counter-mode object is its
    state.  The simulator's pipe is another such device.

    Fuel: [rounds] bounds the loops that go on as long as the device makes them,
    which are the flushing of the device and the packets of a response; the file
    loops have a round for each byte left, which is enough
    ([download_file_correct]). *)

From S2P Require Import Prelude Bytes PyStd PyStr StateM Common Sha256 Base58 CkccProtocol.

(** ** What the link needs *)

Record cc_hid (D : Type) := mkCcHid {
  cc_read : Z → state D bytes;
  cc_write : bytes → state D Z;
  cc_error : state D pystr;
  cc_serial_number : state D pystr;
  cc_close : state D () }.
Arguments mkCcHid {D}.
Arguments cc_read {D}.
Arguments cc_write {D}.
Arguments cc_error {D}.
Arguments cc_serial_number {D}.
Arguments cc_close {D}.

(** [K] is a private key, [C] a counter-mode object.  [ec_verify] is
    [VerifyingKey.from_string] and [verify_digest], [false] for a
    [BadSignatureError]. *)
Record cc_crypto (D K C : Type) := mkCcCrypto {
  ec_generate : state D (K * bytes);
  ec_point : K → bytes → result bytes;
  ec_verify : bytes → bytes → bytes → result bool;
  aes_ctr : bytes → C;
  aes_run : C → bytes → result (bytes * C) }.
Arguments mkCcCrypto {D K C}.
Arguments ec_generate {D K C}.
Arguments ec_point {D K C}.
Arguments ec_verify {D K C}.
Arguments aes_ctr {D K C}.
Arguments aes_run {D K C}.

Record ColdcardDevice (D C : Type) := mkColdcard {
  cc_dev : D;
  is_simulator : bool;
  cc_serial : pystr;
  ncry_ver : Z;
  session_key : option bytes;
  encrypt_request : option C;
  decrypt_response : option C;
  master_xpub : option pystr;
  master_fingerprint : option Z }.
Arguments mkColdcard {D C}.
Arguments cc_dev {D C}.
Arguments is_simulator {D C}.
Arguments cc_serial {D C}.
Arguments ncry_ver {D C}.
Arguments session_key {D C}.
Arguments encrypt_request {D C}.
Arguments decrypt_response {D C}.
Arguments master_xpub {D C}.
Arguments master_fingerprint {D C}.

(** ** utils.py *)

(** The loop of [decode_xpub] over the characters. *)
Fixpoint xpub_int (s : pystr) (n : Z) : result Z :=
  match s with
  | [] => Ok n
  | c :: s => digit ← of_option ValueError (find_char c b58_digits); xpub_int s (n * 58 + Z.of_nat digit)
  end.

(** [b[-i:-j]]. *)
Definition slice_neg {A} (i j : nat) (b : list A) : list A := slice_to_neg j (slice_from_neg i b).

Definition decode_xpub (s : pystr) : result (bytes * bytes) :=
  assertR (startswith $"pub" (drop 1 s));;
  n ← xpub_int s 0;
  res ← unhexlify (pad_even (fmt_hex n));
  let pad := count_leading (b58_digit 0) (slice_to_neg 1 s) in
  let decoded := replicate pad (chr 0) ++ res in
  Ok (slice_neg 37 4 decoded, slice_neg 69 37 decoded).

(** [pow(a, e, p)] for [e >= 0]. *)
Fixpoint pow_pos (a : Z) (e : positive) (p : Z) : Z :=
  match e with
  | xH => a mod p
  | xO e => pow_pos (a * a mod p) e p
  | xI e => a * pow_pos (a * a mod p) e p mod p
  end.
Definition pow_mod (a e p : Z) : Z := match e with Zpos e => pow_pos a e p | _ => 1 mod p end.

Definition field_p : Z := 0xFFFFFFFFFFFFFFFFFFFFFFFFFFFFFFFFFFFFFFFFFFFFFFFFFFFFFFFEFFFFFC2F.

Definition get_pubkey_string (b : bytes) : result bytes :=
  b0 ← nth_py b 0;
  let p := field_p in
  let x := be_int (drop 1 b) in
  let y := pow_mod ((x * x * x + 7) mod p) ((p + 1) / 4) p in
  let y := if Z.land y 1 =? Z.land (ord b0) 1 then y else p - y in
  xs ← to_bytes_be 32 x;
  ys ← to_bytes_be 32 y;
  Ok (xs ++ ys).

(** ** Packets *)

Definition zeros (n : nat) : bytes := replicate n Byte.x00.

(** The packet of 65 bytes that carries [here], the last one or not. *)
Definition packet (encrypt last : bool) (here : bytes) : bytes :=
  let flag := if last then Z.lor (Z.lor (len here) 0x80) (if encrypt then 0x40 else 0) else len here in
  [chr 0; chr flag] ++ here ++ zeros (63 - length here).

Section packets.
Context {D : Type} (h : cc_hid D).

Fixpoint send_packets (fuel : nat) (encrypt : bool) (msg : bytes) : state D () :=
  match msg, fuel with
  | [], _ => mret ()
  | _, O => raise OutOfFuel
  | _, S fuel =>
      let here := take 63 msg in
      let buf := packet encrypt (length msg <=? 63)%nat here in
      rv ← cc_write h buf;
      assert_ ((rv =? len buf) && (len buf =? 65));;
      send_packets fuel encrypt (drop 63 msg)
  end.

(** Reading with a time-out in milliseconds; [None] is without one. *)
Definition read_packet (timeout : option Z) : state D bytes :=
  let t := default 0 timeout in
  buf ← cc_read h t;
  buf ← (if bool_decide (buf = []) && negb (t =? 0) then cc_read h t else mret buf);
  assert_ (negb (bool_decide (buf = [])));;
  mret buf.

(** The response so far, until a packet says it is the last: that packet's flags
    and the response. *)
Fixpoint collect_packets (rounds : nat) (timeout : option Z) (resp : bytes) : state D (Z * bytes) :=
  match rounds with
  | O => raise OutOfFuel
  | S rounds =>
      buf ← read_packet timeout;
      let flag := match buf with b :: _ => ord b | [] => 0 end in
      let resp := resp ++ slice 1 (1 + Z.to_nat (Z.land flag 0x3f)) buf in
      if negb (Z.land flag 0x80 =? 0) then mret (flag, resp) else collect_packets rounds timeout resp
  end.

Fixpoint flush (rounds : nat) : state D () :=
  match rounds with
  | O => raise OutOfFuel
  | S rounds => junk ← cc_read h 1; if bool_decide (junk = []) then mret () else flush rounds
  end.
End packets.

(** ** ColdcardDevice *)

Section device.
Context `{Hashes} {D K C : Type} (h : cc_hid D) (crypto : cc_crypto D K C) (rounds : nat).
Notation M := (state (ColdcardDevice D C)).

Definition on_dev {A} (m : state D A) : M A :=
  zoom cc_dev (λ d s, mkColdcard d (is_simulator s) (cc_serial s) (ncry_ver s) (session_key s) (encrypt_request s)
    (decrypt_response s) (master_xpub s) (master_fingerprint s)) m.

Definition set_ncry_ver (v : Z) : M () := modify (λ s,
  mkColdcard (cc_dev s) (is_simulator s) (cc_serial s) v (session_key s) (encrypt_request s) (decrypt_response s) (master_xpub s) (master_fingerprint s)).
Definition set_session_key (k : bytes) : M () := modify (λ s,
  mkColdcard (cc_dev s) (is_simulator s) (cc_serial s) (ncry_ver s) (Some k) (encrypt_request s) (decrypt_response s) (master_xpub s) (master_fingerprint s)).
Definition set_request (c : C) : M () := modify (λ s,
  mkColdcard (cc_dev s) (is_simulator s) (cc_serial s) (ncry_ver s) (session_key s) (Some c) (decrypt_response s) (master_xpub s) (master_fingerprint s)).
Definition set_response (c : C) : M () := modify (λ s,
  mkColdcard (cc_dev s) (is_simulator s) (cc_serial s) (ncry_ver s) (session_key s) (encrypt_request s) (Some c) (master_xpub s) (master_fingerprint s)).
Definition set_master (xpub : pystr) (fp : Z) : M () := modify (λ s,
  mkColdcard (cc_dev s) (is_simulator s) (cc_serial s) (ncry_ver s) (session_key s) (encrypt_request s) (decrypt_response s) (Some xpub) (Some fp)).

Definition resync : M () :=
  on_dev (flush h rounds);;
  on_dev (cc_write h ([chr 0; chr 0x80] ++ replicate 63 (chr 0xff)));;
  on_dev (flush h rounds);;
  err ← on_dev (cc_error h);
  (if negb (bool_decide (err = [])) && negb (contains $"not implemented yet" err) && negb (bool_decide (err = $"Success"))
   then raise RuntimeError else mret ());;
  serial ← on_dev (cc_serial_number h);
  s ← get;
  assert_ (bool_decide (serial = cc_serial s)).

(** A message through the counter-mode object of a direction. *)
Definition run_aes (c : option C) (set : C → M ()) (msg : bytes) : M bytes :=
  c ← liftS (of_option TypeError c);
  '(msg, c) ← liftS (aes_run crypto c msg);
  set c;;
  mret msg.

Definition send_recv (msg : bytes) (timeout : option Z) (encrypt : bool) : M response :=
  assert_ ((4 <=? len msg) && (len msg <=? MAX_MSG_LEN));;
  s ← get;
  let encrypt := match encrypt_request s with None => false | Some _ => encrypt || (ncry_ver s =? USB_NCRY_V2) end in
  msg ← (if encrypt then run_aes (encrypt_request s) set_request msg else mret msg);
  on_dev (send_packets h (length msg) encrypt msg);;
  '(flag, resp) ← on_dev (collect_packets h rounds timeout []);
  resp ← (if negb (Z.land flag 0x40 =? 0) then run_aes (decrypt_response s) set_response resp else mret resp);
  liftS (CCProtocolUnpacker.decode resp).

(** With the default arguments. *)
Definition request (msg : bytes) : M response := send_recv msg (Some 3000) true.
Definition request_slow (msg : bytes) : M response := send_recv msg None true.

Definition ec_setup : M (K * bytes) :=
  '(my_key, pubkey) ← on_dev (ec_generate crypto);
  assert_ (len pubkey =? 64);;
  mret (my_key, pubkey).

Definition ec_mult (my_key : K) (his_pubkey : bytes) : M bytes :=
  assert_ (len his_pubkey =? 64);;
  kk ← liftS (ec_point crypto my_key his_pubkey);
  mret (sha256 kk).

Definition aes_setup (session_key : bytes) : M () := set_request (aes_ctr crypto session_key);; set_response (aes_ctr crypto session_key).

Definition start_encryption (version : Z) : M () :=
  '(my_key, pubkey) ← ec_setup;
  msg ← liftS (CCProtocolPacker.encrypt_start pubkey version);
  r ← send_recv msg (Some 3000) false;
  match r with
  | RPubkey his_pubkey fingerprint xpub =>
      set_ncry_ver version;;
      key ← ec_mult my_key his_pubkey;
      set_session_key key;;
      xpub ← liftS (ascii xpub);
      set_master xpub fingerprint;;
      aes_setup key
  | RNone | RInt _ => raise TypeError
  | RInts [_; _; _] | RBytes [_; _; _] => set_ncry_ver version;; raise TypeError
  | RText [_; _; _] => set_ncry_ver version;; raise AssertionError
  | _ => raise ValueError
  end.

Definition mitm_verify (sig expected_xpub session_key : bytes) : result bool :=
  '(pubkey, _) ← decode_xpub expected_xpub;
  k ← get_pubkey_string pubkey;
  ec_verify crypto k (drop 1 sig) session_key.

(** [len] of a response. *)
Definition response_len (r : response) : result Z :=
  match r with
  | RBytes b => Ok (len b)
  | RText s => Ok (len s)
  | RInts l => Ok (len l)
  | RPubkey _ _ _ => Ok 3
  | RSigned _ _ | RFile _ _ => Ok 2
  | RNone | RInt _ => Err TypeError
  end.

(** [check_mitm] without arguments: the signature of the device over the session
    key, by the key it gave when the link was set up. *)
Definition cc_check_mitm : M () :=
  s ← get;
  assert_ (negb (bool_decide (default [] (master_xpub s) = [])));;
  assert_ (negb (bool_decide (default [] (session_key s) = [])));;
  r ← send_recv CCProtocolPacker.check_mitm (Some 5000) true;
  n ← liftS (response_len r);
  assert_ (n =? 65);;
  match r with
  | RBytes sig =>
      ok ← liftS (mitm_verify sig (default [] (master_xpub s)) (default [] (session_key s)));
      if ok : bool then mret () else raise RuntimeError
  | _ => raise TypeError
  end.

(** ** Files *)

(** [range(0, n, blksize)]. *)
Definition block_starts (n blksize : Z) : list Z := map (λ i, Z.of_nat i * blksize) (seq 0 (Z.to_nat ((n + blksize - 1) / blksize))).

Definition block (data : bytes) (i blksize : Z) : bytes := slice (Z.to_nat i) (Z.to_nat (i + blksize)) data.

Fixpoint upload_blocks (data : bytes) (blksize : Z) (starts : list Z) : M () :=
  match starts with
  | [] => mret ()
  | i :: starts =>
      msg ← liftS (CCProtocolPacker.upload i (len data) (block data i blksize));
      pos ← request msg;
      assert_ (bool_decide (pos = RInt i));;
      upload_blocks data blksize starts
  end.

Definition upload_file (data : bytes) (verify : bool) (blksize : Z) : M (Z * bytes) :=
  let chk := sha256 data in
  upload_blocks data blksize (block_starts (len data) blksize);;
  (if verify then
     rb ← request CCProtocolPacker.sha256;
     if bool_decide (rb = RBytes chk) then mret () else raise RuntimeError
   else mret ());;
  mret (len data, chk).

Fixpoint download_loop (fuel : nat) (length_ blksize file_number : Z) (pos : Z) (data : bytes) : M bytes :=
  if pos <? length_ then
    match fuel with
    | O => raise OutOfFuel
    | S fuel =>
        msg ← liftS (CCProtocolPacker.download pos (Z.min blksize (length_ - pos)) file_number);
        r ← request msg;
        match r with
        | RBytes here =>
            assert_ (0 <? len here);;
            download_loop fuel length_ blksize file_number (pos + len here) (data ++ here)
        | _ => raise TypeError
        end
    end
  else mret data.

Definition download_file (length_ : Z) (checksum : bytes) (blksize file_number : Z) : M bytes :=
  data ← download_loop (Z.to_nat length_) length_ blksize file_number 0 [];
  if bool_decide (sha256 data ≠ checksum) then raise RuntimeError else mret data.

(** ** Versions *)

Definition firmware_version : M (list pystr) :=
  r ← request CCProtocolPacker.version;
  match r with
  | RText s => mret (split_char (chr 10) s)
  | RBytes _ => raise TypeError
  | _ => raise AttributeError
  end.

Definition is_edge_command : bytes := $"EXECimport version; RV.write(str(int(getattr(version, 'is_edge', 0))))".

Definition cc_is_edge : M bool :=
  s ← get;
  if is_simulator s then
    rv ← send_recv is_edge_command (Some 60000) false;
    mret (bool_decide (rv = RBytes $"1"))
  else
    lines ← firmware_version;
    line ← liftS (nth_py lines 1);
    c ← liftS (index_py line (-1));
    mret (bool_decide (c = chr 88)).
End device.

(** * Lemmas *)

(** ** A device behind packets

    A device that answers every message, and what its end of the link does: it
    puts the packets together, opens and seals messages with its own
    counter-mode objects, and keeps the packets of its answers until they are
    read. *)
Record linked (C E : Type) := mkLinked {
  l_in : bytes;
  l_out : list bytes;
  l_rx : option C;
  l_tx : option C;
  l_state : E }.
Arguments mkLinked {C E}.
Arguments l_in {C E}.
Arguments l_out {C E}.
Arguments l_rx {C E}.
Arguments l_tx {C E}.
Arguments l_state {C E}.

(** The packets of an answer, which have no report number. *)
Fixpoint answer_packets (fuel : nat) (sealed : bool) (msg : bytes) : list bytes :=
  match msg, fuel with
  | [], _ | _, O => []
  | _, S fuel => drop 1 (packet sealed (length msg <=? 63)%nat (take 63 msg)) :: answer_packets fuel sealed (drop 63 msg)
  end.

Section linked.
Context {D K C E : Type} (crypto : cc_crypto D K C) (serve : bytes → E → bytes * E).

(** A message through an object, or unchanged where there is none or it fails. *)
Definition through (sealed : bool) (c : option C) (msg : bytes) : bytes * option C :=
  match sealed, c with
  | true, Some c => match aes_run crypto c msg with Ok (m, c) => (m, Some c) | Err _ => (msg, Some c) end
  | _, _ => (msg, c)
  end.

Definition link_answer (sealed : bool) (msg : bytes) (l : linked C E) : linked C E :=
  let '(msg, rx) := through sealed (l_rx l) msg in
  let '(reply, e) := serve msg (l_state l) in
  let '(reply, tx) := through sealed (l_tx l) reply in
  mkLinked [] (l_out l ++ answer_packets (length reply) sealed reply) rx tx e.

Definition link_write (buf : bytes) : state (linked C E) Z := λ l,
  match buf with
  | _ :: flag :: payload =>
      let msg := l_in l ++ take (Z.to_nat (Z.land (ord flag) 0x3f)) payload in
      (Ok (len buf),
       if Z.land (ord flag) 0x80 =? 0 then mkLinked msg (l_out l) (l_rx l) (l_tx l) (l_state l)
       else link_answer (negb (Z.land (ord flag) 0x40 =? 0)) msg l)
  | _ => (Ok (len buf), l)
  end.

Definition link_read (timeout : Z) : state (linked C E) bytes := λ l,
  match l_out l with
  | p :: out => (Ok p, mkLinked (l_in l) out (l_rx l) (l_tx l) (l_state l))
  | [] => (Ok [], l)
  end.

Definition linked_hid : cc_hid (linked C E) := mkCcHid link_read link_write (mret []) (mret []) (mret ()).
End linked.

(** *** The header of a packet *)

Definition header (sealed last : bool) (n : Z) : Z := if last then Z.lor (Z.lor n 0x80) (if sealed then 0x40 else 0) else n.

Lemma header_ok sealed last n : 0 <= n <= 63 →
  let f := ord (chr (header sealed last n)) in
  Z.land f 0x3f = n ∧ negb (Z.land f 0x80 =? 0) = last ∧ (last = true → negb (Z.land f 0x40 =? 0) = sealed).
Proof.
  intros Hn. assert (forallb (λ i, let f := ord (chr (header sealed last (Z.of_nat i))) in
    (Z.land f 0x3f =? Z.of_nat i) && eqb (negb (Z.land f 0x80 =? 0)) last && (negb last || eqb (negb (Z.land f 0x40 =? 0)) sealed)) (seq 0 64) = true) as Hf
    by (destruct sealed, last; vm_compute; reflexivity).
  rewrite forallb_forall in Hf. specialize (Hf (Z.to_nat n)). rewrite Z2Nat.id in Hf by lia. cbv zeta in *.
  destruct (andb_prop _ _ (Hf ltac:(apply in_seq; lia))) as [[H1 H2]%andb_prop H3]. apply eqb_prop in H2.
  split; [lia|]. split; [done|]. intros ->. by apply eqb_prop in H3.
Qed.

Lemma packet_parts sealed last here : (length here <= 63)%nat →
  packet sealed last here = chr 0 :: chr (header sealed last (len here)) :: here ++ zeros (63 - length here).
Proof. reflexivity. Qed.

Lemma packet_length sealed last here : (length here <= 63)%nat → len (packet sealed last here) = 65.
Proof. intros H. rewrite packet_parts by done. unfold len, zeros. cbn [length]. rewrite length_app, length_replicate. lia. Qed.

Lemma drop_nonempty n (m : bytes) : (n < length m)%nat → drop n m ≠ [].
Proof. intros H Hd. apply (f_equal length) in Hd. rewrite length_drop in Hd. simpl in Hd. lia. Qed.

Section crossing.
Context {D K C E : Type} (crypto : cc_crypto D K C) (serve : bytes → E → bytes * E).
Notation hid := (linked_hid crypto serve).
Notation link_answer := (link_answer crypto serve).

Lemma packet_payload sealed last (here t : bytes) : (length here <= 63)%nat → take (Z.to_nat (Z.land (ord (chr (header sealed last (len here)))) 0x3f)) (here ++ t) = here.
Proof.
  intros H. destruct (header_ok sealed last (len here)) as [-> _]; [unfold len; lia|]. unfold len. rewrite Nat2Z.id. apply take_app_length.
Qed.

Lemma link_write_packet sealed last here l : (length here <= 63)%nat →
  link_write crypto serve (packet sealed last here) l =
    (Ok 65, if last then link_answer sealed (l_in l ++ here) l else mkLinked (l_in l ++ here) (l_out l) (l_rx l) (l_tx l) (l_state l)).
Proof.
  intros H. pose proof (packet_length sealed last here H) as Hl. rewrite packet_parts in * by done. unfold link_write.
  rewrite Hl, packet_payload by done. destruct (header_ok sealed last (len here)) as (_ & H2 & H3); [unfold len; lia|]. cbv zeta in *.
  destruct last; [by rewrite H3, (proj1 (negb_true_iff _) H2)|by rewrite (proj1 (negb_false_iff _) H2)].
Qed.

Lemma send_linked fuel sealed msg l : (length msg <= fuel)%nat → msg ≠ [] →
  send_packets hid fuel sealed msg l = (Ok (), link_answer sealed (l_in l ++ msg) l).
Proof.
  revert msg l. induction fuel as [|fuel IH]; intros msg l Hf Hm; [destruct msg; cbn in *; [done|lia]|].
  destruct msg as [|b msg]; [done|]. set (m := b :: msg) in *. cbn [send_packets]. change (b :: msg) with m.
  assert (length (take 63 m) <= 63)%nat as Ht by (rewrite length_take; lia).
  set (last := (length m <=? 63)%nat).
  change (cc_write hid) with (link_write crypto serve). unfold m at 1. cbv iota.
  rewrite (state_bind_eval _ _ _ _ _ (link_write_packet sealed last (take 63 m) l Ht)), packet_length by done.
  rewrite (state_bind_eval _ _ _ _ _ (assert_true _)).
  destruct (Nat.leb_spec (length m) 63) as [Hl|Hl]; subst last; cbv iota.
  - rewrite (drop_ge m), take_ge by lia. by destruct fuel.
  - rewrite IH; [|rewrite length_drop; subst m; cbn in *; lia|].
    + cbn [l_in]. by rewrite <- app_assoc, take_drop.
    + by apply drop_nonempty.
Qed.

Lemma collect_linked fuel rounds sealed msg out timeout resp l : (length msg <= fuel)%nat → (length msg <= 63 * rounds)%nat → msg ≠ [] →
  l_out l = answer_packets fuel sealed msg ++ out →
  ∃ flag, collect_packets hid rounds timeout resp l = (Ok (flag, resp ++ msg), mkLinked (l_in l) out (l_rx l) (l_tx l) (l_state l)) ∧
    negb (Z.land flag 0x40 =? 0) = sealed.
Proof.
  revert rounds msg resp l. induction fuel as [|fuel IH]; intros rounds msg resp l Hf Hr Hm Ho; [destruct msg; cbn in *; [done|lia]|].
  destruct rounds as [|rounds]; [destruct msg; cbn in *; [done|lia]|].
  destruct msg as [|b msg]; [done|]. set (m := b :: msg) in *. cbn [answer_packets] in Ho. change (b :: msg) with m in Ho.
  assert (length (take 63 m) <= 63)%nat as Ht by (rewrite length_take; lia).
  set (last := (length m <=? 63)%nat) in *. rewrite packet_parts in Ho by done. unfold m at 1 in Ho. cbn [drop app] in Ho.
  set (flag := chr (header sealed last (len (take 63 m)))) in *. set (p := flag :: _) in *.
  assert (read_packet hid timeout l = (Ok p, mkLinked (l_in l) (answer_packets fuel sealed (drop 63 m) ++ out) (l_rx l) (l_tx l) (l_state l))) as Hp.
  { unfold read_packet. change (cc_read hid) with (@link_read C E).
    erewrite state_bind_eval by (unfold link_read; by rewrite Ho). by rewrite bool_decide_eq_false_2. }
  cbn [collect_packets]. rewrite (state_bind_eval _ _ _ _ _ Hp). cbv zeta. change (match p with b0 :: _ => ord b0 | [] => 0 end) with (ord flag).
  destruct (header_ok sealed last (len (take 63 m))) as (H1 & H2 & H3); [unfold len; lia|]. cbv zeta in H1, H2, H3. fold flag in H1, H2, H3.
  rewrite H2. assert (slice 1 (1 + Z.to_nat (Z.land (ord flag) 63)) p = take 63 m) as ->.
  { unfold slice, p. cbn [drop]. replace (1 + _ - 1)%nat with (Z.to_nat (Z.land (ord flag) 63)) by lia. by apply packet_payload. }
  destruct (Nat.leb_spec (length m) 63) as [Hl|Hl]; subst last.
  - exists (ord flag). rewrite (drop_ge m), (take_ge m) by lia. split; [by destruct fuel|by apply H3].
  - destruct (IH rounds (drop 63 m) (resp ++ take 63 m) (mkLinked (l_in l) (answer_packets fuel sealed (drop 63 m) ++ out) (l_rx l) (l_tx l) (l_state l)))
      as (f & E1 & E2); try done.
    + rewrite length_drop. subst m. cbn in *. lia.
    + rewrite length_drop. lia.
    + by apply drop_nonempty.
    + exists f. split; [|done]. rewrite E1. by rewrite <- app_assoc, take_drop.
Qed.
End crossing.

(** ** A request and its answer *)

(** What encrypts a message decrypts it, from the same state. *)
Definition ctr_law {D K C} (crypto : cc_crypto D K C) : Prop :=
  ∀ c m, ∃ e c', aes_run crypto c m = Ok (e, c') ∧ len e = len m ∧ aes_run crypto c e = Ok (m, c').

(** Both ends of the link are in the same state and nothing is under way. *)
Definition in_step {C E} (s : ColdcardDevice (linked C E) C) : Prop :=
  let l := cc_dev s in
  l_in l = [] ∧ l_out l = [] ∧ l_rx l = encrypt_request s ∧ l_tx l = decrypt_response s ∧ (is_Some (encrypt_request s) ↔ is_Some (decrypt_response s)).

Section request.
Context `{Hashes} {K C E : Type} (crypto : cc_crypto (linked C E) K C) (serve : bytes → E → bytes * E) (Hlaw : ctr_law crypto) (rounds : nat).
Notation hid := (linked_hid crypto serve).

Lemma through_seal c m : ∃ e c', through crypto true (Some c) m = (e, Some c') ∧ aes_run crypto c m = Ok (e, c') ∧ len e = len m ∧
  through crypto true (Some c) e = (m, Some c') ∧ aes_run crypto c e = Ok (m, c').
Proof. destruct (Hlaw c m) as (e & c' & H1 & H2 & H3). exists e, c'. cbn. by rewrite H1, H3. Qed.

(** A request through packets: what the device gets and what comes back. *)
Lemma exchange_linked sealed m m' reply r' rx rx' tx tx' e0 e timeout : m ≠ [] → r' ≠ [] → (length r' <= 63 * rounds)%nat →
  through crypto sealed rx m = (m', rx') → serve m' e0 = (reply, e) → through crypto sealed tx reply = (r', tx') →
  ∃ l flag, send_packets hid (length m) sealed m (mkLinked [] [] rx tx e0) = (Ok (), l) ∧
    collect_packets hid rounds timeout [] l = (Ok (flag, r'), mkLinked [] [] rx' tx' e) ∧ negb (Z.land flag 0x40 =? 0) = sealed.
Proof.
  intros Hm Hr Hn E1 E2 E3. eexists _. rewrite send_linked by done. unfold link_answer. cbn [l_in l_out l_rx l_tx l_state app]. rewrite E1, E2, E3.
  destruct (collect_linked crypto serve (length r') rounds sealed r' [] timeout [] (mkLinked [] (answer_packets (length r') sealed r') rx' tx' e))
    as (flag & Hc & Hf); [done..|by rewrite app_nil_r|]. by exists flag.
Qed.

Lemma on_dev_eval {A} (m : state (linked C E) A) (s : ColdcardDevice (linked C E) C) r l : m (cc_dev s) = (r, l) → on_dev m s =
  (r, mkColdcard l (is_simulator s) (cc_serial s) (ncry_ver s) (session_key s) (encrypt_request s) (decrypt_response s) (master_xpub s) (master_fingerprint s)).
Proof. unfold on_dev, zoom. by intros ->. Qed.

(** The counter-mode objects and the device apart, nothing changes. *)
Definition same_session (s s' : ColdcardDevice (linked C E) C) : Prop :=
  is_simulator s' = is_simulator s ∧ cc_serial s' = cc_serial s ∧ ncry_ver s' = ncry_ver s ∧ session_key s' = session_key s ∧
  master_xpub s' = master_xpub s ∧ master_fingerprint s' = master_fingerprint s ∧ (is_Some (encrypt_request s') ↔ is_Some (encrypt_request s)).

#[export] Instance same_session_preorder : PreOrder same_session.
Proof.
  split; [by intros s|]. intros s1 s2 s3 (A1 & A2 & A3 & A4 & A5 & A6 & A7) (B1 & B2 & B3 & B4 & B5 & B6 & B7).
  unfold same_session. rewrite B1, B2, B3, B4, B5, B6. split_and!; try done. by rewrite B7.
Qed.

Lemma send_recv_linked s msg timeout encrypt reply e : in_step s → 4 <= len msg <= MAX_MSG_LEN → serve msg (l_state (cc_dev s)) = (reply, e) →
  reply ≠ [] → (length reply <= 63 * rounds)%nat →
  ∃ s', send_recv hid crypto rounds msg timeout encrypt s = (CCProtocolUnpacker.decode reply, s') ∧ in_step s' ∧ l_state (cc_dev s') = e ∧ same_session s s'.
Proof.
  destruct s as [[lin lout rx tx e0] sim ser ver key req resp mx mf]. intros (Hin & Hout & Hrx & Htx & Hboth) Hl Hs Hr Hn.
  cbn in Hin, Hout, Hrx, Htx, Hboth, Hs. subst lin lout rx tx. unfold send_recv.
  rewrite (proj2 (Z.leb_le 4 _)), (proj2 (Z.leb_le _ MAX_MSG_LEN)) by lia. rewrite (state_bind_eval _ _ _ _ _ (assert_true _)).
  unfold get at 1. erewrite state_bind_eval by reflexivity. cbn [encrypt_request decrypt_response ncry_ver].
  assert (msg ≠ []) as Hm by (intros ->; unfold len in Hl; simpl in Hl; lia).
  destruct (match req with Some _ => _ | None => _ end) eqn:Eseal.
  - destruct req as [c|]; [|done]. destruct resp as [c2|]; [|by destruct (proj1 Hboth ltac:(by eexists))].
    destruct (through_seal c msg) as (sm & c' & _ & H2 & H3 & H4 & _). destruct (through_seal c2 reply) as (sr & c2' & H5 & H6 & H7 & _ & H9).
    assert (sm ≠ []) as Hsm by (intros ->; unfold len in *; simpl in *; lia).
    assert (sr ≠ [] ∧ (length sr <= 63 * rounds)%nat) as [Hsr Hsn].
    { unfold len in H7. split; [intros ->; destruct reply; simpl in *; [done|lia]|lia]. }
    destruct (exchange_linked true sm msg reply sr _ _ _ _ e0 e timeout Hsm Hsr Hsn H4 Hs H5) as (l & flag & X1 & X2 & X3).
    unfold run_aes. unfold mbind, state_bind, liftS, of_option. cbn [encrypt_request decrypt_response]. rewrite H2. cbn -[on_dev send_packets collect_packets Z.land].
    erewrite on_dev_eval by exact X1. cbn -[on_dev send_packets collect_packets Z.land]. erewrite on_dev_eval by exact X2. cbn -[on_dev send_packets collect_packets Z.land]. rewrite X3, H9. cbn -[on_dev send_packets collect_packets Z.land].
    eexists. split; [done|]. split; [by repeat split; cbn; eauto|]. split; [done|]. by repeat split; cbn; eauto.
  - destruct (exchange_linked false msg msg reply reply req req resp resp e0 e timeout Hm Hr Hn) as (l & flag & X1 & X2 & X3); [done..|].
    unfold mbind, state_bind, mret, state_ret. erewrite on_dev_eval by exact X1. cbn -[on_dev send_packets collect_packets Z.land]. erewrite on_dev_eval by exact X2. cbn -[on_dev send_packets collect_packets Z.land]. rewrite X3. cbn -[on_dev send_packets collect_packets Z.land].
    eexists. split; [done|]. split; [by repeat split; cbn; apply Hboth|]. by repeat split.
Qed.
End request.

(** ** Files *)

Section files.
Context `{Hashes} {D K C : Type} (h : cc_hid D) (crypto : cc_crypto D K C) (rounds : nat).
Notation ask := (request h crypto rounds).

Lemma request_decoded msg s r s' : ask msg s = (Ok r, s') → ∃ resp, CCProtocolUnpacker.decode resp = Ok r.
Proof.
  unfold request, send_recv. intros (? & ? & _ & E)%state_bind_ok. apply state_bind_ok in E as (? & ? & _ & E).
  apply state_bind_ok in E as (? & ? & _ & E). apply state_bind_ok in E as (? & ? & _ & E). apply state_bind_ok in E as ([flag resp] & ? & _ & E).
  apply state_bind_ok in E as (resp' & ? & _ & [= E _]). by exists resp'.
Qed.

(** Whatever the device answers, a round of the loop brings a byte. *)
Lemma download_loop_result fuel n blk file pos data s r s' : 0 <= pos → len data = pos → (Z.to_nat (n - pos) <= fuel)%nat →
  download_loop h crypto rounds fuel n blk file pos data s = (r, s') →
  (∀ out, r = Ok out → n <= len out) ∧ (r = Err OutOfFuel → ∃ msg s1 s2, ask msg s1 = (Err OutOfFuel, s2)).
Proof.
  revert pos data s. induction fuel as [|fuel IH]; intros pos data s Hp Hd Hf; cbn [download_loop]; destruct (Z.ltb_spec pos n) as [Hlt|Hge].
  - lia.
  - intros [= <- <-]. split; [|done]. intros out [= <-]. lia.
  - unfold mbind at 1, state_bind at 1, liftS at 1. destruct (CCProtocolPacker.download _ _ _) as [msg|e] eqn:Em.
    + unfold mbind at 1, state_bind at 1. destruct (ask msg s) as [[resp|e] s1] eqn:Er.
      * destruct resp; try (intros [= <- <-]; by split). unfold mbind at 1, state_bind at 1.
        destruct (Z.ltb_spec 0 (len b)); cbn; [|intros [= <- <-]; by split].
        intros E. refine (IH _ _ _ _ _ _ E); [lia| |lia]. unfold len in *. rewrite length_app. lia.
      * intros [= <- <-]. split; [done|]. intros [= ->]. by exists msg, s, s1.
    + intros [= <- <-]. split; [done|]. intros [= ->]. exfalso. unfold CCProtocolPacker.download, assertR, raise_if in Em.
      destruct (negb _); [done|]. cbn in Em. unfold pack_u in Em. by repeat case_match.
  - intros [= <- <-]. split; [|done]. intros out [= <-]. lia.
Qed.
End files.

(** The blocks of a file are the file. *)
Lemma blocks_concat (data : bytes) blk : 0 < blk → concat (map (λ i, block data i blk) (block_starts (len data) blk)) = data.
Proof.
  intros Hb. unfold block_starts. rewrite map_map. set (n := Z.to_nat _).
  assert (∀ k, (k <= n)%nat → concat (map (λ i, block data (Z.of_nat i * blk) blk) (seq 0 k)) = take (Z.to_nat (Z.of_nat k * blk)) data) as Hk.
  { induction k as [|k IH]; intros Hk; [done|]. rewrite seq_S, map_app, concat_app, IH by lia. cbn [map concat]. rewrite app_nil_r.
    unfold block, slice. replace (Z.to_nat (Z.of_nat (0 + k) * blk + blk) - Z.to_nat (Z.of_nat (0 + k) * blk))%nat with (Z.to_nat blk) by lia.
    replace (Z.to_nat (Z.of_nat (S k) * blk)) with (Z.to_nat (Z.of_nat k * blk) + Z.to_nat blk)%nat by nia. by rewrite take_take_drop. }
  rewrite Hk by done. apply take_ge. subst n. unfold len. rewrite Z2Nat.id by (apply Z.div_pos; lia).
  pose proof (Z.mod_pos_bound (Z.of_nat (length data) + blk - 1) blk Hb). pose proof (Z.div_mod (Z.of_nat (length data) + blk - 1) blk ltac:(lia)). nia.
Qed.

Lemma pack_I_fits l : Forall (fits 4) l → pack_I l = Ok (concat (map (le_bytes 4) l)).
Proof. induction 1 as [|z l Hz _ IH]; [done|]. cbn [pack_I map concat]. by rewrite pack_u_fits, bind_Ok, IH. Qed.

Lemma decode_biny b : CCProtocolUnpacker.decode ($"biny" ++ b) = Ok (RBytes b).
Proof. unfold CCProtocolUnpacker.decode, assertR, len. rewrite length_app. rewrite (proj2 (Z.leb_le _ _)); [done|]. simpl. lia. Qed.

Lemma decode_int1 n : fits 4 n → CCProtocolUnpacker.decode ($"int1" ++ le_bytes 4 n) = Ok (RInt n).
Proof.
  intros Hn. transitivity (z ← unpack_I ($"int1" ++ le_bytes 4 n) 4; Ok (RInt z)); [reflexivity|].
  assert (unpack_I ($"int1" ++ le_bytes 4 n) 4 = Ok n) as ->; [|done].
  change (unpack_I ($"int1" ++ le_bytes 4 n) 4) with (unpack_u 4 (take 4 (le_bytes 4 n))). unfold unpack_u.
  rewrite take_ge by (by rewrite length_le_bytes). rewrite length_le_bytes. change (Ok (le_int (le_bytes 4 n)) = Ok n). by rewrite le_int_le_bytes_small.
Qed.

(** ** A device that keeps a file *)

Section stored.
Context `{Hashes} {K C E : Type} (crypto : cc_crypto (linked C E) K C) (serve : bytes → E → bytes * E) (Hlaw : ctr_law crypto) (rounds : nat) (Hrounds : (0 < rounds)%nat).
Notation hid := (linked_hid crypto serve).
Context (file : E → bytes).

(** An upload is written at its offset, what follows is cut off. *)
Definition stores : Prop := ∀ i n b msg e, CCProtocolPacker.upload i n b = Ok msg → 0 <= i <= len (file e) →
  ∃ e', serve msg e = ($"int1" ++ le_bytes 4 i, e') ∧ file e' = take (Z.to_nat i) (file e) ++ b.
Definition hashes : Prop := ∀ e, ∃ e', serve CCProtocolPacker.sha256 e = ($"biny" ++ sha256 (file e), e') ∧ file e' = file e.
(** A download is the bytes asked for. *)
Definition reads_out (number : Z) : Prop := ∀ pos n msg e, CCProtocolPacker.download pos n number = Ok msg →
  ∃ e', serve msg e = ($"biny" ++ slice (Z.to_nat pos) (Z.to_nat (pos + n)) (file e), e') ∧ file e' = file e.

Lemma request_linked s msg reply e : in_step s → 4 <= len msg <= MAX_MSG_LEN → serve msg (l_state (cc_dev s)) = (reply, e) →
  reply ≠ [] → (length reply <= 63 * rounds)%nat →
  ∃ s', request hid crypto rounds msg s = (CCProtocolUnpacker.decode reply, s') ∧ in_step s' ∧ l_state (cc_dev s') = e ∧ same_session s s'.
Proof. intros. by apply (send_recv_linked crypto serve Hlaw rounds s msg (Some 3000) true reply e). Qed.

Lemma upload_message i n b : fits 4 i → fits 4 n → len b <= MAX_BLK_LEN →
  ∃ msg, CCProtocolPacker.upload i n b = Ok msg ∧ 4 <= len msg <= MAX_MSG_LEN.
Proof.
  intros Hi Hn Hb. unfold CCProtocolPacker.upload, assertR. rewrite (proj2 (Z.leb_le (len b) MAX_MSG_LEN)) by (unfold MAX_MSG_LEN; lia).
  rewrite (pack_I_fits [i; n]) by (repeat constructor; apply Hi || apply Hn). eexists. split; [reflexivity|].
  cbn [map concat]. unfold MAX_MSG_LEN, len in *. rewrite !length_app, !length_le_bytes. simpl. lia.
Qed.

Lemma upload_blocks_stored data blk (Hs : stores) (Hd : fits 4 (len data)) (Hb : 0 < blk <= MAX_BLK_LEN) k j s : in_step s →
  let at_ i := take (Z.to_nat (Z.of_nat i * blk)) data in
  (Z.of_nat (j + k) - 1) * blk < len data →
  (j = 0%nat ∧ 0 < Z.of_nat k ∨ file (l_state (cc_dev s)) = at_ j) →
  ∃ s', upload_blocks hid crypto rounds data blk (map (λ i, Z.of_nat i * blk) (seq j k)) s = (Ok (), s') ∧ in_step s' ∧
    file (l_state (cc_dev s')) = at_ (j + k)%nat ∧ same_session s s'.
Proof.
  cbv zeta. revert j s. induction k as [|k IH]; intros j s Hst Hend Hf.
  - exists s. rewrite Nat.add_0_r. destruct Hf as [[_ Hf]|Hf]; [lia|]. by split_and!.
  - cbn [seq map upload_blocks]. set (i := Z.of_nat j * blk). set (b := block data i blk).
    assert (0 <= i < len data) as Hi by (unfold i; nia).
    assert (len b <= MAX_BLK_LEN) as Hlb by (unfold b, block, slice, len; rewrite length_take; lia).
    destruct (upload_message i (len data) b) as (msg & Hm & Hl); [unfold fits in *; lia|done|done|].
    assert (0 <= i <= len (file (l_state (cc_dev s)))) as Hin.
    { split; [lia|]. destruct Hf as [[-> _]|Hf]; [unfold i; simpl; unfold len; lia|]. rewrite Hf. unfold len in *. rewrite length_take. fold i. lia. }
    destruct (Hs _ _ _ _ (l_state (cc_dev s)) Hm Hin) as (e' & Hserve & He').
    destruct (request_linked s msg ($"int1" ++ le_bytes 4 i) e' Hst Hl Hserve) as (s1 & Hr & Hst1 & <- & Hss); [done| |].
    { rewrite length_app, length_le_bytes. simpl. lia. }
    unfold liftS. erewrite state_bind_eval by (by rewrite Hm). rewrite decode_int1 in Hr by (unfold fits in *; lia).
    rewrite (state_bind_eval _ _ _ _ _ Hr), bool_decide_eq_true_2, (state_bind_eval _ _ _ _ _ (assert_true _)) by done.
    replace (j + S k)%nat with (S j + k)%nat in * by lia.
    cut (file (l_state (cc_dev s1)) = take (Z.to_nat (Z.of_nat (S j) * blk)) data).
    { intros Hf1. destruct (IH (S j) s1 Hst1 Hend ltac:(by right)) as (s' & E1 & Hst' & E2 & Hss'). exists s'. split_and!; try done. by transitivity s1. }
    rewrite He'.
    assert (take (Z.to_nat i) (file (l_state (cc_dev s))) = take (Z.to_nat i) data) as ->.
    { destruct Hf as [[-> _]| ->]; [done|]. by rewrite take_take, Nat.min_id. }
    unfold b, block, slice. replace (Z.to_nat (Z.of_nat (S j) * blk)) with (Z.to_nat i + Z.to_nat blk)%nat by (unfold i; nia).
    replace (Z.to_nat (i + blk) - Z.to_nat i)%nat with (Z.to_nat blk) by lia. apply take_take_drop.
Qed.

Lemma download_message pos n number : fits 4 pos → fits 4 n → 0 <= number < 2 →
  ∃ msg, CCProtocolPacker.download pos n number = Ok msg ∧ 4 <= len msg <= MAX_MSG_LEN.
Proof.
  intros Hp Hn Hi. unfold CCProtocolPacker.download, assertR. rewrite (proj2 (Z.leb_le 0 number)), (proj2 (Z.ltb_lt number 2)) by lia.
  rewrite (pack_I_fits [pos; n; number]) by (repeat constructor; apply Hp || apply Hn || lia). by eexists.
Qed.

Lemma download_loop_reads fuel f blk number pos s : reads_out number → 0 <= number < 2 → in_step s → file (l_state (cc_dev s)) = f →
  0 <= pos <= len f → fits 4 (len f) → 0 < blk → blk + 4 <= 63 * Z.of_nat rounds → (Z.to_nat (len f - pos) <= fuel)%nat →
  ∃ s', download_loop hid crypto rounds fuel (len f) blk number pos (take (Z.to_nat pos) f) s = (Ok f, s') ∧ in_step s' ∧ file (l_state (cc_dev s')) = f ∧
    same_session s s'.
Proof.
  intros Hs Hnum. revert pos s. induction fuel as [|fuel IH]; intros pos s Hst Hf Hpos Hlf Hb Hbr Hfuel; cbn [download_loop];
    (destruct (Z.ltb_spec pos (len f)) as [Hlt|Hge]; [|exists s; rewrite take_ge by (unfold len in *; lia); done]).
  - lia.
  - set (n := Z.min blk (len f - pos)). destruct (download_message pos n number) as (msg & Hm & Hl); [unfold fits, n in *; lia..|done|].
    destruct (Hs _ _ _ (l_state (cc_dev s)) Hm) as (e' & Hserve & He'). rewrite Hf in Hserve, He'.
    set (b := slice (Z.to_nat pos) (Z.to_nat (pos + n)) f) in *.
    assert (len b = n) as Hlb by (unfold b, slice, len in *; rewrite length_take, length_drop; lia).
    destruct (request_linked s msg ($"biny" ++ b) e' Hst Hl Hserve) as (s1 & Hr & Hst1 & <- & Hss); [done| |].
    { rewrite length_app. unfold len in *. simpl. lia. }
    unfold liftS. erewrite state_bind_eval by (by rewrite Hm). rewrite decode_biny in Hr. rewrite (state_bind_eval _ _ _ _ _ Hr). cbv iota.
    rewrite (proj2 (Z.ltb_lt 0 (len b))), (state_bind_eval _ _ _ _ _ (assert_true _)) by lia. rewrite Hlb.
    assert (take (Z.to_nat pos) f ++ b = take (Z.to_nat (pos + n)) f) as ->.
    { unfold b, slice. rewrite take_take_drop. f_equal. lia. }
    destruct (IH (pos + n) s1) as (s' & E1 & Hst' & E2 & Hss'); [done..|lia|done|lia|done|lia|]. exists s'. split_and!; try done. by transitivity s1.
Qed.
Lemma upload_all (Hs : stores) data blk s : in_step s → 0 < len data < 2 ^ 32 → 0 < blk <= MAX_BLK_LEN →
  ∃ s', upload_blocks hid crypto rounds data blk (block_starts (len data) blk) s = (Ok (), s') ∧ in_step s' ∧
    file (l_state (cc_dev s')) = data ∧ same_session s s'.
Proof.
  intros Hst Hd Hb. set (k := Z.to_nat ((len data + blk - 1) / blk)).
  pose proof (Z.mod_pos_bound (len data + blk - 1) blk ltac:(lia)). pose proof (Z.div_mod (len data + blk - 1) blk ltac:(lia)).
  pose proof (Z.div_pos (len data + blk - 1) blk ltac:(lia) ltac:(lia)).
  destruct (upload_blocks_stored data blk Hs ltac:(unfold fits; lia) Hb k 0 s Hst) as (s1 & E1 & Hst1 & Hf1 & Hss).
  { subst k. cbn [Nat.add]. rewrite Z2Nat.id by done. nia. }
  { left. split; [done|]. subst k. rewrite Z2Nat.id by done. nia. }
  cbn [Nat.add] in Hf1. rewrite take_ge in Hf1 by (subst k; unfold len in *; rewrite Z2Nat.id by done; nia). by exists s1.
Qed.

Lemma hash_confirmed (Hh : hashes) s : in_step s →
  ∃ s', request hid crypto rounds CCProtocolPacker.sha256 s = (Ok (RBytes (sha256 (file (l_state (cc_dev s))))), s') ∧ in_step s' ∧
    file (l_state (cc_dev s')) = file (l_state (cc_dev s)) ∧ same_session s s'.
Proof.
  intros Hst. destruct (Hh (l_state (cc_dev s))) as (e' & Hserve & He').
  destruct (request_linked s CCProtocolPacker.sha256 _ e' Hst ltac:(done) Hserve) as (s2 & E2 & Hst2 & <- & Hss);
    [done|rewrite length_app, sha256_length; simpl; lia|]. rewrite decode_biny in E2. by exists s2.
Qed.
End stored.

(** * Properties *)

(** C33: Over a device that puts packets of 63 bytes together and answers in such packets, a request of
    the Coldcard's protocol is one call of the device: it gets the message, and what comes back is its
    answer, decoded, or the exception the answer stands for; whether the link is sealed
    or not, both ends stay in step and the session is the same. *)
Theorem send_recv_refines `{Hashes} {K C E : Type} (crypto : cc_crypto (linked C E) K C) (serve : bytes → E → bytes * E) (Hlaw : ctr_law crypto)
    (rounds : nat) (s : ColdcardDevice (linked C E) C) (msg reply : bytes) (timeout : option Z) (encrypt : bool) (e : E) (Hs : in_step s)
    (Hm : 4 <= len msg <= MAX_MSG_LEN) (Hserve : serve msg (l_state (cc_dev s)) = (reply, e)) (Hr : reply ≠ []) (Hn : (length reply <= 63 * rounds)%nat) :
  ∃ s', send_recv (linked_hid crypto serve) crypto rounds msg timeout encrypt s = (CCProtocolUnpacker.decode reply, s') ∧
    in_step s' ∧ l_state (cc_dev s') = e ∧ same_session s s'.
Proof. by eapply send_recv_linked. Qed.

(** A file that is uploaded to a Coldcard that stores what it is sent is there, whole and in order,
    in blocks of any allowed size; the device has confirmed its hash, and its length and hash are returned. *)
Theorem upload_file_stored `{Hashes} {K C E : Type} (crypto : cc_crypto (linked C E) K C) (serve : bytes → E → bytes * E) (Hlaw : ctr_law crypto)
    (rounds : nat) (Hrounds : (0 < rounds)%nat) (file : E → bytes) (Hs : stores serve file) (Hh : hashes serve file)
    (data : bytes) (blk : Z) (s : ColdcardDevice (linked C E) C) (Hd : 0 < len data < 2 ^ 32) (Hb : 0 < blk <= MAX_BLK_LEN) (Hst : in_step s) :
  ∃ s', upload_file (linked_hid crypto serve) crypto rounds data true blk s = (Ok (len data, sha256 data), s') ∧
    in_step s' ∧ file (l_state (cc_dev s')) = data.
Proof.
  destruct (upload_all crypto serve Hlaw rounds Hrounds file Hs data blk s Hst Hd Hb) as (s1 & E1 & Hst1 & Hf1 & _).
  destruct (hash_confirmed crypto serve Hlaw rounds Hrounds file Hh s1 Hst1) as (s2 & E2 & Hst2 & Hf2 & _). rewrite Hf1 in E2, Hf2.
  exists s2. split; [|done]. unfold upload_file. cbv zeta. rewrite (state_bind_eval _ _ _ _ _ E1).
  unfold mbind at 1, state_bind at 1. rewrite (state_bind_eval _ _ _ _ _ E2). by rewrite bool_decide_eq_true_2.
Qed.

(** C34: What a download returns has the hash that was announced and at least the announced length, whatever
    the device answers, and the loop ends; of a device that reads out its file it returns that file. *)
Theorem download_file_correct `{Hashes} {K C E : Type} (crypto : cc_crypto (linked C E) K C) (rounds : nat) :
  (∀ h n checksum blk number s r s', 0 <= n → download_file h crypto rounds n checksum blk number s = (r, s') →
    (∀ data, r = Ok data → sha256 data = checksum ∧ n <= len data) ∧
    (r = Err OutOfFuel → ∃ msg s1 s2, request h crypto rounds msg s1 = (Err OutOfFuel, s2))) ∧
  ∀ serve file number blk s, ctr_law crypto → reads_out serve file number → 0 <= number < 2 → in_step s →
    let f := file (l_state (cc_dev s)) in
    fits 4 (len f) → 0 < blk → blk + 4 <= 63 * Z.of_nat rounds →
    ∃ s', download_file (linked_hid crypto serve) crypto rounds (len f) (sha256 f) blk number s = (Ok f, s') ∧ in_step s'.
Proof.
  split.
  - intros h n checksum blk number s r s' Hn. unfold download_file, mbind at 1, state_bind at 1.
    destruct (download_loop _ _ _ _ _ _ _ _ _ _) as [[data|e] s1] eqn:Ed;
      destruct (download_loop_result h crypto rounds (Z.to_nat n) n blk number 0 [] s _ _ ltac:(lia) eq_refl ltac:(lia) Ed) as [H1 H2].
    + case_bool_decide; intros [= <- <-]; split; try done. intros out [= <-]. split; [done|by apply H1].
    + intros [= <- <-]. by split.
  - intros serve file number blk s Hlaw Hs Hnum Hst f Hf Hb Hbr.
    destruct (download_loop_reads crypto serve Hlaw rounds ltac:(lia) file (Z.to_nat (len f)) f blk number 0 s Hs Hnum Hst eq_refl) as (s' & H1 & Hst' & _);
      [unfold len; lia|done|done|done|lia|].
    exists s'. split; [|done]. unfold download_file. rewrite (state_bind_eval _ _ _ _ _ H1). by rewrite bool_decide_eq_false_2 by (intros Hx; by apply Hx).
Qed.

(** * Witnesses *)

(** A counter mode: the bytes of a message are exclusive-ored with a counter of messages. *)
Definition example_run (c : Z) (m : bytes) : result (bytes * Z) := Ok (map (λ b, chr (Z.lxor (ord b) (c mod 256))) m, c + 1).

Definition example_crypto (D : Type) : cc_crypto D () Z :=
  mkCcCrypto (mret ((), replicate 64 (chr 1))) (λ _ b, Ok b) (λ _ _ _, Ok true) (λ _, 0) example_run.

Lemma example_law D : ctr_law (example_crypto D).
Proof.
  intros c m. exists (map (λ b, chr (Z.lxor (ord b) (c mod 256))) m), (c + 1). split; [done|]. split; [unfold len; by rewrite length_map|].
  cbn. unfold example_run. f_equal. f_equal. rewrite map_map. rewrite <- (map_id m) at 2. apply map_ext. intros b.
  pose proof (ord_range b). pose proof (Z.mod_pos_bound c 256 ltac:(lia)). rewrite ord_chr_small by (apply (lxor_bound 8); lia).
  by rewrite Z.lxor_assoc, Z.lxor_nilpotent, Z.lxor_0_r, chr_ord.
Qed.

(** A device whose state is its file. *)
Definition example_serve (msg file : bytes) : bytes * bytes :=
  let command := take 4 msg in
  let pos := Z.to_nat (le_int (slice 4 8 msg)) in
  if bool_decide (command = $"upld") then ($"int1" ++ slice 4 8 msg, take pos file ++ drop 12 msg)
  else if bool_decide (command = $"sha2") then ($"biny" ++ sha256 file, file)
  else if bool_decide (command = $"dwld") then ($"biny" ++ take (Z.to_nat (le_int (slice 8 12 msg))) (drop pos file), file)
  else ($"err_", file).

Lemma pack_I_ok l b : pack_I l = Ok b → Forall (fits 4) l ∧ b = concat (map (le_bytes 4) l).
Proof.
  revert b. induction l as [|z l IH]; intros b; cbn [pack_I]; [by intros [= <-]|].
  intros (x & [Hz ->]%pack_u_ok & (y & [Hl ->]%IH & [= <-])%bind_ok)%bind_ok. split; [by constructor|done].
Qed.

Lemma example_stores : stores example_serve id.
Proof.
  intros i n b msg e Hm Hi. unfold CCProtocolPacker.upload in Hm. apply bind_ok in Hm as (u & _ & (v & [Hf ->]%pack_I_ok & [= <-])%bind_ok).
  apply Forall_cons in Hf as [Hf _]. eexists. unfold example_serve.
  change (slice 4 8 _) with (take 4 (le_bytes 4 i ++ concat (map (le_bytes 4) [n]) ++ b)).
  rewrite (take_app_length' (le_bytes 4 i)) by (by rewrite length_le_bytes). rewrite le_int_le_bytes_small by done. split; reflexivity.
Qed.

Lemma example_reads number : reads_out example_serve id number.
Proof.
  intros pos n msg e Hm. unfold CCProtocolPacker.download in Hm. apply bind_ok in Hm as (u & _ & (v & [Hf ->]%pack_I_ok & [= <-])%bind_ok).
  apply Forall_cons in Hf as [Hf1 Hf]. apply Forall_cons in Hf as [Hf2 _]. exists e. split; [|done]. unfold example_serve.
  change (slice 4 8 _) with (take 4 (le_bytes 4 pos ++ concat (map (le_bytes 4) [n; number]))).
  change (slice 8 12 _) with (take 4 (le_bytes 4 n ++ concat (map (le_bytes 4) [number]))).
  rewrite (take_app_length' (le_bytes 4 pos)), (take_app_length' (le_bytes 4 n)) by (by rewrite length_le_bytes). rewrite !le_int_le_bytes_small by done.
  unfold slice, fits in *. replace (Z.to_nat (pos + n) - Z.to_nat pos)%nat with (Z.to_nat n) by lia. reflexivity.
Qed.

(** A sealed link to it. *)
Definition example_cc (file : bytes) : ColdcardDevice (linked Z bytes) Z :=
  mkColdcard (mkLinked [] [] (Some 7) (Some 9) file) false [] 1 (Some $"key") (Some 7) (Some 9) (Some $"xpub") (Some 0).

Lemma example_in_step file : in_step (example_cc file).
Proof. by repeat split; eexists. Qed.

Lemma send_recv_refines_witness : ∃ s',
  send_recv (linked_hid (example_crypto (linked Z bytes)) example_serve) (example_crypto (linked Z bytes)) 2 CCProtocolPacker.sha256 None true (example_cc $"file") =
    (Ok (RBytes (sha256 $"file")), s') ∧ l_state (cc_dev s') = $"file".
Proof.
  destruct (send_recv_refines (example_crypto (linked Z bytes)) example_serve (example_law _) 2 (example_cc $"file") CCProtocolPacker.sha256
    ($"biny" ++ sha256 $"file") None true $"file" (example_in_step _)) as (s' & E1 & _ & E2 & _).
  - split; apply Z.leb_le; vm_compute; reflexivity.
  - reflexivity.
  - discriminate.
  - apply Nat.leb_le. vm_compute. reflexivity.
  - exists s'. rewrite E1. split; [vm_compute; reflexivity|exact E2].
Defined.

Lemma upload_file_stored_witness : ∃ s',
  upload_file (linked_hid (example_crypto (linked Z bytes)) example_serve) (example_crypto (linked Z bytes)) 1 (replicate 100 (chr 5)) true 64 (example_cc $"old") =
    (Ok (100, sha256 (replicate 100 (chr 5))), s') ∧ l_state (cc_dev s') = replicate 100 (chr 5).
Proof.
  destruct (upload_file_stored (example_crypto (linked Z bytes)) example_serve (example_law _) 1 ltac:(lia) id example_stores
    ltac:(intros e; exists e; split; reflexivity) (replicate 100 (chr 5)) 64 (example_cc $"old")) as (s' & E1 & _ & E2).
  - split; reflexivity.
  - split; [reflexivity|discriminate].
  - apply example_in_step.
  - exists s'. split; [exact E1|exact E2].
Defined.

Lemma download_file_correct_witness : ∃ s',
  download_file (linked_hid (example_crypto (linked Z bytes)) example_serve) (example_crypto (linked Z bytes)) 2 200 (sha256 (replicate 200 (chr 5))) 90 1
    (example_cc (replicate 200 (chr 5))) = (Ok (replicate 200 (chr 5)), s').
Proof.
  destruct (proj2 (download_file_correct (E := bytes) (example_crypto (linked Z bytes)) 2) example_serve id 1 90 (example_cc (replicate 200 (chr 5)))
    (example_law _) (example_reads 1)) as (s' & E1 & _).
  - lia.
  - apply example_in_step.
  - split; [discriminate|reflexivity].
  - lia.
  - lia.
  - exists s'. exact E1.
Defined.
