(* ===== verification/Coldcard.v ===== *)
(** * The Coldcard driver (devices/coldcard.py)

    ColdcardClient over [ColdcardDevice] of CkccClient.v.  [rounds] also bounds
    the loops that ask the device whether it is done.  A response whose kind
    the code does not expect is a [TypeError]; of a response of two values the
    code takes apart all kinds are modelled.  Saving a backup is a parameter; the
    constructor and the enumeration are left out. *)

From S2P Require Import Prelude Bytes PyStd PyStr StateM Common Sha256 Base58 Script Tx KeyPath Key PsbtMap PsbtIn PsbtOut Psbt PubkeyProvider.
From S2P Require Import Descriptor RegDescriptor Commands PyJson CkccProtocol CkccClient.

(** ** Versions *)

(** [a >= b] of tuples. *)
Fixpoint tuple_geb (a b : list Z) : bool :=
  match a, b with
  | _, [] => true
  | [], _ :: _ => false
  | x :: a, y :: b => if x =? y then tuple_geb a b else y <? x
  end.

Definition _firmware_version_supports_psbt_v2 (version : pystr) : result bool :=
  if endswith_char (chr 81) version || endswith_char (chr 88) version then Ok true
  else
    match mapR int_str (split_char (chr 46) version) with
    | Ok parts => Ok (tuple_geb parts [5; 2; 0])
    | Err e => if is_value_error e then Ok false else Err e
    end.

(** ** Exceptions *)

Definition coldcard_exn (e : pyexn) : pyexn :=
  match e with
  | CCProtoError | CCFramingError => BadArgumentError
  | CCUserRefused => ActionCanceledError
  | CCBusyError => DeviceBusyError
  | _ => e
  end.

Definition coldcard_exception {S A} (m : state S A) : state S A := λ s,
  match m s with
  | (Err e, s') => (Err (coldcard_exn e), s')
  | r => r
  end.

(** ** ColdcardClient *)

Record ColdcardClient (D C : Type) := mkColdcardClient { device : ColdcardDevice D C; _is_edge : option bool }.
Arguments mkColdcardClient {D C}.
Arguments device {D C}.
Arguments _is_edge {D C}.

(** The keys of ours of an input that have no signature yet. *)
Definition unsigned_keys (master_fp : bytes) (psbt_in : PsbtIn) : nat :=
  length (filter (λ kv, fingerprint kv.2 = master_fp ∧ dict_get kv.1 (in_partial_sigs psbt_in) = None) (in_hd_keypaths psbt_in)).

(** The most of them that an input has, at least 1. *)
Definition needed_passes (master_fp : bytes) (ins : list PsbtIn) : nat := foldl (λ passes psbt_in, Nat.max passes (unsigned_keys master_fp psbt_in)) 1%nat ins.

(** The texts of a registered descriptor order the requests. *)
Definition registered_names (rds : list RegisteredDescriptor) : result (list pystr) :=
  keyed ← mapR (λ rd, s ← RegisteredDescriptor_serialize rd; Ok (s, rd)) rds;
  Ok (map (λ x, rd_name x.2) (sort_by (λ a b, negb (bytes_leb b.1 a.1)) keyed)).

(** [path.replace('h', "'").replace('H', "'")]. *)
Definition cc_path (path : pystr) : pystr := str_replace $"H" $"'" (str_replace $"h" $"'" path).

Definition singlesig_format (t : AddressType) : Z :=
  match t with SH_WIT => AF_P2WPKH_P2SH | WIT => AF_P2WPKH | LEGACY => AF_CLASSIC | TAP => AF_P2TR end.

Definition multisig_format (t : AddressType) : result Z :=
  match t with SH_WIT => Ok AF_P2WSH_P2SH | WIT => Ok AF_P2WSH | LEGACY => Ok AF_P2SH | TAP => Err BadArgumentError end.

(** [n.to_bytes(1, 'little')]. *)
Definition byte_of (n : Z) : result bytes := to_bytes_be 1 n.

(** The script of a multisig and the paths of its keys, in the order of the public keys. *)
Definition multisig_request (pubkeys : list PubkeyProvider) (thresh : Z) : result (list (list Z) * bytes) :=
  redeem_script ← byte_of (80 + thresh);
  raise_if (negb ((1 <=? thresh) && (thresh <=? len pubkeys))) BadArgumentError;;
  pks ← mapR (λ p, pk ← get_pubkey_bytes 0 0 p; Ok (pk, p)) pubkeys;
  parts ← mapR (λ x, xfp ← get_full_derivation_int_list 0 0 x.2; n ← byte_of (len x.1); Ok (xfp, n ++ x.1)) (sorted_pairs pks);
  n ← byte_of (80 + len pubkeys);
  Ok (map fst parts, redeem_script ++ concat (map snd parts) ++ n ++ [chr 0xae]).

(** The multisig of a [wsh(multi())]. *)
Definition wsh_multisig (d : Descriptor) : option Descriptor :=
  match d with WSHDescriptor ((MultisigDescriptor _ _ _) as ms) => Some ms | _ => None end.

Section driver.
Context `{Hashes} `{SetOrder} {D K C : Type} (h : cc_hid D) (crypto : cc_crypto D K C) (rounds : nat) (chain : Chain) (save_file : bytes → state D ()).
Notation M := (state (ColdcardClient D C)).

Definition on_device {A} (m : state (ColdcardDevice D C) A) : M A := zoom device (λ d s, mkColdcardClient d (_is_edge s)) m.

Definition call (msg : bytes) : M response := on_device (request h crypto rounds msg).
Definition call_slow (msg : bytes) : M response := on_device (request_slow h crypto rounds msg).
Definition check_mitm : M () := on_device (cc_check_mitm h crypto rounds).

(** The property: asked once, and again as long as asking fails. *)
Definition is_edge : M bool := λ s,
  match _is_edge s with
  | Some b => (Ok b, s)
  | None =>
      match on_device (cc_is_edge h crypto rounds) s with
      | (Ok b, s) => (Ok b, mkColdcardClient (device s) (Some b))
      | (Err OutOfFuel, s) => (Err OutOfFuel, s)
      | (Err _, s) => (Ok false, s)
      end
  end.

Definition _supports_psbt_v2 : M bool :=
  s ← get;
  if is_simulator (device s) then mret true
  else
    edge ← is_edge;
    if edge : bool then mret true
    else
      lines ← on_device (firmware_version h crypto rounds);
      version ← liftS (nth_py lines 1);
      liftS (_firmware_version_supports_psbt_v2 version).

(** On a simulator the key is pressed from here. *)
Definition keypress (key : bytes) : M () :=
  s ← get;
  if is_simulator (device s) then call (CCProtocolPacker.sim_keypress key);; mret () else mret ().

Definition response_text (r : response) : result pystr := match r with RText s => Ok s | _ => Err TypeError end.

Definition cc_get_pubkey_at_path (path : pystr) : M ExtendedKey :=
  coldcard_exception (
    check_mitm;;
    msg ← liftS (CCProtocolPacker.get_xpub (cc_path path));
    r ← call_slow msg;
    xpub_str ← liftS (response_text r);
    xpub ← liftS (ExtendedKey_deserialize xpub_str);
    mret (if bool_decide (chain = MAIN) then xpub
          else {| Key.version := TESTNET_PUBLIC; depth := depth xpub; parent_fingerprint := parent_fingerprint xpub; child_num := child_num xpub;
                  chaincode := chaincode xpub; privkey := privkey xpub; pubkey := pubkey xpub |})).

Definition cc_get_master_fingerprint : M bytes :=
  s ← get;
  fp ← liftS (of_option StructError (master_fingerprint (device s)));
  liftS (pack_u 4 fp).

(** ** Files *)

(** The upload of the driver: the blocks, and the hash that the device has of them. *)
Definition send_file (data : bytes) : M () :=
  on_device (upload_blocks h crypto rounds data MAX_BLK_LEN (block_starts (len data) MAX_BLK_LEN));;
  let expect := sha256 data in
  r ← call CCProtocolPacker.sha256;
  n ← liftS (response_len r);
  on_device (assert_ (n =? 32));;
  if bool_decide (r = RBytes expect) then mret () else raise DeviceFailureError.

(** Ask until there is something. *)
Fixpoint poll (fuel : nat) (before : M ()) (msg : bytes) : M response :=
  match fuel with
  | O => raise OutOfFuel
  | S fuel =>
      before;;
      done ← call_slow msg;
      match done with RNone => poll fuel before msg | _ => mret done end
  end.

(** [result_len, result_sha = done] and the download of that file. *)
Definition fetch (done : response) (file_number : Z) : M bytes :=
  n ← liftS (response_len done);
  if negb (n =? 2) then raise DeviceFailureError
  else
    match done with
    | RFile result_len result_sha => on_device (download_file h crypto rounds result_len result_sha 1024 file_number)
    | RInts (n :: _) => on_device (download_loop h crypto rounds (Z.to_nat n) n 1024 file_number 0 []);; raise RuntimeError
    | RBytes (b :: _) => on_device (download_loop h crypto rounds (Z.to_nat (ord b)) (ord b) 1024 file_number 0 []);; raise RuntimeError
    | _ => raise TypeError
    end.

(** ** Signing *)

Definition _sign_tx_once (psbt : PSBT) (miniscript_name : option pystr) : M PSBT :=
  '(s, _) ← liftS (psbt_serialize psbt);
  data ← liftS (b64decode s);
  send_file data;;
  msg ← liftS (CCProtocolPacker.sign_transaction (len data) (sha256 data) false 0 miniscript_name);
  ok ← call_slow msg;
  on_device (assert_ (bool_decide (ok = RNone)));;
  keypress $"y";;
  done ← poll rounds (mret ()) CCProtocolPacker.get_signed_txn;
  result ← fetch done 1;
  liftS (psbt_deserialize (b64encode result) PSBT_new).

Fixpoint sign_times (n : nat) (psbt : PSBT) : M PSBT :=
  match n with
  | O => mret psbt
  | S n => psbt ← _sign_tx_once psbt None; sign_times n psbt
  end.

Definition _sign_without_policy_names (psbt : PSBT) (master_fp : bytes) : M PSBT :=
  edge ← is_edge;
  sign_times (if edge : bool then 1 else needed_passes master_fp (psbt_inputs psbt)) psbt.

Fixpoint sign_named (names : list pystr) (psbt : PSBT) : M PSBT :=
  match names with
  | [] => mret psbt
  | name :: names => psbt ← _sign_tx_once psbt (Some name); sign_named names psbt
  end.

(** Whether an input with a key of ours has no signature of ours. *)
Definition left_unsigned (master_fp : bytes) (psbt : PSBT) : bool :=
  existsb (λ i, in_has_fingerprint master_fp i && negb (in_has_signature master_fp i)) (psbt_inputs psbt).

Definition _sign_with_policy_names (psbt : PSBT) (rds : list RegisteredDescriptor) (master_fp : bytes) : M PSBT :=
  names ← liftS (registered_names rds);
  psbt ← sign_named names psbt;
  if left_unsigned master_fp psbt then _sign_tx_once psbt None else mret psbt.

Definition cc_sign_tx (psbt : PSBT) (rds : list RegisteredDescriptor) : M PSBT :=
  coldcard_exception (
    check_mitm;;
    msg ← liftS (CCProtocolPacker.get_xpub $"m/0'");
    r ← call_slow msg;
    xpub ← liftS (response_text r);
    master_fp ← liftS (get_xpub_fingerprint xpub);
    psbt ← (if psbt_version psbt =? 2 then
              ok ← _supports_psbt_v2;
              if ok : bool then mret psbt else liftS (convert_to_v0 psbt)
            else mret psbt);
    edge ← is_edge;
    if (edge : bool) && negb (bool_decide (length rds = 0%nat)) then _sign_with_policy_names psbt rds master_fp
    else _sign_without_policy_names psbt master_fp).

(** [base64.b64encode(raw)] of the second of two values. *)
Definition signature_text (done : response) : result pystr :=
  match done with
  | RSigned _ raw | RFile _ raw => Ok (b64encode raw)
  | _ => Err TypeError
  end.

Definition cc_sign_message (message keypath : pystr) : M pystr :=
  coldcard_exception (
    check_mitm;;
    msg ← liftS (CCProtocolPacker.sign_message (encode_utf8 message) (cc_path keypath) AF_CLASSIC);
    ok ← call_slow msg;
    on_device (assert_ (bool_decide (ok = RNone)));;
    keypress $"y";;
    done ← poll rounds (mret ()) CCProtocolPacker.get_signed_msg;
    n ← liftS (response_len done);
    if negb (n =? 2) then raise DeviceFailureError else liftS (signature_text done)).

(** ** Addresses *)

(** The address that the device shows: [isinstance(address, str)]. *)
Definition shown (payload : bytes) : M pystr :=
  r ← call_slow payload;
  match r with
  | RText address => keypress $"y";; mret address
  | _ => raise AssertionError
  end.

Definition cc_display_singlesig_address (keypath : pystr) (addr_type : AddressType) : M pystr :=
  coldcard_exception (
    check_mitm;;
    (match addr_type with TAP => edge ← is_edge; if edge : bool then mret () else raise UnavailableActionError | _ => mret () end);;
    payload ← liftS (CCProtocolPacker.show_address (cc_path keypath) (singlesig_format addr_type));
    shown payload).

Definition cc_display_multisig_address (addr_type : AddressType) (multisig : Descriptor) : M pystr :=
  coldcard_exception (
    match multisig with
    | MultisigDescriptor pubkeys thresh is_sorted =>
        if negb is_sorted then raise BadArgumentError
        else
          check_mitm;;
          addr_fmt ← liftS (multisig_format addr_type);
          if negb ((1 <=? len pubkeys) && (len pubkeys <=? 15)) then raise BadArgumentError
          else
            '(xfp_paths, redeem_script) ← liftS (multisig_request pubkeys thresh);
            payload ← liftS (CCProtocolPacker.show_p2sh_address thresh xfp_paths redeem_script addr_fmt);
            shown payload
    | _ => raise AttributeError
    end).

(** Not decorated: the exceptions of the link are those of the protocol. *)
Definition cc_display_bip388_policy_address (rd : RegisteredDescriptor) (index multipath_index : Z) : M pystr :=
  edge ← is_edge;
  if edge : bool then
    if negb ((multipath_index =? 0) || (multipath_index =? 1)) then raise BadArgumentError
    else
      payload ← liftS (CCProtocolPacker.miniscript_address (rd_name rd) (negb (multipath_index =? 0)) index);
      shown payload
  else
    descriptor ← liftS (derive index multipath_index (rd_descriptor rd));
    match wsh_multisig descriptor with
    | Some ms => cc_display_multisig_address WIT ms
    | None => raise BadArgumentError
    end.

(** ** Backup and registration *)

Definition cc_backup_device (label passphrase : pystr) : M bool :=
  coldcard_exception (
    check_mitm;;
    ok ← call CCProtocolPacker.start_backup;
    on_device (assert_ (bool_decide (ok = RNone)));;
    keypress $"y";;
    done ← poll rounds (keypress $"1") CCProtocolPacker.get_backup_file;
    result ← fetch done 0;
    on_device (on_dev (save_file result));;
    mret true).

Definition cc_register_descriptor (name : pystr) (descriptor : Descriptor) : M RegisteredDescriptor :=
  coldcard_exception (
    desc ← liftS (to_string $"h" descriptor);
    let conf_bytes := json_dumps (JDict [($"desc", JStr desc); ($"name", JStr name)]) in
    send_file conf_bytes;;
    edge ← is_edge;
    msg ← liftS ((if edge : bool then CCProtocolPacker.miniscript_enroll else CCProtocolPacker.multisig_enroll) (len conf_bytes) (sha256 conf_bytes));
    call_slow msg;;
    keypress $"y";;
    mret (RegisteredDescriptor_new name descriptor $"coldcard" [])).

(** What a Coldcard does not do from the host. *)
Definition unavailable {A} : M A := raise UnavailableActionError.

Definition coldcard_ops : client_ops (ColdcardClient D C) := {|
  get_pubkey_at_path := cc_get_pubkey_at_path;
  op_master_fingerprint := cc_get_master_fingerprint;
  Commands.sign_tx := cc_sign_tx;
  op_sign_message := cc_sign_message;
  display_singlesig_address := cc_display_singlesig_address;
  display_multisig_address := cc_display_multisig_address;
  display_bip388_policy_address := cc_display_bip388_policy_address;
  can_sign_taproot := is_edge;
  op_register_descriptor := cc_register_descriptor;
  op_setup_device _ _ := unavailable;
  op_wipe_device := unavailable;
  op_restore_device _ _ := unavailable;
  op_backup_device := cc_backup_device;
  op_prompt_pin := unavailable;
  op_send_pin _ := unavailable;
  op_toggle_passphrase := unavailable;
  op_close := on_device (on_dev (cc_close h));
|}.
End driver.

(** * Lemmas *)

Lemma coldcard_ok {S A} (m : state S A) s a s' : coldcard_exception m s = (Ok a, s') ↔ m s = (Ok a, s').
Proof. unfold coldcard_exception. by destruct (m s) as [[b|e] s1]. Qed.

Lemma byte_of_ok n b : byte_of n = Ok b → b = [chr n].
Proof. unfold byte_of, to_bytes_be. case_match; [|done]. intros [= <-]. unfold be_bytes. simpl. reflexivity. Qed.

(** ** The script of a multisig *)

Definition key_le (x y : bytes * PubkeyProvider) : Prop := bytes_leb x.1 y.1 = true.

Lemma sorted_pairs_ordered l : StronglySorted key_le (sorted_pairs l).
Proof.
  apply sort_by_ordered.
  - intros x y z. apply bytes_leb_trans.
  - intros x y. unfold pair_lt, key_le. destruct (bytes_leb_total x.1 y.1) as [H|H], (bytes_leb x.1 y.1) eqn:E; try done.
    simpl. intros [Hq%bool_decide_eq_true _]%andb_prop. by rewrite Hq, bytes_leb_refl.
  - intros x y. unfold pair_lt, key_le. intros [H _]%orb_false_iff. by apply negb_false_iff in H.
Qed.

(** The path of a key as numbers: the fingerprint, the path itself, and the index again where
    the key has derivation steps and a wildcard. *)
Definition sent_path (p : PubkeyProvider) : list Z :=
  match pp_origin p with Some o => [le_int (fingerprint o)] | None => [] end ++ own_path p ++ repeated_index p.

Lemma multisig_parts l parts : mapR (λ x : bytes * PubkeyProvider, xfp ← get_full_derivation_int_list 0 0 x.2; n ← byte_of (len x.1); Ok (xfp, n ++ x.1)) l = Ok parts →
  map fst parts = map (λ x, sent_path x.2) l ∧ map snd parts = map (λ x, chr (len x.1) :: x.1) l.
Proof.
  intros H%mapR_Forall2. induction H as [|x [xfp p] l parts Hx _ [IH1 IH2]]; [by split|].
  apply bind_ok in Hx as (xfp' & ->%full_int_list_own & (n & ->%byte_of_ok & [= <- <-])%bind_ok). cbn [map fst snd]. by rewrite IH1, IH2.
Qed.

Lemma keyed_pairs ks pks : mapR (λ p, pk ← get_pubkey_bytes 0 0 p; Ok (pk, p)) ks = Ok pks → map snd pks = ks ∧ Forall (λ x, get_pubkey_bytes 0 0 x.2 = Ok x.1) pks.
Proof.
  intros H%mapR_Forall2. induction H as [|p [pk p'] ks pks Hp _ [IH1 IH2]]; [by split|]. apply bind_ok in Hp as (pk' & Hpk & [= <- <-]).
  cbn [map snd]. rewrite IH1. split; [done|by constructor].
Qed.

(** ** Signing through the link *)

Lemma sign_request_size n sha name msg : CCProtocolPacker.sign_transaction n sha false 0 name = Ok msg → 4 <= len msg <= MAX_MSG_LEN.
Proof.
  unfold CCProtocolPacker.sign_transaction. intros (u & Hsha & (v & [_ ->]%pack_I_ok & Hm)%bind_ok)%bind_ok.
  assert (len sha = 32) as Hl. { unfold assertR, raise_if in Hsha. destruct (Z.eqb_spec (len sha) 32); [done|discriminate]. }
  set (rv := $"stxn" ++ _ ++ sha) in Hm.
  assert (len rv = 44) as Hrv by (unfold rv, len in *; rewrite !length_app; cbn [map concat]; rewrite !length_app, !length_le_bytes; simpl; lia).
  clearbody rv. unfold MAX_MSG_LEN, MAX_BLK_LEN. destruct name as [[|c name]|]; [injection Hm as <-; lia| |injection Hm as <-; lia].
  apply bind_ok in Hm as (nm & _ & (u' & Hn & (b & (k & [_ ->]%pack_u_ok & [= <-])%bind_ok & [= <-])%bind_ok)%bind_ok).
  assert (len nm <= 32) as Hnm. { unfold assertR, raise_if in Hn. destruct (Z.leb_spec 1 (len nm)), (Z.leb_spec (len nm) 32); try discriminate. done. }
  unfold len in *. rewrite length_app. simpl. lia.
Qed.

Lemma decode_strx n sha : fits 4 n → length sha = 32%nat → CCProtocolUnpacker.decode ($"strx" ++ le_bytes 4 n ++ sha) = Ok (RFile n sha).
Proof.
  intros Hn Hl. transitivity (CCProtocolUnpacker.strx ($"strx" ++ le_bytes 4 n ++ sha)).
  { unfold CCProtocolUnpacker.decode, assertR, len. rewrite (proj2 (Z.leb_le _ _)); [done|]. rewrite length_app. simpl. lia. }
  unfold CCProtocolUnpacker.strx, unpack_I, unpack_s_from.
  change (slice 4 (4 + 4) ($"strx" ++ le_bytes 4 n ++ sha)) with (take 4 (le_bytes 4 n ++ sha)).
  change (slice 8 (8 + 32) ($"strx" ++ le_bytes 4 n ++ sha)) with (take 32 sha).
  rewrite (take_app_length' (le_bytes 4 n)), (take_ge sha) by (rewrite ?length_le_bytes; lia). rewrite Hl.
  unfold unpack_u. rewrite length_le_bytes. cbn [Nat.eqb]. rewrite !bind_Ok.
  by rewrite le_int_le_bytes_small.
Qed.

Section signer.
Context `{Hashes} {K C E : Type} (crypto : cc_crypto (linked C E) K C) (serve : bytes → E → bytes * E) (Hlaw : ctr_law crypto) (rounds : nat) (Hrounds : (17 <= rounds)%nat).
Context (file signed : E → bytes) (f : bytes → bytes).
Notation hid := (linked_hid crypto serve).

(** A device that takes a file, signs it with [f] when its length and hash are
    named, and gives the result out. *)
Record signer := {
  sg_stores : stores serve file;
  sg_hashes : hashes serve file;
  sg_signs name msg e : CCProtocolPacker.sign_transaction (len (file e)) (sha256 (file e)) false 0 name = Ok msg →
    ∃ e', serve msg e = ($"okay", e') ∧ signed e' = f (file e);
  sg_polled e : ∃ e', serve CCProtocolPacker.get_signed_txn e = ($"strx" ++ le_bytes 4 (len (signed e)) ++ sha256 (signed e), e') ∧ signed e' = signed e;
  sg_reads : reads_out serve signed 1 }.

Definition ready (s : ColdcardClient (linked C E) C) : Prop := in_step (device s) ∧ is_simulator (device s) = false.

Lemma on_device_eval {A} (m : state (ColdcardDevice (linked C E) C) A) (s : ColdcardClient (linked C E) C) r d :
  m (device s) = (r, d) → on_device m s = (r, mkColdcardClient d (_is_edge s)).
Proof. unfold on_device, zoom. by intros ->. Qed.

(** A request of the driver: what the device answers, with everything in place afterwards. *)
Lemma call_linked slow msg s reply e : ready s → 4 <= len msg <= MAX_MSG_LEN → serve msg (l_state (cc_dev (device s))) = (reply, e) →
  reply ≠ [] → (length reply <= 63)%nat →
  ∃ s', (if slow : bool then call_slow hid crypto rounds msg else call hid crypto rounds msg) s = (CCProtocolUnpacker.decode reply, s') ∧
    ready s' ∧ l_state (cc_dev (device s')) = e ∧ _is_edge s' = _is_edge s.
Proof.
  intros [Hst Hsim] Hm Hs Hr Hn.
  destruct (send_recv_linked crypto serve Hlaw rounds (device s) msg (if slow then None else Some 3000) true reply e Hst Hm Hs Hr ltac:(lia))
    as (d & E1 & Hst' & He & (Hsim' & _)).
  exists (mkColdcardClient d (_is_edge s)). split; [by destruct slow; apply on_device_eval|]. split; [split; [done|]|done]. cbn. congruence.
Qed.

Lemma keypress_real key s : ready s → keypress hid crypto rounds key s = (Ok (), s).
Proof. intros [_ Hsim]. unfold keypress. unfold get. erewrite state_bind_eval by reflexivity. by rewrite Hsim. Qed.

Lemma ready_session s d : ready s → in_step d → same_session (device s) d → ready (mkColdcardClient d (_is_edge s)).
Proof. intros [_ Hsim] Hd (Hsim' & _). split; [done|]. cbn. congruence. Qed.

Lemma send_file_linked (Hg : signer) data s : ready s → 0 < len data < 2 ^ 32 →
  ∃ s', send_file hid crypto rounds data s = (Ok (), s') ∧ ready s' ∧ file (l_state (cc_dev (device s'))) = data ∧ _is_edge s' = _is_edge s.
Proof.
  intros Hs Hd. destruct (upload_all crypto serve Hlaw rounds ltac:(lia) file (sg_stores Hg) data MAX_BLK_LEN (device s) (proj1 Hs) Hd ltac:(done))
    as (d1 & E1 & Hst1 & Hf1 & Hss1).
  destruct (hash_confirmed crypto serve Hlaw rounds ltac:(lia) file (sg_hashes Hg) d1 Hst1) as (d2 & E2 & Hst2 & Hf2 & Hss2). rewrite Hf1 in E2, Hf2.
  exists (mkColdcardClient d2 (_is_edge s)). split_and!; [|apply ready_session; [done..|by transitivity d1]|done|done].
  unfold send_file. rewrite (state_bind_eval _ _ _ _ _ (on_device_eval _ _ _ _ E1)). cbv zeta.
  unfold call. erewrite state_bind_eval by (by apply on_device_eval). rewrite bool_decide_eq_true_2 by done.
  unfold liftS. erewrite state_bind_eval by reflexivity. unfold len. rewrite sha256_length. erewrite state_bind_eval by reflexivity. done.
Qed.

(** The PSBT that the device makes of one. *)
Definition device_signs (psbt : PSBT) : result PSBT := '(data, _) ← psbt_write psbt; psbt_deserialize (b64encode (f data)) PSBT_new.

Lemma sign_once_linked (Hg : signer) psbt data p' name s msg : ready s → psbt_write psbt = Ok (data, p') → 0 < len data < 2 ^ 32 → fits 4 (len (f data)) →
  CCProtocolPacker.sign_transaction (len data) (sha256 data) false 0 name = Ok msg →
  ∃ s', _sign_tx_once hid crypto rounds psbt name s = (device_signs psbt, s') ∧ ready s' ∧ _is_edge s' = _is_edge s.
Proof.
  intros Hs Hw Hd Hf Hm. destruct (send_file_linked Hg data s Hs Hd) as (s1 & E1 & Hs1 & Hf1 & He1).
  destruct (sg_signs Hg name msg (l_state (cc_dev (device s1)))) as (e2 & Hserve2 & Hsg2); [by rewrite Hf1|]. rewrite Hf1 in Hsg2.
  destruct (call_linked true msg s1 _ e2 Hs1 (sign_request_size _ _ _ _ Hm) Hserve2) as (s2 & E2 & Hs2 & <- & He2); [done|simpl; lia|].
  destruct (sg_polled Hg (l_state (cc_dev (device s2)))) as (e3 & Hserve3 & Hsg3). rewrite Hsg2 in Hserve3, Hsg3.
  destruct (call_linked true CCProtocolPacker.get_signed_txn s2 _ e3 Hs2 ltac:(done) Hserve3) as (s3 & E3 & Hs3 & <- & He3);
    [done|rewrite !length_app, length_le_bytes, sha256_length; simpl; lia|].
  destruct (download_loop_reads crypto serve Hlaw rounds ltac:(lia) signed (Z.to_nat (len (f data))) (f data) 1024 1 0 (device s3) (sg_reads Hg))
    as (d4 & E4 & Hst4 & _ & Hss4); [done|apply Hs3|done|unfold len; lia|done|done|lia|lia|].
  exists (mkColdcardClient d4 (_is_edge s3)). split; [|split; [by apply ready_session|cbn; congruence]].
  unfold _sign_tx_once, device_signs, psbt_serialize. rewrite Hw, bind_Ok. unfold liftS. erewrite state_bind_eval by reflexivity.
  cbv beta iota. erewrite state_bind_eval by (by rewrite b64decode_plain). rewrite (state_bind_eval _ _ _ _ _ E1). erewrite state_bind_eval by (by rewrite Hm).
  rewrite (state_bind_eval _ _ _ _ _ E2). rewrite (state_bind_eval _ _ s2 () s2) by (by destruct s2). erewrite state_bind_eval by (by apply keypress_real).
  rewrite decode_strx in E3 by (done || by rewrite sha256_length).
  erewrite state_bind_eval. 2: { destruct rounds as [|r]; [lia|]. cbn [poll]. erewrite state_bind_eval by reflexivity. by rewrite (state_bind_eval _ _ _ _ _ E3). }
  unfold fetch. erewrite state_bind_eval; [reflexivity|]. erewrite state_bind_eval by reflexivity. cbn [Z.eqb negb].
  apply on_device_eval. unfold download_file. rewrite (state_bind_eval _ _ _ _ _ E4). by rewrite bool_decide_eq_false_2 by (intros Hx; by apply Hx).
Qed.
End signer.

(** ** Authentication *)

Section authentication.
Context `{Hashes} `{SetOrder} {D K C : Type} (h : cc_hid D) (crypto : cc_crypto D K C) (rounds : nat).

(** Nothing is sent before the link is verified, and nothing after that failed. *)
Definition authenticated {A} (m : state (ColdcardClient D C) A) : Prop := ∀ s,
  match check_mitm h crypto rounds s with
  | (Ok _, _) => True
  | (Err e, s') => m s = (Err (coldcard_exn e), s')
  end.

Lemma authenticated_first {A} (k : () → state (ColdcardClient D C) A) : authenticated (coldcard_exception (check_mitm h crypto rounds ≫= k)).
Proof.
  intros s. destruct (check_mitm h crypto rounds s) as [[u|e] s'] eqn:E; [done|]. unfold coldcard_exception.
  by rewrite (state_bind_err _ _ _ _ _ E).
Qed.

(** A link is verified by a signature over the session key. *)
Lemma mitm_signature d d' : cc_check_mitm h crypto rounds d = (Ok (), d') →
  ∃ xpub key sig, master_xpub d = Some xpub ∧ session_key d = Some key ∧ xpub ≠ [] ∧ key ≠ [] ∧ len sig = 65 ∧ mitm_verify crypto sig xpub key = Ok true.
Proof.
  unfold cc_check_mitm. intros (s & d1 & [= <- <-] & E)%state_bind_ok. apply state_bind_ok in E as (u1 & d2 & A1 & E). apply state_bind_ok in E as (u2 & d3 & A2 & E).
  unfold assert_, liftS, raise_if in A1, A2. destruct (master_xpub d) as [[|x xpub]|]; try discriminate. destruct (session_key d) as [[|k key]|]; try discriminate.
  apply state_bind_ok in E as (r & d4 & _ & E). apply state_bind_ok in E as (n & d5 & [= Hn _] & E). apply state_bind_ok in E as (u3 & d6 & A3 & E).
  destruct r as [|sig| | | | | |]; try done. injection Hn as <-. apply state_bind_ok in E as (ok & d7 & [= Hok _] & E). destruct ok; [|done].
  exists (x :: xpub), (k :: key), sig. split_and!; try done. unfold assert_, liftS, raise_if in A3. destruct (Z.eqb_spec (len sig) 65); [done|discriminate].
Qed.
End authentication.

(** * Properties *)

(** C35: Signing a PSBT through the whole stack, with sealed packets, blocks of the file, its hash, the
    request, the polling and the download, is what the device makes of the PSBT's bytes: the
    PSBT that is returned, or the exception of parsing it, is that of the file the device signed. *)
Theorem sign_once_refines `{Hashes} {K C E : Type} (crypto : cc_crypto (linked C E) K C) (serve : bytes → E → bytes * E) (Hlaw : ctr_law crypto)
    (rounds : nat) (Hrounds : (17 <= rounds)%nat) (file signed : E → bytes) (f : bytes → bytes) (Hg : signer serve file signed f)
    (psbt p' : PSBT) (data : bytes) (name : option pystr) (s : ColdcardClient (linked C E) C) (msg : bytes) (Hs : ready s)
    (Hw : psbt_write psbt = Ok (data, p')) (Hd : 0 < len data < 2 ^ 32) (Hf : fits 4 (len (f data)))
    (Hm : CCProtocolPacker.sign_transaction (len data) (sha256 data) false 0 name = Ok msg) :
  ∃ s', _sign_tx_once (linked_hid crypto serve) crypto rounds psbt name s = (psbt_deserialize (b64encode (f data)) PSBT_new, s') ∧ ready s'.
Proof.
  destruct (sign_once_linked crypto serve Hlaw rounds Hrounds file signed f Hg psbt data p' name s msg Hs Hw Hd Hf Hm) as (s' & E1 & Hs' & _).
  exists s'. split; [|done]. rewrite E1. unfold device_signs. by rewrite Hw.
Qed.

(** C36: The script that a Coldcard is asked to show the address of is the sorted multisig script of the
    descriptor: its keys are those of the descriptor's key expressions at index 0, in the order
    of their bytes, and the recogniser of multisig scripts reads the threshold and the keys
    back.  The paths sent with it are in the same order: each is the fingerprint of its key's
    origin as a number and then the path of the origin, the derivation steps and the index 0 of
    a wildcard.  (After derivation steps and a wildcard the index is sent a second
    time, so that for those keys the path sent is that of another key.) *)
Theorem multisig_request_standard (pubkeys : list PubkeyProvider) (thresh : Z) (paths : list (list Z)) (script : bytes) (Hl : len pubkeys <= 15)
    (Hr : multisig_request pubkeys thresh = Ok (paths, script)) :
  ∃ l : list (bytes * PubkeyProvider), map snd l ≡ₚ pubkeys ∧ StronglySorted key_le l ∧ Forall (λ x, get_pubkey_bytes 0 0 x.2 = Ok x.1) l ∧
    length paths = length l ∧
    (∀ i x, l !! i = Some x → paths !! i = Some (
       match pp_origin x.2 with Some o => le_int (fingerprint o) :: path o | None => [] end ++
       map (hd 0) (default [] (pp_deriv_path x.2)) ++ (if pp_ranged x.2 then [0] else []) ++
       (if pp_ranged x.2 && has_deriv_path x.2 then [0] else []))) ∧
    1 <= thresh <= len pubkeys ∧
    (Forall (λ x, len x.1 = 33) l → script = multisig_script thresh (map fst l) [] ∧ parse_multisig script = Ok (Some (thresh, map fst l))).
Proof.
  unfold multisig_request in Hr. apply bind_ok in Hr as (b & ->%byte_of_ok & Hr). apply bind_ok in Hr as (u & Ht & Hr).
  apply bind_ok in Hr as (pks & [Hs Hk]%keyed_pairs & Hr). apply bind_ok in Hr as (parts & [Hp Hc]%multisig_parts & Hr).
  apply bind_ok in Hr as (n & ->%byte_of_ok & [= <- Hscr]). rewrite Hp.
  assert (1 <= thresh <= len pubkeys) as Hth. { unfold raise_if in Ht. destruct (Z.leb_spec 1 thresh), (Z.leb_spec thresh (len pubkeys)); try discriminate. done. }
  set (l := sorted_pairs pks) in *. assert (l ≡ₚ pks) as Hperm by apply sort_by_perm.
  assert (map snd l ≡ₚ pubkeys) as Hsnd by (by rewrite <- Hs, Hperm).
  exists l. split_and!; try done; [apply sorted_pairs_ordered|by rewrite Hperm|by rewrite length_map| |lia|lia|].
  { intros i x Hx. change (map (λ x, sent_path x.2) l !! i) with (((λ x, sent_path x.2) <$> l) !! i). rewrite list_lookup_fmap, Hx. cbn. f_equal.
    unfold sent_path, own_path, repeated_index. rewrite <- !app_assoc. by destruct (pp_origin x.2). }
  intros H33.
  assert (len (map fst l) = len pubkeys) as Hlen by (unfold len; rewrite <- Hsnd, !length_map; done).
  assert (script = multisig_script thresh (map fst l) []) as ->.
  { rewrite <- Hscr. unfold multisig_script. rewrite Hlen, Hc, map_map. cbn [app]. do 2 f_equal. f_equal. apply map_ext_Forall.
    eapply Forall_impl; [exact H33|]. by intros [k p] ->. }
  split; [done|]. apply parse_multisig_exact. split; [lia|]. split; [lia|]. split; [by apply Forall_map|by exists []].
Qed.

(** C37: The Coldcard driver's methods that read keys, sign, show the address of a path or of a multisig
    or make a backup verify the link first: when that fails, nothing else is sent and the
    call fails; it only succeeds with a signature of the device's key over the session
    key.  Showing the address of a registered policy does the same, once it is known that the
    firmware is not Edge; on Edge firmware it does NOT: the request is sent and the address returned
    on a link that nobody has verified.  (Nor do the fingerprint, which is that of the unverified
    handshake, and registering a descriptor.) *)
Theorem coldcard_authenticates `{Hashes} `{SetOrder} {D K C : Type} (h : cc_hid D) (crypto : cc_crypto D K C) (rounds : nat) (chain : Chain) (save_file : bytes → state D ()) :
  (∀ path, authenticated h crypto rounds (cc_get_pubkey_at_path h crypto rounds chain path)) ∧
  (∀ psbt rds, authenticated h crypto rounds (cc_sign_tx h crypto rounds psbt rds)) ∧
  (∀ message keypath, authenticated h crypto rounds (cc_sign_message h crypto rounds message keypath)) ∧
  (∀ keypath t, authenticated h crypto rounds (cc_display_singlesig_address h crypto rounds keypath t)) ∧
  (∀ t pubkeys thresh, authenticated h crypto rounds (cc_display_multisig_address h crypto rounds t (MultisigDescriptor pubkeys thresh true))) ∧
  (∀ label passphrase, authenticated h crypto rounds (cc_backup_device h crypto rounds save_file label passphrase)) ∧
  (∀ s s', check_mitm h crypto rounds s = (Ok (), s') → ∃ xpub key sig, master_xpub (device s) = Some xpub ∧ session_key (device s) = Some key ∧
     xpub ≠ [] ∧ key ≠ [] ∧ len sig = 65 ∧ mitm_verify crypto sig xpub key = Ok true) ∧
  (∀ rd index branch s s1 e s2, is_edge h crypto rounds s = (Ok false, s1) → check_mitm h crypto rounds s1 = (Err e, s2) →
     ∃ e', cc_display_bip388_policy_address h crypto rounds rd index branch s = (Err e', s1) ∨
           cc_display_bip388_policy_address h crypto rounds rd index branch s = (Err e', s2)) ∧
  (∀ rd index branch s s1 payload, is_edge h crypto rounds s = (Ok true, s1) → branch = 0 ∨ branch = 1 →
     CCProtocolPacker.miniscript_address (rd_name rd) (negb (branch =? 0)) index = Ok payload →
     cc_display_bip388_policy_address h crypto rounds rd index branch s = shown h crypto rounds payload s1).
Proof.
  do 6 (split; [intros; apply authenticated_first|]). split_and!.
  - intros s s' E. unfold check_mitm, on_device, zoom in E.
    destruct (cc_check_mitm h crypto rounds (device s)) as [[[]|e] d] eqn:Ed; [|done]. by apply (mitm_signature h crypto rounds _ d).
  - intros rd index branch s s1 e s2 He Hm. unfold cc_display_bip388_policy_address. rewrite (state_bind_eval _ _ _ _ _ He). unfold liftS.
    destruct (derive index branch (rd_descriptor rd)) as [d|e']; [|exists e'; by left]. erewrite state_bind_eval by reflexivity.
    destruct (wsh_multisig d) as [ms|]; [|eexists; by left]. destruct ms as [| | |pubkeys thresh []| | |]; try (eexists; by left).
    pose proof (authenticated_first h crypto rounds (λ _, addr_fmt ← liftS (multisig_format WIT);
      if negb ((1 <=? len pubkeys) && (len pubkeys <=? 15)) then raise BadArgumentError
      else '(xfp_paths, redeem_script) ← liftS (multisig_request pubkeys thresh);
           payload ← liftS (CCProtocolPacker.show_p2sh_address thresh xfp_paths redeem_script addr_fmt);
           shown h crypto rounds payload) s1) as Ha. rewrite Hm in Ha. eexists. right. exact Ha.
  - intros rd index branch s s1 payload He Hb Hp. unfold cc_display_bip388_policy_address. rewrite (state_bind_eval _ _ _ _ _ He).
    replace (negb ((branch =? 0) || (branch =? 1))) with false by (by destruct Hb as [-> | ->]).
    unfold liftS. erewrite state_bind_eval by (by rewrite Hp). done.
Qed.

(** * Witnesses *)

Definition example_cc_key (b : Z) : PubkeyProvider := {|
  pp_origin := Some {| fingerprint := map chr [1; 2; 3; b]; path := [H_ 48; H_ 0] |}; pp_pubkey := hexlify (chr 2 :: replicate 32 (chr b));
  pp_deriv_path := None; pp_expr_index := 0; pp_ranged := false; pp_multipath_len := 1; pp_extkey := None |}.

Lemma multisig_request_standard_witness : ∃ paths script, multisig_request [example_cc_key 9; example_cc_key 5] 2 = Ok (paths, script) ∧
  ∃ l : list (bytes * PubkeyProvider), map snd l ≡ₚ [example_cc_key 9; example_cc_key 5] ∧
    ∀ i x, l !! i = Some x → ∃ tail, paths !! i = Some (tail ++ [H_ 48; H_ 0]).
Proof.
  destruct (multisig_request [example_cc_key 9; example_cc_key 5] 2) as [[paths script]|e] eqn:E; [|exfalso; vm_compute in E; discriminate].
  destruct (multisig_request_standard [example_cc_key 9; example_cc_key 5] 2 paths script) as (l & H1 & _ & _ & _ & H2 & _).
  - discriminate.
  - exact E.
  - exists paths, script. split; [reflexivity|]. exists l. split; [exact H1|]. intros i x Hx. specialize (H2 i x Hx).
    assert (x.2 = example_cc_key 9 ∨ x.2 = example_cc_key 5) as Hk.
    { apply list_elem_of_lookup_2 in Hx. apply (list_elem_of_fmap_2 snd) in Hx. change (snd <$> l) with (map snd l) in Hx. rewrite H1 in Hx.
      apply elem_of_cons in Hx as [Hx|Hx]; [by left|right]. by apply list_elem_of_singleton in Hx. }
    destruct Hk as [Hk|Hk]; rewrite Hk in H2; cbn in H2; by eexists [_].
Defined.

(** A device that knows the signed form of one PSBT: its file and what it signed. *)
Definition example_signer (msg : bytes) (e : bytes * bytes) : bytes * (bytes * bytes) :=
  let command := take 4 msg in
  if bool_decide (command = $"stxn") then ($"okay", (e.1, example_signing e.1))
  else if bool_decide (command = $"stok") then ($"strx" ++ le_bytes 4 (len e.2) ++ sha256 e.2, e)
  else if bool_decide (command = $"dwld") then ((example_serve msg e.2).1, e)
  else let '(reply, file) := example_serve msg e.1 in (reply, (file, e.2)).

Lemma example_signer_ok : signer example_signer fst snd example_signing.
Proof.
  split.
  - intros i n b msg e Hm Hi. destruct (example_stores i n b msg e.1 Hm Hi) as (e' & E1 & E2).
    unfold CCProtocolPacker.upload in Hm. apply bind_ok in Hm as (u & _ & (v & _ & [= <-])%bind_ok).
    unfold example_signer. rewrite E1. exists (e', e.2). split; [reflexivity|exact E2].
  - intros e. exists e. split; [by destruct e|done].
  - intros name msg e Hm. exists (e.1, example_signing e.1). split; [|done].
    unfold CCProtocolPacker.sign_transaction in Hm. apply bind_ok in Hm as (u & _ & (v & _ & Hm)%bind_ok).
    destruct name as [[|x name]|]; [by injection Hm as <-| |by injection Hm as <-].
    apply bind_ok in Hm as (nm & _ & (u' & _ & (b & _ & [= <-])%bind_ok)%bind_ok). reflexivity.
  - intros e. exists e. done.
  - intros pos n msg e Hm. destruct (example_reads 1 pos n msg e.2 Hm) as (e' & E1 & _). exists e. split; [|done].
    unfold CCProtocolPacker.download in Hm. apply bind_ok in Hm as (u & _ & (v & _ & [= <-])%bind_ok). unfold example_signer.
    rewrite E1. reflexivity.
Qed.

Definition example_cc_client : ColdcardClient (linked Z (bytes * bytes)) Z :=
  mkColdcardClient (mkColdcard (mkLinked [] [] (Some 7) (Some 9) ([], [])) false [] 1 (Some $"key") (Some 7) (Some 9) (Some $"xpub") (Some 0)) (Some false).

Lemma sign_once_refines_witness : ∃ s' p,
  _sign_tx_once (linked_hid (example_crypto (linked Z (bytes * bytes))) example_signer) (example_crypto (linked Z (bytes * bytes))) 17 example_psbt0 None
    example_cc_client = (Ok p, s') ∧ map in_tap_key_sig (psbt_inputs p) = [replicate 64 (chr 7)].
Proof.
  set (data := psbt_bytes example_psbt0).
  destruct (psbt_write example_psbt0) as [[d p']|e] eqn:Ew; [|exfalso; vm_compute in Ew; discriminate].
  assert (d = data) as -> by (unfold data, psbt_bytes; rewrite Ew; reflexivity).
  destruct (CCProtocolPacker.sign_transaction (len data) (sha256 data) false 0 None) as [msg|e] eqn:Em; [|exfalso; vm_compute in Em; discriminate].
  destruct (sign_once_refines (example_crypto (linked Z (bytes * bytes))) example_signer (example_law _) 17 ltac:(lia) fst snd example_signing example_signer_ok
    example_psbt0 p' data None example_cc_client msg) as (s' & E1 & _).
  - split; [repeat split; eexists; reflexivity|reflexivity].
  - exact Ew.
  - split; vm_compute; reflexivity.
  - split; vm_compute; [discriminate|reflexivity].
  - exact Em.
  - assert (∃ p, psbt_deserialize (b64encode (example_signing data)) PSBT_new = Ok p ∧ map in_tap_key_sig (psbt_inputs p) = [replicate 64 (chr 7)]) as (p & Hp & Hk)
      by (eexists; split; [vm_compute; reflexivity|reflexivity]).
    clear - E1 Hp Hk. clearbody data. rewrite Hp in E1. exists s', p. split; [exact E1|exact Hk].
Defined.
