(* ===== verification/JadeRpc.v ===== *)
(** * Calls to a Jade (devices/jadepy/jade.py, jade_error.py)

    [JadeInterface], which exchanges messages with the device, and the calls of
    [JadeAPI] that everything else is made of.  A message is a value of the CBOR
    format; the library that writes and reads it, the port, the random numbers
    and the clock, and the library for HTTP are the records [cbor_lib],
    [jade_port] and [requests_lib].

    The maps of messages have text for keys.  Logging is left out.

    Fuel: [rounds] bounds the loops that go on as long as the other side makes
    them: short writes, messages that are no reply, time-outs of a long call,
    chains of HTTP requests, and the draining of the port. *)

From S2P Require Import Prelude Bytes PyStd PyStr StateM PyJson.

#[local] Open Scope list_scope.

(** ** Messages *)

Inductive cval :=
  | CNull
  | CBool (b : bool)
  | CInt (n : Z)
  | CBytes (b : bytes)
  | CText (s : pystr)
  | CList (l : list cval)
  | CMap (d : list (pystr * cval)).

(** A number to Python: [True] and [False] are 1 and 0. *)
Definition num (v : cval) : option Z :=
  match v with CBool b => Some (if b then 1 else 0) | CInt n => Some n | _ => None end.

(** [==]; dictionaries are equal in any order. *)
Fixpoint ceq (a b : cval) : bool :=
  match num a, num b with
  | Some x, Some y => x =? y
  | None, None =>
      match a, b with
      | CNull, CNull => true
      | CBytes x, CBytes y => bool_decide (x = y)
      | CText x, CText y => bool_decide (x = y)
      | CList l, CList m =>
          (fix go (l m : list cval) : bool :=
             match l, m with
             | [], [] => true
             | x :: l, y :: m => ceq x y && go l m
             | _, _ => false
             end) l m
      | CMap d, CMap e =>
          (length d =? length e)%nat && forallb (λ kv, match dict_get kv.1 e with Some w => ceq kv.2 w | None => false end) d
      | _, _ => false
      end
  | _, _ => false
  end.

(** [bool(v)]. *)
Definition truthy (v : cval) : bool :=
  match v with
  | CNull => false
  | CBool b => b
  | CInt n => negb (n =? 0)
  | CBytes b => bool_decide (b ≠ [])
  | CText s => bool_decide (s ≠ [])
  | CList l => negb (length l =? 0)%nat
  | CMap d => negb (length d =? 0)%nat
  end.

(** [len(v)]. *)
Definition clen (v : cval) : result Z :=
  match v with
  | CBytes b => Ok (len b)
  | CText s => Ok (len s)
  | CList l => Ok (len l)
  | CMap d => Ok (len d)
  | _ => Err TypeError
  end.

(** [key in v] and [v[key]] of a dictionary. *)
Definition c_has (key : pystr) (v : cval) : bool := match v with CMap d => dict_in key d | _ => false end.
Definition c_item (key : pystr) (v : cval) : result cval :=
  match v with CMap d => of_option KeyError (dict_get key d) | _ => Err TypeError end.

(** [for item in v]. *)
Definition citer (v : cval) : result (list cval) :=
  match v with
  | CList l => Ok l
  | CText s => Ok (map (λ c, CText [c]) s)
  | CBytes b => Ok (map (λ c, CInt (ord c)) b)
  | CMap d => Ok (map (λ kv, CText kv.1) d)
  | _ => Err TypeError
  end.

(** The value [json.dumps] writes; it has no [bytes]. *)
Fixpoint json_of (v : cval) : result json :=
  match v with
  | CNull => Ok JNull
  | CBool b => Ok (JBool b)
  | CInt n => Ok (JInt n)
  | CBytes _ => Err TypeError
  | CText s => Ok (JStr s)
  | CList l => l ← (fix go (l : list cval) := match l with [] => Ok [] | x :: l => y ← json_of x; r ← go l; Ok (y :: r) end) l; Ok (JList l)
  | CMap d => d ← (fix go (d : list (pystr * cval)) := match d with [] => Ok [] | (k, x) :: d => y ← json_of x; r ← go d; Ok ((k, y) :: r) end) d; Ok (JDict d)
  end.

(** ** The codes of [JadeError] *)

Module JadeCode.
Definition INVALID_REQUEST : Z := -32600.
Definition UNKNOWN_METHOD : Z := -32601.
Definition BAD_PARAMETERS : Z := -32602.
Definition INTERNAL_ERROR : Z := -32603.
Definition USER_CANCELLED : Z := -32000.
Definition PROTOCOL_ERROR : Z := -32001.
Definition HW_LOCKED : Z := -32002.
Definition NETWORK_MISMATCH : Z := -32003.
End JadeCode.

(** ** What the calls need *)

Record jade_port (D : Type) := mkJadePort {
  port_connect : state D ();
  port_disconnect : state D ();
  port_read : nat → state D bytes;
  port_write : bytes → state D nat;
  randint : Z → Z → state D Z;
  time_now : state D Z;
  urandom : nat → state D bytes }.
Arguments mkJadePort {D}.
Arguments port_connect {D}.
Arguments port_disconnect {D}.
Arguments port_read {D}.
Arguments port_write {D}.
Arguments randint {D}.
Arguments time_now {D}.
Arguments urandom {D}.

(** [cbor.dumps], and [cbor.load] of an object with a method [read]. *)
Record cbor_lib (D : Type) := mkCbor {
  cbor_dumps : cval → result bytes;
  cbor_load : (nat → state D bytes) → state D cval }.
Arguments mkCbor {D}.
Arguments cbor_dumps {D}.
Arguments cbor_load {D}.

(** [requests.get] and [requests.post]: the status and [json()] of the response. *)
Record requests_lib (D : Type) := mkRequests {
  requests_get : pystr → state D (Z * result cval);
  requests_post : pystr → pystr → state D (Z * result cval) }.
Arguments mkRequests {D}.
Arguments requests_get {D}.
Arguments requests_post {D}.

(** The modules at work; without the module [requests] there is no default
    for HTTP requests. *)
Record jade_env (D : Type) := mkJadeEnv {
  env_port : jade_port D;
  env_cbor : cbor_lib D;
  env_requests : option (requests_lib D);
  env_rounds : nat }.
Arguments mkJadeEnv {D}.
Arguments env_port {D}.
Arguments env_cbor {D}.
Arguments env_requests {D}.
Arguments env_rounds {D}.

(** ** JadeInterface *)

Definition build_request (input_id : pystr) (method params : cval) : cval :=
  CMap ([($"method", method); ($"id", CText input_id)] ++ match params with CNull => [] | _ => [($"params", params)] end).

Section interface.
Context {D : Type} (env : jade_env D).
Notation M := (state D).
Notation port := (env_port env).
Notation rounds := (env_rounds env).

Definition connect : M () := port_connect port.

(** Byte by byte, until there is none. *)
Fixpoint drain_loop (fuel : nat) : M () :=
  match fuel with
  | O => raise OutOfFuel
  | S fuel =>
      byte_ ← port_read port 1;
      match byte_ with [] => mret () | _ => drain_loop fuel end
  end.
Definition drain : M () := drain_loop rounds.

Definition disconnect (drained : bool) : M () := (if drained then drain else mret ());; port_disconnect port.

(** A method that is looked into for ['ota_data'] must be something to look into. *)
Definition serialise_cbor_request (request : cval) : result bytes :=
  dump ← cbor_dumps (env_cbor env) request;
  if c_has $"method" request then
    method ← c_item $"method" request;
    match method with CText _ | CList _ | CMap _ => Ok dump | _ => Err TypeError end
  else Ok dump.

(** A port may take part of what it is given; [rounds] is for the times it
    takes nothing. *)
Fixpoint write_all (fuel : nat) (msg : bytes) : M () :=
  match msg, fuel with
  | [], _ => mret ()
  | _, O => raise OutOfFuel
  | _, S fuel => n ← port_write port msg; write_all fuel (drop n msg)
  end.

Definition write_request (request : cval) : M () :=
  msg ← liftS (serialise_cbor_request request);
  write_all (rounds + length msg) msg.

(** Messages of the log and unknown ones are passed over. *)
Fixpoint read_message (fuel : nat) : M cval :=
  match fuel with
  | O => raise OutOfFuel
  | S fuel =>
      message ← cbor_load (env_cbor env) (port_read port);
      if c_has $"id" message then mret message else read_message fuel
  end.
Definition read_cbor_message : M cval := read_message rounds.

(** [except EOFError]: a long call goes on waiting. *)
Fixpoint await (fuel : nat) : M cval :=
  match fuel with
  | O => raise OutOfFuel
  | S fuel => λ s,
      match read_cbor_message s with
      | (Err EOFError, s) => await fuel s
      | r => r
      end
  end.
Definition read_response (long_timeout : bool) : M cval := if long_timeout then await rounds else read_cbor_message.

Definition validate_reply (request reply : cval) : result () :=
  raise_if (negb (c_has $"id" reply)) AssertionError;;
  raise_if (eqb (c_has $"result" reply) (c_has $"error" reply)) AssertionError;;
  id ← c_item $"id" reply;
  id' ← c_item $"id" request;
  raise_if (negb (ceq id id' || ceq id (CText $"00") && c_has $"error" reply)) AssertionError.

Definition check_request (request : cval) : result () :=
  raise_if (negb (c_has $"id" request)) AssertionError;;
  id ← c_item $"id" request;
  n ← clen id;
  raise_if (negb (0 <? n)) AssertionError;;
  raise_if (negb (c_has $"method" request)) AssertionError;;
  method ← c_item $"method" request;
  m ← clen method;
  raise_if (negb (0 <? m)) AssertionError;;
  raise_if (negb ((n <? 16) && (m <? 32))) AssertionError.

Definition make_rpc_call (request : cval) (long_timeout : bool) : M cval :=
  liftS (check_request request);;
  write_request request;;
  reply ← read_response long_timeout;
  liftS (validate_reply request reply);;
  mret reply.

(** ** JadeAPI: results and remote calls *)

Definition _get_result_or_raise_error (reply : cval) : result cval :=
  if c_has $"error" reply then
    e ← c_item $"error" reply;
    match e with CMap d => Err (JadeError (dict_get $"code" d ≫= num)) | _ => Err AttributeError end
  else c_item $"result" reply.

Definition not_onion (url : cval) : result bool :=
  match url with
  | CText s => Ok (negb (bool_decide (slice_from_neg 6 s = $".onion")))
  | CBytes _ => Err TypeError
  | _ => Err AttributeError
  end.

(** [[url for url in params['urls'] if not url.endswith('.onion')][0]] *)
Definition first_url (params : cval) : result pystr :=
  urls ← c_item $"urls" params;
  l ← citer urls;
  marked ← mapR (λ u, b ← not_onion u; Ok (u, b : bool)) l;
  u ← nth_py (map fst (filter (λ x, x.2 = true) marked)) 0;
  match u with CText s => Ok s | _ => Err AttributeError end.

(** The call itself, in the [try] block: its status must be 200 and what it
    was to be is JSON; whatever goes wrong, there is no body. *)
Definition http_body (params : cval) (call : M (Z * result cval)) : M cval := λ s,
  match call s with
  | (Err OutOfFuel, s) => (Err OutOfFuel, s)
  | (Err _, s) => (Ok CNull, s)
  | (Ok (status, body), s) =>
      match (raise_if (negb (status =? 200)) ValueError;; accept ← c_item $"accept" params; raise_if (negb (ceq accept (CText $"json"))) AssertionError;; body) with
      | Ok v => (Ok v, s)
      | Err _ => (Ok CNull, s)
      end
  end.

Definition _http_request (requests : requests_lib D) (params : cval) : M cval :=
  url ← liftS (first_url params);
  method ← liftS (c_item $"method" params);
  f ← (if ceq method (CText $"GET") then
         liftS (raise_if (c_has $"data" params) AssertionError);;
         http_body params (requests_get requests url)
       else if ceq method (CText $"POST") then
         data ← liftS (v ← c_item $"data" params; json_of v);
         http_body params (requests_post requests url (json_dumps data))
       else raise (JadeError (Some 1)));
  mret (CMap [($"body", f)]).

(** A reply may ask for an HTTP request whose response is the parameter of another call. *)
Fixpoint jade_rpc (fuel : nat) (method params : cval) (inputid : option pystr) (http_request_fn : option (cval → M cval)) (long_timeout : bool) : M cval :=
  match fuel with
  | O => raise OutOfFuel
  | S fuel =>
      newid ← match inputid with
              | Some ((_ :: _) as i) => mret i
              | _ => n ← randint port 100000 999999; mret (str_int n)
              end;
      let request := build_request newid method params in
      reply ← make_rpc_call request long_timeout;
      result ← liftS (_get_result_or_raise_error reply);
      if c_has $"http_request" result then
        let default_fn := match env_requests env with Some lib => Some (_http_request lib) | None => None end in
        make_http_request ← liftS (of_option AssertionError (match http_request_fn with Some f => Some f | None => default_fn end));
        http_request ← liftS (c_item $"http_request" result);
        http_params ← liftS (c_item $"params" http_request);
        http_response ← make_http_request http_params;
        on_reply ← liftS (c_item $"on-reply" http_request);
        body ← liftS (c_item $"body" http_response);
        jade_rpc fuel on_reply body None (Some make_http_request) long_timeout
      else mret result
  end.

Definition _jadeRpc (method : pystr) (params : cval) (inputid : option pystr) : M cval := jade_rpc rounds (CText method) params inputid None false.
End interface.

(** ** A device at the other end

    The port may take what is written in parts of any size; the device decodes
    what it has as soon as it is a message, and answers with messages, of which
    the last is its reply.  [frames] is its decoder. *)

Record jade_link (E : Type) := mkJadeLink { jl_in : bytes; jl_out : bytes; jl_state : E }.
Arguments mkJadeLink {E}.
Arguments jl_in {E}.
Arguments jl_out {E}.
Arguments jl_state {E}.

Section link.
Context {E : Type} (dumps : cval → result bytes) (frames : bytes → option (cval * bytes)) (serve : cval → E → list cval * E).
Context (accepts : E → bytes → nat) (pick : E → Z → Z → Z) (clock : E → Z) (noise_source : E → nat → bytes).
Notation link := (jade_link E).

(** What crosses for a message. *)
Definition wire (v : cval) : bytes := match dumps v with Ok b => b | Err _ => [] end.

Definition link_read (n : nat) : state link bytes := λ l, (Ok (take n (jl_out l)), mkJadeLink (jl_in l) (drop n (jl_out l)) (jl_state l)).

Definition link_write (msg : bytes) : state link nat := λ l,
  let n := Nat.min (accepts (jl_state l) msg) (length msg) in
  let received := jl_in l ++ take n msg in
  match frames received with
  | Some (request, rest) =>
      let '(replies, e) := serve request (jl_state l) in
      (Ok n, mkJadeLink rest (jl_out l ++ concat (map wire replies)) e)
  | None => (Ok n, mkJadeLink received (jl_out l) (jl_state l))
  end.

Definition link_port : jade_port link := {|
  port_connect := mret ();
  port_disconnect := mret ();
  port_read := link_read;
  port_write := link_write;
  randint a b := λ l, (Ok (pick (jl_state l) a b), l);
  time_now := λ l, (Ok (clock (jl_state l)), l);
  urandom n := λ l, (Ok (noise_source (jl_state l) n), l) |}.

(** What is documented of the CBOR library: it writes every value, reads back
    what it has written, and a message is not a part of another. *)
Record cbor_laws (load : (nat → state link bytes) → state link cval) : Prop := mkCborLaws {
  dumps_total v : ∃ b, dumps v = Ok b ∧ b ≠ [];
  frames_whole v : frames (wire v) = Some (v, []);
  frames_part v p q : p ++ q = wire v → q ≠ [] → frames p = None;
  load_next v rest l : jl_out l = wire v ++ rest → load link_read l = (Ok v, mkJadeLink (jl_in l) rest (jl_state l)) }.

Context (load : (nat → state link bytes) → state link cval) (Hlaws : cbor_laws load) (Haccepts : ∀ e b, b ≠ [] → (0 < accepts e b)%nat).
Context (requests : option (requests_lib link)) (rounds : nat).

Definition link_env : jade_env link := mkJadeEnv link_port (mkCbor dumps load) requests rounds.

(** Nothing is under way. *)
Definition quiet (l : link) : Prop := jl_in l = [] ∧ jl_out l = [].

Lemma wire_dumps v : dumps v = Ok (wire v) ∧ wire v ≠ [].
Proof using Hlaws. destruct (dumps_total _ Hlaws v) as (b & E1 & Hb). unfold wire. by rewrite E1. Qed.

(** The methods that a request may have. *)
Definition sendable (request : cval) : Prop := ∃ d m, request = CMap d ∧ dict_get $"method" d = Some (CText m).

Lemma serialise_wire request : sendable request → serialise_cbor_request link_env request = Ok (wire request).
Proof using Hlaws.
  intros (d & m & -> & Hm). unfold serialise_cbor_request. cbn [link_env env_cbor cbor_dumps]. rewrite (proj1 (wire_dumps _)).
  cbn [mbind result_bind c_has c_item]. unfold dict_in. by rewrite Hm.
Qed.

(** A request is written whole and the device gets it once, however the port takes it. *)
Lemma write_all_linked request replies e' fuel p q out e : p ++ q = wire request → q ≠ [] → (length q <= fuel)%nat → serve request e = (replies, e') →
  write_all link_env fuel q (mkJadeLink p out e) = (Ok (), mkJadeLink [] (out ++ concat (map wire replies)) e').
Proof using Hlaws Haccepts.
  intros Hpq Hq Hf Hserve. revert p q Hpq Hq Hf. induction fuel as [|fuel IH]; intros p q Hpq Hq Hf; [destruct q; cbn in *; [done|lia]|].
  destruct q as [|b q0] eqn:Eq; [done|]. rewrite <- Eq in *. set (n := Nat.min (accepts e q) (length q)).
  assert (0 < n <= length q)%nat as Hn. { pose proof (Haccepts e q Hq). assert (0 < length q)%nat by (rewrite Eq; cbn; lia). unfold n. lia. }
  assert (write_all link_env (S fuel) q (mkJadeLink p out e) = (port_write link_port q ≫= λ n, write_all link_env fuel (drop n q)) (mkJadeLink p out e)) as ->
    by (by rewrite Eq).
  destruct (decide (drop n q = [])) as [Hd|Hd].
  - assert (link_write q (mkJadeLink p out e) = (Ok n, mkJadeLink [] (out ++ concat (map wire replies)) e')) as Hw.
    { unfold link_write. cbn [jl_in jl_out jl_state]. fold n. rewrite <- (take_drop n q), Hd, app_nil_r in Hpq. by rewrite Hpq, (frames_whole _ Hlaws), Hserve. }
    cbn [port_write link_port]. rewrite (state_bind_eval _ _ _ _ _ Hw), Hd. by destruct fuel.
  - assert (link_write q (mkJadeLink p out e) = (Ok n, mkJadeLink (p ++ take n q) out e)) as Hw.
    { unfold link_write. cbn [jl_in jl_out jl_state]. fold n. by rewrite (frames_part _ Hlaws request _ (drop n q)) by (by rewrite <- ?app_assoc, ?take_drop). }
    cbn [port_write link_port]. rewrite (state_bind_eval _ _ _ _ _ Hw). apply IH; [by rewrite <- app_assoc, take_drop|done|rewrite length_drop; lia].
Qed.

Lemma write_request_linked request replies e' l : sendable request → quiet l → serve request (jl_state l) = (replies, e') →
  write_request link_env request l = (Ok (), mkJadeLink [] (concat (map wire replies)) e').
Proof using Hlaws Haccepts.
  intros Hs [Hi Ho] Hserve. unfold write_request. rewrite serialise_wire by done. destruct l as [i o e]. cbn in *. subst i o.
  apply (write_all_linked request replies e' _ [] (wire request) [] e); [done|apply wire_dumps|lia|done].
Qed.

(** Messages without an identifier are passed over. *)
Definition is_noise (m : cval) : Prop := c_has $"id" m = false.

Lemma read_message_linked noise reply fuel out e : Forall is_noise noise → c_has $"id" reply = true → (length noise < fuel)%nat →
  read_message link_env fuel (mkJadeLink [] (concat (map wire (noise ++ [reply])) ++ out) e) = (Ok reply, mkJadeLink [] out e).
Proof using Hlaws.
  intros Hn Hr. revert fuel. induction Hn as [|m noise Hm Hn IH]; intros [|fuel] Hf; cbn [length] in Hf; try lia; cbn [read_message link_env env_cbor cbor_load env_port link_port port_read].
  - rewrite (state_bind_eval _ _ _ _ _ (load_next _ Hlaws reply out (mkJadeLink [] (concat (map wire ([] ++ [reply])) ++ out) e) ltac:(cbn; by rewrite app_nil_r))). by rewrite Hr.
  - rewrite (state_bind_eval _ _ _ _ _ (load_next _ Hlaws m (concat (map wire (noise ++ [reply])) ++ out)
      (mkJadeLink [] (concat (map wire ((m :: noise) ++ [reply])) ++ out) e) ltac:(cbn; by rewrite app_assoc))).
    unfold is_noise in Hm. rewrite Hm. apply IH. lia.
Qed.

Lemma read_response_linked noise reply long e : Forall is_noise noise → c_has $"id" reply = true → (length noise < rounds)%nat →
  read_response link_env long (mkJadeLink [] (concat (map wire (noise ++ [reply]))) e) = (Ok reply, mkJadeLink [] [] e).
Proof using Hlaws.
  intros Hn Hr Hf. pose proof (read_message_linked noise reply rounds [] e Hn Hr Hf) as E1. rewrite app_nil_r in E1.
  unfold read_response, read_cbor_message. cbn [env_rounds link_env]. destruct long; [|done]. destruct rounds as [|k] eqn:Ek; [lia|].
  cbn [await]. unfold read_cbor_message. cbn [env_rounds link_env]. rewrite Ek in *. by rewrite E1.
Qed.

Lemma jade_call_linked request noise reply e long l : sendable request → check_request request = Ok () → quiet l → serve request (jl_state l) = (noise ++ [reply], e) →
  Forall is_noise noise → c_has $"id" reply = true → (length noise < rounds)%nat →
  make_rpc_call link_env request long l = (validate_reply request reply;; Ok reply, mkJadeLink [] [] e).
Proof using Hlaws Haccepts.
  intros Hs Hc Hq Hserve Hn Hr Hf. unfold make_rpc_call. rewrite Hc.
  rewrite (state_bind_eval (liftS (Ok ())) _ _ _ _ eq_refl), (state_bind_eval _ _ _ _ _ (write_request_linked _ _ _ _ Hs Hq Hserve)).
  rewrite (state_bind_eval _ _ _ _ _ (read_response_linked _ _ long e Hn Hr Hf)). by destruct (validate_reply request reply) as [[]|].
Qed.

(** ** Calls by method and parameters *)

(** The reply to a request: a result, or an error with a code. *)
Definition reply_to (id : pystr) (r : cval + Z) : cval :=
  CMap (($"id", CText id) :: match r with
    | inl v => [($"result", v)]
    | inr code => [($"error", CMap [($"code", CInt code); ($"message", CText [])])]
    end).
Definition outcome (r : cval + Z) : result cval := match r with inl v => Ok v | inr code => Err (JadeError (Some code)) end.

(** The device answers each call, whatever its identifier, after messages of the log perhaps. *)
Definition answers (id : pystr) (method : pystr) (params : cval) (e : E) (r : cval + Z) (e' : E) : Prop :=
  ∃ noise, serve (build_request id (CText method) params) e = (noise ++ [reply_to id r], e') ∧ Forall is_noise noise ∧ (length noise < rounds)%nat.

Lemma reply_valid id method params r : validate_reply (build_request id method params) (reply_to id r) = Ok ().
Proof.
  assert (ceq (CText id) (CText id) = true) as He by (by apply bool_decide_eq_true_2). unfold validate_reply.
  assert (c_item $"id" (reply_to id r) = Ok (CText id)) as -> by (by destruct r).
  assert (c_item $"id" (build_request id method params) = Ok (CText id)) as -> by done.
  cbn [mbind result_bind]. rewrite He. by destruct r.
Qed.

Lemma reply_outcome id r : _get_result_or_raise_error (reply_to id r) = outcome r.
Proof. by destruct r. Qed.

Lemma reply_id id r : c_has $"id" (reply_to id r) = true.
Proof. done. Qed.

Lemma build_sendable id method params : sendable (build_request id (CText method) params).
Proof. unfold build_request. eexists _, method. split; [done|]. done. Qed.

Lemma build_checked id method params : 0 < len id < 16 → 0 < len method < 32 → check_request (build_request id (CText method) params) = Ok ().
Proof.
  intros Hi Hm. unfold check_request.
  assert (c_item $"id" (build_request id (CText method) params) = Ok (CText id)) as -> by done.
  assert (c_item $"method" (build_request id (CText method) params) = Ok (CText method)) as -> by done.
  assert (c_has $"id" (build_request id (CText method) params) = true) as -> by done.
  assert (c_has $"method" (build_request id (CText method) params) = true) as -> by done.
  unfold raise_if. cbn [mbind result_bind clen negb].
  rewrite (proj2 (Z.ltb_lt 0 (len id))), (proj2 (Z.ltb_lt 0 (len method))), (proj2 (Z.ltb_lt (len id) 16)), (proj2 (Z.ltb_lt (len method) 32)) by lia. done.
Qed.

(** A call with an identifier is one answer of the device, unless that asks for an HTTP request. *)
Lemma rpc_linked id method params r e l : 0 < len id < 16 → 0 < len method < 32 → quiet l → answers id method params (jl_state l) r e →
  (∀ v, r = inl v → c_has $"http_request" v = false) →
  _jadeRpc link_env method params (Some id) l = (outcome r, mkJadeLink [] [] e).
Proof using Hlaws Haccepts.
  intros Hi Hm Hq (noise & Hserve & Hn & Hf) Hh. unfold _jadeRpc. cbn [env_rounds link_env]. destruct rounds as [|k] eqn:Ek; [lia|]. cbn [jade_rpc]. rewrite <- Ek in *.
  destruct id as [|c id]; [unfold len in Hi; cbn in Hi; lia|]. rewrite (state_bind_eval (mret (c :: id)) _ l _ l eq_refl).
  pose proof (jade_call_linked _ _ _ _ false l (build_sendable (c :: id) method params) (build_checked _ _ _ Hi Hm) Hq Hserve Hn (reply_id _ _) Hf) as E1.
  rewrite reply_valid in E1. rewrite (state_bind_eval _ _ _ _ _ E1). rewrite reply_outcome. destruct r as [v|code]; [|done].
  cbn [outcome]. rewrite (state_bind_eval (liftS (Ok v)) _ _ _ _ eq_refl). by rewrite (Hh v eq_refl).
Qed.
End link.

(** * Properties *)

(** Over a device that decodes messages as they arrive, a remote call to a Jade is one answer of the
    device: whatever parts the port takes of what is written, the device gets the request once and
    whole; messages of its log are passed over, and the reply is returned if it is one to
    this request. *)
Theorem jade_call_refines {E} (dumps : cval → result bytes) (frames : bytes → option (cval * bytes)) (serve : cval → E → list cval * E)
    (accepts : E → bytes → nat) (pick : E → Z → Z → Z) (clock : E → Z) (noise_source : E → nat → bytes)
    (load : (nat → state (jade_link E) bytes) → state (jade_link E) cval) (Hlaws : cbor_laws dumps frames load)
    (Haccepts : ∀ e b, b ≠ [] → (0 < accepts e b)%nat) (requests : option (requests_lib (jade_link E))) (rounds : nat)
    (id method : pystr) (params reply : cval) (noise : list cval) (e : E) (long : bool) (l : jade_link E)
    (Hi : 0 < len id < 16) (Hm : 0 < len method < 32) (Hq : quiet l)
    (Hserve : serve (build_request id (CText method) params) (jl_state l) = (noise ++ [reply], e))
    (Hn : Forall is_noise noise) (Hr : c_has $"id" reply = true) (Hf : (length noise < rounds)%nat) :
  make_rpc_call (link_env dumps frames serve accepts pick clock noise_source load requests rounds) (build_request id (CText method) params) long l =
    (validate_reply (build_request id (CText method) params) reply;; Ok reply, mkJadeLink [] [] e).
Proof. eapply jade_call_linked; eauto using build_sendable, build_checked. Qed.

(** * An encoding *)

(** An encoding with the laws: the bits of the tree of a value, and an end mark. *)
Section cval_ind.
Context (P : cval → Prop) (HN : P CNull) (HB : ∀ b, P (CBool b)) (HI : ∀ n, P (CInt n)) (HY : ∀ b, P (CBytes b)) (HT : ∀ s, P (CText s))
  (HL : ∀ l, Forall P l → P (CList l)) (HM : ∀ d, Forall (λ kv, P kv.2) d → P (CMap d)).

Fixpoint cval_induction (v : cval) : P v :=
  match v with
  | CNull => HN
  | CBool b => HB b
  | CInt n => HI n
  | CBytes b => HY b
  | CText s => HT s
  | CList l => HL l ((fix go l : Forall P l := match l with [] => Forall_nil_2 _ | x :: l => Forall_cons_2 _ _ _ (cval_induction x) (go l) end) l)
  | CMap d => HM d ((fix go (d : list (pystr * cval)) : Forall (λ kv, P kv.2) d :=
      match d with [] => Forall_nil_2 _ | kv :: d => Forall_cons_2 _ kv _ (let (_, w) as kv return P kv.2 := kv in cval_induction w) (go d) end) d)
  end.
End cval_ind.

Abbreviation tree := (gen_tree (Z + list Z)).

Fixpoint to_tree (v : cval) : tree :=
  match v with
  | CNull => GenNode 0 []
  | CBool b => GenNode 1 [GenLeaf (inl (if b then 1 else 0))]
  | CInt n => GenNode 2 [GenLeaf (inl n)]
  | CBytes b => GenNode 3 [GenLeaf (inr (map ord b))]
  | CText s => GenNode 4 [GenLeaf (inr (map ord s))]
  | CList l => GenNode 5 (map to_tree l)
  | CMap d => GenNode 6 (map (λ kv, GenNode 7 [GenLeaf (inr (map ord kv.1)); to_tree kv.2]) d)
  end.

Fixpoint of_tree (t : tree) : cval :=
  match t with
  | GenNode 1 [GenLeaf (inl n)] => CBool (negb (n =? 0))
  | GenNode 2 [GenLeaf (inl n)] => CInt n
  | GenNode 3 [GenLeaf (inr b)] => CBytes (map chr b)
  | GenNode 4 [GenLeaf (inr s)] => CText (map chr s)
  | GenNode 5 l => CList (map of_tree l)
  | GenNode 6 l => CMap (map (λ t, match t with GenNode _ [GenLeaf (inr k); v] => (map chr k, of_tree v) | _ => ([], CNull) end) l)
  | _ => CNull
  end.

Lemma map_chr_ord (b : bytes) : map chr (map ord b) = b.
Proof. rewrite map_map. rewrite <- (map_id b) at 2. apply map_ext. intros x. apply chr_ord. Qed.

Lemma of_to_tree v : of_tree (to_tree v) = v.
Proof.
  induction v as [|b|n|b|s|l IH|d IH] using cval_induction; cbn; try done; [by destruct b|by rewrite map_chr_ord..| |].
  - f_equal. rewrite map_map. induction IH as [|x l Hx _ IHl]; [done|]. cbn. by f_equal.
  - f_equal. rewrite map_map. induction IH as [|[k v] d Hv _ IHd]; [done|]. cbn. cbn in Hv. by rewrite map_chr_ord, Hv, IHd.
Qed.

Fixpoint bits (p : positive) : bytes := match p with xH => [] | xO p => chr 0 :: bits p | xI p => chr 1 :: bits p end.
Fixpoint unbits (b : bytes) : positive := match b with [] => xH | c :: b => if ord c =? 0 then xO (unbits b) else xI (unbits b) end.

Definition end_mark : byte := chr 2.

Lemma unbits_bits p : unbits (bits p) = p.
Proof. induction p as [p IH|p IH|]; cbn; [by rewrite IH..|done]. Qed.

Lemma bits_no_end p : end_mark ∉ bits p.
Proof. induction p as [p IH|p IH|]; cbn; [..|set_solver]; (intros [E|E]%elem_of_cons; [by apply (f_equal ord) in E|done]). Qed.

Definition example_dumps (v : cval) : result bytes := Ok (bits (encode (to_tree v)) ++ [end_mark]).
Definition example_frames (b : bytes) : option (cval * bytes) :=
  match find_char end_mark b with
  | Some n => match decode (unbits (take n b)) with Some t => Some (of_tree t, drop (S n) b) | None => None end
  | None => None
  end.
Definition example_load {E} (read : nat → state (jade_link E) bytes) : state (jade_link E) cval := λ l,
  match example_frames (jl_out l) with
  | Some (v, rest) => (Ok v, mkJadeLink (jl_in l) rest (jl_state l))
  | None => (Err EOFError, l)
  end.

Lemma example_frames_next v rest : example_frames (wire example_dumps v ++ rest) = Some (v, rest).
Proof.
  unfold wire, example_dumps, example_frames. set (b := bits _). rewrite <- app_assoc. cbn [app].
  rewrite (find_char_app end_mark b rest) by apply bits_no_end. rewrite take_app_length. unfold b. rewrite unbits_bits, decode_encode. f_equal. f_equal; [apply of_to_tree|].
  rewrite (drop_app_ge _ _ (S _)) by lia. by replace (S (length (bits (encode (to_tree v)))) - length (bits (encode (to_tree v))))%nat with 1%nat by lia.
Qed.

Lemma example_cbor_laws E : cbor_laws (E := E) example_dumps example_frames example_load.
Proof.
  split.
  - intros v. eexists. split; [done|]. by destruct (bits _).
  - intros v. pose proof (example_frames_next v []) as H. by rewrite app_nil_r in H.
  - intros v p q Hpq Hq. unfold example_frames. replace (find_char end_mark p) with (None : option nat); [done|]. symmetry. apply find_char_None.
    unfold wire, example_dumps in Hpq. destruct (exists_last Hq) as (q' & x & ->). rewrite app_assoc in Hpq. apply app_inj_tail in Hpq as [Hpq _].
    pose proof (bits_no_end (encode (to_tree v))) as Hb. rewrite <- Hpq in Hb. set_solver.
  - intros v rest l Hl. unfold example_load. by rewrite Hl, example_frames_next.
Qed.

(** A device that keeps the requests it gets and answers 0, after a message of its log. *)
Definition id_of (request : cval) : pystr := match c_item $"id" request with Ok (CText id) => id | _ => [] end.
Definition log_message : cval := CMap [($"log", CBytes $"I (0) main: idle")].
Definition example_pong (request : cval) (e : list cval) : list cval * list cval := ([log_message; reply_to (id_of request) (inl (CInt 0))], e ++ [request]).

(** A port that takes up to 7 bytes at a time. *)
Definition example_accepts {E} (_ : E) (_ : bytes) : nat := 7.

Definition example_env {E} (serve : cval → E → list cval * E) : jade_env (jade_link E) :=
  link_env example_dumps example_frames serve example_accepts (λ _ a _, a) (λ _, 1700000000) (λ _ n, replicate n (chr 5)) example_load None 100.

Lemma jade_call_refines_witness : let request := build_request $"100000" (CText $"ping") CNull in
  make_rpc_call (example_env example_pong) request false (mkJadeLink [] [] []) = (Ok (reply_to $"100000" (inl (CInt 0))), mkJadeLink [] [] [request]).
Proof.
  cbv zeta. unfold example_env. erewrite (jade_call_refines example_dumps example_frames example_pong example_accepts _ _ _ example_load (example_cbor_laws _)
    ltac:(intros; unfold example_accepts; lia) None 100 $"100000" $"ping" CNull (reply_to $"100000" (inl (CInt 0))) [log_message]
    [build_request $"100000" (CText $"ping") CNull] false (mkJadeLink [] [] [])); [done|done|done|done|done|by repeat constructor|done|cbn; lia].
Defined.
