(* ===== verification/JadeApi.v ===== *)
(** * The calls of a Jade (devices/jadepy/jade.py, [JadeAPI])

    A definition per method, with the message it sends; the signing of
    transactions, which is several calls.  The dump of coverage data over a
    debugger's socket is left out.

    Fuel: [env_rounds] again, for the chunks of a signed PSBT, of which the
    device makes as many as it likes; uploading takes a round for each byte. *)

From S2P Require Import Prelude Bytes PyStd PyStr StateM Common Sha256 JadeRpc.

#[local] Open Scope list_scope.

Definition copt {A} (f : A → cval) (o : option A) : cval := match o with Some a => f a | None => CNull end.
Definition c_path (path : list Z) : cval := CList (map CInt path).

Section api.
Context `{Hashes} {D : Type} (env : jade_env D).
Notation M := (state D).
Notation rpc method params := (_jadeRpc env method params None).

(** A call without a time-out. *)
Definition rpc_long (method : pystr) (params : cval) : M cval := jade_rpc env (env_rounds env) (CText method) params None None true.

Definition ping : M cval := rpc $"ping" CNull.
Definition get_version_info (nonblocking : bool) : M cval :=
  rpc $"get_version_info" (if nonblocking then CMap [($"nonblocking", CBool true)] else CNull).
Definition add_entropy (entropy : bytes) : M cval := rpc $"add_entropy" (CMap [($"entropy", CBytes entropy)]).

(** An epoch, or now. *)
Definition epoch_or_now (epoch : option Z) : M Z := match epoch with Some e => mret e | None => time_now (env_port env) end.

Definition set_epoch (epoch : option Z) : M cval := e ← epoch_or_now epoch; rpc $"set_epoch" (CMap [($"epoch", CInt e)]).
Definition logout : M cval := rpc $"logout" CNull.

(** [result is True] *)
Definition is_true (v : cval) : bool := match v with CBool true => true | _ => false end.
Definition is_dict (v : cval) : bool := match v with CMap _ => true | _ => false end.

(** The size of a chunk is positive. *)
Fixpoint ota_chunks (fuel : nat) (fwcmp : bytes) (chunksize : Z) (extended_replies : bool) (cb : option (Z → Z → cval → M ())) (written : Z) : M () :=
  if written <? len fwcmp then
    match fuel with
    | O => raise OutOfFuel
    | S fuel =>
        let length := Z.min (len fwcmp - written) chunksize in
        let chunk := slice (Z.to_nat written) (Z.to_nat (written + length)) fwcmp in
        result ← rpc $"ota_data" (CBytes chunk);
        let written := written + length in
        assert_ (is_true result || extended_replies && is_dict result);;
        (match cb with Some f => f written (len fwcmp) (if is_dict result then result else CNull) | None => mret () end);;
        ota_chunks fuel fwcmp chunksize extended_replies cb written
    end
  else mret ().

Definition ota_update (fwcmp : bytes) (fwlen chunksize : Z) (fwhash : option bytes) (patchlen : option Z) (cb : option (Z → Z → cval → M ()))
    (extended_replies : bool) : M cval :=
  let params := [($"fwsize", CInt fwlen); ($"cmpsize", CInt (len fwcmp)); ($"cmphash", CBytes (sha256 fwcmp)); ($"extended_replies", CBool extended_replies)] ++
    match fwhash with Some h => [($"fwhash", CBytes h)] | None => [] end ++
    match patchlen with Some n => [($"patchsize", CInt n)] | None => [] end in
  result ← rpc (if patchlen then $"ota_delta" else $"ota") (CMap params);
  assert_ (is_true result);;
  ota_chunks (length fwcmp) fwcmp chunksize extended_replies cb 0;;
  rpc $"ota_complete" CNull.

Definition run_remote_selfcheck : M cval := rpc_long $"debug_selfcheck" CNull.
Definition capture_image_data (check_qr : bool) : M cval := rpc $"debug_capture_image_data" (CMap [($"check_qr", CBool check_qr)]).
Definition scan_qr (image : bytes) : M cval := rpc $"debug_scan_qr" (CMap [($"image", CBytes image)]).
Definition clean_reset : M cval := rpc $"debug_clean_reset" CNull.
Definition set_mnemonic (mnemonic : pystr) (passphrase : option pystr) (temporary_wallet : bool) : M cval :=
  rpc $"debug_set_mnemonic" (CMap [($"mnemonic", CText mnemonic); ($"passphrase", copt CText passphrase); ($"temporary_wallet", CBool temporary_wallet)]).
Definition set_seed (seed : bytes) : M cval := rpc $"debug_set_mnemonic" (CMap [($"seed", CBytes seed)]).
Definition get_bip85_bip39_entropy (num_words index : Z) (pubkey : bytes) : M cval :=
  rpc $"get_bip85_bip39_entropy" (CMap [($"num_words", CInt num_words); ($"index", CInt index); ($"pubkey", CBytes pubkey)]).
Definition get_bip85_rsa_entropy (key_bits index : Z) (pubkey : bytes) : M cval :=
  rpc $"get_bip85_rsa_entropy" (CMap [($"key_bits", CInt key_bits); ($"index", CInt index); ($"pubkey", CBytes pubkey)]).

Definition set_pinserver (urlA urlB : option pystr) (pubkey : option bytes) (cert : option pystr) : M cval :=
  rpc $"update_pinserver" (CMap (
    match urlA, urlB with None, None => [] | _, _ => [($"urlA", copt CText urlA); ($"urlB", copt CText urlB)] end ++
    match pubkey with Some k => [($"pubkey", CBytes k)] | None => [] end ++
    match cert with Some c => [($"certificate", CText c)] | None => [] end)).
Definition reset_pinserver (reset_details reset_certificate : bool) : M cval :=
  rpc $"update_pinserver" (CMap [($"reset_details", CBool reset_details); ($"reset_certificate", CBool reset_certificate)]).

Definition auth_user (network : pystr) (http_request_fn : option (cval → M cval)) (epoch : option Z) : M cval :=
  e ← epoch_or_now epoch;
  jade_rpc env (env_rounds env) (CText $"auth_user") (CMap [($"network", CText network); ($"epoch", CInt e)]) None http_request_fn true.

Definition register_otp (otp_name otp_uri : pystr) : M cval := rpc $"register_otp" (CMap [($"name", CText otp_name); ($"uri", CText otp_uri)]).
Definition get_otp_code (otp_name : pystr) (value_override : option Z) : M cval :=
  rpc $"get_otp_code" (CMap ([($"name", CText otp_name)] ++ match value_override with Some v => [($"override", CInt v)] | None => [] end)).
Definition get_xpub (network : pystr) (path : list Z) : M cval := rpc $"get_xpub" (CMap [($"network", CText network); ($"path", c_path path)]).

(** ** Registered wallets *)

Definition get_registered_multisigs : M cval := rpc $"get_registered_multisigs" CNull.
Definition get_registered_multisig (multisig_name : pystr) (as_file : bool) : M cval :=
  rpc $"get_registered_multisig" (CMap [($"multisig_name", CText multisig_name); ($"as_file", CBool as_file)]).
Definition register_multisig (network multisig_name variant : pystr) (sorted_keys : bool) (threshold : Z) (signers : list cval) (master_blinding_key : option bytes) : M cval :=
  rpc $"register_multisig" (CMap [($"network", CText network); ($"multisig_name", CText multisig_name);
    ($"descriptor", CMap [($"variant", CText variant); ($"sorted", CBool sorted_keys); ($"threshold", CInt threshold); ($"signers", CList signers);
      ($"master_blinding_key", copt CBytes master_blinding_key)])]).
Definition register_multisig_file (multisig_file : pystr) : M cval := rpc $"register_multisig" (CMap [($"multisig_file", CText multisig_file)]).
Definition get_registered_descriptors : M cval := rpc $"get_registered_descriptors" CNull.
Definition get_registered_descriptor (descriptor_name : pystr) : M cval :=
  rpc $"get_registered_descriptor" (CMap [($"descriptor_name", CText descriptor_name)]).
Definition register_descriptor (network descriptor_name descriptor_script : pystr) (datavalues : cval) : M cval :=
  rpc $"register_descriptor" (CMap [($"network", CText network); ($"descriptor_name", CText descriptor_name); ($"descriptor", CText descriptor_script); ($"datavalues", datavalues)]).

(** The keys that go with the positional arguments, and the arguments. *)
Definition receive_params (args : list cval) (recovery_xpub : option pystr) (csv_blocks : Z) (variant multisig_name descriptor_name : option pystr) :
    result (list pystr * list cval) :=
  match multisig_name, descriptor_name, variant with
  | Some name, _, _ => raise_if (negb (length args =? 2)%nat) AssertionError;; Ok ([$"network"; $"paths"; $"multisig_name"], args ++ [CText name])
  | None, Some name, _ => raise_if (negb (length args =? 3)%nat) AssertionError;; Ok ([$"network"; $"branch"; $"pointer"; $"descriptor_name"], args ++ [CText name])
  | None, None, Some v => raise_if (negb (length args =? 2)%nat) AssertionError;; Ok ([$"network"; $"path"; $"variant"], args ++ [CText v])
  | None, None, None =>
      raise_if (negb (length args =? 4)%nat) AssertionError;;
      Ok ([$"network"; $"subaccount"; $"branch"; $"pointer"; $"recovery_xpub"; $"csv_blocks"], args ++ [copt CText recovery_xpub; CInt csv_blocks])
  end.

Definition get_receive_address (args : list cval) (recovery_xpub : option pystr) (csv_blocks : Z) (variant multisig_name descriptor_name : option pystr)
    (confidential : option bool) : M cval :=
  '(keys, args) ← liftS (receive_params args recovery_xpub csv_blocks variant multisig_name descriptor_name);
  rpc $"get_receive_address" (CMap (zip keys args ++ match confidential with Some c => [($"confidential", CBool c)] | None => [] end)).

(** ** Messages and other keys *)

Definition sign_message_ae (path : list Z) (message : pystr) (ae_host_commitment ae_host_entropy : option bytes) : M (cval * cval) :=
  signer_commitment ← rpc $"sign_message" (CMap [($"path", c_path path); ($"message", CText message); ($"ae_host_commitment", copt CBytes ae_host_commitment)]);
  signature ← rpc $"get_signature" (CMap [($"ae_host_entropy", copt CBytes ae_host_entropy)]);
  mret (signer_commitment, signature).
Definition sign_message (path : list Z) (message : pystr) : M cval := rpc $"sign_message" (CMap [($"path", c_path path); ($"message", CText message)]).
Definition sign_message_file (message_file : pystr) : M cval := rpc $"sign_message" (CMap [($"message_file", CText message_file)]).

Definition get_bip85_pubkey (key_type : pystr) (key_bits index : Z) : M cval :=
  rpc $"get_bip85_pubkey" (CMap [($"key_type", CText key_type); ($"key_bits", CInt key_bits); ($"index", CInt index)]).
Definition sign_bip85_digests (key_type : pystr) (key_bits index : Z) (digests : list bytes) : M cval :=
  rpc $"sign_bip85_digests" (CMap [($"key_type", CText key_type); ($"key_bits", CInt key_bits); ($"index", CInt index); ($"digests", CList (map CBytes digests))]).
Definition get_identity_pubkey (identity curve key_type : pystr) (index : Z) : M cval :=
  rpc $"get_identity_pubkey" (CMap [($"identity", CText identity); ($"curve", CText curve); ($"type", CText key_type); ($"index", CInt index)]).
Definition get_identity_shared_key (identity curve : pystr) (their_pubkey : bytes) (index : Z) : M cval :=
  rpc $"get_identity_shared_key" (CMap [($"identity", CText identity); ($"curve", CText curve); ($"index", CInt index); ($"their_pubkey", CBytes their_pubkey)]).
Definition sign_identity (identity curve : pystr) (challenge : bytes) (index : Z) : M cval :=
  rpc $"sign_identity" (CMap [($"identity", CText identity); ($"curve", CText curve); ($"index", CInt index); ($"challenge", CBytes challenge)]).
Definition sign_attestation (challenge : bytes) : M cval := rpc $"sign_attestation" (CMap [($"challenge", CBytes challenge)]).
Definition get_master_blinding_key (only_if_silent : bool) : M cval := rpc $"get_master_blinding_key" (CMap [($"only_if_silent", CBool only_if_silent)]).
Definition get_blinding_key (script : bytes) (multisig_name : option pystr) : M cval :=
  rpc $"get_blinding_key" (CMap [($"script", CBytes script); ($"multisig_name", copt CText multisig_name)]).
Definition get_shared_nonce (script their_pubkey : bytes) (include_pubkey : bool) (multisig_name : option pystr) : M cval :=
  rpc $"get_shared_nonce" (CMap [($"script", CBytes script); ($"their_pubkey", CBytes their_pubkey); ($"include_pubkey", CBool include_pubkey);
    ($"multisig_name", copt CText multisig_name)]).
Definition get_blinding_factor (hash_prevouts : bytes) (output_index : Z) (bftype : pystr) (multisig_name : option pystr) : M cval :=
  rpc $"get_blinding_factor" (CMap [($"hash_prevouts", CBytes hash_prevouts); ($"output_index", CInt output_index); ($"type", CText bftype);
    ($"multisig_name", copt CText multisig_name)]).
Definition get_commitments (asset_id : bytes) (value : Z) (hash_prevouts : bytes) (output_index : Z) (vbf : option bytes) (multisig_name : option pystr) : M cval :=
  rpc $"get_commitments" (CMap [($"asset_id", CBytes asset_id); ($"value", CInt value); ($"hash_prevouts", CBytes hash_prevouts); ($"output_index", CInt output_index);
    ($"vbf", copt CBytes vbf); ($"multisig_name", copt CText multisig_name)]).

(** ** Signing transactions *)

(** [d.pop(key, None)]: what is left, and the value. *)
Definition dict_pop (key : pystr) (d : list (pystr * cval)) : list (pystr * cval) * cval :=
  (filter (λ kv, kv.1 ≠ key) d, default CNull (dict_get key d)).

(** The inputs with the commitments of the host; its entropy is kept back. *)
Fixpoint send_inputs_ae (base_id : Z) (inputs : list (list (pystr * cval))) : M (list (cval * cval)) :=
  match inputs with
  | [] => mret []
  | txinput :: inputs =>
      let '(txinput, host_ae_entropy) := dict_pop $"ae_host_entropy" txinput in
      let base_id := base_id + 1 in
      reply ← _jadeRpc env $"tx_input" (CMap txinput) (Some (str_int base_id));
      l ← send_inputs_ae base_id inputs;
      mret ((reply, host_ae_entropy) :: l)
  end.

Fixpoint get_signatures_ae (base_id : Z) (entropies : list cval) : M (list cval) :=
  match entropies with
  | [] => mret []
  | host_ae_entropy :: entropies =>
      let base_id := base_id + 1 in
      reply ← _jadeRpc env $"get_signature" (CMap [($"ae_host_entropy", host_ae_entropy)]) (Some (str_int base_id));
      l ← get_signatures_ae base_id entropies;
      mret (reply :: l)
  end.

Definition send_tx_inputs_ae (base_id : Z) (inputs : list (list (pystr * cval))) : M (list (cval * cval)) :=
  l ← send_inputs_ae base_id inputs;
  signatures ← get_signatures_ae (base_id + len inputs) (map snd l);
  assert_ (length signatures =? length inputs)%nat;;
  mret (zip (map fst l) signatures).

(** All inputs, and then all replies. *)
Fixpoint write_inputs (base_id : Z) (inputs : list (list (pystr * cval))) : M (list cval) :=
  match inputs with
  | [] => mret []
  | txinput :: inputs =>
      let base_id := base_id + 1 in
      let request := build_request (str_int base_id) (CText $"tx_input") (CMap txinput) in
      write_request env request;;
      l ← write_inputs base_id inputs;
      mret (request :: l)
  end.

Fixpoint read_signatures (requests : list cval) : M (list cval) :=
  match requests with
  | [] => mret []
  | request :: requests =>
      reply ← read_response env false;
      liftS (validate_reply request reply);;
      signature ← liftS (_get_result_or_raise_error reply);
      l ← read_signatures requests;
      mret (signature :: l)
  end.

(** An input that is not to be signed may be [None], which is sent as [{}]. *)
Definition input_params (txinput : option (list (pystr * cval))) : list (pystr * cval) := default [] txinput.

(** A signature, with the commitment of the signer or without. *)
Definition _send_tx_inputs (base_id : Z) (inputs : list (option (list (pystr * cval)))) (use_ae_signatures : bool) : M (list (option cval * cval)) :=
  if use_ae_signatures then l ← send_tx_inputs_ae base_id (map input_params inputs); mret (map (λ cs, (Some cs.1, cs.2)) l)
  else
    requests ← write_inputs base_id (map input_params inputs);
    signatures ← read_signatures requests;
    assert_ (length signatures =? length inputs)%nat;;
    mret (map (λ s, (None, s)) signatures).

(** The first message of a transaction, whose reply must be something. *)
Definition begin_tx (method : pystr) (params : cval) : M Z :=
  n ← randint (env_port env) 1000 9999;
  let base_id := 100 * n in
  reply ← _jadeRpc env method params (Some (str_int base_id));
  assert_ (truthy reply);;
  mret base_id.

Definition sign_liquid_tx (network : pystr) (txn : bytes) (inputs : list (option (list (pystr * cval)))) (commitments change : list cval) (use_ae_signatures : bool)
    (asset_info additional_info : cval) : M (list (option cval * cval)) :=
  base_id ← begin_tx $"sign_liquid_tx" (CMap [($"network", CText network); ($"txn", CBytes txn); ($"num_inputs", CInt (len inputs));
    ($"trusted_commitments", CList commitments); ($"use_ae_signatures", CBool use_ae_signatures); ($"change", CList change);
    ($"asset_info", asset_info); ($"additional_info", additional_info)]);
  _send_tx_inputs base_id inputs use_ae_signatures.

Definition sign_tx (network : pystr) (txn : bytes) (inputs : list (option (list (pystr * cval)))) (change : list cval) (use_ae_signatures : bool) :
    M (list (option cval * cval)) :=
  base_id ← begin_tx $"sign_tx" (CMap [($"network", CText network); ($"txn", CBytes txn); ($"num_inputs", CInt (len inputs));
    ($"use_ae_signatures", CBool use_ae_signatures); ($"change", CList change)]);
  _send_tx_inputs base_id inputs use_ae_signatures.

(** [psbt_out.extend(v)] of a [bytearray]. *)
Definition byte_value (v : cval) : result byte :=
  match num v with Some n => raise_if (negb ((0 <=? n) && (n <? 256))) ValueError;; Ok (chr n) | None => Err TypeError end.
Definition extend_bytes (v : cval) : result bytes := l ← citer v; mapR byte_value l.

(** [v + 1]. *)
Definition succ_value (v : cval) : result Z := match num v with Some n => Ok (n + 1) | None => Err TypeError end.

(** A reply without a sequence number, or the last of the sequence, ends it. *)
Definition last_chunk (reply : cval) : result bool :=
  if c_has $"seqnum" reply then n ← c_item $"seqnum" reply; m ← c_item $"seqlen" reply; Ok (ceq n m) else Ok true.

Fixpoint psbt_chunks (fuel : nat) (msgid : pystr) (request : cval) (psbt_out : bytes) : M bytes :=
  match fuel with
  | O => raise OutOfFuel
  | S fuel =>
      reply ← read_response env false;
      liftS (validate_reply request reply);;
      more ← liftS (v ← _get_result_or_raise_error reply; extend_bytes v);
      let psbt_out := psbt_out ++ more in
      last ← liftS (last_chunk reply);
      if last : bool then mret psbt_out
      else
        n ← randint (env_port env) 100000 999999;
        seqnum ← liftS (v ← c_item $"seqnum" reply; succ_value v);
        seqlen ← liftS (c_item $"seqlen" reply);
        let request := build_request (str_int n) (CText $"get_extended_data")
          (CMap [($"origid", CText msgid); ($"orig", CText $"sign_psbt"); ($"seqnum", CInt seqnum); ($"seqlen", seqlen)]) in
        write_request env request;;
        psbt_chunks fuel msgid request psbt_out
  end.

Definition sign_psbt (network : pystr) (psbt : bytes) : M bytes :=
  n ← randint (env_port env) 100000 999999;
  let msgid := str_int n in
  let request := build_request msgid (CText $"sign_psbt") (CMap [($"network", CText network); ($"psbt", CBytes psbt)]) in
  write_request env request;;
  psbt_chunks (env_rounds env) msgid request [].
End api.

(** ** The anti-exfil protocol

    [answer] is what the device does with a call, whatever its identifier. *)

Section protocol.
Context {E : Type} (dumps : cval → result bytes) (frames : bytes → option (cval * bytes)) (serve : cval → E → list cval * E).
Context (accepts : E → bytes → nat) (pick : E → Z → Z → Z) (clock : E → Z) (noise_source : E → nat → bytes) (load : (nat → state (jade_link E) bytes) → state (jade_link E) cval).
Context (Hlaws : cbor_laws dumps frames load) (Haccepts : ∀ e b, b ≠ [] → (0 < accepts e b)%nat) (requests : option (requests_lib (jade_link E))) (rounds : nat).
Context (answer : pystr → cval → E → (cval + Z) * E).
Notation env := (link_env dumps frames serve accepts pick clock noise_source load requests rounds).

(** The device keeps to [answer], and asks for no HTTP request. *)
Definition keeps : Prop := ∀ id method params e, let '(r, e') := answer method params e in
  answers serve rounds id method params e r e' ∧ ∀ v, r = inl v → c_has $"http_request" v = false.

Definition device_call (method : pystr) (params : cval) : state E cval := λ e, let '(r, e') := answer method params e in (outcome r, e').

Fixpoint device_calls (l : list (pystr * cval)) : state E (list cval) :=
  match l with
  | [] => mret []
  | (method, params) :: l => v ← device_call method params; vs ← device_calls l; mret (v :: vs)
  end.

(** A computation over the link that is one of the device's. *)
Definition is_device_run {A} (m : state (jade_link E) A) (d : state E A) : Prop := ∀ l, quiet l → m l = ((d (jl_state l)).1, mkJadeLink [] [] (d (jl_state l)).2).

Lemma run_ret {A} (a : A) : is_device_run (mret a) (mret a).
Proof. intros [i o e] [Hi Ho]. cbn in *. by subst. Qed.

Lemma run_liftS {A} (r : result A) : is_device_run (liftS r) (liftS r).
Proof. intros [i o e] [Hi Ho]. cbn in *. by subst. Qed.

Lemma run_bind {A B} (m : state (jade_link E) A) d (f : A → state (jade_link E) B) g :
  is_device_run m d → (∀ a, is_device_run (f a) (g a)) → is_device_run (m ≫= f) (d ≫= g).
Proof.
  intros Hm Hf l Hq. unfold mbind, state_bind. rewrite (Hm l Hq). destruct (d (jl_state l)) as [[a|err] e] eqn:Ed; [|done].
  cbn [fst snd]. by rewrite (Hf a (mkJadeLink [] [] e)).
Qed.

Lemma run_call (Hk : keeps) id method params : 0 < len id < 16 → 0 < len method < 32 →
  is_device_run (_jadeRpc env method params (Some id)) (device_call method params).
Proof using Hlaws Haccepts.
  intros Hi Hm l Hq. unfold device_call. specialize (Hk id method params (jl_state l)). destruct (answer method params (jl_state l)) as [r e'] eqn:Ea.
  destruct Hk as [Ha Hh]. by rewrite (rpc_linked dumps frames serve accepts pick clock noise_source load Hlaws Haccepts requests rounds id method params r e' l).
Qed.

(** The identifiers are below it. *)
Definition max_id : Z := Eval vm_compute in 10 ^ 15.

Lemma id_length n : 0 <= n < max_id → 0 < len (str_int n) < 16.
Proof.
  intros Hn. unfold str_int. rewrite (proj2 (Z.ltb_ge n 0)) by lia. pose proof (str_nat_short 15 n ltac:(lia) ltac:(exact Hn)). pose proof (str_nat_nonempty n ltac:(lia)).
  destruct (str_nat n); [done|]. unfold len in *. cbn [length] in *. lia.
Qed.

(** The calls of the two rounds. *)
Definition input_call (txinput : list (pystr * cval)) : pystr * cval := ($"tx_input", CMap (dict_pop $"ae_host_entropy" txinput).1).
Definition signature_call (host_ae_entropy : cval) : pystr * cval := ($"get_signature", CMap [($"ae_host_entropy", host_ae_entropy)]).
Definition entropy_of (txinput : list (pystr * cval)) : cval := (dict_pop $"ae_host_entropy" txinput).2.

(** The protocol: all commitments first, then the entropy, an input at a time. *)
Definition ae_protocol (method : pystr) (params : cval) (inputs : list (list (pystr * cval))) : state E (list (cval * cval)) :=
  reply ← device_call method params;
  assert_ (truthy reply);;
  commitments ← device_calls (map input_call inputs);
  signatures ← device_calls (map (λ i, signature_call (entropy_of i)) inputs);
  mret (zip commitments signatures).

Lemma run_inputs (Hk : keeps) base inputs : 0 <= base → base + len inputs < max_id →
  is_device_run (send_inputs_ae env base inputs) (cs ← device_calls (map input_call inputs); mret (zip cs (map entropy_of inputs))).
Proof using Hlaws Haccepts.
  revert base. induction inputs as [|i inputs IH]; intros base Hb Hl; [apply run_ret|]. rewrite len_cons in Hl. pose proof (len_nonneg inputs). unfold max_id in Hl.
  intros l Hq. cbn [send_inputs_ae map device_calls].
  destruct (dict_pop $"ae_host_entropy" i) as [d v] eqn:Ei.
  assert (input_call i = ($"tx_input", CMap d) ∧ entropy_of i = v) as [-> ->] by (unfold input_call, entropy_of; by rewrite Ei).
  unfold mbind, state_bind. rewrite (run_call Hk (str_int (base + 1)) $"tx_input" (CMap d) (id_length (base + 1) ltac:(unfold max_id; lia)) ltac:(done) l Hq).
  destruct (device_call $"tx_input" (CMap d) (jl_state l)) as [[c|err] e]; cbn [fst snd]; [|done].
  rewrite (IH (base + 1) ltac:(lia) ltac:(unfold max_id; lia) (mkJadeLink [] [] e) ltac:(done)). cbn [jl_state]. unfold mbind, state_bind.
  destruct (device_calls (map input_call inputs) e) as [[cs|err] e']; done.
Qed.

Lemma run_signatures (Hk : keeps) base entropies : 0 <= base → base + len entropies < max_id →
  is_device_run (get_signatures_ae env base entropies) (device_calls (map signature_call entropies)).
Proof using Hlaws Haccepts.
  revert base. induction entropies as [|v l IH]; intros base Hb Hl; [apply run_ret|]. rewrite len_cons in Hl. pose proof (len_nonneg l). unfold max_id in Hl.
  cbn [get_signatures_ae map device_calls signature_call]. apply run_bind.
  - apply (run_call Hk); [apply id_length; unfold max_id; lia|done].
  - intros r. apply run_bind; [apply IH; unfold max_id; lia|intros rs; apply run_ret].
Qed.

Lemma device_calls_length l e vs e' : device_calls l e = (Ok vs, e') → length vs = length l.
Proof.
  revert e vs. induction l as [|[m p] l IH]; intros e vs; cbn [device_calls]; [by intros [= <- _]|].
  intros (v & e1 & _ & (vs' & e2 & H2 & [= <- <-])%state_bind_ok)%state_bind_ok. cbn. f_equal. exact (IH _ _ H2).
Qed.

Lemma run_send_inputs (Hk : keeps) base inputs : 0 <= base → base + 2 * len inputs < max_id →
  is_device_run (send_tx_inputs_ae env base inputs)
    (commitments ← device_calls (map input_call inputs); signatures ← device_calls (map (λ i, signature_call (entropy_of i)) inputs); mret (zip commitments signatures)).
Proof using Hlaws Haccepts.
  intros Hb Hl l Hq. pose proof (len_nonneg inputs). unfold send_tx_inputs_ae. unfold mbind at 1, state_bind at 1.
  rewrite (run_inputs Hk base inputs Hb ltac:(lia) l Hq). unfold mbind, state_bind.
  destruct (device_calls (map input_call inputs) (jl_state l)) as [[cs|err] e] eqn:Ec; [|done]. apply device_calls_length in Ec. rewrite length_map in Ec. unfold mret, state_ret. cbn [fst snd].
  assert (map snd (zip cs (map entropy_of inputs)) = map entropy_of inputs) as -> by (apply snd_zip; rewrite length_map; lia).
  assert (map fst (zip cs (map entropy_of inputs)) = cs) as -> by (apply fst_zip; rewrite length_map; lia).
  rewrite (run_signatures Hk (base + len inputs) (map entropy_of inputs) ltac:(lia) ltac:(unfold len in *; rewrite length_map; lia) (mkJadeLink [] [] e) ltac:(done)).
  rewrite map_map. cbn [jl_state]. destruct (device_calls (map (λ i, signature_call (entropy_of i)) inputs) e) as [[ss|err] e'] eqn:Es; cbn [fst snd]; [|done].
  apply device_calls_length in Es. rewrite length_map in Es. rewrite Es, Nat.eqb_refl. done.
Qed.

(** The parameters of the first message. *)
Definition sign_tx_params (network : pystr) (txn : bytes) (num_inputs : Z) (change : list cval) : cval :=
  CMap [($"network", CText network); ($"txn", CBytes txn); ($"num_inputs", CInt num_inputs); ($"use_ae_signatures", CBool true); ($"change", CList change)].

Lemma run_sign_tx (Hk : keeps) network txn inputs change : (∀ e, 1000 <= pick e 1000 9999 <= 9999) → len inputs <= 1000000000 →
  is_device_run (sign_tx env network txn (map Some inputs) change true)
    (l ← ae_protocol $"sign_tx" (sign_tx_params network txn (len inputs) change) inputs; mret (map (λ cs, (Some cs.1, cs.2)) l)).
Proof using Hlaws Haccepts.
  intros Hp Hn l Hq. unfold sign_tx, begin_tx, ae_protocol. assert (len (map Some inputs) = len inputs) as -> by (unfold len; by rewrite length_map).
  set (base := 100 * pick (jl_state l) 1000 9999). specialize (Hp (jl_state l)).
  unfold mbind, state_bind. cbn [env_port link_env link_port randint]. fold base. fold (sign_tx_params network txn (len inputs) change).
  rewrite (run_call Hk (str_int base) $"sign_tx" (sign_tx_params network txn (len inputs) change) (id_length base ltac:(unfold base, max_id; lia)) ltac:(done) l Hq).
  destruct (device_call _ _ (jl_state l)) as [[reply|err] e]; cbn [fst snd]; [|done]. unfold assert_, liftS, raise_if. destruct (truthy reply); cbn [negb]; [|done].
  unfold _send_tx_inputs. assert (map input_params (map Some inputs) = inputs) as -> by (rewrite map_map; apply map_id). unfold mbind, state_bind, mret, state_ret.
  rewrite (run_send_inputs Hk base inputs ltac:(unfold base; lia) ltac:(unfold base, max_id; lia) (mkJadeLink [] [] e) ltac:(done)). unfold mbind, state_bind. cbn [jl_state].
  destruct (device_calls (map input_call inputs) e) as [[cs|err] e1]; cbn [fst snd]; [|done].
  by destruct (device_calls (map (λ i, signature_call (entropy_of i)) inputs) e1) as [[ss|err] e2].
Qed.
End protocol.

(** ** Signing a PSBT *)

Section signer.
Context {E : Type} (dumps : cval → result bytes) (frames : bytes → option (cval * bytes)) (serve : cval → E → list cval * E).
Context (accepts : E → bytes → nat) (pick : E → Z → Z → Z) (clock : E → Z) (noise_source : E → nat → bytes) (load : (nat → state (jade_link E) bytes) → state (jade_link E) cval).
Context (Hlaws : cbor_laws dumps frames load) (Haccepts : ∀ e b, b ≠ [] → (0 < accepts e b)%nat) (requests : option (requests_lib (jade_link E))) (rounds : nat).
Notation env := (link_env dumps frames serve accepts pick clock noise_source load requests rounds).

(** A part of the signed PSBT, with its number and the number of parts. *)
Definition chunk_reply (id : pystr) (c : bytes) (i n : Z) : cval :=
  CMap [($"id", CText id); ($"result", CBytes c); ($"seqnum", CInt i); ($"seqlen", CInt n)].
Definition sign_psbt_request (id network : pystr) (psbt : bytes) : cval :=
  build_request id (CText $"sign_psbt") (CMap [($"network", CText network); ($"psbt", CBytes psbt)]).
Definition extended_request (id origid : pystr) (i n : Z) : cval :=
  build_request id (CText $"get_extended_data") (CMap [($"origid", CText origid); ($"orig", CText $"sign_psbt"); ($"seqnum", CInt i); ($"seqlen", CInt n)]).

Definition sends (request : cval) (e : E) (reply : cval) (e' : E) : Prop :=
  ∃ noise, serve request e = (noise ++ [reply], e') ∧ Forall is_noise noise ∧ (length noise < rounds)%nat.

(** The device signs a PSBT and hands out the result in parts, as it is asked
    for them; [holds e i n cs]: it has the parts [cs] left, from number [i] of
    [n] on, of the request with that identifier. *)
Record psbt_signer (signed : bytes → bytes) (holds : E → pystr → Z → Z → list bytes → Prop) : Prop := mkPsbtSigner {
  signer_start id network psbt e : ∃ c cs e', sends (sign_psbt_request id network psbt) e (chunk_reply id c 1 (1 + len cs)) e' ∧
    concat (c :: cs) = signed psbt ∧ (length cs < rounds)%nat ∧ holds e' id 2 (1 + len cs) cs;
  signer_more id origid e i n c cs : holds e origid i n (c :: cs) → ∃ e', sends (extended_request id origid i n) e (chunk_reply id c i n) e' ∧ holds e' origid (i + 1) n cs }.

Context (signed : bytes → bytes) (holds : E → pystr → Z → Z → list bytes → Prop) (Hsigner : psbt_signer signed holds).

Lemma extend_bytes_ok c : extend_bytes (CBytes c) = Ok c.
Proof.
  unfold extend_bytes. cbn [citer mbind result_bind]. induction c as [|b c IH]; [done|]. cbn [map mapR]. rewrite IH. unfold byte_value. cbn [num].
  pose proof (ord_range b). rewrite (proj2 (Z.leb_le 0 (ord b))), (proj2 (Z.ltb_lt (ord b) 256)) by lia. cbn. by rewrite chr_ord.
Qed.

Lemma chunk_reply_valid id method params c i n : validate_reply (build_request id method params) (chunk_reply id c i n) = Ok ().
Proof.
  assert (ceq (CText id) (CText id) = true) as He by (by apply bool_decide_eq_true_2). unfold validate_reply.
  assert (c_item $"id" (chunk_reply id c i n) = Ok (CText id)) as -> by done.
  assert (c_item $"id" (build_request id method params) = Ok (CText id)) as -> by done.
  cbn [mbind result_bind]. by rewrite He.
Qed.

Lemma chunk_last id c i n : last_chunk (chunk_reply id c i n) = Ok (i =? n).
Proof. done. Qed.

Lemma chunk_result id c i n : _get_result_or_raise_error (chunk_reply id c i n) = Ok (CBytes c).
Proof. done. Qed.

Lemma chunk_more id c i n : (v ← c_item $"seqnum" (chunk_reply id c i n); succ_value v) = Ok (i + 1) ∧ c_item $"seqlen" (chunk_reply id c i n) = Ok (CInt n).
Proof. done. Qed.

Lemma psbt_chunks_linked fuel origid id method params noise c i n cs out e : Forall is_noise noise → (length noise < rounds)%nat →
  holds e origid (i + 1) n cs → i + len cs = n → (length cs < fuel)%nat →
  ∃ e', psbt_chunks env fuel origid (build_request id method params) out (mkJadeLink [] (concat (map (wire dumps) (noise ++ [chunk_reply id c i n]))) e) =
    (Ok (out ++ c ++ concat cs), mkJadeLink [] [] e').
Proof using Hlaws Haccepts Hsigner.
  revert id method params noise c i cs out e. induction fuel as [|fuel IH]; intros id method params noise c i cs out e Hn Hf Hh Hi Hc; [lia|]. cbn [psbt_chunks].
  rewrite (state_bind_eval _ _ _ _ _ (read_response_linked dumps frames serve accepts pick clock noise_source load Hlaws requests rounds noise (chunk_reply id c i n) false e Hn eq_refl Hf)).
  rewrite chunk_reply_valid, (state_bind_eval (liftS (Ok ())) _ _ _ _ eq_refl), chunk_result, bind_Ok.
  rewrite extend_bytes_ok, (state_bind_eval (liftS (Ok c)) _ _ _ _ eq_refl), chunk_last, (state_bind_eval (liftS (Ok (i =? n))) _ _ _ _ eq_refl).
  destruct cs as [|c' cs].
  - unfold len in Hi. cbn in Hi. replace n with i by lia. rewrite Z.eqb_refl. exists e. cbn [concat]. by rewrite app_nil_r.
  - rewrite len_cons in Hi. pose proof (len_nonneg cs). destruct (Z.eqb_spec i n); [lia|].
    cbn [env_port link_env link_port randint]. set (newid := str_int (pick e 100000 999999)).
    unfold mbind at 1, state_bind at 1. cbn [jl_state]. destruct (chunk_more id c i n) as [-> ->]. unfold mbind at 1, state_bind at 1, liftS at 1.
    unfold mbind at 1, state_bind at 1, liftS at 1. fold newid. fold (extended_request newid origid (i + 1) n).
    destruct (signer_more _ _ Hsigner newid origid e (i + 1) n c' cs Hh) as (e1 & (noise' & Hs & Hn' & Hf') & Hh').
    rewrite (state_bind_eval _ _ _ _ _ (write_request_linked dumps frames serve accepts pick clock noise_source load Hlaws Haccepts requests rounds
      (extended_request newid origid (i + 1) n) _ _ (mkJadeLink [] [] e) (build_sendable newid _ _) (conj eq_refl eq_refl) Hs)).
    cbn [length] in Hc. destruct (IH newid (CText $"get_extended_data") (CMap [($"origid", CText origid); ($"orig", CText $"sign_psbt"); ($"seqnum", CInt (i + 1)); ($"seqlen", CInt n)])
      noise' c' (i + 1) cs (out ++ c) e1 Hn' Hf' Hh' ltac:(lia) ltac:(lia)) as (e' & E1).
    exists e'. unfold extended_request. rewrite E1. by rewrite <- app_assoc.
Qed.

Lemma sign_psbt_linked network psbt l : quiet l → ∃ e', sign_psbt env network psbt l = (Ok (signed psbt), mkJadeLink [] [] e').
Proof using Hlaws Haccepts Hsigner.
  intros Hq. unfold sign_psbt. cbn [env_port link_env link_port randint env_rounds]. set (msgid := str_int (pick (jl_state l) 100000 999999)).
  unfold mbind at 1, state_bind at 1. fold msgid.
  destruct (signer_start _ _ Hsigner msgid network psbt (jl_state l)) as (c & cs & e1 & (noise & Hs & Hn & Hf) & <- & Hc & Hh).
  rewrite (state_bind_eval _ _ _ _ _ (write_request_linked dumps frames serve accepts pick clock noise_source load Hlaws Haccepts requests rounds
    (sign_psbt_request msgid network psbt) _ _ l (build_sendable msgid _ _) Hq Hs)).
  apply (psbt_chunks_linked rounds msgid msgid (CText $"sign_psbt") (CMap [($"network", CText network); ($"psbt", CBytes psbt)]) noise c 1 (1 + len cs) cs [] e1); [done..|lia].
Qed.
End signer.

(** * Properties *)

(** C38: Signing a transaction with [sign_tx] in the anti-exfil mode, as the driver does for
    old firmware, is over the device's messages the anti-exfil protocol: the device is told
    of all inputs, without the entropy of the host, and has committed itself to all signatures
    before it gets any entropy; then it gets the entropy of one input at a time, and what
    is returned are the commitments with their signatures, in the order of the inputs. *)
Theorem jade_signing_protocol {E} (dumps : cval → result bytes) (frames : bytes → option (cval * bytes)) (serve : cval → E → list cval * E)
    (accepts : E → bytes → nat) (pick : E → Z → Z → Z) (clock : E → Z) (noise_source : E → nat → bytes)
    (load : (nat → state (jade_link E) bytes) → state (jade_link E) cval) (Hlaws : cbor_laws dumps frames load)
    (Haccepts : ∀ e b, b ≠ [] → (0 < accepts e b)%nat) (requests : option (requests_lib (jade_link E))) (rounds : nat)
    (answer : pystr → cval → E → (cval + Z) * E) (Hk : keeps serve rounds answer) (Hp : ∀ e, 1000 <= pick e 1000 9999 <= 9999)
    (network : pystr) (txn : bytes) (inputs : list (list (pystr * cval))) (change : list cval) (Hn : len inputs <= 1000000000) (l : jade_link E) (Hq : quiet l) :
  let '(r, e) := ae_protocol answer $"sign_tx" (sign_tx_params network txn (len inputs) change) inputs (jl_state l) in
  sign_tx (link_env dumps frames serve accepts pick clock noise_source load requests rounds) network txn (map Some inputs) change true l =
    (map (λ cs, (Some cs.1, cs.2)) <$> r, mkJadeLink [] [] e) ∧
  Forall (λ i, c_has $"ae_host_entropy" (input_call i).2 = false) inputs.
Proof.
  destruct (ae_protocol _ _ _ _ _) as [r e] eqn:Ea. split.
  - rewrite (run_sign_tx dumps frames serve accepts pick clock noise_source load Hlaws Haccepts requests rounds answer Hk network txn inputs change Hp Hn l Hq).
    unfold mbind, state_bind. rewrite Ea. by destruct r.
  - apply Forall_true. intros i. cbn. apply dict_not_in. intros (kv & Ek & Hkv)%list_elem_of_fmap. apply list_elem_of_filter in Hkv as [Hne _]. by rewrite <- Ek in Hne.
Qed.

(** * Witnesses *)

(** A device that keeps the calls it gets and answers each of them. *)
Definition example_answer (method : pystr) (params : cval) (e : list (pystr * cval)) : (cval + Z) * list (pystr * cval) :=
  (inl (if bool_decide (method = $"sign_tx") then CBool true else CBytes method), e ++ [(method, params)]).

(** The device of the messages that answers in this way. *)
Definition serve_answer {E} (answer : pystr → cval → E → (cval + Z) * E) (request : cval) (e : E) : list cval * E :=
  let params := match c_item $"params" request with Ok v => v | Err _ => CNull end in
  match c_item $"method" request with
  | Ok (CText method) => let '(r, e') := answer method params e in ([log_message; reply_to (id_of request) r], e')
  | _ => ([], e)
  end.

Lemma serve_answer_keeps {E} (answer : pystr → cval → E → (cval + Z) * E) rounds : (1 < rounds)%nat →
  (∀ method params e v, (answer method params e).1 = inl v → c_has $"http_request" v = false) → keeps (serve_answer answer) rounds answer.
Proof.
  intros Hr Hh id method params e. destruct (answer method params e) as [r e'] eqn:Ea. split; [|intros v ->; apply (Hh method params e); by rewrite Ea].
  exists [log_message]. split; [|split; [by repeat constructor|done]]. unfold serve_answer.
  assert (c_item $"method" (build_request id (CText method) params) = Ok (CText method)) as -> by done.
  assert (id_of (build_request id (CText method) params) = id) as -> by done.
  assert (match c_item $"params" (build_request id (CText method) params) with Ok v => v | Err _ => CNull end = params) as -> by (by destruct params).
  by rewrite Ea.
Qed.

Definition example_tx_input (n : Z) : list (pystr * cval) := [($"path", c_path [n]); ($"ae_host_entropy", CBytes [chr n])].

Lemma jade_signing_protocol_witness : ∃ calls,
  sign_tx (example_env (serve_answer example_answer)) $"mainnet" [] (map Some [example_tx_input 1; example_tx_input 2]) [] true (mkJadeLink [] [] []) =
    (Ok [(Some (CBytes $"tx_input"), CBytes $"get_signature"); (Some (CBytes $"tx_input"), CBytes $"get_signature")], mkJadeLink [] [] calls) ∧
  calls = [($"sign_tx", sign_tx_params $"mainnet" [] 2 []); ($"tx_input", CMap [($"path", c_path [1])]); ($"tx_input", CMap [($"path", c_path [2])]);
    ($"get_signature", CMap [($"ae_host_entropy", CBytes [chr 1])]); ($"get_signature", CMap [($"ae_host_entropy", CBytes [chr 2])])].
Proof.
  eexists. split; [|reflexivity]. unfold example_env.
  refine (proj1 (jade_signing_protocol example_dumps example_frames (serve_answer example_answer) example_accepts _ _ _ example_load (example_cbor_laws _)
    ltac:(intros; unfold example_accepts; lia) None 100 example_answer (serve_answer_keeps example_answer 100 ltac:(lia) _) _
    $"mainnet" [] [example_tx_input 1; example_tx_input 2] [] _ (mkJadeLink [] [] []) (conj eq_refl eq_refl))); [|intros; lia|vm_compute; discriminate].
  intros method params e v [= <-]. by case_bool_decide.
Defined.
