(* ===== verification/Jade.v ===== *)
(** * The Jade driver (devices/jade.py)

    JadeClient over the calls of JadeApi.v.  The chain, the expert mode and the
    version of the firmware, which the constructor finds out, are parameters of
    the methods; the state is that of the world behind the port.

    Fuel: [env_rounds] for the authentication of the user and for the passes of
    [legacy_sign_tx], which go on as long as an input wants a signature: an empty
    signature makes it go on for ever. *)

From S2P Require Import Prelude Bytes PyStd PyStr StateM PyJson Common Sha256 Script Tx KeyPath Key PsbtMap PsbtIn PsbtOut Psbt PubkeyProvider.
From S2P Require Import Descriptor RegDescriptor Commands JadeRpc JadeApi.

#[local] Open Scope list_scope.

(** ** Exceptions *)

(** [jade_exception]: a [ValueError], and the codes of [JadeError]. *)
Definition jade_exn (e : pyexn) : pyexn :=
  if is_value_error e then BadArgumentError
  else
    match e with
    | JadeError (Some code) =>
        if code =? JadeCode.USER_CANCELLED then ActionCanceledError
        else if code =? JadeCode.BAD_PARAMETERS then BadArgumentError
        else if code =? JadeCode.INTERNAL_ERROR then DeviceFailureError
        else if code =? JadeCode.HW_LOCKED then DeviceConnectionError
        else if code =? JadeCode.NETWORK_MISMATCH then DeviceConnectionError
        else if bool_decide (code ∈ [JadeCode.INVALID_REQUEST; JadeCode.UNKNOWN_METHOD; JadeCode.PROTOCOL_ERROR]) then DeviceConnectionError
        else e
    | _ => e
    end.

Definition jade_exception {S A} (m : state S A) : state S A := λ s,
  match m s with
  | (Err e, s') => (Err (jade_exn e), s')
  | r => r
  end.

(** ** Names *)

Definition _network (chain : Chain) : result pystr :=
  match chain with
  | MAIN => Ok $"mainnet"
  | TEST | SIGNET => Ok $"testnet"
  | REGTEST => Ok $"localtest"
  | TESTNET4 => Err BadArgumentError
  end.

Definition _convertAddrType (addrType : AddressType) (multisig : bool) : result pystr :=
  match addrType, multisig with
  | LEGACY, false => Ok $"pkh(k)"
  | WIT, false => Ok $"wpkh(k)"
  | SH_WIT, false => Ok $"sh(wpkh(k))"
  | LEGACY, true => Ok $"sh(multi(k))"
  | WIT, true => Ok $"wsh(multi(k))"
  | SH_WIT, true => Ok $"sh(wsh(multi(k)))"
  | TAP, _ => Err KeyError
  end.

(** A signer of a multisig: its fingerprint and the path to its key. *)
Abbreviation signer := (bytes * list Z)%type.

(** The order of lists of integers, and of signers, which are tuples. *)
Fixpoint path_lt (a b : list Z) : bool :=
  match a, b with
  | _, [] => false
  | [], _ :: _ => true
  | x :: a, y :: b => if x =? y then path_lt a b else x <? y
  end.
Definition signer_lt (a b : signer) : bool := if bool_decide (a.1 = b.1) then path_lt a.2 b.2 else negb (bytes_leb b.1 a.1).
Definition sorted_signers (signers : list signer) : list signer := sort_by signer_lt signers.

(** [str(path)]. *)
Definition str_path (path : list Z) : pystr := $"[" ++ join_comma (map str_int path) ++ $"]".

Definition signers_summary (type : pystr) (threshold : Z) (signers : list signer) : pystr :=
  type ++ $"|" ++ str_int threshold ++ $"|" ++ concat (map (λ s : signer, hexlify s.1 ++ $"|" ++ str_path s.2 ++ $"|") (sorted_signers signers)).

(** A path is split after its last hardened step. *)
Fixpoint _split_at_last_hardened_element (path : list Z) : list Z * list Z :=
  match path with
  | [] => ([], [])
  | i :: path =>
      let '(prefix, suffix) := _split_at_last_hardened_element path in
      match prefix with
      | [] => if is_hardened i then ([i], suffix) else ([], i :: suffix)
      | _ => (i :: prefix, suffix)
      end
  end.

Definition _parse_signers (hd_keypath_origins : list KeyOriginInfo) : list signer * list (list Z) :=
  let split := map (λ o, (fingerprint o, _split_at_last_hardened_element (path o))) hd_keypath_origins in
  (map (λ x, (x.1, x.2.1)) split, map (λ x, x.2.2) split).

Section jade.
Context `{Hashes}.

Definition _get_multisig_name (type : pystr) (threshold : Z) (signers : list signer) : pystr :=
  $"hwi" ++ take 12 (hexlify (sha256 (encode_utf8 (signers_summary type threshold signers)))).

(** ** What the legacy protocol tells the device of an input *)

(** The script type, the threshold and the signers of a multisig. *)
Abbreviation multisig_info := (pystr * Z * list signer)%type.

(** The public keys of a multisig script, their origins and so its signers. *)
Definition multisig_of (t : AddressType) (scriptcode : bytes) (hd_keypaths : pydict bytes KeyOriginInfo) : result (option (pystr * multisig_info * list (list Z))) :=
  parsed ← parse_multisig scriptcode;
  match parsed with
  | None => Ok None
  | Some (threshold, pubkeys) =>
      script_variant ← _convertAddrType t true;
      hd_keypath_origins ← mapR (λ k, of_option KeyError (dict_get k hd_keypaths)) pubkeys;
      let '(signers, paths) := _parse_signers hd_keypath_origins in
      Ok (Some (_get_multisig_name script_variant threshold signers, (script_variant, threshold, signers), paths))
  end.

(** What going over the keys of an input finds: the key that is to sign and its
    path, whether a single key of ours was met, and whether another key is to
    sign. *)
Record key_scan := mkScan { sc_pubkey : option bytes; sc_path : option (list Z); sc_single : bool; sc_more : bool }.

Definition is_ours (master_fp : bytes) (origin : KeyOriginInfo) : bool := bool_decide (fingerprint origin = master_fp) && negb (length (path origin) =? 0)%nat.

Definition scan_key (master_fp : bytes) (multisig_input : bool) (partial_sigs : pydict bytes bytes) (sc : key_scan) (kv : bytes * KeyOriginInfo) : key_scan :=
  if is_ours master_fp kv.2 then
    let single := sc_single sc || negb multisig_input in
    if dict_in kv.1 partial_sigs then mkScan (sc_pubkey sc) (sc_path sc) single (sc_more sc)
    else
      match sc_pubkey sc with
      | None => mkScan (Some kv.1) (Some (path kv.2)) single (sc_more sc)
      | Some _ => mkScan (sc_pubkey sc) (sc_path sc) single true
      end
  else sc.

Definition scan_keys (master_fp : bytes) (psbtin : PsbtIn) (single more : bool) : key_scan :=
  foldl (scan_key master_fp (1 <? len (in_hd_keypaths psbtin)) (in_partial_sigs psbtin)) (mkScan None None single more) (in_hd_keypaths psbtin).

(** The output that is spent, and the transaction that has it. *)
Definition spent_output (psbtin : PsbtIn) : result (CTxOut * cval) :=
  match in_non_witness_utxo psbtin with
  | Some tx =>
      raise_if (bool_decide (tx_hash tx ≠ Some (in_prev_txid psbtin))) BadArgumentError;;
      prev_out ← of_option AssertionError (in_prev_out psbtin);
      utxo ← index_py (vout tx) prev_out;
      input_txn_bytes ← serialize_without_witness tx;
      Ok (utxo, CBytes input_txn_bytes)
  | None => utxo ← of_option PlainException (in_witness_utxo psbtin); Ok (utxo, CNull)
  end.

(** The script code, whether it is P2SH and whether it is a witness program's;
    [None] for a witness program that is not known. *)
Definition input_script (psbtin : PsbtIn) (utxo : CTxOut) : option (bytes * bool * bool) :=
  let p2sh := is_p2sh (scriptPubKey utxo) in
  let scriptcode := if p2sh then in_redeem_script psbtin else scriptPubKey utxo in
  let '(witness_input, _, witness_program) := is_witness scriptcode in
  if witness_input then
    if is_p2wsh scriptcode then Some (in_witness_script psbtin, p2sh, true)
    else if is_p2wpkh scriptcode then Some ([chr 0x76; chr 0xa9; chr 0x14] ++ witness_program ++ [chr 0x88; chr 0xac], p2sh, true)
    else None
  else Some (scriptcode, p2sh, false).

Definition input_type (p2sh witness_input : bool) : AddressType := if negb witness_input then LEGACY else if negb p2sh then WIT else SH_WIT.

(** ** Change outputs *)

(** The type of a single-key output that may be change. *)
Definition change_type (txout : CTxOut) (psbtout : PsbtOut) : option AddressType :=
  if CTxOut_is_p2pkh txout then Some LEGACY
  else if (CTxOut_is_witness txout).1.1 && negb (CTxOut_is_p2wsh txout) then Some WIT
  else if CTxOut_is_p2sh txout && (is_witness (out_redeem_script psbtout)).1.1 then Some SH_WIT
  else None.

Definition single_change (master_fp : bytes) (txout : CTxOut) (psbtout : PsbtOut) (kv : bytes * KeyOriginInfo) (change : cval) : result cval :=
  if is_ours master_fp kv.2 then
    match change_type txout psbtout with
    | None => Ok change
    | Some t => script_variant ← _convertAddrType t false; Ok (CMap [($"path", c_path (path kv.2)); ($"variant", CText script_variant)])
    end
  else Ok change.

(** The type of a multisig output that may be change, and its script. *)
Definition multisig_change_type (txout : CTxOut) (psbtout : PsbtOut) : option (AddressType * bytes) :=
  let nested := (is_witness (out_redeem_script psbtout)).1.1 in
  if CTxOut_is_p2sh txout && negb nested then Some (LEGACY, out_redeem_script psbtout)
  else if CTxOut_is_p2wsh txout && negb (CTxOut_is_p2sh txout) then Some (WIT, out_witness_script psbtout)
  else if CTxOut_is_p2sh txout && nested then Some (SH_WIT, out_witness_script psbtout)
  else None.

Definition same_multisig (a b : multisig_info) : bool := bool_decide (a.1 = b.1) && bool_decide (sorted_signers a.2 = sorted_signers b.2).

Definition multisig_change (master_fp : bytes) (candidates : pydict pystr multisig_info) (txout : CTxOut) (psbtout : PsbtOut) (kv : bytes * KeyOriginInfo)
    (change : cval) : result cval :=
  if is_ours master_fp kv.2 then
    match multisig_change_type txout psbtout with
    | None => Ok change
    | Some (t, scriptcode) =>
        m ← multisig_of t scriptcode (out_hd_keypaths psbtout);
        match m with
        | None => Ok change
        | Some (multisig_name, info, paths) =>
            match dict_get multisig_name candidates with
            | Some matched => if same_multisig matched info then Ok (CMap [($"paths", CList (map c_path paths)); ($"multisig_name", CText multisig_name)]) else Ok change
            | None => Ok change
            end
        end
    end
  else Ok change.

(** The same step for each key in turn. *)
Fixpoint each_key (f : bytes * KeyOriginInfo → cval → result cval) (l : list (bytes * KeyOriginInfo)) (change : cval) : result cval :=
  match l with
  | [] => Ok change
  | kv :: l => change ← f kv change; each_key f l change
  end.

Definition output_change (master_fp : bytes) (signing_singlesigs : bool) (signing_multisigs : pydict pystr multisig_info) (out : CTxOut * PsbtOut) : result cval :=
  let '(txout, psbtout) := out in
  let num_signers := len (out_hd_keypaths psbtout) in
  if (num_signers =? 1) && signing_singlesigs then each_key (single_change master_fp txout psbtout) (out_hd_keypaths psbtout) CNull
  else if (1 <? num_signers) && negb (length signing_multisigs =? 0)%nat then
    let candidates := filter (λ kv : pystr * multisig_info, len kv.2.2 = num_signers) signing_multisigs in
    if (length candidates =? 0)%nat then Ok CNull
    else each_key (multisig_change master_fp candidates txout psbtout) (out_hd_keypaths psbtout) CNull
  else Ok CNull.

(** [k in registered] of what the device returned. *)
Definition registered_in (k : pystr) (registered : cval) : result bool :=
  match registered with
  | CMap d => Ok (dict_in k d)
  | CList l => Ok (existsb (ceq (CText k)) l)
  | CText s => Ok (contains k s)
  | _ => Err TypeError
  end.

(** Whether the device has the multisig under that name. *)
Definition is_registered (registered : cval) (kv : pystr * multisig_info) : result bool :=
  let '(name, (variant, threshold, signers)) := kv in
  known ← registered_in name registered;
  if known : bool then
    r ← c_item name registered;
    v ← c_item $"variant" r;
    if ceq v (CText variant) then
      t ← c_item $"threshold" r;
      if ceq t (CInt threshold) then n ← c_item $"num_signers" r; Ok (ceq n (CInt (len signers))) else Ok false
    else Ok false
  else Ok false.

Fixpoint filterR {A} (f : A → result bool) (l : list A) : result (list A) :=
  match l with
  | [] => Ok []
  | x :: l => keep ← f x; r ← filterR f l; Ok (if keep : bool then x :: r else r)
  end.
End jade.

(** ** JadeClient *)

Section client.
Context `{Hashes} {D : Type} (env : jade_env D) (chain : Chain) (expert : bool) (fw_version : Z * Z * Z).
Notation M := (state D).

Definition MIN_SUPPORTED_FW_VERSION : Z * Z * Z := (0, 1, 32).
Definition PSBT_SUPPORTED_FW_VERSION : Z * Z * Z := (0, 1, 47).

(** Text of a reply; where the code uses another value, it raises. *)
Definition text_of (v : cval) : result pystr := match v with CText s => Ok s | _ => Err TypeError end.

(** [str(v)] of a reply; the texts of other values are not modelled. *)
Definition str_of (v : cval) : result pystr :=
  match v with
  | CText s => Ok s
  | CNull => Ok $"None"
  | CBool b => Ok (if b then $"True" else $"False")
  | CInt n => Ok (str_int n)
  | _ => Err WideText
  end.

Definition jade_get_pubkey_at_path (bip32_path : pystr) : M ExtendedKey :=
  jade_exception (
    path ← liftS (parse_path bip32_path);
    network ← liftS (_network chain);
    xpub ← get_xpub env network path;
    liftS (s ← text_of xpub; ExtendedKey_deserialize s)).

Definition jade_get_master_fingerprint : M bytes := k ← jade_get_pubkey_at_path $"m/0h"; mret (parent_fingerprint k).

(** ** Signing with old firmware *)

(** What a pass collects of the inputs: the keys that are to sign, what the
    device is told, and what the passes keep. *)
Record legacy_scan := mkLegacy {
  ls_keys : list (option bytes);
  ls_inputs : list (list (pystr * cval));
  ls_single : bool;
  ls_more : bool;
  ls_multisigs : pydict pystr (pystr * Z * list signer) }.

Definition scan_input (master_fp : bytes) (psbtin : PsbtIn) (ls : legacy_scan) : M legacy_scan :=
  let sc := scan_keys master_fp psbtin (ls_single ls) (ls_more ls) in
  let keys := ls_keys ls ++ [sc_pubkey sc] in
  '(utxo, input_txn_bytes) ← liftS (spent_output psbtin);
  match input_script psbtin utxo with
  | None => mret (mkLegacy keys (ls_inputs ls) (sc_single sc) (sc_more sc) (ls_multisigs ls))
  | Some (scriptcode, p2sh, witness_input) =>
      multisigs ←
        (if (1 <? len (in_hd_keypaths psbtin)) && bool_decide (is_Some (sc_path sc)) && bool_decide (scriptcode ≠ []) && (p2sh || witness_input) then
           m ← liftS (multisig_of (input_type p2sh witness_input) scriptcode (in_hd_keypaths psbtin));
           mret (match m with Some (multisig_name, info, _) => dict_set multisig_name info (ls_multisigs ls) | None => ls_multisigs ls end)
         else mret (ls_multisigs ls));
      ae_host_entropy ← urandom (env_port env) 32;
      ae_host_commitment ← urandom (env_port env) 32;
      let item := [($"is_witness", CBool witness_input); ($"satoshi", CInt (nValue utxo)); ($"script", CBytes scriptcode); ($"path", copt c_path (sc_path sc));
        ($"input_tx", input_txn_bytes); ($"ae_host_entropy", CBytes ae_host_entropy); ($"ae_host_commitment", CBytes ae_host_commitment)] in
      mret (mkLegacy keys (ls_inputs ls ++ [item]) (sc_single sc) (sc_more sc) multisigs)
  end.

Fixpoint scan_inputs (master_fp : bytes) (ins : list PsbtIn) (ls : legacy_scan) : M legacy_scan :=
  match ins with
  | [] => mret ls
  | psbtin :: ins => ls ← scan_input master_fp psbtin ls; scan_inputs master_fp ins ls
  end.

(** The change outputs, and the multisigs that are left; an expert confirms
    every output. *)
Definition find_change (master_fp : bytes) (outs : list (CTxOut * PsbtOut)) (num_outputs : nat) (ls : legacy_scan) :
    M (list cval * pydict pystr (pystr * Z * list signer)) :=
  if expert then mret (replicate num_outputs CNull, ls_multisigs ls)
  else
    multisigs ← (if (length (ls_multisigs ls) =? 0)%nat then mret []
                 else registered ← get_registered_multisigs env; liftS (filterR (is_registered registered) (ls_multisigs ls)));
    change ← liftS (mapR (output_change master_fp (ls_single ls) multisigs) outs);
    mret (change ++ replicate (num_outputs - length change) CNull, multisigs).

(** [if signer_pubkey and sig: psbtin.partial_sigs[signer_pubkey] = sig]; a
    signature is bytes. *)
Definition push_sig (psbtin : PsbtIn) (signer_pubkey : option bytes) (sig : cval) : result PsbtIn :=
  match signer_pubkey with
  | Some ((_ :: _) as k) =>
      if truthy sig then
        match sig with
        | CBytes b => Ok (set_partial_sigs (dict_set k b (in_partial_sigs psbtin)) psbtin)
        | _ => Err TypeError
        end
      else Ok psbtin
  | _ => Ok psbtin
  end.

(** [zip(tx.inputs, signing_pubkeys, signatures)]: the inputs beyond the
    shortest list are left alone. *)
Fixpoint push_sigs (ins : list PsbtIn) (keys : list (option bytes)) (signatures : list (option cval * cval)) : result (list PsbtIn) :=
  match ins, keys, signatures with
  | psbtin :: ins, k :: keys, (_, sig) :: signatures =>
      psbtin ← push_sig psbtin k sig;
      ins ← push_sigs ins keys signatures;
      Ok (psbtin :: ins)
  | _, _, _ => Ok ins
  end.

Definition legacy_pass (master_fp : bytes) (c_txn : CTransaction) (tx : PSBT) (single : bool) (multisigs : pydict pystr (pystr * Z * list signer)) :
    M (PSBT * legacy_scan) :=
  ls ← scan_inputs master_fp (psbt_inputs tx) (mkLegacy [] [] single false multisigs);
  '(change, multisigs) ← find_change master_fp (zip (vout c_txn) (psbt_outputs tx)) (length (psbt_outputs tx)) ls;
  txn_bytes ← liftS (serialize_without_witness c_txn);
  network ← liftS (_network chain);
  signatures ← sign_tx env network txn_bytes (map Some (ls_inputs ls)) change true;
  ins ← liftS (push_sigs (psbt_inputs tx) (ls_keys ls) signatures);
  mret (set_inputs ins tx, mkLegacy (ls_keys ls) (ls_inputs ls) (ls_single ls) (ls_more ls) multisigs).

Fixpoint legacy_passes (fuel : nat) (master_fp : bytes) (c_txn : CTransaction) (tx : PSBT) (single : bool) (multisigs : pydict pystr (pystr * Z * list signer)) : M PSBT :=
  match fuel with
  | O => raise OutOfFuel
  | S fuel =>
      '(tx, ls) ← legacy_pass master_fp c_txn tx single multisigs;
      if ls_more ls then legacy_passes fuel master_fp c_txn tx (ls_single ls) (ls_multisigs ls) else mret tx
  end.

Definition legacy_sign_tx (tx : PSBT) : M PSBT :=
  c_txn ← liftS (get_unsigned_tx tx);
  master_fp ← jade_get_master_fingerprint;
  legacy_passes (env_rounds env) master_fp c_txn tx false [].

(** ** The methods *)

Definition jade_sign_tx (psbt : PSBT) (rds : list RegisteredDescriptor) : M PSBT :=
  jade_exception (
    if version_lt fw_version PSBT_SUPPORTED_FW_VERSION then legacy_sign_tx psbt
    else
      '(psbt_b64, _) ← liftS (psbt_serialize psbt);
      psbt_bytes ← liftS (b64decode (strip psbt_b64));
      network ← liftS (_network chain);
      psbt_bytes ← sign_psbt env network psbt_bytes;
      liftS (psbt_deserialize (b64encode psbt_bytes) PSBT_new)).

Definition jade_sign_message (message bip32_path : pystr) : M pystr :=
  jade_exception (
    path ← liftS (parse_path bip32_path);
    signature ← JadeApi.sign_message env path message;
    liftS (str_of signature)).

Definition jade_display_singlesig_address (bip32_path : pystr) (addr_type : AddressType) : M pystr :=
  jade_exception (
    path ← liftS (parse_path bip32_path);
    script_variant ← liftS (_convertAddrType addr_type false);
    network ← liftS (_network chain);
    address ← get_receive_address env [CText network; c_path path] None 0 (Some script_variant) None None None;
    liftS (str_of address)).

(** What the device is told of a signer, and the path to the address. *)
Definition multisig_signer (pubkey : PubkeyProvider) : result (signer * cval * list Z) :=
  match pp_extkey pubkey, pp_origin pubkey, pp_deriv_path pubkey with
  | Some _, Some origin, Some _ =>
      p ← get_deriv_path 0 0 pubkey;
      Ok (fingerprint origin, path origin,
        CMap [($"fingerprint", CBytes (fingerprint origin)); ($"derivation", c_path (path origin)); ($"xpub", CText (pp_pubkey pubkey)); ($"path", CList [])], p)
  | _, _, _ => Err BadArgumentError
  end.

Definition jade_display_multisig_address (addr_type : AddressType) (multisig : Descriptor) : M pystr :=
  jade_exception (
    match multisig with
    | MultisigDescriptor pubkeys thresh is_sorted =>
        signers ← liftS (mapR multisig_signer pubkeys);
        script_variant ← liftS (_convertAddrType addr_type true);
        let multisig_name := _get_multisig_name script_variant thresh (map (λ x, x.1.1) signers) in
        network ← liftS (_network chain);
        register_multisig env network multisig_name script_variant is_sorted thresh (map (λ x, x.1.2) signers) None;;
        address ← get_receive_address env [CText network; CList (map (λ x, c_path x.2) signers)] None 0 None (Some multisig_name) None None;
        liftS (str_of address)
    | _ => raise AttributeError
    end).

Definition jade_display_bip388_policy_address (rd : RegisteredDescriptor) (index multipath_index : Z) : M pystr :=
  jade_exception (
    network ← liftS (_network chain);
    address ← get_receive_address env [CText network; CInt multipath_index; CInt index] None 0 None None (Some (rd_name rd)) None;
    liftS (str_of address)).

Definition jade_register_descriptor (name : pystr) (descriptor : Descriptor) : M RegisteredDescriptor :=
  jade_exception (
    template ← liftS (get_bip388_template descriptor);
    let datavalues := foldl (λ d p, dict_set ($"@" ++ str_int (pp_expr_index p)) (CText (get_bip388_key_info p)) d) [] (get_pubkey_providers descriptor) in
    network ← liftS (_network chain);
    JadeApi.register_descriptor env network name template (CMap datavalues);;
    mret (RegisteredDescriptor_new name descriptor $"jade" [])).

(** What a Jade does not do from the host. *)
Definition unavailable {A} : M A := raise UnavailableActionError.

Definition jade_ops : client_ops D := {|
  get_pubkey_at_path := jade_get_pubkey_at_path;
  op_master_fingerprint := jade_get_master_fingerprint;
  Commands.sign_tx := jade_sign_tx;
  op_sign_message := jade_sign_message;
  display_singlesig_address := jade_display_singlesig_address;
  display_multisig_address := jade_display_multisig_address;
  display_bip388_policy_address := jade_display_bip388_policy_address;
  can_sign_taproot := mret false;
  op_register_descriptor := jade_register_descriptor;
  op_setup_device _ _ := unavailable;
  op_wipe_device := unavailable;
  op_restore_device _ _ := unavailable;
  op_backup_device _ _ := unavailable;
  op_prompt_pin := unavailable;
  op_send_pin _ := unavailable;
  op_toggle_passphrase := unavailable;
  op_close := disconnect env false;
|}.

(** ** The constructor *)

(** [while not authenticated]. *)
Fixpoint authenticate (fuel : nat) (network : pystr) : M () :=
  match fuel with
  | O => raise OutOfFuel
  | S fuel => authenticated ← auth_user env network None None; if truthy authenticated then mret () else authenticate fuel network
  end.

(** What [semver] reads of a version, without its build and pre-release. *)
Context (parse_version_info : pystr → result (Z * Z * Z)).

(** The version of the firmware of a device that is ready; [simulator]: the
    path is that of the simulator. *)
Definition JadeClient_init (simulator : bool) : M (Z * Z * Z) :=
  connect env;;
  verinfo ← get_version_info env false;
  fw ← liftS (v ← c_item $"JADE_VERSION" verinfo; s ← text_of v; parse_version_info s);
  jade_state ← liftS (c_item $"JADE_STATE" verinfo);
  let uninitialized := negb (existsb (ceq jade_state) [CText $"READY"; CText $"TEMP"]) in
  if version_lt fw MIN_SUPPORTED_FW_VERSION then raise DeviceNotReadyError
  else if simulator then if uninitialized then raise DeviceNotReadyError else mret fw
  else
    let HAS_NETWORKING := bool_decide (is_Some (env_requests env)) in
    if uninitialized && negb HAS_NETWORKING then raise DeviceNotReadyError
    else
      entropy ← urandom (env_port env) 32;
      add_entropy env entropy;;
      network ← liftS (_network chain);
      authenticate (env_rounds env) network;;
      mret fw.
End client.

(** * Lemmas *)

Lemma jade_ok {S A} (m : state S A) s a s' : jade_exception m s = (Ok a, s') ↔ m s = (Ok a, s').
Proof. unfold jade_exception. by destruct (m s) as [[?|?] ?]. Qed.

(** ** The order of signers is total *)

Definition path_le (a b : list Z) : Prop := path_lt b a = false.
Definition signer_le (a b : signer) : Prop := signer_lt b a = false.

Lemma path_lt_trans a b c : path_lt b a = false → path_lt c b = false → path_lt c a = false.
Proof.
  revert b c. induction a as [|x a IH]; intros [|y b] [|z c]; cbn; try done.
  destruct (Z.eqb_spec y x), (Z.eqb_spec z y), (Z.eqb_spec z x); try lia; eauto.
Qed.

Lemma path_lt_antisym a b : path_lt a b = false → path_lt b a = false → a = b.
Proof.
  revert b. induction a as [|x a IH]; intros [|y b]; cbn; try done.
  destruct (Z.eqb_spec x y), (Z.eqb_spec y x); try lia. intros. subst. f_equal. by apply IH.
Qed.

Lemma path_lt_asym a b : path_lt a b = true → path_lt b a = false.
Proof.
  revert b. induction a as [|x a IH]; intros [|y b]; cbn; try done.
  destruct (Z.eqb_spec x y), (Z.eqb_spec y x); try lia. apply IH.
Qed.

Lemma signer_lt_asym a b : signer_lt a b = true → signer_lt b a = false.
Proof.
  destruct a as [f p], b as [g q]. unfold signer_lt. cbn [fst snd]. repeat case_bool_decide; subst; try done; [apply path_lt_asym|].
  intros E%negb_true_iff. apply negb_false_iff. destruct (bytes_leb_total f g); congruence.
Qed.

#[export] Instance signer_le_trans : Transitive signer_le.
Proof.
  intros [f p] [g q] [h r]. unfold signer_le, signer_lt. cbn [fst snd].
  repeat case_bool_decide; subst; try done; rewrite ?negb_false_iff; eauto using path_lt_trans, bytes_leb_trans.
  intros H1 H2. exfalso. eauto using bytes_leb_antisym.
Qed.

#[export] Instance signer_le_antisymm : AntiSymm eq signer_le.
Proof.
  intros [f p] [g q]. unfold signer_le, signer_lt. cbn [fst snd].
  repeat case_bool_decide; subst; try done; rewrite ?negb_false_iff; [intros; f_equal; by apply path_lt_antisym|].
  intros H1 H2. exfalso. eauto using bytes_leb_antisym.
Qed.

Lemma sorted_signers_unique l m : l ≡ₚ m → sorted_signers l = sorted_signers m.
Proof.
  intros Hp. assert (∀ k, StronglySorted signer_le (sorted_signers k)) as Hs.
  { intros k. apply (sort_by_ordered signer_lt signer_le); [intros ??; apply signer_lt_asym|done]. }
  apply (StronglySorted_unique signer_le); [apply Hs..|]. unfold sorted_signers. by rewrite !sort_by_perm.
Qed.

(** ** Splitting paths *)

Lemma split_path path : let '(prefix, suffix) := _split_at_last_hardened_element path in
  path = prefix ++ suffix ∧ Forall (λ i, is_hardened i = false) suffix ∧ ∀ i, last prefix = Some i → is_hardened i = true.
Proof.
  induction path as [|i path IH]; [done|]. cbn [_split_at_last_hardened_element]. destruct (_split_at_last_hardened_element path) as [prefix suffix]. destruct IH as (-> & Hs & Hl).
  destruct prefix as [|j prefix]; [|done]. destruct (is_hardened i) eqn:Ei; (split; [done|]); [split; [done|]; by intros j [= <-]|by split; [constructor|]].
Qed.

(** ** What signing with old firmware changes *)

(** A key of ours of an input. *)
Definition our_key (master_fp : bytes) (x : PsbtIn) (k : bytes) : Prop := ∃ o, (k, o) ∈ in_hd_keypaths x ∧ is_ours master_fp o = true.

(** The input with signatures of keys of ours, and none of those it had changed. *)
Definition signed_more (master_fp : bytes) (x y : PsbtIn) : Prop :=
  ∃ sigs, y = set_partial_sigs sigs x ∧ (∀ k s, dict_get k (in_partial_sigs x) = Some s → dict_get k sigs = Some s) ∧
    ∀ k s, dict_get k sigs = Some s → dict_get k (in_partial_sigs x) = Some s ∨ s ≠ [] ∧ our_key master_fp x k.

#[export] Instance signed_more_refl fp : Reflexive (signed_more fp).
Proof. intros x. exists (in_partial_sigs x). split; [by destruct x|]. split; [done|]. by left. Qed.

#[export] Instance signed_more_trans fp : Transitive (signed_more fp).
Proof.
  intros x y z (s & -> & Hk & Hn) (s' & -> & Hk' & Hn'). exists s'. split; [by destruct x|].
  assert (in_partial_sigs (set_partial_sigs s x) = s) as Es by (by destruct x).
  assert (∀ k, our_key fp (set_partial_sigs s x) k ↔ our_key fp x k) as Eo by (by destruct x). rewrite Es in Hk', Hn'.
  split; [auto|]. intros k v Hv. destruct (Hn' k v Hv) as [Hv'|[Hne Ho]]; [by apply Hn|]. right. split; [done|]. by apply Eo.
Qed.

(** The key that an input is to be signed with is ours, and has no signature. *)
Definition key_wanted (master_fp : bytes) (x : PsbtIn) (k : option bytes) : Prop :=
  ∀ k', k = Some k' → our_key master_fp x k' ∧ dict_get k' (in_partial_sigs x) = None.

Lemma scan_keys_wanted fp x single more : key_wanted fp x (sc_pubkey (scan_keys fp x single more)).
Proof.
  unfold scan_keys. set (f := scan_key _ _ _). assert (∀ l sc, (∀ kv, kv ∈ l → kv ∈ in_hd_keypaths x) → key_wanted fp x (sc_pubkey sc) →
    key_wanted fp x (sc_pubkey (foldl f sc l))) as Hl; [|by apply Hl].
  induction l as [|[k o] l IH]; intros sc Hin Hsc; [done|]. cbn [foldl]. apply IH; [set_solver|]. unfold f, scan_key. cbn [fst snd].
  destruct (is_ours fp o) eqn:Eo; [|done]. destruct (dict_in k (in_partial_sigs x)) eqn:Ek; [done|]. destruct (sc_pubkey sc) as [k0|] eqn:E0; [exact Hsc|].
  intros k' [= <-]. split; [exists o; split; [set_solver|done]|]. unfold dict_in in Ek. by destruct (dict_get k _).
Qed.

Lemma push_sig_signed fp x k sig y : key_wanted fp x k → push_sig x k sig = Ok y → signed_more fp x y.
Proof.
  intros Hw. unfold push_sig. destruct k as [[|c k]|]; [by intros [= <-]| |by intros [= <-]]. destruct (truthy sig) eqn:Et; [|by intros [= <-]].
  destruct sig as [| | |b| | |]; try done. intros [= <-]. destruct (Hw _ eq_refl) as [Ho Hn]. set (key := c :: k) in *. clearbody key.
  exists (dict_set key b (in_partial_sigs x)). split; [done|]. split.
  - intros k' s Hs. rewrite dict_get_set. case_decide; [subst; congruence|done].
  - intros k' s. rewrite dict_get_set. case_decide; [subst|by left]. intros [= <-]. right. split; [|done]. cbn in Et. by apply bool_decide_eq_true in Et.
Qed.

Lemma push_sigs_signed fp ins keys sigs ins' : Forall2 (key_wanted fp) ins keys → push_sigs ins keys sigs = Ok ins' → Forall2 (signed_more fp) ins ins'.
Proof.
  intros H. revert sigs ins'. induction H as [|x k ins keys Hk H IH]; intros sigs ins'; cbn [push_sigs]; [intros [= <-]; constructor|].
  destruct sigs as [|[c sig] sigs]; [intros [= <-]; reflexivity|].
  intros (y & Hy & (ins1 & H1 & [= <-])%bind_ok)%bind_ok. constructor; [by eapply push_sig_signed|by eapply IH].
Qed.

Section legacy.
Context `{Hashes} {D : Type} (env : jade_env D) (chain : Chain) (expert : bool).

Lemma scan_input_keys fp x ls d ls' d' : scan_input env fp x ls d = (Ok ls', d') →
  ls_keys ls' = ls_keys ls ++ [sc_pubkey (scan_keys fp x (ls_single ls) (ls_more ls))].
Proof.
  unfold scan_input. intros ([utxo txn] & d1 & _ & H1)%state_bind_ok. destruct (input_script x utxo) as [[[scriptcode p2sh] wi]|]; [|by injection H1 as <- _].
  by apply state_bind_ok in H1 as (m & d2 & _ & (e & d3 & _ & (c & d4 & _ & [= <- _])%state_bind_ok)%state_bind_ok).
Qed.

Lemma scan_inputs_keys fp ins ls d ls' d' : scan_inputs env fp ins ls d = (Ok ls', d') →
  ∃ keys, ls_keys ls' = ls_keys ls ++ keys ∧ Forall2 (key_wanted fp) ins keys.
Proof.
  revert ls d. induction ins as [|x ins IH]; intros ls d; cbn [scan_inputs].
  - intros [= <- _]. exists []. split; [by rewrite app_nil_r|constructor].
  - intros (ls1 & d1 & H1%scan_input_keys & (keys & H2 & Hk)%IH)%state_bind_ok. exists (sc_pubkey (scan_keys fp x (ls_single ls) (ls_more ls)) :: keys).
    split; [by rewrite H2, H1, <- app_assoc|]. constructor; [apply scan_keys_wanted|done].
Qed.

Lemma legacy_pass_signed fp c_txn tx single multisigs d tx' ls d' : legacy_pass env chain expert fp c_txn tx single multisigs d = (Ok (tx', ls), d') →
  ∃ ins, tx' = set_inputs ins tx ∧ Forall2 (signed_more fp) (psbt_inputs tx) ins.
Proof.
  unfold legacy_pass. intros (ls1 & d1 & (keys & Hk & Hw)%scan_inputs_keys & H1)%state_bind_ok. cbn [ls_keys app] in Hk. subst keys.
  apply state_bind_ok in H1 as ([change ms] & d2 & _ & (b & d3 & _ & (nw & d4 & _ & (sigs & d5 & _ & H2)%state_bind_ok)%state_bind_ok)%state_bind_ok).
  apply state_bind_ok in H2 as (ins & d6 & [= Hins _] & [= <- _ _]). exists ins. split; [done|]. by eapply push_sigs_signed.
Qed.

Lemma legacy_passes_signed fuel fp c_txn tx single multisigs d tx' d' : legacy_passes env chain expert fuel fp c_txn tx single multisigs d = (Ok tx', d') →
  ∃ ins, tx' = set_inputs ins tx ∧ Forall2 (signed_more fp) (psbt_inputs tx) ins.
Proof.
  revert tx single multisigs d. induction fuel as [|fuel IH]; intros tx single multisigs d; [done|]. cbn [legacy_passes].
  intros ([tx1 ls] & d1 & (ins & -> & Hi)%legacy_pass_signed & H1)%state_bind_ok. destruct (ls_more ls); [|injection H1 as <- _; by exists ins].
  apply IH in H1 as (ins' & -> & Hi'). exists ins'. split; [by destruct tx|]. destruct tx. cbn in *. by etransitivity.
Qed.
End legacy.

(** * Properties *)

(** C39: What a Jade with current firmware makes of a PSBT is what the device signs: its bytes cross in one
    request, the result in as many parts as the device likes, and the PSBT that is
    returned, or the exception of parsing it, is that of all parts in their order. *)
Theorem jade_sign_psbt_refines `{Hashes} {E} (dumps : cval → result bytes) (frames : bytes → option (cval * bytes)) (serve : cval → E → list cval * E)
    (accepts : E → bytes → nat) (pick : E → Z → Z → Z) (clock : E → Z) (noise_source : E → nat → bytes)
    (load : (nat → state (jade_link E) bytes) → state (jade_link E) cval) (Hlaws : cbor_laws dumps frames load)
    (Haccepts : ∀ e b, b ≠ [] → (0 < accepts e b)%nat) (requests : option (requests_lib (jade_link E))) (rounds : nat)
    (signed : bytes → bytes) (holds : E → pystr → Z → Z → list bytes → Prop) (Hs : psbt_signer serve rounds signed holds)
    (chain : Chain) (expert : bool) (fw_version : Z * Z * Z) (psbt p' : PSBT) (data : bytes) (rds : list RegisteredDescriptor) (l : jade_link E)
    (Hchain : chain ≠ TESTNET4) (Hfw : version_lt fw_version PSBT_SUPPORTED_FW_VERSION = false) (Hw : psbt_write psbt = Ok (data, p')) (Hq : quiet l) :
  ∃ e, jade_sign_tx (link_env dumps frames serve accepts pick clock noise_source load requests rounds) chain expert fw_version psbt rds l =
    (match psbt_deserialize (b64encode (signed data)) PSBT_new with Ok p => Ok p | Err x => Err (jade_exn x) end, mkJadeLink [] [] e).
Proof.
  destruct (_network chain) as [network|] eqn:En; [|by destruct chain].
  destruct (sign_psbt_linked dumps frames serve accepts pick clock noise_source load Hlaws Haccepts requests rounds signed holds Hs network data l Hq) as (e & E1).
  exists e. unfold jade_sign_tx, jade_exception. rewrite Hfw. unfold psbt_serialize. rewrite Hw, bind_Ok.
  rewrite (state_bind_eval (liftS (Ok (b64encode data, p'))) _ _ _ _ eq_refl), b64decode_b64encode, (state_bind_eval (liftS (Ok data)) _ _ _ _ eq_refl).
  rewrite En, (state_bind_eval (liftS (Ok network)) _ _ _ _ eq_refl), (state_bind_eval _ _ _ _ _ E1). unfold liftS.
  by destruct (psbt_deserialize (b64encode (signed data)) PSBT_new).
Qed.

(** C40: Signing with a Jade that has old firmware only adds signatures, whatever the device answers: nothing of
    the PSBT changes but the partial signatures of its inputs, none that was there is
    changed, and each that is added is for a key of the input whose origin is the
    device's own fingerprint and a path. *)
Theorem jade_legacy_adds_only `{Hashes} {D : Type} (env : jade_env D) (chain : Chain) (expert : bool) (fw_version : Z * Z * Z) (psbt psbt' : PSBT)
    (rds : list RegisteredDescriptor) (d d' : D) (Hfw : version_lt fw_version PSBT_SUPPORTED_FW_VERSION = true)
    (Hr : jade_sign_tx env chain expert fw_version psbt rds d = (Ok psbt', d')) :
  ∃ fp ins d1, jade_get_master_fingerprint env chain d = (Ok fp, d1) ∧ psbt' = set_inputs ins psbt ∧ Forall2 (signed_more fp) (psbt_inputs psbt) ins.
Proof.
  unfold jade_sign_tx in Hr. rewrite Hfw in Hr. apply (proj1 (jade_ok _ _ _ _)) in Hr. unfold legacy_sign_tx in Hr.
  apply state_bind_ok in Hr as (c_txn & d0 & [= _ <-] & (fp & d1 & Hfp & (ins & -> & Hi)%legacy_passes_signed)%state_bind_ok). by exists fp, ins, d1.
Qed.

(** The name under which a multisig is registered with a Jade does not depend on the order of its signers,
    nor does the test whether an output is change of the multisig: the signers of the
    descriptor, of an input's script and of an output's script, in whatever order, are
    found under the same name; the path of a signer is split where the last hardened step
    is, so that nothing of it is lost. *)
Theorem multisig_name_order `{Hashes} (type : pystr) (threshold : Z) (signers signers' : list signer) (Hp : signers ≡ₚ signers') :
  _get_multisig_name type threshold signers = _get_multisig_name type threshold signers' ∧
  same_multisig (type, threshold, signers) (type, threshold, signers') = true ∧
  ∀ path, let '(prefix, suffix) := _split_at_last_hardened_element path in
    path = prefix ++ suffix ∧ Forall (λ i, is_hardened i = false) suffix ∧ ∀ i, last prefix = Some i → is_hardened i = true.
Proof.
  split; [|split; [|apply split_path]].
  - unfold _get_multisig_name, signers_summary. by rewrite (sorted_signers_unique _ _ Hp).
  - unfold same_multisig. rewrite !bool_decide_eq_true_2; [done|by apply sorted_signers_unique|done].
Qed.

(** * Witnesses *)

(** A device that hands out a signed PSBT in two parts: the second one. *)
Definition example_psbt_device (request : cval) (e : bytes) : list cval * bytes :=
  let id := id_of request in
  match c_item $"params" request with
  | Ok (CMap d) =>
      match dict_get $"psbt" d, dict_get $"seqnum" d, dict_get $"seqlen" d with
      | Some (CBytes psbt), _, _ => let out := example_signing psbt in ([log_message; chunk_reply id (take 100 out) 1 2], drop 100 out)
      | _, Some (CInt i), Some (CInt n) => ([chunk_reply id e i n], [])
      | _, _, _ => ([], e)
      end
  | _ => ([], e)
  end.

Lemma example_psbt_signer : psbt_signer example_psbt_device 100 example_signing (λ e origid i n cs, cs = [] ∨ cs = [e]).
Proof.
  split.
  - intros id network psbt e. exists (take 100 (example_signing psbt)), [drop 100 (example_signing psbt)], (drop 100 (example_signing psbt)).
    split; [|split; [|split]].
    + exists [log_message]. split; [reflexivity|]. split; [by repeat constructor|cbn; lia].
    + cbn [concat]. by rewrite app_nil_r, take_drop.
    + cbn. lia.
    + by right.
  - intros id origid e i n c cs [?|[= -> ->]]; [done|]. exists []. split; [|by left]. exists []. split; [reflexivity|]. split; [constructor|cbn; lia].
Qed.

Lemma jade_sign_psbt_refines_witness : ∃ e p, jade_sign_tx (example_env example_psbt_device) MAIN false (1, 0, 0) example_psbt0 [] (mkJadeLink [] [] []) =
    (Ok p, mkJadeLink [] [] e) ∧ map in_tap_key_sig (psbt_inputs p) = [replicate 64 (chr 7)].
Proof.
  set (data := psbt_bytes example_psbt0).
  destruct (psbt_write example_psbt0) as [[d p']|e] eqn:Ew; [|exfalso; vm_compute in Ew; discriminate].
  assert (d = data) as -> by (unfold data, psbt_bytes; rewrite Ew; reflexivity).
  destruct (jade_sign_psbt_refines example_dumps example_frames example_psbt_device example_accepts (λ _ a _, a) (λ _, 1700000000) (λ _ n, replicate n (chr 5))
    example_load (example_cbor_laws _) ltac:(intros; unfold example_accepts; lia) None 100 example_signing _ example_psbt_signer
    MAIN false (1, 0, 0) example_psbt0 p' data [] (mkJadeLink [] [] []) ltac:(discriminate) eq_refl Ew (conj eq_refl eq_refl)) as (e & E1).
  assert (∃ p, psbt_deserialize (b64encode (example_signing data)) PSBT_new = Ok p ∧ map in_tap_key_sig (psbt_inputs p) = [replicate 64 (chr 7)]) as (p & Hp & Hk)
    by (eexists; split; [vm_compute; reflexivity|reflexivity]).
  clear - E1 Hp Hk. clearbody data. rewrite Hp in E1. exists e, p. split; [exact E1|exact Hk].
Defined.

(** A port that has its replies already, one for each message that is read. *)
Definition scripted : jade_env (list cval) := mkJadeEnv
  (mkJadePort (mret ()) (mret ()) (λ _, mret []) (λ b, mret (length b)) (λ a _, mret a) (mret 0) (λ n, mret (replicate n (chr 5))))
  (mkCbor (λ _, Ok [chr 0]) (λ _ l, match l with v :: l => (Ok v, l) | [] => (Err EOFError, []) end)) None 3.

Definition example_legacy_origin (n : Z) : KeyOriginInfo := {| fingerprint := map chr [1; 2; 3; 4]; path := [H_ 84; H_ 0; H_ 0; 0; n] |}.
Definition example_legacy_input : PsbtIn :=
  set_hd_keypaths [([chr 2; chr 1], example_legacy_origin 1); ([chr 2; chr 2], example_legacy_origin 2)]
    (set_witness_utxo (Some {| nValue := 10000; scriptPubKey := witness_script 0 (replicate 20 (chr 0x11)) |}) (PsbtIn_new 0)).
Definition example_legacy_psbt : PSBT := set_inputs [example_legacy_input] PSBT_new.

(** Two passes, for the two keys of the input. *)
Definition example_pass (sig : Z) : list cval :=
  [reply_to $"100000" (inl (CBool true)); reply_to $"100001" (inl (CBytes [])); reply_to $"100002" (inl (CBytes [chr sig]))].
Definition example_script : list cval :=
  reply_to $"100000" (inl (CText (match ExtendedKey_to_string example_xpub with Ok s => s | Err _ => [] end))) :: example_pass 8 ++ example_pass 9.

Definition example_legacy_signed : PSBT := set_inputs [set_partial_sigs [([chr 2; chr 1], [chr 8]); ([chr 2; chr 2], [chr 9])] example_legacy_input] example_legacy_psbt.

Lemma jade_legacy_adds_only_witness : jade_sign_tx scripted MAIN false (0, 1, 40) example_legacy_psbt [] example_script = (Ok example_legacy_signed, []) ∧
  ∃ fp ins d1, jade_get_master_fingerprint scripted MAIN example_script = (Ok fp, d1) ∧ example_legacy_signed = set_inputs ins example_legacy_psbt ∧
    Forall2 (signed_more fp) (psbt_inputs example_legacy_psbt) ins.
Proof.
  assert (jade_sign_tx scripted MAIN false (0, 1, 40) example_legacy_psbt [] example_script = (Ok example_legacy_signed, [])) as E1 by (vm_compute; reflexivity).
  split; [exact E1|]. exact (jade_legacy_adds_only scripted MAIN false (0, 1, 40) example_legacy_psbt example_legacy_signed [] example_script [] eq_refl E1).
Defined.

Lemma multisig_name_order_witness : let a : signer := (map chr [1; 2; 3; 4], [H_ 48]) in let b : signer := (map chr [9; 2; 3; 4], [H_ 45]) in
  _get_multisig_name $"wsh(multi(k))" 2 [a; b] = _get_multisig_name $"wsh(multi(k))" 2 [b; a].
Proof. cbv zeta. apply (multisig_name_order $"wsh(multi(k))" 2). constructor. Defined.

(** An input with a witness program that is not known is left out of what the
    device is told, but not of the list of inputs that the signatures are put
    in: the signature of the input after it is lost. *)
Definition example_taproot_input : PsbtIn := set_witness_utxo (Some {| nValue := 10000; scriptPubKey := witness_script 1 (replicate 32 (chr 0x11)) |}) (PsbtIn_new 0).
Definition example_single_input : PsbtIn := set_hd_keypaths [([chr 2; chr 1], example_legacy_origin 1)] example_legacy_input.
Definition example_mixed_psbt : PSBT := set_inputs [example_taproot_input; example_single_input] PSBT_new.

Lemma skipped_input_loses_signature : jade_sign_tx scripted MAIN false (0, 1, 40) example_mixed_psbt [] (take 4 example_script) = (Ok example_mixed_psbt, []).
Proof. vm_compute. reflexivity. Qed.
